(* ===== verification/_CoqProject ===== *)
-Q . S2P
Prelude.v
Utf8.v
Sha256.v
Encoding.v
SecureStore.v
Envelope.v
Negotiation.v
Stream.v
StreamFacts.v
ReplayBuffer.v
SessionLifecycle.v
ContentPolicy.v
Aggregate.v
Transfer.v
TransferQuota.v
TransferContent.v
TransferStorage.v
StagingDirectory.v
TransferExamples.v
Ticket.v
DeviceIdentity.v
DeviceIdentityFacts.v
DeviceIdentityExamples.v
Pairing.v
PairingFacts.v
Handshake.v
HandshakeFacts.v
PairingFlow.v
PairingFlowFacts.v
PairingTransport.v
PairingTransportFacts.v
PairingExamples.v
Path.v
Workspace.v
StagingSession.v
PairedSession.v
Router.v
RelayServer.v
RelayClient.v
RelayManager.v
RateLimit.v
GoNet.v
ToolAdapter.v
GoTime.v
AgentConfig.v
Startup.v
AgentManagement.v
LocalDial.v
PairedSessionExamples.v
PromptAction.v
AgentLog.v
WebsocketWriter.v
TerminalSession.v
SessionServer.v
TerminalSessionFacts.v
SessionRuns.v
SessionBehaviour.v
ServerRuns.v
SessionExamples.v
AppRoutes.v
TerminalLaunch.v
Reconnect.v
RuntimeState.v
ServiceTask.v
RelayServing.v
RelayRendezvous.v
RelayAdmin.v
RelayExamples.v
RelayMain.v
RelayClientExamples.v
UnknownFields.v
ServiceCommand.v
ServiceExamples.v
AgentManagementFacts.v
Recover.v
Tray.v
AgentRun.v
AgentExamples.v
