(* ===== verification/Prelude.v ===== *)
(** * VibeBridge: a verification library

    VibeBridge runs AI command-line sessions on a computer and lets a phone control
    them.  The Agent on the computer owns a pseudo-terminal session and speaks a
    sequenced protocol over a WebSocket, directly or through a self-hosted relay; files
    the phone uploads are staged beside the workspace and handed to the session; a
    phone is paired with the Agent by an invitation it scans and by the approval of
    the user at the computer.  This library models the Go code of the Agent and of the
    relay, from the command line to the bytes on the wire, and proves what makes each
    part correct and the parts fit together.

    ** How the parts fit together

    An upgrade request passes the gate ([internal/server/pairedsession.go]), which
    spends a nonce signed by a device the Agent has authorized
    ([internal/deviceidentity]); devices are authorized by the pairing flow
    ([internal/pairing], [internal/pairingflow], [internal/e2ee]).  The connection then
    negotiates ([internal/protocol/negotiation.go]) and its messages travel in numbered
    envelopes ([internal/protocol/stream.go]).  The server ([internal/server/server.go])
    creates a session in a directory of the workspace ([internal/workspace]), attaches
    the connection to it and serves its messages; a session's state machine
    ([session_lifecycle.go]) decides who may attach, and its output waits in a bounded
    replay buffer ([replay_buffer.go]) while nobody is attached.  Attachments arrive in
    chunks at a transfer manager ([internal/attachment/transfer.go]), which checks them
    ([content_policy.go]), writes them through a staging directory ([fileops.go],
    [staging.go]) and accounts for them in a tracker shared by sessions
    ([aggregate.go]); a prompt that names them is shown to the user before it is typed
    ([internal/tooladapter], [internal/promptaction]).  The relay admits connections
    with signed single-use tickets ([internal/relay/ticket.go], [epoch.go]), joins the
    two ends of a route and forwards bytes between them ([router.go], [server.go]).

    Around this stand the programs.  The Agent ([cmd/vibebridge]) resolves its options
    from flags and a configuration ([main.go]), opens its identity, the relay, the
    pairing and the sessions, and serves one handler ([agent_management.go]): the
    session application, the endpoints of the local user, and the WebSocket on which a
    phone is paired ([pairing_transport.go]).  The tray ([tray.go]) and the service
    command ([service_command.go], [internal/agentservice]) are its clients and its
    installer, and meet it in a file that holds its runtime state; [recover.go] edits
    the identity when it does not run.  The relay ([cmd/viberelay]) is a program of its
    own.

    ** Files

    - [Prelude]: bytes, Go strings, machine integers, Go errors ([error],
      [errors_is]), the [result] monad, record update, tactics ([go_cases],
      [split_bool], [inv_ok]), hint databases, sums over finite maps.
    - [Utf8]: the standard library's UTF-8 decoder and the streaming validator of
      [transfer.go]; chunk boundaries do not matter.  [Sha256]: SHA-256, executable.
      [Encoding]: hexadecimal and base64.  [Path]: [path/filepath] on Unix.
    - [SecureStore]: the store of secrets, whose atomic write is a sequence of system
      calls that may fail.
    - [Envelope], [Negotiation]: the messages and the Hello exchange.  The protobuf
      codec is the class [ProtoCodec].
    - [Stream], [StreamFacts]: [AgentStream], one definition per
      method; runs of its operations; contiguity of sequence numbers in both
      directions, pings and pongs, soundness of decoding, the bisection that cuts
      output into envelopes; an executed stream.
    - [ReplayBuffer], [SessionLifecycle]: the buffer and the state machine, with
      their theorems and executed runs.
    - [ContentPolicy]: declarations and header checks; [mime.ParseMediaType] and
      [http.DetectContentType] are the class [GoMime].
    - [Aggregate], [Transfer]: the tracker and the transfer manager.  A method is a
      function from [World] (manager, session counters, tracker, directory) to
      [World]; the staging directory is the class [StagingOps].
    - [TransferQuota], [TransferContent]: runs of the manager's
      operations, with any answers of the storage; the counters agree with the
      transfers and respect the limits; the tracker counts exactly what is reserved
      (and what failed [Begin]s leak); what completes is what was declared and
      uploaded, read off the history of accepted requests.
    - [TransferStorage]: the contract of the staging directory ([StagingLaws]) and the
      refinement theorem against it: published files hold the uploaded bytes.
    - [StagingDirectory]: the operations of [fileops.go] over a model of [os.Root]
      with hard links, where any system call may fail and a failing write may store
      a prefix; it discharges [StagingLaws].  [TransferExamples]: an executed upload.
    - [Ticket]: issuing, verification, the replay set, the revocation gate.  Ed25519
      and the protobuf encoding are the class [TicketCrypto].
    - [DeviceIdentity], [DeviceIdentityFacts], [DeviceIdentityExamples]: descriptors,
      the identity file, authorization and revocation; the refinement of an abstract
      graph of devices and the durability of acknowledged updates.  The primitives are
      the class [IdentityCrypto], the JSON encoding is [JsonCodec].
    - [Pairing], [PairingFacts]: the manager of invitations; an invitation is spent
      once.  [GoUrl] and [InvitationCodec] are its parameters.
    - [Handshake], [HandshakeFacts]: both ends of the pairing and of the session
      handshake and the transport, over the class [Noise]; who is authenticated.
    - [PairingFlow], [PairingFlowFacts], [PairingExamples]: the coordinator of pairing,
      whose waiting calls receive from channels; only an approval authorizes, every
      flow is told exactly once.
    - [Workspace]: the registry of workspaces and the launch
      directory, over the class [FileSystem].
    - [StagingSession]: creation and clean-up of the staging
      directories of sessions; what they may create and remove.
    - [PairedSession], [PairedSessionExamples]: nonces, the gate
      of upgrades and the endpoints that give out credentials.
    - [ToolAdapter], [PromptAction]: the text
      typed for a prompt with attachments, and the registry of prompts the user is
      shown and commits.
    - [AgentLog]: the events the Agent logs.
    - [WebsocketWriter]: the writing side of a connection and
      the Hello exchange; output of any length is delivered.
    - [TerminalSession]: [ptySession], one definition per method, on a [Scene]: the
      session, the writers of the connections, the shared tracker, the disk.
      [SessionServer]: [Server], its handlers and the loop that serves a connection.
    - [TerminalSessionFacts], [SessionRuns], [SessionBehaviour]: the invariant of a
      session, its runs with the output kept while nobody is attached, what a client
      that attaches is told and sent, acknowledged input, the end of the process.
      [ServerRuns]: interleavings of requests and sessions; one session lives at a
      time; the handler of a connection is a sequence of atomic steps.
      [SessionExamples]: executed sessions and connections.
    - [Router]: the route table, whose peers are objects with an
      identity and may be closed; reachability by rule induction; isolation of
      routes, exact effects of each operation.
    - [RelayServer]: admission and accounting of connections, the ticket frame, the
      path from a connection to a route, the origin check, shutdown.
      [RelayExamples]: an executed relay and its serving loop.
    - [RelayClient]: the pair of tickets, the dialled stream with
      its read pump, the bridges; frames arrive whole and in order.  [RelayRendezvous]:
      the pair presented to [RelayServer] opens one route.  [RelayAdmin]: the endpoint
      that mints tickets, against the gate of [Ticket].  [RelayManager]: provisioned and active routes; a ticket is dialled once.
      [RelayClientExamples]: the executed witnesses of these and of the
      relay's entry point.
    - [GoTime]: IEEE 754 doubles and [time.ParseDuration].  [AgentConfig]: loading and validating the configuration of the Agent, over
      the workspaces of [Workspace].  [RateLimit]: the limiter of requests.
      [Reconnect]: the delays between attempts and the retry loop.
    - [RelayServing]: the read loop of a
      relay connection and the process that serves any number of them; in every
      interleaving only holders of tickets are heard, in order, and whoever goes is
      forgotten.
    - [AppRoutes]: the routes of the application and the keep-alive.
      [TerminalLaunch]: the launcher of a terminal and the
      process trees of Unix and Windows, two instances of one class with laws; nothing
      is left running.
    - [GoNet]: addresses and ports of [net].  [Startup]: options,
      environment and diagnostics of the Agent.
    - [RuntimeState]: the file of the runtime state, a register whatever the system
      calls do.  [ServiceTask]: the definition of the Windows task,
      whose arguments survive their quoting, and the commands that install it.
      [ServiceCommand]: the service command; it installs what it has checked.
      [ServiceExamples]: these, executed.
    - [PairingTransport], [PairingTransportFacts]: the pairing connection as a state
      machine, beside other connections and the user; no pairing outlives its
      connection, a phone is told what the user decided, and what is shown of a
      pairing.  [PairingExamples] executes this too.
    - [AgentManagement], [AgentManagementFacts]: the endpoints of the local user; outsiders change nothing, trust follows the user, a
      revoked device is out.  [LocalDial]: the Agent's connection to itself,
      through the queries of [net/url]; executed in [PairedSessionExamples].
    - [Tray]: the tray; the user approves what it shows.
    - [AgentRun]: a run of the Agent, which closes
      what it opens and whose runtime state follows it.
    - [Recover]: the recovery command, and what becomes of it when the Agent runs.
    - [AgentExamples]: the management endpoints, the recovery command, the tray and
      the run of the Agent, executed.
    - [RelayMain]: the relay's entry point, its key and its gate, and the order in which it stops.
    - [UnknownFields]: the walk that rejects unknown protobuf fields.

    ** Conventions

    A Go [[]byte] is a list of bytes, a [string] a Rocq string, an integer a [Z]
    with its wrap-around ([u64], [i64]) written where the code computes; times and
    durations are nanoseconds.  A method that fails returns [Err] and the state it
    leaves behind.  Every method runs under its object's lock in the code, so a
    method is one step; concurrency is the order of the steps, which the theorems
    leave open.  Where the code releases a lock in the middle, the parts are separate
    definitions ([createSession] and [installSession], [exitSession] and
    [cleanUpSession]) and separate steps.  What the code reads from outside (clock,
    randomness, outcome of a system call or of a write to a socket, order of a map's
    iteration) is an argument or a class, whose laws are classes of their own with an
    executable instance in the examples.  Nil receivers and goroutine scheduling inside
    a method are not modelled.

    ** Bounds and fuel

    [DecodeRune] loops, the bisection of [EncodeTerminalOutputChunk], [writeChunks] and
    [writeInputLoop] recurse on the length of their input, which every iteration
    shortens; [createPartialLocked] tries four names, as the code does.  The theorems
    on sequence numbers hold below the 64-bit limit, stated as a bound on the length
    of the run; the number of requests the limiter counts is bounded in the same way.
    [ParseDuration] recurses on the length of the text, each term of which takes a
    digit and a unit.

    ** Not modelled

    The web application, the desktop shell and the generated bindings are in other
    languages.  Sockets, the HTTP server, gorilla/websocket, protobuf, JSON, Noise,
    the signature schemes and the file server enter through the outcomes of their
    calls or as classes.  Of Windows, DPAPI, the named mutexes around the identity and
    the runtime state, the final paths of handles and what the tray draws are system
    calls without logic of their own.  Read deadlines, the pings of the relay and the
    scheduling of goroutines within a method are left out.  Nothing that remains
    decides anything that the parts above rely on. *)

From Stdlib Require Export ZArith Strings.Byte Ascii String Lia ZifyBool.
From stdpp Require Export base tactics decidable countable list option gmap
  sets strings numbers relations sorting pretty.

#[global] Open Scope Z_scope.

(** ** Byte strings, Go strings and fixed-width integers *)

(** A Go [[]byte] is a list of bytes; a Go [string] is a Rocq [string], whose
    characters are 8 bits wide like the bytes of a Go string. *)
Abbreviation bytes := (list byte).

#[global] Instance byte_eq_decision : EqDecision byte := Byte.byte_eq_dec.

#[global] Instance byte_countable : Countable byte.
Proof. refine (inj_countable Byte.to_N Byte.of_N _). by intros []. Defined.

(** Go's [len], on slices and on strings. *)
Definition len {A} (l : list A) : Z := Z.of_nat (length l).
Definition slen (s : string) : Z := Z.of_nat (String.length s).

(** [string(b)]: the conversion Go performs to use a byte slice as a map key. *)
Fixpoint string_of_bytes (b : bytes) : string :=
  match b with
  | [] => EmptyString
  | x :: b' => String (ascii_of_byte x) (string_of_bytes b')
  end.

(** [hex.EncodeToString]. *)
Definition hexDigit (n : N) : ascii :=
  if (n <? 10)%N then ascii_of_N (48 + n) else ascii_of_N (87 + n).

Fixpoint hexEncode (b : bytes) : string :=
  match b with
  | [] => EmptyString
  | x :: b' =>
      String (hexDigit (Byte.to_N x / 16)) (String (hexDigit (Byte.to_N x mod 16)) (hexEncode b'))
  end.

(** Wrap-around of the unsigned and signed machine integers the code uses. *)
Definition u32 (z : Z) : Z := z `mod` 2 ^ 32.
Definition u64 (z : Z) : Z := z `mod` 2 ^ 64.
Definition i64 (z : Z) : Z := (z + 2 ^ 63) `mod` 2 ^ 64 - 2 ^ 63.

Definition is_u64 (z : Z) : Prop := 0 <= z < 2 ^ 64.
Definition is_u32 (z : Z) : Prop := 0 <= z < 2 ^ 32.

(** ** Errors and results *)

(** A Go [error]: the message of [errors.New] (or the format string of a
    [fmt.Errorf] without [%w]), a message wrapping a cause ([%w]), or the
    [errors.Join] of two errors. *)
Inductive error : Type :=
  | ErrorString (message : string)
  | ErrorWrap (message : string) (cause : error)
  | ErrorJoin (first second : error).

#[global] Instance error_eq_dec : EqDecision error.
Proof. solve_decision. Defined.

(** [errors.Is]: the error, or an error it wraps or joins, is the target. *)
Fixpoint errors_is (e target : error) : bool :=
  bool_decide (e = target) ||
  match e with
  | ErrorString _ => false
  | ErrorWrap _ c => errors_is c target
  | ErrorJoin a b => errors_is a target || errors_is b target
  end.

(** [err.Error()]. *)
Fixpoint errorMessage (e : error) : string :=
  match e with
  | ErrorString m => m
  | ErrorWrap m c => (m ++ ": " ++ errorMessage c)%string
  | ErrorJoin a b => (errorMessage a ++ String "010" (errorMessage b))%string
  end.

Inductive result (A : Type) : Type :=
  | Ok (a : A)
  | Err (e : error).
Arguments Ok {A} _.
Arguments Err {A} _.

Definition is_ok {A} (r : result A) : bool :=
  match r with Ok _ => true | Err _ => false end.

#[global] Instance result_ret : MRet result := fun A a => Ok a.
#[global] Instance result_bind : MBind result := fun A B f r =>
  match r with Ok a => f a | Err e => Err e end.

(** The early return [if cond { return ..., err }]. *)
Definition reject_if (b : bool) (e : error) : result unit :=
  if b then Err e else Ok tt.

(** ** Record update *)

(** [Eta] gives the eta-expansion of a record; [Setter] is derived from it for
    every field. *)
Class Eta (R : Type) := eta : R → R.
Class Setter {R T : Type} (proj : R → T) := set_field : (T → T) → R → R.
#[global] Hint Mode Setter - - ! : typeclass_instances.
Arguments set_field {R T} proj {_} _ _ /.

Ltac derive_setter :=
  match goal with
  | |- @Setter ?R ?T ?proj =>
      let e := eval hnf in (@eta R _) in
      match eval pattern proj in e with
      | ?F _ =>
          let body := eval cbv beta in
            (fun (g : T → T) (r : R) => F (fun r' => g (proj r')) r) in
          exact body
      end
  end.
#[global] Hint Extern 0 (Setter _) => derive_setter : typeclass_instances.

Declare Scope record_scope.
Notation "r <| p := v |>" := (set_field p (fun _ => v) r)
  (at level 1, left associativity, p constr, v constr,
   format "r <| p  :=  v |>") : record_scope.
Notation "r <| p ::= f |>" := (set_field p f r)
  (at level 1, left associativity, p constr, f constr,
   format "r <| p  ::=  f |>") : record_scope.
#[global] Open Scope record_scope.

(** ** Automation *)

Create HintDb vb.
Create Rewrite HintDb vb.
#[export] Hint Unfold is_u64 is_u32 : vb.

(** Case analysis on every [match] and [if] of the context, with the equations
    it yields used to simplify what remains. *)
Ltac go_cases := repeat (case_match; simplify_eq/=).

(** Split a boolean conjunction or disjunction known to be true or false. *)
Ltac split_bool :=
  repeat match goal with
  | H : (_ && _)%bool = true |- _ => apply andb_prop in H as [? ?]
  | H : (_ || _)%bool = false |- _ => apply orb_false_elim in H as [? ?]
  | H : negb _ = true |- _ => apply negb_true_iff in H
  | H : negb _ = false |- _ => apply negb_false_iff in H
  | H : bool_decide _ = true |- _ => apply bool_decide_eq_true in H
  | H : bool_decide _ = false |- _ => apply bool_decide_eq_false in H
  end.

(** ** Shared lemmas *)

Lemma len_nonneg {A} (l : list A) : 0 <= len l.
Proof. unfold len. lia. Qed.

Lemma len_app {A} (l k : list A) : len (l ++ k) = len l + len k.
Proof. unfold len. rewrite length_app. lia. Qed.

Lemma len_cons {A} (x : A) l : len (x :: l) = 1 + len l.
Proof. unfold len. simpl. lia. Qed.

Lemma len_nil {A} : len (@nil A) = 0.
Proof. done. Qed.

Lemma len_drop {A} (l : list A) n : len (drop n l) = Z.max 0 (len l - Z.of_nat n).
Proof. unfold len. rewrite length_drop. lia. Qed.

Lemma len_take {A} (l : list A) n : len (take n l) = Z.min (len l) (Z.of_nat n).
Proof. unfold len. rewrite length_take. lia. Qed.

Lemma u64_small z : is_u64 z → u64 z = z.
Proof. intros H. unfold u64, is_u64 in *. by apply Z.mod_small. Qed.

Lemma u64_range z : is_u64 (u64 z).
Proof. unfold u64, is_u64. apply Z.mod_pos_bound. lia. Qed.

Create Rewrite HintDb len.
#[export] Hint Rewrite @len_app @len_cons @len_nil @len_drop @len_take : len.
#[export] Hint Resolve len_nonneg u64_range : vb.

Lemma string_app_assoc s t u : ((s ++ t) ++ u = s ++ (t ++ u))%string.
Proof. induction s as [|c s IH]; [done|]. exact (f_equal (String c) IH). Qed.

Lemma string_of_bytes_inj b1 b2 :
  string_of_bytes b1 = string_of_bytes b2 → b1 = b2.
Proof.
  revert b2; induction b1 as [|x b1 IH]; intros [|y b2] H; simplify_eq/=; [done|].
  f_equal; [|by apply IH].
  match goal with H : ascii_of_byte _ = ascii_of_byte _ |- _ =>
    apply (f_equal byte_of_ascii) in H; by rewrite !byte_of_ascii_of_byte in H end.
Qed.

Lemma reject_if_Ok b e u : reject_if b e = Ok u ↔ b = false.
Proof. destruct b, u; unfold reject_if; naive_solver. Qed.

Lemma bind_Ok {A B} (r : result A) (f : A → result B) b :
  (r ≫= f) = Ok b ↔ ∃ a, r = Ok a ∧ f a = Ok b.
Proof. destruct r; unfold mbind, result_bind; naive_solver. Qed.

Lemma len_zero {A} (l : list A) : (len l =? 0) = true ↔ l = [].
Proof. destruct l; unfold len; simpl; split; intros; try done; lia. Qed.

#[export] Hint Rewrite @bind_Ok @reject_if_Ok : vb.

(** Unpack every successful result of a [result] computation. *)
Ltac inv_ok :=
  repeat match goal with
  | H : mbind _ _ = Ok _ |- _ => apply bind_Ok in H as (? & ? & ?)
  | H : reject_if _ _ = Ok _ |- _ => apply reject_if_Ok in H
  end.

(** ** Sums over finite maps *)

Definition map_sum {K A} `{Countable K} (f : A → Z) (m : gmap K A) : Z :=
  map_fold (fun _ x n => f x + n) 0 m.

Section MapSum.
Context {K A : Type} `{Countable K} (f : A → Z).
Implicit Types (m : gmap K A).

Lemma map_sum_empty : map_sum f (∅ : gmap K A) = 0.
Proof. apply map_fold_empty. Qed.

Lemma map_sum_insert m k x : m !! k = None → map_sum f (<[k:=x]> m) = f x + map_sum f m.
Proof. intros Hm. unfold map_sum. rewrite map_fold_insert_L; auto with lia. Qed.

Lemma map_sum_delete m k x : m !! k = Some x → map_sum f m = f x + map_sum f (delete k m).
Proof. intros Hm. unfold map_sum. rewrite (map_fold_delete_L _ _ k x m); auto with lia. Qed.

Lemma map_sum_update m k x y :
  m !! k = Some x → f y = f x → map_sum f (<[k:=y]> m) = map_sum f m.
Proof.
  intros Hm Hf. rewrite <- insert_delete_eq, map_sum_insert by apply lookup_delete_eq.
  rewrite (map_sum_delete m k x) by done. lia.
Qed.

Lemma map_sum_nonneg m : map_Forall (fun _ x => 0 <= f x) m → 0 <= map_sum f m.
Proof.
  induction m as [|k x m Hm IH] using map_ind; [by rewrite map_sum_empty|].
  intros [? ?]%map_Forall_insert; [|done]. rewrite map_sum_insert by done. naive_solver lia.
Qed.
End MapSum.

(** ** Counting *)

(** How many elements a test accepts. *)
Definition countb {A} (f : A → bool) (l : list A) : nat := length (List.filter f l).

Lemma countb_snoc {A} (f : A → bool) l x : countb f (l ++ [x]) = (countb f l + if f x then 1 else 0)%nat.
Proof. unfold countb. rewrite List.filter_app, length_app. simpl. by destruct (f x). Qed.
