(* ===== verification/Utf8.v ===== *)
(** * Go's [unicode/utf8] and the streaming validator

    The part of the Go standard library's UTF-8 decoder the repository uses
    ([utf8.DecodeRune], [utf8.FullRune], [utf8.DecodeLastRune],
    [utf8.ValidString], [strings.TrimSpace], [unicode.Is(unicode.C, r)]), and
    [utf8StreamValidator] of [internal/attachment/transfer.go], which validates
    text across chunk boundaries.  The last section proves that the streaming
    validator agrees with validation of the whole text, however it is cut. *)

From S2P Require Import Prelude.

Definition RuneError : Z := 65533.

Definition byte_val (b : byte) : Z := Z.of_N (Byte.to_N b).

Lemma byte_val_range b : 0 <= byte_val b < 256.
Proof. by destruct b. Qed.

(** The [first] and [acceptRanges] tables of the decoder: for a leading byte,
    the length of the sequence and the range of its second byte; [None] for a
    byte that starts no sequence. *)
Definition utf8_first (b : Z) : option (nat * Z * Z) :=
  if b <? 0x80 then Some (1%nat, 0x80, 0xBF)
  else if b <? 0xC2 then None
  else if b <? 0xE0 then Some (2%nat, 0x80, 0xBF)
  else if b =? 0xE0 then Some (3%nat, 0xA0, 0xBF)
  else if b =? 0xED then Some (3%nat, 0x80, 0x9F)
  else if b <? 0xF0 then Some (3%nat, 0x80, 0xBF)
  else if b =? 0xF0 then Some (4%nat, 0x90, 0xBF)
  else if b <? 0xF4 then Some (4%nat, 0x80, 0xBF)
  else if b =? 0xF4 then Some (4%nat, 0x80, 0x8F)
  else None.

Definition in_range (lo hi z : Z) : bool := (lo <=? z) && (z <=? hi).
Definition is_cont (z : Z) : bool := in_range 0x80 0xBF z.

Definition DecodeRune (p : bytes) : Z * nat :=
  match p with
  | [] => (RuneError, 0%nat)
  | b0 :: rest =>
      let v0 := byte_val b0 in
      match utf8_first v0, rest with
      | None, _ => (RuneError, 1%nat)
      | Some (1%nat, _, _), _ => (v0, 1%nat)
      | Some (sz, lo, hi), b1 :: rest2 =>
          let v1 := byte_val b1 in
          if negb (in_range lo hi v1) then (RuneError, 1%nat)
          else match sz, rest2 with
          | 2%nat, _ => (Z.lor (Z.shiftl (Z.land v0 0x1F) 6) (Z.land v1 0x3F), 2%nat)
          | _, b2 :: rest3 =>
              let v2 := byte_val b2 in
              if negb (is_cont v2) then (RuneError, 1%nat)
              else match sz, rest3 with
              | 3%nat, _ =>
                  (Z.lor (Z.lor (Z.shiftl (Z.land v0 0x0F) 12) (Z.shiftl (Z.land v1 0x3F) 6))
                     (Z.land v2 0x3F), 3%nat)
              | _, b3 :: _ =>
                  let v3 := byte_val b3 in
                  if negb (is_cont v3) then (RuneError, 1%nat)
                  else (Z.lor (Z.lor (Z.lor (Z.shiftl (Z.land v0 0x07) 18)
                                        (Z.shiftl (Z.land v1 0x3F) 12))
                                 (Z.shiftl (Z.land v2 0x3F) 6)) (Z.land v3 0x3F), 4%nat)
              | _, [] => (RuneError, 1%nat)
              end
          | _, [] => (RuneError, 1%nat)
          end
      | Some _, [] => (RuneError, 1%nat)
      end
  end.

(** [utf8.FullRune]: whether the prefix is long enough to decode; an invalid
    encoding counts as a full rune of width one. *)
Definition FullRune (p : bytes) : bool :=
  match p with
  | [] => false
  | b0 :: rest =>
      match utf8_first (byte_val b0) with
      | None => true
      | Some (sz, lo, hi) =>
          if (sz <=? length p)%nat then true
          else match rest with
               | b1 :: rest2 =>
                   if negb (in_range lo hi (byte_val b1)) then true
                   else match rest2 with
                        | b2 :: _ => negb (is_cont (byte_val b2))
                        | [] => false
                        end
               | [] => false
               end
      end
  end.

Definition RuneStart (b : byte) : bool := negb (Z.land (byte_val b) 0xC0 =? 0x80).

(** ** Strings of the standard library *)

Fixpoint bytes_of_string (s : string) : bytes :=
  match s with
  | EmptyString => []
  | String a s' => byte_of_ascii a :: bytes_of_string s'
  end.

Lemma bytes_of_string_app s t : bytes_of_string (s ++ t)%string = bytes_of_string s ++ bytes_of_string t.
Proof. induction s as [|c s IH]; [done|]. simpl. by rewrite IH. Qed.

Lemma string_of_bytes_of_string s : string_of_bytes (bytes_of_string s) = s.
Proof. induction s as [|a s IH]; [done|]. simpl. by rewrite IH, ascii_of_byte_of_ascii. Qed.

Lemma bytes_of_string_of_bytes b : bytes_of_string (string_of_bytes b) = b.
Proof. apply string_of_bytes_inj, string_of_bytes_of_string. Qed.

(** [utf8.DecodeLastRune]: the width of the last rune is found by walking back
    over at most four bytes to a byte that may start a rune. *)
Definition lastRuneStart (p : bytes) : nat :=
  let fix back (fuel start lim : nat) : nat :=
    match fuel with
    | O => start
    | S fuel' =>
        match p !! start with
        | Some b => if RuneStart b then start
                    else if (start <=? lim)%nat then (start - 1)%nat
                    else back fuel' (start - 1)%nat lim
        | None => start
        end
    end in
  let e := length p in
  if (e <=? 1)%nat then 0%nat else back 4%nat (e - 2)%nat (e - 4)%nat.

Definition DecodeLastRune (p : bytes) : Z * nat :=
  match last p with
  | None => (RuneError, 0%nat)
  | Some b =>
      if byte_val b <? 0x80 then (byte_val b, 1%nat)
      else
        let start := lastRuneStart p in
        let '(r, size) := DecodeRune (drop start p) in
        if (start + size =? length p)%nat then (r, size) else (RuneError, 1%nat)
  end.

(** [unicode.IsSpace]. *)
Definition IsSpace (r : Z) : bool :=
  in_range 0x09 0x0D r || (r =? 0x20) || (r =? 0x85) || (r =? 0xA0) || (r =? 0x1680) ||
  in_range 0x2000 0x200A r || (r =? 0x2028) || (r =? 0x2029) || (r =? 0x202F) ||
  (r =? 0x205F) || (r =? 0x3000).

Fixpoint trimLeft (fuel : nat) (p : bytes) : bytes :=
  match fuel, p with
  | S fuel', _ :: _ =>
      let '(r, size) := DecodeRune p in
      if IsSpace r then trimLeft fuel' (drop size p) else p
  | _, _ => p
  end.

Fixpoint trimRight (fuel : nat) (p : bytes) : bytes :=
  match fuel, p with
  | S fuel', _ :: _ =>
      let '(r, size) := DecodeLastRune p in
      if IsSpace r then trimRight fuel' (take (length p - size) p) else p
  | _, _ => p
  end.

(** [strings.TrimSpace]; every trimmed rune is at least one byte wide, so the
    length of the string is enough fuel. *)
Definition TrimSpace (s : string) : string :=
  let p := bytes_of_string s in
  string_of_bytes (trimRight (length p) (trimLeft (length p) p)).

(** [unicode.Is(unicode.C, r)]: the categories Cc, Cf, Cs and Co. *)
Definition unicode_C (r : Z) : bool :=
  existsb (fun '(lo, hi) => in_range lo hi r)
    [(0x0, 0x1F); (0x7F, 0x9F); (0xAD, 0xAD); (0x600, 0x605); (0x61C, 0x61C);
     (0x6DD, 0x6DD); (0x70F, 0x70F); (0x890, 0x891); (0x8E2, 0x8E2); (0x180E, 0x180E);
     (0x200B, 0x200F); (0x202A, 0x202E); (0x2060, 0x2064); (0x2066, 0x206F);
     (0xD800, 0xF8FF); (0xFEFF, 0xFEFF); (0xFFF9, 0xFFFB); (0x110BD, 0x110BD);
     (0x110CD, 0x110CD); (0x13430, 0x1343F); (0x1BCA0, 0x1BCA3); (0x1D173, 0x1D17A);
     (0xE0001, 0xE0001); (0xE0020, 0xE007F); (0xF0000, 0xFFFFD); (0x100000, 0x10FFFD)].

(** [for _, r := range s] with [utf8.ValidString]: the runes of a string, or
    [None] when some byte does not decode. *)
Fixpoint decodeRunes (fuel : nat) (p : bytes) : option (list Z) :=
  match fuel, p with
  | _, [] => Some []
  | O, _ => None
  | S fuel', _ =>
      let '(r, size) := DecodeRune p in
      if (r =? RuneError) && (size =? 1)%nat then None
      else rs ← decodeRunes fuel' (drop size p); Some (r :: rs)
  end.

Definition runes (p : bytes) : option (list Z) := decodeRunes (length p) p.

Definition ValidString (s : string) : bool :=
  match runes (bytes_of_string s) with Some _ => true | None => false end.

(** ** [utf8StreamValidator] *)

Record utf8StreamValidator := mkValidator {
  invalid : bool;
  tail : bytes;
}.

Definition newValidator : utf8StreamValidator := mkValidator false [].

(** The loop of [Write] on the carried-over tail followed by the new data.
    Every iteration consumes at least one byte. *)
Fixpoint validatorLoop (fuel : nat) (combined : bytes) : utf8StreamValidator :=
  match fuel, combined with
  | _, [] => mkValidator false []
  | O, _ => mkValidator false combined
  | S fuel', b0 :: _ =>
      if byte_val b0 =? 0 then mkValidator true []
      else if negb (FullRune combined) then mkValidator false combined
      else
        let '(runeValue, size) := DecodeRune combined in
        if (runeValue =? RuneError) && (size =? 1)%nat then mkValidator true []
        else validatorLoop fuel' (drop size combined)
  end.

Definition validator_Write (v : utf8StreamValidator) (data : bytes) : utf8StreamValidator :=
  if invalid v then v
  else let combined := tail v ++ data in validatorLoop (length combined) combined.

Definition validator_Valid (v : utf8StreamValidator) : bool :=
  negb (invalid v) && (len (tail v) =? 0).

(** ** The reference: a text is valid when it decodes as a whole and contains
    no NUL byte *)

Definition has_nul (p : bytes) : bool := existsb (fun b => byte_val b =? 0) p.

Definition validText (p : bytes) : bool :=
  bool_decide (is_Some (runes p)) && negb (has_nul p).

(** *** Facts about the decoder *)

Ltac decoder_cases :=
  unfold DecodeRune, FullRune, utf8_first in *;
  repeat (simpl in *; case_match; simplify_eq); simpl in *.

Lemma DecodeRune_size p : p ≠ [] → (1 <= snd (DecodeRune p) <= length p)%nat.
Proof. intros Hp. decoder_cases; try lia. Qed.

(** A full rune decodes the same with any bytes after it. *)
Lemma DecodeRune_FullRune_app p q :
  FullRune p = true → DecodeRune (p ++ q) = DecodeRune p.
Proof.
  destruct p as [|b0 [|b1 [|b2 [|b3 p]]]]; [done|..]; intros HF; simpl in *;
    unfold FullRune, utf8_first in HF; simpl in HF;
    unfold DecodeRune, utf8_first; simpl;
    repeat (case_match; simplify_eq/=; try done).
Qed.

Lemma FullRune_app p q : FullRune p = true → FullRune (p ++ q) = true.
Proof.
  destruct p as [|b0 [|b1 [|b2 [|b3 p]]]]; [done|..]; simpl; intros HF;
    unfold FullRune, utf8_first in *; simpl in *;
    repeat (case_match; simplify_eq/=; try done).
Qed.

(** An incomplete rune is at most three bytes and does not decode. *)
Lemma FullRune_false_decode p :
  FullRune p = false → p ≠ [] → DecodeRune p = (RuneError, 1%nat).
Proof. intros HF Hp. decoder_cases; done. Qed.

Arguments DecodeRune : simpl never.
Arguments FullRune : simpl never.

Lemma FullRune_ascii b p : byte_val b = 0 → DecodeRune (b :: p) = (0, 1%nat).
Proof. intros Hb. unfold DecodeRune, utf8_first. by rewrite Hb. Qed.

(** The continuation bytes of a decoded rune are not NUL. *)
Lemma has_nul_rune b p :
  byte_val b ≠ 0 →
  let '(r, size) := DecodeRune (b :: p) in
  (r =? RuneError) && (size =? 1)%nat = false →
  has_nul (b :: p) = has_nul (drop size (b :: p)).
Proof.
  intros Hb. destruct (DecodeRune (b :: p)) as [r size] eqn:HD. intros Hok.
  destruct p as [|b1 [|b2 [|b3 p]]];
    unfold DecodeRune, utf8_first, is_cont in HD;
    repeat (case_match; simplify_eq/=); try done; try lia;
    unfold in_range in *; repeat match goal with
    | |- context [byte_val ?x =? 0] => destruct (Z.eqb_spec (byte_val x) 0); [lia|]
    end; by rewrite ?drop_0.
Qed.

Lemma decodeRunes_fuel n p : (length p <= n)%nat → decodeRunes n p = runes p.
Proof.
  unfold runes. remember (length p) as k eqn:Hk. revert n p Hk.
  induction (lt_wf k) as [k _ IH]. intros n p -> Hn.
  destruct p as [|b p]; [by destruct n|]. destruct n as [|n]; [simpl in Hn; lia|].
  pose proof (DecodeRune_size (b :: p)) as Hs. cbn [decodeRunes length].
  destruct (DecodeRune (b :: p)) as [r size] eqn:HD. simpl in Hs, Hn.
  case_match; [done|].
  assert (length (drop size (b :: p)) <= length p)%nat
    by (rewrite length_drop; simpl; pose proof (Hs ltac:(done)); lia).
  rewrite (IH (length (drop size (b :: p))) ltac:(simpl; lia) n) by lia.
  by rewrite (IH (length (drop size (b :: p))) ltac:(simpl; lia) (length p)) by lia.
Qed.

Lemma validText_step b p :
  validText (b :: p) =
    let '(r, size) := DecodeRune (b :: p) in
    if (r =? RuneError) && (size =? 1)%nat then false
    else negb (byte_val b =? 0) && validText (drop size (b :: p)).
Proof.
  pose proof (DecodeRune_size (b :: p) ltac:(done)) as Hs.
  pose proof (has_nul_rune b p) as Hnul.
  unfold validText at 1. unfold runes. cbn [length decodeRunes].
  destruct (DecodeRune (b :: p)) as [r size] eqn:HD. simpl in Hs.
  case_match eqn:Hbad; [done|].
  rewrite decodeRunes_fuel by (rewrite length_drop; simpl; lia).
  destruct (Z.eqb_spec (byte_val b) 0) as [Hz|Hz].
  - unfold has_nul. cbn [existsb]. rewrite Hz. simpl. by rewrite andb_false_r.
  - rewrite (Hnul Hz eq_refl). unfold validText. simpl.
    by destruct (runes (drop size (b :: p))).
Qed.

(** What the loop leaves: either a verdict against the text whatever follows,
    or an undecided tail with which the rest can be judged. *)
Lemma validatorLoop_spec n p q :
  (length p <= n)%nat →
  let v := validatorLoop n p in
  if invalid v then validText (p ++ q) = false
  else validText (p ++ q) = validText (tail v ++ q) ∧
       (tail v = [] ∨ FullRune (tail v) = false).
Proof.
  revert p; induction n as [|n IH]; intros [|b p] Hn; simpl in Hn; try lia;
    [simpl; auto..|]. cbn [validatorLoop app]. cbv zeta.
  destruct (byte_val b =? 0) eqn:Hz.
  { simpl. rewrite validText_step, (FullRune_ascii b) by lia. simpl. by rewrite Hz. }
  destruct (FullRune (b :: p)) eqn:HF; simpl negb; cbv iota; [|by simpl; auto].
  pose proof (DecodeRune_FullRune_app (b :: p) q HF) as HD.
  pose proof (DecodeRune_size (b :: p) ltac:(done)) as Hs.
  simpl app in HD. rewrite validText_step, HD.
  destruct (DecodeRune (b :: p)) as [r size] eqn:HD'. simpl in Hs.
  destruct ((r =? RuneError) && (size =? 1)%nat); [done|].
  specialize (IH (drop size (b :: p)) ltac:(rewrite length_drop; simpl; lia)).
  change (b :: p ++ q) with ((b :: p) ++ q). rewrite Hz. simpl negb. rewrite andb_true_l.
  rewrite drop_app_le by (simpl; lia). exact IH.
Qed.

Definition validatorRun (chunks : list bytes) (v : utf8StreamValidator) : utf8StreamValidator :=
  fold_left validator_Write chunks v.

Lemma validatorRun_invalid chunks v : invalid v = true → validatorRun chunks v = v.
Proof.
  intros Hv. induction chunks as [|c chunks IH]; [done|].
  unfold validatorRun. simpl. unfold validator_Write at 2. rewrite Hv. apply IH.
Qed.

Lemma validatorRun_spec chunks v :
  invalid v = false → tail v = [] ∨ FullRune (tail v) = false →
  validator_Valid (validatorRun chunks v) = validText (tail v ++ concat chunks).
Proof.
  revert v; induction chunks as [|c chunks IH]; intros v Hv Ht; simpl.
  - rewrite app_nil_r. unfold validator_Valid. rewrite Hv. destruct (tail v) as [|b p]; [done|].
    destruct Ht as [|Ht]; [done|]. rewrite validText_step, FullRune_false_decode by done.
    done.
  - unfold validatorRun. simpl. unfold validator_Write at 2. rewrite Hv.
    pose proof (validatorLoop_spec (length (tail v ++ c)) (tail v ++ c) (concat chunks)
                  ltac:(lia)) as HL. cbn zeta in HL. rewrite <- app_assoc in HL.
    set (v' := validatorLoop _ _) in *.
    destruct (invalid v') eqn:Hv'.
    + fold (validatorRun chunks v'). rewrite validatorRun_invalid by done.
      unfold validator_Valid. by rewrite Hv', HL.
    + destruct HL as [-> Ht']. by apply IH.
Qed.

(** The streaming validator accepts a text exactly when the whole text is
    valid UTF-8 without NUL bytes, whatever the chunk boundaries. *)
Theorem utf8_stream_equals_whole chunks :
  validator_Valid (validatorRun chunks newValidator) = validText (concat chunks).
Proof. by apply validatorRun_spec; auto. Qed.
