(* ===== verification/Sha256.v ===== *)
(** * SHA-256 ([crypto/sha256])

    The digest of the Go standard library the attachment transfer and the
    identity code rely on, as an executable function on byte strings.  A
    [hash.Hash] is modelled by the bytes written to it. *)

From S2P Require Import Prelude.
From S2P Require Import Utf8.

Definition sha_K : list Z := [
   0x428A2F98; 0x71374491; 0xB5C0FBCF; 0xE9B5DBA5; 0x3956C25B; 0x59F111F1; 0x923F82A4; 0xAB1C5ED5;
   0xD807AA98; 0x12835B01; 0x243185BE; 0x550C7DC3; 0x72BE5D74; 0x80DEB1FE; 0x9BDC06A7; 0xC19BF174;
   0xE49B69C1; 0xEFBE4786; 0x0FC19DC6; 0x240CA1CC; 0x2DE92C6F; 0x4A7484AA; 0x5CB0A9DC; 0x76F988DA;
   0x983E5152; 0xA831C66D; 0xB00327C8; 0xBF597FC7; 0xC6E00BF3; 0xD5A79147; 0x06CA6351; 0x14292967;
   0x27B70A85; 0x2E1B2138; 0x4D2C6DFC; 0x53380D13; 0x650A7354; 0x766A0ABB; 0x81C2C92E; 0x92722C85;
   0xA2BFE8A1; 0xA81A664B; 0xC24B8B70; 0xC76C51A3; 0xD192E819; 0xD6990624; 0xF40E3585; 0x106AA070;
   0x19A4C116; 0x1E376C08; 0x2748774C; 0x34B0BCB5; 0x391C0CB3; 0x4ED8AA4A; 0x5B9CCA4F; 0x682E6FF3;
   0x748F82EE; 0x78A5636F; 0x84C87814; 0x8CC70208; 0x90BEFFFA; 0xA4506CEB; 0xBEF9A3F7; 0xC67178F2].

Definition sha_H0 : list Z := [
   0x6A09E667; 0xBB67AE85; 0x3C6EF372; 0xA54FF53A; 0x510E527F; 0x9B05688C; 0x1F83D9AB; 0x5BE0CD19].

Definition rotr (n x : Z) : Z := Z.lor (Z.shiftr x n) (u32 (Z.shiftl x (32 - n))).

(** The message schedule: the last sixteen words determine the next one. *)
Fixpoint schedule (fuel : nat) (recent : list Z) : list Z :=
  match fuel with
  | O => []
  | S fuel' =>
      match recent with
      | w0 :: rest =>
          let w n := default 0 (recent !! n) in
          let s0 := Z.lxor (Z.lxor (rotr 7 (w 1%nat)) (rotr 18 (w 1%nat))) (Z.shiftr (w 1%nat) 3) in
          let s1 := Z.lxor (Z.lxor (rotr 17 (w 14%nat)) (rotr 19 (w 14%nat))) (Z.shiftr (w 14%nat) 10) in
          w0 :: schedule fuel' (rest ++ [u32 (w0 + s0 + w 9%nat + s1)])
      | [] => []
      end
  end.

Definition round (st : Z * Z * Z * Z * (Z * Z * Z * Z)) (kw : Z) : Z * Z * Z * Z * (Z * Z * Z * Z) :=
  let '(a, b, c, d, (e, f, g, h)) := st in
  let S1 := Z.lxor (Z.lxor (rotr 6 e) (rotr 11 e)) (rotr 25 e) in
  let ch := Z.lxor (Z.land e f) (Z.land (Z.lxor e 0xFFFFFFFF) g) in
  let t1 := u32 (h + S1 + ch + kw) in
  let S0 := Z.lxor (Z.lxor (rotr 2 a) (rotr 13 a)) (rotr 22 a) in
  let maj := Z.lxor (Z.lxor (Z.land a b) (Z.land a c)) (Z.land b c) in
  let t2 := u32 (S0 + maj) in
  (u32 (t1 + t2), a, b, c, (u32 (d + t1), e, f, g)).

Definition compress (H block : list Z) : list Z :=
  let kws := zip_with (fun k w => k + w) sha_K (schedule 64 block) in
  let h n := default 0 (H !! n) in
  let '(a, b, c, d, (e, f, g, i)) :=
    fold_left round kws (h 0%nat, h 1%nat, h 2%nat, h 3%nat, (h 4%nat, h 5%nat, h 6%nat, h 7%nat)) in
  zip_with (fun x y => u32 (x + y)) (map h (seq 0 8)) [a; b; c; d; e; f; g; i].

Fixpoint words (fuel : nat) (p : bytes) : list Z :=
  match fuel, p with
  | S fuel', b0 :: b1 :: b2 :: b3 :: p' =>
      (byte_val b0 * 2 ^ 24 + byte_val b1 * 2 ^ 16 + byte_val b2 * 2 ^ 8 + byte_val b3)
        :: words fuel' p'
  | _, _ => []
  end.

Fixpoint blocks (fuel : nat) (H ws : list Z) : list Z :=
  match fuel, ws with
  | S fuel', _ :: _ => blocks fuel' (compress H (take 16 ws)) (drop 16 ws)
  | _, _ => H
  end.

Definition byte_of_Z (z : Z) : byte :=
  match Byte.of_N (Z.to_N (z `mod` 256)) with Some b => b | None => "000"%byte end.

Definition big_endian (n : nat) (z : Z) : bytes :=
  map (fun i => byte_of_Z (Z.shiftr z (8 * Z.of_nat (n - 1 - i)))) (seq 0 n).

(** One 0x80 byte, zeros up to 56 modulo 64, and the length in bits. *)
Definition pad (p : bytes) : bytes :=
  let zeros := Z.to_nat ((55 - len p) `mod` 64) in
  p ++ ["128"%byte] ++ replicate zeros "000"%byte ++ big_endian 8 (8 * len p).

Definition Sum256 (p : bytes) : bytes :=
  let ws := words (length (pad p)) (pad p) in
  flat_map (big_endian 4) (blocks (length ws) sha_H0 ws).

Definition sha256_Size : Z := 32.

(** The test vector of FIPS 180-4 for "abc". *)
Lemma Sum256_abc :
  map byte_val (Sum256 (bytes_of_string "abc")) =
    [0xBA; 0x78; 0x16; 0xBF; 0x8F; 0x01; 0xCF; 0xEA; 0x41; 0x41; 0x40; 0xDE; 0x5D; 0xAE; 0x22; 0x23;
     0xB0; 0x03; 0x61; 0xA3; 0x96; 0x17; 0x7A; 0x9C; 0xB4; 0x10; 0xFF; 0x61; 0xF2; 0x00; 0x15; 0xAD].
Proof. vm_compute. reflexivity. Qed.

Lemma length_compress H block : length H = 8%nat → length (compress H block) = 8%nat.
Proof.
  intros _. unfold compress. destruct (fold_left _ _ _) as [[[[a b] c] d] [[[e f] g] i]].
  reflexivity.
Qed.

Lemma length_blocks fuel H ws : length H = 8%nat → length (blocks fuel H ws) = 8%nat.
Proof.
  revert H ws; induction fuel as [|fuel IH]; intros H [|w ws] HH; try done.
  apply IH. by apply length_compress.
Qed.

Lemma len_Sum256 p : len (Sum256 p) = sha256_Size.
Proof.
  unfold Sum256, len. set (l := blocks _ _ _).
  assert (length l = 8%nat) as Hl by (by apply length_blocks). clearbody l.
  do 8 (destruct l as [|? l]; [done|]). destruct l; [|done]. reflexivity.
Qed.
