(* ===== verification/Encoding.v ===== *)
(** * Text encodings of the standard library

    [encoding/hex] and [encoding/base64], as the code uses them: lower-case
    encoding, case-insensitive decoding, base64 with and without padding, whose
    decoder skips line breaks and ignores stray low bits. *)

From S2P Require Import Prelude.
From S2P Require Import Utf8.
From S2P Require Import Sha256.

(** ** Hexadecimal *)

Definition ascii_val (c : ascii) : Z := Z.of_N (N_of_ascii c).

Definition fromHexChar (c : ascii) : option Z :=
  let v := ascii_val c in
  if (48 <=? v) && (v <=? 57) then Some (v - 48)
  else if (97 <=? v) && (v <=? 102) then Some (v - 87)
  else if (65 <=? v) && (v <=? 70) then Some (v - 55)
  else None.

(** [hex.DecodeString]; [None] is an error. *)
Fixpoint hexDecode (s : string) : option bytes :=
  match s with
  | EmptyString => Some []
  | String a (String b s') =>
      x ← fromHexChar a; y ← fromHexChar b; rest ← hexDecode s';
      Some (byte_of_Z (x * 16 + y) :: rest)
  | String _ EmptyString => None
  end.

(** ** Base64 *)

(** The 64 characters of an alphabet: letters, digits and two more. *)
Definition base64Char (c62 c63 : ascii) (n : Z) : ascii :=
  if n <? 26 then ascii_of_N (Z.to_N (65 + n))
  else if n <? 52 then ascii_of_N (Z.to_N (97 + (n - 26)))
  else if n <? 62 then ascii_of_N (Z.to_N (48 + (n - 52)))
  else if n =? 62 then c62 else c63.

Definition base64Value (c62 c63 c : ascii) : option Z :=
  let v := ascii_val c in
  if (65 <=? v) && (v <=? 90) then Some (v - 65)
  else if (97 <=? v) && (v <=? 122) then Some (v - 97 + 26)
  else if (48 <=? v) && (v <=? 57) then Some (v - 48 + 52)
  else if bool_decide (c = c62) then Some 62
  else if bool_decide (c = c63) then Some 63
  else None.

Section Base64.
Context (c62 c63 : ascii) (padded : bool).

Definition padding (n : nat) : list ascii := if padded then replicate n "="%char else [].

Fixpoint encodeChars (b : bytes) : list ascii :=
  match b with
  | [] => []
  | [x] =>
      let x := byte_val x in
      base64Char c62 c63 (x / 4) :: base64Char c62 c63 (x mod 4 * 16) :: padding 2
  | [x; y] =>
      let x := byte_val x in let y := byte_val y in
      base64Char c62 c63 (x / 4) :: base64Char c62 c63 (x mod 4 * 16 + y / 16) ::
      base64Char c62 c63 (y mod 16 * 4) :: padding 1
  | x :: y :: z :: b' =>
      let x := byte_val x in let y := byte_val y in let z := byte_val z in
      base64Char c62 c63 (x / 4) :: base64Char c62 c63 (x mod 4 * 16 + y / 16) ::
      base64Char c62 c63 (y mod 16 * 4 + z / 64) :: base64Char c62 c63 (z mod 64) :: encodeChars b'
  end.

(** The bytes of two, three and four characters. *)
Definition decode2 (a b : ascii) : option bytes :=
  a ← base64Value c62 c63 a; b ← base64Value c62 c63 b;
  Some [byte_of_Z (a * 4 + b / 16)].
Definition decode3 (a b c : ascii) : option bytes :=
  a ← base64Value c62 c63 a; b ← base64Value c62 c63 b; c ← base64Value c62 c63 c;
  Some [byte_of_Z (a * 4 + b / 16); byte_of_Z (b mod 16 * 16 + c / 4)].
Definition decode4 (a b c d : ascii) : option bytes :=
  a ← base64Value c62 c63 a; b ← base64Value c62 c63 b;
  c ← base64Value c62 c63 c; d ← base64Value c62 c63 d;
  Some [byte_of_Z (a * 4 + b / 16); byte_of_Z (b mod 16 * 16 + c / 4); byte_of_Z (c mod 4 * 64 + d)].

(** The last four characters of a padded text. *)
Definition decodeLast (a b c d : ascii) : option bytes :=
  if bool_decide (d = "="%char) then
    if bool_decide (c = "="%char) then decode2 a b else decode3 a b c
  else decode4 a b c d.

Fixpoint decodeChars (l : list ascii) : option bytes :=
  match l with
  | [] => Some []
  | [_] => None
  | [a; b] => if padded then None else decode2 a b
  | [a; b; c] => if padded then None else decode3 a b c
  | [a; b; c; d] => if padded then decodeLast a b c d else decode4 a b c d
  | a :: b :: c :: d :: l' =>
      first ← decode4 a b c d; rest ← decodeChars l'; Some (first ++ rest)
  end.

Definition isLineBreak (c : ascii) : bool :=
  bool_decide (c = "010"%char) || bool_decide (c = "013"%char).

Definition EncodeToString (b : bytes) : string := string_of_list_ascii (encodeChars b).
Definition DecodeString (s : string) : option bytes :=
  decodeChars (List.filter (fun c => negb (isLineBreak c)) (list_ascii_of_string s)).

(** [EncodedLen] of the encoding without padding. *)
Definition EncodedLen (n : Z) : Z := n / 3 * 4 + (n mod 3 * 8 + 5) / 6.
End Base64.

(** [base64.RawURLEncoding] and [base64.StdEncoding]. *)
Definition RawURL_Encode : bytes → string := EncodeToString "-" "_" false.
Definition RawURL_Decode : string → option bytes := DecodeString "-" "_" false.
Definition Std_Encode : bytes → string := EncodeToString "+" "/" true.
Definition Std_Decode : string → option bytes := DecodeString "+" "/" true.

(** ** Round trips *)

#[local] Ltac Zify.zify_post_hook ::= Z.to_euclidean_division_equations.

Lemma byte_of_Z_val b z : z = byte_val b → byte_of_Z z = b.
Proof.
  intros ->. unfold byte_of_Z. rewrite Z.mod_small by apply byte_val_range.
  unfold byte_val. by rewrite N2Z.id, Byte.of_to_N.
Qed.

(** A property of the 6-bit values, checked on all of them. *)
Lemma six_bits (P : Z → bool) n :
  forallb P (map Z.of_nat (seq 0 64)) = true → 0 <= n < 64 → P n = true.
Proof.
  intros Hall Hn. rewrite forallb_forall in Hall. apply Hall, in_map_iff.
  exists (Z.to_nat n). rewrite in_seq. lia.
Qed.

(** The two alphabets decode what they encode, and avoid padding and line
    breaks. *)
Definition alphabet (c62 c63 : ascii) : Prop :=
  ∀ n, 0 <= n < 64 → base64Value c62 c63 (base64Char c62 c63 n) = Some n ∧
    base64Char c62 c63 n ≠ "="%char ∧ isLineBreak (base64Char c62 c63 n) = false.

Lemma alphabet_check c62 c63 :
  forallb (fun n => let c := base64Char c62 c63 n in
    bool_decide (base64Value c62 c63 c = Some n) && negb (bool_decide (c = "="%char)) &&
    negb (isLineBreak c)) (map Z.of_nat (seq 0 64)) = true → alphabet c62 c63.
Proof. intros Hall n Hn. pose proof (six_bits _ n Hall Hn) as H. simpl in H. by split_bool. Qed.

Lemma url_alphabet : alphabet "-" "_".
Proof. apply alphabet_check. vm_compute. reflexivity. Qed.
Lemma std_alphabet : alphabet "+" "/".
Proof. apply alphabet_check. vm_compute. reflexivity. Qed.

(** Induction in steps of three bytes. *)
Lemma bytes_ind3 (P : bytes → Prop) :
  P [] → (∀ x, P [x]) → (∀ x y, P [x; y]) → (∀ x y z b, P b → P (x :: y :: z :: b)) → ∀ b, P b.
Proof.
  intros H0 H1 H2 H3. fix IH 1. intros [|x [|y [|z b]]];
    [exact H0|exact (H1 x)|exact (H2 x y)|exact (H3 x y z b (IH b))].
Qed.

Section RoundTrip.
Context (c62 c63 : ascii) (padded : bool) (Hab : alphabet c62 c63).

Lemma no_break_encode b :
  List.filter (fun c => negb (isLineBreak c)) (encodeChars c62 c63 padded b) = encodeChars c62 c63 padded b.
Proof.
  assert (∀ n, 0 <= n < 64 → isLineBreak (base64Char c62 c63 n) = false) as Hc by (intros; by apply Hab).
  induction b as [|x|x y|x y z b IH] using bytes_ind3; simpl; [done|..];
    pose proof (byte_val_range x); try pose proof (byte_val_range y); try pose proof (byte_val_range z);
    rewrite ?Hc by lia; simpl; rewrite ?IH; unfold padding; destruct padded; reflexivity.
Qed.

Lemma decode_encode_chars b : decodeChars c62 c63 padded (encodeChars c62 c63 padded b) = Some b.
Proof.
  assert (∀ n, 0 <= n < 64 → base64Value c62 c63 (base64Char c62 c63 n) = Some n) as Hv
    by (intros; by apply Hab).
  assert (∀ n, 0 <= n < 64 → bool_decide (base64Char c62 c63 n = "="%char) = false) as He
    by (intros; apply bool_decide_false; by apply Hab).
  induction b as [|x|x y|x y z b IH] using bytes_ind3; [done|..];
    pose proof (byte_val_range x); try pose proof (byte_val_range y); try pose proof (byte_val_range z).
  - simpl. unfold padding, decodeLast. destruct padded; simpl; unfold decode2;
      rewrite !Hv by lia; simpl; f_equal; f_equal; apply byte_of_Z_val; lia.
  - simpl. unfold padding, decodeLast. destruct padded; simpl; rewrite ?He by lia; unfold decode3;
      rewrite !Hv by lia; simpl; repeat f_equal; apply byte_of_Z_val; lia.
  - cbn [encodeChars]. unfold decodeLast.
    assert (decode4 c62 c63 (base64Char c62 c63 (byte_val x / 4))
      (base64Char c62 c63 (byte_val x mod 4 * 16 + byte_val y / 16))
      (base64Char c62 c63 (byte_val y mod 16 * 4 + byte_val z / 64))
      (base64Char c62 c63 (byte_val z mod 64)) = Some [x; y; z]) as H4.
    { unfold decode4. rewrite !Hv by lia. simpl. repeat f_equal; apply byte_of_Z_val; lia. }
    destruct b as [|w b].
    + simpl. unfold decodeLast. rewrite He by lia. by destruct padded.
    + destruct (encodeChars c62 c63 padded (w :: b)) as [|e l] eqn:Hl.
      { by destruct b as [|? [|? ?]]. }
      cbn [decodeChars]. rewrite H4. simpl in IH |- *. by rewrite IH.
Qed.

Lemma base64_roundtrip b : DecodeString c62 c63 padded (EncodeToString c62 c63 padded b) = Some b.
Proof.
  unfold DecodeString, EncodeToString. rewrite list_ascii_of_string_of_list_ascii, no_break_encode.
  apply decode_encode_chars.
Qed.
End RoundTrip.

Lemma hex_roundtrip b : hexDecode (hexEncode b) = Some b.
Proof.
  assert (∀ n : N, (n < 16)%N → fromHexChar (hexDigit n) = Some (Z.of_N n)) as Hd.
  { intros n Hn. assert (∃ k, (k < 16)%nat ∧ n = N.of_nat k) as (k & Hk & ->)
      by (exists (N.to_nat n); lia).
    do 16 (destruct k as [|k]; [reflexivity|]). lia. }
  induction b as [|x b IH]; [done|]. pose proof (Byte.to_N_bounded x). cbn [hexEncode hexDecode].
  rewrite !Hd by lia. simpl. rewrite IH. simpl. do 2 f_equal. apply byte_of_Z_val. unfold byte_val. lia.
Qed.
