(* ===== verification/SecureStore.v ===== *)
(** * The secure store ([internal/securestore])

    One file per path, an envelope around protected data, replaced atomically.
    The file system is a map from paths to contents; every system call may fail,
    as [Syscalls] says, and a failing write may store a prefix.  [encoding/json]
    is the class [JsonCodec].  The platform is the one of [store_other.go], where
    protection is the file's permissions. *)

From S2P Require Import Prelude.
From S2P Require Import Utf8.
From S2P Require Import Sha256.

Definition currentEnvelopeVersion : Z := 1.
Definition maxPlaintextBytes : Z := 1024 * 1024.
Definition maxEnvelopeBytes : Z := 2 * 1024 * 1024.

(** What a second [Decode] finds after the first value. *)
Inductive Extra := ExtraEOF | ExtraValue | ExtraError (e : error).

(** [encoding/json]: [json.Marshal], and a [json.Decoder] with
    [DisallowUnknownFields], whose first [Decode] gives a value and whose second
    reads on. *)
Class JsonCodec (A : Type) := {
  json_Marshal : A → result bytes;
  json_Decode : bytes → result A;
  json_Extra : bytes → Extra;
}.

(** What [json.Marshal] writes for the values [P], the decoder reads back. *)
Class JsonLaws (A : Type) `{JsonCodec A} (P : A → Prop) := {
  json_roundtrip v b : P v → json_Marshal v = Ok b → json_Decode b = Ok v;
  json_single v b : P v → json_Marshal v = Ok b → json_Extra b = ExtraEOF;
  json_nonempty v b : P v → json_Marshal v = Ok b → b ≠ [];
}.

Record envelope := mkEnvelope {
  env_Version : Z;
  env_Protection : string;
  env_Purpose : bytes;
  env_Ciphertext : bytes;
}.

(** The contents of the files, by path. *)
Abbreviation Files := (gmap string bytes).

Definition os_ErrNotExist := ErrorString "file does not exist".

(** The outcomes of the system calls of one [Write]: [sys_createTemp] is the name
    [os.CreateTemp] chose, [sys_write] the bytes stored when the write fails,
    [sys_remove] whether the deferred removal succeeds. *)
Record Syscalls := mkSyscalls {
  sys_mkdir : result unit;
  sys_createTemp : result string;
  sys_chmod : result unit;
  sys_write : option (bytes * error);
  sys_sync : result unit;
  sys_close : result unit;
  sys_rename : result unit;
  sys_openDir : result unit;
  sys_syncDir : result unit;
  sys_remove : bool;
}.

(** [store_other.go]. *)
Definition protectionName : string := "file-permissions".
Definition protect (plaintext : bytes) (purpose : string) : result bytes := Ok plaintext.
Definition unprotect (ciphertext : bytes) (purpose : string) : result bytes := Ok ciphertext.

(** [purpose.go]. *)
Definition purposeDigest (purpose : string) : bytes :=
  Sum256 (bytes_of_string "VibeBridge secure store purpose" ++ ["000"%byte] ++ bytes_of_string purpose).

Definition equalPurpose (left right : bytes) : bool :=
  (len left =? len right) && bool_decide (left = right).

(** [filepath.IsAbs]. *)
Definition IsAbs (path : string) : bool :=
  match path with String c _ => bool_decide (c = "/"%char) | EmptyString => false end.

Definition validateArguments (path purpose : string) : result unit :=
  if negb (IsAbs path) then Err (ErrorString "secure-store path must be absolute")
  else if bool_decide (purpose = EmptyString) then
    Err (ErrorString "secure-store purpose must not be empty")
  else if slen purpose >? 256 then Err (ErrorString "secure-store purpose is too long")
  else Ok tt.

(** [replaceFile]: [os.Rename], which replaces the destination. *)
Definition replaceFile (fs : Files) (sys : Syscalls) (source destination : string) : Files * result unit :=
  match sys_rename sys with
  | Err e => (fs, Err e)
  | Ok _ => (<[destination := default [] (fs !! source)]> (delete source fs), Ok tt)
  end.

Definition syncDirectory (sys : Syscalls) : result unit :=
  match sys_openDir sys with
  | Err e => Err (ErrorWrap "open secure-store directory for sync" e)
  | Ok _ =>
      match sys_syncDir sys with
      | Err e => Err (ErrorWrap "flush secure-store directory" e)
      | Ok _ => Ok tt
      end
  end.

(** [writeAtomic]: after [CreateTemp], every return runs the deferred
    [os.Remove]. *)
Definition writeAtomic (fs : Files) (sys : Syscalls) (path : string) (encoded : bytes)
    : Files * result unit :=
  match sys_mkdir sys with
  | Err e => (fs, Err (ErrorWrap "create secure-store directory" e))
  | Ok _ =>
      match sys_createTemp sys with
      | Err e => (fs, Err (ErrorWrap "create temporary secure-store file" e))
      | Ok temporaryPath =>
          let removed fs := if sys_remove sys then delete temporaryPath fs else fs in
          let fs := <[temporaryPath := []]> fs in
          match sys_chmod sys with
          | Err e => (removed fs, Err (ErrorWrap "restrict secure-store permissions" e))
          | Ok _ =>
              match sys_write sys with
              | Some (stored, e) =>
                  (removed (<[temporaryPath := stored]> fs),
                   Err (ErrorWrap "write secure-store envelope" e))
              | None =>
                  let fs := <[temporaryPath := encoded]> fs in
                  match sys_sync sys with
                  | Err e => (removed fs, Err (ErrorWrap "flush secure-store envelope" e))
                  | Ok _ =>
                      match sys_close sys with
                      | Err e => (removed fs, Err (ErrorWrap "close secure-store envelope" e))
                      | Ok _ =>
                          match replaceFile fs sys temporaryPath path with
                          | (fs, Err e) =>
                              (removed fs, Err (ErrorWrap "publish secure-store envelope" e))
                          | (fs, Ok _) => (removed fs, syncDirectory sys)
                          end
                      end
                  end
              end
          end
      end
  end.

Section SecureStore.
Context `{JsonCodec envelope}.

Definition Write (fs : Files) (sys : Syscalls) (path purpose : string) (plaintext : bytes)
    : Files * result unit :=
  match validateArguments path purpose with
  | Err e => (fs, Err e)
  | Ok _ =>
      if len plaintext =? 0 then (fs, Err (ErrorString "secure-store plaintext must not be empty"))
      else if len plaintext >? maxPlaintextBytes then
        (fs, Err (ErrorString "secure-store plaintext exceeds the %d byte limit"))
      else match protect plaintext purpose with
      | Err e => (fs, Err (ErrorWrap "protect secure-store data" e))
      | Ok protected =>
          match json_Marshal (mkEnvelope currentEnvelopeVersion protectionName
                                (purposeDigest purpose) protected) with
          | Err e => (fs, Err (ErrorWrap "encode secure-store envelope" e))
          | Ok encoded =>
              if len encoded >? maxEnvelopeBytes then
                (fs, Err (ErrorString "secure-store envelope exceeds the %d byte limit"))
              else writeAtomic fs sys path encoded
          end
      end
  end.

(** [Read]; [sysRead] is an error of [os.ReadFile] other than a missing file. *)
Definition Read (fs : Files) (sysRead : option error) (path purpose : string) : result bytes :=
  match validateArguments path purpose with
  | Err e => Err e
  | Ok _ =>
      match sysRead, fs !! path with
      | Some e, _ => Err e
      | None, None => Err os_ErrNotExist
      | None, Some encoded =>
          if len encoded =? 0 then Err (ErrorString "secure-store envelope is empty")
          else if len encoded >? maxEnvelopeBytes then
            Err (ErrorString "secure-store envelope exceeds the %d byte limit")
          else match json_Decode encoded with
          | Err e => Err (ErrorWrap "decode secure-store envelope" e)
          | Ok value =>
              match json_Extra (A := envelope) encoded with
              | ExtraValue =>
                  Err (ErrorString "decode secure-store envelope: multiple JSON values are not allowed")
              | ExtraError e => Err (ErrorWrap "decode secure-store envelope" e)
              | ExtraEOF =>
                  if negb (env_Version value =? currentEnvelopeVersion) then
                    Err (ErrorString "unsupported secure-store envelope version %d")
                  else if negb (bool_decide (env_Protection value = protectionName)) then
                    Err (ErrorString "unsupported secure-store protection %q on this platform")
                  else if negb (equalPurpose (env_Purpose value) (purposeDigest purpose)) then
                    Err (ErrorString "secure-store purpose does not match")
                  else if len (env_Ciphertext value) =? 0 then
                    Err (ErrorString "secure-store ciphertext must not be empty")
                  else match unprotect (env_Ciphertext value) purpose with
                  | Err e => Err (ErrorWrap "unprotect secure-store data" e)
                  | Ok plaintext =>
                      if (len plaintext =? 0) || (len plaintext >? maxPlaintextBytes) then
                        Err (ErrorString "secure-store plaintext has an invalid size")
                      else Ok plaintext
                  end
              end
          end
      end
  end.
End SecureStore.

(** ** Atomicity and the round trip *)

(** [os.CreateTemp] makes a new file, whose name is not the store's. *)
Definition FreshTemp (fs : Files) (sys : Syscalls) (path : string) : Prop :=
  ∀ tmp, sys_createTemp sys = Ok tmp → fs !! tmp = None ∧ tmp ≠ path.

(** What a write may do to the files: nothing to [path] and an error, or the new
    contents in full; nothing to any other file but the temporary one, which is
    gone unless its removal failed. *)
Record AtomicWrite (fs fs' : Files) (sys : Syscalls) (path : string) (encoded : bytes)
    (r : result unit) : Prop := {
  aw_path : fs' !! path = Some encoded ∨ fs' !! path = fs !! path ∧ is_ok r = false;
  aw_other q : q ≠ path → sys_createTemp sys ≠ Ok q → fs' !! q = fs !! q;
  aw_temp q : sys_remove sys = true → sys_createTemp sys = Ok q → fs' !! q = None;
}.

Lemma writeAtomic_atomic fs sys path encoded fs' r :
  FreshTemp fs sys path → writeAtomic fs sys path encoded = (fs', r) →
  AtomicWrite fs fs' sys path encoded r.
Proof.
  unfold FreshTemp, writeAtomic, replaceFile. intros Hf Hw.
  destruct (sys_mkdir sys); [|simplify_eq; split; naive_solver].
  destruct (sys_createTemp sys) as [tmp|] eqn:Ht; [|simplify_eq; split; [by right|done|congruence]].
  destruct (Hf tmp eq_refl) as [Hfresh Hne]. rewrite lookup_insert_eq in Hw. simpl in Hw. go_cases;
    (split; [ first [right; split; [by rewrite ?lookup_insert_ne, ?lookup_delete_ne, ?lookup_insert_ne by done|done] | left; by rewrite ?lookup_delete_ne, ?lookup_insert_eq by done]
            | intros q ? ?; assert (q ≠ tmp) by congruence; by simplify_map_eq
            | intros q ? ?; first [congruence|assert (q = tmp) as -> by congruence; apply lookup_delete_eq] ]).
Qed.

(** The envelopes [Write] encodes (their text is ASCII). *)
Definition written (e : envelope) : Prop := env_Protection e = protectionName.

Section RoundTrip.
Context `{!JsonCodec envelope} `{!JsonLaws envelope written}.

Lemma Write_atomic fs sys path purpose plaintext fs' r :
  FreshTemp fs sys path → Write fs sys path purpose plaintext = (fs', r) →
  fs' !! path = fs !! path ∧ is_ok r = false ∨
  Read fs' None path purpose = Ok plaintext.
Proof.
  unfold Write. intros Hf Hw.
  destruct (validateArguments path purpose) as [[]|] eqn:Hargs; [|by left; simplify_eq].
  destruct (len plaintext =? 0) eqn:Hz; [by left; simplify_eq|].
  destruct (len plaintext >? maxPlaintextBytes) eqn:Hmax; [by left; simplify_eq|].
  simpl in Hw. case_match eqn:Hm; [|by left; simplify_eq].
  case_match eqn:Hlen; [by left; simplify_eq|].
  destruct (aw_path _ _ _ _ _ _ (writeAtomic_atomic _ _ _ _ _ _ Hf Hw)) as [Hp|?]; [right|by left].
  unfold Read. rewrite Hargs, Hp.
  match type of Hm with json_Marshal ?e = _ => assert (written e) as Hwr by done end.
  pose proof (json_nonempty _ _ Hwr Hm).
  rewrite (json_roundtrip _ _ Hwr Hm), (json_single _ _ Hwr Hm), Hlen.
  match type of Hm with _ = Ok ?b => destruct (len b =? 0) eqn:Hl; [by apply len_zero in Hl|] end.
  simpl. unfold equalPurpose. rewrite Z.eqb_refl, !bool_decide_true by done. simpl.
  by rewrite Hz, Hmax.
Qed.
End RoundTrip.
