(* ===== verification/Envelope.v ===== *)
(** * Protocol V1 messages

    The data of [gen/go/vibebridge/v1/envelope.pb.go]: the message structs, the
    enumerations and the [oneof] payload of [Envelope].  Enumerations of proto3
    are open, so each has a constructor for the numbers the schema does not
    name.  A message pointer is an [option] where the Go code tests it against
    nil. The wire format is the protobuf runtime's; it enters as the class
    [ProtoCodec]. *)

From S2P Require Import Prelude.

Inductive PeerRole :=
  | PEER_ROLE_UNSPECIFIED | PEER_ROLE_AGENT | PEER_ROLE_CLIENT | PEER_ROLE_RELAY
  | PeerRole_Other (number : Z).

Inductive ErrorCode :=
  | ERROR_CODE_UNSPECIFIED
  | ERROR_CODE_SESSION_START_FAILED
  | ERROR_CODE_SESSION_ALREADY_ACTIVE
  | ERROR_CODE_TERMINAL_INPUT_FAILED
  | ERROR_CODE_TERMINAL_RESIZE_FAILED
  | ERROR_CODE_UNSUPPORTED_MESSAGE
  | ERROR_CODE_ATTACHMENT_TRANSFER_FAILED
  | ERROR_CODE_ATTACHMENT_PROMPT_ACTION_FAILED
  | ErrorCode_Other (number : Z).

Inductive ProcessExitOutcome :=
  | PROCESS_EXIT_OUTCOME_UNSPECIFIED
  | PROCESS_EXIT_OUTCOME_SUCCESS
  | PROCESS_EXIT_OUTCOME_FAILURE
  | ProcessExitOutcome_Other (number : Z).

Inductive ResumeDisposition :=
  | RESUME_DISPOSITION_UNSPECIFIED
  | RESUME_DISPOSITION_FRESH
  | RESUME_DISPOSITION_RESUMED
  | RESUME_DISPOSITION_RESYNC_REQUIRED
  | ResumeDisposition_Other (number : Z).

Inductive AttachmentTransferDisposition :=
  | ATTACHMENT_TRANSFER_DISPOSITION_UNSPECIFIED
  | ATTACHMENT_TRANSFER_DISPOSITION_UNKNOWN
  | ATTACHMENT_TRANSFER_DISPOSITION_ACTIVE
  | ATTACHMENT_TRANSFER_DISPOSITION_COMPLETED
  | ATTACHMENT_TRANSFER_DISPOSITION_CANCELLED
  | AttachmentTransferDisposition_Other (number : Z).

Inductive AttachmentPromptDisposition :=
  | ATTACHMENT_PROMPT_DISPOSITION_UNSPECIFIED
  | ATTACHMENT_PROMPT_DISPOSITION_PREPARED
  | ATTACHMENT_PROMPT_DISPOSITION_COMMITTED
  | AttachmentPromptDisposition_Other (number : Z).

#[global] Instance PeerRole_eq_dec : EqDecision PeerRole.
Proof. solve_decision. Defined.
#[global] Instance ErrorCode_eq_dec : EqDecision ErrorCode.
Proof. solve_decision. Defined.

Record ProtocolVersion := mkProtocolVersion {
  Version_Major : Z;
  Version_Minor : Z;
}.

Record ProtocolVersionRange := mkProtocolVersionRange {
  Range_Minimum : option ProtocolVersion;
  Range_Maximum : option ProtocolVersion;
}.

Record Hello := mkHello {
  Hello_PeerRole : PeerRole;
  Hello_SupportedVersions : option ProtocolVersionRange;
  Hello_Capabilities : list string;
  Hello_MaxEnvelopeBytes : Z;
  Hello_DeviceId : bytes;
  Hello_PublicKeyFingerprint : string;
  Hello_RevocationEpoch : Z;
}.

Record AttachmentBegin := mkAttachmentBegin {
  Begin_TransferId : bytes;
  Begin_DisplayName : string;
  Begin_DeclaredContentType : string;
  Begin_DeclaredExtension : string;
  Begin_TotalSizeBytes : Z;
  Begin_TotalSha256 : bytes;
}.

Record AttachmentChunk := mkAttachmentChunk {
  Chunk_TransferId : bytes;
  Chunk_OffsetBytes : Z;
  Chunk_Data : bytes;
  Chunk_ChunkSha256 : bytes;
}.

Record AttachmentPromptPrepare := mkAttachmentPromptPrepare {
  Prepare_ActionId : bytes;
  Prepare_TransferIds : list bytes;
  Prepare_Prompt : string;
  Prepare_AppendEnter : bool;
}.

(** The payload [oneof] of [Envelope]; messages with one field are written as
    that field. *)
Inductive Payload :=
  | Payload_None
  | Payload_Hello (hello : option Hello)
  | Payload_AttachSession (LastAcknowledgedSequence : Z)
  | Payload_TerminalInput (Data : bytes)
  | Payload_TerminalOutput (Data : bytes)
  | Payload_TerminalResize (Columns Rows : Z)
  | Payload_SessionStatus (disposition : ResumeDisposition)
  | Payload_EndSession
  | Payload_Ping
  | Payload_Pong
  | Payload_Error (code : ErrorCode)
  | Payload_Acknowledgement
  | Payload_ProcessExit (outcome : ProcessExitOutcome)
  | Payload_AttachmentBegin (m : option AttachmentBegin)
  | Payload_AttachmentChunk (m : option AttachmentChunk)
  | Payload_AttachmentComplete (TransferId : option bytes)
  | Payload_AttachmentCancel (TransferId : option bytes)
  | Payload_AttachmentPromptPrepare (m : option AttachmentPromptPrepare)
  | Payload_AttachmentPromptPreview (ActionId : bytes)
      (disposition : AttachmentPromptDisposition) (Preview : string) (AppendEnter : bool)
  | Payload_AttachmentPromptCommit (ActionId : option bytes)
  | Payload_AttachmentPromptCancel (ActionId : option bytes)
  | Payload_AttachmentTransferStatusRequest (TransferId : option bytes)
  | Payload_AttachmentTransferStatus (TransferId : bytes)
      (disposition : AttachmentTransferDisposition) (NextOffsetBytes : Z)
  | Payload_AttachmentDiscard (TransferIds : option (list bytes)).

Record Envelope := mkEnvelope {
  ProtocolMajor : Z;
  ProtocolMinor : Z;
  ConnectionId : bytes;
  SessionId : bytes;
  SessionGeneration : Z;
  Sequence : Z;
  Acknowledge : Z;
  SentAt : Z;
  Env_Payload : Payload;
}.

#[global] Instance Envelope_eta : Eta Envelope := fun e =>
  mkEnvelope (ProtocolMajor e) (ProtocolMinor e) (ConnectionId e) (SessionId e)
    (SessionGeneration e) (Sequence e) (Acknowledge e) (SentAt e) (Env_Payload e).

Definition GetHello (e : Envelope) : option Hello :=
  match Env_Payload e with Payload_Hello h => h | _ => None end.

(** [GetAttachSession] returns the message, here its only field. *)
Definition GetAttachSession (e : Envelope) : option Z :=
  match Env_Payload e with Payload_AttachSession n => Some n | _ => None end.

(** The protobuf runtime: [proto.Unmarshal] and the deterministic
    [proto.MarshalOptions.Marshal], which fails on strings that are not UTF-8. *)
Class ProtoCodec := {
  proto_Unmarshal : bytes → option Envelope;
  proto_Marshal : Envelope → option bytes;
}.
