(* ===== verification/Negotiation.v ===== *)
(** * Hello negotiation ([internal/protocol/negotiation.go])

    [AcceptClientHello] validates the first client envelope and yields the
    negotiated capability set; [NewAgentHello] builds the Agent's answer. *)

From S2P Require Import Prelude.
From S2P Require Import Envelope.
From S2P Require Import Utf8.

Definition CurrentMajor : Z := 1.
Definition CurrentMinor : Z := 0.
Definition MaxEnvelopeBytes : Z := 64 * 1024.
Definition connectionIDBytes : Z := 16.
Definition maxCapabilities : Z := 64.
Definition maxCapabilityLen : Z := 128.

Definition CapabilityTerminalBinaryOutput : string := "terminal.binary_output".
Definition CapabilityTerminalSequencedIO : string := "terminal.sequenced_io_v1".
Definition CapabilityTerminalResizeEnd : string := "terminal.resize_end_v1".
Definition CapabilitySessionProcessExit : string := "session.process_exit_v1".
Definition CapabilitySessionResume : string := "session.resume_v1".
Definition CapabilityControlError : string := "control.error_v1".
Definition CapabilityControlHealth : string := "control.health_v1".
Definition CapabilityAttachmentTransfer : string := "attachment.transfer_v1".
Definition CapabilityAttachmentPromptAction : string := "attachment.prompt_action_v1".

Record NegotiatedHello := mkNegotiatedHello {
  Negotiated_Major : Z;
  Negotiated_Minor : Z;
  PeerMaxEnvelopeBytes : Z;
  ConnectionID : bytes;
  capabilities : gset string;
}.

Definition HasCapability (n : NegotiatedHello) (capability : string) : bool :=
  bool_decide (capability ∈ capabilities n).

Section Negotiation.
Context {codec : ProtoCodec}.

Definition validCapabilityName (capability : string) : bool :=
  negb (bool_decide (capability = EmptyString)) && (slen capability <=? maxCapabilityLen) &&
  bool_decide (TrimSpace capability = capability).

(** The loop over [hello.Capabilities] that fills the capability set. *)
Fixpoint collectCapabilities (seen : gset string) (l : list string) : result (gset string) :=
  match l with
  | [] => Ok seen
  | capability :: l' =>
      if negb (validCapabilityName capability) then
        Err (ErrorString "Hello contains an invalid capability name")
      else if bool_decide (capability ∈ seen) then
        Err (ErrorString "Hello contains a duplicate capability")
      else collectCapabilities ({[capability]} ∪ seen) l'
  end.

Definition sequencedDependents : list string :=
  [CapabilityTerminalResizeEnd; CapabilitySessionProcessExit; CapabilityControlError;
   CapabilityControlHealth; CapabilityAttachmentTransfer; CapabilityAttachmentPromptAction].

(** The dependency checks between advertised capabilities. *)
Definition checkDependencies (caps : gset string) : result unit :=
  let has c := bool_decide (c ∈ caps) in
  if existsb (fun d => has d && negb (has CapabilityTerminalSequencedIO)) sequencedDependents then
    Err (ErrorString "%s requires terminal.sequenced_io_v1")
  else if has CapabilityAttachmentTransfer && negb (has CapabilityControlError) then
    Err (ErrorString "attachment.transfer_v1 requires control.error_v1")
  else if has CapabilityAttachmentPromptAction && negb (has CapabilityAttachmentTransfer) then
    Err (ErrorString "attachment.prompt_action_v1 requires attachment.transfer_v1")
  else if has CapabilityAttachmentPromptAction && negb (has CapabilityControlError) then
    Err (ErrorString "attachment.prompt_action_v1 requires control.error_v1")
  else Ok tt.

Definition checkVersionRange (r : option ProtocolVersionRange) : result unit :=
  match r with
  | Some (mkProtocolVersionRange (Some minimum) (Some maximum)) =>
      if negb (Version_Major minimum =? Version_Major maximum) ||
         negb (Version_Major minimum =? CurrentMajor) ||
         (Version_Minor minimum >? Version_Minor maximum) then
        Err (ErrorString "Hello supported version range is invalid or incompatible")
      else if (CurrentMinor <? Version_Minor minimum) || (CurrentMinor >? Version_Minor maximum) then
        Err (ErrorString "Hello supported version range does not include the current version")
      else Ok tt
  | _ => Err (ErrorString "Hello supported version range is required")
  end.

Definition AcceptClientHello (encoded : bytes) : result NegotiatedHello :=
  _ ← reject_if ((len encoded =? 0) || (len encoded >? MaxEnvelopeBytes))
        (ErrorString "Hello envelope size must be between 1 and %d bytes");
  match proto_Unmarshal encoded with
  | None => Err (ErrorString "decode client Hello")
  | Some envelope =>
      _ ← reject_if (negb (ProtocolMajor envelope =? CurrentMajor) ||
                     negb (ProtocolMinor envelope =? CurrentMinor))
            (ErrorString "client selected an unsupported protocol version");
      _ ← reject_if (negb (len (ConnectionId envelope) =? connectionIDBytes))
            (ErrorString "connection ID must be %d bytes");
      _ ← reject_if (negb (len (SessionId envelope) =? 0) ||
                     negb (SessionGeneration envelope =? 0) ||
                     negb (Sequence envelope =? 1) || negb (Acknowledge envelope =? 0))
            (ErrorString "client Hello has invalid session or sequence metadata");
      match GetHello envelope with
      | None => Err (ErrorString "first Protocol V1 envelope must contain Hello")
      | Some hello =>
          _ ← reject_if (negb (bool_decide (Hello_PeerRole hello = PEER_ROLE_CLIENT)))
                (ErrorString "Hello peer role must be client");
          _ ← reject_if (Hello_MaxEnvelopeBytes hello =? 0)
                (ErrorString "Hello max envelope bytes must be positive");
          _ ← checkVersionRange (Hello_SupportedVersions hello);
          _ ← reject_if (len (Hello_Capabilities hello) >? maxCapabilities)
                (ErrorString "Hello has more than %d capabilities");
          caps ← collectCapabilities ∅ (Hello_Capabilities hello);
          _ ← checkDependencies caps;
          Ok (mkNegotiatedHello CurrentMajor CurrentMinor (Hello_MaxEnvelopeBytes hello)
                (ConnectionId envelope) caps)
      end
  end.

End Negotiation.

(** ** The Agent's Hello *)

Record AgentIdentity := mkAgentIdentity {
  Identity_DeviceID : bytes;
  Identity_PublicKeyFingerprint : string;
  Identity_RevocationEpoch : Z;
}.

Definition validateAgentIdentity (identity : AgentIdentity) : result unit :=
  if len (Identity_DeviceID identity) =? 0 then
    Err (ErrorString "Agent identity is missing device ID")
  else if bool_decide (Identity_PublicKeyFingerprint identity = EmptyString) then
    Err (ErrorString "Agent identity is missing public key fingerprint")
  else Ok tt.

Definition agentCapabilities : list string :=
  [CapabilityTerminalBinaryOutput; CapabilityTerminalSequencedIO; CapabilityTerminalResizeEnd;
   CapabilitySessionProcessExit; CapabilitySessionResume; CapabilityControlError;
   CapabilityControlHealth; CapabilityAttachmentTransfer; CapabilityAttachmentPromptAction].

Definition NewAgentHello (connectionID : bytes) (major minor sentAt : Z)
    (identity : option AgentIdentity) : result Envelope :=
  _ ← reject_if (negb (len connectionID =? connectionIDBytes))
        (ErrorString "connection ID must be %d bytes");
  _ ← reject_if (negb (major =? CurrentMajor) || negb (minor =? CurrentMinor))
        (ErrorString "cannot advertise an unsupported negotiated version");
  let current := Some (mkProtocolVersion CurrentMajor CurrentMinor) in
  let range := Some (mkProtocolVersionRange current current) in
  hello ← match identity with
          | Some i =>
              _ ← validateAgentIdentity i;
              Ok (mkHello PEER_ROLE_AGENT range agentCapabilities MaxEnvelopeBytes
                    (Identity_DeviceID i) (Identity_PublicKeyFingerprint i)
                    (Identity_RevocationEpoch i))
          | None => Ok (mkHello PEER_ROLE_AGENT range agentCapabilities MaxEnvelopeBytes [] EmptyString 0)
          end;
  Ok (mkEnvelope major minor connectionID [] 0 1 0 sentAt (Payload_Hello (Some hello))).

(** ** What an accepted Hello guarantees *)

(** A capability set is closed under the dependencies of the protocol. *)
Definition dependency_closed (caps : gset string) : Prop :=
  (∀ d, d ∈ sequencedDependents → d ∈ caps → CapabilityTerminalSequencedIO ∈ caps) ∧
  (CapabilityAttachmentTransfer ∈ caps → CapabilityControlError ∈ caps) ∧
  (CapabilityAttachmentPromptAction ∈ caps →
     CapabilityAttachmentTransfer ∈ caps ∧ CapabilityControlError ∈ caps).

Definition version_supported (r : option ProtocolVersionRange) : Prop :=
  ∃ minimum maximum,
    r = Some (mkProtocolVersionRange (Some minimum) (Some maximum)) ∧
    Version_Major minimum = CurrentMajor ∧ Version_Major maximum = CurrentMajor ∧
    Version_Minor minimum <= CurrentMinor <= Version_Minor maximum.

(** The declarative reading of a well-formed client Hello. *)
Definition client_hello_ok (e : Envelope) (h : Hello) : Prop :=
  ProtocolMajor e = CurrentMajor ∧ ProtocolMinor e = CurrentMinor ∧
  len (ConnectionId e) = connectionIDBytes ∧
  SessionId e = [] ∧ SessionGeneration e = 0 ∧ Sequence e = 1 ∧ Acknowledge e = 0 ∧
  Env_Payload e = Payload_Hello (Some h) ∧
  Hello_PeerRole h = PEER_ROLE_CLIENT ∧ Hello_MaxEnvelopeBytes h ≠ 0 ∧
  version_supported (Hello_SupportedVersions h) ∧
  len (Hello_Capabilities h) <= maxCapabilities ∧
  Forall (fun c => validCapabilityName c = true) (Hello_Capabilities h) ∧
  NoDup (Hello_Capabilities h) ∧
  dependency_closed (list_to_set (Hello_Capabilities h)).

Lemma collectCapabilities_Ok seen l caps :
  collectCapabilities seen l = Ok caps ↔
  Forall (fun c => validCapabilityName c = true) l ∧ NoDup l ∧
  (∀ c, c ∈ l → c ∉ seen) ∧ caps = list_to_set l ∪ seen.
Proof.
  revert seen; induction l as [|c l IH]; intros seen; simpl.
  { rewrite (left_id_L ∅ (∪)). split; [|naive_solver].
    intros [= ->]. split_and!; [constructor..|set_solver|done]. }
  destruct (validCapabilityName c) eqn:Hc; simpl;
    [|rewrite Forall_cons; split; [done|intros ([? _] & _); congruence]].
  case_bool_decide as Hin; [split; [done|intros (_ & _ & H & _); set_solver]|].
  rewrite IH, Forall_cons, NoDup_cons. split.
  - intros (H1 & H2 & H3 & ->). split_and!; auto; set_solver.
  - intros ([_ H1] & [H2 H2'] & H3 & ->). split_and!; auto; set_solver.
Qed.

Lemma checkDependencies_Ok caps u : checkDependencies caps = Ok u ↔ dependency_closed caps.
Proof.
  unfold checkDependencies, dependency_closed. destruct u.
  destruct (existsb _ sequencedDependents) eqn:He.
  { split; [done|]. intros (H & _). apply existsb_exists in He as (d & Hd & He).
    apply list_elem_of_In in Hd. split_bool. naive_solver. }
  assert (∀ d, d ∈ sequencedDependents → d ∈ caps → CapabilityTerminalSequencedIO ∈ caps) as Hs.
  { intros d Hd Hin. destruct (decide (CapabilityTerminalSequencedIO ∈ caps)); [done|].
    apply list_elem_of_In in Hd. exfalso.
    assert (existsb (fun d => bool_decide (d ∈ caps) &&
      negb (bool_decide (CapabilityTerminalSequencedIO ∈ caps))) sequencedDependents = true) as Hc.
    { apply existsb_exists. exists d. split; [done|].
      apply andb_true_intro; split;
        [by apply bool_decide_eq_true|by apply negb_true_iff, bool_decide_eq_false]. }
    congruence. }
  repeat case_bool_decide; simpl; naive_solver.
Qed.

Lemma checkVersionRange_Ok r u : checkVersionRange r = Ok u ↔ version_supported r.
Proof.
  unfold checkVersionRange, version_supported. destruct u.
  destruct r as [[[m|] [M|]]|]; try naive_solver.
  repeat case_match; split; intros H'; try done.
  - destruct H' as (? & ? & ? & ?); simplify_eq. lia.
  - destruct H' as (? & ? & ? & ?); simplify_eq. lia.
  - eexists _, _. split; [done|]. lia.
Qed.

Section Spec.
Context {codec : ProtoCodec}.

(** C26: [AcceptClientHello] accepts exactly the well-formed client Hellos, and
    yields their connection ID, peer limit and capability set: the set is the
    advertised one, and it is closed under the protocol's dependencies. *)
Theorem AcceptClientHello_spec encoded n :
  AcceptClientHello encoded = Ok n ↔
  1 <= len encoded <= MaxEnvelopeBytes ∧
  ∃ e h, proto_Unmarshal encoded = Some e ∧ client_hello_ok e h ∧
    n = mkNegotiatedHello CurrentMajor CurrentMinor (Hello_MaxEnvelopeBytes h)
          (ConnectionId e) (list_to_set (Hello_Capabilities h)).
Proof.
  pose proof (len_nonneg encoded).
  unfold AcceptClientHello, client_hello_ok, GetHello.
  rewrite bind_Ok. setoid_rewrite reject_if_Ok.
  destruct (proto_Unmarshal encoded) as [e|];
    [|split; [naive_solver|intros (_ & ? & ? & ? & _); done]].
  repeat setoid_rewrite bind_Ok. repeat setoid_rewrite reject_if_Ok.
  split.
  - intros (_ & Hl & _ & Hv & _ & Hc & _ & Hm & Hrest). split; [lia|].
    destruct (Env_Payload e) as [|[h|]| | | | | | | | | | | | | | | | | | | | | |] eqn:Hp; try done.
    repeat setoid_rewrite bind_Ok in Hrest. repeat setoid_rewrite reject_if_Ok in Hrest.
    destruct Hrest as (_ & Hrole & _ & Hmax & u & Hver & _ & Hn & caps & Hcaps & u' & Hdep & [= <-]).
    apply checkVersionRange_Ok in Hver. apply checkDependencies_Ok in Hdep.
    apply collectCapabilities_Ok in Hcaps as (Hval & Hnd & _ & ->).
    rewrite (right_id_L ∅ (∪)) in *. apply negb_false_iff, bool_decide_eq_true in Hrole.
    exists e, h. split_bool. split_and!; try done; try lia.
    by apply len_zero.
  - intros (Hl & e' & h & [= <-] & (? & ? & ? & Hs & ? & ? & ? & -> & Hrole & ? & Hver & ? & Hval & Hnd & Hdep) & ->).
    exists tt. split; [lia|]. exists tt. split; [lia|]. exists tt. split; [lia|].
    exists tt. rewrite Hs. split; [rewrite len_nil; lia|].
    repeat setoid_rewrite bind_Ok. repeat setoid_rewrite reject_if_Ok.
    exists tt. split; [by rewrite Hrole|]. exists tt. split; [lia|].
    exists tt. split; [by apply checkVersionRange_Ok|]. exists tt. split; [lia|].
    exists (list_to_set (Hello_Capabilities h)). split.
    { apply collectCapabilities_Ok. rewrite (right_id_L ∅ (∪)). split_and!; auto; set_solver. }
    exists tt. split; [by apply checkDependencies_Ok|done].
Qed.

End Spec.
