(* ===== verification/Stream.v ===== *)
(** * The ordered Agent stream ([internal/protocol/stream.go])

    [AgentStream] owns the connection-local ordering state after the Hello
    exchange: the sequence counters of both directions, the highest
    acknowledgement of the peer, the pings that still need a pong, and the
    binding to one PTY session.  Methods take the state and return the new
    state with their result; the mutex makes each of them one step. *)

From S2P Require Import Prelude.
From S2P Require Import Envelope.
From S2P Require Import Sha256.
From S2P Require Import Negotiation.

Definition MaxTerminalInputBytes : Z := 32 * 1024.
Definition MaxTerminalDimension : Z := 65535.
Definition MaxAttachmentPromptBytes : Z := 32 * 1024.
Definition MaxAttachmentPromptPreviewBytes : Z := 48 * 1024.
Definition maxAttachmentTransferIDBytes : Z := 64.
Definition maxAttachmentPromptActionIDBytes : Z := 64.
Definition maxAttachmentPromptTransfers : Z := 10.
Definition maxAttachmentDiscardTransfers : Z := 10.

Inductive ClientStreamMessageKind :=
  | ClientStreamMessageNone
  | ClientStreamMessageAttachSession
  | ClientStreamMessageTerminalInput
  | ClientStreamMessageTerminalResize
  | ClientStreamMessageEndSession
  | ClientStreamMessageAcknowledgement
  | ClientStreamMessagePing
  | ClientStreamMessageAttachmentBegin
  | ClientStreamMessageAttachmentChunk
  | ClientStreamMessageAttachmentComplete
  | ClientStreamMessageAttachmentCancel
  | ClientStreamMessageAttachmentDiscard
  | ClientStreamMessageAttachmentTransferStatusRequest
  | ClientStreamMessageAttachmentPromptPrepare
  | ClientStreamMessageAttachmentPromptCommit
  | ClientStreamMessageAttachmentPromptCancel.

#[global] Instance ClientStreamMessageKind_eq_dec : EqDecision ClientStreamMessageKind.
Proof. solve_decision. Defined.

Record ClientStreamMessage := mkClientStreamMessage {
  Msg_Kind : ClientStreamMessageKind;
  Msg_Sequence : Z;
  Msg_Data : bytes;
  Msg_SessionID : bytes;
  Msg_SessionGeneration : Z;
  Msg_LastAcknowledgedSequence : Z;
  Msg_Columns : Z;
  Msg_Rows : Z;
  Msg_TransferID : bytes;
  Msg_DisplayName : string;
  Msg_DeclaredContentType : string;
  Msg_DeclaredExtension : string;
  Msg_TotalSizeBytes : Z;
  Msg_TotalSHA256 : bytes;
  Msg_OffsetBytes : Z;
  Msg_ChunkSHA256 : bytes;
  Msg_ActionID : bytes;
  Msg_TransferIDs : list bytes;
  Msg_Prompt : string;
  Msg_AppendEnter : bool;
}.

#[global] Instance ClientStreamMessage_eta : Eta ClientStreamMessage := fun m =>
  mkClientStreamMessage (Msg_Kind m) (Msg_Sequence m) (Msg_Data m) (Msg_SessionID m)
    (Msg_SessionGeneration m) (Msg_LastAcknowledgedSequence m) (Msg_Columns m) (Msg_Rows m)
    (Msg_TransferID m) (Msg_DisplayName m) (Msg_DeclaredContentType m)
    (Msg_DeclaredExtension m) (Msg_TotalSizeBytes m) (Msg_TotalSHA256 m) (Msg_OffsetBytes m)
    (Msg_ChunkSHA256 m) (Msg_ActionID m) (Msg_TransferIDs m) (Msg_Prompt m) (Msg_AppendEnter m).

(** The zero [ClientStreamMessage] with its sequence set. *)
Definition newMessage (sequence : Z) : ClientStreamMessage :=
  mkClientStreamMessage ClientStreamMessageNone sequence [] [] 0 0 0 0 [] EmptyString EmptyString EmptyString 0 [] 0 []
    [] [] EmptyString false.

Record AgentStream := mkAgentStream {
  connectionID : bytes;
  peerMaxEnvelopeSize : Z;
  nextOutbound : Z;
  nextInbound : Z;
  highestInbound : Z;
  highestPeerAck : Z;
  pendingPingSequences : list Z;
  sessionResume : bool;
  terminalResizeEnd : bool;
  sessionProcessExit : bool;
  controlError : bool;
  controlHealth : bool;
  attachmentTransfer : bool;
  attachmentPromptAction : bool;
  sessionBound : bool;
  sessionID : bytes;
  sessionGeneration : Z;
}.

#[global] Instance AgentStream_eta : Eta AgentStream := fun s =>
  mkAgentStream (connectionID s) (peerMaxEnvelopeSize s) (nextOutbound s) (nextInbound s)
    (highestInbound s) (highestPeerAck s) (pendingPingSequences s) (sessionResume s)
    (terminalResizeEnd s) (sessionProcessExit s) (controlError s) (controlHealth s)
    (attachmentTransfer s) (attachmentPromptAction s) (sessionBound s) (sessionID s)
    (sessionGeneration s).

Definition NewAgentStream (negotiated : NegotiatedHello) : result AgentStream :=
  if negb (len (ConnectionID negotiated) =? connectionIDBytes) then
    Err (ErrorString "connection ID must be %d bytes")
  else if PeerMaxEnvelopeBytes negotiated =? 0 then
    Err (ErrorString "peer max envelope bytes must be positive")
  else Ok {|
    connectionID := ConnectionID negotiated;
    peerMaxEnvelopeSize := PeerMaxEnvelopeBytes negotiated;
    nextOutbound := 2;
    nextInbound := 2;
    highestInbound := 1;
    highestPeerAck := 0;
    pendingPingSequences := [];
    sessionResume := HasCapability negotiated CapabilitySessionResume;
    terminalResizeEnd := HasCapability negotiated CapabilityTerminalResizeEnd;
    sessionProcessExit := HasCapability negotiated CapabilitySessionProcessExit;
    controlError := HasCapability negotiated CapabilityControlError;
    controlHealth := HasCapability negotiated CapabilityControlHealth;
    attachmentTransfer := HasCapability negotiated CapabilityAttachmentTransfer;
    attachmentPromptAction := HasCapability negotiated CapabilityAttachmentPromptAction;
    sessionBound := false;
    sessionID := [];
    sessionGeneration := 0;
  |}.

(** ** Inbound: decode, validate, commit *)

Definition validAttachmentTransferID (transferID : bytes) : bool :=
  (len transferID >? 0) && (len transferID <=? maxAttachmentTransferIDBytes).

Definition validAttachmentPromptActionID (actionID : bytes) : bool :=
  (len actionID >? 0) && (len actionID <=? maxAttachmentPromptActionIDBytes).

Definition validateInboundEnvelope (s : AgentStream) (e : Envelope) : result unit :=
  _ ← reject_if (negb (ProtocolMajor e =? CurrentMajor) || negb (ProtocolMinor e =? CurrentMinor))
        (ErrorString "client envelope uses an unsupported protocol version");
  _ ← reject_if (negb (bool_decide (ConnectionId e = connectionID s)))
        (ErrorString "client envelope connection ID does not match");
  _ ← (if sessionResume s then
         if sessionBound s then
           reject_if (negb (bool_decide (SessionId e = sessionID s)) ||
                      negb (SessionGeneration e =? sessionGeneration s))
             (ErrorString "client envelope session metadata does not match the bound session")
         else
           match GetAttachSession e with
           | None => Err (ErrorString "first client stream message must contain AttachSession")
           | Some cursor =>
               let fresh := (len (SessionId e) =? 0) && (SessionGeneration e =? 0) in
               let resume := (len (SessionId e) =? connectionIDBytes) && (SessionGeneration e >? 0) in
               _ ← reject_if (negb fresh && negb resume)
                     (ErrorString "AttachSession has invalid session metadata");
               reject_if (fresh && negb (cursor =? 0))
                 (ErrorString "fresh AttachSession cannot carry a resume cursor")
           end
       else reject_if (negb (len (SessionId e) =? 0) || negb (SessionGeneration e =? 0))
              (ErrorString "connection-local envelope contains session metadata"));
  _ ← reject_if (negb (Sequence e =? nextInbound s))
        (ErrorString "client sequence = %d, expected %d");
  reject_if ((Acknowledge e <? highestPeerAck s) || (Acknowledge e >=? nextOutbound s))
    (ErrorString "client acknowledgement is invalid or refers to an unsent sequence").

(** The loop over the transfer IDs of an [AttachmentDiscard]. *)
Fixpoint collectDiscardIDs (seen : gset string) (ids : list bytes) : result (list bytes) :=
  match ids with
  | [] => Ok []
  | transferID :: ids' =>
      if negb (validAttachmentTransferID transferID) then
        Err (ErrorString "AttachmentDiscard has invalid transfer metadata")
      else
        let key := string_of_bytes transferID in
        if bool_decide (key ∈ seen) then
          Err (ErrorString "AttachmentDiscard contains a duplicate transfer ID")
        else
          rest ← collectDiscardIDs ({[key]} ∪ seen) ids';
          Ok (transferID :: rest)
  end.

Definition errTransferNotNegotiated : error :=
  ErrorString "attachment transfer was not negotiated".
Definition errPromptNotNegotiated : error :=
  ErrorString "attachment prompt action was not negotiated".
Definition errResizeEndNotNegotiated : error :=
  ErrorString "terminal resize/end was not negotiated".

(** A payload that only names one transfer (or one prompt action). *)
Definition decodeID (negotiated : bool) (notNegotiated : error) (valid : bytes → bool)
    (id : option bytes) (bad : string) (k : bytes → ClientStreamMessage)
    : result ClientStreamMessage :=
  if negb negotiated then Err notNegotiated
  else match id with
       | Some i => if valid i then Ok (k i) else Err (ErrorString bad)
       | None => Err (ErrorString bad)
       end.

(** The type switch of [DecodeClientMessage]. *)
Definition decodePayload (s : AgentStream) (e : Envelope) : result ClientStreamMessage :=
  let message := newMessage (Sequence e) in
  match Env_Payload e with
  | Payload_AttachSession cursor =>
      if negb (sessionResume s) || sessionBound s then
        Err (ErrorString "AttachSession is not valid for this stream state")
      else Ok (message <| Msg_Kind := ClientStreamMessageAttachSession |>
                       <| Msg_SessionID := SessionId e |>
                       <| Msg_SessionGeneration := SessionGeneration e |>
                       <| Msg_LastAcknowledgedSequence := cursor |>)
  | Payload_TerminalInput data =>
      if (len data =? 0) || (len data >? MaxTerminalInputBytes) then
        Err (ErrorString "terminal input size must be between 1 and %d bytes")
      else Ok (message <| Msg_Kind := ClientStreamMessageTerminalInput |> <| Msg_Data := data |>)
  | Payload_TerminalResize columns rows =>
      if negb (terminalResizeEnd s) then Err errResizeEndNotNegotiated
      else if (columns =? 0) || (columns >? MaxTerminalDimension) ||
              (rows =? 0) || (rows >? MaxTerminalDimension) then
        Err (ErrorString "terminal dimensions must be between 1 and %d")
      else Ok (message <| Msg_Kind := ClientStreamMessageTerminalResize |>
                       <| Msg_Columns := columns |> <| Msg_Rows := rows |>)
  | Payload_EndSession =>
      if negb (terminalResizeEnd s) then Err errResizeEndNotNegotiated
      else Ok (message <| Msg_Kind := ClientStreamMessageEndSession |>)
  | Payload_Acknowledgement => Ok (message <| Msg_Kind := ClientStreamMessageAcknowledgement |>)
  | Payload_Ping =>
      if negb (controlHealth s) then Err (ErrorString "control health was not negotiated")
      else Ok (message <| Msg_Kind := ClientStreamMessagePing |>)
  | Payload_AttachmentBegin m =>
      let bad := Err (ErrorString "AttachmentBegin has invalid transfer metadata") in
      if negb (attachmentTransfer s) then Err errTransferNotNegotiated
      else match m with
      | None => bad
      | Some b =>
          if negb (validAttachmentTransferID (Begin_TransferId b)) ||
             (Begin_TotalSizeBytes b =? 0) || negb (len (Begin_TotalSha256 b) =? sha256_Size)
          then bad
          else Ok (message <| Msg_Kind := ClientStreamMessageAttachmentBegin |>
                           <| Msg_TransferID := Begin_TransferId b |>
                           <| Msg_DisplayName := Begin_DisplayName b |>
                           <| Msg_DeclaredContentType := Begin_DeclaredContentType b |>
                           <| Msg_DeclaredExtension := Begin_DeclaredExtension b |>
                           <| Msg_TotalSizeBytes := Begin_TotalSizeBytes b |>
                           <| Msg_TotalSHA256 := Begin_TotalSha256 b |>)
      end
  | Payload_AttachmentChunk m =>
      let bad := Err (ErrorString "AttachmentChunk has invalid transfer metadata") in
      if negb (attachmentTransfer s) then Err errTransferNotNegotiated
      else match m with
      | None => bad
      | Some c =>
          if negb (validAttachmentTransferID (Chunk_TransferId c)) ||
             (len (Chunk_Data c) =? 0) || negb (len (Chunk_ChunkSha256 c) =? sha256_Size)
          then bad
          else Ok (message <| Msg_Kind := ClientStreamMessageAttachmentChunk |>
                           <| Msg_TransferID := Chunk_TransferId c |>
                           <| Msg_OffsetBytes := Chunk_OffsetBytes c |>
                           <| Msg_Data := Chunk_Data c |>
                           <| Msg_ChunkSHA256 := Chunk_ChunkSha256 c |>)
      end
  | Payload_AttachmentComplete id =>
      decodeID (attachmentTransfer s) errTransferNotNegotiated validAttachmentTransferID id
        "AttachmentComplete has invalid transfer metadata"
        (fun i => message <| Msg_Kind := ClientStreamMessageAttachmentComplete |>
                          <| Msg_TransferID := i |>)
  | Payload_AttachmentCancel id =>
      decodeID (attachmentTransfer s) errTransferNotNegotiated validAttachmentTransferID id
        "AttachmentCancel has invalid transfer metadata"
        (fun i => message <| Msg_Kind := ClientStreamMessageAttachmentCancel |>
                          <| Msg_TransferID := i |>)
  | Payload_AttachmentDiscard m =>
      let bad := Err (ErrorString "AttachmentDiscard has invalid transfer metadata") in
      if negb (attachmentTransfer s) then Err errTransferNotNegotiated
      else match m with
      | None => bad
      | Some ids =>
          if (len ids =? 0) || (len ids >? maxAttachmentDiscardTransfers) then bad
          else
            ids' ← collectDiscardIDs ∅ ids;
            Ok (message <| Msg_Kind := ClientStreamMessageAttachmentDiscard |>
                        <| Msg_TransferIDs := ids' |>)
      end
  | Payload_AttachmentTransferStatusRequest id =>
      decodeID (attachmentTransfer s) errTransferNotNegotiated validAttachmentTransferID id
        "AttachmentTransferStatusRequest has invalid transfer metadata"
        (fun i => message <| Msg_Kind := ClientStreamMessageAttachmentTransferStatusRequest |>
                          <| Msg_TransferID := i |>)
  | Payload_AttachmentPromptPrepare m =>
      let bad := Err (ErrorString "AttachmentPromptPrepare has invalid action metadata") in
      if negb (attachmentPromptAction s) then Err errPromptNotNegotiated
      else match m with
      | None => bad
      | Some p =>
          if negb (validAttachmentPromptActionID (Prepare_ActionId p)) ||
             (len (Prepare_TransferIds p) =? 0) ||
             (len (Prepare_TransferIds p) >? maxAttachmentPromptTransfers) ||
             (slen (Prepare_Prompt p) =? 0) || (slen (Prepare_Prompt p) >? MaxAttachmentPromptBytes)
          then bad
          else if negb (forallb validAttachmentTransferID (Prepare_TransferIds p)) then
            Err (ErrorString "AttachmentPromptPrepare has invalid transfer metadata")
          else Ok (message <| Msg_Kind := ClientStreamMessageAttachmentPromptPrepare |>
                           <| Msg_ActionID := Prepare_ActionId p |>
                           <| Msg_TransferIDs := Prepare_TransferIds p |>
                           <| Msg_Prompt := Prepare_Prompt p |>
                           <| Msg_AppendEnter := Prepare_AppendEnter p |>)
      end
  | Payload_AttachmentPromptCommit id =>
      decodeID (attachmentPromptAction s) errPromptNotNegotiated validAttachmentPromptActionID id
        "AttachmentPromptCommit has invalid action metadata"
        (fun i => message <| Msg_Kind := ClientStreamMessageAttachmentPromptCommit |>
                          <| Msg_ActionID := i |>)
  | Payload_AttachmentPromptCancel id =>
      decodeID (attachmentPromptAction s) errPromptNotNegotiated validAttachmentPromptActionID id
        "AttachmentPromptCancel has invalid action metadata"
        (fun i => message <| Msg_Kind := ClientStreamMessageAttachmentPromptCancel |>
                          <| Msg_ActionID := i |>)
  | _ => Err (ErrorString "client envelope contains an unsupported payload")
  end.

(** [CommitClientMessage]: ordering advances once the side effect of a decoded
    message has been applied. *)
Definition CommitClientMessage (s : AgentStream) (message : ClientStreamMessage)
    : AgentStream * result unit :=
  if negb (Msg_Sequence message =? nextInbound s) then
    (s, Err (ErrorString "client sequence %d cannot be committed; expected %d"))
  else
    let s := s <| highestInbound := Msg_Sequence message |>
               <| nextInbound ::= fun n => u64 (n + 1) |> in
    (if bool_decide (Msg_Kind message = ClientStreamMessagePing)
     then s <| pendingPingSequences ::= fun l => l ++ [Msg_Sequence message] |> else s,
     Ok tt).

Section Codec.
Context {codec : ProtoCodec}.

Definition DecodeClientMessage (s : AgentStream) (encoded : bytes)
    : AgentStream * result ClientStreamMessage :=
  if (len encoded =? 0) || (len encoded >? MaxEnvelopeBytes) then
    (s, Err (ErrorString "envelope size must be between 1 and %d bytes"))
  else match proto_Unmarshal encoded with
  | None => (s, Err (ErrorString "decode client envelope"))
  | Some envelope =>
      match (_ ← validateInboundEnvelope s envelope; decodePayload s envelope) with
      | Err e => (s, Err e)
      | Ok message => (s <| highestPeerAck := Acknowledge envelope |>, Ok message)
      end
  end.

(** ** Outbound *)

(** [marshalLocked]: the encoding is refused above the smaller of the two
    envelope limits. *)
Definition marshalLocked (s : AgentStream) (e : Envelope) : result bytes :=
  match proto_Marshal e with
  | None => Err (ErrorString "encode Agent envelope")
  | Some encoded =>
      if len encoded >? Z.min MaxEnvelopeBytes (peerMaxEnvelopeSize s) then
        Err (ErrorString "Agent envelope exceeds negotiated %d-byte limit")
      else Ok encoded
  end.

(** The metadata [encodeLocked] and [terminalOutputEnvelope] put on a payload. *)
Definition outboundEnvelope (s : AgentStream) (p : Payload) (sentAt : Z) : Envelope :=
  {| ProtocolMajor := CurrentMajor;
     ProtocolMinor := CurrentMinor;
     ConnectionId := connectionID s;
     SessionId := sessionID s;
     SessionGeneration := sessionGeneration s;
     Sequence := nextOutbound s;
     Acknowledge := highestInbound s;
     SentAt := sentAt;
     Env_Payload := p |}.

Definition encodeLocked (s : AgentStream) (p : Payload) (sentAt : Z) : AgentStream * result bytes :=
  match marshalLocked s (outboundEnvelope s p sentAt) with
  | Err e => (s, Err e)
  | Ok encoded => (s <| nextOutbound ::= fun n => u64 (n + 1) |>, Ok encoded)
  end.

Definition unbound (s : AgentStream) : bool := sessionResume s && negb (sessionBound s).

Definition EncodeTerminalOutput (s : AgentStream) (data : bytes) (sentAt : Z)
    : AgentStream * result bytes :=
  if len data =? 0 then (s, Err (ErrorString "terminal output must not be empty"))
  else if unbound s then (s, Err (ErrorString "session must be bound before terminal output"))
  else encodeLocked s (Payload_TerminalOutput data) sentAt.

(** The binary search of [EncodeTerminalOutputChunk]. Every iteration shrinks
    [high - low + 1], so the length of the data is enough fuel. *)
Fixpoint chunkSearch (fuel : nat) (s : AgentStream) (data : bytes) (sentAt : Z)
    (low high : Z) (best : option (bytes * Z)) : option (bytes * Z) :=
  match fuel with
  | O => best
  | S fuel' =>
      if low <=? high then
        let middle := low + (high - low) `quot` 2 in
        match marshalLocked s
                (outboundEnvelope s (Payload_TerminalOutput (take (Z.to_nat middle) data)) sentAt) with
        | Ok encoded => chunkSearch fuel' s data sentAt (middle + 1) high (Some (encoded, middle))
        | Err _ => chunkSearch fuel' s data sentAt low (middle - 1) best
        end
      else best
  end.

Definition EncodeTerminalOutputChunk (s : AgentStream) (data : bytes) (sentAt : Z)
    : AgentStream * result (bytes * Z) :=
  if len data =? 0 then (s, Err (ErrorString "terminal output must not be empty"))
  else if unbound s then (s, Err (ErrorString "session must be bound before terminal output"))
  else match chunkSearch (length data) s data sentAt 1 (len data) None with
  | None => (s, Err (ErrorString "negotiated envelope limit cannot carry terminal output"))
  | Some best => (s <| nextOutbound ::= fun n => u64 (n + 1) |>, Ok best)
  end.

Definition BindSession (s : AgentStream) (id : bytes) (generation : Z)
    : AgentStream * result unit :=
  if negb (sessionResume s) then (s, Err (ErrorString "session resume was not negotiated"))
  else if sessionBound s then (s, Err (ErrorString "session is already bound"))
  else if highestInbound s <? 2 then
    (s, Err (ErrorString "AttachSession must be committed before binding"))
  else if negb (len id =? connectionIDBytes) || (generation =? 0) then
    (s, Err (ErrorString "session ID must be 16 bytes and generation must be positive"))
  else (s <| sessionID := id |> <| sessionGeneration := generation |> <| sessionBound := true |>,
        Ok tt).

Definition EncodeSessionStatus (s : AgentStream) (disposition : ResumeDisposition) (sentAt : Z)
    : AgentStream * result bytes :=
  if negb (sessionResume s) || negb (sessionBound s) then
    (s, Err (ErrorString "session must be bound before SessionStatus"))
  else match disposition with
  | RESUME_DISPOSITION_FRESH | RESUME_DISPOSITION_RESUMED | RESUME_DISPOSITION_RESYNC_REQUIRED =>
      encodeLocked s (Payload_SessionStatus disposition) sentAt
  | _ => (s, Err (ErrorString "resume disposition is invalid"))
  end.

Definition EncodeProcessExit (s : AgentStream) (outcome : ProcessExitOutcome) (sentAt : Z)
    : AgentStream * result bytes :=
  if negb (sessionProcessExit s) then
    (s, Err (ErrorString "session process exit was not negotiated"))
  else if unbound s then (s, Err (ErrorString "session must be bound before ProcessExit"))
  else match outcome with
  | PROCESS_EXIT_OUTCOME_SUCCESS | PROCESS_EXIT_OUTCOME_FAILURE =>
      encodeLocked s (Payload_ProcessExit outcome) sentAt
  | _ => (s, Err (ErrorString "process exit outcome is invalid"))
  end.

Definition EncodeAttachmentTransferStatus (s : AgentStream) (transferID : bytes)
    (disposition : AttachmentTransferDisposition) (nextOffsetBytes sentAt : Z)
    : AgentStream * result bytes :=
  let status := Payload_AttachmentTransferStatus transferID disposition nextOffsetBytes in
  if negb (attachmentTransfer s) then (s, Err errTransferNotNegotiated)
  else if unbound s then
    (s, Err (ErrorString "session must be bound before AttachmentTransferStatus"))
  else if negb (validAttachmentTransferID transferID) then
    (s, Err (ErrorString "attachment transfer ID is invalid"))
  else match disposition with
  | ATTACHMENT_TRANSFER_DISPOSITION_ACTIVE => encodeLocked s status sentAt
  | ATTACHMENT_TRANSFER_DISPOSITION_UNKNOWN | ATTACHMENT_TRANSFER_DISPOSITION_COMPLETED
  | ATTACHMENT_TRANSFER_DISPOSITION_CANCELLED =>
      if negb (nextOffsetBytes =? 0) then
        (s, Err (ErrorString "non-active attachment transfer status cannot carry an offset"))
      else encodeLocked s status sentAt
  | _ => (s, Err (ErrorString "attachment transfer disposition is invalid"))
  end.

Definition EncodeAttachmentPromptPreview (s : AgentStream) (actionID : bytes)
    (disposition : AttachmentPromptDisposition) (preview : string) (appendEnter : bool)
    (sentAt : Z) : AgentStream * result bytes :=
  let message := Payload_AttachmentPromptPreview actionID disposition preview appendEnter in
  if negb (attachmentPromptAction s) then (s, Err errPromptNotNegotiated)
  else if unbound s then
    (s, Err (ErrorString "session must be bound before AttachmentPromptPreview"))
  else if negb (validAttachmentPromptActionID actionID) then
    (s, Err (ErrorString "attachment prompt action ID is invalid"))
  else match disposition with
  | ATTACHMENT_PROMPT_DISPOSITION_PREPARED =>
      if (slen preview =? 0) || (slen preview >? MaxAttachmentPromptPreviewBytes) then
        (s, Err (ErrorString "prepared attachment prompt preview is invalid"))
      else encodeLocked s message sentAt
  | ATTACHMENT_PROMPT_DISPOSITION_COMMITTED =>
      if negb (slen preview =? 0) || appendEnter then
        (s, Err (ErrorString "committed attachment prompt preview must be empty"))
      else encodeLocked s message sentAt
  | _ => (s, Err (ErrorString "attachment prompt disposition is invalid"))
  end.

Definition EncodeError (s : AgentStream) (code : ErrorCode) (sentAt : Z)
    : AgentStream * result bytes :=
  if negb (controlError s) then (s, Err (ErrorString "control error was not negotiated"))
  else match code with
  | ERROR_CODE_SESSION_START_FAILED | ERROR_CODE_SESSION_ALREADY_ACTIVE
  | ERROR_CODE_TERMINAL_INPUT_FAILED | ERROR_CODE_TERMINAL_RESIZE_FAILED
  | ERROR_CODE_UNSUPPORTED_MESSAGE | ERROR_CODE_ATTACHMENT_TRANSFER_FAILED
  | ERROR_CODE_ATTACHMENT_PROMPT_ACTION_FAILED =>
      if unbound s && negb (bool_decide (code = ERROR_CODE_SESSION_START_FAILED)) &&
         negb (bool_decide (code = ERROR_CODE_SESSION_ALREADY_ACTIVE)) then
        (s, Err (ErrorString
          "only session start or active-session errors are valid before session binding"))
      else encodeLocked s (Payload_Error code) sentAt
  | _ => (s, Err (ErrorString "error code is invalid"))
  end.

Definition EncodePong (s : AgentStream) (sentAt : Z) : AgentStream * result bytes :=
  if negb (controlHealth s) then (s, Err (ErrorString "control health was not negotiated"))
  else if unbound s then (s, Err (ErrorString "session must be bound before Pong"))
  else match pendingPingSequences s with
  | [] => (s, Err (ErrorString "Pong requires a committed Ping"))
  | _ :: _ =>
      match encodeLocked s Payload_Pong sentAt with
      | (s', Err e) => (s', Err e)
      | (s', Ok encoded) => (s' <| pendingPingSequences ::= drop 1 |>, Ok encoded)
      end
  end.

Definition EncodeAcknowledgement (s : AgentStream) (sentAt : Z) : AgentStream * result bytes :=
  encodeLocked s Payload_Acknowledgement sentAt.

Definition HighestOutboundSequence (s : AgentStream) : Z := u64 (nextOutbound s - 1).

(** The negotiated capabilities. *)
Definition UsesControlHealth (s : AgentStream) : bool := controlHealth s.
Definition UsesControlError (s : AgentStream) : bool := controlError s.
Definition UsesSessionProcessExit (s : AgentStream) : bool := sessionProcessExit s.
Definition UsesTerminalResizeEnd (s : AgentStream) : bool := terminalResizeEnd s.
Definition UsesSessionResume (s : AgentStream) : bool := sessionResume s.

End Codec.
