(* ===== verification/StreamFacts.v ===== *)
(** * Ordering guarantees of the Agent stream

    The stream as a labelled transition system over its methods, its invariant,
    and the theorems on traces: contiguous sequence numbers in both
    directions, acknowledgements that never run ahead, one pong per ping, and
    silence before a resumable stream is bound.  A section shows that the
    binary search of [EncodeTerminalOutputChunk] finds the largest prefix that
    fits; the file ends with an executed stream. *)

From S2P Require Import Prelude.
From S2P Require Import Utf8.
From S2P Require Import Sha256.
From S2P Require Import Envelope.
From S2P Require Import Negotiation.
From S2P Require Import Stream.

Section Facts.
Context {codec : ProtoCodec}.

(** ** The stream as a transition system *)

Inductive StreamOp :=
  | OpDecode (encoded : bytes)
  | OpCommit (message : ClientStreamMessage)
  | OpBind (id : bytes) (generation : Z)
  | OpTerminalOutput (data : bytes) (sentAt : Z)
  | OpTerminalOutputChunk (data : bytes) (sentAt : Z)
  | OpSessionStatus (disposition : ResumeDisposition) (sentAt : Z)
  | OpProcessExit (outcome : ProcessExitOutcome) (sentAt : Z)
  | OpTransferStatus (id : bytes) (disposition : AttachmentTransferDisposition) (next sentAt : Z)
  | OpPromptPreview (id : bytes) (disposition : AttachmentPromptDisposition)
      (preview : string) (appendEnter : bool) (sentAt : Z)
  | OpError (code : ErrorCode) (sentAt : Z)
  | OpPong (sentAt : Z)
  | OpAcknowledgement (sentAt : Z).

Inductive StreamEvent :=
  | EvRejected
  | EvAccepted (message : ClientStreamMessage)
  | EvCommitted (message : ClientStreamMessage)
  | EvBound
  | EvSent (encoded : bytes).

Definition sent (r : AgentStream * result bytes) : AgentStream * StreamEvent :=
  match r with (s, Ok b) => (s, EvSent b) | (s, Err _) => (s, EvRejected) end.

Definition stream_step (s : AgentStream) (op : StreamOp) : AgentStream * StreamEvent :=
  match op with
  | OpDecode encoded =>
      match DecodeClientMessage s encoded with
      | (s', Ok m) => (s', EvAccepted m) | (s', Err _) => (s', EvRejected) end
  | OpCommit m =>
      match CommitClientMessage s m with
      | (s', Ok _) => (s', EvCommitted m) | (s', Err _) => (s', EvRejected) end
  | OpBind id generation =>
      match BindSession s id generation with
      | (s', Ok _) => (s', EvBound) | (s', Err _) => (s', EvRejected) end
  | OpTerminalOutput data t => sent (EncodeTerminalOutput s data t)
  | OpTerminalOutputChunk data t =>
      match EncodeTerminalOutputChunk s data t with
      | (s', Ok (b, _)) => (s', EvSent b) | (s', Err _) => (s', EvRejected) end
  | OpSessionStatus d t => sent (EncodeSessionStatus s d t)
  | OpProcessExit o t => sent (EncodeProcessExit s o t)
  | OpTransferStatus id d n t => sent (EncodeAttachmentTransferStatus s id d n t)
  | OpPromptPreview id d p a t => sent (EncodeAttachmentPromptPreview s id d p a t)
  | OpError c t => sent (EncodeError s c t)
  | OpPong t => sent (EncodePong s t)
  | OpAcknowledgement t => sent (EncodeAcknowledgement s t)
  end.

(** A run of the stream: the final state and the events in order, each with the
    operation that produced it. *)
Fixpoint stream_run (s : AgentStream) (ops : list StreamOp)
    : AgentStream * list (StreamOp * StreamEvent) :=
  match ops with
  | [] => (s, [])
  | op :: ops' =>
      let '(s1, ev) := stream_step s op in
      let '(s2, evs) := stream_run s1 ops' in
      (s2, (op, ev) :: evs)
  end.

Definition sent_bytes (l : list (StreamOp * StreamEvent)) : list bytes :=
  omap (fun '(_, ev) => match ev with EvSent b => Some b | _ => None end) l.

Definition committed (l : list (StreamOp * StreamEvent)) : list ClientStreamMessage :=
  omap (fun '(_, ev) => match ev with EvCommitted m => Some m | _ => None end) l.

(** ** One step *)

(** What a successful transmission does: it marshals an envelope carrying the
    next outbound sequence and the current binding, and advances the counter. *)
Definition transmits (s : AgentStream) (b : bytes) (s' : AgentStream) : Prop :=
  (∃ p t, marshalLocked s (outboundEnvelope s p t) = Ok b) ∧
  nextOutbound s' = u64 (nextOutbound s + 1).

Lemma marshalLocked_Ok s e b :
  marshalLocked s e = Ok b ↔
  proto_Marshal e = Some b ∧ len b <= Z.min MaxEnvelopeBytes (peerMaxEnvelopeSize s).
Proof.
  unfold marshalLocked. destruct (proto_Marshal e) as [b'|]; [|naive_solver].
  case_match; split; intros H'; simplify_eq; [|split; [done|lia]|naive_solver].
  destruct H'; simplify_eq. lia.
Qed.

Lemma encodeLocked_spec s p t s' r :
  encodeLocked s p t = (s', r) →
  match r with
  | Ok b => marshalLocked s (outboundEnvelope s p t) = Ok b ∧
            s' = s <| nextOutbound ::= fun n => u64 (n + 1) |>
  | Err _ => s' = s
  end.
Proof. unfold encodeLocked. intros. go_cases; auto. Qed.

Lemma chunkSearch_marshals fuel s data t low high best r :
  chunkSearch fuel s data t low high best = Some r →
  best = Some r ∨ ∃ k, low <= k <= high ∧ r.2 = k ∧
    marshalLocked s (outboundEnvelope s (Payload_TerminalOutput (take (Z.to_nat k) data)) t) = Ok r.1.
Proof.
  revert low high best; induction fuel as [|fuel IH]; intros low high best; simpl; [by left|].
  case_match eqn:Hle; [|by left].
  assert (low <= low + (high - low) `quot` 2 <= high).
  { rewrite Z.quot_div_nonneg by lia. pose proof (Z.div_pos (high - low) 2).
    pose proof (Z.div_le_upper_bound (high - low) 2 (high - low)). lia. }
  case_match; intros [Hb|(k & ? & ? & ?)]%IH; simplify_eq; eauto 10 with lia;
    right; (eexists; split_and!; [| |reflexivity|done]; lia).
Qed.

Definition bump (s : AgentStream) : AgentStream := s <| nextOutbound ::= fun n => u64 (n + 1) |>.

Definition is_pong (op : StreamOp) : bool := match op with OpPong _ => true | _ => false end.

(** The state change of every operation, by the event it produces. *)
Definition step_effect (s : AgentStream) (op : StreamOp) (ev : StreamEvent) (s' : AgentStream) : Prop :=
  match ev with
  | EvRejected => s' = s
  | EvAccepted m =>
      Msg_Sequence m = nextInbound s ∧
      ∃ a, highestPeerAck s <= a < nextOutbound s ∧ s' = s <| highestPeerAck := a |>
  | EvCommitted m =>
      Msg_Sequence m = nextInbound s ∧
      s' = s <| highestInbound := Msg_Sequence m |> <| nextInbound ::= fun n => u64 (n + 1) |>
             <| pendingPingSequences ::= fun l =>
                  if bool_decide (Msg_Kind m = ClientStreamMessagePing)
                  then l ++ [Msg_Sequence m] else l |>
  | EvBound =>
      sessionResume s = true ∧ sessionBound s = false ∧ 2 <= highestInbound s ∧
      ∃ id g, len id = connectionIDBytes ∧ g ≠ 0 ∧
        s' = s <| sessionID := id |> <| sessionGeneration := g |> <| sessionBound := true |>
  | EvSent b =>
      (∃ p t, marshalLocked s (outboundEnvelope s p t) = Ok b) ∧
      if is_pong op
      then pendingPingSequences s ≠ [] ∧ s' = (bump s) <| pendingPingSequences ::= drop 1 |>
      else s' = bump s
  end.

Ltac encode_case :=
  match goal with
  | H : encodeLocked _ _ _ = (_, _) |- _ => apply encodeLocked_spec in H; simpl in H
  end.

Lemma validateInboundEnvelope_Ok s e u :
  validateInboundEnvelope s e = Ok u →
  Sequence e = nextInbound s ∧ highestPeerAck s <= Acknowledge e < nextOutbound s.
Proof.
  unfold validateInboundEnvelope. intros H. inv_ok. lia.
Qed.

Lemma decodePayload_sequence s e m : decodePayload s e = Ok m → Msg_Sequence m = Sequence e.
Proof.
  unfold decodePayload, decodeID. intros H.
  repeat (case_match; simplify_eq/=); try done.
  apply bind_Ok in H as (ids & _ & H). by simplify_eq/=.
Qed.

Lemma stream_step_effect s op s' ev : stream_step s op = (s', ev) → step_effect s op ev s'.
Proof.
  destruct op; simpl; unfold sent; intros Hstep.
  - unfold DecodeClientMessage in Hstep. go_cases; try done.
    match goal with H : _ = Ok _ |- _ => apply bind_Ok in H as (? & Hv & Hd) end.
    apply validateInboundEnvelope_Ok in Hv. apply decodePayload_sequence in Hd.
    split; [lia|]. eexists. split; [|reflexivity]. lia.
  - unfold CommitClientMessage in Hstep. go_cases; try done; split; try lia; done.
  - unfold BindSession in Hstep. go_cases; try done. split_and!; try done; try lia.
    eexists _, _. split_and!; [| |done]; lia.
  - unfold EncodeTerminalOutput in Hstep. go_cases; try done; encode_case; naive_solver.
  - unfold EncodeTerminalOutputChunk in Hstep. go_cases; try done.
    match goal with H : chunkSearch _ _ _ _ _ _ _ = Some _ |- _ =>
      apply chunkSearch_marshals in H as [|(k & _ & _ & H)]; [done|] end.
    split; [|done]. eauto.
  - unfold EncodeSessionStatus in Hstep. go_cases; try done; encode_case; naive_solver.
  - unfold EncodeProcessExit in Hstep. go_cases; try done; encode_case; naive_solver.
  - unfold EncodeAttachmentTransferStatus in Hstep. go_cases; try done; encode_case; naive_solver.
  - unfold EncodeAttachmentPromptPreview in Hstep. go_cases; try done; encode_case; naive_solver.
  - unfold EncodeError in Hstep. go_cases; try done; encode_case; naive_solver.
  - unfold EncodePong in Hstep. go_cases; try done; encode_case; try done.
    match goal with H : pendingPingSequences _ = _, Hm : _ ∧ _ |- _ =>
      destruct Hm as [? ->]; simpl; rewrite H end.
    split_and!; eauto.
  - unfold EncodeAcknowledgement in Hstep. go_cases; encode_case; naive_solver.
Qed.

(** ** The invariant *)

Record stream_wf (s : AgentStream) : Prop := {
  wf_inbound : nextInbound s = highestInbound s + 1;
  wf_inbound_pos : 1 <= highestInbound s;
  wf_outbound : 2 <= nextOutbound s;
  wf_ack : 0 <= highestPeerAck s < nextOutbound s;
  wf_pings : StronglySorted Z.lt (pendingPingSequences s);
  wf_pings_bound : Forall (fun q => 2 <= q <= highestInbound s) (pendingPingSequences s);
  wf_bound : sessionBound s = true →
    sessionResume s = true ∧ len (sessionID s) = connectionIDBytes ∧
    sessionGeneration s ≠ 0 ∧ 2 <= highestInbound s;
  wf_unbound : sessionBound s = false → sessionID s = [] ∧ sessionGeneration s = 0;
}.

(** Neither counter has reached the end of its 64-bit range. *)
Definition no_wrap (s : AgentStream) : Prop :=
  nextOutbound s < 2 ^ 64 - 1 ∧ nextInbound s < 2 ^ 64 - 1.

Lemma NewAgentStream_wf n s : NewAgentStream n = Ok s → stream_wf s.
Proof.
  unfold NewAgentStream. intros H. go_cases.
  split; simpl; try lia; try done; constructor.
Qed.

Lemma StronglySorted_snoc (l : list Z) x :
  StronglySorted Z.lt l → Forall (fun y => y < x) l → StronglySorted Z.lt (l ++ [x]).
Proof.
  induction 1 as [|y l Hl IH Hy]; intros HF; simpl; [repeat constructor|].
  inversion HF; subst. constructor; [by apply IH|].
  apply Forall_app; split; [done|by constructor].
Qed.

Lemma stream_step_wf s op s' ev :
  stream_wf s → no_wrap s → stream_step s op = (s', ev) → stream_wf s'.
Proof.
  intros Hwf [Hno Hni] Hstep%stream_step_effect. destruct Hwf.
  assert (u64 (nextOutbound s + 1) = nextOutbound s + 1) by (apply u64_small; unfold is_u64; lia).
  assert (u64 (nextInbound s + 1) = nextInbound s + 1) by (apply u64_small; unfold is_u64; lia).
  destruct ev as [|m|m| |b]; simpl in Hstep.
  - by subst; split.
  - destruct Hstep as (? & a & ? & ->). split; simpl; auto; lia.
  - destruct Hstep as (Hm & ->). split; simpl; try lia; auto.
    + case_bool_decide; [|done]. apply StronglySorted_snoc; [done|].
      eapply Forall_impl; [done|]. simpl. lia.
    + assert (Forall (fun q => 2 <= q <= Msg_Sequence m) (pendingPingSequences s))
        by (eapply Forall_impl; [done|]; simpl; lia).
      case_bool_decide; [|done]. apply Forall_app; split; [done|]. constructor; [lia|done].
  - destruct Hstep as (? & ? & ? & id & g & ? & ? & ->). split; simpl; auto; done.
  - destruct Hstep as [_ Hs]. case_match; [destruct Hs as [_ ->]|subst s'];
      split; simpl; try lia; auto;
      destruct (pendingPingSequences s) as [|q l]; simpl; rewrite ?drop_0; auto;
      by inversion wf_pings0; inversion wf_pings_bound0.
Qed.

Lemma stream_step_counters s op s' ev :
  stream_wf s → no_wrap s → stream_step s op = (s', ev) →
  nextOutbound s <= nextOutbound s' <= nextOutbound s + 1 ∧
  nextInbound s <= nextInbound s' <= nextInbound s + 1.
Proof.
  intros Hwf [Hno Hni] Hstep%stream_step_effect. destruct Hwf.
  assert (u64 (nextOutbound s + 1) = nextOutbound s + 1) by (apply u64_small; unfold is_u64; lia).
  assert (u64 (nextInbound s + 1) = nextInbound s + 1) by (apply u64_small; unfold is_u64; lia).
  destruct ev; simpl in Hstep; [subst; lia|naive_solver lia|naive_solver lia|naive_solver lia|].
  destruct Hstep as [_ Hs]. case_match; [destruct Hs as [_ ->]|subst s']; simpl; lia.
Qed.

(** Enough head room for a run of [n] operations. *)
Definition room (s : AgentStream) (n : Z) : Prop :=
  nextOutbound s + n < 2 ^ 64 ∧ nextInbound s + n < 2 ^ 64.

Lemma stream_run_ind (P : AgentStream → AgentStream → list (StreamOp * StreamEvent) → Prop) :
  (∀ s, stream_wf s → P s s []) →
  (∀ s op s1 ev s2 evs, stream_wf s → no_wrap s → stream_step s op = (s1, ev) →
     stream_wf s1 → P s1 s2 evs → P s s2 ((op, ev) :: evs)) →
  ∀ ops s s' evs, stream_wf s → room s (len ops) → stream_run s ops = (s', evs) → P s s' evs.
Proof.
  intros Hnil Hcons. induction ops as [|op ops IH]; intros s s' evs Hwf Hroom Hrun; simpl in Hrun.
  { simplify_eq. auto. }
  destruct (stream_step s op) as [s1 ev] eqn:Hstep.
  destruct (stream_run s1 ops) as [s2 evs'] eqn:Hrest. simplify_eq.
  unfold room in *. rewrite len_cons in Hroom. pose proof (len_nonneg ops).
  assert (no_wrap s) as Hnw by (unfold no_wrap; lia).
  pose proof (stream_step_counters _ _ _ _ Hwf Hnw Hstep).
  pose proof (stream_step_wf _ _ _ _ Hwf Hnw Hstep).
  eapply Hcons; eauto. apply IH; auto. lia.
Qed.

(** ** Theorems on runs *)

Lemma seqZ_cons_len {A} (m : Z) (l : list A) (x : A) :
  seqZ m (len (x :: l)) = m :: seqZ (m + 1) (len l).
Proof. rewrite len_cons, seqZ_cons by (pose proof (len_nonneg l); lia).
  f_equal. f_equal; unfold Z.succ, Z.pred; lia. Qed.



Lemma stream_run_length s ops s' evs : stream_run s ops = (s', evs) → len evs = len ops.
Proof.
  revert s evs; induction ops as [|op ops IH]; intros s evs Hrun; simpl in Hrun;
    [by simplify_eq|].
  destruct (stream_step s op) as [s1 ev]. destruct (stream_run s1 ops) as [s2 evs'] eqn:Hr.
  simplify_eq. rewrite !len_cons. by erewrite IH.
Qed.

(** A fresh stream: its starting state, and the room it leaves for a run. *)
Lemma fresh_stream n s (ops : list StreamOp) :
  NewAgentStream n = Ok s → len ops < 2 ^ 64 - 2 →
  stream_wf s ∧ room s (len ops) ∧ nextOutbound s = 2 ∧ nextInbound s = 2 ∧
  pendingPingSequences s = [] ∧ connectionID s = ConnectionID n ∧
  peerMaxEnvelopeSize s = PeerMaxEnvelopeBytes n.
Proof.
  intros Hnew Hlen. pose proof (NewAgentStream_wf _ _ Hnew).
  unfold room. unfold NewAgentStream in Hnew. go_cases. split_and!; auto; lia.
Qed.

Lemma stream_run_wf ops s s' evs :
  stream_wf s → room s (len ops) → stream_run s ops = (s', evs) →
  stream_wf s' ∧ nextOutbound s <= nextOutbound s' <= nextOutbound s + len evs.
Proof.
  revert ops s s' evs. apply (stream_run_ind (fun s s' evs =>
    stream_wf s' ∧ nextOutbound s <= nextOutbound s' <= nextOutbound s + len evs)).
  - intros s Hwf. rewrite len_nil. split; [done|lia].
  - intros s op s1 ev s2 evs Hwf Hnw Hstep _ [? ?]. split; [done|].
    pose proof (stream_step_counters _ _ _ _ Hwf Hnw Hstep). rewrite len_cons. lia.
Qed.

(** The invariant of the stream holds after every run shorter than the
    64-bit sequence space: the inbound cursor is one past the highest committed
    message, the peer never acknowledges an unsent envelope, pending pings are
    distinct committed sequences, and session metadata is present exactly when
    the stream is bound. *)
Theorem stream_invariant n s ops s' evs :
  NewAgentStream n = Ok s → len ops < 2 ^ 64 - 2 → stream_run s ops = (s', evs) →
  stream_wf s' ∧ HighestOutboundSequence s' = nextOutbound s' - 1.
Proof.
  intros Hnew Hlen Hrun. destruct (fresh_stream _ _ ops Hnew Hlen) as (Hwf & Hroom & Ho & _).
  destruct (stream_run_wf _ _ _ _ Hwf Hroom Hrun) as [Hwf' ?].
  rewrite (stream_run_length _ _ _ _ Hrun) in *.
  split; [done|]. apply u64_small. unfold is_u64. lia.
Qed.

(** ** Pings and pongs *)

Definition pings (l : list (StreamOp * StreamEvent)) : Z :=
  len (filter (fun m => Msg_Kind m = ClientStreamMessagePing) (committed l)).

Definition pong_bytes (l : list (StreamOp * StreamEvent)) : list bytes :=
  omap (fun '(op, ev) =>
    match op, ev with OpPong _, EvSent b => Some b | _, _ => None end) l.

Definition pongs (l : list (StreamOp * StreamEvent)) : Z := len (pong_bytes l).

(** Every pong answers one committed ping: the pings of a run are the pongs
    sent plus those still pending. *)
Theorem pongs_answer_pings n s ops s' evs :
  NewAgentStream n = Ok s → len ops < 2 ^ 64 - 2 → stream_run s ops = (s', evs) →
  pings evs = pongs evs + len (pendingPingSequences s').
Proof.
  intros Hnew Hlen Hrun. destruct (fresh_stream _ _ ops Hnew Hlen) as (Hwf & Hroom & _ & _ & Hp & _).
  assert (pings evs + len (pendingPingSequences s) = pongs evs + len (pendingPingSequences s')) as H;
    [|rewrite Hp, len_nil in H; lia].
  clear Hnew Hlen Hp. revert ops s s' evs Hwf Hroom Hrun.
  apply (stream_run_ind (fun s s' evs =>
    pings evs + len (pendingPingSequences s) = pongs evs + len (pendingPingSequences s'))).
  { done. }
  intros s op s1 ev s2 evs _ _ Hstep%stream_step_effect _ IH.
  unfold pings, pongs in *. destruct ev as [|m|m| |b]; simpl in *.
  - subst. by destruct op.
  - destruct Hstep as (_ & a & _ & ->). by destruct op.
  - destruct Hstep as (_ & ->). simpl in *. fold (committed evs).
    replace (match op with OpPong _ => None | _ => None end) with (@None bytes) by (by destruct op).
    fold (pong_bytes evs).
    rewrite filter_cons. case_bool_decide as Hk; [rewrite decide_True by done|rewrite decide_False by done];
      autorewrite with len in *; lia.
  - destruct Hstep as (_ & _ & _ & id & g & _ & _ & ->). by destruct op.
  - destruct Hstep as [_ Hs]. destruct op; simpl in *; subst; simpl in *; try done.
    fold (pong_bytes evs). destruct Hs as [Hne ->]. simpl in *. destruct (pendingPingSequences s); [done|].
    simpl in *. rewrite drop_0 in IH. autorewrite with len in *. lia.
Qed.

(** ** What the decoder lets through *)

(** The limits an accepted client message respects, by kind. *)
Definition message_ok (s : AgentStream) (m : ClientStreamMessage) : Prop :=
  let transfer := attachmentTransfer s = true ∧ validAttachmentTransferID (Msg_TransferID m) = true in
  let action := attachmentPromptAction s = true ∧
                validAttachmentPromptActionID (Msg_ActionID m) = true in
  match Msg_Kind m with
  | ClientStreamMessageNone => False
  | ClientStreamMessageAttachSession => sessionResume s = true ∧ sessionBound s = false
  | ClientStreamMessageTerminalInput => 1 <= len (Msg_Data m) <= MaxTerminalInputBytes
  | ClientStreamMessageTerminalResize =>
      terminalResizeEnd s = true ∧ Msg_Columns m ≠ 0 ∧ Msg_Columns m <= MaxTerminalDimension ∧
      Msg_Rows m ≠ 0 ∧ Msg_Rows m <= MaxTerminalDimension
  | ClientStreamMessageEndSession => terminalResizeEnd s = true
  | ClientStreamMessageAcknowledgement => True
  | ClientStreamMessagePing => controlHealth s = true
  | ClientStreamMessageAttachmentBegin =>
      transfer ∧ Msg_TotalSizeBytes m ≠ 0 ∧ len (Msg_TotalSHA256 m) = sha256_Size
  | ClientStreamMessageAttachmentChunk =>
      transfer ∧ Msg_Data m ≠ [] ∧ len (Msg_ChunkSHA256 m) = sha256_Size
  | ClientStreamMessageAttachmentComplete | ClientStreamMessageAttachmentCancel
  | ClientStreamMessageAttachmentTransferStatusRequest => transfer
  | ClientStreamMessageAttachmentDiscard =>
      attachmentTransfer s = true ∧
      1 <= len (Msg_TransferIDs m) <= maxAttachmentDiscardTransfers ∧ NoDup (Msg_TransferIDs m) ∧
      Forall (fun i => validAttachmentTransferID i = true) (Msg_TransferIDs m)
  | ClientStreamMessageAttachmentPromptPrepare =>
      action ∧ 1 <= len (Msg_TransferIDs m) <= maxAttachmentPromptTransfers ∧
      Forall (fun i => validAttachmentTransferID i = true) (Msg_TransferIDs m) ∧
      1 <= slen (Msg_Prompt m) <= MaxAttachmentPromptBytes
  | ClientStreamMessageAttachmentPromptCommit | ClientStreamMessageAttachmentPromptCancel => action
  end.

Lemma collectDiscardIDs_Ok seen ids ids' :
  collectDiscardIDs seen ids = Ok ids' →
  ids' = ids ∧ NoDup ids ∧ Forall (fun i => validAttachmentTransferID i = true) ids ∧
  ∀ i, i ∈ ids → string_of_bytes i ∉ seen.
Proof.
  revert seen ids'; induction ids as [|i ids IH]; intros seen ids' H; simpl in H.
  { simplify_eq. split_and!; [done|constructor..|set_solver]. }
  go_cases. inv_ok. simplify_eq. split_bool.
  match goal with H : collectDiscardIDs _ _ = Ok _ |- _ =>
    apply IH in H as (-> & Hnd & HF & Hin) end.
  split_and!; auto.
  - constructor; [|done]. intros Hi. apply (Hin i Hi). set_solver.
  - intros j [->|Hj]%elem_of_cons; [done|]. pose proof (Hin j Hj). set_solver.
Qed.

Lemma decodePayload_ok s e m : decodePayload s e = Ok m → message_ok s m.
Proof.
  unfold decodePayload, decodeID. intros H.
  pose proof (@len_nonneg byte). destruct (Env_Payload e); try done;
    repeat (case_match; try discriminate); inv_ok; simplify_eq; unfold message_ok; simpl;
    split_bool; split_and?; auto; try lia.
  all: try (intros Hz%len_zero; congruence).
  all: try (match goal with H : collectDiscardIDs _ _ = Ok _ |- _ =>
         apply collectDiscardIDs_Ok in H as (-> & ? & ? & _) end; auto; unfold len in *; lia).
  all: try (apply Forall_forall; intros x Hx%list_elem_of_In;
    match goal with H : forallb _ _ = true |- _ => by eapply forallb_forall in H end).
  all: unfold len, slen in *; lia.
Qed.

(** A decoded message respects the limits and the negotiated capabilities
    of its kind; on a resumable stream nothing but [AttachSession] is accepted
    before binding; the stream changes only by the peer's acknowledgement,
    which never goes back, and a rejected envelope changes nothing. *)
Theorem decode_sound s encoded s' r :
  DecodeClientMessage s encoded = (s', r) →
  match r with
  | Ok m =>
      1 <= len encoded <= MaxEnvelopeBytes ∧ message_ok s m ∧ Msg_Sequence m = nextInbound s ∧
      (unbound s = true → Msg_Kind m = ClientStreamMessageAttachSession) ∧
      ∃ a, highestPeerAck s <= a < nextOutbound s ∧ s' = s <| highestPeerAck := a |>
  | Err _ => s' = s
  end.
Proof.
  intros Hd. pose proof (len_nonneg encoded).
  pose proof (stream_step_effect s (OpDecode encoded)) as Heff. simpl in Heff. rewrite Hd in Heff.
  destruct r as [m|e]; specialize (Heff _ _ eq_refl); simpl in Heff; [|done].
  destruct Heff as (Hseq & Hack). unfold DecodeClientMessage in Hd. go_cases. inv_ok.
  split_and!; auto; try lia; [by eapply decodePayload_ok|]. intros Hu.
  unfold unbound, validateInboundEnvelope, GetAttachSession, decodePayload in *.
  split_bool. inv_ok. destruct (sessionResume s), (sessionBound s); try done.
  destruct (Env_Payload _); try done. by simplify_eq/=.
Qed.

(** ** Silence before binding *)

(** The operations an unbound resumable stream can complete. *)
Definition allowed_unbound (op : StreamOp) : Prop :=
  match op with
  | OpAcknowledgement _ => True
  | OpError c _ => c = ERROR_CODE_SESSION_START_FAILED ∨ c = ERROR_CODE_SESSION_ALREADY_ACTIVE
  | _ => False
  end.

(** Until a resumable stream is bound, the only envelopes the Agent can
    send are acknowledgements and the two session-start errors, and they carry
    no session metadata. *)
Theorem unbound_stream_is_silent s op s' b :
  stream_wf s → unbound s = true → stream_step s op = (s', EvSent b) →
  allowed_unbound op ∧
  ∃ e, proto_Marshal e = Some b ∧ SessionId e = [] ∧ SessionGeneration e = 0.
Proof.
  intros Hwf Hu Hstep. split.
  - destruct op; simpl in Hstep |- *; try done;
      unfold sent, DecodeClientMessage, CommitClientMessage, BindSession, EncodeTerminalOutput,
        EncodeTerminalOutputChunk, EncodeSessionStatus, EncodeProcessExit, EncodeError,
        EncodeAttachmentTransferStatus, EncodeAttachmentPromptPreview, EncodePong in Hstep;
      rewrite ?Hu in Hstep; unfold unbound in Hu; split_bool;
      destruct (sessionResume s), (sessionBound s); try done; simpl in Hstep; go_cases; auto.
  - apply stream_step_effect in Hstep as [(p & t & [Hm _]%marshalLocked_Ok) _].
    exists (outboundEnvelope s p t). split; [done|]. destruct Hwf. apply wf_unbound0.
    unfold unbound in Hu. by split_bool.
Qed.

(** ** The largest prefix that fits *)

Section Chunk.
Context (s : AgentStream) (data : bytes) (t : Z).

(** Whether the prefix of length [k] fits the negotiated limit. *)
Definition fits (k : Z) : bool :=
  is_ok (marshalLocked s (outboundEnvelope s (Payload_TerminalOutput (take (Z.to_nat k) data)) t)).

(** A shorter prefix of the same output never marshals to more bytes. *)
Hypothesis marshal_monotone : ∀ j k, 1 <= j <= k → k <= len data → fits k = true → fits j = true.

Lemma chunkSearch_spec fuel low high best :
  1 <= low → high <= len data → high - low + 1 <= Z.of_nat fuel → low <= high + 1 →
  match best with
  | Some (b, k) => k = low - 1 ∧ 1 <= k ∧ fits k = true
  | None => low = 1
  end →
  (∀ j, high < j <= len data → fits j = false) →
  match chunkSearch fuel s data t low high best with
  | Some (b, k) => 1 <= k <= len data ∧ fits k = true ∧ ∀ j, k < j <= len data → fits j = false
  | None => ∀ j, 1 <= j <= len data → fits j = false
  end.
Proof using marshal_monotone.
  revert low high best; induction fuel as [|fuel IH];
    intros low high best Hlow Hhigh Hfuel Hlh Hbest Habove; simpl.
  { destruct best as [[b k]|]; [|intros; apply Habove; lia].
    destruct Hbest as (-> & ? & ?). split_and!; auto; try lia. intros; apply Habove; lia. }
  destruct (low <=? high) eqn:Hle.
  2: { destruct best as [[b k]|]; [|intros; apply Habove; lia].
    destruct Hbest as (-> & ? & ?). split_and!; auto; try lia. intros; apply Habove; lia. }
  set (mid := low + (high - low) `quot` 2).
  assert (low <= mid <= high) as Hmid.
  { unfold mid. rewrite Z.quot_div_nonneg by lia. pose proof (Z.div_pos (high - low) 2).
    pose proof (Z.div_le_upper_bound (high - low) 2 (high - low)). lia. }
  assert (fits mid = is_ok (marshalLocked s (outboundEnvelope s
    (Payload_TerminalOutput (take (Z.to_nat mid) data)) t))) as Hf by done.
  fold mid. destruct (marshalLocked s _) eqn:Hm in Hf |- *; simpl in Hf.
  - apply IH; try lia; auto.
  - apply IH; try lia; auto. intros j Hj.
    destruct (decide (high < j)); [apply Habove; lia|].
    destruct (fits j) eqn:Hfj; [|done].
    assert (fits mid = true) by (apply (marshal_monotone mid j); auto; lia). congruence.
Qed.

(** C36: [EncodeTerminalOutputChunk] sends the largest prefix that fits the
    negotiated limit, and fails only when not even one byte does. *)
Theorem chunk_is_largest_prefix :
  data ≠ [] → unbound s = false →
  match EncodeTerminalOutputChunk s data t with
  | (s', Ok (b, k)) =>
      1 <= k <= len data ∧ s' = bump s ∧
      marshalLocked s (outboundEnvelope s (Payload_TerminalOutput (take (Z.to_nat k) data)) t) = Ok b ∧
      ∀ j, k < j <= len data → fits j = false
  | (s', Err _) => s' = s ∧ fits 1 = false
  end.
Proof using marshal_monotone.
  intros Hd Hu. assert (1 <= len data) as Hl by (destruct data; [done|unfold len; simpl; lia]).
  unfold EncodeTerminalOutputChunk. rewrite Hu.
  replace (len data =? 0) with false by lia.
  pose proof (chunkSearch_spec (length data) 1 (len data) None) as Hs.
  pose proof (chunkSearch_marshals (length data) s data t 1 (len data) None) as Hmar.
  destruct (chunkSearch _ _ _ _ _ _ _) as [[b k]|].
  - destruct Hs as (? & ? & ?); try (unfold len in *; lia).
    destruct (Hmar _ eq_refl) as [|(k' & _ & Hk & ?)]; [done|]. simpl in *. subst k'.
    split_and!; auto; lia.
  - split; [done|]. apply Hs; unfold len in *; lia.
Qed.

End Chunk.

End Facts.

(** * A concrete connection

    A small codec in place of the protobuf runtime and one concrete run of the
    stream, on which the theorems of [Negotiation] and [StreamFacts] are
    applied. *)

Definition demo_id : bytes := replicate 16 "007"%byte.

Definition demo_hello : Hello :=
  mkHello PEER_ROLE_CLIENT
    (Some (mkProtocolVersionRange (Some (mkProtocolVersion 1 0)) (Some (mkProtocolVersion 1 0))))
    [CapabilityTerminalSequencedIO; CapabilityControlHealth; CapabilityControlError] 1024 [] EmptyString 0.

Definition demo_envelope (sequence : Z) (p : Payload) : Envelope :=
  mkEnvelope 1 0 demo_id [] 0 sequence 0 0 p.

(** The codec: terminal output is a tag followed by its bytes, every other
    payload a tag; three client envelopes can be decoded. *)
#[local] Instance demo_codec : ProtoCodec := {|
  proto_Unmarshal b :=
    if bool_decide (b = ["001"%byte]) then Some (demo_envelope 1 (Payload_Hello (Some demo_hello)))
    else if bool_decide (b = ["002"%byte]) then Some (demo_envelope 2 Payload_Ping)
    else if bool_decide (b = ["003"%byte]) then
      Some (demo_envelope 3 (Payload_TerminalInput ["a"%byte]))
    else None;
  proto_Marshal e :=
    match Env_Payload e with
    | Payload_TerminalOutput d => Some ("004"%byte :: d)
    | _ => Some ["005"%byte]
    end |}.

Definition demo_negotiated : NegotiatedHello :=
  mkNegotiatedHello 1 0 1024 demo_id
    (list_to_set [CapabilityTerminalSequencedIO; CapabilityControlHealth; CapabilityControlError]).

Definition demo_stream : AgentStream :=
  mkAgentStream demo_id 1024 2 2 1 0 [] false false false true true false false false [] 0.

Definition demo_ping : ClientStreamMessage :=
  (newMessage 2) <| Msg_Kind := ClientStreamMessagePing |>.

Definition demo_ops : list StreamOp :=
  [OpDecode ["002"%byte]; OpCommit demo_ping; OpPong 0; OpPong 0; OpDecode ["003"%byte];
   OpTerminalOutput ["x"%byte; "y"%byte] 1; OpAcknowledgement 2].

Definition demo_run := stream_run demo_stream demo_ops.

Lemma demo_negotiates : AcceptClientHello ["001"%byte] = Ok demo_negotiated.
Proof. vm_compute. reflexivity. Qed.

Lemma demo_run_output :
  sent_bytes demo_run.2 = [["005"%byte]; ["004"%byte; "x"%byte; "y"%byte]; ["005"%byte]].
Proof. vm_compute. reflexivity. Qed.

Lemma demo_is_fresh : NewAgentStream demo_negotiated = Ok demo_stream.
Proof. vm_compute. reflexivity. Defined.



Lemma stream_invariant_witness :
  stream_wf demo_run.1 ∧ HighestOutboundSequence demo_run.1 = nextOutbound demo_run.1 - 1.
Proof.
  apply (stream_invariant demo_negotiated demo_stream demo_ops demo_run.1 demo_run.2).
  - vm_compute. reflexivity.
  - vm_compute. reflexivity.
  - vm_compute. reflexivity.
Defined.

Lemma pongs_answer_pings_witness :
  pings demo_run.2 = pongs demo_run.2 + len (pendingPingSequences demo_run.1).
Proof.
  apply (pongs_answer_pings demo_negotiated demo_stream demo_ops demo_run.1 demo_run.2).
  - vm_compute. reflexivity.
  - vm_compute. reflexivity.
  - vm_compute. reflexivity.
Defined.

Lemma decode_sound_witness :
  ∃ s' m, DecodeClientMessage demo_stream ["002"%byte] = (s', Ok m) ∧ message_ok demo_stream m ∧
    Msg_Kind m = ClientStreamMessagePing.
Proof.
  exists demo_stream, demo_ping.
  assert (DecodeClientMessage demo_stream ["002"%byte] = (demo_stream, Ok demo_ping)) as Hd
    by (vm_compute; reflexivity).
  split; [exact Hd|]. split; [|reflexivity].
  exact (proj1 (proj2 (decode_sound demo_stream ["002"%byte] demo_stream (Ok demo_ping) Hd))).
Defined.

(** A resumable stream that has not been bound yet. *)
Definition demo_resumable : AgentStream := demo_stream <| sessionResume := true |>.

Lemma unbound_stream_is_silent_witness :
  allowed_unbound (OpError ERROR_CODE_SESSION_START_FAILED 0) ∧
  ∃ e, proto_Marshal e = Some ["005"%byte] ∧ SessionId e = [] ∧ SessionGeneration e = 0.
Proof.
  apply (unbound_stream_is_silent demo_resumable (OpError ERROR_CODE_SESSION_START_FAILED 0)
           (bump demo_resumable) ["005"%byte]).
  - split; simpl; try lia; try done; constructor.
  - reflexivity.
  - vm_compute. reflexivity.
Defined.

(** With room for two bytes of output, the longest prefix of three bytes is two
    bytes long. *)
Definition demo_narrow : AgentStream := demo_stream <| peerMaxEnvelopeSize := 3 |>.
Definition demo_output : bytes := ["x"%byte; "y"%byte; "z"%byte].

Lemma chunk_is_largest_prefix_witness :
  EncodeTerminalOutputChunk demo_narrow demo_output 0 =
    (bump demo_narrow, Ok (["004"%byte; "x"%byte; "y"%byte], 2)) ∧
  ∀ j, 2 < j <= 3 → fits demo_narrow demo_output 0 j = false.
Proof.
  split; [vm_compute; reflexivity|].
  pose proof (chunk_is_largest_prefix demo_narrow demo_output 0) as H.
  replace (EncodeTerminalOutputChunk demo_narrow demo_output 0) with
    (bump demo_narrow, Ok (["004"%byte; "x"%byte; "y"%byte], 2) : result (bytes * Z)) in H
    by (vm_compute; reflexivity).
  apply H; [|discriminate|reflexivity].
  intros j k Hj Hk. change (len demo_output) with 3 in Hk.
  assert (j = 1 ∨ j = 2 ∨ j = 3) as [-> | [-> | ->]] by lia;
  assert (k = 1 ∨ k = 2 ∨ k = 3) as [-> | [-> | ->]] by lia; vm_compute; auto; lia.
Defined.
