(* ===== verification/ReplayBuffer.v ===== *)
(** * The replay buffer ([internal/server/replay_buffer.go])

    While no client is attached, terminal output is kept for replay, bounded in
    bytes and in age. The buffer remembers whether anything was lost
    ([truncated]); a resuming client is told the history is complete only when
    it is.  The clock is an argument of the operations that read it; times and
    durations are nanoseconds. *)

From S2P Require Import Prelude.

Record bufferedOutput := mkBufferedOutput {
  data : bytes;
  receivedAt : Z;
}.

Record replayBuffer := mkReplayBuffer {
  maxBytes : Z;
  maxAge : Z;
  entries : list bufferedOutput;
  nbytes : Z;
  truncated : bool;
}.

#[global] Instance replayBuffer_eta : Eta replayBuffer := fun b =>
  mkReplayBuffer (maxBytes b) (maxAge b) (entries b) (nbytes b) (truncated b).

Definition newReplayBuffer (maxBytes maxAge : Z) : replayBuffer :=
  mkReplayBuffer maxBytes maxAge [] 0 false.

(** The loop of [pruneExpired]: drop entries from the front while they are older
    than the cutoff. *)
Fixpoint pruneLoop (cutoff : Z) (es : list bufferedOutput) (n : Z) (t : bool)
    : list bufferedOutput * Z * bool :=
  match es with
  | [] => ([], n, t)
  | e :: es' =>
      if receivedAt e <? cutoff then pruneLoop cutoff es' (n - len (data e)) true
      else (es, n, t)
  end.

Definition pruneExpired (b : replayBuffer) (now : Z) : replayBuffer :=
  let cutoff := now - maxAge b in
  let '(es, n, t) := pruneLoop cutoff (entries b) (nbytes b) (truncated b) in
  b <| entries := es |> <| nbytes := n |> <| truncated := t |>.

(** The loop of [append] that evicts the oldest bytes above the limit. *)
Fixpoint evictLoop (limit : Z) (es : list bufferedOutput) (n : Z) (t : bool)
    : list bufferedOutput * Z * bool :=
  match es with
  | [] => ([], n, t)
  | oldest :: es' =>
      if n >? limit then
        let overflow := n - limit in
        if overflow <? len (data oldest) then
          (mkBufferedOutput (drop (Z.to_nat overflow) (data oldest)) (receivedAt oldest) :: es',
           n - overflow, true)
        else evictLoop limit es' (n - len (data oldest)) true
      else (es, n, t)
  end.

Definition append (b : replayBuffer) (now : Z) (d : bytes) : replayBuffer :=
  if len d =? 0 then b
  else if (maxBytes b <=? 0) || (maxAge b <=? 0) then b <| truncated := true |>
  else
    let b := pruneExpired b now in
    let '(d, b) :=
      if len d >? maxBytes b
      then (drop (Z.to_nat (len d - maxBytes b)) d, b <| truncated := true |>)
      else (d, b) in
    let es := entries b ++ [mkBufferedOutput d now] in
    let n := nbytes b + len d in
    let '(es, n, t) := evictLoop (maxBytes b) es n (truncated b) in
    b <| entries := es |> <| nbytes := n |> <| truncated := t |>.

Definition snapshot (b : replayBuffer) : list bytes := map data (entries b).

Definition drainWithStatus (b : replayBuffer) (now : Z) : replayBuffer * (list bytes * bool) :=
  let b := pruneExpired b now in
  let output := snapshot b in
  let complete := negb (truncated b) in
  (b <| entries := [] |> <| nbytes := 0 |> <| truncated := false |>, (output, complete)).

Definition drain (b : replayBuffer) (now : Z) : replayBuffer * list bytes :=
  let '(b', (output, _)) := drainWithStatus b now in (b', output).

(** ** Invariant *)

(** The bytes the buffer would replay. *)
Definition content (es : list bufferedOutput) : bytes := concat (map data es).

Record buffer_wf (b : replayBuffer) : Prop := {
  wf_count : nbytes b = len (content (entries b));
  wf_limit : 0 <= nbytes b ∧ (0 < maxBytes b → nbytes b <= maxBytes b);
  wf_disabled : maxBytes b <= 0 ∨ maxAge b <= 0 → entries b = [];
}.

(** A buffer that has seen the output [written] since it was last drained holds
    a suffix of it, and all of it unless it is marked as truncated. *)
Definition holds (b : replayBuffer) (written : bytes) : Prop :=
  buffer_wf b ∧ content (entries b) `suffix_of` written ∧
  (truncated b = false → content (entries b) = written).

Lemma content_cons e es : content (e :: es) = data e ++ content es.
Proof. done. Qed.

Lemma content_app es es' : content (es ++ es') = content es ++ content es'.
Proof. unfold content. by rewrite map_app, concat_app. Qed.

Lemma content_snoc es d t : content (es ++ [mkBufferedOutput d t]) = content es ++ d.
Proof. rewrite content_app. unfold content at 2. simpl. by rewrite app_nil_r. Qed.

Lemma newReplayBuffer_holds m a : holds (newReplayBuffer m a) [].
Proof. split_and!; [split; simpl; [done|lia|done]|done|done]. Qed.

Lemma pruneLoop_spec cutoff es n t es' n' t' :
  pruneLoop cutoff es n t = (es', n', t') → n = len (content es) →
  n' = len (content es') ∧ n' <= n ∧ content es' `suffix_of` content es ∧
  (t' = false → t = false ∧ es' = es) ∧ (t = true → t' = true) ∧
  (∃ k, es' = drop k es) ∧ from_option (fun e => cutoff <= receivedAt e) True (head es').
Proof.
  revert n t; induction es as [|e es IH]; intros n t Hp Hn; simpl in Hp.
  { simplify_eq. split_and!; auto; try lia; first [done|by exists 0%nat]. }
  rewrite content_cons, len_app in Hn. pose proof (len_nonneg (data e)).
  case_match eqn:Hlt; simplify_eq.
  - apply IH in Hp as (H1 & H2 & H3 & H4 & H5 & (k & ->) & H7); [|lia].
    split_and!; auto; try lia.
    + rewrite content_cons. by apply suffix_app_r.
    + by exists (S k).
  - rewrite content_cons, len_app. split_and!; auto; try lia; first [by exists 0%nat|simpl; lia].
Qed.

Lemma pruneExpired_wf b now :
  buffer_wf b → buffer_wf (pruneExpired b now) ∧
  maxBytes (pruneExpired b now) = maxBytes b ∧ maxAge (pruneExpired b now) = maxAge b.
Proof.
  intros [Hc [Hl Hl'] Hdis]. unfold pruneExpired.
  destruct (pruneLoop _ _ _ _) as [[es n] t] eqn:Hp.
  apply pruneLoop_spec in Hp as (Hn & Hle & _ & _ & _ & (k & ->) & _); [|done].
  pose proof (len_nonneg (content (drop k (entries b)))).
  split; [|done]. split; simpl; [done|lia|]. intros ->%Hdis. by rewrite drop_nil.
Qed.

Lemma pruneExpired_holds b now written :
  holds b written → holds (pruneExpired b now) written.
Proof.
  intros (Hwf & Hsuf & Ht). split; [by apply pruneExpired_wf|]. unfold pruneExpired.
  destruct (pruneLoop _ _ _ _) as [[es n] t] eqn:Hp.
  apply pruneLoop_spec in Hp as (Hn & Hle & Hs & Ht' & _ & _); [|by apply wf_count].
  simpl. split; [by etrans|]. intros [Htr ->]%Ht'. auto.
Qed.

Lemma evictLoop_spec limit es n t es' n' t' :
  0 <= limit → evictLoop limit es n t = (es', n', t') → n = len (content es) →
  content es' = drop (Z.to_nat (n - limit)) (content es) ∧ n' = len (content es') ∧
  n' <= limit ∧ (t' = false ↔ t = false ∧ n <= limit).
Proof.
  intros Hlim. revert n t; induction es as [|e es IH]; intros n t He Hn; simpl in He.
  { simplify_eq. change (content []) with (@nil byte). rewrite len_nil, drop_nil.
    split_and!; auto; lia. }
  rewrite content_cons, len_app in Hn. pose proof (len_nonneg (data e)).
  pose proof (len_nonneg (content es)).
  case_match eqn:Hgt; [case_match eqn:Hov|]; simplify_eq.
  - rewrite !content_cons. simpl. rewrite drop_app_le by (unfold len in *; lia).
    autorewrite with len. split_and!; auto; lia.
  - apply IH in He as (-> & -> & ? & Hiff); [|lia]. rewrite content_cons.
    rewrite drop_app_ge by (unfold len in *; lia).
    split_and!; auto.
    + f_equal. unfold len in *. lia.
    + naive_solver lia.
  - rewrite content_cons. replace (Z.to_nat (len (data e) + len (content es) - limit)) with 0%nat by lia.
    rewrite drop_0, len_app. split_and!; auto; lia.
Qed.

(** What [append] retains: of the unexpired content and the new output, the
    last [maxBytes] bytes. *)
Lemma append_content b now d :
  buffer_wf b → d ≠ [] → 0 < maxBytes b → 0 < maxAge b →
  let kept := content (entries (pruneExpired b now)) ++ d in
  content (entries (append b now d)) = drop (Z.to_nat (len kept - maxBytes b)) kept ∧
  nbytes (append b now d) = len (content (entries (append b now d))) ∧
  nbytes (append b now d) <= maxBytes b ∧
  (truncated (append b now d) = false ↔
     truncated (pruneExpired b now) = false ∧ len kept <= maxBytes b) ∧
  maxBytes (append b now d) = maxBytes b ∧ maxAge (append b now d) = maxAge b.
Proof.
  intros Hwf Hd Hm Ha kept.
  destruct (pruneExpired_wf b now Hwf) as (Hwfp & Hmp & Hap).
  assert (1 <= len d) as Hd1 by (destruct d; [done|unfold len; simpl; lia]).
  unfold append. replace (len d =? 0) with false by lia.
  replace ((maxBytes b <=? 0) || (maxAge b <=? 0)) with false by lia.
  fold kept. set (p := pruneExpired b now) in *. cbv zeta. destruct Hwfp as [Hcp [Hlp _] _].
  assert (len kept = len (content (entries p)) + len d) as Hk by (unfold kept; by rewrite len_app).
  destruct (len d >? maxBytes p) eqn:Hbig.
  - set (d' := drop (Z.to_nat (len d - maxBytes p)) d).
    assert (len d' = maxBytes b) as Hd' by (unfold d'; rewrite len_drop; lia).
    simpl. destruct (evictLoop _ _ _ _) as [[es n] t] eqn:He.
    apply evictLoop_spec in He as (Hes & Hn & Hle & Ht); [| lia |
      rewrite content_snoc, len_app; lia].
    simpl. rewrite Hn in *. split_and!; auto; try lia.
    rewrite Hes, content_snoc, Hd', Hk. unfold kept.
    rewrite !drop_app_ge by (unfold len in *; lia).
    unfold d'. rewrite drop_drop. f_equal. unfold len in *. lia.
  - simpl. destruct (evictLoop _ _ _ _) as [[es n] t] eqn:He.
    apply evictLoop_spec in He as (Hes & Hn & Hle & Ht); [| lia |
      rewrite content_snoc, len_app; lia].
    simpl. rewrite Hn in *. split_and!; auto; try lia.
    rewrite Hes, content_snoc. fold kept. f_equal. lia.
Qed.

Lemma append_holds b now d written :
  holds b written → holds (append b now d) (written ++ d).
Proof.
  intros Hh. destruct (decide (d = [])) as [->|Hd].
  { rewrite app_nil_r. exact Hh. }
  assert (1 <= len d) as Hd1 by (destruct d; [done|unfold len; simpl; lia]).
  destruct (decide (0 < maxBytes b ∧ 0 < maxAge b)) as [[Hm Ha]|Hno].
  - destruct (append_content b now d (proj1 Hh) Hd Hm Ha) as (Hc & Hn & Hle & Ht & Hmb & Hma).
    destruct (pruneExpired_holds b now written Hh) as (_ & Hsuf & Hfull).
    set (kept := content (entries (pruneExpired b now)) ++ d) in *.
    pose proof (len_nonneg (content (entries (append b now d)))).
    split_and!.
    + split; [done|lia|]. rewrite Hmb, Hma. lia.
    + rewrite Hc. eapply transitivity; [apply suffix_drop|]. by apply suffix_app.
    + intros [Hf Hlen]%Ht. rewrite Hc. replace (Z.to_nat _) with 0%nat by lia.
      unfold kept. by rewrite drop_0, Hfull.
  - unfold append. replace (len d =? 0) with false by lia.
    replace ((maxBytes b <=? 0) || (maxAge b <=? 0)) with true by lia.
    destruct Hh as ([Hc Hl Hdis] & Hsuf & Hfull). split_and!; [by split| |done].
    simpl. rewrite Hdis by lia. apply suffix_nil.
Qed.

(** A sequence of appends, each at its time. *)
Definition appendAll (writes : list (Z * bytes)) (b : replayBuffer) : replayBuffer :=
  fold_left (fun b '(now, d) => append b now d) writes b.

Definition written (writes : list (Z * bytes)) : bytes := concat (map snd writes).

Lemma appendAll_holds writes b w :
  holds b w → holds (appendAll writes b) (w ++ written writes).
Proof.
  revert b w; induction writes as [|[now d] writes IH]; intros b w Hh.
  { unfold written. simpl. by rewrite app_nil_r. }
  unfold written. simpl. rewrite app_assoc. apply IH. by apply append_holds.
Qed.

(** Whatever was written since the buffer was last empty, draining it
    yields a suffix of it of at most [maxBytes] bytes, the whole of it when the
    drain reports the history as complete, and leaves an empty buffer ready for
    the next detachment. *)
Theorem drain_replays_suffix b writes now b' out complete :
  holds b [] → drainWithStatus (appendAll writes b) now = (b', (out, complete)) →
  concat out `suffix_of` written writes ∧
  (complete = true → concat out = written writes) ∧
  (0 < maxBytes (appendAll writes b) → len (concat out) <= maxBytes (appendAll writes b)) ∧
  holds b' [].
Proof.
  intros Hh Hd. pose proof (appendAll_holds writes b [] Hh) as Hw. simpl in Hw.
  pose proof (pruneExpired_holds _ now _ Hw) as ([Hc [_ Hl] Hdis] & Hsuf & Hfull).
  destruct (pruneExpired_wf _ now (proj1 Hw)) as (_ & Hm & Ha).
  unfold drainWithStatus in Hd. simplify_eq. unfold snapshot.
  fold (content (entries (pruneExpired (appendAll writes b) now))).
  split_and!; auto.
  - intros Ht%negb_true_iff. auto.
  - rewrite Hm in Hl. lia.
  - split_and!; [split; simpl; [done|lia|done]|apply suffix_nil|done].
Qed.

(** ** Age *)

(** Entries are in order of arrival and none is from the future. *)
Definition in_order (b : replayBuffer) (now : Z) : Prop :=
  StronglySorted Z.le (map receivedAt (entries b) ++ [now]).

Lemma StronglySorted_app_l {A} (R : relation A) l k :
  StronglySorted R (l ++ k) → StronglySorted R l.
Proof.
  induction l as [|x l IH]; intros H; [constructor|]. inversion H as [|? ? Hs HF]; subst.
  constructor; [auto|]. by apply Forall_app in HF as [? _].
Qed.

Lemma StronglySorted_app_r {A} (R : relation A) l k :
  StronglySorted R (l ++ k) → StronglySorted R k.
Proof. induction l as [|x l IH]; intros H; [done|]. inversion H; subst. auto. Qed.

Lemma StronglySorted_drop {A} (R : relation A) n l k :
  StronglySorted R (l ++ k) → StronglySorted R (drop n l ++ k).
Proof.
  intros H. rewrite <- (take_drop n l), <- app_assoc in H. by apply StronglySorted_app_r in H.
Qed.

Lemma in_order_mono b now now' : now <= now' → in_order b now → in_order b now'.
Proof.
  unfold in_order. intros Hle. induction (map receivedAt (entries b)) as [|x l IH]; simpl; intros H.
  { repeat constructor. }
  inversion H as [|? ? Hs HF]; subst. constructor; [auto|].
  apply Forall_app in HF as [HF Hx]. apply Forall_app; split; [done|].
  inversion Hx; subst. constructor; [lia|done].
Qed.

Lemma pruneExpired_entries b now : ∃ k, entries (pruneExpired b now) = drop k (entries b).
Proof.
  unfold pruneExpired. generalize (now - maxAge b) as cutoff, (nbytes b) as n, (truncated b) as t.
  induction (entries b) as [|e es IH]; intros cutoff n t; simpl; [by exists 0%nat|].
  destruct (receivedAt e <? cutoff); [|by exists 0%nat].
  destruct (IH cutoff (n - len (data e)) true) as (k & Hk). exists (S k). simpl. rewrite <- Hk.
  by destruct (pruneLoop cutoff es (n - len (data e)) true) as [[? ?] ?].
Qed.

Lemma pruneExpired_in_order b now : in_order b now → in_order (pruneExpired b now) now.
Proof.
  intros H. unfold in_order. destruct (pruneExpired_entries b now) as (k & ->).
  change (map receivedAt) with (fmap (M:=list) receivedAt). rewrite fmap_drop.
  by apply StronglySorted_drop.
Qed.

Lemma evictLoop_times limit es n t es' n' t' :
  evictLoop limit es n t = (es', n', t') →
  ∃ k, map receivedAt es' = drop k (map receivedAt es).
Proof.
  revert n t; induction es as [|e es IH]; intros n t He; simpl in He; [simplify_eq; by exists 0%nat|].
  case_match; [case_match|]; simplify_eq; try (by exists 0%nat).
  apply IH in He as (k & ->). by exists (S k).
Qed.

Lemma append_in_order b now d : in_order b now → in_order (append b now d) now.
Proof.
  intros H. unfold append. case_match; [done|]. case_match; [done|].
  pose proof (pruneExpired_in_order _ _ H) as Hp. set (p := pruneExpired b now) in *.
  assert (∀ d, StronglySorted Z.le
    (map receivedAt (entries p ++ [mkBufferedOutput d now]) ++ [now])) as Hs.
  { intros d'. rewrite map_app. simpl. unfold in_order in Hp.
    induction (map receivedAt (entries p)) as [|x l IH]; simpl in *.
    { constructor; [repeat constructor|by constructor]. }
    inversion Hp as [|? ? Hs HF]; subst. constructor; [auto|].
    apply Forall_app in HF as [HF Hx]. inversion Hx; subst. rewrite !Forall_app; by split_and!. }
  cbv zeta. destruct (len d >? maxBytes p); simpl;
    destruct (evictLoop _ _ _ _) as [[es n] t] eqn:He; apply evictLoop_times in He as (k & Hk);
    unfold in_order; simpl; rewrite Hk; by apply StronglySorted_drop.
Qed.

(** Sorted entries whose head is recent are all recent. *)
Lemma pruneExpired_fresh b now :
  in_order b now → Forall (fun e => now - maxAge b <= receivedAt e) (entries (pruneExpired b now)).
Proof.
  unfold in_order, pruneExpired. generalize (nbytes b) as n, (truncated b) as t.
  induction (entries b) as [|e es IH]; intros n t H; simpl in *; [constructor|].
  inversion H as [|? ? Hs HF]; subst. destruct (receivedAt e <? now - maxAge b) eqn:Hlt; [by apply IH|].
  simpl. constructor; [lia|]. apply Forall_app in HF as [HF _]. apply (Forall_fmap receivedAt) in HF.
  eapply Forall_impl; [done|]. simpl. lia.
Qed.

Lemma appendAll_in_order writes b t0 now :
  in_order b t0 → StronglySorted Z.le (t0 :: map fst writes ++ [now]) →
  in_order (appendAll writes b) now.
Proof.
  revert b t0; induction writes as [|[t d] writes IH]; intros b t0 Hb Hs;
    inversion Hs as [|? ? Hs' HF]; inversion HF; subst; simpl in *.
  - by eapply in_order_mono.
  - eapply (IH _ t); [|done]. apply append_in_order. by eapply in_order_mono.
Qed.

Lemma maxAge_appendAll writes b : maxAge (appendAll writes b) = maxAge b.
Proof.
  revert b; induction writes as [|[now d] writes IH]; intros b; [done|].
  unfold appendAll in *. simpl. rewrite IH. unfold append, pruneExpired.
  repeat (case_match; simplify_eq/=); done.
Qed.

(** With a clock that does not go back, no output older than [maxAge] is
    ever replayed. *)
Theorem drain_replays_recent m a writes now b' out complete :
  StronglySorted Z.le (map fst writes ++ [now]) →
  drainWithStatus (appendAll writes (newReplayBuffer m a)) now = (b', (out, complete)) →
  ∃ es, out = map data es ∧ Forall (fun e => now - a <= receivedAt e) es.
Proof.
  intros Hs Hd. set (b := appendAll writes (newReplayBuffer m a)) in *.
  exists (entries (pruneExpired b now)). unfold drainWithStatus, snapshot in Hd. simplify_eq.
  split; [done|]. replace a with (maxAge b) by (unfold b; by rewrite maxAge_appendAll).
  apply pruneExpired_fresh. destruct writes as [|[t0 d] writes]; [by repeat constructor|].
  apply (appendAll_in_order _ _ t0); [by repeat constructor|].
  constructor; [done|]. simpl in *. inversion Hs; subst. by constructor.
Qed.

(** ** Concrete runs *)

Definition demo_writes : list (Z * bytes) :=
  [(0, ["a"%byte; "b"%byte]); (5, ["c"%byte]); (9, ["d"%byte; "e"%byte])].

(** Three writes into four bytes: the oldest byte is gone and the drain says so. *)
Lemma drain_replays_suffix_witness :
  drainWithStatus (appendAll demo_writes (newReplayBuffer 4 100)) 10 =
    (newReplayBuffer 4 100, ([["b"%byte]; ["c"%byte]; ["d"%byte; "e"%byte]], false)) ∧
  ["b"%byte; "c"%byte; "d"%byte; "e"%byte] `suffix_of` written demo_writes.
Proof.
  split; [vm_compute; reflexivity|].
  exact (proj1 (drain_replays_suffix (newReplayBuffer 4 100) demo_writes 10
    (newReplayBuffer 4 100) [["b"%byte]; ["c"%byte]; ["d"%byte; "e"%byte]] false
    (newReplayBuffer_holds 4 100) ltac:(vm_compute; reflexivity))).
Defined.

Lemma drain_replays_recent_witness :
  ∃ es, [["c"%byte]; ["d"%byte; "e"%byte]] = map data es ∧
    Forall (fun e => 10 - 6 <= receivedAt e) es.
Proof.
  apply (drain_replays_recent 40 6 demo_writes 10 (newReplayBuffer 40 6)
    [["c"%byte]; ["d"%byte; "e"%byte]] false); [|vm_compute; reflexivity].
  simpl. repeat constructor; lia.
Defined.
