(* ===== verification/SessionLifecycle.v ===== *)
(** * The session lifecycle ([internal/server/session_lifecycle.go])

    The states of one PTY session and the guarded transitions between them.
    Every method reports whether the transition was legal. *)

From S2P Require Import Prelude.

Inductive sessionState :=
  | sessionStateStarting
  | sessionStateConnected
  | sessionStateDetached
  | sessionStateEnding
  | sessionStateEnded
  | sessionStateFailed.

#[global] Instance sessionState_eq_dec : EqDecision sessionState.
Proof. solve_decision. Defined.

Record sessionLifecycle := mkSessionLifecycle { state : sessionState }.

Definition newSessionLifecycle : sessionLifecycle := mkSessionLifecycle sessionStateStarting.

Definition started (l : sessionLifecycle) : sessionLifecycle * bool :=
  match state l with
  | sessionStateStarting => (mkSessionLifecycle sessionStateDetached, true)
  | _ => (l, false)
  end.

Definition attach (l : sessionLifecycle) : sessionLifecycle * bool :=
  match state l with
  | sessionStateDetached => (mkSessionLifecycle sessionStateConnected, true)
  | _ => (l, false)
  end.

Definition detach (l : sessionLifecycle) : sessionLifecycle * bool :=
  match state l with
  | sessionStateConnected => (mkSessionLifecycle sessionStateDetached, true)
  | _ => (l, false)
  end.

Definition beginEnding (l : sessionLifecycle) : sessionLifecycle * bool :=
  match state l with
  | sessionStateStarting | sessionStateConnected | sessionStateDetached =>
      (mkSessionLifecycle sessionStateEnding, true)
  | _ => (l, false)
  end.

(** [finish(runErr)]; the argument says whether [runErr] is non-nil. *)
Definition finish (l : sessionLifecycle) (failed : bool) : sessionLifecycle * bool :=
  match state l with
  | sessionStateEnded | sessionStateFailed => (l, false)
  | sessionStateEnding => (mkSessionLifecycle sessionStateEnded, true)
  | _ => (mkSessionLifecycle (if failed then sessionStateFailed else sessionStateEnded), true)
  end.

Definition done (l : sessionLifecycle) : bool :=
  match state l with sessionStateEnded | sessionStateFailed => true | _ => false end.

Definition acceptsOutput (l : sessionLifecycle) : bool :=
  match state l with sessionStateConnected | sessionStateDetached => true | _ => false end.

Definition publicState (l : sessionLifecycle) : string :=
  match state l with
  | sessionStateConnected => "connected"
  | sessionStateStarting | sessionStateDetached => "detached"
  | _ => "ended"
  end.

(** ** Runs *)

Inductive LifecycleOp := LStarted | LAttach | LDetach | LBeginEnding | LFinish (failed : bool).

Definition lifecycle_step (l : sessionLifecycle) (op : LifecycleOp) : sessionLifecycle * bool :=
  match op with
  | LStarted => started l
  | LAttach => attach l
  | LDetach => detach l
  | LBeginEnding => beginEnding l
  | LFinish failed => finish l failed
  end.

Fixpoint lifecycle_run (l : sessionLifecycle) (ops : list LifecycleOp)
    : sessionLifecycle * list (LifecycleOp * bool) :=
  match ops with
  | [] => (l, [])
  | op :: ops' =>
      let '(l1, ok) := lifecycle_step l op in
      let '(l2, rest) := lifecycle_run l1 ops' in
      (l2, (op, ok) :: rest)
  end.

(** How often a run performed the operations selected by [p] successfully. *)
Definition successes (p : LifecycleOp → bool) (tr : list (LifecycleOp * bool)) : nat :=
  length (List.filter (fun '(op, ok) => p op && ok) tr).

Definition is_finish (op : LifecycleOp) : bool := match op with LFinish _ => true | _ => false end.
Definition is_ending (op : LifecycleOp) : bool := match op with LBeginEnding => true | _ => false end.
Definition is_attach (op : LifecycleOp) : bool := match op with LAttach => true | _ => false end.
Definition is_detach (op : LifecycleOp) : bool := match op with LDetach => true | _ => false end.

(** The progress of a session: what each transition can still do. *)
Definition ending_left (l : sessionLifecycle) : nat :=
  match state l with
  | sessionStateStarting | sessionStateConnected | sessionStateDetached => 1
  | _ => 0
  end.

Definition connected_bit (l : sessionLifecycle) : nat :=
  match state l with sessionStateConnected => 1 | _ => 0 end.

Lemma done_absorbing l op : done l = true → lifecycle_step l op = (l, false).
Proof. destruct l as [[]], op; by simpl. Qed.

(** Over any run a session finishes at most once and begins to end at most
    once; it is done exactly when some [finish] succeeded, and from then on
    every transition is refused and the public state is "ended". *)
Theorem lifecycle_finishes_once ops l tr :
  lifecycle_run newSessionLifecycle ops = (l, tr) →
  (successes is_finish tr = if done l then 1 else 0)%nat ∧
  (successes is_ending tr <= 1)%nat ∧
  (done l = true → publicState l = "ended"%string ∧ ∀ op, lifecycle_step l op = (l, false)).
Proof.
  assert (∀ ops l0 l tr, lifecycle_run l0 ops = (l, tr) →
    (successes is_finish tr + (if done l0 then 1 else 0) = if done l then 1 else 0)%nat ∧
    (successes is_ending tr + (1 - ending_left l0) <= 1)%nat) as Hgen.
  { clear. unfold successes. induction ops as [|op ops IH]; intros l0 l tr H; simpl in H.
    { simplify_eq. simpl. destruct l as [[]]; simpl; lia. }
    destruct (lifecycle_step l0 op) as [l1 ok] eqn:Hs.
    destruct (lifecycle_run l1 ops) as [l2 rest] eqn:Hr. simplify_eq.
    destruct (IH _ _ _ Hr) as [H1 H2].
    destruct l0 as [[]], op as [| | | |[]]; vm_compute in Hs; simplify_eq; simpl in *;
      destruct (done l); lia. }
  intros H. destruct (Hgen _ _ _ _ H) as [H1 H2]. simpl in *. split_and!; try lia.
  intros Hd. split; [by destruct l as [[]]|]. intros op. by apply done_absorbing.
Qed.

(** What the state says about the attachments and detachments so far. *)
Definition balanced (l : sessionLifecycle) (attached detached : nat) : Prop :=
  match state l with
  | sessionStateConnected => attached = S detached
  | sessionStateStarting | sessionStateDetached => attached = detached
  | _ => (detached <= attached <= S detached)%nat
  end.

Definition count (b : bool) : nat := if b then 1 else 0.

Lemma balanced_step l op l' ok a d :
  balanced l a d → lifecycle_step l op = (l', ok) →
  balanced l' (count (is_attach op && ok) + a) (count (is_detach op && ok) + d).
Proof.
  destruct l as [[]], op as [| | | |[]]; unfold balanced; simpl; intros Hb [= <- <-]; simpl; lia.
Qed.

Lemma balanced_run ops l0 l tr a d :
  balanced l0 a d → lifecycle_run l0 ops = (l, tr) →
  balanced l (successes is_attach tr + a) (successes is_detach tr + d).
Proof.
  revert l0 tr a d; induction ops as [|op ops IH]; intros l0 tr a d Hb H; simpl in H;
    [by simplify_eq|].
  destruct (lifecycle_step l0 op) as [l1 ok] eqn:Hs.
  destruct (lifecycle_run l1 ops) as [l2 rest] eqn:Hr. simplify_eq.
  pose proof (IH _ _ _ _ (balanced_step _ _ _ _ _ _ Hb Hs) Hr) as Hl.
  assert (∀ p, successes p ((op, ok) :: rest) = successes p rest + count (p op && ok))%nat as Hc.
  { intros p. unfold successes, count. simpl. destruct (p op && ok); simpl; lia. }
  rewrite !Hc, <- !Nat.add_assoc. exact Hl.
Qed.

(** Attachments and detachments alternate: in every run a session is
    attached to at most one more client than it was detached from; it is
    connected only while one attachment is open, and detached only when none
    is. *)
Theorem lifecycle_attach_detach_balance ops l tr :
  lifecycle_run newSessionLifecycle ops = (l, tr) →
  (successes is_detach tr <= successes is_attach tr <= successes is_detach tr + 1)%nat ∧
  (state l = sessionStateConnected → successes is_attach tr = successes is_detach tr + 1)%nat ∧
  (state l = sessionStateDetached → successes is_attach tr = successes is_detach tr)%nat.
Proof.
  intros H. pose proof (balanced_run _ newSessionLifecycle _ _ 0 0 eq_refl H) as Hb. unfold balanced in Hb.
  destruct (state l); split_and!; try lia; done.
Qed.

Lemma lifecycle_finishes_once_witness :
  let ops := [LStarted; LAttach; LDetach; LAttach; LBeginEnding; LFinish true; LFinish false] in
  let '(l, tr) := lifecycle_run newSessionLifecycle ops in
  (successes is_finish tr = 1 ∧ successes is_ending tr <= 1)%nat.
Proof.
  cbv zeta. destruct (lifecycle_run _ _) as [l tr] eqn:H.
  destruct (lifecycle_finishes_once _ _ _ H) as (H1 & H2 & _). split; [|exact H2].
  rewrite H1. vm_compute in H. by simplify_eq.
Defined.

Lemma lifecycle_attach_detach_balance_witness :
  let '(l, tr) := lifecycle_run newSessionLifecycle [LStarted; LAttach; LAttach] in
  (successes is_attach tr = successes is_detach tr + 1)%nat.
Proof.
  destruct (lifecycle_run _ _) as [l tr] eqn:H.
  apply (proj1 (proj2 (lifecycle_attach_detach_balance _ _ _ H))). vm_compute in H. by simplify_eq.
Defined.
