(* ===== verification/ContentPolicy.v ===== *)
(** * Attachment content policy ([internal/attachment/content_policy.go])

    The extensions and media types an attachment may declare, and the check
    that the received bytes match the declaration.  [mime.ParseMediaType] and
    [http.DetectContentType] enter as the class [GoMime]: their grammar and
    signature tables are the standard library's. *)

From S2P Require Import Prelude.
From S2P Require Import Utf8.

(** [ParseMediaType] returns the media type and its parameters, or an error. *)
Class GoMime := {
  ParseMediaType : string → option (string * list (string * string));
  DetectContentType : bytes → string;
}.

Definition ErrUnsupportedContent : error :=
  ErrorString "attachment content declaration is unsupported".

Record contentPolicy := mkContentPolicy {
  extension : string;
  contentType : string;
  text : bool;
  binaryKind : string;
}.

Record policyDefinition := mkPolicyDefinition {
  contentTypes : list string;
  canonical : string;
  definition_text : bool;
  definition_binaryKind : string;
}.

Definition textPolicy (types : list string) (c : string) : policyDefinition :=
  mkPolicyDefinition types c true EmptyString.
Definition binaryPolicy (c kind : string) : policyDefinition :=
  mkPolicyDefinition [c] c false kind.

Definition yamlTypes : list string :=
  ["application/yaml"; "application/x-yaml"; "text/yaml"; "text/x-yaml"]%string.

Definition supportedContentPolicies : gmap string policyDefinition := list_to_map [
  ("txt", textPolicy ["text/plain"] "text/plain");
  ("log", textPolicy ["text/plain"] "text/plain");
  ("md", textPolicy ["text/markdown"; "text/plain"] "text/markdown");
  ("markdown", textPolicy ["text/markdown"; "text/plain"] "text/markdown");
  ("json", textPolicy ["application/json"] "application/json");
  ("yaml", textPolicy yamlTypes "application/yaml");
  ("yml", textPolicy yamlTypes "application/yaml");
  ("toml", textPolicy ["application/toml"; "text/toml"] "application/toml");
  ("csv", textPolicy ["text/csv"] "text/csv");
  ("png", binaryPolicy "image/png" "png");
  ("jpg", binaryPolicy "image/jpeg" "jpeg");
  ("jpeg", binaryPolicy "image/jpeg" "jpeg");
  ("webp", binaryPolicy "image/webp" "webp");
  ("gif", binaryPolicy "image/gif" "gif");
  ("pdf", binaryPolicy "application/pdf" "pdf")]%string.

(** ** String helpers *)

(** [strings.ToLower] on the letters A-Z; the names it is compared with are
    ASCII. *)
Definition lowerAscii (a : ascii) : ascii :=
  let n := N_of_ascii a in
  if ((65 <=? n) && (n <=? 90))%N then ascii_of_N (n + 32) else a.

Fixpoint ToLower (s : string) : string :=
  match s with EmptyString => EmptyString | String a s' => String (lowerAscii a) (ToLower s') end.

Definition EqualFold (s t : string) : bool := bool_decide (ToLower s = ToLower t).

Definition TrimPrefixDot (s : string) : string :=
  match s with String "."%char s' => s' | _ => s end.

Fixpoint ContainsAny (s chars : string) : bool :=
  match s with
  | EmptyString => false
  | String a s' =>
      (fix mem c := match c with EmptyString => false
                    | String b c' => Ascii.eqb a b || mem c' end) chars || ContainsAny s' chars
  end.

(** The separators the extension must not contain: dot, space, slash, backslash
    and NUL. *)
Definition extensionForbidden : string :=
  string_of_bytes ["."; " "; "/"; "\"; "000"]%byte.

Section Policy.
Context {gm : GoMime}.

Definition parameterAllowed (isText : bool) (kv : string * string) : bool :=
  isText && EqualFold kv.1 "charset" && EqualFold kv.2 "utf-8".

Definition parseContentPolicy (declaredExtension declaredContentType : string)
    : result contentPolicy :=
  let ext := TrimPrefixDot (TrimSpace declaredExtension) in
  if bool_decide (ext = EmptyString) || negb (bool_decide (ext = ToLower ext)) ||
     ContainsAny ext extensionForbidden then Err ErrUnsupportedContent
  else match supportedContentPolicies !! ext with
  | None => Err ErrUnsupportedContent
  | Some definition =>
      match ParseMediaType (TrimSpace declaredContentType) with
      | None => Err ErrUnsupportedContent
      | Some (mediaType, parameters) =>
          if negb (bool_decide (ToLower mediaType ∈ contentTypes definition)) then
            Err ErrUnsupportedContent
          else if negb (forallb (parameterAllowed (definition_text definition)) parameters) then
            Err ErrUnsupportedContent
          else Ok (mkContentPolicy ("." ++ ext) (canonical definition)
                     (definition_text definition) (definition_binaryKind definition))
      end
  end.

(** ** File headers *)

Definition at_ (d : bytes) (i : nat) : Z := match d !! i with Some b => byte_val b | None => 0 end.
Definition slice (d : bytes) (lo hi : nat) : bytes := take (hi - lo) (drop lo d).
Definition slice_is (d : bytes) (lo hi : nat) (s : string) : bool :=
  bool_decide (slice d lo hi = bytes_of_string s).

Definition BigEndian_Uint32 (d : bytes) (i : nat) : Z :=
  at_ d i * 2 ^ 24 + at_ d (i + 1) * 2 ^ 16 + at_ d (i + 2) * 2 ^ 8 + at_ d (i + 3).
Definition LittleEndian_Uint16 (d : bytes) (i : nat) : Z := at_ d i + at_ d (i + 1) * 2 ^ 8.
Definition LittleEndian_Uint32 (d : bytes) (i : nat) : Z :=
  at_ d i + at_ d (i + 1) * 2 ^ 8 + at_ d (i + 2) * 2 ^ 16 + at_ d (i + 3) * 2 ^ 24.

Definition pngSignature : bytes := ["137"; "P"; "N"; "G"; "013"; "010"; "026"; "010"]%byte.

Definition validPNGHeader (d : bytes) : bool :=
  (len d >=? 24) && bool_decide (slice d 0 8 = pngSignature) &&
  (BigEndian_Uint32 d 8 =? 13) && slice_is d 12 16 "IHDR".

Definition validJPEGHeader (d : bytes) : bool :=
  (len d >=? 4) && (at_ d 0 =? 0xFF) && (at_ d 1 =? 0xD8) && (at_ d 2 =? 0xFF) &&
  negb (at_ d 3 =? 0) && negb (at_ d 3 =? 0xFF) && negb (at_ d 3 =? 0xD8) && negb (at_ d 3 =? 0xD9).

Definition validGIFHeader (d : bytes) : bool :=
  if (len d <? 10) || (negb (slice_is d 0 6 "GIF87a") && negb (slice_is d 0 6 "GIF89a")) then false
  else negb (LittleEndian_Uint16 d 6 =? 0) && negb (LittleEndian_Uint16 d 8 =? 0).

Definition validWebPHeader (d : bytes) (totalSize : Z) : bool :=
  if (len d <? 16) || negb (slice_is d 0 4 "RIFF") || negb (slice_is d 8 12 "WEBP") then false
  else if negb (u64 (LittleEndian_Uint32 d 4 + 8) =? totalSize) then false
  else slice_is d 12 16 "VP8 " || slice_is d 12 16 "VP8L" || slice_is d 12 16 "VP8X".

Definition validPDFHeader (d : bytes) : bool :=
  (len d >=? 8) && slice_is d 0 5 "%PDF-" &&
  ((at_ d 5 =? 49) || (at_ d 5 =? 50)) && (at_ d 6 =? 46) && (at_ d 7 >=? 48) && (at_ d 7 <=? 57).

(** [bytes.ToLower] on runes: the letters A-Z and the two other code points
    whose lower case is an ASCII letter. The markup prefixes are ASCII, so the
    lower case of every other rune is immaterial. *)
Definition lowerRune (r : Z) : Z :=
  if in_range 65 90 r then r + 32 else if r =? 0x130 then 105 else if r =? 0x212A then 107 else r.

(** The runes of a byte slice, invalid bytes decoding to [RuneError]. *)
Fixpoint lossyRunes (fuel : nat) (p : bytes) : list Z :=
  match fuel, p with
  | S fuel', _ :: _ => let '(r, size) := DecodeRune p in r :: lossyRunes fuel' (drop size p)
  | _, _ => []
  end.

Definition activePrefixes : list string :=
  ["<!doctype html"; "<html"; "<head"; "<body"; "<script"; "<svg"; "<?xml"]%string.

Definition looksLikeActiveMarkup (d : bytes) : bool :=
  let trimmed := trimRight (length d) (trimLeft (length d) d) in
  let lower := map lowerRune (lossyRunes (length trimmed) trimmed) in
  existsb (fun p => let q := map byte_val (bytes_of_string p) in
                    bool_decide (take (length q) lower = q)) activePrefixes.

Definition utf8BOM : bytes := ["239"; "187"; "191"]%byte.

Definition detected (d : bytes) : option string :=
  match ParseMediaType (DetectContentType d) with Some (t, _) => Some t | None => None end.

Definition matchesBytes (p : contentPolicy) (sniff : bytes) (totalSize : Z) (valid : bool) : bool :=
  if text p then
    if negb valid then false
    else
      let candidate := if bool_decide (take 3 sniff = utf8BOM) then drop 3 sniff else sniff in
      bool_decide (detected candidate = Some "text/plain"%string) &&
      negb (looksLikeActiveMarkup candidate)
  else if negb (bool_decide (detected sniff = Some (contentType p))) then false
  else if bool_decide (binaryKind p = "png"%string) then validPNGHeader sniff
  else if bool_decide (binaryKind p = "jpeg"%string) then validJPEGHeader sniff
  else if bool_decide (binaryKind p = "gif"%string) then validGIFHeader sniff
  else if bool_decide (binaryKind p = "webp"%string) then validWebPHeader sniff totalSize
  else if bool_decide (binaryKind p = "pdf"%string) then validPDFHeader sniff
  else false.

End Policy.
