(* ===== verification/Aggregate.v ===== *)
(** * The aggregate byte ceiling ([internal/attachment/aggregate.go])

    One tracker is shared by the transfer managers of all sessions. A nil
    tracker and a tracker with limit zero impose no ceiling. *)

From S2P Require Import Prelude.

Definition ErrAggregateQuotaExceeded : error := ErrorString "attachment aggregate quota exceeded".
Definition DefaultMaxAggregateBytes : Z := 500 * 1024 * 1024.

Record AggregateTracker := mkAggregateTracker {
  totalBytes : Z;
  maxAggregate : Z;
}.

Definition NewAggregateTracker (maxBytes : Z) : AggregateTracker := mkAggregateTracker 0 maxBytes.
Definition NewDefaultAggregateTracker : AggregateTracker :=
  NewAggregateTracker DefaultMaxAggregateBytes.

(** The receiver is a pointer: [None] is the nil tracker. *)
Definition Reserve (t : option AggregateTracker) (n : Z) : option AggregateTracker * result unit :=
  match t with
  | None => (t, Ok tt)
  | Some a =>
      if maxAggregate a =? 0 then (t, Ok tt)
      else if u64 (totalBytes a + n) >? maxAggregate a then (t, Err ErrAggregateQuotaExceeded)
      else (Some (mkAggregateTracker (u64 (totalBytes a + n)) (maxAggregate a)), Ok tt)
  end.

Definition Release (t : option AggregateTracker) (n : Z) : option AggregateTracker :=
  match t with
  | None => None
  | Some a =>
      if maxAggregate a =? 0 then t
      else if n <=? totalBytes a then Some (mkAggregateTracker (totalBytes a - n) (maxAggregate a))
      else Some (mkAggregateTracker 0 (maxAggregate a))
  end.

Definition TotalBytes (t : option AggregateTracker) : Z :=
  match t with None => 0 | Some a => totalBytes a end.

Definition MaxBytes (t : option AggregateTracker) : Z :=
  match t with None => 0 | Some a => maxAggregate a end.

(** ** Facts *)

Definition limited (t : option AggregateTracker) : bool :=
  match t with None => false | Some a => negb (maxAggregate a =? 0) end.

Definition aggregate_wf (t : option AggregateTracker) : Prop :=
  match t with
  | None => True
  | Some a => 0 <= totalBytes a ∧ 0 <= maxAggregate a < 2 ^ 63 ∧
              (limited t = true → totalBytes a <= maxAggregate a)
  end.

Lemma Reserve_spec t n t' r :
  aggregate_wf t → 0 <= n < 2 ^ 63 → Reserve t n = (t', r) →
  aggregate_wf t' ∧ limited t' = limited t ∧ MaxBytes t' = MaxBytes t ∧
  match r with
  | Ok _ => TotalBytes t' = TotalBytes t + (if limited t then n else 0)
  | Err e => e = ErrAggregateQuotaExceeded ∧ t' = t ∧ MaxBytes t < TotalBytes t + n
  end.
Proof.
  intros Hwf Hn HR. destruct t as [[tot mx]|]; simpl in *; [|by simplify_eq].
  destruct Hwf as (H1 & H2 & H3).
  destruct (mx =? 0) eqn:Hm; simpl in *; simplify_eq/=.
  { rewrite Hm. split_and!; auto; lia. }
  assert (u64 (tot + n) = tot + n) as Hu by (apply u64_small; unfold is_u64; lia).
  rewrite Hu in HR. case_match; simplify_eq/=; rewrite ?Hm; split_and!; auto; lia.
Qed.

Lemma Release_spec t n :
  aggregate_wf t → 0 <= n →
  aggregate_wf (Release t n) ∧ limited (Release t n) = limited t ∧
  MaxBytes (Release t n) = MaxBytes t ∧
  TotalBytes (Release t n) =
    if limited t then Z.max 0 (TotalBytes t - n) else TotalBytes t.
Proof.
  intros Hwf Hn. destruct t as [[tot mx]|]; simpl in *; [|done].
  destruct Hwf as (H1 & H2 & H3).
  destruct (mx =? 0) eqn:Hm; simpl in *; rewrite ?Hm; simpl; [split_and!; auto; lia|].
  case_match; simpl; rewrite ?Hm; split_and!; auto; lia.
Qed.

Lemma limited_MaxBytes t : limited t = negb (MaxBytes t =? 0).
Proof. by destruct t. Qed.

Lemma aggregate_wf_bound t : aggregate_wf t → limited t = true → TotalBytes t <= MaxBytes t.
Proof. destruct t as [[]|]; simpl; [|done]. naive_solver. Qed.
