(* ===== verification/Transfer.v ===== *)
(** * Attachment transfers ([internal/attachment/transfer.go], and the
    accounting of [internal/attachment/staging.go])

    [Manager] owns the transfers of one session: partial files being received,
    completed attachments, and the outcomes of cancelled transfers.  It works on
    a staging directory, which enters as the class [StagingOps]; on the byte
    counters of the session staging; and on the aggregate tracker shared with
    the other sessions.  The [World] of a manager holds all of them, so that a
    method is a function from world to world. *)

From S2P Require Import Prelude.
From S2P Require Import Utf8.
From S2P Require Import Sha256.
From S2P Require Import ContentPolicy.
From S2P Require Import Aggregate.

(** ** Constants and errors *)

Definition defaultMaxFileBytes : Z := 25 * 1024 * 1024.
Definition defaultMaxSessionBytes : Z := 100 * 1024 * 1024.
Definition defaultMaxChunkBytes : Z := 256 * 1024.
Definition defaultMaxActive : Z := 4.
Definition maxTransferIDBytes : Z := 64.
Definition maxDisplayNameBytes : Z := 255.
Definition storageNameAttempts : nat := 4.
Definition contentSniffBytes : Z := 512.
Definition maxPromptActionAttachments : Z := 10.
Definition maxDiscardAttachments : Z := 10.
Definition maxCancelledOutcomes : Z := 256.

Definition ErrInvalidTransfer := ErrorString "attachment transfer is invalid".
Definition ErrInvalidMetadata := ErrorString "attachment metadata is invalid".
Definition ErrFileLimitExceeded := ErrorString "attachment file limit exceeded".
Definition ErrActiveTransferLimit := ErrorString "active attachment transfer limit exceeded".
Definition ErrSessionQuotaExceeded := ErrorString "attachment session quota exceeded".
Definition ErrTransferExists := ErrorString "attachment transfer already exists".
Definition ErrTransferNotFound := ErrorString "attachment transfer was not found".
Definition ErrChunkChecksumMismatch := ErrorString "attachment chunk checksum mismatch".
Definition ErrChunkOffsetMismatch := ErrorString "attachment chunk offset mismatch".
Definition ErrChunkLimitExceeded := ErrorString "attachment chunk limit exceeded".
Definition ErrTotalSizeMismatch := ErrorString "attachment total size mismatch".
Definition ErrTotalChecksumMismatch := ErrorString "attachment total checksum mismatch".
Definition ErrContentTypeMismatch := ErrorString "attachment content does not match its declaration".
Definition ErrManagerClosed := ErrorString "attachment transfer manager is closed".
Definition ErrInvalidAttachmentSelection := ErrorString "attachment selection is invalid".
Definition ErrAttachmentSelectionLimit := ErrorString "attachment selection limit exceeded".
Definition ErrDuplicateAttachment := ErrorString "attachment selection contains a duplicate".
Definition ErrAttachmentNotCompleted := ErrorString "attachment transfer is not completed".
Definition fs_ErrExist := ErrorString "file already exists".

(** ** Data *)

Record BeginRequest := mkBeginRequest {
  Begin_TransferID : bytes;
  Begin_DisplayName : string;
  Begin_DeclaredContentType : string;
  Begin_DeclaredExtension : string;
  Begin_TotalSizeBytes : Z;
  Begin_TotalSHA256 : bytes;
}.

Record ChunkRequest := mkChunkRequest {
  Chunk_TransferID : bytes;
  Chunk_OffsetBytes : Z;
  Chunk_Data : bytes;
  Chunk_ChunkSHA256 : bytes;
}.

Inductive TransferDisposition :=
  | TransferDispositionUnknown
  | TransferDispositionActive
  | TransferDispositionCompleted
  | TransferDispositionCancelled.

Record TransferOutcome := mkTransferOutcome {
  Disposition : TransferDisposition;
  NextOffsetBytes : Z;
}.

Record CompletedAttachment := mkCompletedAttachment {
  TransferID : bytes;
  DisplayName : string;
  RelativePath : string;
  ContentType : string;
  Extension : string;
  SizeBytes : Z;
  SHA256 : bytes;
}.

Record managerLimits := mkManagerLimits {
  maxFileBytes : Z;
  maxSessionBytes : Z;
  maxChunkBytes : Z;
  maxActive : Z;
}.

(** The hasher is the bytes written to it so far. *)
Record activeTransfer := mkActiveTransfer {
  transferID : bytes;
  displayName : string;
  policy : contentPolicy;
  totalSize : Z;
  expectedSHA256 : bytes;
  receivedBytes : Z;
  hasher : bytes;
  sniff : bytes;
  textValidator : utf8StreamValidator;
  storagePrefix : string;
  partialName : string;
  publicationAttempted : bool;
}.

#[global] Instance activeTransfer_eta : Eta activeTransfer := fun t =>
  mkActiveTransfer (transferID t) (displayName t) (policy t) (totalSize t) (expectedSHA256 t)
    (receivedBytes t) (hasher t) (sniff t) (textValidator t) (storagePrefix t) (partialName t)
    (publicationAttempted t).

Record Manager := mkManager {
  limits : managerLimits;
  active : gmap string activeTransfer;
  completed : gmap string CompletedAttachment;
  cancelled : gset string;
  cancelledOrder : list string;
  reservedBytes : Z;
  closing : bool;
  closed : bool;
}.

#[global] Instance Manager_eta : Eta Manager := fun m =>
  mkManager (limits m) (active m) (completed m) (cancelled m) (cancelledOrder m)
    (reservedBytes m) (closing m) (closed m).

(** The part of [SessionStaging] the manager shares with later managers of the
    same session. *)
Record SessionStaging := mkSessionStaging {
  workspaceRoot : string;
  staging_path : string;
  cleaned : bool;
  openDirectories : Z;
  transferManagerOpen : bool;
  completedBytesReserved : Z;
}.

#[global] Instance SessionStaging_eta : Eta SessionStaging := fun s =>
  mkSessionStaging (workspaceRoot s) (staging_path s) (cleaned s) (openDirectories s)
    (transferManagerOpen s) (completedBytesReserved s).

Definition recordCompletedBytes (s : SessionStaging) (size : Z) : SessionStaging :=
  s <| completedBytesReserved ::= fun n => u64 (n + size) |>.

Definition releaseCompletedBytes (s : SessionStaging) (size : Z) : SessionStaging :=
  if size <=? completedBytesReserved s
  then s <| completedBytesReserved ::= fun n => n - size |>
  else s <| completedBytesReserved := 0 |>.

Definition claimTransferManager (s : SessionStaging) : SessionStaging * result unit :=
  if cleaned s then (s, Err (ErrorString "session staging is already cleaned"))
  else if transferManagerOpen s then
    (s, Err (ErrorString "session staging already has a transfer manager"))
  else (s <| transferManagerOpen := true |>, Ok tt).

Definition releaseTransferManager (s : SessionStaging) : SessionStaging :=
  s <| transferManagerOpen := false |>.

(** The staging directory ([stagingDirectory] of [fileops.go]) as the manager
    uses it: a value of [D] is the file system together with the open handle.
    [dir_open] and [dir_close] also count the handle in the session staging.
    The last two operations are the lexical path functions of the standard
    library, which depend on the platform. *)
Class StagingOps (D : Type) := {
  dir_open : D → SessionStaging → (nat → result bytes) → D * SessionStaging * result unit;
  dir_create : D → string → D * result unit;
  dir_writeAt : D → string → Z → bytes → D * result unit;
  dir_rename : D → string → string → D * result unit;
  dir_remove : D → string → D * result unit;
  dir_removePublishedLink : D → string → string → D * result unit;
  dir_close : D → SessionStaging → D * SessionStaging * result unit;
  (** [filepath.Rel(root, filepath.Join(path, name))] when it is local. *)
  relativeReference : SessionStaging → string → option string;
  filepath_Base : string → string;
}.

Section Transfer.
Context {D : Type} {ops : StagingOps D} {gm : GoMime}.

Record World := mkWorld {
  mgr : Manager;
  stg : SessionStaging;
  agg : option AggregateTracker;
  dir : D;
}.

#[local] Instance World_eta : Eta World := fun w => mkWorld (mgr w) (stg w) (agg w) (dir w).

(** ** Validation *)

Definition validTransferID (id : bytes) : bool :=
  (len id >? 0) && (len id <=? maxTransferIDBytes).

Definition validDisplayName (name : string) : bool :=
  if bool_decide (name = EmptyString) || (slen name >? maxDisplayNameBytes) then false
  else match runes (bytes_of_string name) with
       | None => false
       | Some rs => negb (existsb unicode_C rs)
       end.

Definition equalHash (left right : bytes) : bool :=
  (len left =? sha256_Size) && (len right =? sha256_Size) && bool_decide (left = right).

(** ** Releasing quota *)

Definition subClamped (a b : Z) : Z := if b <=? a then a - b else 0.

Definition releaseActiveLocked (w : World) (key : string) (t : activeTransfer) : World :=
  w <| mgr ::= fun m => m <| active ::= delete key |>
                          <| reservedBytes ::= fun r => subClamped r (totalSize t) |> |>
    <| agg ::= fun a => Release a (totalSize t) |>.

Definition releaseCompletedLocked (w : World) (size : Z) : World :=
  w <| mgr ::= fun m => m <| reservedBytes ::= fun r => subClamped r size |> |>
    <| stg ::= fun s => releaseCompletedBytes s size |>
    <| agg ::= fun a => Release a size |>.

(** The loop that drops the first occurrence of the key from the order. *)
Fixpoint removeFirst (key : string) (l : list string) : list string :=
  match l with
  | [] => []
  | x :: l' => if bool_decide (x = key) then l' else x :: removeFirst key l'
  end.

Definition recordCancelledLocked (w : World) (key : string) : World :=
  w <| mgr ::= fun m =>
    let order :=
      if bool_decide (key ∈ cancelled m)
      then removeFirst key (cancelledOrder m) else cancelledOrder m in
    let order := order ++ [key] in
    let m := m <| cancelled ::= fun c => {[key]} ∪ c |> in
    if len order <=? maxCancelledOutcomes then m <| cancelledOrder := order |>
    else match order with
         | oldest :: rest => m <| cancelledOrder := rest |>
                               <| cancelled ::= fun c => c ∖ {[oldest]} |>
         | [] => m <| cancelledOrder := order |>
         end |>.

(** ** Opening a manager *)

Definition newManager (l : managerLimits) (reserved : Z) : Manager :=
  mkManager l ∅ ∅ ∅ [] reserved false false.

(** [newTransferManager]; the aggregate is attached by the caller. *)
Definition newTransferManager (d : D) (s : SessionStaging) (l : managerLimits)
    (rand : nat → result bytes) : D * SessionStaging * result Manager :=
  if (maxFileBytes l =? 0) || (maxSessionBytes l =? 0) || (maxFileBytes l >? 2 ^ 63 - 1) ||
     (maxChunkBytes l <=? 0) || (maxActive l <=? 0) then
    (d, s, Err (ErrorString "attachment transfer limits are invalid"))
  else
    match claimTransferManager s with
    | (s, Err e) => (d, s, Err (ErrorWrap "claim attachment transfer storage" e))
    | (s, Ok _) =>
        match dir_open d s rand with
        | (d, s, Err e) =>
            (d, releaseTransferManager s, Err (ErrorWrap "open attachment transfer storage" e))
        | (d, s, Ok _) => (d, s, Ok (newManager l (completedBytesReserved s)))
        end
    end.

Definition defaultLimits : managerLimits :=
  mkManagerLimits defaultMaxFileBytes defaultMaxSessionBytes defaultMaxChunkBytes defaultMaxActive.

(** ** Begin *)

(** [createPartialLocked]: up to four random names are tried. *)
Fixpoint createPartialLocked (attempts i : nat) (rand : nat → result bytes) (d : D)
    : D * result (string * string) :=
  match attempts with
  | O => (d, Err (ErrorString "create unique attachment partial failed"))
  | S attempts' =>
      match rand i with
      | Err _ => (d, Err (ErrorString "generate attachment storage identifier failed"))
      | Ok identifier =>
          let prefix := hexEncode identifier in
          let name := (prefix ++ ".partial")%string in
          match dir_create d name with
          | (d', Ok _) => (d', Ok (prefix, name))
          | (d', Err e) =>
              if errors_is e fs_ErrExist then createPartialLocked attempts' (S i) rand d'
              else (d', Err (ErrorWrap "create attachment partial" e))
          end
      end
  end.

Definition Begin (w : World) (r : BeginRequest) (rand : nat → result bytes) : World * result unit :=
  let m := mgr w in
  if closed m || closing m then (w, Err ErrManagerClosed)
  else if negb (validTransferID (Begin_TransferID r)) ||
          negb (len (Begin_TotalSHA256 r) =? sha256_Size) then (w, Err ErrInvalidTransfer)
  else if negb (validDisplayName (Begin_DisplayName r)) then (w, Err ErrInvalidMetadata)
  else if (Begin_TotalSizeBytes r =? 0) || (Begin_TotalSizeBytes r >? maxFileBytes (limits m)) then
    (w, Err ErrFileLimitExceeded)
  else match parseContentPolicy (Begin_DeclaredExtension r) (Begin_DeclaredContentType r) with
  | Err e => (w, Err e)
  | Ok p =>
      let key := string_of_bytes (Begin_TransferID r) in
      if bool_decide (key ∈ dom (active m)) then (w, Err ErrTransferExists)
      else if bool_decide (key ∈ dom (completed m)) then (w, Err ErrTransferExists)
      else if Z.of_nat (size (active m)) >=? maxActive (limits m) then (w, Err ErrActiveTransferLimit)
      else if (reservedBytes m >? maxSessionBytes (limits m)) ||
              (Begin_TotalSizeBytes r >? maxSessionBytes (limits m) - reservedBytes m) then
        (w, Err ErrSessionQuotaExceeded)
      else match Reserve (agg w) (Begin_TotalSizeBytes r) with
      | (a, Err e) => (w <| agg := a |>, Err e)
      | (a, Ok _) =>
          match createPartialLocked storageNameAttempts 0 rand (dir w) with
          | (d, Err e) => (w <| agg := a |> <| dir := d |>, Err e)
          | (d, Ok (prefix, name)) =>
              let t := {| transferID := Begin_TransferID r;
                          displayName := Begin_DisplayName r;
                          policy := p;
                          totalSize := Begin_TotalSizeBytes r;
                          expectedSHA256 := Begin_TotalSHA256 r;
                          receivedBytes := 0;
                          hasher := [];
                          sniff := [];
                          textValidator := newValidator;
                          storagePrefix := prefix;
                          partialName := name;
                          publicationAttempted := false |} in
              (w <| agg := a |> <| dir := d |>
                 <| mgr := m <| active ::= insert key t |>
                             <| reservedBytes ::= fun n => u64 (n + Begin_TotalSizeBytes r) |> |>,
               Ok tt)
          end
      end
  end.

(** ** Chunk *)

Definition abortAfterWriteFailureLocked (w : World) (key : string) (t : activeTransfer)
    (cause : error) : World * error :=
  match dir_remove (dir w) (partialName t) with
  | (d, Err e) => (w <| dir := d |>, ErrorJoin (ErrorWrap "write attachment chunk" cause)
                                       (ErrorWrap "remove failed attachment partial" e))
  | (d, Ok _) => (releaseActiveLocked (w <| dir := d |>) key t,
                  ErrorWrap "write attachment chunk" cause)
  end.

Definition Chunk (w : World) (r : ChunkRequest) : World * result unit :=
  let m := mgr w in
  if closed m || closing m then (w, Err ErrManagerClosed)
  else if negb (validTransferID (Chunk_TransferID r)) ||
          negb (len (Chunk_ChunkSHA256 r) =? sha256_Size) || (len (Chunk_Data r) =? 0) then
    (w, Err ErrInvalidTransfer)
  else
    let key := string_of_bytes (Chunk_TransferID r) in
    match active m !! key with
    | None => (w, Err ErrTransferNotFound)
    | Some t =>
        if len (Chunk_Data r) >? maxChunkBytes (limits m) then (w, Err ErrChunkLimitExceeded)
        else if negb (Chunk_OffsetBytes r =? receivedBytes t) then (w, Err ErrChunkOffsetMismatch)
        else if len (Chunk_Data r) >? u64 (totalSize t - receivedBytes t) then
          (w, Err ErrTotalSizeMismatch)
        else if negb (equalHash (Sum256 (Chunk_Data r)) (Chunk_ChunkSHA256 r)) then
          (w, Err ErrChunkChecksumMismatch)
        else match dir_writeAt (dir w) (partialName t) (i64 (Chunk_OffsetBytes r)) (Chunk_Data r) with
        | (d, Err e) =>
            let '(w', e') := abortAfterWriteFailureLocked (w <| dir := d |>) key t e in (w', Err e')
        | (d, Ok _) =>
            let remaining := contentSniffBytes - len (sniff t) in
            let t' := t <| hasher ::= fun h => h ++ Chunk_Data r |>
                        <| sniff ::= fun s => if remaining >? 0
                             then s ++ take (Z.to_nat remaining) (Chunk_Data r) else s |>
                        <| textValidator ::= fun v => if text (policy t)
                             then validator_Write v (Chunk_Data r) else v |>
                        <| receivedBytes ::= fun n => u64 (n + len (Chunk_Data r)) |> in
            (w <| dir := d |> <| mgr := m <| active ::= insert key t' |> |>, Ok tt)
        end
    end.

(** ** Complete *)

Definition failTransferLocked (w : World) (key : string) (t : activeTransfer) (cause : error)
    : World * error :=
  match dir_remove (dir w) (partialName t) with
  | (d, Err e) => (w <| dir := d |>,
                   ErrorJoin cause (ErrorWrap "remove rejected attachment partial" e))
  | (d, Ok _) => (releaseActiveLocked (w <| dir := d |>) key t, cause)
  end.

Definition fail (r : World * error) : World * result CompletedAttachment :=
  let '(w, e) := r in (w, Err e).

Definition Complete (w : World) (id : bytes) : World * result CompletedAttachment :=
  let m := mgr w in
  if closed m || closing m then (w, Err ErrManagerClosed)
  else if negb (validTransferID id) then (w, Err ErrInvalidTransfer)
  else
    let key := string_of_bytes id in
    match completed m !! key with
    | Some c => (w, Ok c)
    | None =>
        match active m !! key with
        | None => (w, Err ErrTransferNotFound)
        | Some t =>
            if negb (receivedBytes t =? totalSize t) then
              fail (failTransferLocked w key t ErrTotalSizeMismatch)
            else
              let actualHash := Sum256 (hasher t) in
              if negb (equalHash actualHash (expectedSHA256 t)) then
                fail (failTransferLocked w key t ErrTotalChecksumMismatch)
              else if negb (matchesBytes (policy t) (sniff t) (totalSize t)
                              (validator_Valid (textValidator t))) then
                fail (failTransferLocked w key t ErrContentTypeMismatch)
              else
                let finalName := (storagePrefix t ++ extension (policy t))%string in
                match relativeReference (stg w) finalName with
                | None => (w, Err (ErrorString "build published attachment reference failed"))
                | Some relativePath =>
                    let t' := t <| publicationAttempted := true |> in
                    match dir_rename (dir w) (partialName t) finalName with
                    | (d, Err e) =>
                        (w <| dir := d |> <| mgr := m <| active ::= insert key t' |> |>,
                         Err (ErrorWrap "publish verified attachment" e))
                    | (d, Ok _) =>
                        let c := {| TransferID := transferID t;
                                    DisplayName := displayName t;
                                    RelativePath := relativePath;
                                    ContentType := contentType (policy t);
                                    Extension := extension (policy t);
                                    SizeBytes := totalSize t;
                                    SHA256 := actualHash |} in
                        (w <| dir := d |>
                           <| stg ::= fun s => recordCompletedBytes s (totalSize t) |>
                           <| mgr := m <| active ::= delete key |>
                                       <| completed ::= insert key c |> |>,
                         Ok c)
                    end
                end
        end
    end.

(** ** Queries *)

Definition Outcome (w : World) (id : bytes) : result TransferOutcome :=
  let m := mgr w in
  if closed m || closing m then Err ErrManagerClosed
  else if negb (validTransferID id) then Err ErrInvalidTransfer
  else
    let key := string_of_bytes id in
    match active m !! key with
    | Some t => Ok (mkTransferOutcome TransferDispositionActive (receivedBytes t))
    | None =>
        if bool_decide (key ∈ dom (completed m)) then
          Ok (mkTransferOutcome TransferDispositionCompleted 0)
        else if bool_decide (key ∈ cancelled m) then
          Ok (mkTransferOutcome TransferDispositionCancelled 0)
        else Ok (mkTransferOutcome TransferDispositionUnknown 0)
    end.

(** The loop that validates a selection of transfer IDs before it is used. *)
Fixpoint validateSelection (seen : gset string) (ids : list bytes) : result unit :=
  match ids with
  | [] => Ok tt
  | id :: ids' =>
      if negb (validTransferID id) then Err ErrInvalidTransfer
      else
        let key := string_of_bytes id in
        if bool_decide (key ∈ seen) then Err ErrDuplicateAttachment
        else validateSelection ({[key]} ∪ seen) ids'
  end.

Fixpoint lookupCompleted (m : Manager) (ids : list bytes) : result (list CompletedAttachment) :=
  match ids with
  | [] => Ok []
  | id :: ids' =>
      match completed m !! string_of_bytes id with
      | None => Err ErrAttachmentNotCompleted
      | Some c => rest ← lookupCompleted m ids'; Ok (c :: rest)
      end
  end.

Definition CompletedAttachments (w : World) (ids : list bytes) : result (list CompletedAttachment) :=
  let m := mgr w in
  if closed m || closing m then Err ErrManagerClosed
  else if len ids =? 0 then Err ErrInvalidAttachmentSelection
  else if len ids >? maxPromptActionAttachments then Err ErrAttachmentSelectionLimit
  else _ ← validateSelection ∅ ids; lookupCompleted m ids.

(** ** Discard, Cancel and Close *)

Definition cleanupActiveTransferLocked (d : D) (t : activeTransfer) : D * result unit :=
  if publicationAttempted t then
    match dir_removePublishedLink d (partialName t) (storagePrefix t ++ extension (policy t)) with
    | (d, Err e) => (d, Err e)
    | (d, Ok _) => dir_remove d (partialName t)
    end
  else dir_remove d (partialName t).

(** The branch of an operation that finds an active transfer under the key:
    its files are removed and its quota is released. *)
Definition dropActive (w : World) (key : string) (what : string) : World * result unit :=
  match active (mgr w) !! key with
  | None => (w, Ok tt)
  | Some t =>
      match cleanupActiveTransferLocked (dir w) t with
      | (d, Err e) => (w <| dir := d |>, Err (ErrorWrap what e))
      | (d, Ok _) => (releaseActiveLocked (w <| dir := d |>) key t, Ok tt)
      end
  end.

Definition dropCompleted (w : World) (key : string) : World * result unit :=
  match completed (mgr w) !! key with
  | None => (w, Ok tt)
  | Some c =>
      match dir_remove (dir w) (filepath_Base (RelativePath c)) with
      | (d, Err e) => (w <| dir := d |>, Err (ErrorWrap "discard completed attachment transfer" e))
      | (d, Ok _) =>
          (releaseCompletedLocked
             (w <| dir := d |> <| mgr ::= fun m => m <| completed ::= delete key |> |>)
             (SizeBytes c), Ok tt)
      end
  end.

Fixpoint discardLoop (w : World) (ids : list bytes) : World * result unit :=
  match ids with
  | [] => (w, Ok tt)
  | id :: ids' =>
      let key := string_of_bytes id in
      match dropActive w key "discard active attachment transfer" with
      | (w, Err e) => (w, Err e)
      | (w, Ok _) =>
          match dropCompleted w key with
          | (w, Err e) => (w, Err e)
          | (w, Ok _) => discardLoop (recordCancelledLocked w key) ids'
          end
      end
  end.

Definition Discard (w : World) (ids : list bytes) : World * result unit :=
  let m := mgr w in
  if closed m || closing m then (w, Err ErrManagerClosed)
  else if len ids =? 0 then (w, Err ErrInvalidAttachmentSelection)
  else if len ids >? maxDiscardAttachments then (w, Err ErrAttachmentSelectionLimit)
  else match validateSelection ∅ ids with
       | Err e => (w, Err e)
       | Ok _ => discardLoop w ids
       end.

Definition Cancel (w : World) (id : bytes) : World * result unit :=
  let m := mgr w in
  if closed m || closing m then (w, Err ErrManagerClosed)
  else if negb (validTransferID id) then (w, Err ErrInvalidTransfer)
  else
    let key := string_of_bytes id in
    if bool_decide (key ∈ dom (completed m)) then (w, Ok tt)
    else match dropActive w key "cancel attachment transfer" with
         | (w, Err e) => (w, Err e)
         | (w, Ok _) => (recordCancelledLocked w key, Ok tt)
         end.

(** [errors.Join] of a list of errors. *)
Definition joinErrors (es : list error) : option error :=
  match es with
  | [] => None
  | e :: es' => Some (foldl ErrorJoin e es')
  end.

(** The loop over the active map; [order] is the order in which Go happens to
    visit its keys. *)
Fixpoint closeLoop (w : World) (order : list string) : World * list error :=
  match order with
  | [] => (w, [])
  | key :: order' =>
      match dropActive w key "remove active attachment transfer" with
      | (w, Err e) => let '(w', es) := closeLoop w order' in (w', e :: es)
      | (w, Ok _) => closeLoop w order'
      end
  end.

Definition Close (w : World) (order : list string) : World * result unit :=
  if closed (mgr w) then (w, Ok tt)
  else
    let '(w, es) := closeLoop (w <| mgr ::= fun m => m <| closing := true |> |>) order in
    match joinErrors es with
    | Some e => (w, Err e)
    | None =>
        let w := w <| agg ::= fun a => Release a (reservedBytes (mgr w)) |> in
        let '(d, s, r) := dir_close (dir w) (stg w) in
        (w <| dir := d |> <| stg := releaseTransferManager s |>
           <| mgr ::= fun m => m <| closed := true |> <| closing := false |> |>, r)
    end.

(** ** Constructors *)

Definition NewManager (d : D) (s : SessionStaging) (rand : nat → result bytes)
    : D * SessionStaging * result World :=
  match newTransferManager d s defaultLimits rand with
  | (d, s, Err e) => (d, s, Err e)
  | (d, s, Ok m) => (d, s, Ok (mkWorld m s None d))
  end.

(** When the bytes inherited from an earlier manager do not fit the ceiling,
    the manager is closed again; [agg] of the returned triple is the tracker
    after the call. *)
Definition NewManagerWithAggregate (d : D) (s : SessionStaging) (a : option AggregateTracker)
    (rand : nat → result bytes) : D * SessionStaging * option AggregateTracker * result World :=
  match newTransferManager d s defaultLimits rand with
  | (d, s, Err e) => (d, s, a, Err e)
  | (d, s, Ok m) =>
      match Reserve a (completedBytesReserved s) with
      | (a, Err e) =>
          let w := (Close (mkWorld m s a d) []).1 in
          (dir w, stg w, agg w, Err e)
      | (a, Ok _) => (d, s, a, Ok (mkWorld m s a d))
      end
  end.

End Transfer.
#[global] Existing Instance World_eta.
#[global] Arguments createPartialLocked : simpl never.
#[global] Arguments Reserve : simpl never.
#[global] Arguments Release : simpl never.
