(* ===== verification/TransferQuota.v ===== *)
(** * Quotas of attachment transfers

    The byte counters of the manager, of the session staging and of the shared
    aggregate agree with the transfers the manager holds, in every state a
    sequence of operations reaches, whatever the storage layer answers; the
    aggregate counts exactly what is reserved and what failed [Begin]s leak. *)

From S2P Require Import Prelude.
From S2P Require Import Utf8.
From S2P Require Import Sha256.
From S2P Require Import ContentPolicy.
From S2P Require Import Aggregate.
From S2P Require Import Transfer.

(** ** Sequences of operations *)

Inductive TransferOp :=
  | OpBegin (r : BeginRequest) (rand : nat → result bytes)
  | OpChunk (r : ChunkRequest)
  | OpComplete (id : bytes)
  | OpDiscard (ids : list bytes)
  | OpCancel (id : bytes)
  | OpClose (order : list string).

Inductive TransferResult :=
  | Done (r : result unit)
  | Attached (r : result CompletedAttachment).

(** What the storage promises about the counters of the session staging: a
    handle is counted, nothing else is touched. *)
Class StagingCounts (D : Type) `{StagingOps D} := {
  dir_open_counts d s rand d' s' r :
    dir_open d s rand = (d', s', r) →
    completedBytesReserved s' = completedBytesReserved s ∧ cleaned s' = cleaned s ∧
    transferManagerOpen s' = transferManagerOpen s;
  dir_close_counts d s d' s' r :
    dir_close d s = (d', s', r) →
    completedBytesReserved s' = completedBytesReserved s ∧ cleaned s' = cleaned s ∧
    transferManagerOpen s' = transferManagerOpen s;
}.

Section Quota.
Context {D : Type} {ops : StagingOps D} {counts : StagingCounts D} {gm : GoMime}.
Implicit Types (w : World (D := D)).

Definition transfer_step w (op : TransferOp) : World * TransferResult :=
  match op with
  | OpBegin r rand => let '(w, r) := Begin w r rand in (w, Done r)
  | OpChunk r => let '(w, r) := Chunk w r in (w, Done r)
  | OpComplete id => let '(w, r) := Complete w id in (w, Attached r)
  | OpDiscard ids => let '(w, r) := Discard w ids in (w, Done r)
  | OpCancel id => let '(w, r) := Cancel w id in (w, Done r)
  | OpClose order => let '(w, r) := Close w order in (w, Done r)
  end.

Fixpoint transfer_run w (os : list TransferOp) : World * list (TransferOp * TransferResult) :=
  match os with
  | [] => (w, [])
  | op :: os' =>
      let '(w1, r) := transfer_step w op in
      let '(w2, tr) := transfer_run w1 os' in (w2, (op, r) :: tr)
  end.

(** The sizes of a request are 64-bit. *)
Definition op_ok (op : TransferOp) : Prop :=
  match op with
  | OpBegin r _ => is_u64 (Begin_TotalSizeBytes r)
  | OpChunk r => is_u64 (Chunk_OffsetBytes r)
  | _ => True
  end.

(** Rule induction over a run: an invariant of the steps holds at its end. *)
Lemma transfer_run_ind (P : World → Prop) :
  (∀ w op w' r, op_ok op → P w → transfer_step w op = (w', r) → P w') →
  ∀ os w w' tr, Forall op_ok os → P w → transfer_run w os = (w', tr) → P w'.
Proof.
  intros Hstep os. induction os as [|op os IH]; intros w w' tr Hok HP Hrun; simplify_eq/=; [done|].
  inv Hok. destruct (transfer_step w op) as [w1 r] eqn:Hs.
  destruct (transfer_run w1 os) as [w2 tr2] eqn:Hr. simplify_eq/=. eauto.
Qed.

(** ** The invariant *)

Definition limits_ok (l : managerLimits) : Prop :=
  0 < maxFileBytes l < 2 ^ 63 ∧ 0 < maxSessionBytes l < 2 ^ 64 ∧ 0 < maxActive l.

Variable l : managerLimits.

Record quota_inv (base : Z) w : Prop := mkQuotaInv {
  q_same : limits (mgr w) = l;
  q_limits : limits_ok (limits (mgr w));
  q_base : 0 <= base;
  q_reserved : reservedBytes (mgr w) =
    base + map_sum totalSize (active (mgr w)) + map_sum SizeBytes (completed (mgr w));
  q_bound : reservedBytes (mgr w) <= maxSessionBytes (limits (mgr w));
  q_staged : completedBytesReserved (stg w) = base + map_sum SizeBytes (completed (mgr w));
  q_active : map_Forall (fun _ t => 0 < totalSize t <= maxFileBytes (limits (mgr w)))
               (active (mgr w));
  q_completed : map_Forall (fun _ c => 0 < SizeBytes c <= maxFileBytes (limits (mgr w)))
                  (completed (mgr w));
  q_count : Z.of_nat (size (active (mgr w))) <= maxActive (limits (mgr w));
  q_disjoint : ∀ key t, active (mgr w) !! key = Some t → completed (mgr w) !! key = None;
}.

(** The invariant reads the counters and the two maps only. *)
Lemma quota_inv_frame base w w' :
  limits (mgr w') = limits (mgr w) → active (mgr w') = active (mgr w) →
  completed (mgr w') = completed (mgr w) → reservedBytes (mgr w') = reservedBytes (mgr w) →
  completedBytesReserved (stg w') = completedBytesReserved (stg w) →
  quota_inv base w → quota_inv base w'.
Proof. intros E1 E2 E3 E4 E5 []. constructor; rewrite ?E1, ?E2, ?E3, ?E4, ?E5; done. Qed.

Lemma map_sum_active_nonneg base w : quota_inv base w → 0 <= map_sum totalSize (active (mgr w)).
Proof.
  intros []. apply map_sum_nonneg. eapply map_Forall_impl; [done|]. simpl. lia.
Qed.

Lemma map_sum_completed_nonneg base w :
  quota_inv base w → 0 <= map_sum SizeBytes (completed (mgr w)).
Proof.
  intros []. apply map_sum_nonneg. eapply map_Forall_impl; [done|]. simpl. lia.
Qed.

(** ** The primitive steps *)

Lemma map_Forall_delete' {A} (P : string → A → Prop) (m : gmap string A) k :
  map_Forall P m → map_Forall P (delete k m).
Proof. intros Hm i x [_ ?]%lookup_delete_Some. eauto. Qed.

Lemma releaseActive_quota base w key t :
  quota_inv base w → active (mgr w) !! key = Some t → quota_inv base (releaseActiveLocked w key t).
Proof.
  intros Hq Ht. pose proof (map_sum_completed_nonneg _ _ Hq) as Hc.
  pose proof (map_sum_delete totalSize _ _ _ Ht) as Hsum.
  assert (0 <= map_sum totalSize (delete key (active (mgr w)))) as Ha.
  { apply map_sum_nonneg, map_Forall_delete'. eapply map_Forall_impl; [apply Hq|]. simpl. lia. }
  destruct Hq as [? ? ? Hr ? ? Hact ? Hcnt ?]. pose proof (Hact _ _ Ht) as Ht0; simpl in Ht0.
  constructor; simpl; try done; unfold subClamped; try (case_match; lia).
  - by apply map_Forall_delete'.
  - rewrite map_size_delete_Some by eauto. lia.
  - intros k t' [_ ?]%lookup_delete_Some. eauto.
Qed.

Lemma releaseCompleted_quota base w key c :
  quota_inv base w → completed (mgr w) !! key = Some c →
  quota_inv base
    (releaseCompletedLocked (w <| mgr ::= fun m => m <| completed ::= delete key |> |>) (SizeBytes c)).
Proof.
  intros Hq Ht. pose proof (map_sum_active_nonneg _ _ Hq) as Hc.
  pose proof (map_sum_delete SizeBytes _ _ _ Ht) as Hsum.
  assert (0 <= map_sum SizeBytes (delete key (completed (mgr w)))) as Ha.
  { apply map_sum_nonneg, map_Forall_delete'. eapply map_Forall_impl; [apply Hq|]. simpl. lia. }
  destruct Hq as [? ? ? Hr ? ? ? Hcom ? ?]. pose proof (Hcom _ _ Ht) as Ht0; simpl in Ht0.
  constructor; simpl; try done; unfold subClamped, releaseCompletedBytes;
    try (repeat case_match; simpl; lia).
  - by apply map_Forall_delete'.
  - intros k t' ?. rewrite lookup_delete_None. eauto.
Qed.

Lemma recordCancelled_fields w key :
  let w' := recordCancelledLocked w key in
  stg w' = stg w ∧ agg w' = agg w ∧ dir w' = dir w ∧
  limits (mgr w') = limits (mgr w) ∧ active (mgr w') = active (mgr w) ∧
  completed (mgr w') = completed (mgr w) ∧ reservedBytes (mgr w') = reservedBytes (mgr w) ∧
  closing (mgr w') = closing (mgr w) ∧ closed (mgr w') = closed (mgr w).
Proof. unfold recordCancelledLocked. simpl. repeat case_match; done. Qed.

Lemma recordCancelled_quota base w key :
  quota_inv base w → quota_inv base (recordCancelledLocked w key).
Proof.
  destruct (recordCancelled_fields w key) as (E1 & _ & _ & E2 & E3 & E4 & E5 & _).
  apply quota_inv_frame; auto; by rewrite E1.
Qed.

Lemma set_dir_quota base w d : quota_inv base w → quota_inv base (mkWorld (mgr w) (stg w) (agg w) d).
Proof. by apply quota_inv_frame. Qed.

Lemma set_agg_quota base w a d :
  quota_inv base w → quota_inv base (mkWorld (mgr w) (stg w) a d).
Proof. by apply quota_inv_frame. Qed.

Lemma set_active_quota base w key t t' :
  quota_inv base w → active (mgr w) !! key = Some t → totalSize t' = totalSize t →
  quota_inv base (w <| mgr := (mgr w) <| active ::= insert key t' |> |>).
Proof.
  intros [] Ht Hsz. constructor; simpl; try done.
  - by rewrite (map_sum_update _ _ _ t).
  - apply map_Forall_insert_2; [|done]. rewrite Hsz. eauto.
  - by rewrite map_size_insert_Some by eauto.
  - intros k t0 [[<- <-]|[? ?]]%lookup_insert_Some; eauto.
Qed.

Lemma releaseActive_dir_quota base w d key t :
  quota_inv base w → active (mgr w) !! key = Some t →
  quota_inv base (releaseActiveLocked (mkWorld (mgr w) (stg w) (agg w) d) key t).
Proof. intros ??. by apply releaseActive_quota; [apply set_dir_quota|]. Qed.

Hint Resolve set_dir_quota set_agg_quota releaseActive_dir_quota recordCancelled_quota : vb.

(** ** The operations *)

Lemma dropActive_quota base w key what w' r :
  quota_inv base w → dropActive w key what = (w', r) → quota_inv base w'.
Proof. unfold dropActive. intros Hq Hd. go_cases; auto with vb. Qed.

Lemma dropCompleted_quota base w key w' r :
  quota_inv base w → dropCompleted w key = (w', r) → quota_inv base w'.
Proof.
  unfold dropCompleted. intros Hq Hd. go_cases; auto with vb.
  by apply (releaseCompleted_quota base (mkWorld (mgr w) (stg w) (agg w) _)); auto with vb.
Qed.

Lemma discardLoop_quota base ids w w' r :
  quota_inv base w → discardLoop w ids = (w', r) → quota_inv base w'.
Proof.
  revert w. induction ids as [|id ids IH]; intros w Hq Hd; simplify_eq/=; [done|].
  go_cases; eauto using dropActive_quota, dropCompleted_quota with vb.
Qed.

Lemma closeLoop_quota base order w w' es :
  quota_inv base w → closeLoop w order = (w', es) → quota_inv base w'.
Proof.
  revert w es. induction order as [|key order IH]; intros w es Hq Hd; simplify_eq/=; [done|].
  go_cases; eauto using dropActive_quota.
Qed.

Lemma Begin_quota base w r rand w' res :
  is_u64 (Begin_TotalSizeBytes r) → quota_inv base w →
  Begin w r rand = (w', res) → quota_inv base w'.
Proof.
  unfold Begin. intros Hr Hq HB. go_cases; auto with vb. split_bool.
  destruct Hq as [? Hl ? ? ? ? ? ? ? ?]. unfold limits_ok, is_u64 in *.
  assert (active (mgr w) !! string_of_bytes (Begin_TransferID r) = None)
    by (by apply not_elem_of_dom).
  assert (u64 (reservedBytes (mgr w) + Begin_TotalSizeBytes r) =
          reservedBytes (mgr w) + Begin_TotalSizeBytes r) as Hu.
  { pose proof (map_sum_nonneg totalSize (active (mgr w))) as Ha.
    pose proof (map_sum_nonneg SizeBytes (completed (mgr w))) as Hc.
    assert (0 <= map_sum totalSize (active (mgr w)))
      by (apply Ha; eapply map_Forall_impl; [done|]; simpl; lia).
    assert (0 <= map_sum SizeBytes (completed (mgr w)))
      by (apply Hc; eapply map_Forall_impl; [done|]; simpl; lia).
    apply u64_small. unfold is_u64. lia. }
  constructor; simpl; rewrite ?Hu; try done; try lia.
  - rewrite map_sum_insert by done. simpl. lia.
  - apply map_Forall_insert_2; [simpl; lia|done].
  - rewrite map_size_insert_None by done. lia.
  - intros k t0 [[<- <-]|[? ?]]%lookup_insert_Some; [by apply not_elem_of_dom|eauto].
Qed.

Lemma Chunk_quota base w r w' res :
  quota_inv base w → Chunk w r = (w', res) → quota_inv base w'.
Proof.
  unfold Chunk, abortAfterWriteFailureLocked. intros Hq HC. go_cases; auto with vb.
  all: by eapply (set_active_quota base (mkWorld (mgr w) (stg w) (agg w) _) _ a); auto with vb.
Qed.

Lemma publish_quota base w key t c :
  quota_inv base w → active (mgr w) !! key = Some t → SizeBytes c = totalSize t →
  quota_inv base (w <| stg ::= fun s => recordCompletedBytes s (totalSize t) |>
    <| mgr := (mgr w) <| active ::= delete key |> <| completed ::= insert key c |> |>).
Proof.
  intros Hq Ht Hc. pose proof (map_sum_completed_nonneg _ _ Hq).
  pose proof (map_sum_delete totalSize _ _ _ Ht) as Hsum.
  assert (0 <= map_sum totalSize (delete key (active (mgr w)))) as Ha.
  { apply map_sum_nonneg, map_Forall_delete'. eapply map_Forall_impl; [apply Hq|]. simpl. lia. }
  destruct Hq as [? Hl ? ? ? ? Hact ? ? Hdis]. pose proof (Hact _ _ Ht) as Ht0; simpl in Ht0.
  unfold limits_ok in Hl. pose proof (Hdis _ _ Ht).
  constructor; simpl; try done; rewrite ?map_sum_insert by done; try lia.
  - rewrite u64_small by (unfold is_u64; lia). lia.
  - by apply map_Forall_delete'.
  - apply map_Forall_insert_2; [lia|done].
  - rewrite map_size_delete_Some by eauto. lia.
  - intros k t' [? ?]%lookup_delete_Some. rewrite lookup_insert_ne by done. eauto.
Qed.

Lemma Complete_quota base w id w' res :
  quota_inv base w → Complete w id = (w', res) → quota_inv base w'.
Proof.
  unfold Complete, fail, failTransferLocked. intros Hq HC. go_cases; auto with vb.
  - by apply (publish_quota base (mkWorld (mgr w) (stg w) (agg w) _) _ a); auto with vb.
  - by apply (set_active_quota base (mkWorld (mgr w) (stg w) (agg w) _) _ a); auto with vb.
Qed.

Lemma Close_quota base w order w' res :
  quota_inv base w → Close w order = (w', res) → quota_inv base w'.
Proof.
  unfold Close. intros Hq HC. go_cases; auto.
  all: match goal with H : closeLoop _ _ = _ |- _ => apply (closeLoop_quota base) in H end;
    [try done|by apply quota_inv_frame with (w := w)].
  eapply quota_inv_frame with (w := w0); try done. simpl.
  match goal with H : dir_close _ _ = _ |- _ => apply dir_close_counts in H end. naive_solver.
Qed.

Lemma step_quota base w op w' r :
  op_ok op → quota_inv base w → transfer_step w op = (w', r) → quota_inv base w'.
Proof.
  destruct op; simpl; intros Hok Hq Hs; go_cases;
    eauto using Begin_quota, Chunk_quota, Complete_quota, Close_quota.
  - unfold Discard in *. go_cases; eauto using discardLoop_quota.
  - unfold Cancel in *. go_cases; eauto using dropActive_quota with vb.
Qed.

(** ** Opening a manager *)

Lemma newTransferManager_Ok d s lim rand d' s' m :
  newTransferManager d s lim rand = (d', s', Ok m) →
  m = newManager lim (completedBytesReserved s) ∧
  completedBytesReserved s' = completedBytesReserved s ∧
  transferManagerOpen s = false ∧ transferManagerOpen s' = true ∧ cleaned s' = false.
Proof.
  unfold newTransferManager, claimTransferManager. intros HN. go_cases.
  match goal with H : dir_open _ _ _ = _ |- _ => apply dir_open_counts in H end.
  simpl in *. naive_solver congruence.
Qed.

Lemma newManager_quota s d a :
  limits_ok l → 0 <= completedBytesReserved s <= maxSessionBytes l →
  quota_inv (completedBytesReserved s) (mkWorld (newManager l (completedBytesReserved s)) s a d).
Proof.
  intros Hl Hb. constructor; simpl; rewrite ?map_sum_empty, ?map_size_empty; unfold limits_ok in *;
    try done; try lia.
Qed.

Lemma defaultLimits_ok : limits_ok defaultLimits.
Proof. unfold limits_ok. split_and!; reflexivity. Qed.

Lemma NewManagerWithAggregate_Ok d s a rand d' s' a' w :
  NewManagerWithAggregate d s a rand = (d', s', a', Ok w) →
  mgr w = newManager defaultLimits (completedBytesReserved s) ∧
  completedBytesReserved (stg w) = completedBytesReserved s ∧ agg w = a' ∧ dir w = d' ∧
  Reserve a (completedBytesReserved s) = (a', Ok tt).
Proof.
  unfold NewManagerWithAggregate. intros HN. go_cases.
  match goal with H : newTransferManager _ _ _ _ = _ |- _ =>
    apply newTransferManager_Ok in H as (-> & Hs & _) end.
  rewrite Hs in *. repeat match goal with u : unit |- _ => destruct u end. done.
Qed.

End Quota.

Section QuotaTheorem.
Context {D : Type} {ops : StagingOps D} {counts : StagingCounts D} {gm : GoMime}.

(** From a freshly opened manager, any sequence of operations leaves the
    reserved bytes equal to the bytes inherited from earlier managers of the
    session plus the declared sizes of the active and the completed transfers;
    they never exceed the session quota, at most four transfers are active, no
    transfer exceeds the file limit, no identifier is both active and completed,
    and the session staging counts the completed bytes. *)
Theorem session_quota_respected d s a rand d' s' a' w os w' tr :
  0 <= completedBytesReserved s <= defaultMaxSessionBytes →
  NewManagerWithAggregate d s a rand = (d', s', a', Ok w) →
  Forall op_ok os → transfer_run w os = (w', tr) →
  quota_inv defaultLimits (completedBytesReserved s) w'.
Proof.
  intros Hb HN Hok Hrun. apply NewManagerWithAggregate_Ok in HN as (Hm & Hs & _).
  eapply transfer_run_ind; [eauto using step_quota|done| |done].
  destruct w as [m st ag di]; simpl in *; subst m. rewrite <- Hs in *.
  apply newManager_quota; [apply defaultLimits_ok|done].
Qed.
End QuotaTheorem.

(** * The shared aggregate and the transfers of one manager

    The tracker of [aggregate.go] is shared by the managers of all sessions.
    While one manager works, the bytes the others hold are a constant; the
    manager's own share is what it has reserved, and nothing once it is closed. *)

Section AggregateAccounting.
Context {D : Type} {ops : StagingOps D} {counts : StagingCounts D} {gm : GoMime}.
Variables (l : managerLimits) (mx : Z).
Implicit Types (w : World (D := D)).

(** The bytes a manager accounts for in the aggregate. *)
Definition charged w : Z := if closed (mgr w) then 0 else reservedBytes (mgr w).

Record agg_inv (base other : Z) w : Prop := mkAggInv {
  a_quota : quota_inv l base w;
  a_other : 0 <= other;
  a_max : MaxBytes (agg w) = mx;
  a_wf : aggregate_wf (agg w);
  a_total : limited (agg w) = true → TotalBytes (agg w) = other + charged w;
}.

(** The errors with which [Begin] returns after it has reserved bytes in the
    aggregate: those of [createPartialLocked]. *)
Definition storage_failure (e : error) : bool :=
  match e with
  | ErrorString s =>
      bool_decide (s = "generate attachment storage identifier failed"%string) ||
      bool_decide (s = "create unique attachment partial failed"%string)
  | ErrorWrap s _ => bool_decide (s = "create attachment partial"%string)
  | ErrorJoin _ _ => false
  end.

(** The bytes an operation leaves behind in the aggregate. *)
Definition op_leak (step : TransferOp * TransferResult) : Z :=
  match step with
  | (OpBegin r _, Done (Err e)) => if storage_failure e then Begin_TotalSizeBytes r else 0
  | _ => 0
  end.

Definition leaked (tr : list (TransferOp * TransferResult)) : Z :=
  foldr (fun step n => op_leak step + n) 0 tr.

Lemma agg_inv_frame base other w w' :
  quota_inv l base w' → agg w' = agg w → reservedBytes (mgr w') = reservedBytes (mgr w) →
  closed (mgr w') = closed (mgr w) → agg_inv base other w → agg_inv base other w'.
Proof.
  intros Hq E1 E2 E3 []. constructor; rewrite ?E1; unfold charged in *; rewrite ?E2, ?E3; done.
Qed.

Lemma reserved_nonneg base w : quota_inv l base w → 0 <= reservedBytes (mgr w).
Proof.
  intros Hq. pose proof (map_sum_active_nonneg _ _ _ Hq). pose proof (map_sum_completed_nonneg _ _ _ Hq).
  destruct Hq. lia.
Qed.

(** ** Releases *)

Lemma Release_agg base other w w' n :
  agg_inv base other w → closed (mgr w) = false → 0 <= n <= reservedBytes (mgr w) →
  quota_inv l base w' → agg w' = Release (agg w) n → charged w' = reservedBytes (mgr w) - n →
  agg_inv base other w'.
Proof.
  intros [? ? ? Hwf Ht] Hc Hn Hq Ha Hch.
  destruct (Release_spec (agg w) n Hwf ltac:(lia)) as (Hwf' & Hl & Hm & Htot).
  constructor; try done; rewrite Ha; [congruence|done|]. intros Hlim. rewrite Htot. rewrite Hl in *.
  rewrite Hlim. rewrite Ht, Hch by done. unfold charged. rewrite Hc. lia.
Qed.

Lemma releaseActive_agg base other w d key t :
  agg_inv base other w → closed (mgr w) = false → active (mgr w) !! key = Some t →
  agg_inv base other (releaseActiveLocked (mkWorld (mgr w) (stg w) (agg w) d) key t).
Proof.
  intros Ha Hc Ht. pose proof (a_quota _ _ _ Ha) as Hq.
  pose proof (map_sum_delete totalSize _ _ _ Ht) as Hsum.
  assert (0 <= totalSize t <= reservedBytes (mgr w)).
  { pose proof (q_active _ _ _ Hq _ _ Ht) as Hp. simpl in Hp.
    assert (0 <= map_sum totalSize (delete key (active (mgr w)))).
    { apply map_sum_nonneg, map_Forall_delete'.
      eapply map_Forall_impl; [apply (q_active _ _ _ Hq)|]. simpl. lia. }
    pose proof (map_sum_completed_nonneg _ _ _ Hq).
    rewrite (q_reserved _ _ _ Hq). destruct Hq. lia. }
  eapply Release_agg with (w := w) (n := totalSize t); try done.
  { by apply releaseActive_dir_quota. }
  unfold charged. simpl. rewrite Hc. unfold subClamped. case_match; lia.
Qed.

Lemma dropActive_agg base other w key what w' r :
  agg_inv base other w → closed (mgr w) = false → dropActive w key what = (w', r) →
  agg_inv base other w' ∧ closed (mgr w') = false ∧ completed (mgr w') = completed (mgr w).
Proof.
  unfold dropActive. intros Ha Hc Hd. go_cases; split_and!; auto using releaseActive_agg.
  eapply agg_inv_frame with (w := w); [|done..]. apply set_dir_quota, Ha.
Qed.

Lemma dropCompleted_agg base other w key w' r :
  agg_inv base other w → closed (mgr w) = false → dropCompleted w key = (w', r) →
  agg_inv base other w' ∧ closed (mgr w') = false.
Proof.
  intros Ha Hc Hd. pose proof (dropCompleted_quota _ _ _ _ _ _ (a_quota _ _ _ Ha) Hd) as Hq'.
  pose proof (a_quota _ _ _ Ha) as Hq. unfold dropCompleted in Hd. go_cases; split; auto.
  - match goal with H : completed _ !! _ = Some _ |- _ => rename H into Ht end.
    pose proof (map_sum_delete SizeBytes _ _ _ Ht) as Hsum.
    assert (0 <= SizeBytes c <= reservedBytes (mgr w)).
    { pose proof (q_completed _ _ _ Hq _ _ Ht) as Hp. simpl in Hp.
      assert (0 <= map_sum SizeBytes (delete key (completed (mgr w)))).
      { apply map_sum_nonneg, map_Forall_delete'.
        eapply map_Forall_impl; [apply (q_completed _ _ _ Hq)|]. simpl. lia. }
      pose proof (map_sum_active_nonneg _ _ _ Hq).
      rewrite (q_reserved _ _ _ Hq). destruct Hq. lia. }
    eapply Release_agg with (w := w) (n := SizeBytes c); try done.
    unfold charged. simpl. rewrite Hc. unfold subClamped. case_match; lia.
  - by eapply agg_inv_frame with (w := w); [|done..].
Qed.

Lemma recordCancelled_agg base other w key :
  agg_inv base other w → agg_inv base other (recordCancelledLocked w key).
Proof.
  intros Ha. pose proof (recordCancelled_quota _ _ _ key (a_quota _ _ _ Ha)).
  destruct (recordCancelled_fields w key) as (? & ? & ? & ? & ? & ? & ? & ? & ?).
  by eapply agg_inv_frame with (w := w); [|done..].
Qed.

Lemma discardLoop_agg base other ids w w' r :
  agg_inv base other w → closed (mgr w) = false → discardLoop w ids = (w', r) →
  agg_inv base other w'.
Proof.
  revert w. induction ids as [|id ids IH]; intros w Ha Hc Hd; simplify_eq/=; [done|].
  destruct (dropActive w _ _) as [w1 [[]|e]] eqn:H1;
    apply (dropActive_agg base other) in H1 as (Ha1 & Hc1 & _); try done; simplify_eq; [|done].
  destruct (dropCompleted w1 _) as [w2 [[]|e]] eqn:H2;
    apply (dropCompleted_agg base other) in H2 as (Ha2 & Hc2); try done; simplify_eq; [|done].
  eapply IH; [by apply recordCancelled_agg| |done].
  by destruct (recordCancelled_fields w2 (string_of_bytes id)) as (? & ? & ? & ? & ? & ? & ? & ? & ->).
Qed.

Lemma closeLoop_agg base other order w w' es :
  agg_inv base other w → closed (mgr w) = false → closeLoop w order = (w', es) →
  agg_inv base other w' ∧ closed (mgr w') = false.
Proof.
  revert w es. induction order as [|key order IH]; intros w es Ha Hc Hd; simplify_eq/=; [done|].
  destruct (dropActive w _ _) as [w1 [u|e]] eqn:H1;
    apply (dropActive_agg base other) in H1 as (Ha1 & Hc1 & _); try done.
  - eauto.
  - destruct (closeLoop w1 order) eqn:H2. simplify_eq. eauto.
Qed.

(** ** The operations *)

Lemma createPartialLocked_error n i rand (d d' : D) e :
  createPartialLocked n i rand d = (d', Err e) → storage_failure e = true.
Proof.
  revert i d. induction n as [|n IH]; intros i d H;
    unfold createPartialLocked in H; fold (@createPartialLocked D ops) in H; go_cases; eauto.
  by injection H as _ <-.
Qed.

Lemma parseContentPolicy_error ext ty e :
  parseContentPolicy ext ty = Err e → e = ErrUnsupportedContent.
Proof. unfold parseContentPolicy. intros H. by go_cases. Qed.

Lemma Begin_agg base other w r rand w' res :
  is_u64 (Begin_TotalSizeBytes r) → agg_inv base other w → Begin w r rand = (w', res) →
  agg_inv base (other + op_leak (OpBegin r rand, Done res)) w'.
Proof.
  intros Hr Ha HB. pose proof (Begin_quota _ _ _ _ _ _ _ Hr (a_quota _ _ _ Ha) HB) as Hq'.
  unfold Begin in HB.
  repeat (match type of HB with context [if ?b then (w, Err _) else _] =>
    destruct b eqn:?; [simplify_eq/=; rewrite Z.add_0_r; exact Ha|] end).
  destruct (parseContentPolicy _ _) as [p|e] eqn:Hp; simplify_eq.
  2:{ apply parseContentPolicy_error in Hp as ->. simpl. rewrite Z.add_0_r. exact Ha. }
  repeat (match type of HB with context [if ?b then (w, Err _) else _] =>
    destruct b eqn:?; [simplify_eq/=; rewrite Z.add_0_r; exact Ha|] end).
  split_bool. pose proof (a_quota _ _ _ Ha) as Hq. pose proof (reserved_nonneg _ _ Hq).
  destruct (q_limits _ _ _ Hq) as (? & ? & ?). unfold is_u64 in Hr.
  destruct (Reserve (agg w) _) as [a' [[]|e]] eqn:HR;
    apply Reserve_spec in HR as (Hwf & Hl & Hm & Htot); try apply Ha; try lia.
  2:{ destruct Htot as (-> & -> & _). simplify_eq. simpl. rewrite Z.add_0_r.
      eapply agg_inv_frame with (w := w); try done. }
  destruct Ha as [_ Ho Hmx _ Ha]. rewrite Hmx in Hm.
  destruct (createPartialLocked _ _ _ _) as [d [[prefix name]|e]] eqn:HC; simplify_eq/=.
  - rewrite Z.add_0_r. constructor; simpl; try done. rewrite Hl. intros Hlim.
    rewrite Htot, Hlim, Ha by done. unfold charged. simpl.
    replace (closed (mgr w)) with false by done. rewrite u64_small; [lia|]. unfold is_u64. lia.
  - rewrite (createPartialLocked_error _ _ _ _ _ _ HC). constructor; simpl; try done; [lia|].
    rewrite Hl. intros Hlim. rewrite Htot, Hlim, Ha by done. unfold charged. simpl. lia.
Qed.

Lemma Chunk_agg base other w r w' res :
  agg_inv base other w → Chunk w r = (w', res) → agg_inv base other w'.
Proof.
  intros Ha HC. pose proof (Chunk_quota _ _ _ _ _ _ (a_quota _ _ _ Ha) HC) as Hq'.
  unfold Chunk, abortAfterWriteFailureLocked in HC. destruct (closed (mgr w)) eqn:?; simpl in HC; [by simplify_eq|].
  go_cases; auto using releaseActive_agg; by eapply agg_inv_frame with (w := w).
Qed.

Lemma Complete_agg base other w id w' res :
  agg_inv base other w → Complete w id = (w', res) → agg_inv base other w'.
Proof.
  intros Ha HC. pose proof (Complete_quota _ _ _ _ _ _ (a_quota _ _ _ Ha) HC) as Hq'.
  unfold Complete, fail, failTransferLocked in HC. destruct (closed (mgr w)) eqn:?; simpl in HC; [by simplify_eq|].
  go_cases; auto using releaseActive_agg; by eapply agg_inv_frame with (w := w).
Qed.

Lemma Close_agg base other w order w' res :
  agg_inv base other w → Close w order = (w', res) → agg_inv base other w'.
Proof.
  intros Ha HC. pose proof (Close_quota _ _ _ _ _ _ (a_quota _ _ _ Ha) HC) as Hq'.
  unfold Close in HC. destruct (closed (mgr w)) eqn:Hc; [by simplify_eq|].
  destruct (closeLoop _ order) as [w1 es] eqn:HL.
  apply (closeLoop_agg base other) in HL as [Ha1 Hc1]; [|by eapply agg_inv_frame with (w := w); try done; apply quota_inv_frame with (w := w), Ha|done].
  destruct (joinErrors es); [by simplify_eq|].
  destruct (dir_close _ _) as [[d s] r] eqn:HD. simplify_eq/=.
  pose proof (reserved_nonneg _ _ (a_quota _ _ _ Ha1)).
  eapply Release_agg with (w := w1) (n := reservedBytes (mgr w1)); try done;
    unfold charged; simpl; lia.
Qed.

Lemma step_agg base other w op w' r :
  op_ok op → agg_inv base other w → transfer_step w op = (w', r) →
  agg_inv base (other + op_leak (op, r)) w'.
Proof.
  intros Hok Ha Hs. destruct op; cbn [transfer_step] in Hs;
    repeat case_match; simplify_eq; [by eapply Begin_agg|..]; simpl; rewrite Z.add_0_r;
    eauto using Chunk_agg, Complete_agg, Close_agg.
  - unfold Discard in *. destruct (closed (mgr w)) eqn:?; go_cases; eauto using discardLoop_agg.
  - unfold Cancel in *. destruct (closed (mgr w)) eqn:?; go_cases; auto;
    match goal with H : dropActive _ _ _ = _ |- _ =>
      apply (dropActive_agg base other) in H as (? & ? & _) end; auto using recordCancelled_agg.
Qed.

Lemma run_agg base os : ∀ other w w' tr,
  Forall op_ok os → agg_inv base other w → transfer_run w os = (w', tr) →
  agg_inv base (other + leaked tr) w'.
Proof.
  induction os as [|op os IH]; intros other w w' tr Hok Ha Hr; simplify_eq/=; [by rewrite Z.add_0_r|].
  inv Hok. destruct (transfer_step w op) as [w1 r] eqn:Hs.
  destruct (transfer_run w1 os) as [w2 tr2] eqn:Hr2. simplify_eq/=.
  rewrite Z.add_assoc. eauto using step_agg.
Qed.
End AggregateAccounting.

Section AggregateTheorems.
Context {D : Type} {ops : StagingOps D} {counts : StagingCounts D} {gm : GoMime}.

(** Whatever operations a manager runs, the shared tracker stays within
    its ceiling and counts exactly the bytes of the other sessions, plus the
    bytes the manager has reserved (none once it is closed), plus the declared
    sizes of those [Begin] requests that failed to create their partial file
    after reserving. *)
Theorem aggregate_counts_reservations d s a rand d' s' a' w os w' tr :
  aggregate_wf a → limited a = true →
  0 <= completedBytesReserved s <= defaultMaxSessionBytes →
  NewManagerWithAggregate d s a rand = (d', s', a', Ok w) →
  Forall op_ok os → transfer_run w os = (w', tr) →
  TotalBytes (agg w') = TotalBytes a + leaked tr + charged w' ∧
  TotalBytes (agg w') <= MaxBytes a.
Proof.
  intros Hwf Hlim Hb HN Hok Hrun. apply NewManagerWithAggregate_Ok in HN as (Hm & Hs & Ha & _ & HR).
  apply Reserve_spec in HR as (Hwf' & Hl & Hmx & Htot); [|done|unfold defaultMaxSessionBytes in *; lia].
  assert (agg_inv defaultLimits (MaxBytes a) (completedBytesReserved s) (TotalBytes a) w) as Hinv.
  { constructor; rewrite ?Ha; try done.
    - destruct w as [m st ag di]; simpl in *; subst m. rewrite <- Hs in *.
      apply newManager_quota; [apply defaultLimits_ok|done].
    - destruct a; simpl in *; [|done]. naive_solver.
    - intros _. unfold charged. rewrite Hm, Htot, Hlim. done. }
  destruct (run_agg _ _ _ _ _ _ _ _ Hok Hinv Hrun) as [_ _ HM HW HT].
  rewrite !limited_MaxBytes, HM in *. split; [by apply HT|].
  pose proof (aggregate_wf_bound _ HW) as Hbd. rewrite limited_MaxBytes, HM in Hbd. by apply Hbd.
Qed.

(** When the inherited bytes do not fit under the ceiling, opening a
    manager fails and the tracker ends up below its value before the call: the
    failed call releases bytes it never reserved. *)
Theorem failed_open_undercounts d s a rand d' s' a' :
  aggregate_wf a → limited a = true → 0 <= completedBytesReserved s < 2 ^ 63 →
  NewManagerWithAggregate d s a rand = (d', s', a', Err ErrAggregateQuotaExceeded) →
  TotalBytes a' = Z.max 0 (TotalBytes a - completedBytesReserved s).
Proof.
  intros Hwf Hlim Hb HN. unfold NewManagerWithAggregate in HN.
  destruct (newTransferManager _ _ _ _) as [[d1 s1] [m|e]] eqn:HM.
  2:{ unfold newTransferManager in HM. go_cases. }
  apply newTransferManager_Ok in HM as (-> & Hs & _).
  destruct (Reserve a _) as [a1 [[]|e]] eqn:HR; simplify_eq.
  rewrite Hs in HR. apply Reserve_spec in HR as (_ & _ & _ & _ & -> & _); [|done..].
  unfold Close. simpl. destruct (dir_close d1 s1) as [[d2 s2] r2]. simpl.
  by rewrite (proj2 (proj2 (proj2 (Release_spec a _ Hwf (proj1 Hb))))), Hlim.
Qed.
End AggregateTheorems.
