(* ===== verification/TransferContent.v ===== *)
(** * Integrity of attachment transfers

    The history of a manager is the sequence of its operations with their
    results.  From the history alone one reads what was uploaded under an
    identifier: the last accepted [Begin] and the chunks accepted since.  The
    theorems relate the state of the manager, and what it hands out, to it. *)

From S2P Require Import Prelude.
From S2P Require Import Utf8.
From S2P Require Import Sha256.
From S2P Require Import ContentPolicy.
From S2P Require Import Aggregate.
From S2P Require Import Transfer.
From S2P Require Import TransferQuota.

(** ** What was uploaded *)

Notation history := (list (TransferOp * TransferResult)).

Definition upload_step (key : string) (u : option (BeginRequest * list bytes))
    (step : TransferOp * TransferResult) : option (BeginRequest * list bytes) :=
  match step with
  | (OpBegin r _, Done (Ok _)) =>
      if bool_decide (string_of_bytes (Begin_TransferID r) = key) then Some (r, []) else u
  | (OpChunk r, Done (Ok _)) =>
      if bool_decide (string_of_bytes (Chunk_TransferID r) = key)
      then (fun '(b, chunks) => (b, chunks ++ [Chunk_Data r])) <$> u else u
  | _ => u
  end.

Definition upload (tr : history) (key : string) : option (BeginRequest * list bytes) :=
  foldl (upload_step key) None tr.

Lemma upload_snoc tr step key :
  upload (tr ++ [step]) key = upload_step key (upload tr key) step.
Proof. unfold upload. by rewrite foldl_app. Qed.

Section Content.
Context {D : Type} {ops : StagingOps D} {gm : GoMime}.
Implicit Types (w : World (D := D)).

(** ** The invariant *)

Record transfer_matches (key : string) (r : BeginRequest) (chunks : list bytes)
    (t : activeTransfer) : Prop := mkTransferMatches {
  tm_key : string_of_bytes (Begin_TransferID r) = key;
  tm_id : transferID t = Begin_TransferID r;
  tm_name : displayName t = Begin_DisplayName r;
  tm_policy : parseContentPolicy (Begin_DeclaredExtension r) (Begin_DeclaredContentType r)
                = Ok (policy t);
  tm_size : totalSize t = Begin_TotalSizeBytes r;
  tm_u64 : is_u64 (totalSize t);
  tm_hash : expectedSHA256 t = Begin_TotalSHA256 r;
  tm_hasher : hasher t = concat chunks;
  tm_received : receivedBytes t = len (concat chunks);
  tm_bound : len (concat chunks) <= totalSize t;
  tm_sniff : sniff t = take 512 (concat chunks);
  tm_text : textValidator t =
              if text (policy t) then validatorRun chunks newValidator else newValidator;
}.

Record attachment_matches (key : string) (r : BeginRequest) (content : bytes)
    (c : CompletedAttachment) : Prop := mkAttachmentMatches {
  am_key : string_of_bytes (Begin_TransferID r) = key;
  am_id : TransferID c = Begin_TransferID r;
  am_name : DisplayName c = Begin_DisplayName r;
  am_size : SizeBytes c = len content;
  am_declared : SizeBytes c = Begin_TotalSizeBytes r;
  am_hash : SHA256 c = Sum256 content;
  am_expected : SHA256 c = Begin_TotalSHA256 r;
  am_policy : ∃ p,
    parseContentPolicy (Begin_DeclaredExtension r) (Begin_DeclaredContentType r) = Ok p ∧
    ContentType c = contentType p ∧ Extension c = extension p ∧
    matchesBytes p (take 512 content) (len content) (validText content) = true;
}.

Record content_inv (tr : history) w : Prop := mkContentInv {
  ci_active key t : active (mgr w) !! key = Some t →
    ∃ r chunks, upload tr key = Some (r, chunks) ∧ transfer_matches key r chunks t;
  ci_completed key c : completed (mgr w) !! key = Some c →
    ∃ r chunks, upload tr key = Some (r, chunks) ∧ attachment_matches key r (concat chunks) c;
  ci_disjoint key t : active (mgr w) !! key = Some t → completed (mgr w) !! key = None;
}.

(** ** Operations that only drop transfers *)

Definition shrinks w w' : Prop :=
  active (mgr w') ⊆ active (mgr w) ∧ completed (mgr w') ⊆ completed (mgr w).

#[local] Instance shrinks_preorder : PreOrder shrinks.
Proof.
  split.
  - by intros w.
  - intros w1 w2 w3 [??] [??]. split; by etrans.
Qed.

Lemma shrinks_same w w' :
  active (mgr w') = active (mgr w) → completed (mgr w') = completed (mgr w) → shrinks w w'.
Proof. unfold shrinks. by intros -> ->. Qed.

Lemma releaseActive_shrinks w w' key t :
  mgr w' = mgr w → shrinks w (releaseActiveLocked w' key t).
Proof. intros Hm. split; simpl; rewrite Hm; [apply delete_subseteq|done]. Qed.

Lemma recordCancelled_shrinks w key : shrinks w (recordCancelledLocked w key).
Proof. apply shrinks_same; by apply recordCancelled_fields. Qed.

Lemma dropActive_shrinks w key what w' r : dropActive w key what = (w', r) → shrinks w w'.
Proof.
  unfold dropActive. intros H. go_cases; try done. by apply releaseActive_shrinks.
Qed.

Lemma dropCompleted_shrinks w key w' r : dropCompleted w key = (w', r) → shrinks w w'.
Proof.
  unfold dropCompleted. intros H. go_cases; try done. split; simpl; [done|apply delete_subseteq].
Qed.

Lemma discardLoop_shrinks ids w w' r : discardLoop w ids = (w', r) → shrinks w w'.
Proof.
  revert w. induction ids as [|id ids IH]; intros w H; simplify_eq/=; [done|].
  destruct (dropActive w _ _) as [w1 [|]] eqn:H1; apply dropActive_shrinks in H1; simplify_eq; [|done].
  destruct (dropCompleted w1 _) as [w2 [|]] eqn:H2; apply dropCompleted_shrinks in H2; simplify_eq;
    etrans; eauto. etrans; eauto. etrans; [apply recordCancelled_shrinks|]. eauto.
Qed.

Lemma closeLoop_shrinks order w w' es : closeLoop w order = (w', es) → shrinks w w'.
Proof.
  revert w es. induction order as [|key order IH]; intros w es H; simplify_eq/=; [done|].
  destruct (dropActive w _ _) as [w1 [|]] eqn:H1; apply dropActive_shrinks in H1.
  - etrans; eauto.
  - destruct (closeLoop w1 order) eqn:H2. simplify_eq. etrans; eauto.
Qed.

Lemma content_weaken tr w w' : content_inv tr w → shrinks w w' → content_inv tr w'.
Proof.
  intros [Ha Hc Hd] [Sa Sc]. split; intros key.
  - intros t Ht. eapply Ha, lookup_weaken; done.
  - intros c Ht. eapply Hc, lookup_weaken; done.
  - intros t Ht. eapply lookup_weaken_None; [|done]. eapply Hd, lookup_weaken; done.
Qed.

Lemma content_shrinks tr w w' step :
  content_inv tr w → shrinks w w' → (∀ key, upload_step key (upload tr key) step = upload tr key) →
  content_inv (tr ++ [step]) w'.
Proof.
  intros Hi Hs Hu. apply (content_weaken _ _ w') in Hi as [Ha Hc Hd]; [|done].
  split; intros key; rewrite ?upload_snoc, ?Hu; eauto.
Qed.

(** The steps that leave the two maps as they are. *)
Ltac inert :=
  by eapply content_shrinks; [eassumption|apply shrinks_same; reflexivity|reflexivity].

(** ** The operations *)

Lemma Begin_content tr w r rand w' res :
  is_u64 (Begin_TotalSizeBytes r) → content_inv tr w → Begin w r rand = (w', res) →
  content_inv (tr ++ [(OpBegin r rand, Done res)]) w'.
Proof.
  intros Hr Hi HB. unfold Begin in HB.
  go_cases; try inert. split_bool.
  destruct Hi as [Ha Hc Hd]. split; intros key; rewrite ?upload_snoc; simpl.
  - intros t [[<- <-]|[Hne Ht]]%lookup_insert_Some.
    + rewrite bool_decide_eq_true_2 by done. do 2 eexists. split; [done|].
      constructor; simpl; auto; [unfold is_u64, len in *; simpl; lia|]. by case_match.
    + rewrite bool_decide_eq_false_2 by done. eauto.
  - intros c Ht. rewrite bool_decide_eq_false_2; [eauto|].
    intros <-. by apply elem_of_dom_2 in Ht.
  - intros t [[<- <-]|[Hne Ht]]%lookup_insert_Some; [by apply not_elem_of_dom|eauto].
Qed.

(** The first 512 bytes are captured whatever the chunk boundaries. *)
Lemma sniff_append (h data : bytes) :
  (if contentSniffBytes - len (take 512 h) >? 0
   then take 512 h ++ take (Z.to_nat (contentSniffBytes - len (take 512 h))) data
   else take 512 h) = take 512 (h ++ data).
Proof.
  unfold contentSniffBytes, len. rewrite length_take, take_app.
  destruct (decide (512 <= length h)%nat).
  - replace (512 - length h)%nat with 0%nat by lia. rewrite take_0, app_nil_r.
    case_match; [|done]. lia.
  - replace (Z.to_nat (512 - Z.of_nat (512 `min` length h))) with (512 - length h)%nat by lia.
    case_match; [done|lia].
Qed.

Lemma Chunk_content tr w r w' res :
  content_inv tr w → Chunk w r = (w', res) → content_inv (tr ++ [(OpChunk r, Done res)]) w'.
Proof.
  intros Hi HC. unfold Chunk, abortAfterWriteFailureLocked in HC. set (key := string_of_bytes _) in HC.
  repeat match type of HC with
  | context [if ?b then (w, Err _) else _] =>
      destruct b eqn:?; [simplify_eq/=; inert|]
  end.
  destruct (active (mgr w) !! key) as [t|] eqn:Ht; [|simplify_eq; inert].
  repeat match type of HC with
  | context [if ?b then (w, Err _) else _] =>
      destruct b eqn:?; [simplify_eq/=; inert|]
  end.
  destruct (dir_writeAt _ _ _ _) as [d [u|e]].
  2:{ simpl in HC. destruct (dir_remove d (partialName t)) as [d' [u|e']]; simplify_eq;
        (apply (content_shrinks _ w); [done| |done]); [by apply releaseActive_shrinks|done]. }
  simplify_eq. split_bool. destruct Hi as [Ha Hc Hd].
  destruct (Ha _ _ Ht) as (b & chunks & Hu & Hm).
  split; intros k; rewrite ?upload_snoc; simpl; fold key.
  - intros t' [[<- <-]|[Hne Ht']]%lookup_insert_Some.
    + rewrite bool_decide_eq_true_2, Hu by done. do 2 eexists. split; [done|]. destruct Hm.
      pose proof (len_nonneg (concat chunks)). pose proof (len_nonneg (Chunk_Data r)).
      assert (len (Chunk_Data r) <= totalSize t - len (concat chunks)).
      { match goal with H : (_ >? u64 _) = false |- _ =>
          rewrite tm_received0, u64_small in H by (unfold is_u64 in *; lia) end. lia. }
      unfold is_u64 in *.
      constructor; simpl; rewrite ?concat_app; simpl; rewrite ?app_nil_r, ?len_app;
        try done; try lia; try congruence.
      * rewrite tm_received0. apply u64_small. unfold is_u64. lia.
      * rewrite tm_sniff0. apply sniff_append.
      * rewrite tm_text0. case_match; [|done]. unfold validatorRun. by rewrite fold_left_app.
    + rewrite bool_decide_eq_false_2 by done. eauto.
  - intros c Ht'. rewrite bool_decide_eq_false_2; [eauto|]. intros <-. by rewrite (Hd _ _ Ht) in Ht'.
  - intros t' [[<- <-]|[Hne Ht']]%lookup_insert_Some; eauto.
Qed.

(** The text verdict matters to the text policies only. *)
Lemma matchesBytes_text p sniff n b b' :
  (text p = true → b = b') → matchesBytes p sniff n b = matchesBytes p sniff n b'.
Proof. unfold matchesBytes. destruct (text p); [by intros ->|done]. Qed.

Lemma transfer_matches_complete key r chunks t p :
  transfer_matches key r chunks t → (receivedBytes t =? totalSize t) = true →
  equalHash (Sum256 (hasher t)) (expectedSHA256 t) = true →
  matchesBytes (policy t) (sniff t) (totalSize t) (validator_Valid (textValidator t)) = true →
  attachment_matches key r (concat chunks)
    (mkCompletedAttachment (transferID t) (displayName t) p (contentType (policy t))
       (extension (policy t)) (totalSize t) (Sum256 (hasher t))).
Proof.
  intros [] Hr Hh Hm. unfold equalHash in Hh. split_bool.
  assert (totalSize t = len (concat chunks)) as Hlen by lia.
  constructor; simpl; try congruence. exists (policy t). split_and!; try done.
  rewrite <- tm_sniff0, <- Hlen, <- Hm. apply matchesBytes_text. intros Ht.
  rewrite tm_text0, Ht. by rewrite validatorRun_spec by auto.
Qed.

Lemma Complete_content tr w id w' res :
  content_inv tr w → Complete w id = (w', res) →
  content_inv (tr ++ [(OpComplete id, Attached res)]) w'.
Proof.
  intros Hi HC. unfold Complete, fail, failTransferLocked in HC. set (key := string_of_bytes id) in HC.
  destruct (_ || _); [simplify_eq; inert|]. destruct (negb _); [simplify_eq; inert|].
  destruct (completed (mgr w) !! key) eqn:Hc; [simplify_eq; inert|].
  destruct (active (mgr w) !! key) as [t|] eqn:Ht; [|simplify_eq; inert].
  repeat match type of HC with
  | context [if negb ?b then let '(_, _) := _ in _ else _] =>
      destruct b eqn:?; simpl in HC;
        [|destruct (dir_remove _ _) as [d [|]]; simplify_eq;
          (eapply content_shrinks; [exact Hi| |reflexivity]);
          [by apply releaseActive_shrinks|by apply shrinks_same]]
  end.
  destruct (relativeReference _ _) as [path|]; [|simplify_eq; inert].
  destruct (ci_active _ _ Hi _ _ Ht) as (r & chunks & Hu & Hm).
  destruct Hi as [Ha Hcc Hd]. destruct (dir_rename _ _ _) as [d [u|e]]; simplify_eq/=;
    split; intros k; rewrite ?upload_snoc; simpl.
  - intros t' [? ?]%lookup_delete_Some. eauto.
  - intros c [[<- <-]|[? ?]]%lookup_insert_Some; [|eauto].
    exists r, chunks. split; [done|]. by apply transfer_matches_complete.
  - intros t' [? ?]%lookup_delete_Some. rewrite lookup_insert_ne by done. eauto.
  - intros t' [[<- <-]|[? ?]]%lookup_insert_Some; [|eauto].
    exists r, chunks. split; [done|]. by destruct Hm.
  - eauto.
  - intros t' [[<- <-]|[? ?]]%lookup_insert_Some; eauto.
Qed.

Lemma Close_shrinks w order w' r : Close w order = (w', r) → shrinks w w'.
Proof.
  unfold Close. intros H. destruct (closed (mgr w)); [by simplify_eq|].
  destruct (closeLoop _ order) as [w1 es] eqn:HL. apply closeLoop_shrinks in HL.
  destruct (joinErrors es); [by simplify_eq|].
  destruct (dir_close _ _) as [[d s] r']. by simplify_eq.
Qed.

Lemma step_content tr w op w' r :
  op_ok op → content_inv tr w → transfer_step w op = (w', r) → content_inv (tr ++ [(op, r)]) w'.
Proof.
  intros Hok Hi Hs. destruct op; cbn [transfer_step] in Hs; repeat case_match; simplify_eq;
    eauto using Begin_content, Chunk_content, Complete_content.
  all: eapply content_shrinks; [exact Hi| |reflexivity].
  - unfold Discard in *. go_cases; eauto using discardLoop_shrinks; reflexivity.
  - unfold Cancel in *. go_cases; try reflexivity;
      (etrans; [by eapply dropActive_shrinks|]); auto using recordCancelled_shrinks; reflexivity.
  - by eapply Close_shrinks.
Qed.

Lemma run_content os : ∀ tr0 w w' tr,
  Forall op_ok os → content_inv tr0 w → transfer_run w os = (w', tr) → content_inv (tr0 ++ tr) w'.
Proof.
  induction os as [|op os IH]; intros tr0 w w' tr Hok Hi Hr; simplify_eq/=; [by rewrite app_nil_r|].
  inv Hok. destruct (transfer_step w op) as [w1 r] eqn:Hs.
  destruct (transfer_run w1 os) as [w2 tr2] eqn:Hr2. simplify_eq/=.
  change (tr0 ++ (op, r) :: tr2) with (tr0 ++ [(op, r)] ++ tr2). rewrite app_assoc. eauto using step_content.
Qed.

Lemma fresh_content l b w : mgr w = newManager l b → content_inv [] w.
Proof. intros Hm. split; rewrite Hm; done. Qed.

(** ** What the manager hands out *)

(** When a transfer completes, the attachment is the one its [Begin]
    declared: the chunks accepted under the identifier, in order, have exactly
    the declared size and the declared SHA-256, which are those of the result;
    they match the declared content policy on their first 512 bytes, and a text
    attachment is valid UTF-8 without NUL bytes as a whole. *)
Theorem completed_content_verified l b w os w' tr id w'' c :
  mgr w = newManager l b → Forall op_ok os → transfer_run w os = (w', tr) →
  Complete w' id = (w'', Ok c) →
  ∃ r chunks, upload tr (string_of_bytes id) = Some (r, chunks) ∧
    attachment_matches (string_of_bytes id) r (concat chunks) c.
Proof.
  intros Hm Hok Hrun HC.
  pose proof (run_content os [] w w' tr Hok (fresh_content _ _ _ Hm) Hrun) as Hi. simpl in Hi.
  pose proof (Complete_content _ _ _ _ _ Hi HC) as Hi2.
  assert (completed (mgr w'') !! string_of_bytes id = Some c) as Hc.
  { unfold Complete, fail, failTransferLocked in HC. go_cases; try done. apply lookup_insert_eq. }
  apply (ci_completed _ _ Hi2) in Hc. by rewrite upload_snoc in Hc.
Qed.

Lemma lookupCompleted_Ok (m : Manager) ids cs :
  lookupCompleted m ids = Ok cs →
  Forall2 (fun id c => completed m !! string_of_bytes id = Some c) ids cs.
Proof.
  revert cs. induction ids as [|id ids IH]; intros cs H; simpl in H; [by simplify_eq|].
  case_match; [|done]. inv_ok. simplify_eq. constructor; auto.
Qed.

Lemma validateSelection_Ok seen ids u :
  validateSelection seen ids = Ok u →
  NoDup ids ∧ Forall (fun id => validTransferID id = true ∧ string_of_bytes id ∉ seen) ids.
Proof.
  revert seen. induction ids as [|id ids IH]; intros seen H; simpl in H; [split; constructor|].
  go_cases. split_bool. apply IH in H as [Hn Hf]. rewrite Forall_forall in Hf. split.
  - constructor; [|done]. intros Hin. apply Hf in Hin. set_solver.
  - constructor; [done|]. apply Forall_forall. intros x Hx. apply Hf in Hx. set_solver.
Qed.

(** A selection resolved for a prompt action has between one and ten
    distinct identifiers, and returns, in the order asked, one verified
    attachment for each: its bytes are the chunks accepted under that
    identifier, with the declared size, hash and content policy. *)
Theorem selection_is_verified l b w os w' tr ids cs :
  mgr w = newManager l b → Forall op_ok os → transfer_run w os = (w', tr) →
  CompletedAttachments w' ids = Ok cs →
  1 <= len ids <= maxPromptActionAttachments ∧ NoDup ids ∧
  Forall2 (fun id c => ∃ r chunks, upload tr (string_of_bytes id) = Some (r, chunks) ∧
    attachment_matches (string_of_bytes id) r (concat chunks) c) ids cs.
Proof.
  intros Hm Hok Hrun HC.
  pose proof (run_content os [] w w' tr Hok (fresh_content _ _ _ Hm) Hrun) as Hi. simpl in Hi.
  unfold CompletedAttachments in HC. go_cases. inv_ok.
  pose proof (len_nonneg ids). apply validateSelection_Ok in H2 as [Hn _].
  split_and!; [lia|lia|done|]. apply lookupCompleted_Ok in H3.
  eapply Forall2_impl; [done|]. intros id c Hc. by apply (ci_completed _ _ Hi).
Qed.

(** The outcome reported for a transfer tells how far it got: an active
    transfer's next offset is the number of bytes accepted under its identifier,
    and a transfer reported completed is returned again by [Complete] with the
    attachment of its first completion. *)
Theorem outcome_is_accurate l b w os w' tr id o :
  mgr w = newManager l b → Forall op_ok os → transfer_run w os = (w', tr) →
  Outcome w' id = Ok o →
  match Disposition o with
  | TransferDispositionActive => ∃ r chunks, upload tr (string_of_bytes id) = Some (r, chunks) ∧
      NextOffsetBytes o = len (concat chunks) ∧ len (concat chunks) <= Begin_TotalSizeBytes r
  | TransferDispositionCompleted => ∃ c, Complete w' id = (w', Ok c) ∧
      completed (mgr w') !! string_of_bytes id = Some c
  | TransferDispositionCancelled | TransferDispositionUnknown =>
      Complete w' id = (w', Err ErrTransferNotFound)
  end.
Proof.
  intros Hm Hok Hrun HO.
  pose proof (run_content os [] w w' tr Hok (fresh_content _ _ _ Hm) Hrun) as Hi. simpl in Hi.
  unfold Outcome, Complete in *. destruct (_ || _); [done|]. destruct (negb _); [done|].
  destruct (active (mgr w') !! string_of_bytes id) as [t|] eqn:Ht; simplify_eq/=.
  { destruct (ci_active _ _ Hi _ _ Ht) as (r & chunks & Hu & []). exists r, chunks. split_and!; auto.
    congruence. }
  case_bool_decide as Hd.
  - apply elem_of_dom in Hd as [c Hc]. simplify_eq/=. exists c. by rewrite Hc.
  - apply not_elem_of_dom in Hd. rewrite Hd. case_bool_decide; by simplify_eq/=.
Qed.
End Content.
