(* ===== verification/TransferStorage.v ===== *)
(** * Published files hold what was uploaded

    The interface between the transfer manager and its staging directory: what
    each operation of the directory does to the names and the contents of the
    regular files, successful or not.  Against it, every completed attachment is
    backed by a file of its own with exactly the uploaded bytes, in every state
    the manager reaches. *)

From S2P Require Import Prelude.
From S2P Require Import Utf8.
From S2P Require Import Sha256.
From S2P Require Import ContentPolicy.
From S2P Require Import Aggregate.
From S2P Require Import Transfer.
From S2P Require Import TransferQuota.
From S2P Require Import TransferContent.

(** ** The contract of the staging directory *)

(** Writing [data] at an offset inside the file. *)
Definition overwrite (c : bytes) (off : nat) (data : bytes) : bytes :=
  take off c ++ data ++ drop (off + length data) c.

Definition no_separator (n : string) : bool := negb (ContainsAny n "/\").

(** A regular file is a name bound to an inode; hard links bind two names to
    one inode.  An operation that fails may have done part of its work. *)
Class StagingLaws (D : Type) `{StagingOps D} := {
  dir_ok : D → Prop;
  names : D → gmap string nat;
  content : D → nat → bytes;

  law_create d n d' r : dir_ok d → dir_create d n = (d', r) →
    dir_ok d' ∧ (∀ i, content d' i = content d i) ∧
    (∀ k, k ≠ n → names d' !! k = names d !! k) ∧
    match r with
    | Ok _ => names d !! n = None ∧
        ∃ i, names d' !! n = Some i ∧ content d' i = [] ∧ ∀ k, names d !! k ≠ Some i
    | Err _ => names d !! n = None ∨ names d' !! n = names d !! n
    end;

  law_writeAt d n off data d' r : dir_ok d → dir_writeAt d n off data = (d', r) →
    dir_ok d' ∧ names d' = names d ∧
    match names d !! n with
    | None => (∀ j, content d' j = content d j) ∧ is_ok r = false
    | Some i => (∀ j, j ≠ i → content d' j = content d j) ∧
        (0 <= off <= len (content d i) →
         ∃ k, content d' i = overwrite (content d i) (Z.to_nat off) (take k data) ∧
              (is_ok r = true → (length data <= k)%nat))
    end;

  law_rename d old new d' r : dir_ok d → dir_rename d old new = (d', r) →
    dir_ok d' ∧ (∀ i, content d' i = content d i) ∧
    match r with
    | Ok _ => old ≠ new ∧ ∃ i, names d !! old = Some i ∧
        (names d !! new = None ∨ names d !! new = Some i) ∧
        names d' = <[new := i]> (delete old (names d))
    | Err _ => (∀ k, k ≠ new → names d' !! k = names d !! k) ∧
        (names d' !! new = names d !! new ∨
         ∃ i, names d !! old = Some i ∧ (names d !! new = None ∨ names d !! new = Some i))
    end;

  law_remove d n d' r : dir_ok d → dir_remove d n = (d', r) →
    dir_ok d' ∧ (∀ i, content d' i = content d i) ∧
    match r with
    | Ok _ => names d' = delete n (names d)
    | Err _ => names d' = names d
    end;

  law_removePublishedLink d src dst d' r :
    dir_ok d → dir_removePublishedLink d src dst = (d', r) →
    dir_ok d' ∧ (∀ i, content d' i = content d i) ∧
    (∀ k, k ≠ dst → names d' !! k = names d !! k) ∧
    (names d' !! dst = names d !! dst ∨
     ∃ i, names d !! src = Some i ∧ names d !! dst = Some i ∧ names d' !! dst = None) ∧
    (is_ok r = true → ∀ i, names d !! src = Some i → names d' !! dst ≠ Some i);

  law_open d s rand d' s' r : dir_ok d → dir_open d s rand = (d', s', r) → dir_ok d';
  law_close d s d' s' r : dir_ok d → dir_close d s = (d', s', r) →
    dir_ok d' ∧ names d' = names d ∧ ∀ i, content d' i = content d i;

  law_base s n p : no_separator n = true → (2 < String.length n)%nat →
    relativeReference s n = Some p → filepath_Base p = n;
}.

(** ** Names *)

Lemma ContainsAny_app s t chars :
  ContainsAny (s ++ t) chars = ContainsAny s chars || ContainsAny t chars.
Proof. induction s as [|a s IH]; [done|]. simpl. by rewrite IH, orb_assoc. Qed.

Lemma string_length_app s t :
  String.length (s ++ t) = (String.length s + String.length t)%nat.
Proof. induction s; simpl; auto. Qed.

Lemma no_separator_app s t : no_separator (s ++ t) = no_separator s && no_separator t.
Proof. unfold no_separator. rewrite ContainsAny_app. apply negb_orb. Qed.

Lemma hexEncode_no_separator b : no_separator (hexEncode b) = true.
Proof.
  induction b as [|x b IH]; [done|]. destruct x; exact IH.
Qed.

(** A published name is never the name of a partial file. *)
Lemma policy_extension `{GoMime} ext ty p :
  parseContentPolicy ext ty = Ok p →
  no_separator (extension p) = true ∧ extension p ≠ ".partial"%string ∧
  (2 < String.length (extension p))%nat.
Proof.
  unfold parseContentPolicy. intros HP. go_cases. simpl.
  assert (map_Forall (fun k _ => no_separator k = true ∧ k ≠ "partial"%string ∧ (1 < String.length k)%nat)
            supportedContentPolicies) as HS
    by (apply (bool_decide_unpack _); vm_compute; exact I).
  match goal with HL : supportedContentPolicies !! _ = Some _ |- _ => apply HS in HL as (HN & HP & HL') end.
  split_and!; [exact HN|intros [= ?]; by simplify_eq|exact (le_n_S _ _ HL')].
Qed.

Section Storage.
Context {D : Type} {ops : StagingOps D} {counts : StagingCounts D} {laws : StagingLaws D} {gm : GoMime}.
Implicit Types (w : World (D := D)) (d : D).

(** ** The invariant *)

(** The file an identifier owns: its partial while it is active, the published
    file once it is completed. *)
Inductive tracks (A : gmap string activeTransfer) (C : gmap string CompletedAttachment)
    (key : string) : string → Prop :=
  | tracks_active t : A !! key = Some t → tracks A C key (partialName t)
  | tracks_completed c : C !! key = Some c → tracks A C key (filepath_Base (RelativePath c)).

(** The prefix received so far is in the partial file; what a failed write left
    behind it stays within the declared size. *)
Record partial_file d (t : activeTransfer) (i : nat) : Prop := mkPartialFile {
  pf_inode : names d !! partialName t = Some i;
  pf_prefix : take (length (hasher t)) (content d i) = hasher t;
  pf_bound : len (content d i) <= totalSize t;
  pf_name : partialName t = (storagePrefix t ++ ".partial")%string;
  pf_separator : no_separator (storagePrefix t) = true;
}.

Record fs_inv (tr : history) (A : gmap string activeTransfer)
    (C : gmap string CompletedAttachment) d : Prop := mkFsInv {
  f_ok : dir_ok d;
  f_owner k1 k2 n1 n2 i : tracks A C k1 n1 → tracks A C k2 n2 →
    names d !! n1 = Some i → names d !! n2 = Some i → k1 = k2;
  f_active key t : A !! key = Some t → ∃ i, partial_file d t i;
  f_completed key c : C !! key = Some c → ∃ i r chunks,
    names d !! filepath_Base (RelativePath c) = Some i ∧
    upload tr key = Some (r, chunks) ∧ content d i = concat chunks;
}.

Lemma tracks_weaken A C A' C' key n : A' ⊆ A → C' ⊆ C → tracks A' C' key n → tracks A C key n.
Proof. intros HA HC []; econstructor; by eapply lookup_weaken. Qed.

(** Dropping transfers from the maps keeps the invariant; so does any change of
    the directory that leaves the tracked files alone. *)
Lemma fs_inv_weaken tr A C A' C' d :
  A' ⊆ A → C' ⊆ C → fs_inv tr A C d → fs_inv tr A' C' d.
Proof.
  intros HA HC [Hok Ho Ha Hc]. split; [done| | |].
  - intros k1 k2 n1 n2 i H1 H2. apply Ho; by eapply tracks_weaken.
  - intros. by eapply Ha, lookup_weaken.
  - intros. by eapply Hc, lookup_weaken.
Qed.

Definition preserved A C d d' : Prop :=
  ∀ key n i, tracks A C key n → names d !! n = Some i →
    names d' !! n = Some i ∧ content d' i = content d i.

Lemma fs_inv_tracked tr A C d key n :
  fs_inv tr A C d → tracks A C key n → ∃ i, names d !! n = Some i.
Proof.
  intros Hi [t Ht|c Hc].
  - destruct (f_active _ _ _ _ Hi _ _ Ht) as [i []]. eauto.
  - destruct (f_completed _ _ _ _ Hi _ _ Hc) as (i & ? & ? & ? & _). eauto.
Qed.

Lemma fs_inv_dir tr A C d d' :
  fs_inv tr A C d → dir_ok d' → preserved A C d d' → fs_inv tr A C d'.
Proof.
  intros Hi Hok' Hp. split; [done| | |].
  - intros k1 k2 n1 n2 i H1 H2 E1 E2.
    destruct (fs_inv_tracked _ _ _ _ _ _ Hi H1) as [i1 F1].
    destruct (fs_inv_tracked _ _ _ _ _ _ Hi H2) as [i2 F2].
    destruct (Hp _ _ _ H1 F1) as [G1 _]. destruct (Hp _ _ _ H2 F2) as [G2 _].
    simplify_eq. by eapply (f_owner _ _ _ _ Hi).
  - intros key t Ht. destruct (f_active _ _ _ _ Hi _ _ Ht) as [i []].
    destruct (Hp key _ i (tracks_active _ _ _ _ Ht) pf_inode0) as [G1 G2].
    exists i. constructor; rewrite ?G2; auto.
  - intros key c Hc. destruct (f_completed _ _ _ _ Hi _ _ Hc) as (i & r & chunks & E & Hu & Hb).
    destruct (Hp key _ i (tracks_completed _ _ _ _ Hc) E) as [G1 G2].
    exists i, r, chunks. rewrite G2. auto.
Qed.

(** An operation on one name is harmless when no tracked file is meant by it. *)
Lemma preserved_frame A C d d' n :
  (∀ i, content d' i = content d i) → (∀ k, k ≠ n → names d' !! k = names d !! k) →
  (∀ key i, tracks A C key n → names d !! n = Some i → names d' !! n = Some i) →
  preserved A C d d'.
Proof.
  intros Hc Hn Ht key k i Hk E. split; [|done]. destruct (decide (k = n)) as [->|]; [by eapply Ht|].
  by rewrite Hn.
Qed.

Lemma fs_inv_step tr step A C d :
  (∀ key, is_Some (C !! key) → upload_step key (upload tr key) step = upload tr key) →
  fs_inv tr A C d → fs_inv (tr ++ [step]) A C d.
Proof.
  intros Hu [? ? ? Hc]. split; [done..|]. intros key c HC.
  destruct (Hc _ _ HC) as (i & r & chunks & ?). exists i, r, chunks.
  rewrite upload_snoc, Hu by eauto. done.
Qed.

(** ** Removing a file and its owner *)

Lemma remove_fs tr A C d n d' r A' C' :
  fs_inv tr A C d → dir_remove d n = (d', r) →
  A' ⊆ A → C' ⊆ C → (∀ key, tracks A' C' key n → is_ok r = false) →
  fs_inv tr A' C' d'.
Proof.
  intros Hi Hr HA HC Hn. apply law_remove in Hr as (Hok & Hc & Hd); [|apply Hi].
  eapply fs_inv_dir; [by eapply fs_inv_weaken|done|]. apply (preserved_frame _ _ _ _ n); [done|..].
  - intros k Hk. destruct r; rewrite Hd; [by apply lookup_delete_ne|done].
  - intros key i Ht E. specialize (Hn _ Ht). destruct r; [done|]. by rewrite Hd.
Qed.

(** No other identifier owns the partial file of an active transfer. *)
Lemma partial_owner tr A C d key key' t :
  fs_inv tr A C d → A !! key = Some t → tracks A C key' (partialName t) → key' = key.
Proof.
  intros Hi Ht Hk. destruct (f_active _ _ _ _ Hi _ _ Ht) as [i []].
  by eapply (f_owner _ _ _ _ Hi key' key); [done|by apply tracks_active| |].
Qed.

Lemma tracks_delete_active A C key n : A !! key = None ∨ C !! key = None →
  tracks (delete key A) C key n → C !! key ≠ None.
Proof. intros _ [t Ht|c Hc]; [by rewrite lookup_delete_eq in Ht|congruence]. Qed.

Lemma remove_partial_fs tr A C d key t d' r :
  fs_inv tr A C d → A !! key = Some t → C !! key = None →
  dir_remove d (partialName t) = (d', r) →
  fs_inv tr (if is_ok r then delete key A else A) C d'.
Proof.
  intros Hi Ht HC Hr. eapply remove_fs; [done|done| |done|].
  - case_match; [apply delete_subseteq|done].
  - intros key' Hk. destruct r; simpl in *; [|done].
    assert (tracks A C key' (partialName t)) as Hk'
      by (by eapply tracks_weaken; [apply delete_subseteq|reflexivity|]).
    apply (partial_owner _ _ _ _ _ _ _ Hi Ht) in Hk' as ->.
    by apply tracks_delete_active in Hk; auto.
Qed.

(** The published link of an interrupted publication belongs to no one else. *)
Lemma removePublishedLink_fs tr A C d key t dst d' r :
  fs_inv tr A C d → A !! key = Some t → C !! key = None → dst ≠ partialName t →
  dir_removePublishedLink d (partialName t) dst = (d', r) → fs_inv tr A C d'.
Proof.
  intros Hi Ht HC Hne Hr. apply law_removePublishedLink in Hr as (Hok & Hc & Hn & Hd & _); [|apply Hi].
  eapply fs_inv_dir; [done|done|]. apply (preserved_frame _ _ _ _ dst); [done..|].
  intros key' i Hk E. destruct Hd as [->|(j & E1 & E2 & _)]; [done|].
  exfalso. assert (key' = key) as ->.
  { eapply (f_owner _ _ _ _ Hi key' key); [done|by apply tracks_active|done|congruence]. }
  by inv Hk.
Qed.

(** ** The operations *)

Lemma createPartial_fs n : ∀ i rand d d' r,
  dir_ok d → createPartialLocked n i rand d = (d', r) →
  dir_ok d' ∧ (∀ j, content d' j = content d j) ∧ names d ⊆ names d' ∧
  match r with
  | Ok (prefix, name) => name = (prefix ++ ".partial")%string ∧ no_separator prefix = true ∧
      names d !! name = None ∧
      ∃ j, names d' !! name = Some j ∧ content d' j = [] ∧ ∀ k, names d !! k ≠ Some j
  | Err _ => True
  end.
Proof.
  induction n as [|n IH]; intros i rand d d' r Hok H;
    unfold createPartialLocked in H; fold (@createPartialLocked D ops) in H; [by simplify_eq|].
  destruct (rand i) as [b|e]; [|by simplify_eq].
  destruct (dir_create d _) as [d1 r1] eqn:HC.
  apply law_create in HC as (Hok1 & Hc1 & Hn1 & Hr1); [|done].
  assert (names d ⊆ names d1) as Hsub.
  { apply map_subseteq_spec. intros k j E.
    destruct (decide (k = hexEncode b +:+ ".partial")) as [->|]; [|by rewrite Hn1].
    destruct r1; [by destruct Hr1; congruence|]. destruct Hr1 as [F|F]; congruence. }
  destruct r1 as [u|e]; simplify_eq/=.
  { destruct Hr1 as [? ?]. split_and!; auto using hexEncode_no_separator. }
  case_match; simplify_eq; [|done].
  destruct (IH _ _ _ _ _ Hok1 H) as (? & Hc2 & Hs2 & Hr2). split_and!; [done| |by etrans|].
  - intros j. by rewrite Hc2.
  - destruct r as [[prefix name]|]; [|done]. destruct Hr2 as (? & ? & Hnone & j & ? & ? & Hfr).
    split_and!; [done..|by eapply lookup_weaken_None|]. exists j. split_and!; [done..|].
    intros k E. by apply (Hfr k), (lookup_weaken _ _ _ _ E).
Qed.

(** Taking over a file no identifier owns. *)
Lemma fs_inv_insert_active tr A C d key t i :
  fs_inv tr A C d → A !! key = None → partial_file d t i →
  (∀ key' n, tracks A C key' n → names d !! n ≠ Some i) → fs_inv tr (<[key:=t]> A) C d.
Proof.
  intros [Hok Ho Ha Hc] HA Ht Hi. split; [done| | |done].
  - intros k1 k2 n1 n2 j H1 H2 E1 E2.
    assert (∀ k n, tracks (<[key:=t]> A) C k n → tracks A C k n ∨ (k = key ∧ n = partialName t)) as Hcase.
    { intros k n [t' [[<- <-]|[? ?]]%lookup_insert_Some|c ?]; eauto using tracks_active, tracks_completed. }
    destruct (Hcase _ _ H1) as [T1|[-> ->]], (Hcase _ _ H2) as [T2|[-> ->]]; eauto.
    + destruct (Hi _ _ T1). rewrite E1. destruct Ht. congruence.
    + destruct (Hi _ _ T2). rewrite E2. destruct Ht. congruence.
  - intros k t' [[<- <-]|[? ?]]%lookup_insert_Some; eauto.
Qed.

Lemma fs_inv_insert_completed tr A C d key c i r chunks :
  fs_inv tr A C d → C !! key = None →
  names d !! filepath_Base (RelativePath c) = Some i →
  upload tr key = Some (r, chunks) → content d i = concat chunks →
  (∀ key' n, tracks A C key' n → names d !! n ≠ Some i) → fs_inv tr A (<[key:=c]> C) d.
Proof.
  intros [Hok Ho Ha Hc] HC Hn Hu Hb Hi. split; [done| |done|].
  - intros k1 k2 n1 n2 j H1 H2 E1 E2.
    assert (∀ k n, tracks A (<[key:=c]> C) k n →
              tracks A C k n ∨ (k = key ∧ n = filepath_Base (RelativePath c))) as Hcase.
    { intros k n [t' ?|c' [[<- <-]|[? ?]]%lookup_insert_Some]; eauto using tracks_active, tracks_completed. }
    destruct (Hcase _ _ H1) as [T1|[-> ->]], (Hcase _ _ H2) as [T2|[-> ->]]; eauto.
    + destruct (Hi _ _ T1). congruence.
    + destruct (Hi _ _ T2). congruence.
  - intros k c' [[<- <-]|[? ?]]%lookup_insert_Some; eauto 8.
Qed.

Lemma others_inode tr A C d key t i :
  fs_inv tr A C d → A !! key = Some t → C !! key = None → names d !! partialName t = Some i →
  ∀ key' n, tracks (delete key A) C key' n → names d !! n ≠ Some i.
Proof.
  intros Hi Ht HC Hn key' n Hk E.
  assert (key' = key) as ->.
  { eapply (f_owner _ _ _ _ Hi key' key); [|by apply tracks_active|done|done].
    by eapply tracks_weaken; [apply delete_subseteq|reflexivity|]. }
  by apply tracks_delete_active in Hk; auto.
Qed.

(** Replacing the record of an active transfer, after its own file changed. *)
Lemma fs_inv_update tr A C d key t t' i d' :
  fs_inv tr A C d → A !! key = Some t → C !! key = None → partial_file d t i →
  dir_ok d' → names d' = names d → (∀ j, j ≠ i → content d' j = content d j) →
  partial_file d' t' i → fs_inv tr (<[key:=t']> A) C d'.
Proof.
  intros Hi Ht HC [Hn _ _ _ _] Hok Hnames Hcont Ht'.
  pose proof (others_inode _ _ _ _ _ _ _ Hi Ht HC Hn) as Hoth.
  rewrite <- insert_delete_eq. apply fs_inv_insert_active with (i := i);
    [|apply lookup_delete_eq|done|by rewrite Hnames].
  eapply fs_inv_dir; [by eapply fs_inv_weaken; [apply delete_subseteq|reflexivity|]|done|].
  intros k n j Hk E. rewrite Hnames. split; [done|]. apply Hcont. intros ->. by eapply Hoth.
Qed.

Lemma overwrite_prefix (h c data : bytes) total :
  take (length h) c = h → len c <= total → len h + len data <= total →
  let c' := overwrite c (length h) data in
  take (length (h ++ data)) c' = h ++ data ∧ take (length h) c' = h ∧ len c' <= total ∧
  len h <= len c.
Proof.
  intros Hp Hc Ht. unfold overwrite. rewrite Hp.
  assert (length h <= length c)%nat as Hle.
  { rewrite <- Hp at 1. rewrite length_take. lia. }
  split_and!.
  - rewrite app_assoc, take_app_length. done.
  - by rewrite take_app_length.
  - unfold len in *. rewrite !length_app, length_drop. lia.
  - unfold len. lia.
Qed.

Variables (l : managerLimits) (base : Z).

Record storage_inv (tr : history) w : Prop := mkStorageInv {
  s_quota : quota_inv l base w;
  s_content : content_inv tr w;
  s_fs : fs_inv tr (active (mgr w)) (completed (mgr w)) (dir w);
}.

Lemma fs_inv_dir_same tr A C d d' :
  fs_inv tr A C d → dir_ok d' → names d ⊆ names d' → (∀ j, content d' j = content d j) →
  fs_inv tr A C d'.
Proof.
  intros Hi Hok Hn Hc. eapply fs_inv_dir; [done..|]. intros k n i _ E.
  split; [by eapply lookup_weaken|done].
Qed.

Lemma Begin_fs tr w r rand w' res :
  is_u64 (Begin_TotalSizeBytes r) → storage_inv tr w → Begin w r rand = (w', res) →
  fs_inv (tr ++ [(OpBegin r rand, Done res)]) (active (mgr w')) (completed (mgr w')) (dir w').
Proof.
  intros Hr [_ _ Hi] HB. unfold Begin in HB.
  repeat match type of HB with
  | context [if ?b then (w, Err _) else _] =>
      destruct b eqn:?; [simplify_eq/=; by apply fs_inv_step|]
  | context [match parseContentPolicy ?x ?y with _ => _ end] =>
      destruct (parseContentPolicy x y) eqn:?; [|simplify_eq/=; by apply fs_inv_step]
  end.
  destruct (Reserve _ _) as [a' [u|e]]; [|simplify_eq/=; by apply fs_inv_step].
  destruct (createPartialLocked _ _ _ _) as [d r1] eqn:HC.
  apply createPartial_fs in HC as (Hok & Hc & Hn & Hr1); [|apply Hi].
  pose proof (fs_inv_dir_same _ _ _ _ _ Hi Hok Hn Hc) as Hi'.
  destruct r1 as [[prefix name]|e]; simplify_eq/=; [|by apply fs_inv_step].
  destruct Hr1 as (-> & Hsep & Hnone & j & Hj & Hcj & Hfr). split_bool.
  apply fs_inv_step.
  { intros key Hkey. simpl. rewrite bool_decide_eq_false_2; [done|]. intros <-.
    match goal with H : _ ∉ dom (completed _) |- _ => apply H, elem_of_dom, Hkey end. }
  apply fs_inv_insert_active with (i := j); [done|by apply not_elem_of_dom| |].
  - constructor; simpl; try done. rewrite Hcj. unfold is_u64, len in *. simpl. lia.
  - intros key n Hk E. destruct (fs_inv_tracked _ _ _ _ _ _ Hi Hk) as [j' E'].
    apply (Hfr n). rewrite E'. by rewrite (lookup_weaken _ _ _ _ E' Hn) in E.
Qed.

Lemma i64_small z : 0 <= z < 2 ^ 63 → i64 z = z.
Proof. intros Hz. unfold i64. rewrite Z.mod_small; lia. Qed.

Lemma Chunk_fs tr w r w' res :
  storage_inv tr w → Chunk w r = (w', res) →
  fs_inv (tr ++ [(OpChunk r, Done res)]) (active (mgr w')) (completed (mgr w')) (dir w').
Proof.
  intros [Hq Hct Hi] HC. unfold Chunk, abortAfterWriteFailureLocked in HC.
  set (key := string_of_bytes _) in HC.
  repeat match type of HC with
  | context [if ?b then (w, Err _) else _] =>
      destruct b eqn:?; [simplify_eq/=; by apply fs_inv_step|]
  | context [match active (mgr w) !! key with _ => _ end] =>
      destruct (active (mgr w) !! key) as [t|] eqn:Ht; [|simplify_eq/=; by apply fs_inv_step]
  end.
  split_bool. pose proof (ci_disjoint _ _ Hct _ _ Ht) as Hcomp.
  destruct (ci_active _ _ Hct _ _ Ht) as (b & chunks & Hu & Hm).
  destruct (f_active _ _ _ _ Hi _ _ Ht) as [i Hp].
  destruct (dir_writeAt _ _ _ _) as [d r1] eqn:HW.
  apply law_writeAt in HW as (Hok & Hnames & HW); [|apply Hi]. rewrite (pf_inode _ _ _ Hp) in HW.
  destruct HW as [Hoth HW].
  assert (receivedBytes t = len (hasher t)) as Hrec by (destruct Hm; congruence).
  assert (len (hasher t) + len (Chunk_Data r) <= totalSize t) as Hfit.
  { match goal with H : (_ >? u64 _) = false |- _ => rewrite u64_small in H; [lia|] end.
    destruct Hm. unfold is_u64 in *. pose proof (len_nonneg (concat chunks)). lia. }
  assert (i64 (Chunk_OffsetBytes r) = len (hasher t)) as Hoff.
  { pose proof (q_active _ _ _ Hq _ _ Ht) as Hsz. simpl in Hsz.
    destruct (q_limits _ _ _ Hq) as (? & _). pose proof (len_nonneg (hasher t)).
    pose proof (len_nonneg (Chunk_Data r)). rewrite i64_small; lia. }
  rewrite Hoff in HW. destruct Hp as [Hp1 Hp2 Hp3 Hp4 Hp5].
  destruct HW as (k & Hk & HkOk).
  { destruct (overwrite_prefix _ _ [] (totalSize t) Hp2 Hp3) as (_ & _ & _ & ?);
      unfold len in *; simpl in *; lia. }
  replace (Z.to_nat (len (hasher t))) with (length (hasher t)) in Hk by (unfold len; lia).
  destruct (overwrite_prefix (hasher t) (content (dir w) i) (take k (Chunk_Data r)) (totalSize t))
    as (Hw1 & Hw2 & Hw3 & _); [done|done|unfold len in *; rewrite length_take; lia|].
  rewrite <- Hk in *.
  destruct r1 as [u|e].
  - simplify_eq/=. rewrite (take_ge (Chunk_Data r)) in Hw1 by auto. apply fs_inv_step.
    { intros key' [c Hc]. simpl. rewrite bool_decide_eq_false_2; [done|].
      intros <-. fold key in Hc. congruence. }
    by eapply fs_inv_update with (t := t) (i := i); try done;
      constructor; simpl; rewrite ?Hnames.
  - assert (fs_inv tr (active (mgr w)) (completed (mgr w)) d) as Hi'.
    { rewrite <- (insert_id _ _ _ Ht). by eapply fs_inv_update with (t := t) (i := i); try done;
        constructor; rewrite ?Hnames. }
    simpl in HC. destruct (dir_remove d (partialName t)) as [d' r2] eqn:HR.
    eapply remove_partial_fs in HR; [|done..]. apply fs_inv_step; [destruct r2; by simplify_eq|].
    destruct r2; by simplify_eq/=.
Qed.

Lemma finalName_spec key r chunks t :
  transfer_matches key r chunks t → no_separator (storagePrefix t) = true →
  let n := (storagePrefix t ++ extension (policy t))%string in
  no_separator n = true ∧ (2 < String.length n)%nat ∧ n ≠ (storagePrefix t ++ ".partial")%string.
Proof.
  intros Hm Hs n. destruct (policy_extension _ _ _ (tm_policy _ _ _ _ Hm)) as (He1 & He2 & He3).
  subst n. rewrite no_separator_app, Hs, He1. split_and!; [done| |].
  - rewrite string_length_app. lia.
  - by intros E%(inj _).
Qed.

(** The outcome of publishing a partial under its final name. *)
Lemma rename_Ok_fs tr A C d d' key t r chunks i c u new :
  fs_inv tr A C d → A !! key = Some t → C !! key = None → partial_file d t i →
  upload tr key = Some (r, chunks) → hasher t = concat chunks → totalSize t = len (hasher t) →
  filepath_Base (RelativePath c) = new → dir_rename d (partialName t) new = (d', Ok u) →
  fs_inv tr (delete key A) (<[key:=c]> C) d'.
Proof.
  intros Hi Ht HC Hp Hu Hh Hsz Hb HR.
  apply law_rename in HR as (Hok & Hc & Hne & j & Hj & Hnew & Hnames); [|apply Hi].
  destruct Hp as [Hp1 Hp2 Hp3 _ _]. assert (j = i) as -> by congruence.
  pose proof (others_inode _ _ _ _ _ _ _ Hi Ht HC Hp1) as Hoth.
  assert (∀ key' n, tracks (delete key A) C key' n → names d' !! n = names d !! n) as Hsame.
  { intros key' n Hk. destruct (fs_inv_tracked _ _ _ _ key' n Hi) as [j Ej].
    { by eapply tracks_weaken; [apply delete_subseteq|reflexivity|]. }
    assert (j ≠ i) by (intros ->; by eapply Hoth).
    rewrite Hnames, lookup_insert_ne, lookup_delete_ne; [done| |];
      intros E; destruct Hnew; congruence. }
  apply fs_inv_insert_completed with (i := i) (r := r) (chunks := chunks); auto.
  - eapply fs_inv_dir; [by eapply fs_inv_weaken; [apply delete_subseteq|reflexivity|]|done|].
    intros k n j Hk E. by rewrite (Hsame _ _ Hk), Hc.
  - rewrite Hb, Hnames. apply lookup_insert_eq.
  - rewrite Hc, <- Hh, <- Hp2. symmetry. apply take_ge. unfold len in *. lia.
  - intros k n Hk E. rewrite (Hsame _ _ Hk) in E. by eapply Hoth.
Qed.

Lemma rename_Err_fs tr A C d d' key t i e new :
  fs_inv tr A C d → A !! key = Some t → C !! key = None → partial_file d t i →
  new ≠ partialName t → dir_rename d (partialName t) new = (d', Err e) → fs_inv tr A C d'.
Proof.
  intros Hi Ht HC Hp Hne HR. apply law_rename in HR as (Hok & Hc & Hn & Hd); [|apply Hi].
  eapply fs_inv_dir; [done..|]. apply (preserved_frame _ _ _ _ new); [done..|].
  intros key' j Hk E. destruct Hd as [->|(i' & E1 & E2)]; [done|]. exfalso.
  assert (i' = i) as -> by (destruct Hp; congruence). assert (key' = key) as ->.
  { eapply (f_owner _ _ _ _ Hi key' key); [done|by apply tracks_active|done|].
    destruct E2; congruence. }
  by inv Hk.
Qed.

Lemma Complete_fs tr w id w' res :
  storage_inv tr w → Complete w id = (w', res) →
  fs_inv (tr ++ [(OpComplete id, Attached res)]) (active (mgr w')) (completed (mgr w')) (dir w').
Proof.
  intros [Hq Hct Hi] HC. unfold Complete, fail, failTransferLocked in HC.
  set (key := string_of_bytes id) in HC. apply fs_inv_step; [done|].
  destruct (_ || _); [by simplify_eq|]. destruct (negb _); [by simplify_eq|].
  destruct (completed (mgr w) !! key) eqn:Hc; [by simplify_eq|].
  destruct (active (mgr w) !! key) as [t|] eqn:Ht; [|by simplify_eq].
  assert (∀ d r, dir_remove (dir w) (partialName t) = (d, r) →
    fs_inv tr (if is_ok r then delete key (active (mgr w)) else active (mgr w)) (completed (mgr w)) d)
    as Hrej by (intros d r; by eapply remove_partial_fs).
  repeat match type of HC with
  | context [if negb ?b then let '(_, _) := _ in _ else _] =>
      destruct b eqn:?; simpl in HC;
        [|destruct (dir_remove _ _) as [d [|]]; specialize (Hrej _ _ eq_refl); by simplify_eq/=]
  end. clear Hrej.
  destruct (relativeReference _ _) as [path|] eqn:Hrel; [|by simplify_eq].
  destruct (ci_active _ _ Hct _ _ Ht) as (r & chunks & Hu & Hm).
  destruct (f_active _ _ _ _ Hi _ _ Ht) as [i Hp].
  destruct (finalName_spec _ _ _ _ Hm (pf_separator _ _ _ Hp)) as (Hn1 & Hn2 & Hn3).
  rewrite <- (pf_name _ _ _ Hp) in Hn3.
  destruct (dir_rename _ _ _) as [d [u|e]] eqn:HR; simplify_eq/=.
  - pose proof (tm_hasher _ _ _ _ Hm) as Hh. pose proof (tm_received _ _ _ _ Hm).
    eapply rename_Ok_fs; try done; [rewrite Hh; lia|].
    simpl. by rewrite (law_base _ _ _ Hn1 Hn2 Hrel).
  - eapply (rename_Err_fs _ _ _ _ _ _ _ _ _ _ Hi) in HR as Hi'; [|done..].
    rewrite <- insert_delete_eq. destruct (f_active _ _ _ _ Hi' _ _ Ht) as [i' Hp'].
    eapply fs_inv_insert_active with (i := i'); [|apply lookup_delete_eq|by destruct Hp'|].
    + by eapply fs_inv_weaken; [apply delete_subseteq|reflexivity|].
    + eapply others_inode; [done..|]. apply Hp'.
Qed.

(** ** Dropping transfers *)

Definition held (tr : history) w : Prop :=
  content_inv tr w ∧ fs_inv tr (active (mgr w)) (completed (mgr w)) (dir w).

Lemma held_fields tr w w' :
  active (mgr w') = active (mgr w) → completed (mgr w') = completed (mgr w) → dir w' = dir w →
  held tr w → held tr w'.
Proof.
  unfold held. intros E1 E2 E3 [Hc Hf]. rewrite E1, E2, E3. split; [|done].
  eapply content_weaken; [done|]. by apply shrinks_same.
Qed.

Lemma cleanupActive_fs tr w key t d r :
  held tr w → active (mgr w) !! key = Some t → cleanupActiveTransferLocked (dir w) t = (d, r) →
  fs_inv tr (if is_ok r then delete key (active (mgr w)) else active (mgr w)) (completed (mgr w)) d.
Proof.
  intros [Hct Hi] Ht Hcl. pose proof (ci_disjoint _ _ Hct _ _ Ht) as HC.
  destruct (ci_active _ _ Hct _ _ Ht) as (b & chunks & _ & Hm).
  destruct (f_active _ _ _ _ Hi _ _ Ht) as [i Hp].
  destruct (finalName_spec _ _ _ _ Hm (pf_separator _ _ _ Hp)) as (_ & _ & Hne).
  rewrite <- (pf_name _ _ _ Hp) in Hne. unfold cleanupActiveTransferLocked in Hcl.
  destruct (publicationAttempted t); [|by eapply remove_partial_fs].
  destruct (dir_removePublishedLink _ _ _) as [d1 [u|e]] eqn:HL;
    eapply removePublishedLink_fs in HL; try done; simplify_eq/=; [|done].
  by eapply remove_partial_fs.
Qed.

Lemma dropActive_held tr w key what w' r :
  held tr w → dropActive w key what = (w', r) → held tr w'.
Proof.
  intros Hh HD. pose proof (dropActive_shrinks _ _ _ _ _ HD) as Hs.
  split; [by eapply content_weaken, Hs; apply Hh|]. unfold dropActive in HD.
  destruct (active (mgr w) !! key) as [t|] eqn:Ht; [|simplify_eq; apply Hh].
  destruct (cleanupActiveTransferLocked _ t) as [d r1] eqn:Hcl.
  apply (cleanupActive_fs _ _ _ _ _ _ Hh Ht) in Hcl. destruct r1; by simplify_eq/=.
Qed.

Lemma completed_owner tr A C d key key' c :
  fs_inv tr A C d → C !! key = Some c → tracks A C key' (filepath_Base (RelativePath c)) → key' = key.
Proof.
  intros Hi Hc Hk. destruct (f_completed _ _ _ _ Hi _ _ Hc) as (i & _ & _ & Hn & _).
  by eapply (f_owner _ _ _ _ Hi key' key); [done|by apply tracks_completed| |].
Qed.

Lemma dropCompleted_held tr w key w' r :
  held tr w → dropCompleted w key = (w', r) → held tr w'.
Proof.
  intros [Hct Hi] HD. pose proof (dropCompleted_shrinks _ _ _ _ HD) as Hs.
  split; [by eapply content_weaken, Hs|]. unfold dropCompleted in HD.
  destruct (completed (mgr w) !! key) as [c|] eqn:Hc; [|by simplify_eq].
  destruct (dir_remove _ _) as [d r1] eqn:HR.
  assert (fs_inv tr (active (mgr w))
    (if is_ok r1 then delete key (completed (mgr w)) else completed (mgr w)) d) as Hi'.
  { eapply remove_fs; [done|done|done|case_match; [apply delete_subseteq|done]|].
    intros key' Hk. destruct r1; simpl in *; [|done].
    assert (key' = key) as ->.
    { eapply completed_owner; [done..|]. by eapply tracks_weaken; [reflexivity|apply delete_subseteq|]. }
    inv Hk; [|by rewrite lookup_delete_eq in *].
    match goal with H : active _ !! _ = Some _ |- _ => apply (ci_disjoint _ _ Hct) in H end. congruence. }
  destruct r1; by simplify_eq/=.
Qed.

Lemma recordCancelled_held tr w key : held tr w → held tr (recordCancelledLocked w key).
Proof. apply held_fields; by apply recordCancelled_fields. Qed.

Lemma discardLoop_held tr ids w w' r :
  held tr w → discardLoop w ids = (w', r) → held tr w'.
Proof.
  revert w. induction ids as [|id ids IH]; intros w Hh H; simplify_eq/=; [done|].
  go_cases; eauto using dropActive_held, dropCompleted_held, recordCancelled_held.
Qed.

Lemma closeLoop_held tr order w w' es :
  held tr w → closeLoop w order = (w', es) → held tr w'.
Proof.
  revert w es. induction order as [|key order IH]; intros w es Hh H; simplify_eq/=; [done|].
  go_cases; eauto using dropActive_held.
Qed.

Lemma Close_held tr w order w' r : held tr w → Close w order = (w', r) → held tr w'.
Proof.
  intros Hh HC. unfold Close in HC. destruct (closed (mgr w)); [by simplify_eq|].
  destruct (closeLoop _ order) as [w1 es] eqn:HL. apply (closeLoop_held tr) in HL;
    [|by apply (held_fields tr w)].
  destruct (joinErrors es); [by simplify_eq|].
  destruct (dir_close _ _) as [[d s] r'] eqn:HD. simplify_eq/=.
  apply law_close in HD as (Hok & Hn & Hc); [|apply HL].
  split; [by eapply content_weaken; [apply HL|]|]. simpl.
  by eapply fs_inv_dir_same; [apply HL|done|rewrite Hn|].
Qed.

Lemma Cancel_held tr w id w' r : held tr w → Cancel w id = (w', r) → held tr w'.
Proof.
  unfold Cancel. intros Hh HC. go_cases; eauto using dropActive_held, recordCancelled_held.
Qed.

Lemma step_storage tr w op w' r :
  op_ok op → storage_inv tr w → transfer_step w op = (w', r) → storage_inv (tr ++ [(op, r)]) w'.
Proof.
  intros Hok Hs Hst. pose proof (step_quota _ _ _ _ _ _ Hok (s_quota _ _ Hs) Hst) as Hq.
  pose proof (step_content _ _ _ _ _ Hok (s_content _ _ Hs) Hst) as Hct.
  split; [done|done|]. assert (held tr w) as Hh by (split; apply Hs).
  destruct op; cbn [transfer_step] in Hst; repeat case_match; simplify_eq;
    eauto using Begin_fs, Chunk_fs, Complete_fs.
  all: apply fs_inv_step; [done|].
  - unfold Discard in *. go_cases; try apply Hh. eapply discardLoop_held; done.
  - by eapply Cancel_held.
  - by eapply Close_held.
Qed.

Lemma run_storage os : ∀ tr0 w w' tr,
  Forall op_ok os → storage_inv tr0 w → transfer_run w os = (w', tr) → storage_inv (tr0 ++ tr) w'.
Proof.
  induction os as [|op os IH]; intros tr0 w w' tr Hok Hi Hr; simplify_eq/=; [by rewrite app_nil_r|].
  inv Hok. destruct (transfer_step w op) as [w1 r] eqn:Hs.
  destruct (transfer_run w1 os) as [w2 tr2] eqn:Hr2. simplify_eq/=.
  change (tr0 ++ (op, r) :: tr2) with (tr0 ++ [(op, r)] ++ tr2). rewrite app_assoc.
  eauto using step_storage.
Qed.
End Storage.

Section StorageTheorem.
Context {D : Type} {ops : StagingOps D} {counts : StagingCounts D} {laws : StagingLaws D} {gm : GoMime}.

(** C1: in every state a session's manager reaches, each completed attachment
    is backed by a published file of its own, named by its reference, whose
    content is the concatenation of the chunks accepted for it and has the
    attachment's size and SHA-256.  Interrupted writes, failed publications,
    name collisions, cancellations and discards of other transfers never touch
    it. *)
Theorem published_files_hold_uploads d s a rand d' s' a' w os w' tr :
  dir_ok d → 0 <= completedBytesReserved s <= defaultMaxSessionBytes →
  NewManagerWithAggregate d s a rand = (d', s', a', Ok w) →
  Forall op_ok os → transfer_run w os = (w', tr) →
  (∀ key c, completed (mgr w') !! key = Some c → ∃ i r chunks,
    names (dir w') !! filepath_Base (RelativePath c) = Some i ∧
    upload tr key = Some (r, chunks) ∧ content (dir w') i = concat chunks ∧
    SHA256 c = Sum256 (concat chunks) ∧ SizeBytes c = len (concat chunks)) ∧
  (∀ k1 k2 c1 c2, completed (mgr w') !! k1 = Some c1 → completed (mgr w') !! k2 = Some c2 →
    filepath_Base (RelativePath c1) = filepath_Base (RelativePath c2) → k1 = k2).
Proof.
  intros Hok Hb HN Hops Hrun. assert (dir_ok (dir w)) as Hdir.
  { unfold NewManagerWithAggregate, newTransferManager in HN. go_cases; by eapply law_open. }
  apply NewManagerWithAggregate_Ok in HN as (Hm & Hs & _).
  assert (storage_inv defaultLimits (completedBytesReserved s) [] w) as Hi.
  { split.
    - destruct w as [m st ag di]; simpl in *; subst m. rewrite <- Hs in *.
      apply newManager_quota; [apply defaultLimits_ok|done].
    - by eapply fresh_content.
    - rewrite Hm. split; [done|by intros ????? []|done..]. }
  destruct (run_storage _ _ _ _ _ _ _ Hops Hi Hrun) as [_ Hct Hf]. simpl in Hct, Hf. split.
  - intros key c Hc. destruct (f_completed _ _ _ _ Hf _ _ Hc) as (i & r & chunks & Hn & Hu & Hcont).
    destruct (ci_completed _ _ Hct _ _ Hc) as (r' & chunks' & Hu' & []). simplify_eq.
    exists i, r, chunks. done.
  - intros k1 k2 c1 c2 H1 H2 E. eapply completed_owner; [done|exact H2|]. rewrite <- E.
    by apply tracks_completed.
Qed.
End StorageTheorem.
