(* ===== verification/StagingDirectory.v ===== *)
(** * The staging directory ([internal/attachment/fileops.go], and the errors
      and boundary checks of [internal/attachment/staging.go])

    [stagingDirectory] creates, writes, publishes and removes the files of one
    session through an [os.Root].  The model has the directory entries, the
    inodes behind them and a clock of system calls; any call may fail, at a time
    the class [OS] decides, and a failing write may have stored a prefix of its
    data.  At the end the two contracts the transfer manager relies on are
    discharged. *)

From S2P Require Import Prelude.
From S2P Require Import Utf8.
From S2P Require Import ContentPolicy.
From S2P Require Import Aggregate.
From S2P Require Import Transfer.
From S2P Require Import TransferQuota.
From S2P Require Import TransferContent.
From S2P Require Import TransferStorage.

(** ** The operating system *)

Definition fs_ErrInvalid := ErrorString "invalid argument".
Definition fs_ErrPermission := ErrorString "permission denied".
Definition fs_ErrNotExist := ErrorString "file does not exist".
Definition fs_ErrClosed := ErrorString "file already closed".
Definition io_ErrShortWrite := ErrorString "short write".

(** What the environment decides: which call fails and with what, how much a
    failing write stored, what the workspace check and the inspection of a path
    answer at a given time.  The system reports that a name is missing or taken
    only when it is so.  The path functions are the platform's. *)
Class OS := {
  fault : nat → option error;
  fault_truthful n e : fault n = Some e →
    errors_is e fs_ErrNotExist = false ∧ errors_is e fs_ErrExist = false;
  stored : nat → nat;
  RevalidateDirectory : nat → string → string → result string;
  os_Stat : nat → string → result nat;
  errors_AsErrno : error → option error;
  filepath_Clean : string → string;
  path_Rel : string → string → option string;
  path_Join : string → string → string;
  path_Base : string → string;
  path_Dir : string → string;
  path_Base_Rel root dir n q : no_separator n = true → (2 < String.length n)%nat →
    path_Rel root (path_Join dir n) = Some q → path_Base q = n;
}.

Inductive entry := Regular (inode : nat) | Directory | Irregular.

(** The directory identity a handle was bound to. *)
Record binding := mkBinding {
  bound_root : string;
  bound_path : string;
  identity : nat;
}.

Record stagingDirectory := mkStagingDirectory {
  entries : gmap string entry;
  inodes : gmap nat bytes;
  nextInode : nat;
  clock : nat;
  bound : option binding;
  directory_closed : bool;
}.

#[global] Instance stagingDirectory_eta : Eta stagingDirectory := fun d =>
  mkStagingDirectory (entries d) (inodes d) (nextInode d) (clock d) (bound d) (directory_closed d).

Section FileOps.
Context {os : OS}.
Implicit Types (d : stagingDirectory).

Definition tick d : stagingDirectory := d <| clock ::= S |>.

Definition syscall {A} d (body : stagingDirectory → stagingDirectory * result A)
    : stagingDirectory * result A :=
  match fault (clock d) with
  | Some e => (tick d, Err e)
  | None => body (tick d)
  end.

(** *** Calls on the root *)

Definition Lstat d (name : string) : stagingDirectory * result entry :=
  syscall d (fun d => (d, match entries d !! name with
                          | Some e => Ok e
                          | None => Err (ErrorWrap "lstat" fs_ErrNotExist)
                          end)).

(** [OpenFile] with [O_CREATE|O_EXCL]. *)
Definition OpenExclusive d (name : string) : stagingDirectory * result nat :=
  syscall d (fun d =>
    match entries d !! name with
    | Some _ => (d, Err (ErrorWrap "open" fs_ErrExist))
    | None =>
        let i := nextInode d in
        (d <| entries ::= insert name (Regular i) |> <| inodes ::= insert i [] |>
           <| nextInode := S i |>, Ok i)
    end).

(** [Open] and [OpenFile] of an existing entry. *)
Definition OpenExisting d (name : string) : stagingDirectory * result nat :=
  syscall d (fun d => (d, match entries d !! name with
                          | Some (Regular i) => Ok i
                          | Some _ => Err (ErrorWrap "open" fs_ErrInvalid)
                          | None => Err (ErrorWrap "open" fs_ErrNotExist)
                          end)).

Definition File_Stat d (i : nat) : stagingDirectory * result nat := syscall d (fun d => (d, Ok i)).
Definition File_Close d : stagingDirectory * result unit := syscall d (fun d => (d, Ok tt)).

Definition file_write (c : bytes) (off : nat) (data : bytes) : bytes :=
  take off (c ++ replicate (off - length c) "000"%byte) ++ data ++ drop (off + length data) c.

Definition store d (i : nat) (off : Z) (data : bytes) : stagingDirectory :=
  d <| inodes ::= fun m => <[i := file_write (default [] (m !! i)) (Z.to_nat off) data]> m |>.

(** [WriteAt] returns the number of bytes written and the error. *)
Definition File_WriteAt d (i : nat) (data : bytes) (off : Z)
    : stagingDirectory * (Z * option error) :=
  match fault (clock d) with
  | Some e =>
      let data := take (stored (clock d)) data in (store (tick d) i off data, (len data, Some e))
  | None => (store (tick d) i off data, (len data, None))
  end.

Definition Root_Link d (old new : string) : stagingDirectory * result unit :=
  syscall d (fun d =>
    match entries d !! old, entries d !! new with
    | None, _ => (d, Err (ErrorWrap "link" fs_ErrNotExist))
    | Some _, Some _ => (d, Err (ErrorWrap "link" fs_ErrExist))
    | Some (Regular i), None => (d <| entries ::= insert new (Regular i) |>, Ok tt)
    | Some _, None => (d, Err (ErrorWrap "link" fs_ErrPermission))
    end).

(** A directory entry is not removed: it counts as non-empty. *)
Definition Root_Remove d (name : string) : stagingDirectory * result unit :=
  syscall d (fun d =>
    match entries d !! name with
    | None => (d, Err (ErrorWrap "unlinkat" fs_ErrNotExist))
    | Some Directory => (d, Err (ErrorWrap "unlinkat" fs_ErrExist))
    | Some _ => (d <| entries ::= delete name |>, Ok tt)
    end).

(** *** Errors *)

Fixpoint firstSentinel (err : error) (sentinels : list error) : option error :=
  match sentinels with
  | [] => None
  | s :: rest => if errors_is err s then Some s else firstSentinel err rest
  end.

Definition safePathOperationCause (err : error) : option error :=
  match errors_AsErrno err with
  | Some errno => Some errno
  | None => firstSentinel err
      [fs_ErrInvalid; fs_ErrPermission; fs_ErrExist; fs_ErrNotExist; fs_ErrClosed; io_ErrShortWrite]
  end.

(** Only the classification of the cause is kept, never its path. *)
Definition newPathOperationError (operation : string) (err : error) : error :=
  match safePathOperationCause err with
  | Some cause => ErrorWrap (operation ++ " failed") cause
  | None => ErrorString (operation ++ " failed")
  end.

Definition IsNotExist (e : error) : bool := errors_is e fs_ErrNotExist.

(** [a, err := m; if err != nil { return w(err) }]. *)
Definition bindE {A B} (m : stagingDirectory * result A) (w : error → error)
    (k : stagingDirectory → A → stagingDirectory * result B) : stagingDirectory * result B :=
  let '(d, r) := m in match r with Ok a => k d a | Err e => (d, Err (w e)) end.

(** *** Generated names *)

Definition generatedFileIDBytes : Z := 16.
Definition generatedFileIDHexLength : Z := generatedFileIDBytes * 2.

Definition generatedStoragePrefix (r : result bytes) : result string :=
  match r with
  | Ok identifier => Ok (hexEncode identifier)
  | Err _ => Err (ErrorString "generate attachment storage identifier failed")
  end.

Definition allowedStagingSuffix (suffix : string) : bool :=
  bool_decide (suffix ∈ ["partial"; "png"; "jpg"; "jpeg"; "webp"; "gif"; "txt"; "log"; "md";
    "markdown"; "json"; "yaml"; "yml"; "toml"; "csv"; "pdf"]%string).

(** [strings.Cut(name, ".")]. *)
Fixpoint CutDot (s : string) : option (string * string) :=
  match s with
  | EmptyString => None
  | String a s' =>
      if Ascii.eqb a "." then Some (EmptyString, s')
      else match CutDot s' with Some (x, y) => Some (String a x, y) | None => None end
  end.

Definition isHexDigit (a : ascii) : bool :=
  let n := N_of_ascii a in
  ((48 <=? n) && (n <=? 57) || (97 <=? n) && (n <=? 102) || (65 <=? n) && (n <=? 70))%N.

(** [hex.DecodeString] succeeds on an even number of hexadecimal digits. *)
Definition hexDecodable (s : string) : bool :=
  Nat.even (String.length s) && forallb isHexDigit (list_ascii_of_string s).

Definition validGeneratedStagingName (name : string) : bool :=
  if ContainsAny name (string_of_bytes ["/"; "\"; "000"]%byte) then false
  else match CutDot name with
  | None => false
  | Some (identifier, suffix) =>
      if negb (slen identifier =? generatedFileIDHexLength) ||
         negb (bool_decide (identifier = ToLower identifier)) then false
      else if negb (hexDecodable identifier) then false
      else allowedStagingSuffix suffix
  end.

(** *** Boundary checks *)

Definition validateCanonicalDirectory d (root path : string) : stagingDirectory * result unit :=
  (tick d,
   match RevalidateDirectory (clock d) root path with
   | Err _ => Err (ErrorString "staging path boundary is invalid")
   | Ok c =>
       if negb (bool_decide (filepath_Clean c = filepath_Clean path)) then
         Err (ErrorString "staging path component must be canonical")
       else Ok tt
   end).

Definition boundaryError : error := ErrorString "session staging boundary is no longer valid".

Definition validateBoundDirectory d (b : binding) : stagingDirectory * result unit :=
  bindE (validateCanonicalDirectory d (bound_root b) (bound_path b)) (fun _ => boundaryError) (fun d _ =>
  bindE (tick d, os_Stat (clock d) (bound_path b))
    (newPathOperationError "inspect current session staging directory") (fun d currentPath =>
  bindE (syscall d (fun d => (d, Ok (identity b))))
    (newPathOperationError "inspect bound session staging directory") (fun d currentHandle =>
  if negb (Nat.eqb (identity b) currentHandle) || negb (Nat.eqb (identity b) currentPath)
  then (d, Err (ErrorString "session staging directory identity changed"))
  else (d, Ok tt)))).

Definition validateOperation d : stagingDirectory * result unit :=
  match bound d with
  | None => (d, Err (ErrorString "session staging directory is closed"))
  | Some b =>
      if directory_closed d then (d, Err (ErrorString "session staging directory is closed"))
      else validateBoundDirectory d b
  end.

Definition invalidName {A} d : stagingDirectory * result A :=
  (d, Err (ErrorString "staged filename is invalid")).

(** *** Files *)

Definition staging_create d (name : string) : stagingDirectory * result unit :=
  if negb (validGeneratedStagingName name) then invalidName d
  else
    bindE (validateOperation d) id (fun d _ =>
    bindE (OpenExclusive d name) (newPathOperationError "create staged file") (fun d _ =>
    match File_Close d with
    | (d, Err e) =>
        let '(d, _) := Root_Remove d name in
        (d, Err (newPathOperationError "close created staged file" e))
    | (d, Ok _) => (d, Ok tt)
    end)).

Definition staging_writeAt d (name : string) (offset : Z) (data : bytes)
    : stagingDirectory * result unit :=
  if negb (validGeneratedStagingName name) then invalidName d
  else if offset <? 0 then (d, Err (ErrorString "staged file offset must not be negative"))
  else
    bindE (validateOperation d) id (fun d _ =>
    bindE (Lstat d name) (newPathOperationError "inspect staged file before write") (fun d entryInfo =>
    match entryInfo with
    | Regular entryInode =>
        bindE (OpenExisting d name) (newPathOperationError "open staged file for write") (fun d file =>
        match File_Stat d file with
        | (d, Err e) =>
            let '(d, _) := File_Close d in
            (d, Err (newPathOperationError "inspect opened staged file" e))
        | (d, Ok openedInode) =>
            if negb (Nat.eqb entryInode openedInode) then
              let '(d, _) := File_Close d in
              (d, Err (ErrorString "staged file changed while opening"))
            else
              let '(d, (written, writeErr)) := File_WriteAt d file data offset in
              let '(d, closeErr) := File_Close d in
              match writeErr with
              | Some e => (d, Err (newPathOperationError "write staged file" e))
              | None =>
                  if negb (written =? len data) then
                    (d, Err (newPathOperationError "write staged file" io_ErrShortWrite))
                  else match closeErr with
                       | Err e => (d, Err (newPathOperationError "close written staged file" e))
                       | Ok _ => (d, Ok tt)
                       end
              end
        end)
    | _ => (d, Err (ErrorString "staged file must remain a regular file"))
    end)).

Definition rollbackPublication d (name : string) (cause : error) : stagingDirectory * result unit :=
  match Root_Remove d name with
  | (d, Err e) =>
      if negb (IsNotExist e)
      then (d, Err (ErrorJoin cause (newPathOperationError "roll back staged publication" e)))
      else (d, Err cause)
  | (d, Ok _) => (d, Err cause)
  end.

(** The end of [rename], once both entries are known to be the same file. *)
Definition finishPublication d (oldName newName : string) (sourceInode : nat)
    : stagingDirectory * result unit :=
  match File_Close d with
  | (d, Err e) => rollbackPublication d newName (newPathOperationError "close staged rename source" e)
  | (d, Ok _) =>
      match Lstat d oldName with
      | (d, Err e) =>
          rollbackPublication d newName (newPathOperationError "reinspect staged rename source" e)
      | (d, Ok currentSource) =>
          if negb (match currentSource with Regular i => Nat.eqb sourceInode i | _ => false end) then
            rollbackPublication d newName
              (ErrorString "staged rename source changed before removal")
          else match Root_Remove d oldName with
               | (d, Err e) => rollbackPublication d newName
                                 (newPathOperationError "remove published staged source" e)
               | (d, Ok _) => (d, Ok tt)
               end
      end
  end.

Definition staging_rename d (oldName newName : string) : stagingDirectory * result unit :=
  if negb (validGeneratedStagingName oldName) || negb (validGeneratedStagingName newName) then
    invalidName d
  else if bool_decide (oldName = newName) then
    (d, Err (ErrorString "staged rename requires distinct names"))
  else
    bindE (validateOperation d) id (fun d _ =>
    bindE (Lstat d oldName) (newPathOperationError "inspect staged rename source") (fun d sourceEntry =>
    match sourceEntry with
    | Regular entryInode =>
        bindE (OpenExisting d oldName) (newPathOperationError "open staged rename source") (fun d source =>
        match File_Stat d source with
        | (d, Err e) =>
            let '(d, _) := File_Close d in
            (d, Err (newPathOperationError "inspect opened staged rename source" e))
        | (d, Ok sourceInode) =>
            if negb (Nat.eqb entryInode sourceInode) then
              let '(d, _) := File_Close d in
              (d, Err (ErrorString "staged rename source changed while opening"))
            else
              let '(d, linkErr) := Root_Link d oldName newName in
              let published e := Err (newPathOperationError "publish staged file" e) in
              match linkErr with
              | Err e =>
                  if negb (errors_is e fs_ErrExist) then
                    let '(d, _) := File_Close d in (d, published e)
                  else match Lstat d newName with
                  | (d, Ok (Regular i)) =>
                      if Nat.eqb sourceInode i then finishPublication d oldName newName sourceInode
                      else let '(d, _) := File_Close d in (d, published e)
                  | (d, _) => let '(d, _) := File_Close d in (d, published e)
                  end
              | Ok _ =>
                  match Lstat d newName with
                  | (d, Err e) =>
                      let '(d, _) := File_Close d in
                      rollbackPublication d newName
                        (newPathOperationError "inspect published staged file" e)
                  | (d, Ok destination) =>
                      if match destination with Regular i => Nat.eqb sourceInode i | _ => false end
                      then finishPublication d oldName newName sourceInode
                      else
                        let '(d, _) := File_Close d in
                        rollbackPublication d newName
                          (ErrorString "published staged file identity does not match source")
                  end
              end
        end)
    | _ => (d, Err (ErrorString "staged rename source must be a regular file"))
    end)).

Definition staging_removePublishedLink d (sourceName destinationName : string)
    : stagingDirectory * result unit :=
  if negb (validGeneratedStagingName sourceName) || negb (validGeneratedStagingName destinationName)
  then invalidName d
  else
    bindE (validateOperation d) id (fun d _ =>
    bindE (Lstat d sourceName) (newPathOperationError "inspect interrupted publication source")
      (fun d source =>
    match source with
    | Regular sourceInode =>
        match Lstat d destinationName with
        | (d, Err e) =>
            if IsNotExist e then (d, Ok tt)
            else (d, Err (newPathOperationError "inspect interrupted publication destination" e))
        | (d, Ok destination) =>
            if negb (match destination with Regular i => Nat.eqb sourceInode i | _ => false end)
            then (d, Ok tt)
            else match Root_Remove d destinationName with
                 | (d, Err e) =>
                     if negb (IsNotExist e)
                     then (d, Err (newPathOperationError "remove interrupted publication destination" e))
                     else (d, Ok tt)
                 | (d, Ok _) => (d, Ok tt)
                 end
        end
    | _ => (d, Err (ErrorString "interrupted publication source must be a regular file"))
    end)).

Definition staging_remove d (name : string) : stagingDirectory * result unit :=
  if negb (validGeneratedStagingName name) then invalidName d
  else
    bindE (validateOperation d) id (fun d _ =>
    match Lstat d name with
    | (d, Err e) =>
        if IsNotExist e then (d, Ok tt)
        else (d, Err (newPathOperationError "inspect staged file before removal" e))
    | (d, Ok Directory) => (d, Err (ErrorString "staged file entry must not be a directory"))
    | (d, Ok _) =>
        match Root_Remove d name with
        | (d, Err e) =>
            if negb (IsNotExist e) then (d, Err (newPathOperationError "remove staged file" e))
            else (d, Ok tt)
        | (d, Ok _) => (d, Ok tt)
        end
    end).

(** *** Opening and closing *)

Definition probeHardLinkPublication d (rand : nat → result bytes) : stagingDirectory * result unit :=
  match generatedStoragePrefix (rand 0%nat) with
  | Err _ => (d, Err (ErrorString "generate staging publication probe failed"))
  | Ok prefix =>
      let sourceName := (prefix ++ ".partial")%string in
      let destinationName := (prefix ++ ".txt")%string in
      bindE (OpenExclusive d sourceName) (newPathOperationError "create staging publication probe")
        (fun d _ =>
      match File_Close d with
      | (d, Err e) =>
          let '(d, _) := Root_Remove d sourceName in
          (d, Err (newPathOperationError "close staging publication probe" e))
      | (d, Ok _) =>
          match Root_Link d sourceName destinationName with
          | (d, Err _) =>
              let '(d, _) := Root_Remove d sourceName in
              (d, Err (ErrorString "staging filesystem does not support safe attachment publication"))
          | (d, Ok _) =>
              let '(d, removeDestinationErr) := Root_Remove d destinationName in
              let '(d, removeSourceErr) := Root_Remove d sourceName in
              match removeDestinationErr, removeSourceErr with
              | Err e, _ =>
                  (d, Err (newPathOperationError "remove staging publication probe destination" e))
              | _, Err e =>
                  (d, Err (newPathOperationError "remove staging publication probe source" e))
              | Ok _, Ok _ => (d, Ok tt)
              end
          end
      end)
  end.

Definition openStagingDirectory d (s : SessionStaging) (rand : nat → result bytes)
    : stagingDirectory * SessionStaging * result unit :=
  if cleaned s then (d, s, Err (ErrorString "session staging is already cleaned"))
  else
    let '(d, r) :=
      bindE (validateCanonicalDirectory d (workspaceRoot s) (staging_path s))
        (fun _ => boundaryError) (fun d _ =>
      bindE (syscall d (fun d => (d, Ok tt))) (newPathOperationError "open session staging directory")
        (fun d _ =>
      bindE (tick d, os_Stat (clock d) (staging_path s))
        (newPathOperationError "inspect opened session staging directory") (fun d identity =>
      let b := mkBinding (workspaceRoot s) (staging_path s) identity in
      bindE (validateBoundDirectory d b) id (fun d _ =>
      bindE (probeHardLinkPublication d rand) id (fun d _ =>
      (d <| bound := Some b |> <| directory_closed := false |>, Ok tt)))))) in
    match r with
    | Ok _ => (d, s <| openDirectories ::= fun n => n + 1 |>, Ok tt)
    | Err e => (d, s, Err e)
    end.

Definition staging_close d (s : SessionStaging) : stagingDirectory * SessionStaging * result unit :=
  match bound d with
  | None => (d, s, Ok tt)
  | Some _ =>
      if directory_closed d then (d, s, Ok tt)
      else
        let '(d, r) := syscall (d <| directory_closed := true |>) (fun d => (d, Ok tt)) in
        let s := if openDirectories s >? 0 then s <| openDirectories ::= fun n => n - 1 |> else s in
        match r with
        | Err e => (d, s, Err (newPathOperationError "close session staging directory" e))
        | Ok _ => (d, s, Ok tt)
        end
  end.
End FileOps.

#[global] Instance staging_ops {os : OS} : StagingOps stagingDirectory := {|
  dir_open := openStagingDirectory;
  dir_create := staging_create;
  dir_writeAt := staging_writeAt;
  dir_rename := staging_rename;
  dir_remove := staging_remove;
  dir_removePublishedLink := staging_removePublishedLink;
  dir_close := staging_close;
  relativeReference s name := path_Rel (workspaceRoot s) (path_Join (staging_path s) name);
  filepath_Base := path_Base;
|}.

#[global] Instance staging_counts {os : OS} : StagingCounts stagingDirectory.
Proof.
  split; simpl; intros.
  - unfold openStagingDirectory in *. go_cases; auto.
  - unfold staging_close in *. go_cases; auto.
Qed.

(** ** What the calls do *)

Section Facts.
Context {os : OS}.
Implicit Types (d : stagingDirectory).

(** Two states with the same files. *)
Record same d d' : Prop := mkSame {
  same_entries : entries d' = entries d;
  same_inodes : inodes d' = inodes d;
  same_next : nextInode d' = nextInode d;
}.

#[local] Instance same_preorder : PreOrder same.
Proof. split; [done|]. intros d1 d2 d3 [] []. constructor; congruence. Qed.

Lemma same_tick d : same d (tick d).
Proof. done. Qed.

Lemma Lstat_spec d n d' r : Lstat d n = (d', r) →
  same d d' ∧ match r with
              | Ok e => entries d !! n = Some e
              | Err e => IsNotExist e = true → entries d !! n = None
              end.
Proof.
  unfold Lstat, syscall. intros H. destruct (fault (clock d)) eqn:Hf; simplify_eq.
  - apply fault_truthful in Hf as [Hf _]. split; [done|]. unfold IsNotExist. congruence.
  - simpl. by destruct (entries d !! n).
Qed.

Lemma OpenExisting_spec d n d' r : OpenExisting d n = (d', r) →
  same d d' ∧ match r with Ok i => entries d !! n = Some (Regular i) | Err _ => True end.
Proof.
  unfold OpenExisting, syscall. intros H. go_cases; try done; split; done.
Qed.

Lemma File_Stat_spec d i d' r : File_Stat d i = (d', r) →
  same d d' ∧ match r with Ok j => j = i | Err _ => True end.
Proof. unfold File_Stat, syscall. intros H. by go_cases. Qed.

Lemma File_Close_same d d' r : File_Close d = (d', r) → same d d'.
Proof. unfold File_Close, syscall. intros H. by go_cases. Qed.

Lemma validateBoundDirectory_same d b d' r : validateBoundDirectory d b = (d', r) → same d d'.
Proof.
  unfold validateBoundDirectory, validateCanonicalDirectory, bindE, syscall. intros H.
  by go_cases.
Qed.

Lemma validateOperation_same d d' r : validateOperation d = (d', r) → same d d'.
Proof.
  unfold validateOperation. intros H. go_cases; eauto using validateBoundDirectory_same; done.
Qed.

Lemma OpenExclusive_spec d n d' r : OpenExclusive d n = (d', r) →
  match r with
  | Ok i => entries d !! n = None ∧ i = nextInode d ∧
      entries d' = <[n := Regular i]> (entries d) ∧ inodes d' = <[i := []]> (inodes d) ∧
      nextInode d' = S (nextInode d)
  | Err _ => same d d'
  end.
Proof. unfold OpenExclusive, syscall. intros H. by go_cases. Qed.

Lemma Root_Link_spec d old new d' r : Root_Link d old new = (d', r) →
  match r with
  | Ok _ => ∃ i, entries d !! old = Some (Regular i) ∧ entries d !! new = None ∧
      entries d' = <[new := Regular i]> (entries d) ∧ inodes d' = inodes d ∧
      nextInode d' = nextInode d
  | Err e => same d d'
  end.
Proof. unfold Root_Link, syscall. intros H. go_cases; try done; by eexists. Qed.

Lemma Root_Remove_spec d n d' r : Root_Remove d n = (d', r) →
  match r with
  | Ok _ => entries d' = delete n (entries d) ∧ inodes d' = inodes d ∧ nextInode d' = nextInode d
  | Err e => same d d' ∧ (IsNotExist e = true → entries d !! n = None)
  end.
Proof.
  unfold Root_Remove, syscall. intros H. destruct (fault (clock d)) eqn:Hf; simplify_eq.
  - apply fault_truthful in Hf as [Hf _]. split; [done|]. unfold IsNotExist. congruence.
  - go_cases; done.
Qed.

(** Whatever a removal answers, the entry is as before or gone. *)
Lemma Root_Remove_frame d n d' r : Root_Remove d n = (d', r) →
  inodes d' = inodes d ∧ nextInode d' = nextInode d ∧
  (entries d' = entries d ∨ entries d' = delete n (entries d)).
Proof.
  intros H. apply Root_Remove_spec in H. destruct r as [u|e].
  - destruct H as (? & ? & ?). auto.
  - destruct H as [[] _]. auto.
Qed.

(** ** The view the manager has *)

Definition entry_inode (e : entry) : option nat :=
  match e with Regular i => Some i | _ => None end.

Definition staging_names d : gmap string nat := omap entry_inode (entries d).
Definition staging_content d (i : nat) : bytes := default [] (inodes d !! i).

(** Inodes are allocated below [nextInode]. *)
Definition staging_ok d : Prop :=
  (∀ n i, entries d !! n = Some (Regular i) → (i < nextInode d)%nat) ∧
  (∀ i, (nextInode d <= i)%nat → inodes d !! i = None).

Lemma names_lookup d n i : staging_names d !! n = Some i ↔ entries d !! n = Some (Regular i).
Proof.
  unfold staging_names. rewrite lookup_omap_Some. split.
  - by intros ([] & ? & ?); simplify_eq/=.
  - intros H. by exists (Regular i).
Qed.

Lemma names_None d n : entries d !! n = None → staging_names d !! n = None.
Proof. intros H. unfold staging_names. by rewrite lookup_omap, H. Qed.

Lemma names_insert d d' n i :
  entries d' = <[n := Regular i]> (entries d) → staging_names d' = <[n := i]> (staging_names d).
Proof. intros H. unfold staging_names. rewrite H. by rewrite (omap_insert_Some _ _ _ _ i). Qed.

Lemma names_delete d d' n :
  entries d' = delete n (entries d) → staging_names d' = delete n (staging_names d).
Proof. intros H. unfold staging_names. rewrite H. by rewrite omap_delete. Qed.

Lemma same_view d d' : same d d' →
  staging_names d' = staging_names d ∧ (∀ i, staging_content d' i = staging_content d i) ∧
  (staging_ok d → staging_ok d').
Proof.
  intros [E1 E2 E3]. unfold staging_names, staging_content, staging_ok. by rewrite E1, E2, E3.
Qed.

Lemma ok_delete d d' n :
  entries d' = delete n (entries d) → inodes d' = inodes d → nextInode d' = nextInode d →
  staging_ok d → staging_ok d'.
Proof.
  unfold staging_ok. intros -> -> -> [H1 H2]. split; [|done].
  intros k i [_ ?]%lookup_delete_Some. eauto.
Qed.

Lemma content_same d d' : inodes d' = inodes d → ∀ i, staging_content d' i = staging_content d i.
Proof. unfold staging_content. by intros ->. Qed.

Lemma invalidName_same {A} d d' (r : result A) : invalidName d = (d', r) → same d d' ∧ is_ok r = false.
Proof. unfold invalidName. by intros [= <- <-]. Qed.

(** The prologue shared by the operations: when it fails the files are as they
    were; otherwise the rest runs on the same files. *)
Lemma guarded {B} d (k : stagingDirectory → unit → stagingDirectory * result B) d' r :
  bindE (validateOperation d) id k = (d', r) →
  (same d d' ∧ is_ok r = false) ∨ ∃ d1, same d d1 ∧ k d1 tt = (d', r).
Proof.
  unfold bindE. destruct (validateOperation d) as [d1 [[]|e]] eqn:Hv;
    apply validateOperation_same in Hv; intros H; simplify_eq; eauto.
Qed.

Lemma create_law d n d' r : staging_ok d → staging_create d n = (d', r) →
  staging_ok d' ∧ (∀ i, staging_content d' i = staging_content d i) ∧
  (∀ k, k ≠ n → staging_names d' !! k = staging_names d !! k) ∧
  match r with
  | Ok _ => staging_names d !! n = None ∧ ∃ i, staging_names d' !! n = Some i ∧
      staging_content d' i = [] ∧ ∀ k, staging_names d !! k ≠ Some i
  | Err _ => staging_names d !! n = None ∨ staging_names d' !! n = staging_names d !! n
  end.
Proof.
  intros Hok H. assert (same d d' ∧ is_ok r = false ∨
    ∃ d1 i d2 r2, same d d1 ∧ OpenExclusive d1 n = (d2, Ok i) ∧ File_Close d2 = (d', r2) ∧ r = Ok tt ∨
    ∃ d3 r3, same d d1 ∧ OpenExclusive d1 n = (d2, Ok i) ∧ same d2 d3 ∧ Root_Remove d3 n = (d', r3) ∧
      is_ok r = false) as Hcase.
  { unfold staging_create in H. case_match; [left; by apply invalidName_same in H|].
    apply guarded in H as [?|(d1 & Hs & H)]; [by left|]. unfold bindE in H.
    destruct (OpenExclusive d1 n) as [d2 [i|e]] eqn:HO; [|left; apply OpenExclusive_spec in HO; simplify_eq; split; [by etrans|done]].
    right. exists d1, i, d2. destruct (File_Close d2) as [d3 [[]|e]] eqn:HC.
    - exists (Ok tt). left. by simplify_eq.
    - exists (Err e). right. apply File_Close_same in HC.
      destruct (Root_Remove d3 n) as [d4 r4] eqn:HR. simplify_eq. eauto 10. }
  clear H. destruct Hcase as [[Hs Hr]|(d1 & i & d2 & r2 & Hcase)].
  { destruct (same_view _ _ Hs) as (-> & ? & ?). destruct r; [done|]. auto. }
  assert (same d d1 ∧ OpenExclusive d1 n = (d2, Ok i)) as [Hs HO] by naive_solver.
  destruct (same_view _ _ Hs) as (Hn1 & Hc1 & Hok1). specialize (Hok1 Hok).
  apply OpenExclusive_spec in HO as (Hnone & -> & He2 & Hi2 & Hx2).
  pose proof (names_insert _ _ _ _ He2) as Hn2.
  assert (∀ j, staging_content d2 j = staging_content d j) as Hc2.
  { intros j. rewrite <- Hc1. unfold staging_content. rewrite Hi2.
    destruct (decide (nextInode d1 = j)) as [<-|]; [|by rewrite lookup_insert_ne].
    rewrite lookup_insert_eq. by rewrite (proj2 Hok1) by lia. }
  assert (staging_ok d2) as Hok2.
  { split; rewrite ?He2, ?Hi2, Hx2.
    - intros k j [[<- [= <-]]|[? ?]]%lookup_insert_Some; [lia|]. apply Nat.lt_lt_succ_r. by eapply Hok1.
    - intros j Hj. rewrite lookup_insert_ne by lia. apply Hok1. lia. }
  assert (staging_names d !! n = None) as Hnn by (rewrite <- Hn1; by apply names_None).
  rewrite Hn1 in Hn2. destruct Hcase as [(_ & _ & HC & ->)|(d3 & r3 & _ & _ & Hs3 & HR & Hr)].
  - apply File_Close_same in HC. destruct (same_view _ _ HC) as (Hn3 & Hc3 & Hok3).
    split_and!; [auto| | |done|].
    + intros j. by rewrite Hc3.
    + intros k Hk. by rewrite Hn3, Hn2, lookup_insert_ne.
    + exists (nextInode d1). rewrite Hn3, Hn2, lookup_insert_eq, Hc3. split_and!; [done| |].
      * unfold staging_content. by rewrite Hi2, lookup_insert_eq.
      * intros k E. rewrite <- Hn1 in E. apply names_lookup in E. apply (proj1 Hok1) in E. lia.
  - destruct (same_view _ _ Hs3) as (Hn3 & Hc3 & Hok3).
    apply Root_Remove_frame in HR as (Hi4 & Hx4 & He4). destruct r; [done|].
    split_and!; [|intros j; by rewrite (content_same d3 d'), Hc3| |by left].
    + destruct He4 as [He4|He4]; [|by eapply (ok_delete d3); auto]. by eapply (same_view d3); auto.
    + intros k Hk. transitivity (staging_names d3 !! k); [|by rewrite Hn3, Hn2, lookup_insert_ne].
      destruct He4 as [He4|He4]; [by unfold staging_names; rewrite He4|].
      by rewrite (names_delete _ _ _ He4), lookup_delete_ne.
Qed.

Lemma remove_law d n d' r : staging_ok d → staging_remove d n = (d', r) →
  staging_ok d' ∧ (∀ i, staging_content d' i = staging_content d i) ∧
  match r with
  | Ok _ => staging_names d' = delete n (staging_names d)
  | Err _ => staging_names d' = staging_names d
  end.
Proof.
  intros Hok H. assert (same d d' ∧ (is_ok r = true → entries d !! n = None) ∨
    ∃ d1, same d d1 ∧ entries d' = delete n (entries d1) ∧ inodes d' = inodes d1 ∧
          nextInode d' = nextInode d1 ∧ is_ok r = true) as Hcase.
  { unfold staging_remove in H.
    case_match; [left; apply invalidName_same in H as [? ?]; split; [done|congruence]|].
    apply guarded in H as [[? ?]|(d1 & Hs & H)]; [left; split; [done|congruence]|].
    destruct (Lstat d1 n) as [d2 r2] eqn:HL. apply Lstat_spec in HL as [Hs2 HL].
    assert (same d d2) as Hs' by (by etrans). destruct Hs as [Hs _ _]. rewrite Hs in HL.
    destruct r2 as [e|e]; [|left; case_match; simplify_eq; split; auto; done].
    destruct (Root_Remove d2 n) as [d3 r3] eqn:HR. apply Root_Remove_spec in HR.
    destruct e; [|left; simplify_eq; split; done|];
      (destruct r3 as [u|e]; simplify_eq;
        [right; exists d2; destruct HR as (?&?&?); done|left; destruct HR as [HR1 HR2];
         destruct (IsNotExist e) eqn:He; simplify_eq/=; split; try done; try (by etrans);
         intros _; rewrite <- (same_entries _ _ Hs'); auto]). }
  destruct Hcase as [[Hs Hr]|(d1 & Hs & He & Hi & Hx & Hr)].
  - destruct (same_view _ _ Hs) as (-> & ? & ?). split_and!; auto. destruct r; [|done].
    rewrite delete_id; [done|]. by apply names_None, Hr.
  - destruct (same_view _ _ Hs) as (Hn & Hc & Ho). destruct r; [|done].
    split_and!; [by eapply ok_delete; eauto|intros i; by rewrite (content_same d1 d')|].
    by rewrite (names_delete _ _ _ He), Hn.
Qed.

Lemma file_write_inside c off data :
  (off <= length c)%nat → file_write c off data = overwrite c off data.
Proof.
  intros H. unfold file_write, overwrite. replace (off - length c)%nat with 0%nat by lia.
  simpl. by rewrite app_nil_r.
Qed.

Lemma File_WriteAt_spec d i data off d' n e : File_WriteAt d i data off = (d', (n, e)) →
  ∃ k, same (store d i off (take k data)) d' ∧ (e = None → (length data <= k)%nat).
Proof.
  unfold File_WriteAt. intros H. destruct (fault (clock d)) as [e'|]; simplify_eq.
  - exists (stored (clock d)). done.
  - exists (length data). by rewrite firstn_all.
Qed.

Lemma writeAt_law d n off data d' r : staging_ok d → staging_writeAt d n off data = (d', r) →
  staging_ok d' ∧ staging_names d' = staging_names d ∧
  match staging_names d !! n with
  | None => (∀ j, staging_content d' j = staging_content d j) ∧ is_ok r = false
  | Some i => (∀ j, j ≠ i → staging_content d' j = staging_content d j) ∧
      (0 <= off <= len (staging_content d i) →
       ∃ k, staging_content d' i = overwrite (staging_content d i) (Z.to_nat off) (take k data) ∧
            (is_ok r = true → (length data <= k)%nat))
  end.
Proof.
  intros Hok H. assert ((same d d' ∧ is_ok r = false) ∨ ∃ d1 i k, same d d1 ∧
    entries d !! n = Some (Regular i) ∧ same (store d1 i off (take k data)) d' ∧
    (is_ok r = true → (length data <= k)%nat)) as Hcase.
  { unfold staging_writeAt in H. case_match; [left; by apply invalidName_same in H|].
    case_match; [simplify_eq; by left|].
    apply guarded in H as [?|(d1 & Hs & H)]; [by left|]. unfold bindE in H.
    destruct (Lstat d1 n) as [d2 [e|e]] eqn:HL; apply Lstat_spec in HL as [Hs2 HL];
      (assert (same d d2) as Hs' by (by etrans)); [|left; by simplify_eq].
    rewrite (same_entries _ _ Hs) in HL. destruct e as [i| |]; [|left; by simplify_eq..].
    destruct (OpenExisting d2 n) as [d3 [f|e]] eqn:HO; apply OpenExisting_spec in HO as [Hs3 HO];
      (assert (same d d3) as Hs3' by (by etrans)); [|left; by simplify_eq].
    rewrite (same_entries _ _ Hs') in HO. assert (f = i) as -> by congruence.
    destruct (File_Stat d3 i) as [d4 [j|e]] eqn:HF; apply File_Stat_spec in HF as [Hs4 ->] || apply File_Stat_spec in HF as [Hs4 _];
      (assert (same d d4) as Hs4' by (by etrans)).
    2:{ left. destruct (File_Close d4) as [d5 ?] eqn:HC. apply File_Close_same in HC.
        simplify_eq. split; [by etrans|done]. }
    rewrite Nat.eqb_refl in H. simpl in H. right. exists d4, i.
    destruct (File_WriteAt d4 i data off) as [d5 [wn we]] eqn:HW.
    apply File_WriteAt_spec in HW as (k & Hs5 & Hk). exists k.
    destruct (File_Close d5) as [d6 ce] eqn:HC. apply File_Close_same in HC.
    split_and!; [done..| |]; go_cases; try (by etrans); auto; done. }
  destruct Hcase as [[Hs Hr]|(d1 & i & k & Hs & He & Hs2 & Hr)].
  { destruct (same_view _ _ Hs) as (-> & Hc & ?). split_and!; auto.
    case_match; [|done]. split; [done|]. intros Ho. exists 0%nat. rewrite Hc, Hr.
    split; [|done]. unfold overwrite. simpl. by rewrite Nat.add_0_r, take_drop. }
  rewrite (proj2 (names_lookup d n i) He). destruct Hs2 as [E1 E2 E3], Hs as [F1 F2 F3]. simpl in *.
  assert (∀ j, staging_content d' j = if decide (j = i)
    then file_write (staging_content d i) (Z.to_nat off) (take k data) else staging_content d j) as Hc.
  { intros j. unfold staging_content. rewrite E2, F2. case_decide as Hj; [subst|].
    - by rewrite lookup_insert_eq.
    - by rewrite lookup_insert_ne. }
  split_and!.
  - destruct Hok as [H1 H2]. split; rewrite ?E1, ?E2, E3, ?F1, ?F2, F3; [done|].
    intros j Hj. rewrite lookup_insert_ne; [auto|]. apply H1 in He. lia.
  - unfold staging_names. by rewrite E1, F1.
  - intros j Hj. rewrite Hc. by case_decide.
  - intros Ho. exists k. rewrite Hc. rewrite decide_True by done. split; [|done].
    apply file_write_inside. unfold len in Ho. lia.
Qed.

(** A removal that leaves every entry but one alone, and that one either as it
    was or gone. *)
Definition drops d d' (n : string) : Prop :=
  inodes d' = inodes d ∧ nextInode d' = nextInode d ∧
  (entries d' = entries d ∨ entries d' = delete n (entries d)).

Lemma drops_view d d' n : drops d d' n → staging_ok d →
  staging_ok d' ∧ (∀ i, staging_content d' i = staging_content d i) ∧
  (staging_names d' = staging_names d ∨ staging_names d' = delete n (staging_names d)).
Proof.
  intros (Hi & Hx & He) Hok. split_and!; [|by apply content_same|].
  - destruct He as [He|He]; [by eapply (same_view d)|by eapply ok_delete].
  - destruct He as [He|He]; [left; unfold staging_names; by rewrite He|right; by apply names_delete].
Qed.

Lemma drops_same d d1 d' n : same d d1 → drops d1 d' n → drops d d' n.
Proof. unfold drops. intros [-> -> ->]. done. Qed.

Lemma rollback_spec d n e d' r :
  rollbackPublication d n e = (d', r) → drops d d' n ∧ is_ok r = false.
Proof.
  unfold rollbackPublication. destruct (Root_Remove d n) as [d1 r1] eqn:HR.
  apply Root_Remove_frame in HR. intros H. go_cases; done.
Qed.

Lemma finishPublication_spec d old new i d' r :
  finishPublication d old new i = (d', r) →
  (is_ok r = false ∧ drops d d' new) ∨
  (r = Ok tt ∧ entries d !! old = Some (Regular i) ∧ entries d' = delete old (entries d) ∧
   inodes d' = inodes d ∧ nextInode d' = nextInode d).
Proof.
  unfold finishPublication. intros H.
  destruct (File_Close d) as [d1 [u|e]] eqn:HC; apply File_Close_same in HC.
  2:{ left. apply rollback_spec in H as [? ?]. split; [done|]. by eapply drops_same. }
  destruct (Lstat d1 old) as [d2 [cs|e]] eqn:HL; apply Lstat_spec in HL as [Hs2 HL];
    (assert (same d d2) as Hs by (by etrans)).
  2:{ left. apply rollback_spec in H as [? ?]. split; [done|]. by eapply drops_same. }
  rewrite (same_entries _ _ HC) in HL.
  destruct (match cs with Regular j => Nat.eqb i j | _ => false end) eqn:Hm; simpl in H.
  2:{ left. apply rollback_spec in H as [? ?]. split; [done|]. by eapply drops_same. }
  destruct cs as [j| |]; [|done..]. apply Nat.eqb_eq in Hm as <-.
  destruct (Root_Remove d2 old) as [d3 [u'|e]] eqn:HR; apply Root_Remove_spec in HR.
  - right. destruct Hs as [F1 F2 F3], HR as (? & ? & ?). simplify_eq. split_and!; congruence.
  - left. apply rollback_spec in H as [? ?]. split; [done|].
    eapply drops_same; [|done]. etrans; [done|apply HR].
Qed.

(** The states after which [rename] succeeds or fails. *)
Lemma rename_cases d old new d' r : staging_rename d old new = (d', r) →
  (is_ok r = false ∧ same d d') ∨
  (old ≠ new ∧ ∃ d1 i, entries d !! old = Some (Regular i) ∧ same d d1 ∧
   ((entries d !! new = Some (Regular i) ∧ finishPublication d1 old new i = (d', r)) ∨
    ∃ d2, entries d !! new = None ∧ entries d2 = <[new := Regular i]> (entries d) ∧
      inodes d2 = inodes d ∧ nextInode d2 = nextInode d ∧
      ((is_ok r = false ∧ drops d2 d' new) ∨ finishPublication d2 old new i = (d', r)))).
Proof.
  unfold staging_rename. intros H. case_match; [left; by apply invalidName_same in H as [? ?]|].
  case_bool_decide as Hne; [simplify_eq; by left|].
  apply guarded in H as [[? ?]|(d1 & Hs1 & H)]; [by left|]. unfold bindE in H.
  destruct (Lstat d1 old) as [d2 [e|e]] eqn:HL; apply Lstat_spec in HL as [Hs HL];
    (assert (same d d2) as Hs2 by (by etrans)); [|left; by simplify_eq].
  rewrite (same_entries _ _ Hs1) in HL. clear Hs. destruct e as [i| |]; [|left; by simplify_eq..].
  destruct (OpenExisting d2 old) as [d3 [f|e]] eqn:HO; apply OpenExisting_spec in HO as [Hs HO];
    (assert (same d d3) as Hs3 by (by etrans)); [|left; by simplify_eq].
  rewrite (same_entries _ _ Hs2) in HO. assert (f = i) as -> by congruence. clear Hs.
  destruct (File_Stat d3 i) as [d4 r4] eqn:HF; apply File_Stat_spec in HF as [Hs Hj].
  assert (same d d4) as Hs4 by (by etrans). clear Hs. destruct r4 as [j|e].
  2:{ left. destruct (File_Close d4) as [d5 ?] eqn:HC. apply File_Close_same in HC.
      simplify_eq. split; [done|by etrans]. }
  subst j. rewrite Nat.eqb_refl in H. simpl in H.
  destruct (Root_Link d4 old new) as [d5 [u|e]] eqn:HK; apply Root_Link_spec in HK.
  - right. split; [done|]. exists d4, i. split_and!; [done..|]. right.
    destruct Hs4 as [F1 F2 F3], HK as (i' & E1 & E2 & E3 & E4 & E5). rewrite F1 in *.
    assert (i' = i) as -> by congruence.
    destruct (Lstat d5 new) as [d6 r6] eqn:HL2; apply Lstat_spec in HL2 as [[G1 G2 G3] HL2].
    exists d6. split_and!; [congruence..|]. destruct r6 as [e|e].
    + rewrite E3, lookup_insert_eq in HL2. simplify_eq. rewrite Nat.eqb_refl in H. by right.
    + left. destruct (File_Close d6) as [d7 ?] eqn:HC. apply File_Close_same in HC.
      apply rollback_spec in H as [? ?]. split; [done|]. by eapply drops_same.
  - assert (same d d5) as Hs5 by (by etrans). clear HK. destruct (errors_is e fs_ErrExist); simpl in H.
    2:{ left. destruct (File_Close d5) as [d6 ?] eqn:HC. apply File_Close_same in HC.
        simplify_eq. split; [done|by etrans]. }
    destruct (Lstat d5 new) as [d6 r6] eqn:HL2; apply Lstat_spec in HL2 as [Hs HL2].
    assert (same d d6) as Hs6 by (by etrans). rewrite (same_entries _ _ Hs5) in HL2.
    destruct r6 as [[j| |]|e6].
    2-4: left; destruct (File_Close d6) as [d7 ?] eqn:HC; apply File_Close_same in HC;
        simplify_eq; split; [done|by etrans].
    destruct (Nat.eqb i j) eqn:Hij.
    + right. split; [done|]. apply Nat.eqb_eq in Hij as <-. exists d6, i. auto.
    + left. destruct (File_Close d6) as [d7 ?] eqn:HC. apply File_Close_same in HC.
      simplify_eq. split; [done|by etrans].
Qed.

Lemma ok_link d d' new i old :
  staging_ok d → entries d !! old = Some (Regular i) →
  entries d' = <[new := Regular i]> (entries d) → inodes d' = inodes d →
  nextInode d' = nextInode d → staging_ok d'.
Proof.
  intros [H1 H2] Ho He Hi Hx. split; rewrite ?He, ?Hi, Hx; [|done].
  intros n j [[<- [= <-]]|[? ?]]%lookup_insert_Some; eauto.
Qed.

Lemma rename_law d old new d' r : staging_ok d → staging_rename d old new = (d', r) →
  staging_ok d' ∧ (∀ i, staging_content d' i = staging_content d i) ∧
  match r with
  | Ok _ => old ≠ new ∧ ∃ i, staging_names d !! old = Some i ∧
      (staging_names d !! new = None ∨ staging_names d !! new = Some i) ∧
      staging_names d' = <[new := i]> (delete old (staging_names d))
  | Err _ => (∀ k, k ≠ new → staging_names d' !! k = staging_names d !! k) ∧
      (staging_names d' !! new = staging_names d !! new ∨
       ∃ i, staging_names d !! old = Some i ∧
         (staging_names d !! new = None ∨ staging_names d !! new = Some i))
  end.
Proof.
  intros Hok H. apply rename_cases in H as [[Hr Hs]|(Hne & d1 & i & Ho & Hs & Hcase)].
  { destruct (same_view _ _ Hs) as (-> & Hc & Ho). split_and!; [auto..|]. destruct r; [done|]. auto. }
  pose proof (proj2 (names_lookup d old i) Ho) as Hno.
  assert (∃ d2, staging_ok d2 ∧ (∀ j, staging_content d2 j = staging_content d j) ∧
    entries d2 = <[new := Regular i]> (entries d) ∧
    (staging_names d !! new = None ∨ staging_names d !! new = Some i) ∧
    ((is_ok r = false ∧ drops d2 d' new) ∨ finishPublication d2 old new i = (d', r)))
    as (d2 & Hok2 & Hc2 & He2 & Hnew & Hfin).
  { destruct Hcase as [[He Hf]|(d2 & He & E1 & E2 & E3 & Hf)].
    - exists d1. destruct (same_view _ _ Hs) as (_ & ? & ?). destruct Hs as [F1 _ _].
      split_and!; [auto..| |right; by apply names_lookup|auto]. rewrite F1. by rewrite insert_id.
    - exists d2. split_and!; [by eapply ok_link|by apply content_same|done|left; by apply names_None|done]. }
  pose proof (names_insert _ _ _ _ He2) as Hn2.
  assert ((is_ok r = false ∧ drops d2 d' new) ∨
    (r = Ok tt ∧ entries d' = delete old (entries d2) ∧ inodes d' = inodes d2 ∧
     nextInode d' = nextInode d2)) as [[Hr Hd]|(-> & E1 & E2 & E3)].
  { destruct Hfin as [?|Hfin]; [by left|]. apply finishPublication_spec in Hfin. naive_solver. }
  - destruct (drops_view _ _ _ Hd Hok2) as (? & Hc & Hn). destruct r; [done|].
    split_and!; [done|intros j; by rewrite Hc| |eauto].
    intros k Hk. destruct Hn as [-> | ->]; rewrite ?lookup_delete_ne by done;
      by rewrite Hn2, lookup_insert_ne.
  - split_and!; [by eapply ok_delete|intros j; by rewrite (content_same d2 d')|done|].
    exists i. split_and!; [done..|]. rewrite (names_delete _ _ _ E1), Hn2.
    by rewrite delete_insert_ne.
Qed.

Lemma removePublishedLink_law d src dst d' r :
  staging_ok d → staging_removePublishedLink d src dst = (d', r) →
  staging_ok d' ∧ (∀ i, staging_content d' i = staging_content d i) ∧
  (∀ k, k ≠ dst → staging_names d' !! k = staging_names d !! k) ∧
  (staging_names d' !! dst = staging_names d !! dst ∨
   ∃ i, staging_names d !! src = Some i ∧ staging_names d !! dst = Some i ∧
        staging_names d' !! dst = None) ∧
  (is_ok r = true → ∀ i, staging_names d !! src = Some i → staging_names d' !! dst ≠ Some i).
Proof.
  intros Hok H. assert ((same d d' ∧
      (is_ok r = true → ∀ i, staging_names d !! src = Some i → staging_names d !! dst ≠ Some i)) ∨
    ∃ d1 i, same d d1 ∧ staging_names d !! src = Some i ∧ staging_names d !! dst = Some i ∧
      entries d' = delete dst (entries d1) ∧ inodes d' = inodes d1 ∧ nextInode d' = nextInode d1)
    as Hcase.
  { unfold staging_removePublishedLink in H.
    case_match; [left; apply invalidName_same in H as [? ?]; split; [done|congruence]|].
    apply guarded in H as [[? ?]|(d1 & Hs1 & H)]; [left; split; [done|congruence]|]. unfold bindE in H.
    destruct (Lstat d1 src) as [d2 [e|e]] eqn:HL; apply Lstat_spec in HL as [Hs HL];
      (assert (same d d2) as Hs2 by (by etrans)); [|left; by simplify_eq].
    rewrite (same_entries _ _ Hs1) in HL. destruct e as [i| |]; [|left; by simplify_eq..].
    apply names_lookup in HL. destruct (Lstat d2 dst) as [d3 r3] eqn:HL2.
    apply Lstat_spec in HL2 as [Hs' HL2]. assert (same d d3) as Hs3 by (by etrans).
    rewrite (same_entries _ _ Hs2) in HL2. destruct r3 as [e|e].
    2:{ left. case_match; simplify_eq; split; [done| |done|done].
        intros _ j _. by rewrite names_None by auto. }
    destruct (match e with Regular j => Nat.eqb i j | _ => false end) eqn:Hm; simpl in H.
    2:{ left. simplify_eq. split; [done|]. intros _ j Hj Hd. simplify_eq. apply names_lookup in Hd.
        simplify_eq. by rewrite Nat.eqb_refl in Hm. }
    destruct e as [j| |]; [|done..]. apply Nat.eqb_eq in Hm as <-. apply names_lookup in HL2.
    destruct (Root_Remove d3 dst) as [d4 [u|e]] eqn:HR; apply Root_Remove_spec in HR.
    - right. exists d3, i. simplify_eq. naive_solver.
    - left. destruct HR as [HR Hex]. case_match; simplify_eq; (split; [by etrans|]); [done|].
      destruct (IsNotExist e); [|done]. apply names_lookup in HL2.
      rewrite (same_entries _ _ Hs3), HL2 in Hex. by discriminate Hex. }
  destruct Hcase as [[Hs Hr]|(d1 & i & Hs & Hsrc & Hdst & E1 & E2 & E3)].
  - destruct (same_view _ _ Hs) as (-> & ? & ?). split_and!; auto.
  - destruct (same_view _ _ Hs) as (Hn & Hc & Ho). pose proof (names_delete _ _ _ E1) as Hd.
    rewrite Hn in Hd. split_and!.
    + by eapply ok_delete; eauto.
    + intros j. by rewrite (content_same d1 d').
    + intros k Hk. by rewrite Hd, lookup_delete_ne.
    + right. exists i. by rewrite Hd, lookup_delete_eq.
    + intros _ j _. by rewrite Hd, lookup_delete_eq.
Qed.

(** ** Opening and closing keep the files well formed *)

Lemma OpenExclusive_ok d n d' r : OpenExclusive d n = (d', r) → staging_ok d → staging_ok d'.
Proof.
  intros H [H1 H2]. apply OpenExclusive_spec in H. destruct r as [i|e].
  - destruct H as (Hn & -> & E1 & E2 & E3). split; rewrite ?E1, ?E2, E3.
    + intros k j [[<- [= <-]]|[? ?]]%lookup_insert_Some; [lia|]. apply Nat.lt_lt_succ_r. eauto.
    + intros j Hj. rewrite lookup_insert_ne by lia. apply H2. lia.
  - by eapply (same_view d).
Qed.

Lemma Root_Remove_ok d n d' r : Root_Remove d n = (d', r) → staging_ok d → staging_ok d'.
Proof. intros H Hok. apply Root_Remove_frame in H. by eapply drops_view. Qed.

Lemma Root_Link_ok d old new d' r : Root_Link d old new = (d', r) → staging_ok d → staging_ok d'.
Proof.
  intros H Hok. apply Root_Link_spec in H. destruct r as [u|e].
  - destruct H as (i & ? & ? & ? & ? & ?). by eapply ok_link.
  - by eapply (same_view d).
Qed.

Lemma File_Close_ok d d' r : File_Close d = (d', r) → staging_ok d → staging_ok d'.
Proof. intros H%File_Close_same. by apply same_view. Qed.

Lemma probe_ok d rand d' r : probeHardLinkPublication d rand = (d', r) → staging_ok d → staging_ok d'.
Proof.
  unfold probeHardLinkPublication, bindE. intros H Hok.
  repeat (case_match; simplify_eq);
    eauto 10 using OpenExclusive_ok, Root_Remove_ok, Root_Link_ok, File_Close_ok.
Qed.

Lemma bindE_ok {A B} (m : stagingDirectory * result A) w
    (k : stagingDirectory → A → stagingDirectory * result B) d' r :
  bindE m w k = (d', r) → (∀ d1 r1, m = (d1, r1) → staging_ok d1) →
  (∀ d1 a d2 r2, staging_ok d1 → k d1 a = (d2, r2) → staging_ok d2) → staging_ok d'.
Proof.
  unfold bindE. intros H Hm Hk. destruct m as [d1 [a|e]]; [|simplify_eq; by eapply Hm].
  eapply Hk; [by eapply Hm|done].
Qed.

Lemma open_law d s rand d' s' r :
  staging_ok d → openStagingDirectory d s rand = (d', s', r) → staging_ok d'.
Proof.
  unfold openStagingDirectory. intros Hok H. case_match; [by simplify_eq|].
  match type of H with context [let '(_, _) := ?m in _] => destruct m as [d1 r1] eqn:Hm end.
  assert (staging_ok d1) as Hok1; [clear H|by go_cases].
  eapply (bindE_ok _ _ _ _ _ Hm); [intros ?? [= <- _]; exact Hok|clear Hm; intros d2 u d3 r3 Hok2 Hm].
  eapply (bindE_ok _ _ _ _ _ Hm);
    [unfold syscall; intros; by go_cases|clear Hm; intros d4 u' d5 r5 Hok4 Hm].
  eapply (bindE_ok _ _ _ _ _ Hm); [intros ?? [= <- _]; exact Hok4|clear Hm; intros d6 i d7 r7 Hok6 Hm].
  eapply (bindE_ok _ _ _ _ _ Hm); [|clear Hm; intros d8 u8 d9 r9 Hok8 Hm].
  { intros dd rr Hv%validateBoundDirectory_same. by eapply (same_view d6). }
  eapply (bindE_ok _ _ _ _ _ Hm); [intros; by eapply probe_ok|].
  intros d10 u10 d11 r11 Hok10 ?. by simplify_eq.
Qed.

Lemma close_law d s d' s' r : staging_ok d → staging_close d s = (d', s', r) →
  staging_ok d' ∧ staging_names d' = staging_names d ∧
  ∀ i, staging_content d' i = staging_content d i.
Proof.
  unfold staging_close, syscall. intros Hok H. assert (same d d') as Hs by (by go_cases).
  destruct (same_view _ _ Hs) as (? & ? & ?). auto.
Qed.
End Facts.

#[global] Instance staging_laws {os : OS} : StagingLaws stagingDirectory := {|
  dir_ok := staging_ok;
  names := staging_names;
  content := staging_content;
  law_create := create_law;
  law_writeAt := writeAt_law;
  law_rename := rename_law;
  law_remove := remove_law;
  law_removePublishedLink := removePublishedLink_law;
  law_open := open_law;
  law_close := close_law;
  law_base s := path_Base_Rel (workspaceRoot s) (staging_path s);
|}.

(** ** Generated names *)

Lemma CutDot_app s t pre :
  ContainsAny s "." = false → CutDot t = Some (EmptyString, pre) → CutDot (s ++ t) = Some (s, pre).
Proof.
  intros Hs Ht. induction s as [|a s IH]; [done|].
  cbn [ContainsAny] in Hs. rewrite orb_false_r in Hs. apply orb_false_elim in Hs as [Ha Hs].
  change (String a s ++ t)%string with (String a (s ++ t)). cbn [CutDot].
  by rewrite Ha, IH.
Qed.

Lemma hexEncode_name b suffix :
  (∃ pre, ContainsAny suffix (string_of_bytes ["/"; "\"; "000"]%byte) = false ∧
          CutDot suffix = Some (EmptyString, pre) ∧ allowedStagingSuffix pre = true) →
  len b = generatedFileIDBytes → validGeneratedStagingName (hexEncode b ++ suffix) = true.
Proof.
  intros (pre & Hs & Hcut & Hallow) Hb. unfold validGeneratedStagingName.
  assert (ContainsAny (hexEncode b ++ suffix) (string_of_bytes ["/"; "\"; "000"]%byte) = false) as ->.
  { rewrite ContainsAny_app, Hs, orb_false_r. clear. induction b as [|x b IH]; [done|]. by destruct x. }
  assert (CutDot (hexEncode b ++ suffix) = Some (hexEncode b, pre)) as ->.
  { apply CutDot_app; [|done]. clear. induction b as [|x b IH]; [done|]. by destruct x. }
  assert (slen (hexEncode b) = 2 * len b) as Hlen.
  { clear. induction b as [|x b IH]; [done|]. rewrite len_cons. unfold slen in *.
    cbn [hexEncode String.length]. lia. }
  rewrite Hlen, Hb. simpl.
  assert (ToLower (hexEncode b) = hexEncode b) as Hlow.
  { clear. induction b as [|x b IH]; [done|]. cbn [hexEncode ToLower]. rewrite IH. by destruct x. }
  rewrite Hlow, bool_decide_eq_true_2 by done. simpl.
  assert (hexDecodable (hexEncode b) = true) as ->; [|done].
  unfold hexDecodable. apply andb_true_intro. split.
  - clear. induction b as [|x b IH]; [done|]. done.
  - clear. induction b as [|x b IH]; [done|]. cbn [hexEncode list_ascii_of_string forallb].
    rewrite IH. by destruct x.
Qed.

(** The names the manager generates from sixteen random bytes are accepted
    by the staging directory: the partial name, and the published name under
    every content policy a declaration can resolve to. *)
Theorem generated_names_are_valid {gm : GoMime} b ext ty p :
  len b = generatedFileIDBytes → parseContentPolicy ext ty = Ok p →
  validGeneratedStagingName (hexEncode b ++ ".partial") = true ∧
  validGeneratedStagingName (hexEncode b ++ extension p) = true.
Proof.
  intros Hb Hp. split; apply hexEncode_name; try done; [by eexists|].
  unfold parseContentPolicy in Hp. go_cases. simpl.
  assert (map_Forall (fun k _ =>
    ContainsAny ("." ++ k) (string_of_bytes ["/"; "\"; "000"]%byte) = false ∧
    CutDot ("." ++ k) = Some (EmptyString, k) ∧ allowedStagingSuffix k = true)
    supportedContentPolicies) as HS
    by (apply (bool_decide_unpack _); vm_compute; exact I).
  match goal with HL : supportedContentPolicies !! _ = Some _ |- _ => apply HS in HL end. eauto.
Qed.
