(* ===== verification/TransferExamples.v ===== *)
(** * A staged transfer, executed

    A platform without faults, and one session that uploads a text file in two
    chunks, completes it, and discards another transfer.  The theorems on
    transfers are applied to it. *)

From S2P Require Import Prelude.
From S2P Require Import Utf8.
From S2P Require Import Sha256.
From S2P Require Import ContentPolicy.
From S2P Require Import Aggregate.
From S2P Require Import Transfer.
From S2P Require Import TransferQuota.
From S2P Require Import TransferContent.
From S2P Require Import TransferStorage.
From S2P Require Import StagingDirectory.

(** ** The platform *)

(** The part of a path after its last slash. *)
Fixpoint base_from (acc s : string) : string :=
  match s with
  | EmptyString => acc
  | String a s' => if Ascii.eqb a "/" then base_from s' s' else base_from acc s'
  end.
Definition demo_Base (s : string) : string := base_from s s.

Lemma base_from_plain acc n : no_separator n = true → base_from acc n = acc.
Proof.
  unfold no_separator. revert acc. induction n as [|a n IH]; intros acc H; [done|].
  cbn [ContainsAny] in H. cbn [base_from].
  apply negb_true_iff, orb_false_elim in H as [H1 H2]. apply orb_false_elim in H1 as [H1 _].
  rewrite H1. apply IH. by rewrite H2.
Qed.

Lemma base_from_join acc d n :
  no_separator n = true → base_from acc (d ++ String "/" n) = n.
Proof.
  intros Hn. revert acc. induction d as [|a d IH]; intros acc.
  - change (base_from acc (EmptyString ++ String "/" n)) with (base_from n n). by apply base_from_plain.
  - change (String a d ++ String "/" n)%string with (String a (d ++ String "/" n)).
    cbn [base_from]. case_match; apply IH.
Qed.

#[local] Program Instance demo_os : OS := {|
  fault _ := None;
  stored _ := 0%nat;
  RevalidateDirectory _ _ p := Ok p;
  os_Stat _ _ := Ok 7%nat;
  errors_AsErrno _ := None;
  filepath_Clean p := p;
  path_Rel _ p := Some p;
  path_Join d n := (d ++ String "/" n)%string;
  path_Base := demo_Base;
  path_Dir p := p;
|}.
Next Obligation. done. Qed.
Next Obligation.
  intros root d n q Hn _ [= <-]. unfold demo_Base. by apply base_from_join.
Qed.

#[local] Instance demo_mime : GoMime := {|
  ParseMediaType s := Some (s, []);
  DetectContentType _ := "text/plain"%string;
|}.

(** ** The session *)

Definition demo_rand (i : nat) : result bytes := Ok (replicate 16 "001"%byte).
Definition demo_staging : SessionStaging := mkSessionStaging "ws" "up" false 0 false 10.
Definition demo_disk : stagingDirectory := mkStagingDirectory ∅ ∅ 0 0 None false.
Definition demo_tracker (n : Z) : option AggregateTracker := Some (mkAggregateTracker n 1000).

Definition demo_id : bytes := ["a"; "1"]%byte.
Definition demo_text : bytes := bytes_of_string "hello".
Definition demo_begin : BeginRequest :=
  mkBeginRequest demo_id "notes.txt" "text/plain" "txt" 5 (Sum256 demo_text).
Definition demo_chunk (off : Z) (data : bytes) : TransferOp :=
  OpChunk (mkChunkRequest demo_id off data (Sum256 data)).

Definition demo_ops : list TransferOp :=
  [OpBegin demo_begin demo_rand; demo_chunk 0 (take 2 demo_text); demo_chunk 2 (drop 2 demo_text);
   OpBegin (mkBeginRequest ["b"]%byte "other.txt" "text/plain" "txt" 5 (Sum256 demo_text)) (fun _ => Ok (replicate 16 "002"%byte));
   OpCancel ["b"]%byte].

Definition demo_open : World :=
  match (NewManagerWithAggregate demo_disk demo_staging (demo_tracker 100) demo_rand).2 with
  | Ok w => w
  | Err _ => mkWorld (newManager defaultLimits 0) demo_staging None demo_disk
  end.

Definition demo_opened :=
  NewManagerWithAggregate demo_disk demo_staging (demo_tracker 100) demo_rand.
Definition demo_run := transfer_run demo_open demo_ops.

Lemma demo_opened_eq : demo_opened = (demo_opened.1.1.1, demo_opened.1.1.2, demo_opened.1.2, Ok demo_open).
Proof. vm_compute. reflexivity. Qed.

Lemma demo_ops_ok : Forall op_ok demo_ops.
Proof. repeat constructor; vm_compute; done. Qed.

Lemma demo_run_eq : transfer_run demo_open demo_ops = (demo_run.1, demo_run.2).
Proof. vm_compute. reflexivity. Qed.

Lemma demo_fresh : mgr demo_open = newManager defaultLimits 10.
Proof. vm_compute. reflexivity. Qed.

Lemma demo_disk_ok : staging_ok demo_disk.
Proof. by split. Qed.

Lemma demo_tracker_wf n : 0 <= n <= 1000 → aggregate_wf (demo_tracker n).
Proof. intros Hn. unfold demo_tracker. simpl. lia. Qed.

Definition demo_ops_done : list TransferOp := demo_ops ++ [OpComplete demo_id].
Definition demo_run_done := transfer_run demo_open demo_ops_done.

Lemma demo_ops_done_ok : Forall op_ok demo_ops_done.
Proof. apply Forall_app. split; [apply demo_ops_ok|repeat constructor]. Qed.

Lemma demo_run_done_eq :
  transfer_run demo_open demo_ops_done = (demo_run_done.1, demo_run_done.2).
Proof. vm_compute. reflexivity. Qed.

(** ** Witnesses *)

Lemma session_quota_respected_witness :
  quota_inv defaultLimits 10 demo_run.1 ∧ reservedBytes (mgr demo_run.1) = 15.
Proof.
  split; [|vm_compute; reflexivity].
  apply (session_quota_respected demo_disk demo_staging (demo_tracker 100) demo_rand
           demo_opened.1.1.1 demo_opened.1.1.2 demo_opened.1.2
           demo_open demo_ops demo_run.1 demo_run.2).
  - unfold demo_staging, defaultMaxSessionBytes. simpl. lia.
  - exact demo_opened_eq.
  - exact demo_ops_ok.
  - exact demo_run_eq.
Defined.

Lemma aggregate_counts_reservations_witness :
  TotalBytes (agg demo_run.1) = 100 + leaked demo_run.2 + charged demo_run.1 ∧
  leaked demo_run.2 = 0 ∧ charged demo_run.1 = 15.
Proof.
  split; [|split; vm_compute; reflexivity].
  apply (aggregate_counts_reservations demo_disk demo_staging (demo_tracker 100) demo_rand
           demo_opened.1.1.1 demo_opened.1.1.2 demo_opened.1.2
           demo_open demo_ops demo_run.1 demo_run.2).
  - apply demo_tracker_wf. lia.
  - reflexivity.
  - unfold demo_staging, defaultMaxSessionBytes. simpl. lia.
  - exact demo_opened_eq.
  - exact demo_ops_ok.
  - exact demo_run_eq.
Defined.

(** A tracker with 995 of 1000 bytes in use refuses the ten inherited bytes, and
    then counts 985. *)
Definition demo_refused :=
  NewManagerWithAggregate demo_disk demo_staging (demo_tracker 995) demo_rand.

Lemma failed_open_undercounts_witness : TotalBytes demo_refused.1.2 = 985.
Proof.
  rewrite (failed_open_undercounts demo_disk demo_staging (demo_tracker 995) demo_rand
             demo_refused.1.1.1 demo_refused.1.1.2 demo_refused.1.2).
  - reflexivity.
  - apply demo_tracker_wf. lia.
  - reflexivity.
  - unfold demo_staging. simpl. lia.
  - vm_compute. reflexivity.
Defined.

Definition demo_completed := Complete demo_run.1 demo_id.
Definition demo_attachment : CompletedAttachment :=
  mkCompletedAttachment demo_id "notes.txt" "up/01010101010101010101010101010101.txt"
    "text/plain" ".txt" 5 (Sum256 demo_text).

Lemma completed_content_verified_witness :
  ∃ r chunks, upload demo_run.2 (string_of_bytes demo_id) = Some (r, chunks) ∧
    attachment_matches (string_of_bytes demo_id) r (concat chunks) demo_attachment.
Proof.
  apply (completed_content_verified defaultLimits 10 demo_open demo_ops demo_run.1 demo_run.2
           demo_id demo_completed.1 demo_attachment).
  - exact demo_fresh.
  - exact demo_ops_ok.
  - exact demo_run_eq.
  - vm_compute. reflexivity.
Defined.

Lemma selection_is_verified_witness :
  Forall2 (fun id c => ∃ r chunks, upload demo_run_done.2 (string_of_bytes id) = Some (r, chunks) ∧
    attachment_matches (string_of_bytes id) r (concat chunks) c) [demo_id] [demo_attachment].
Proof.
  apply (selection_is_verified defaultLimits 10 demo_open demo_ops_done demo_run_done.1
           demo_run_done.2 [demo_id] [demo_attachment]).
  - exact demo_fresh.
  - exact demo_ops_done_ok.
  - exact demo_run_done_eq.
  - vm_compute. reflexivity.
Defined.

Lemma outcome_is_accurate_witness :
  ∃ r chunks, upload demo_run.2 (string_of_bytes demo_id) = Some (r, chunks) ∧
    5 = len (concat chunks) ∧ len (concat chunks) <= Begin_TotalSizeBytes r.
Proof.
  apply (outcome_is_accurate defaultLimits 10 demo_open demo_ops demo_run.1 demo_run.2 demo_id
           (mkTransferOutcome TransferDispositionActive 5)).
  - exact demo_fresh.
  - exact demo_ops_ok.
  - exact demo_run_eq.
  - vm_compute. reflexivity.
Defined.

Lemma published_files_hold_uploads_witness :
  ∃ i r chunks,
    names (dir demo_run_done.1) !! filepath_Base (RelativePath demo_attachment) = Some i ∧
    upload demo_run_done.2 (string_of_bytes demo_id) = Some (r, chunks) ∧
    content (dir demo_run_done.1) i = concat chunks ∧
    SHA256 demo_attachment = Sum256 (concat chunks) ∧
    SizeBytes demo_attachment = len (concat chunks).
Proof.
  refine (proj1 (published_files_hold_uploads demo_disk demo_staging (demo_tracker 100) demo_rand
           demo_opened.1.1.1 demo_opened.1.1.2 demo_opened.1.2
           demo_open demo_ops_done demo_run_done.1 demo_run_done.2
           demo_disk_ok _ demo_opened_eq demo_ops_done_ok demo_run_done_eq)
         (string_of_bytes demo_id) demo_attachment _).
  - unfold demo_staging, defaultMaxSessionBytes. simpl. lia.
  - vm_compute. reflexivity.
Defined.

Lemma generated_names_are_valid_witness :
  validGeneratedStagingName (hexEncode (replicate 16 "001"%byte) ++ ".txt") = true.
Proof.
  apply (generated_names_are_valid (replicate 16 "001"%byte) "txt" "text/plain"
           (mkContentPolicy ".txt" "text/plain" true EmptyString)).
  - reflexivity.
  - vm_compute. reflexivity.
Defined.
