(* ===== verification/Ticket.v ===== *)
(** * Relay tickets ([internal/relay/ticket.go], [internal/relay/epoch.go])

    An issuer signs short-lived tickets; the relay's verifier checks their
    shape, expiry and signature, remembers the identifiers it has accepted, and
    may consult a revocation gate.  Ed25519 and the deterministic protobuf
    encoding enter as the class [TicketCrypto].  Times and durations are
    nanoseconds. *)

From S2P Require Import Prelude.

Definition Second : Z := 1000000000.
Definition Minute : Z := 60 * Second.

Definition CurrentTicketVersion : Z := 1.
Definition ticketIDBytes : Z := 16.
Definition routeIDBytes : Z := 16.
Definition ticketNonceBytes : Z := 16.
Definition ticketReplayTTL : Z := 10 * Minute.
Definition DeviceIDBytes : Z := 16.
Definition ed25519_PublicKeySize : Z := 32.
Definition ed25519_PrivateKeySize : Z := 64.
Definition ed25519_SignatureSize : Z := 64.

(** [time.Time{}], the first of January of the year 1, counted from the Unix
    epoch. *)
Definition zeroTime : Z := -62135596800 * Second.

Definition ErrTicketVersion := ErrorString "relay ticket version is not supported".
Definition ErrTicketSignature := ErrorString "relay ticket signature is invalid".
Definition ErrTicketExpired := ErrorString "relay ticket has expired".
Definition ErrTicketMalformed := ErrorString "relay ticket is malformed".
Definition ErrTicketUnspecified := ErrorString "relay ticket endpoint is unspecified".
Definition ErrTicketReplayed := ErrorString "relay ticket has already been used".
Definition ErrTicketIssued := ErrorString "relay ticket is not yet issuable".
Definition ErrTicketRevoked := ErrorString "relay ticket backing device has been revoked".

(** ** Data *)

(** The enumeration is open on the wire. *)
Inductive RelayEndpoint :=
  | RELAY_ENDPOINT_UNSPECIFIED
  | RELAY_ENDPOINT_AGENT
  | RELAY_ENDPOINT_CLIENT
  | RELAY_ENDPOINT_UNKNOWN (n : Z).

#[global] Instance RelayEndpoint_eq_dec : EqDecision RelayEndpoint.
Proof. solve_decision. Defined.

Record RelayTicket := mkRelayTicket {
  Version : Z;
  TicketId : bytes;
  RouteId : bytes;
  Ticket_Endpoint : RelayEndpoint;
  DeviceId : bytes;
  ExpiresAt : option Z;
  MaxConnections : Z;
  Nonce : bytes;
  IssuerSignature : bytes;
  IssuerEpoch : Z;
}.

#[global] Instance RelayTicket_eta : Eta RelayTicket := fun t =>
  mkRelayTicket (Version t) (TicketId t) (RouteId t) (Ticket_Endpoint t) (DeviceId t) (ExpiresAt t)
    (MaxConnections t) (Nonce t) (IssuerSignature t) (IssuerEpoch t).

#[global] Instance RelayTicket_eq_dec : EqDecision RelayTicket.
Proof. solve_decision. Defined.

Record IssueInput := mkIssueInput {
  In_RouteID : bytes;
  In_DeviceID : bytes;
  In_Endpoint : RelayEndpoint;
  In_MaxConnections : Z;
  In_Lifetime : Z;
  In_ExpiresAt : Z;
  In_IssuerEpoch : Z;
}.

(** The verified ticket. *)
Record Ticket := mkTicket {
  wire : RelayTicket;
  issuer : bytes;
  expires : Z;
}.

(** Signatures over the encoding of a ticket. *)
Class TicketCrypto := {
  ticket_Marshal : RelayTicket → result bytes;
  ed25519_Sign : bytes → bytes → bytes;
  ed25519_Verify : bytes → bytes → bytes → bool;
  ed25519_Public : bytes → bytes;
}.

(** [Authorizer] is nil or a function. *)
Definition Authorizer := bytes → Z → result unit.

Record Verifier := mkVerifier {
  issuers : gmap string bytes;
  replay : gmap string Z;
  authorizer : option Authorizer;
}.

#[global] Instance Verifier_eta : Eta Verifier := fun v =>
  mkVerifier (issuers v) (replay v) (authorizer v).

Section Ticket.
Context {crypto : TicketCrypto}.

(** ** Issuing *)

Definition encodeTicketBody (ticket : RelayTicket) : result bytes :=
  ticket_Marshal (ticket <| IssuerSignature := [] |>).

Definition signTicket (private : bytes) (ticket : RelayTicket) : result bytes :=
  match encodeTicketBody ticket with
  | Err e => Err (ErrorWrap "encode ticket body" e)
  | Ok body => Ok (ed25519_Sign private body)
  end.

Definition validEndpoint (e : RelayEndpoint) : bool :=
  match e with RELAY_ENDPOINT_AGENT | RELAY_ENDPOINT_CLIENT => true | _ => false end.

(** [Issue], with the clock reading and the two results of the random source. *)
Definition Issue (private : bytes) (now : Z) (randomID randomNonce : result bytes)
    (input : IssueInput) : result RelayTicket :=
  if negb (len (In_RouteID input) =? routeIDBytes) then
    Err (ErrorString ("route id must be 16 bytes, got " ++ pretty (len (In_RouteID input))))
  else if negb (len (In_DeviceID input) =? DeviceIDBytes) then
    Err (ErrorString ("device id must be 16 bytes, got " ++ pretty (len (In_DeviceID input))))
  else if negb (validEndpoint (In_Endpoint input)) then Err ErrTicketUnspecified
  else if In_MaxConnections input =? 0 then
    Err (ErrorString "max connections must be greater than zero")
  else
    let lifetime := if In_Lifetime input <=? 0 then 2 * Minute else In_Lifetime input in
    let expires := if negb (In_ExpiresAt input =? zeroTime) then In_ExpiresAt input
                   else now + lifetime in
    match randomID with
    | Err e => Err (ErrorWrap "generate ticket id" e)
    | Ok ticketID =>
        match randomNonce with
        | Err e => Err (ErrorWrap "generate ticket nonce" e)
        | Ok nonce =>
            let ticket := {| Version := CurrentTicketVersion;
                             TicketId := ticketID;
                             RouteId := In_RouteID input;
                             Ticket_Endpoint := In_Endpoint input;
                             DeviceId := In_DeviceID input;
                             ExpiresAt := Some expires;
                             MaxConnections := In_MaxConnections input;
                             Nonce := nonce;
                             IssuerSignature := [];
                             IssuerEpoch := In_IssuerEpoch input |} in
            signature ← signTicket private ticket;
            Ok (ticket <| IssuerSignature := signature |>)
        end
    end.

(** ** Verifying *)

Definition NewVerifier (keys : list bytes) : Verifier :=
  mkVerifier
    (foldl (fun m key => if negb (len key =? ed25519_PublicKeySize) then m
                         else <[string_of_bytes key := key]> m) ∅ keys) ∅ None.

Definition SetAuthorizer (v : Verifier) (a : option Authorizer) : Verifier :=
  v <| authorizer := a |>.

Definition sweepLocked (v : Verifier) (now : Z) : Verifier :=
  v <| replay ::= filter (fun kv => ¬ kv.2 < now - ticketReplayTTL) |>.

Definition checkAndRecordReplay (v : Verifier) (now : Z) (ticketID : bytes) : Verifier * bool :=
  let v := sweepLocked v now in
  let key := string_of_bytes ticketID in
  if bool_decide (key ∈ dom (replay v)) then (v, false)
  else (v <| replay ::= insert key now |>, true).

Definition forgetReplay (v : Verifier) (ticketID : bytes) : Verifier :=
  v <| replay ::= delete (string_of_bytes ticketID) |>.

Definition SweepNow (v : Verifier) (now : Z) : Verifier := sweepLocked v now.
Definition ReplaySize (v : Verifier) : nat := size (replay v).

(** The keys are tried in the order of the map's iteration. *)
Definition verifySignature (v : Verifier) (w : RelayTicket) : result bytes :=
  match encodeTicketBody w with
  | Err _ => Err ErrTicketSignature
  | Ok body =>
      match List.find (fun key => ed25519_Verify key body (IssuerSignature w))
              (map_to_list (issuers v)).*2 with
      | Some key => Ok key
      | None => Err ErrTicketSignature
      end
  end.

Definition skewAllowance : Z := 30 * Second.

(** [Verify] reads the clock twice: [now] for the expiry, [replayNow] for the
    replay set. *)
Definition Verify (v : Verifier) (now replayNow : Z) (w : RelayTicket) : Verifier * result Ticket :=
  if negb (Version w =? CurrentTicketVersion) then (v, Err ErrTicketVersion)
  else if negb (len (TicketId w) =? ticketIDBytes) then (v, Err ErrTicketMalformed)
  else if negb (len (RouteId w) =? routeIDBytes) then (v, Err ErrTicketMalformed)
  else if negb (len (DeviceId w) =? DeviceIDBytes) then (v, Err ErrTicketMalformed)
  else if negb (len (Nonce w) =? ticketNonceBytes) then (v, Err ErrTicketMalformed)
  else if negb (validEndpoint (Ticket_Endpoint w)) then (v, Err ErrTicketUnspecified)
  else if MaxConnections w =? 0 then (v, Err ErrTicketMalformed)
  else if negb (len (IssuerSignature w) =? ed25519_SignatureSize) then (v, Err ErrTicketSignature)
  else match ExpiresAt w with
  | None => (v, Err ErrTicketMalformed)
  | Some expires =>
      if expires =? zeroTime then (v, Err ErrTicketMalformed)
      else if negb (now + skewAllowance <? expires) && (now >? expires) then (v, Err ErrTicketExpired)
      else if expires >? now + ticketReplayTTL then (v, Err ErrTicketIssued)
      else
        match checkAndRecordReplay v replayNow (TicketId w) with
        | (v, false) => (v, Err ErrTicketReplayed)
        | (v, true) =>
            match verifySignature v w with
            | Err e => (forgetReplay v (TicketId w), Err e)
            | Ok key =>
                match authorizer v with
                | Some authorize =>
                    match authorize (DeviceId w) (IssuerEpoch w) with
                    | Err _ => (forgetReplay v (TicketId w), Err ErrTicketRevoked)
                    | Ok _ => (v, Ok (mkTicket w key expires))
                    end
                | None => (v, Ok (mkTicket w key expires))
                end
            end
        end
  end.

(** ** The revocation gate ([epoch.go]) *)

(** [source] is the live revocation epoch, or nil. *)
Definition StoreAuthorizer (source : option Z) : Authorizer := fun deviceID issuerEpoch =>
  match source with
  | None => Err (ErrorString "relay authorizer: nil device-identity store")
  | Some epoch =>
      if issuerEpoch =? 0 then
        Err (ErrorString "relay authorizer: no issuer epoch stamped on ticket")
      else if issuerEpoch <? epoch then
        Err (ErrorString ("relay authorizer: ticket backing device " ++ hexEncode deviceID ++
                          " has been revoked"))
      else Ok tt
  end.

(** ** What is accepted *)

Record well_formed (w : RelayTicket) : Prop := mkWellFormed {
  wf_version : Version w = 1;
  wf_id : len (TicketId w) = 16;
  wf_route : len (RouteId w) = 16;
  wf_device : len (DeviceId w) = 16;
  wf_nonce : len (Nonce w) = 16;
  wf_endpoint : Ticket_Endpoint w = RELAY_ENDPOINT_AGENT ∨ Ticket_Endpoint w = RELAY_ENDPOINT_CLIENT;
  wf_connections : MaxConnections w ≠ 0;
  wf_signature : len (IssuerSignature w) = 64;
}.

(** Some configured key verifies the signature of the ticket without it. *)
Definition signed_by (v : Verifier) (w : RelayTicket) (key : bytes) : Prop :=
  ∃ name body, issuers v !! name = Some key ∧ encodeTicketBody w = Ok body ∧
    ed25519_Verify key body (IssuerSignature w) = true.

Definition authorized (v : Verifier) (w : RelayTicket) : Prop :=
  match authorizer v with
  | None => True
  | Some authorize => ∃ u, authorize (DeviceId w) (IssuerEpoch w) = Ok u
  end.

(** The ticket identifier is remembered at the time of the call. *)
Definition remembered (v : Verifier) (replayNow : Z) (id : bytes) : Prop :=
  ∃ t, replay v !! string_of_bytes id = Some t ∧ replayNow - ticketReplayTTL <= t.

Lemma sweep_lookup v now key t :
  replay (sweepLocked v now) !! key = Some t ↔ replay v !! key = Some t ∧ now - ticketReplayTTL <= t.
Proof. simpl. rewrite map_lookup_filter_Some. simpl. naive_solver lia. Qed.

Lemma validEndpoint_spec e :
  validEndpoint e = true ↔ e = RELAY_ENDPOINT_AGENT ∨ e = RELAY_ENDPOINT_CLIENT.
Proof. destruct e; simpl; naive_solver. Qed.

Lemma verifySignature_Ok v w key : verifySignature v w = Ok key → signed_by v w key.
Proof.
  unfold verifySignature, signed_by. intros H. go_cases.
  match goal with H : List.find _ _ = Some _ |- _ => apply List.find_some in H as [Hin Hv] end.
  apply list_elem_of_In, list_elem_of_fmap in Hin as ([name k] & -> & Hin).
  apply elem_of_map_to_list in Hin. eauto.
Qed.

Lemma verifySignature_complete v w key :
  signed_by v w key → ∃ key', verifySignature v w = Ok key'.
Proof.
  intros (name & body & Hn & Hb & Hv). unfold verifySignature. rewrite Hb.
  destruct (List.find _ _) eqn:Hf; [eauto|].
  eapply List.find_none in Hf; [|apply list_elem_of_In, list_elem_of_fmap; exists (name, key); split;
    [done|by apply elem_of_map_to_list]]. simpl in Hf. congruence.
Qed.

(** ** Verification *)

Lemma checkAndRecordReplay_spec v now id v' ok :
  checkAndRecordReplay v now id = (v', ok) →
  if ok then ¬ remembered v now id ∧
    replay (sweepLocked v now) !! string_of_bytes id = None ∧
    v' = (sweepLocked v now) <| replay ::= insert (string_of_bytes id) now |>
  else remembered v now id ∧ v' = sweepLocked v now.
Proof.
  unfold checkAndRecordReplay. case_bool_decide as Hd; intros [= <- <-].
  - apply elem_of_dom in Hd as [t Ht]. split; [|done]. exists t. by apply sweep_lookup.
  - split_and!; [|by apply not_elem_of_dom|done]. intros (t & Ht & Hage). apply Hd, elem_of_dom.
    exists t. by apply sweep_lookup.
Qed.

Lemma checkAndRecordReplay_fresh v now id :
  ¬ remembered v now id → checkAndRecordReplay v now id =
    ((sweepLocked v now) <| replay ::= insert (string_of_bytes id) now |>, true).
Proof.
  intros Hr. destruct (checkAndRecordReplay v now id) as [v' [|]] eqn:Hc;
    apply checkAndRecordReplay_spec in Hc; naive_solver.
Qed.

#[local] Arguments checkAndRecordReplay : simpl never.
#[local] Arguments verifySignature : simpl never.

(** The state after an accepted ticket, and the conditions of acceptance. *)
Lemma Verify_Ok v now replayNow w v' t :
  Verify v now replayNow w = (v', Ok t) →
  well_formed w ∧ wire t = w ∧ ExpiresAt w = Some (expires t) ∧ expires t ≠ zeroTime ∧
  now <= expires t <= now + ticketReplayTTL ∧ ¬ remembered v replayNow (TicketId w) ∧
  signed_by v w (issuer t) ∧ authorized v w ∧
  replay (sweepLocked v replayNow) !! string_of_bytes (TicketId w) = None ∧
  v' = (sweepLocked v replayNow) <| replay ::= insert (string_of_bytes (TicketId w)) replayNow |>.
Proof.
  unfold Verify. intros H. repeat (case_match; simplify_eq; []).
  match goal with H : checkAndRecordReplay _ _ _ = _ |- _ =>
    apply checkAndRecordReplay_spec in H as (Hfresh & Hnone & ->) end.
  match goal with H : verifySignature _ _ = Ok _ |- _ => apply verifySignature_Ok in H as Hsig end.
  split_bool. match type of H with context [authorizer ?x] => change (authorizer x) with (authorizer v) in H end.
  assert (authorized v w ∧ t = mkTicket w a z ∧
    v' = (sweepLocked v replayNow) <| replay ::= insert (string_of_bytes (TicketId w)) replayNow |>)
    as (Hauth & -> & ->).
  { unfold authorized. destruct (authorizer v) as [au|]; [|by simplify_eq].
    destruct (au _ _); simplify_eq. eauto. }
  unfold CurrentTicketVersion, ticketIDBytes, routeIDBytes, DeviceIDBytes, ticketNonceBytes,
    ed25519_SignatureSize in *.
  split_and!; try done; simpl; try lia.
  - constructor; try lia; try done. by apply validEndpoint_spec.
  - unfold skewAllowance, Second in *. lia.
Qed.

(** The roll-back undoes the recording. *)
Lemma forget_recorded v id now :
  replay v !! string_of_bytes id = None →
  forgetReplay (v <| replay ::= insert (string_of_bytes id) now |>) id = v.
Proof.
  intros Hn. unfold forgetReplay. destruct v as [ks re au]. simpl in *. by rewrite delete_insert_id.
Qed.

Lemma Verify_rejected v now replayNow w v' e :
  Verify v now replayNow w = (v', Err e) →
  v' = v ∨ v' = sweepLocked v replayNow.
Proof.
  unfold Verify. intros H. repeat (case_match; simplify_eq/=; auto);
    match goal with H : checkAndRecordReplay _ _ _ = _ |- _ =>
      apply checkAndRecordReplay_spec in H; destruct_and? H; subst; auto end;
    right; by apply forget_recorded.
Qed.

(** The conditions of acceptance suffice. *)
Lemma Verify_complete v now replayNow w e key :
  well_formed w → ExpiresAt w = Some e → e ≠ zeroTime → now <= e <= now + ticketReplayTTL →
  ¬ remembered v replayNow (TicketId w) → signed_by v w key → authorized v w →
  ∃ v' t, Verify v now replayNow w = (v', Ok t).
Proof.
  intros Hw He Hz Ht Hr Hk Ha. destruct Hw.
  assert (∃ key', verifySignature
    ((sweepLocked v replayNow) <| replay ::= insert (string_of_bytes (TicketId w)) replayNow |>) w
    = Ok key') as [key' Hk'] by (by eapply verifySignature_complete).
  pose proof (checkAndRecordReplay_fresh v replayNow (TicketId w) Hr) as Hcheck.
  unfold Verify, validEndpoint.
  rewrite wf_version0, wf_id0, wf_route0, wf_device0, wf_nonce0, wf_signature0, He. simpl.
  destruct (MaxConnections w =? 0) eqn:?; [lia|].
  destruct (e =? zeroTime) eqn:?; [lia|].
  destruct (now >? e) eqn:?; [lia|]. rewrite andb_false_r.
  destruct (e >? now + ticketReplayTTL) eqn:?; [lia|].
  rewrite Hcheck, Hk'. simpl. unfold authorized in Ha.
  destruct wf_endpoint0 as [-> | ->]; destruct (authorizer v) as [a|]; eauto;
    destruct Ha as [u ->]; eauto.
Qed.

(** A ticket is accepted exactly when it is well formed, has not expired
    and expires within ten minutes, its identifier is not remembered, a
    configured issuer key verifies its signature, and the revocation gate, if
    any, allows its device and epoch.  The skew allowance of the code admits no
    expired ticket. *)
Theorem Verify_spec v now replayNow w :
  (∃ v' t, Verify v now replayNow w = (v', Ok t)) ↔
  well_formed w ∧
  (∃ e, ExpiresAt w = Some e ∧ e ≠ zeroTime ∧ now <= e <= now + ticketReplayTTL) ∧
  ¬ remembered v replayNow (TicketId w) ∧ (∃ key, signed_by v w key) ∧ authorized v w.
Proof.
  split.
  - intros (v' & t & H). apply Verify_Ok in H as (? & ? & ? & ? & ? & ? & ? & ? & _ & _). eauto 10.
  - intros (Hw & (e & He & Hz & Ht) & Hr & (key & Hk) & Ha). by eapply Verify_complete.
Qed.

(** A rejected ticket changes nothing about which identifiers are
    remembered: it neither burns its own identifier nor frees another. *)
Theorem rejection_burns_nothing v now replayNow w v' e :
  Verify v now replayNow w = (v', Err e) →
  ∀ id, remembered v' replayNow id ↔ remembered v replayNow id.
Proof.
  intros H id. apply Verify_rejected in H as [-> | ->]; [done|]. unfold remembered.
  split; intros (t & Ht & Ha); exists t; split; try done; [by apply sweep_lookup in Ht as [? _]|].
  by apply sweep_lookup.
Qed.

Lemma Verify_ungated v now replayNow w v' t authorize :
  Verify (v <| authorizer := None |>) now replayNow w = (v', Ok t) →
  Verify (v <| authorizer := Some authorize |>) now replayNow w =
    match authorize (DeviceId w) (IssuerEpoch w) with
    | Ok _ => (v' <| authorizer := Some authorize |>, Ok t)
    | Err _ => (sweepLocked (v <| authorizer := Some authorize |>) replayNow, Err ErrTicketRevoked)
    end.
Proof.
  intros H. pose proof (Verify_Ok _ _ _ _ _ _ H) as (_ & _ & _ & _ & _ & Hr & _ & _ & Hnone & ->).
  unfold Verify in *. repeat (case_match; simplify_eq; []).
  rewrite checkAndRecordReplay_fresh in * by done. simplify_eq.
  match goal with H : verifySignature _ w = Ok _ |- _ =>
    change (verifySignature ((sweepLocked (v <| authorizer := Some authorize |>) replayNow)
      <| replay ::= insert (string_of_bytes (TicketId w)) replayNow |>) w = Ok a) in H; rewrite H end.
  match goal with |- context [match authorizer ?x with _ => _ end] =>
    change (authorizer x) with (Some authorize) end.
  destruct (authorize (DeviceId w) (IssuerEpoch w)) eqn:Hau; rewrite ?Hau;
    [simpl in H; by simplify_eq|].
  by rewrite (forget_recorded (sweepLocked (v <| authorizer := Some authorize |>) replayNow)).
Qed.

(** With the store's epoch as revocation gate, an accepted ticket carries a
    non-zero epoch that is not older than the store's; a ticket that would be
    accepted without the gate but was minted before a revocation, or without an
    epoch, is rejected as revoked. *)
Theorem revocation_gate v now replayNow w epoch :
  let gated := v <| authorizer := Some (StoreAuthorizer (Some epoch)) |> in
  (∀ v' t, Verify gated now replayNow w = (v', Ok t) →
     IssuerEpoch w ≠ 0 ∧ epoch <= IssuerEpoch w) ∧
  (∀ v' t, Verify (v <| authorizer := None |>) now replayNow w = (v', Ok t) →
     IssuerEpoch w = 0 ∨ IssuerEpoch w < epoch →
     ∃ v'', Verify gated now replayNow w = (v'', Err ErrTicketRevoked)).
Proof.
  cbv zeta. split.
  - intros v' t HV. apply Verify_Ok in HV as (_ & _ & _ & _ & _ & _ & _ & [u Hu] & _).
    unfold StoreAuthorizer in Hu. go_cases. lia.
  - intros v' t HV Hep. rewrite (Verify_ungated _ _ _ _ _ _ _ HV).
    unfold StoreAuthorizer. destruct (IssuerEpoch w =? 0) eqn:?; [eauto|].
    destruct (IssuerEpoch w <? epoch) eqn:?; [eauto|lia].
Qed.

(** ** A ticket is good for one connection *)

Inductive VerifierEvent :=
  | EvVerify (now : Z) (w : RelayTicket)
  | EvSweep (now : Z).

Definition event_time (ev : VerifierEvent) : Z :=
  match ev with EvVerify now _ => now | EvSweep now => now end.

(** The accepted tickets of a run, in order; one clock reading per event. *)
Fixpoint accepted (v : Verifier) (evs : list VerifierEvent) : list RelayTicket :=
  match evs with
  | [] => []
  | EvVerify now w :: evs' =>
      match Verify v now now w with
      | (v', Ok t) => wire t :: accepted v' evs'
      | (v', Err _) => accepted v' evs'
      end
  | EvSweep now :: evs' => accepted (SweepNow v now) evs'
  end.

(** Every event happens at [now] or later, in order. *)
Fixpoint clock_from (now : Z) (evs : list VerifierEvent) : Prop :=
  match evs with
  | [] => True
  | ev :: evs' => now <= event_time ev ∧ clock_from (event_time ev) evs'
  end.

(** A ticket that was accepted is remembered until it expires. *)
Definition spent (v : Verifier) (now : Z) (w : RelayTicket) : Prop :=
  ∃ e, ExpiresAt w = Some e ∧
    (e < now ∨ ∃ t, replay v !! string_of_bytes (TicketId w) = Some t ∧ e <= t + ticketReplayTTL).

Lemma spent_sweep v now now' w : now <= now' → spent v now w → spent (sweepLocked v now') now' w.
Proof.
  intros Hle (e & He & Hs). exists e. split; [done|]. destruct Hs as [Hs|(t & Ht & Ha)]; [left; lia|].
  destruct (decide (now' - ticketReplayTTL <= t)); [|left; lia].
  right. exists t. split; [|done]. by apply sweep_lookup.
Qed.

Lemma spent_later v now now' w : now <= now' → spent v now w → spent v now' w.
Proof. intros Hle (e & He & [Hs|Hs]); exists e; split; auto; left; lia. Qed.

Lemma spent_rejects v now w v' t : Verify v now now w = (v', Ok t) → ¬ spent v now w.
Proof.
  intros H (e & He & Hs). apply Verify_Ok in H as (_ & _ & He' & _ & Hrange & Hr & _).
  simplify_eq. destruct Hs as [|(t' & Ht & Ha)]; [lia|]. apply Hr. exists t'. split; [done|]. lia.
Qed.

Lemma spent_step v now w v' r w' :
  Verify v now now w = (v', r) → spent v now w' → spent v' now w'.
Proof.
  intros H Hs. destruct r as [t|e].
  - apply Verify_Ok in H as (_ & _ & _ & _ & _ & _ & _ & _ & Hnone & ->).
    apply (spent_sweep _ _ now) in Hs as (x & Hx & Hs); [|lia]. exists x. split; [done|].
    destruct Hs as [|(t' & Ht & Ha)]; [by left|]. right. exists t'. split; [|done].
    change (<[string_of_bytes (TicketId w):=now]> (replay (sweepLocked v now))
      !! string_of_bytes (TicketId w') = Some t').
    rewrite lookup_insert_ne; [done|]. intros E. rewrite E in Hnone. congruence.
  - apply Verify_rejected in H as [-> | ->]; [done|]. by apply (spent_sweep _ now).
Qed.

Lemma spent_fresh v now w v' t : Verify v now now w = (v', Ok t) → spent v' now w.
Proof.
  intros H. apply Verify_Ok in H as (_ & _ & He & _ & Hr & _ & _ & _ & _ & ->).
  exists (expires t). split; [done|]. right. exists now. simpl.
  rewrite lookup_insert_eq. split; [done|lia].
Qed.

Lemma accepted_fresh evs : ∀ v now w, clock_from now evs → spent v now w → w ∉ accepted v evs.
Proof.
  induction evs as [|[t w0|t] evs IH]; intros v now w Hc Hs; simpl; [set_solver| |].
  - destruct Hc as [Hle Hc]. simpl in Hle, Hc. apply (spent_later _ _ t) in Hs; [|done].
    destruct (Verify v t t w0) as [v' [tk|e]] eqn:HV; [|by eapply IH, spent_step].
    pose proof (Verify_Ok _ _ _ _ _ _ HV) as (_ & Hw & _). rewrite Hw.
    apply not_elem_of_cons. split; [|by eapply IH, spent_step].
    intros ->. by eapply spent_rejects.
  - destruct Hc as [Hle Hc]. eapply IH; [done|]. by apply (spent_sweep _ now).
Qed.


(** ** Issued tickets are accepted *)

(** What the standard library documents of Ed25519. *)
Definition ed25519_correct : Prop :=
  ∀ private body, len private = ed25519_PrivateKeySize →
    ed25519_Verify (ed25519_Public private) body (ed25519_Sign private body) = true ∧
    len (ed25519_Sign private body) = ed25519_SignatureSize ∧
    len (ed25519_Public private) = ed25519_PublicKeySize.

Lemma NewVerifier_issuers keys key :
  key ∈ keys → len key = ed25519_PublicKeySize →
  issuers (NewVerifier keys) !! string_of_bytes key = Some key.
Proof.
  intros Hin Hlen. unfold NewVerifier. simpl. generalize (∅ : gmap string bytes).
  induction keys as [|k keys IH] using rev_ind; intros m; [by apply not_elem_of_nil in Hin|].
  rewrite foldl_app. simpl. apply elem_of_app in Hin.
  destruct (decide (k = key)) as [->|Hne].
  - rewrite Hlen, Z.eqb_refl. simpl. by rewrite lookup_insert_eq.
  - assert (key ∈ keys) by (destruct Hin as [|?%list_elem_of_singleton]; congruence).
    case_match; [by apply IH|]. rewrite lookup_insert_ne; [by apply IH|].
    by intros ?%string_of_bytes_inj.
Qed.

(** What [Issue] returns: the request, signed over the ticket without its
    signature. *)
Lemma Issue_Ok private now randomID randomNonce input w :
  Issue private now (Ok randomID) (Ok randomNonce) input = Ok w →
  (len (TicketId w) = ticketIDBytes → len (Nonce w) = ticketNonceBytes →
   len (IssuerSignature w) = ed25519_SignatureSize → well_formed w) ∧
  ∃ body x, encodeTicketBody w = Ok body ∧ IssuerSignature w = ed25519_Sign private body ∧
    ExpiresAt w = Some x ∧ TicketId w = randomID ∧ Nonce w = randomNonce ∧
    RouteId w = In_RouteID input ∧ Ticket_Endpoint w = In_Endpoint input ∧
    DeviceId w = In_DeviceID input ∧ MaxConnections w = In_MaxConnections input ∧
    IssuerEpoch w = In_IssuerEpoch input.
Proof.
  unfold Issue, signTicket. intros HI.
  do 4 (match type of HI with (if ?b then _ else _) = _ => destruct b eqn:?; [done|] end).
  set (x := if negb _ then _ else _) in HI. cbv zeta in HI.
  destruct (encodeTicketBody _) as [body|e] eqn:Hb; [|done]. injection HI as <-. split_bool.
  split.
  - intros. constructor; try done; simpl; try (unfold routeIDBytes, DeviceIDBytes in *; lia).
    by apply validEndpoint_spec.
  - exists body, x. done.
Qed.

Lemma Issue_expiry private now randomID randomNonce input w :
  Issue private now randomID randomNonce input = Ok w →
  ExpiresAt w = Some (if negb (In_ExpiresAt input =? zeroTime) then In_ExpiresAt input
                      else now + (if In_Lifetime input <=? 0 then 2 * Minute else In_Lifetime input)).
Proof.
  unfold Issue, signTicket. intros HI.
  do 4 (match type of HI with (if ?b then _ else _) = _ => destruct b; [done|] end).
  destruct randomID, randomNonce; try done. cbv zeta in HI.
  destruct (encodeTicketBody _); [|done]. by injection HI as <-.
Qed.

(** A freshly issued ticket meets every condition of acceptance but those on the
    verifier and the clock. *)
Lemma issued_accepted v private now randomID randomNonce input w present replayNow :
  ed25519_correct → len private = ed25519_PrivateKeySize →
  len randomID = ticketIDBytes → len randomNonce = ticketNonceBytes →
  Issue private now (Ok randomID) (Ok randomNonce) input = Ok w →
  (∃ name, issuers v !! name = Some (ed25519_Public private)) → authorized v w →
  ¬ remembered v replayNow randomID →
  (∀ e, ExpiresAt w = Some e → e ≠ zeroTime ∧ present <= e <= present + ticketReplayTTL) →
  ∃ v' t, Verify v present replayNow w = (v', Ok t).
Proof.
  intros Hed Hpriv Hid Hnonce HI (name & Hname) Hauth Hfresh Hexp.
  apply Issue_Ok in HI as (Hwf & body & x & Hbody & Hsig & Hx & Hid' & Hn' & _).
  destruct (Hed private body Hpriv) as (Hv & Hsl & _). rewrite <- Hsig in Hv, Hsl.
  destruct (Hexp x Hx) as [Hz Hr].
  apply (Verify_complete _ _ _ _ x (ed25519_Public private)); try done.
  - apply Hwf; [by rewrite Hid'|by rewrite Hn'|done].
  - by rewrite Hid'.
  - by exists name, body.
Qed.

(** A ticket an issuer mints from a valid request is accepted by a fresh
    verifier that knows the issuer's key, up to its expiry, when it expires at
    most ten minutes after it is presented; the verified ticket carries the
    route, endpoint, device, connection cap and epoch of the request. *)
Theorem issued_ticket_verifies private keys now randomID randomNonce input w present replayNow :
  ed25519_correct → len private = ed25519_PrivateKeySize → ed25519_Public private ∈ keys →
  len randomID = ticketIDBytes → len randomNonce = ticketNonceBytes →
  Issue private now (Ok randomID) (Ok randomNonce) input = Ok w →
  (∀ e, ExpiresAt w = Some e → e ≠ zeroTime ∧ present <= e <= present + ticketReplayTTL) →
  ∃ v' t, Verify (NewVerifier keys) present replayNow w = (v', Ok t) ∧
    RouteId (wire t) = In_RouteID input ∧ Ticket_Endpoint (wire t) = In_Endpoint input ∧
    DeviceId (wire t) = In_DeviceID input ∧ MaxConnections (wire t) = In_MaxConnections input ∧
    IssuerEpoch (wire t) = In_IssuerEpoch input.
Proof.
  intros Hed Hpriv Hkey Hid Hnonce HI Hexp.
  assert (len (ed25519_Public private) = ed25519_PublicKeySize) as Hpl by by apply (Hed private []).
  destruct (issued_accepted (NewVerifier keys) private now randomID randomNonce input w present replayNow)
    as (v' & t & HV); try done.
  - eexists. by apply NewVerifier_issuers.
  - by intros (y & Hy & _).
  - apply Issue_Ok in HI as (_ & body & x & _ & _ & _ & _ & _ & Hfields).
    exists v', t. split; [done|]. by apply Verify_Ok in HV as (_ & -> & _).
Qed.
End Ticket.
