(* ===== verification/DeviceIdentity.v ===== *)
(** * Device identity ([internal/deviceidentity])

    The Agent's durable identity and the graph of client devices it has
    authorized: signed descriptors ([descriptor.go]), the protected state file
    and its validation ([store.go]), authorization and revocation
    ([authorization.go]).  Ed25519, X25519 and the protobuf encodings are the
    class [IdentityCrypto]; the state file's JSON is a [JsonCodec] and its storage
    is [SecureStore].  Times are nanoseconds; messages are their declared
    fields. *)

From S2P Require Import Prelude.
From S2P Require Import Utf8.
From S2P Require Import Sha256.
From S2P Require Import SecureStore.
From S2P Require Import Envelope.
From S2P Require Import Negotiation.
From S2P Require Import Ticket.

Definition KeyAgreementBytes : Z := 32.
Definition CurrentKeyVersion : Z := 1.
Definition descriptorSignatureDomain : bytes :=
  bytes_of_string "VibeBridge device descriptor v1" ++ ["000"%byte].
Definition maxDisplayNameBytes : Z := 128.
Definition maxPlatformBytes : Z := 32.
Definition ed25519_SeedSize : nat := 32.
Definition currentStateVersion : Z := 1.
Definition secureStorePurpose : string := "vibebridge-device-identity-v1".
Definition maxAuthorizedDevices : Z := 256.
Definition maxSignedDescriptorBytes : Z := 64 * 1024.

Definition ErrDeviceNotFound := ErrorString "authorized device not found".

(** The panic of a nil dereference. *)
Definition nilPointer :=
  ErrorString "runtime error: invalid memory address or nil pointer dereference".

(** ** Data *)

(** [timestamppb.Timestamp]. *)
Record Timestamp := mkTimestamp {
  Seconds : Z;
  Nanos : Z;
}.

#[global] Instance Timestamp_eq_dec : EqDecision Timestamp.
Proof. solve_decision. Defined.

Definition timestamp_New (t : Z) : Timestamp := mkTimestamp (t `div` Second) (t `mod` Second).
Definition AsTime (t : Timestamp) : Z := Seconds t * Second + Nanos t.
Definition IsValid (t : Timestamp) : bool :=
  (-62135596800 <=? Seconds t) && (Seconds t <=? 253402300799) &&
  (0 <=? Nanos t) && (Nanos t <? Second).

(** The enumerations are open 32-bit integers. *)
Definition DEVICE_CLASS_AGENT : Z := 1.
Definition DEVICE_CLASS_CLIENT : Z := 2.
Definition STATE_AUTHORIZED : Z := 1.
Definition STATE_REVOKED : Z := 2.

Record DeviceDescriptor := mkDeviceDescriptor {
  Desc_DeviceId : bytes;
  Desc_DisplayName : string;
  Desc_Platform : string;
  Desc_DeviceClass : Z;
  Desc_SigningPublicKey : bytes;
  Desc_KeyAgreementPublicKey : bytes;
  Desc_CreatedAt : option Timestamp;
  Desc_KeyVersion : Z;
  Desc_SupportedVersions : option ProtocolVersionRange;
}.

Record SignedDeviceDescriptor := mkSignedDeviceDescriptor {
  Signed_Descriptor : option DeviceDescriptor;
  Signed_Signature : bytes;
}.

#[global] Instance ProtocolVersion_eq_dec : EqDecision ProtocolVersion.
Proof. solve_decision. Defined.
#[global] Instance ProtocolVersionRange_eq_dec : EqDecision ProtocolVersionRange.
Proof. solve_decision. Defined.
#[global] Instance DeviceDescriptor_eq_dec : EqDecision DeviceDescriptor.
Proof. solve_decision. Defined.
#[global] Instance SignedDeviceDescriptor_eq_dec : EqDecision SignedDeviceDescriptor.
Proof. solve_decision. Defined.

(** The public view of a record. *)
Record AuthorizedDevice := mkAuthorizedDevice {
  View_Device : SignedDeviceDescriptor;
  View_AuthorizationVersion : Z;
  View_State : Z;
  View_AuthorizedAt : Timestamp;
  View_RevokedAt : option Timestamp;
  View_RevocationEpoch : Z;
}.

Record persistedAuthorization := mkPersistedAuthorization {
  Rec_Device : bytes;
  Rec_AuthorizationVersion : Z;
  Rec_State : Z;
  Rec_AuthorizedAt : Z;
  Rec_RevokedAt : option Z;
  Rec_RevocationEpoch : Z;
}.

#[global] Instance persistedAuthorization_eta : Eta persistedAuthorization := fun r =>
  mkPersistedAuthorization (Rec_Device r) (Rec_AuthorizationVersion r) (Rec_State r)
    (Rec_AuthorizedAt r) (Rec_RevokedAt r) (Rec_RevocationEpoch r).

Record persistedState := mkPersistedState {
  St_Version : Z;
  St_DeviceID : bytes;
  St_SigningPrivateKey : bytes;
  St_KeyAgreementPrivateKey : bytes;
  St_DisplayName : string;
  St_Platform : string;
  St_DeviceClass : Z;
  St_CreatedAt : Z;
  St_KeyVersion : Z;
  St_AuthorizationCounter : Z;
  St_RevocationEpoch : Z;
  St_Authorized : list persistedAuthorization;
}.

#[global] Instance persistedState_eta : Eta persistedState := fun s =>
  mkPersistedState (St_Version s) (St_DeviceID s) (St_SigningPrivateKey s)
    (St_KeyAgreementPrivateKey s) (St_DisplayName s) (St_Platform s) (St_DeviceClass s)
    (St_CreatedAt s) (St_KeyVersion s) (St_AuthorizationCounter s) (St_RevocationEpoch s)
    (St_Authorized s).

Record Store := mkStore {
  path : string;
  state : persistedState;
  readOnly : bool;
}.

#[global] Instance Store_eta : Eta Store := fun s => mkStore (path s) (state s) (readOnly s).

(** Keys, signatures and encodings: [crypto/ed25519], [crypto/ecdh] and the
    deterministic protobuf codec. *)
Class IdentityCrypto := {
  key_FromSeed : bytes → bytes;
  key_Public : bytes → bytes;
  key_Sign : bytes → bytes → bytes;
  key_Verify : bytes → bytes → bytes → bool;
  x25519_PrivateKey : bytes → bool;
  x25519_PublicKey : bytes → bool;
  x25519_Public : bytes → bytes;
  descriptor_Marshal : DeviceDescriptor → result bytes;
  signed_Marshal : SignedDeviceDescriptor → result bytes;
  signed_Unmarshal : bytes → result SignedDeviceDescriptor;
}.

Section DeviceIdentity.
Context {crypto : IdentityCrypto}.

(** ** Descriptors *)

Definition descriptorSignatureMessage (d : DeviceDescriptor) : result bytes :=
  match descriptor_Marshal d with
  | Err e => Err (ErrorWrap "encode device descriptor" e)
  | Ok encoded => Ok (descriptorSignatureDomain ++ encoded)
  end.

Definition ValidateDescriptor (descriptor : option DeviceDescriptor) : result unit :=
  match descriptor with
  | None => Err (ErrorString "device descriptor is required")
  | Some d =>
      if negb (len (Desc_DeviceId d) =? DeviceIDBytes) then
        Err (ErrorString "device ID must be 16 bytes")
      else if negb (len (Desc_SigningPublicKey d) =? ed25519_PublicKeySize) then
        Err (ErrorString "device signing public key must be 32 bytes")
      else if negb (len (Desc_KeyAgreementPublicKey d) =? KeyAgreementBytes) then
        Err (ErrorString "device key-agreement public key must be 32 bytes")
      else if negb (x25519_PublicKey (Desc_KeyAgreementPublicKey d)) then
        Err (ErrorString "device key-agreement public key is invalid")
      else if negb (bool_decide (TrimSpace (Desc_DisplayName d) = Desc_DisplayName d)) ||
              bool_decide (Desc_DisplayName d = EmptyString) ||
              (slen (Desc_DisplayName d) >? maxDisplayNameBytes) then
        Err (ErrorString "device display name is invalid")
      else if negb (bool_decide (TrimSpace (Desc_Platform d) = Desc_Platform d)) ||
              bool_decide (Desc_Platform d = EmptyString) ||
              (slen (Desc_Platform d) >? maxPlatformBytes) then
        Err (ErrorString "device platform is invalid")
      else if negb (Desc_DeviceClass d =? DEVICE_CLASS_AGENT) &&
              negb (Desc_DeviceClass d =? DEVICE_CLASS_CLIENT) then
        Err (ErrorString "device class is invalid")
      else match Desc_CreatedAt d with
      | None => Err (ErrorString "device creation time is invalid")
      | Some createdAt =>
          if negb (IsValid createdAt) || (AsTime createdAt =? zeroTime) then
            Err (ErrorString "device creation time is invalid")
          else if Desc_KeyVersion d =? 0 then
            Err (ErrorString "device key version must be positive")
          else match Desc_SupportedVersions d with
          | Some (mkProtocolVersionRange (Some minimum) (Some maximum)) =>
              if (Version_Major minimum =? 0) ||
                 negb (Version_Major minimum =? Version_Major maximum) ||
                 (Version_Minor minimum >? Version_Minor maximum) then
                Err (ErrorString "device protocol version range is invalid")
              else Ok tt
          | _ => Err (ErrorString "device protocol version range is required")
          end
      end
  end.

Record DescriptorOptions := mkDescriptorOptions {
  Opt_DeviceID : bytes;
  Opt_DisplayName : string;
  Opt_Platform : string;
  Opt_DeviceClass : Z;
  Opt_SigningPublicKey : bytes;
  Opt_KeyAgreementPublicKey : bytes;
  Opt_CreatedAt : Z;
  Opt_KeyVersion : Z;
  Opt_ProtocolMajor : Z;
  Opt_ProtocolMinor : Z;
}.

Definition newSignedDescriptor (o : DescriptorOptions) (signingKey : bytes)
    : result SignedDeviceDescriptor :=
  let version := mkProtocolVersion (Opt_ProtocolMajor o) (Opt_ProtocolMinor o) in
  let d := {| Desc_DeviceId := Opt_DeviceID o;
              Desc_DisplayName := Opt_DisplayName o;
              Desc_Platform := Opt_Platform o;
              Desc_DeviceClass := Opt_DeviceClass o;
              Desc_SigningPublicKey := Opt_SigningPublicKey o;
              Desc_KeyAgreementPublicKey := Opt_KeyAgreementPublicKey o;
              Desc_CreatedAt := Some (timestamp_New (Opt_CreatedAt o));
              Desc_KeyVersion := Opt_KeyVersion o;
              Desc_SupportedVersions :=
                Some (mkProtocolVersionRange (Some version) (Some version)) |} in
  match ValidateDescriptor (Some d) with
  | Err e => Err e
  | Ok _ =>
      if negb (len signingKey =? ed25519_PrivateKeySize) ||
         negb (bool_decide (key_Public signingKey = Opt_SigningPublicKey o)) then
        Err (ErrorString "descriptor signing key does not match its public key")
      else match descriptorSignatureMessage d with
      | Err e => Err e
      | Ok message => Ok (mkSignedDeviceDescriptor (Some d) (key_Sign signingKey message))
      end
  end.

Definition VerifySignedDescriptor (signed : option SignedDeviceDescriptor) : result unit :=
  match signed with
  | Some (mkSignedDeviceDescriptor (Some d) signature) =>
      match ValidateDescriptor (Some d) with
      | Err e => Err e
      | Ok _ =>
          if negb (len signature =? ed25519_SignatureSize) then
            Err (ErrorString "device descriptor signature must be 64 bytes")
          else match descriptorSignatureMessage d with
          | Err e => Err e
          | Ok message =>
              if negb (key_Verify (Desc_SigningPublicKey d) message signature) then
                Err (ErrorString "device descriptor signature is invalid")
              else Ok tt
          end
      end
  | _ => Err (ErrorString "signed device descriptor is required")
  end.

(** [strings.ToUpper] on hexadecimal digits. *)
Fixpoint upperHex (s : string) : string :=
  match s with
  | EmptyString => EmptyString
  | String c s' =>
      let n := N_of_ascii c in
      String (if (97 <=? n)%N && (n <=? 122)%N then ascii_of_N (n - 32) else c) (upperHex s')
  end.

Definition Fingerprint (signed : option SignedDeviceDescriptor) : result string :=
  match VerifySignedDescriptor signed with
  | Err e => Err e
  | Ok _ =>
      match signed ≫= Signed_Descriptor with
      | None => Err nilPointer
      | Some d =>
          match descriptor_Marshal d with
          | Err e => Err (ErrorWrap "encode device descriptor" e)
          | Ok encoded => Ok (upperHex (hexEncode (take 6 (Sum256 encoded))))
          end
      end
  end.

(** ** The state and its validation *)

Definition signedDescriptorLocked (st : persistedState) : result SignedDeviceDescriptor :=
  if negb (x25519_PrivateKey (St_KeyAgreementPrivateKey st)) then
    Err (ErrorString "load Agent key-agreement key")
  else
    newSignedDescriptor
      {| Opt_DeviceID := St_DeviceID st;
         Opt_DisplayName := St_DisplayName st;
         Opt_Platform := St_Platform st;
         Opt_DeviceClass := St_DeviceClass st;
         Opt_SigningPublicKey := key_Public (St_SigningPrivateKey st);
         Opt_KeyAgreementPublicKey := x25519_Public (St_KeyAgreementPrivateKey st);
         Opt_CreatedAt := St_CreatedAt st;
         Opt_KeyVersion := St_KeyVersion st;
         Opt_ProtocolMajor := CurrentMajor;
         Opt_ProtocolMinor := CurrentMinor |} (St_SigningPrivateKey st).

(** The checks of one record that do not concern the others. *)
Definition validateMetadata (counter epoch : Z) (record : persistedAuthorization) : result unit :=
  if (Rec_AuthorizationVersion record =? 0) || (Rec_AuthorizationVersion record >? counter) ||
     (Rec_AuthorizedAt record =? zeroTime) then
    Err (ErrorString "authorized device %d has invalid authorization metadata")
  else if Rec_State record =? STATE_AUTHORIZED then
    match Rec_RevokedAt record with
    | Some _ => Err (ErrorString "authorized device %d has invalid revocation metadata")
    | None =>
        if negb (Rec_RevocationEpoch record =? 0) then
          Err (ErrorString "authorized device %d has invalid revocation metadata")
        else Ok tt
    end
  else if Rec_State record =? STATE_REVOKED then
    match Rec_RevokedAt record with
    | None => Err (ErrorString "revoked device %d has invalid revocation metadata")
    | Some revokedAt =>
        if (revokedAt =? zeroTime) || (Rec_RevocationEpoch record =? 0) ||
           (Rec_RevocationEpoch record >? epoch) then
          Err (ErrorString "revoked device %d has invalid revocation metadata")
        else Ok tt
    end
  else Err (ErrorString "authorized device %d has invalid state").

(** The loop of [validateState] over the records: the set of device IDs seen and
    the highest version so far. *)
Fixpoint validateRecords (counter epoch : Z) (seen : gset string) (highestVersion : Z)
    (records : list persistedAuthorization) : result Z :=
  match records with
  | [] => Ok highestVersion
  | record :: records' =>
      if (len (Rec_Device record) =? 0) || (len (Rec_Device record) >? maxSignedDescriptorBytes) then
        Err (ErrorString "authorized device %d has an invalid descriptor size")
      else match signed_Unmarshal (Rec_Device record) with
      | Err e => Err (ErrorWrap "decode authorized device %d" e)
      | Ok signed =>
          match VerifySignedDescriptor (Some signed), Signed_Descriptor signed with
          | Err e, _ => Err (ErrorWrap "authorized device %d is invalid" e)
          | Ok _, None => Err nilPointer
          | Ok _, Some d =>
              if negb (Desc_DeviceClass d =? DEVICE_CLASS_CLIENT) then
                Err (ErrorString "authorized device %d is not a client")
              else
                let key := string_of_bytes (Desc_DeviceId d) in
                if bool_decide (key ∈ seen) then
                  Err (ErrorString "authorized device %d duplicates a device ID")
                else match validateMetadata counter epoch record with
                | Err e => Err e
                | Ok _ =>
                    validateRecords counter epoch ({[key]} ∪ seen)
                      (if Rec_AuthorizationVersion record >? highestVersion
                       then Rec_AuthorizationVersion record else highestVersion) records'
                end
          end
      end
  end.

Definition validateState (st : persistedState) : result unit :=
  if negb (St_Version st =? currentStateVersion) then
    Err (ErrorString "unsupported device identity version %d")
  else if negb (len (St_DeviceID st) =? DeviceIDBytes) then
    Err (ErrorString "stored device ID must be 16 bytes")
  else if negb (len (St_SigningPrivateKey st) =? ed25519_PrivateKeySize) then
    Err (ErrorString "stored signing private key has an invalid size")
  else if negb (bool_decide (key_FromSeed (take ed25519_SeedSize (St_SigningPrivateKey st)) =
                             St_SigningPrivateKey st)) then
    Err (ErrorString "stored signing private key is inconsistent")
  else if negb (len (St_KeyAgreementPrivateKey st) =? KeyAgreementBytes) then
    Err (ErrorString "stored key-agreement private key has an invalid size")
  else if negb (x25519_PrivateKey (St_KeyAgreementPrivateKey st)) then
    Err (ErrorString "stored key-agreement private key is invalid")
  else if negb (St_DeviceClass st =? DEVICE_CLASS_AGENT) then
    Err (ErrorString "stored identity is not an Agent")
  else if (St_CreatedAt st =? zeroTime) || (St_KeyVersion st =? 0) then
    Err (ErrorString "stored identity metadata is invalid")
  else if len (St_Authorized st) >? maxAuthorizedDevices then
    Err (ErrorString "stored identity has more than 256 authorized devices")
  else match signedDescriptorLocked st with
  | Err e => Err (ErrorWrap "stored Agent descriptor is invalid" e)
  | Ok _ =>
      match validateRecords (St_AuthorizationCounter st) (St_RevocationEpoch st) ∅ 0
              (St_Authorized st) with
      | Err e => Err e
      | Ok highestVersion =>
          if highestVersion >? St_AuthorizationCounter st then
            Err (ErrorString "stored authorization counter is invalid")
          else Ok tt
      end
  end.

(** ** Loading and saving *)

Context `{!JsonCodec envelope} `{!JsonCodec persistedState}.

Definition saveState (fs : Files) (sys : Syscalls) (p : string) (st : persistedState)
    : Files * result unit :=
  match json_Marshal st with
  | Err e => (fs, Err (ErrorWrap "encode protected identity state" e))
  | Ok encoded => Write fs sys p secureStorePurpose encoded
  end.

Definition loadState (fs : Files) (sysRead : option error) (p : string) : result persistedState :=
  match Read fs sysRead p secureStorePurpose with
  | Err e => Err e
  | Ok encoded =>
      match json_Decode encoded with
      | Err e => Err (ErrorWrap "decode protected identity state" e)
      | Ok st =>
          match json_Extra (A := persistedState) encoded with
          | ExtraValue =>
              Err (ErrorString "decode protected identity state: multiple JSON values are not allowed")
          | ExtraError e => Err (ErrorWrap "decode protected identity state" e)
          | ExtraEOF =>
              match validateState st with
              | Err e => Err e
              | Ok _ => Ok st
              end
          end
      end
  end.

(** [Load] opens the identity read-only. *)
Definition Load (fs : Files) (sysRead : option error) (p : string) : result Store :=
  if negb (IsAbs p) then Err (ErrorString "device identity path must be absolute")
  else match loadState fs sysRead p with
  | Err e => Err (ErrorWrap "load device identity" e)
  | Ok st => Ok (mkStore p st true)
  end.

(** [generateState], with what the random source, the clock and the platform
    give. *)
Record Generated := mkGenerated {
  gen_DeviceID : result bytes;
  gen_SigningKey : result bytes;
  gen_KeyAgreementKey : result bytes;
  gen_now : Z;
  gen_GOOS : string;
}.

Definition generateState (displayName platform : string) (g : Generated) : result persistedState :=
  match gen_DeviceID g with
  | Err e => Err (ErrorWrap "generate device ID" e)
  | Ok deviceID =>
      match gen_SigningKey g with
      | Err e => Err (ErrorWrap "generate signing key" e)
      | Ok signingPrivateKey =>
          match gen_KeyAgreementKey g with
          | Err e => Err (ErrorWrap "generate key-agreement key" e)
          | Ok keyAgreementPrivateKey =>
              let displayName := TrimSpace displayName in
              let platform := TrimSpace platform in
              Ok {| St_Version := currentStateVersion;
                    St_DeviceID := deviceID;
                    St_SigningPrivateKey := signingPrivateKey;
                    St_KeyAgreementPrivateKey := keyAgreementPrivateKey;
                    St_DisplayName := if bool_decide (displayName = EmptyString)
                                      then "VibeBridge Agent"%string else displayName;
                    St_Platform := if bool_decide (platform = EmptyString)
                                   then gen_GOOS g else platform;
                    St_DeviceClass := DEVICE_CLASS_AGENT;
                    St_CreatedAt := gen_now g;
                    St_KeyVersion := CurrentKeyVersion;
                    St_AuthorizationCounter := 0;
                    St_RevocationEpoch := 0;
                    St_Authorized := [] |}
          end
      end
  end.

Definition loadOrCreateState (fs : Files) (sysRead : option error) (sys : Syscalls)
    (p displayName platform : string) (g : Generated) : Files * result persistedState :=
  match loadState fs sysRead p with
  | Ok st => (fs, Ok st)
  | Err e =>
      if errors_is e os_ErrNotExist then
        match generateState displayName platform g with
        | Err e => (fs, Err e)
        | Ok st =>
            match validateState st with
            | Err e => (fs, Err (ErrorWrap "validate new device identity" e))
            | Ok _ =>
                match saveState fs sys p st with
                | (fs, Err e) => (fs, Err (ErrorWrap "persist new device identity" e))
                | (fs, Ok _) => (fs, Ok st)
                end
            end
        end
      else (fs, Err (ErrorWrap "load device identity" e))
  end.

(** The outcomes of the creation lock ([creation_lock_other.go]). *)
Record LockCalls := mkLockCalls {
  lock_mkdir : result unit;
  lock_open : result unit;
  lock_flock : result unit;
  lock_unlock : result unit;
  lock_close : result unit;
}.

Definition acquireCreationLock (fs : Files) (lc : LockCalls) (p : string) : Files * result unit :=
  match lock_mkdir lc with
  | Err e => (fs, Err (ErrorWrap "create identity directory" e))
  | Ok _ =>
      match lock_open lc with
      | Err e => (fs, Err (ErrorWrap "open identity creation lock" e))
      | Ok _ =>
          let lock := (p ++ ".lock")%string in
          (<[lock := default [] (fs !! lock)]> fs,
           match lock_flock lc with
           | Err e => Err (ErrorWrap "acquire identity creation lock" e)
           | Ok _ => Ok tt
           end)
      end
  end.

Definition releaseCreationLock (lc : LockCalls) : result unit :=
  match lock_unlock lc, lock_close lc with
  | Err e, _ => Err (ErrorWrap "release identity creation lock" e)
  | Ok _, Err e => Err (ErrorWrap "close identity creation lock" e)
  | Ok _, Ok _ => Ok tt
  end.

Definition LoadOrCreate (fs : Files) (sysRead : option error) (sys : Syscalls) (lc : LockCalls)
    (p displayName platform : string) (g : Generated) : Files * result Store :=
  if negb (IsAbs p) then (fs, Err (ErrorString "device identity path must be absolute"))
  else match acquireCreationLock fs lc p with
  | (fs, Err e) => (fs, Err e)
  | (fs, Ok _) =>
      let '(fs, st) := loadOrCreateState fs sysRead sys p displayName platform g in
      (fs, match st, releaseCreationLock lc with
           | Err e, _ => Err e
           | Ok _, Err e => Err e
           | Ok st, Ok _ => Ok (mkStore p st false)
           end)
  end.

(** ** The authorization graph *)

Definition authorizationView (record : persistedAuthorization) : result AuthorizedDevice :=
  match signed_Unmarshal (Rec_Device record) with
  | Err e => Err e
  | Ok signed =>
      Ok {| View_Device := signed;
            View_AuthorizationVersion := Rec_AuthorizationVersion record;
            View_State := Rec_State record;
            View_AuthorizedAt := timestamp_New (Rec_AuthorizedAt record);
            View_RevokedAt := timestamp_New <$> Rec_RevokedAt record;
            View_RevocationEpoch := Rec_RevocationEpoch record |}
  end.

Fixpoint collectViews (includeRevoked : bool) (records : list persistedAuthorization)
    : result (list AuthorizedDevice) :=
  match records with
  | [] => Ok []
  | record :: records' =>
      if negb includeRevoked && (Rec_State record =? STATE_REVOKED) then
        collectViews includeRevoked records'
      else match authorizationView record with
      | Err _ => Err (ErrorString "decode authorized device")
      | Ok view => views ← collectViews includeRevoked records'; Ok (view :: views)
      end
  end.

Definition AuthorizedDevices (store : Store) (includeRevoked : bool) : result (list AuthorizedDevice) :=
  collectViews includeRevoked (St_Authorized (state store)).

Fixpoint findView (deviceID : bytes) (records : list persistedAuthorization) : result AuthorizedDevice :=
  match records with
  | [] => Err ErrDeviceNotFound
  | record :: records' =>
      match authorizationView record with
      | Err _ => Err (ErrorString "decode authorized device")
      | Ok view =>
          match Signed_Descriptor (View_Device view) with
          | None => Err nilPointer
          | Some d => if bool_decide (Desc_DeviceId d = deviceID) then Ok view
                      else findView deviceID records'
          end
      end
  end.

Definition AuthorizedDevice_lookup (store : Store) (deviceID : bytes) : result AuthorizedDevice :=
  findView deviceID (St_Authorized (state store)).

(** What the scan of the records for one device ID finds: no record, the record
    to replace, or the result to return at once. *)
Inductive Scan :=
  | ScanNone
  | ScanAt (index : nat)
  | ScanReturn (r : result AuthorizedDevice).

Fixpoint authorizeScan (signed : SignedDeviceDescriptor) (d : DeviceDescriptor) (index : nat)
    (records : list persistedAuthorization) : Scan :=
  match records with
  | [] => ScanNone
  | record :: records' =>
      match authorizationView record with
      | Err _ => ScanReturn (Err (ErrorString "decode existing authorized device"))
      | Ok existing =>
          match Signed_Descriptor (View_Device existing) with
          | None => ScanReturn (Err nilPointer)
          | Some ed =>
              if negb (bool_decide (Desc_DeviceId ed = Desc_DeviceId d)) then
                authorizeScan signed d (S index) records'
              else if negb (bool_decide (Desc_SigningPublicKey ed = Desc_SigningPublicKey d)) then
                ScanReturn (Err (ErrorString "device ID is already bound to a different signing key"))
              else if (View_State existing =? STATE_AUTHORIZED) &&
                      bool_decide (View_Device existing = signed) then
                ScanReturn (Ok existing)
              else if Desc_KeyVersion d <? Desc_KeyVersion ed then
                ScanReturn (Err (ErrorString "device descriptor key version cannot move backwards"))
              else ScanAt index
          end
      end
  end.

(** The common end of [Authorize] and [Revoke]: validate, save, view, and only
    then replace the state in memory. *)
Definition commitState (fs : Files) (store : Store) (sys : Syscalls) (next : persistedState)
    (index : nat) (validateMessage saveMessage viewMessage : string)
    : Files * Store * result AuthorizedDevice :=
  match validateState next with
  | Err e => (fs, store, Err (ErrorWrap validateMessage e))
  | Ok _ =>
      match saveState fs sys (path store) next with
      | (fs, Err e) => (fs, store, Err (ErrorWrap saveMessage e))
      | (fs, Ok _) =>
          match St_Authorized next !! index with
          | None => (fs, store, Err (ErrorString "runtime error: index out of range"))
          | Some record =>
              match authorizationView record with
              | Err _ => (fs, store, Err (ErrorString viewMessage))
              | Ok view => (fs, store <| state := next |>, Ok view)
              end
          end
      end
  end.

(** The update of [Authorize]: a new record, appended or in place of the one at
    [index]. *)
Definition putAuthorization (fs : Files) (store : Store) (now : Z) (sys : Syscalls)
    (encoded : bytes) (index : option nat) : Files * Store * result AuthorizedDevice :=
  let next := (state store) <| St_AuthorizationCounter ::= fun n => u64 (n + 1) |> in
  if St_AuthorizationCounter next =? 0 then
    (fs, store, Err (ErrorString "authorization version is exhausted"))
  else
    let record := {| Rec_Device := encoded;
                     Rec_AuthorizationVersion := St_AuthorizationCounter next;
                     Rec_State := STATE_AUTHORIZED;
                     Rec_AuthorizedAt := now;
                     Rec_RevokedAt := None;
                     Rec_RevocationEpoch := 0 |} in
    let '(authorized, index) :=
      match index with
      | None => (St_Authorized next ++ [record], length (St_Authorized next))
      | Some i => (<[i := record]> (St_Authorized next), i)
      end in
    commitState fs store sys (next <| St_Authorized := authorized |>) index
      "validate authorization update" "persist authorization update"
      "decode persisted authorization".

Definition Authorize (fs : Files) (store : Store) (now : Z) (sys : Syscalls)
    (signed : option SignedDeviceDescriptor) : Files * Store * result AuthorizedDevice :=
  match VerifySignedDescriptor signed, signed with
  | Err e, _ => (fs, store, Err e)
  | Ok _, Some (mkSignedDeviceDescriptor (Some d) signature) =>
      let signed := mkSignedDeviceDescriptor (Some d) signature in
      if negb (Desc_DeviceClass d =? DEVICE_CLASS_CLIENT) then
        (fs, store, Err (ErrorString "only client devices can be authorized"))
      else match signed_Marshal signed with
      | Err e => (fs, store, Err (ErrorWrap "encode authorized device" e))
      | Ok encoded =>
          if len encoded >? maxSignedDescriptorBytes then
            (fs, store, Err (ErrorString "signed device descriptor is too large"))
          else if bool_decide (Desc_DeviceId d = St_DeviceID (state store)) then
            (fs, store, Err (ErrorString "Agent cannot authorize its own device ID"))
          else
            match authorizeScan signed d 0 (St_Authorized (state store)) with
            | ScanReturn r => (fs, store, r)
            | ScanNone =>
                if len (St_Authorized (state store)) >=? maxAuthorizedDevices then
                  (fs, store, Err (ErrorString "cannot authorize more than 256 devices"))
                else putAuthorization fs store now sys encoded None
            | ScanAt index => putAuthorization fs store now sys encoded (Some index)
            end
      end
  | Ok _, _ => (fs, store, Err nilPointer)
  end.

Fixpoint revokeScan (deviceID : bytes) (index : nat) (records : list persistedAuthorization) : Scan :=
  match records with
  | [] => ScanNone
  | record :: records' =>
      match authorizationView record with
      | Err _ => ScanReturn (Err (ErrorString "decode existing authorized device"))
      | Ok view =>
          match Signed_Descriptor (View_Device view) with
          | None => ScanReturn (Err nilPointer)
          | Some d =>
              if bool_decide (Desc_DeviceId d = deviceID) then
                if View_State view =? STATE_REVOKED then ScanReturn (Ok view) else ScanAt index
              else revokeScan deviceID (S index) records'
          end
      end
  end.

Definition Revoke (fs : Files) (store : Store) (now : Z) (sys : Syscalls) (deviceID : bytes)
    : Files * Store * result AuthorizedDevice :=
  if negb (len deviceID =? DeviceIDBytes) then
    (fs, store, Err (ErrorString "device ID must be 16 bytes"))
  else
    let next := state store in
    match revokeScan deviceID 0 (St_Authorized next) with
    | ScanReturn r => (fs, store, r)
    | ScanNone => (fs, store, Err ErrDeviceNotFound)
    | ScanAt index =>
        if (St_AuthorizationCounter next =? 2 ^ 64 - 1) || (St_RevocationEpoch next =? 2 ^ 64 - 1) then
          (fs, store, Err (ErrorString "authorization revocation counters are exhausted"))
        else
          let next := next <| St_AuthorizationCounter ::= fun n => u64 (n + 1) |>
                           <| St_RevocationEpoch ::= fun n => u64 (n + 1) |> in
          let revoked record :=
            record <| Rec_AuthorizationVersion := St_AuthorizationCounter next |>
                   <| Rec_State := STATE_REVOKED |>
                   <| Rec_RevokedAt := Some now |>
                   <| Rec_RevocationEpoch := St_RevocationEpoch next |> in
          commitState fs store sys (next <| St_Authorized ::= alter revoked index |>) index
            "validate revocation update" "persist revocation update" "decode persisted revocation"
    end.

Definition RevocationEpoch (store : Store) : Z := St_RevocationEpoch (state store).
Definition DeviceID (store : Store) : bytes := St_DeviceID (state store).
Definition Descriptor (store : Store) : result SignedDeviceDescriptor :=
  signedDescriptorLocked (state store).
Definition Sign (store : Store) (message : bytes) : bytes :=
  key_Sign (St_SigningPrivateKey (state store)) message.
Definition KeyAgreementPrivateKey (store : Store) : result bytes :=
  if negb (x25519_PrivateKey (St_KeyAgreementPrivateKey (state store))) then
    Err (ErrorString "load Agent key-agreement key")
  else Ok (St_KeyAgreementPrivateKey (state store)).

Definition zeroBytes (value : bytes) : bytes := replicate (length value) "000"%byte.

Definition zeroState (st : persistedState) : persistedState :=
  st <| St_DeviceID ::= zeroBytes |>
     <| St_SigningPrivateKey ::= zeroBytes |>
     <| St_KeyAgreementPrivateKey ::= zeroBytes |>
     <| St_Authorized ::= fmap (fun r => r <| Rec_Device ::= zeroBytes |>) |>.

Definition Close (store : Store) : Store := store <| state ::= zeroState |>.
End DeviceIdentity.

Arguments ValidateDescriptor : simpl never.
Arguments VerifySignedDescriptor : simpl never.
Arguments validateMetadata : simpl never.
Arguments validateState : simpl never.
Arguments saveState : simpl never.
Arguments loadState : simpl never.
