(* ===== verification/DeviceIdentityFacts.v ===== *)
(** * Device identity: what authorization and revocation guarantee

    The records of a valid state form a graph, a map from device IDs to records.
    [Authorize] and [Revoke] refine updates of that map; the graph only grows, on
    disk as in memory, across failed writes and restarts; an acknowledged update
    is durable. *)

From S2P Require Import Prelude.
From S2P Require Import SecureStore.
From S2P Require Import Ticket.
From S2P Require Import DeviceIdentity.

(** What the protobuf codec promises: a message that is encoded is decoded back,
    and a message with a descriptor is not empty. *)
Class IdentityLaws {crypto : IdentityCrypto} := {
  signed_roundtrip s b : signed_Marshal s = Ok b → signed_Unmarshal b = Ok s;
  signed_nonempty s b : Signed_Descriptor s ≠ None → signed_Marshal s = Ok b → b ≠ [];
}.

Section Graph.
Context {crypto : IdentityCrypto}.
Implicit Types (r : persistedAuthorization) (rs : list persistedAuthorization).

(** ** The graph of a state *)

(** The descriptor a record holds. *)
Definition descriptor_of r : option DeviceDescriptor :=
  match signed_Unmarshal (Rec_Device r) with Ok s => Signed_Descriptor s | Err _ => None end.

Definition device_of r : bytes := default [] (Desc_DeviceId <$> descriptor_of r).
Definition devices_of rs : gmap bytes persistedAuthorization :=
  list_to_map (zip (device_of <$> rs) rs).
Definition devices (st : persistedState) : gmap bytes persistedAuthorization :=
  devices_of (St_Authorized st).

(** A record that passes the loop of [validateState]. *)
Record RecordOk (counter epoch : Z) (r : persistedAuthorization) : Prop := {
  ro_size : (len (Rec_Device r) =? 0) || (len (Rec_Device r) >? maxSignedDescriptorBytes) = false;
  ro_device : ∃ s d, signed_Unmarshal (Rec_Device r) = Ok s ∧ Signed_Descriptor s = Some d ∧
    VerifySignedDescriptor (Some s) = Ok tt ∧ Desc_DeviceClass d = DEVICE_CLASS_CLIENT;
  ro_metadata : validateMetadata counter epoch r = Ok tt;
}.

(** The identity, without the graph. *)
Definition identity (st : persistedState) : persistedState :=
  st <| St_AuthorizationCounter := 0 |> <| St_RevocationEpoch := 0 |> <| St_Authorized := [] |>.

(** ** [validateState], declaratively *)

Lemma metadata_version counter epoch r :
  validateMetadata counter epoch r = Ok tt →
  Rec_AuthorizationVersion r ≠ 0 ∧ Rec_AuthorizationVersion r <= counter ∧
  Rec_AuthorizedAt r ≠ zeroTime.
Proof. unfold validateMetadata. intros. go_cases; lia. Qed.

Lemma validateRecords_sound counter epoch seen h rs h' :
  validateRecords counter epoch seen h rs = Ok h' →
  Forall (RecordOk counter epoch) rs ∧ NoDup (device_of <$> rs) ∧
  (∀ r, r ∈ rs → string_of_bytes (device_of r) ∉ seen).
Proof.
  revert seen h. induction rs as [|r rs IH]; intros seen h HV; simpl in *.
  - split_and!; [constructor|constructor|]. set_solver.
  - destruct (_ || _) eqn:Hsize; [done|].
    destruct (signed_Unmarshal _) as [s|] eqn:Hs; [|done].
    destruct (VerifySignedDescriptor _) as [[]|] eqn:Hv; [|done].
    destruct (Signed_Descriptor s) as [d|] eqn:Hd; [|done].
    destruct (negb _) eqn:Hc; [done|]. destruct (bool_decide _) eqn:Hseen; [done|].
    destruct (validateMetadata _ _ _) as [[]|] eqn:Hm; [|done]. split_bool.
    assert (device_of r = Desc_DeviceId d) as Hdev.
    { unfold device_of, descriptor_of. by rewrite Hs, Hd. }
    apply IH in HV as (Hall & Hnd & Hns). rewrite <- Hdev in *. split_and!.
    + constructor; [|done]. split; [by apply orb_false_iff| |done]. exists s, d. split_and!; try done. lia.
    + constructor; [|done]. intros (r' & He & Hr')%list_elem_of_fmap.
      apply (Hns r' Hr'). rewrite <- He. set_solver.
    + intros r' [->|Hr']%elem_of_cons; [done|]. intros Hin. apply (Hns r' Hr'). set_solver.
Qed.

Lemma validateRecords_complete counter epoch seen h rs :
  Forall (RecordOk counter epoch) rs → NoDup (device_of <$> rs) →
  (∀ r, r ∈ rs → string_of_bytes (device_of r) ∉ seen) → h <= counter →
  ∃ h', validateRecords counter epoch seen h rs = Ok h' ∧ h' <= counter.
Proof.
  revert seen h. induction rs as [|r rs IH]; intros seen h Hall Hnd Hns Hh; simpl; [by eexists|].
  apply Forall_cons in Hall as [[Hsize (s & d & Hs & Hd & Hv & Hc) Hm] Hall].
  apply NoDup_cons in Hnd as [Hni Hnd].
  assert (device_of r = Desc_DeviceId d) as Hdev.
  { unfold device_of, descriptor_of. by rewrite Hs, Hd. }
  rewrite Hsize, Hs, Hv, Hd, Hc, <- Hdev, bool_decide_false by (apply Hns; set_solver).
  simpl. rewrite Hm. apply IH; [done|done| |].
  - intros r' Hr' [Heq|Hin]%elem_of_union.
    + apply elem_of_singleton, string_of_bytes_inj in Heq. apply Hni. rewrite <- Heq.
      by apply list_elem_of_fmap_2.
    + revert Hin. apply Hns. set_solver.
  - apply metadata_version in Hm. case_match; lia.
Qed.

(** The validity of a state: its identity is valid on its own, there are at most
    256 records, each in order, for distinct devices. *)
Record ValidState (st : persistedState) : Prop := {
  vs_identity : validateState (identity st) = Ok tt;
  vs_count : len (St_Authorized st) <= maxAuthorizedDevices;
  vs_records : Forall (RecordOk (St_AuthorizationCounter st) (St_RevocationEpoch st)) (St_Authorized st);
  vs_nodup : NoDup (device_of <$> St_Authorized st);
  vs_counter : is_u64 (St_AuthorizationCounter st);
  vs_epoch : is_u64 (St_RevocationEpoch st);
}.

Lemma validateState_split st :
  validateState st = Ok tt ↔
  validateState (identity st) = Ok tt ∧ len (St_Authorized st) <= maxAuthorizedDevices ∧
  ∃ h, validateRecords (St_AuthorizationCounter st) (St_RevocationEpoch st) ∅ 0 (St_Authorized st) = Ok h ∧
    h <= St_AuthorizationCounter st.
Proof.
  unfold validateState. change (signedDescriptorLocked (identity st)) with (signedDescriptorLocked st).
  simpl. destruct (signedDescriptorLocked st); repeat case_match; simpl;
    (split; [intros; first [done | split_and!; [done|lia|]; eexists; split; [done|lia]]
            |intros (? & ? & ? & ? & ?); first [done | exfalso; simplify_eq; lia]]).
Qed.

Lemma validateState_iff st :
  is_u64 (St_AuthorizationCounter st) → is_u64 (St_RevocationEpoch st) →
  validateState st = Ok tt ↔ ValidState st.
Proof.
  intros Hc He. rewrite validateState_split. split.
  - intros (Hi & Hn & h & (Hall & Hnd & _)%validateRecords_sound & _). by split.
  - intros [Hi Hn Hall Hnd _ _]. split_and!; [done|done|].
    apply validateRecords_complete; [done|done|set_solver|]. unfold is_u64 in Hc. lia.
Qed.

(** ** Records as a map *)

Lemma devices_of_cons r rs : devices_of (r :: rs) = <[device_of r := r]> (devices_of rs).
Proof. done. Qed.

Lemma devices_of_elem rs id r : devices_of rs !! id = Some r → r ∈ rs ∧ device_of r = id.
Proof.
  induction rs as [|r' rs IH]; [done|]. rewrite devices_of_cons, lookup_insert_Some.
  intros [[<- ->]|[_ ?%IH]]; set_solver.
Qed.

Lemma devices_of_None rs id : id ∉ device_of <$> rs → devices_of rs !! id = None.
Proof.
  intros Hn. destruct (devices_of rs !! id) eqn:He; [|done].
  apply devices_of_elem in He as [? <-]. destruct Hn. by apply list_elem_of_fmap_2.
Qed.

Lemma devices_of_lookup rs i r :
  NoDup (device_of <$> rs) → rs !! i = Some r → devices_of rs !! device_of r = Some r.
Proof.
  revert i; induction rs as [|r' rs IH]; intros [|i] Hnd Hi; simplify_eq/=; [by rewrite devices_of_cons, lookup_insert_eq|].
  apply NoDup_cons in Hnd as [Hn Hnd]. rewrite devices_of_cons, lookup_insert_ne; [by eapply IH|].
  intros He. apply Hn. rewrite He. apply list_elem_of_fmap_2. by eapply list_elem_of_lookup_2.
Qed.

Lemma device_of_insert rs i r r' :
  rs !! i = Some r → device_of r' = device_of r →
  device_of <$> (<[i := r']> rs) = device_of <$> rs.
Proof.
  intros Hi He. rewrite list_fmap_insert, He. apply list_insert_id.
  by rewrite list_lookup_fmap, Hi.
Qed.

Lemma devices_of_insert rs i r r' :
  NoDup (device_of <$> rs) → rs !! i = Some r → device_of r' = device_of r →
  devices_of (<[i := r']> rs) = <[device_of r := r']> (devices_of rs).
Proof.
  revert i; induction rs as [|r0 rs IH]; intros [|i] Hnd Hi He; simplify_eq/=;
    apply NoDup_cons in Hnd as [Hn Hnd].
  - rewrite !devices_of_cons, He. by rewrite insert_insert_eq.
  - rewrite !devices_of_cons, (IH i) by done. apply insert_insert_ne.
    intros Heq. apply Hn. rewrite Heq. apply list_elem_of_fmap_2. by eapply list_elem_of_lookup_2.
Qed.

Lemma devices_of_snoc rs r :
  device_of r ∉ device_of <$> rs → devices_of (rs ++ [r]) = <[device_of r := r]> (devices_of rs).
Proof.
  induction rs as [|r0 rs IH]; intros Hn; [done|]. simpl in *.
  rewrite !devices_of_cons, IH by set_solver. apply insert_insert_ne. set_solver.
Qed.

(** ** The scans of the records look the device up in the map *)

Lemma record_view counter epoch r :
  RecordOk counter epoch r → ∃ s d, signed_Unmarshal (Rec_Device r) = Ok s ∧
    Signed_Descriptor s = Some d ∧ device_of r = Desc_DeviceId d ∧ descriptor_of r = Some d.
Proof.
  intros [_ (s & d & Hs & Hd & _) _]. exists s, d. unfold device_of, descriptor_of.
  by rewrite Hs, Hd.
Qed.

Lemma authorizeScan_devices counter epoch signed d k rs :
  Forall (RecordOk counter epoch) rs → NoDup (device_of <$> rs) →
  Desc_DeviceId d ∉ device_of <$> rs ∧ authorizeScan signed d k rs = ScanNone ∨
  ∃ i r, rs !! i = Some r ∧ device_of r = Desc_DeviceId d ∧
    authorizeScan signed d k rs = authorizeScan signed d (k + i) [r].
Proof.
  revert k; induction rs as [|r rs IH]; intros k Hall Hnd; [left; set_solver|].
  apply Forall_cons in Hall as [Hr Hall]. apply NoDup_cons in Hnd as [Hn Hnd].
  destruct (record_view _ _ _ Hr) as (s & ed & Hs & Hed & Hdev & _).
  destruct (decide (Desc_DeviceId ed = Desc_DeviceId d)) as [He|He].
  - right. exists O, r. split_and!; [done|congruence|]. simpl.
    unfold authorizationView. rewrite Hs. simpl. by rewrite Hed, bool_decide_true, Nat.add_0_r.
  - destruct (IH (S k) Hall Hnd) as [[Hni Hscan]|(i & r' & Hi & Hr' & Hscan)]; [left|right].
    + split; [rewrite fmap_cons, not_elem_of_cons; split; [congruence|done]|]. simpl. unfold authorizationView. rewrite Hs. simpl.
      by rewrite Hed, bool_decide_false.
    + exists (S i), r'. split_and!; [done|done|].
      replace (k + S i)%nat with (S k + i)%nat by lia. rewrite <- Hscan. simpl.
      unfold authorizationView at 1. rewrite Hs. simpl. by rewrite Hed, bool_decide_false.
Qed.

Lemma revokeScan_devices counter epoch id k rs :
  Forall (RecordOk counter epoch) rs → NoDup (device_of <$> rs) →
  id ∉ device_of <$> rs ∧ revokeScan id k rs = ScanNone ∨
  ∃ i r, rs !! i = Some r ∧ device_of r = id ∧
    revokeScan id k rs = if Rec_State r =? STATE_REVOKED then ScanReturn (authorizationView r)
                         else ScanAt (k + i).
Proof.
  revert k; induction rs as [|r rs IH]; intros k Hall Hnd; [left; set_solver|].
  apply Forall_cons in Hall as [Hr Hall]. apply NoDup_cons in Hnd as [Hn Hnd].
  destruct (record_view _ _ _ Hr) as (s & ed & Hs & Hed & Hdev & _).
  destruct (decide (Desc_DeviceId ed = id)) as [He|He].
  - right. exists O, r. split_and!; [done|congruence|]. simpl.
    unfold authorizationView. rewrite Hs. simpl. by rewrite Hed, bool_decide_true, Nat.add_0_r.
  - destruct (IH (S k) Hall Hnd) as [[Hni Hscan]|(i & r' & Hi & Hr' & Hscan)]; [left|right].
    + split; [rewrite fmap_cons, not_elem_of_cons; split; [congruence|done]|]. simpl. unfold authorizationView. rewrite Hs. simpl.
      by rewrite Hed, bool_decide_false.
    + exists (S i), r'. split_and!; [done|done|].
      replace (k + S i)%nat with (S k + i)%nat by lia. rewrite <- Hscan. simpl.
      unfold authorizationView at 1. rewrite Hs. simpl. by rewrite Hed, bool_decide_false.
Qed.

(** ** Updates keep a state valid *)

Lemma metadata_mono c e c' e' r :
  validateMetadata c e r = Ok tt → c <= c' → e <= e' → validateMetadata c' e' r = Ok tt.
Proof. unfold validateMetadata. intros Hm Hc He. repeat case_match; try done; lia. Qed.

Lemma RecordOk_mono c e c' e' r :
  RecordOk c e r → c <= c' → e <= e' → RecordOk c' e' r.
Proof. intros [Hs Hd Hm] ? ?. split; [done..|]. by eapply metadata_mono. Qed.

(** [next] differs from [st] in the graph, and its counters have not gone back. *)
Record Advances (st next : persistedState) : Prop := {
  ad_identity : identity next = identity st;
  ad_counter : St_AuthorizationCounter st <= St_AuthorizationCounter next < 2 ^ 64;
  ad_epoch : St_RevocationEpoch st <= St_RevocationEpoch next < 2 ^ 64;
}.

Lemma records_advance st next :
  ValidState st → Advances st next →
  Forall (RecordOk (St_AuthorizationCounter next) (St_RevocationEpoch next)) (St_Authorized st).
Proof.
  intros [_ _ Hall _ _ _] [_ Hc He]. eapply Forall_impl; [done|].
  intros r Hr. eapply RecordOk_mono; [done|lia|lia].
Qed.

Lemma valid_insert st next i r r' :
  ValidState st → Advances st next →
  St_Authorized next = <[i := r']> (St_Authorized st) →
  St_Authorized st !! i = Some r → device_of r' = device_of r →
  RecordOk (St_AuthorizationCounter next) (St_RevocationEpoch next) r' →
  ValidState next ∧ devices next = <[device_of r := r']> (devices st) ∧
  St_Authorized next !! i = Some r'.
Proof.
  intros Hv Ha Hnext Hi Hdev Hr'. pose proof (records_advance _ _ Hv Ha).
  destruct Hv as [Hid Hn _ Hnd [] []], Ha as [Hid' Hc He]. unfold devices. rewrite Hnext.
  split_and!.
  - split; rewrite ?Hnext; [by rewrite Hid'| | | | |].
    + unfold len in *. by rewrite length_insert.
    + by apply Forall_insert.
    + by erewrite device_of_insert.
    + split; lia.
    + split; lia.
  - by apply devices_of_insert.
  - apply list_lookup_insert_eq. by eapply lookup_lt_Some.
Qed.

Lemma valid_snoc st next r' :
  ValidState st → Advances st next →
  St_Authorized next = St_Authorized st ++ [r'] →
  len (St_Authorized st) < maxAuthorizedDevices → device_of r' ∉ device_of <$> St_Authorized st →
  RecordOk (St_AuthorizationCounter next) (St_RevocationEpoch next) r' →
  ValidState next ∧ devices next = <[device_of r' := r']> (devices st) ∧
  St_Authorized next !! length (St_Authorized st) = Some r'.
Proof.
  intros Hv Ha Hnext Hlen Hdev Hr'. pose proof (records_advance _ _ Hv Ha).
  destruct Hv as [Hid Hn _ Hnd [] []], Ha as [Hid' Hc He]. unfold devices. rewrite Hnext.
  split_and!.
  - split; rewrite ?Hnext; [by rewrite Hid'| | | | |].
    + autorewrite with len. lia.
    + apply Forall_app; auto.
    + rewrite fmap_app. apply NoDup_app. split_and!; [done|set_solver|apply NoDup_singleton].
    + split; lia.
    + split; lia.
  - by apply devices_of_snoc.
  - by apply list_lookup_middle.
Qed.

Context `{!JsonCodec envelope} `{!JsonCodec persistedState}.

(** Under a valid update, [commitState] is the save and nothing else. *)
Lemma commitState_valid fs store sys next i r m1 m2 m3 :
  ValidState next → St_Authorized next !! i = Some r →
  ∃ view, authorizationView r = Ok view ∧
    commitState fs store sys next i m1 m2 m3 =
    match saveState fs sys (path store) next with
    | (fs', Err e) => (fs', store, Err (ErrorWrap m2 e))
    | (fs', Ok _) => (fs', store <| state := next |>, Ok view)
    end.
Proof.
  intros Hv Hi. pose proof Hv as [_ _ Hall _ _ _].
  destruct (record_view _ _ _ (Forall_lookup_1 _ _ _ _ Hall Hi)) as (s & d & Hs & _).
  unfold commitState. destruct Hv as [H1 H2 H3 H4 Hc He].
  rewrite (proj2 (validateState_iff next Hc He)) by done. rewrite Hi.
  unfold authorizationView at 1 2. rewrite Hs. eexists; split; [done|].
  destruct (saveState _ _ _ _) as [fs' [[]|]]; done.
Qed.

(** ** [Authorize] and [Revoke] on the graph *)

Definition signed_of r : option SignedDeviceDescriptor :=
  match signed_Unmarshal (Rec_Device r) with Ok s => Some s | Err _ => None end.

(** The record [Authorize] writes. *)
Definition authorizedRecord (encoded : bytes) (version now : Z) : persistedAuthorization :=
  {| Rec_Device := encoded; Rec_AuthorizationVersion := version; Rec_State := STATE_AUTHORIZED;
     Rec_AuthorizedAt := now; Rec_RevokedAt := None; Rec_RevocationEpoch := 0 |}.

(** The record [Revoke] makes of [r]. *)
Definition revokedRecord (version epoch now : Z) (r : persistedAuthorization) : persistedAuthorization :=
  r <| Rec_AuthorizationVersion := version |> <| Rec_State := STATE_REVOKED |>
    <| Rec_RevokedAt := Some now |> <| Rec_RevocationEpoch := epoch |>.

(** What the graph says about a request. *)
Inductive Verdict := Refuse | Keep (r : persistedAuthorization) | Put.

Definition exhausted (counter : Z) : bool := counter =? 2 ^ 64 - 1.

Definition authorizeVerdict (st : persistedState) (signed : SignedDeviceDescriptor)
    (d : DeviceDescriptor) : Verdict :=
  if bool_decide (Desc_DeviceId d = St_DeviceID st) then Refuse
  else match devices st !! Desc_DeviceId d with
  | None => if (maxAuthorizedDevices <=? len (St_Authorized st)) || exhausted (St_AuthorizationCounter st)
            then Refuse else Put
  | Some r =>
      match descriptor_of r with
      | None => Refuse
      | Some ed =>
          if negb (bool_decide (Desc_SigningPublicKey ed = Desc_SigningPublicKey d)) then Refuse
          else if (Rec_State r =? STATE_AUTHORIZED) && bool_decide (signed_of r = Some signed) then Keep r
          else if (Desc_KeyVersion d <? Desc_KeyVersion ed) || exhausted (St_AuthorizationCounter st)
          then Refuse else Put
      end
  end.

Definition revokeVerdict (st : persistedState) (id : bytes) : Verdict :=
  match devices st !! id with
  | None => Refuse
  | Some r =>
      if Rec_State r =? STATE_REVOKED then Keep r
      else if exhausted (St_AuthorizationCounter st) || exhausted (St_RevocationEpoch st)
      then Refuse else Put
  end.

(** A request that passes the checks made before the graph is consulted. *)
Definition Presentable (signed : SignedDeviceDescriptor) (d : DeviceDescriptor) (encoded : bytes) : Prop :=
  Signed_Descriptor signed = Some d ∧ VerifySignedDescriptor (Some signed) = Ok tt ∧
  Desc_DeviceClass d = DEVICE_CLASS_CLIENT ∧ signed_Marshal signed = Ok encoded ∧
  len encoded <= maxSignedDescriptorBytes.

(** The state after an accepted request: [r] is the device's record. *)
Record Updated (st next : persistedState) (id : bytes) (r : persistedAuthorization) : Prop := {
  up_advances : Advances st next;
  up_valid : ValidState next;
  up_devices : devices next = <[id := r]> (devices st);
  up_counter : St_AuthorizationCounter next = St_AuthorizationCounter st + 1;
}.

(** The result of saving [next] and, when that succeeds, installing it. *)
Definition saved (fs : Files) (store : Store) (sys : Syscalls) (next : persistedState)
    (view : AuthorizedDevice) (message : string) : Files * Store * result AuthorizedDevice :=
  match saveState fs sys (path store) next with
  | (fs', Err e) => (fs', store, Err (ErrorWrap message e))
  | (fs', Ok _) => (fs', store <| state := next |>, Ok view)
  end.

Lemma commitState_updated fs store sys next i r id m1 m2 m3 :
  Advances (state store) next →
  St_AuthorizationCounter next = St_AuthorizationCounter (state store) + 1 →
  ValidState next ∧ devices next = <[id := r]> (devices (state store)) ∧
    St_Authorized next !! i = Some r →
  ∃ view, Updated (state store) next id r ∧ authorizationView r = Ok view ∧
    commitState fs store sys next i m1 m2 m3 = saved fs store sys next view m2.
Proof.
  intros Ha Hc (Hv & Hd & Hl).
  destruct (commitState_valid fs store sys next i r m1 m2 m3 Hv Hl) as (view & Hview & Hcommit).
  exists view. by split_and!.
Qed.

Lemma u64_succ n : is_u64 n → exhausted n = false → u64 (n + 1) = n + 1 ∧ n + 1 < 2 ^ 64 ∧ n + 1 ≠ 0.
Proof. unfold is_u64, exhausted. intros. split; [apply u64_small; unfold is_u64|]; lia. Qed.

Context {laws : IdentityLaws}.

Lemma authorizedRecord_ok signed d encoded c e version now :
  Presentable signed d encoded → now ≠ zeroTime → version ≠ 0 → version <= c →
  RecordOk c e (authorizedRecord encoded version now) ∧
  device_of (authorizedRecord encoded version now) = Desc_DeviceId d.
Proof.
  intros (Hd & Hv & Hc & Hm & Hlen) Hnow Hver Hle. pose proof (signed_roundtrip _ _ Hm) as Hrt.
  split.
  - split; simpl.
    + destruct (len encoded =? 0) eqn:Hz; [|simpl; lia].
      apply len_zero in Hz. destruct (signed_nonempty _ _ ltac:(by rewrite Hd) Hm Hz).
    + by exists signed, d.
    + unfold validateMetadata. simpl. destruct (_ || _) eqn:?; [lia|done].
  - unfold device_of, descriptor_of. simpl. by rewrite Hrt, Hd.
Qed.

Lemma putAuthorization_exhausted fs store now sys encoded index :
  exhausted (St_AuthorizationCounter (state store)) = true →
  putAuthorization fs store now sys encoded index =
    (fs, store, Err (ErrorString "authorization version is exhausted")).
Proof.
  intros Hex%Z.eqb_eq. unfold putAuthorization. simpl. rewrite Hex. done.
Qed.

(** The update of [Authorize], for a new device or one that has a record. *)
Lemma putAuthorization_valid fs store now sys signed d encoded index :
  ValidState (state store) → now ≠ zeroTime → Presentable signed d encoded →
  exhausted (St_AuthorizationCounter (state store)) = false →
  match index with
  | None => len (St_Authorized (state store)) < maxAuthorizedDevices ∧
            Desc_DeviceId d ∉ device_of <$> St_Authorized (state store)
  | Some i => ∃ r, St_Authorized (state store) !! i = Some r ∧ device_of r = Desc_DeviceId d
  end →
  ∃ next view, let r := authorizedRecord encoded (St_AuthorizationCounter (state store) + 1) now in
    Updated (state store) next (Desc_DeviceId d) r ∧
    St_RevocationEpoch next = St_RevocationEpoch (state store) ∧
    authorizationView r = Ok view ∧
    putAuthorization fs store now sys encoded index =
      saved fs store sys next view "persist authorization update".
Proof.
  intros Hvalid Hnow Hp Hex Hindex. pose proof Hvalid as [_ _ _ _ Hcu Heu].
  destruct (u64_succ _ Hcu Hex) as (Hsucc & Hlt & Hne).
  destruct (authorizedRecord_ok _ _ _ (St_AuthorizationCounter (state store) + 1)
    (St_RevocationEpoch (state store)) _ now Hp Hnow Hne ltac:(lia)) as [Hrec Hdev].
  unfold putAuthorization, is_u64 in *. simpl. rewrite Hsucc.
  replace (_ + 1 =? 0) with false by lia.
  set (r := authorizedRecord encoded (St_AuthorizationCounter (state store) + 1) now) in *.
  destruct index as [i|].
  - destruct Hindex as (r0 & Hi & Hr0). rewrite <- Hdev in Hr0. match goal with
    |- context [commitState _ _ _ ?x ?j ?a ?b ?c] => set (next := x);
      destruct (commitState_updated fs store sys next j r (Desc_DeviceId d) a b c)
        as (view & ? & ? & ?); [split; simpl; [done|lia|lia]|done| |by exists next, view] end.
    rewrite <- Hdev, <- Hr0. apply valid_insert; try done. split; simpl; [done|lia|lia].
  - destruct Hindex as (Hfull & Hni). rewrite <- Hdev in Hni. match goal with
    |- context [commitState _ _ _ ?x ?j ?a ?b ?c] => set (next := x);
      destruct (commitState_updated fs store sys next j r (Desc_DeviceId d) a b c)
        as (view & ? & ? & ?); [split; simpl; [done|lia|lia]|done| |by exists next, view] end.
    rewrite <- Hdev. apply valid_snoc; try done. split; simpl; [done|lia|lia].
Qed.

(** [Authorize] of a presentable descriptor does what the graph says. *)
Lemma Authorize_verdict fs store now sys signed d encoded :
  ValidState (state store) → now ≠ zeroTime → Presentable signed d encoded →
  match authorizeVerdict (state store) signed d with
  | Refuse => ∃ e, Authorize fs store now sys (Some signed) = (fs, store, Err e)
  | Keep r => ∃ view, authorizationView r = Ok view ∧
      Authorize fs store now sys (Some signed) = (fs, store, Ok view)
  | Put => ∃ next view, let r := authorizedRecord encoded (St_AuthorizationCounter (state store) + 1) now in
      Updated (state store) next (Desc_DeviceId d) r ∧
      St_RevocationEpoch next = St_RevocationEpoch (state store) ∧
      authorizationView r = Ok view ∧
      Authorize fs store now sys (Some signed) =
        saved fs store sys next view "persist authorization update"
  end.
Proof.
  intros Hvalid Hnow Hp. pose proof Hp as (Hd & Hv & Hc & Hm & Hlen).
  pose proof Hvalid as [_ _ Hall Hnd Hcu Heu].
  pose proof (fun i => putAuthorization_valid fs store now sys _ _ _ i Hvalid Hnow Hp) as Hput.
  unfold Authorize. rewrite Hv. destruct signed as [d' signature]. simpl in Hd. simplify_eq.
  rewrite (proj2 (Z.eqb_eq _ _) Hc), Hm. simpl negb. cbv iota.
  replace (len encoded >? maxSignedDescriptorBytes) with false by lia.
  unfold authorizeVerdict. destruct (bool_decide (Desc_DeviceId d = _)); [by eexists|].
  destruct (authorizeScan_devices _ _ (mkSignedDeviceDescriptor (Some d) signature) d 0 _ Hall Hnd)
    as [[Hni Hscan]|(i & r & Hi & Hr & Hscan)]; rewrite Hscan; unfold devices.
  - rewrite devices_of_None by done.
    replace (len (St_Authorized (state store)) >=? maxAuthorizedDevices)
      with (maxAuthorizedDevices <=? len (St_Authorized (state store))) by lia.
    destruct (maxAuthorizedDevices <=? _) eqn:Hfull; [by eexists|]. simpl orb.
    destruct (exhausted _) eqn:Hex; [|apply Hput; [done|split; [lia|done]]].
    by eexists; apply putAuthorization_exhausted.
  - pose proof (devices_of_lookup _ _ _ Hnd Hi) as Hl. rewrite Hr in Hl. rewrite Hl.
    destruct (record_view _ _ _ (Forall_lookup_1 _ _ _ _ Hall Hi)) as (s & ed & Hs & Hed & Hdev & Hdesc).
    rewrite Hdesc. simpl. unfold signed_of, authorizationView. rewrite Hs. simpl.
    rewrite Hed, (bool_decide_true (Desc_DeviceId ed = Desc_DeviceId d)) by congruence. simpl.
    destruct (negb _); [by eexists|].
    rewrite (bool_decide_ext (Some s = _) (s = mkSignedDeviceDescriptor (Some d) signature))
      by naive_solver.
    destruct (_ && _); [by rewrite Hs; eexists|].
    destruct (_ <? _); [by eexists|]. simpl orb.
    destruct (exhausted _) eqn:Hex; [by eexists; apply putAuthorization_exhausted|].
    apply Hput; [done|]. by exists r.
Qed.

(** Anything else is refused, and nothing changes. *)
Lemma Authorize_presentable fs store now sys signed :
  (∃ s d encoded, signed = Some s ∧ Presentable s d encoded) ∨
  ∃ e, Authorize fs store now sys signed = (fs, store, Err e).
Proof.
  unfold Authorize. destruct (VerifySignedDescriptor signed) as [[]|] eqn:Hv; [|right; by eexists].
  destruct signed as [[[d|] signature]|]; [|right; by eexists..].
  destruct (negb _) eqn:Hc; [right; by eexists|].
  destruct (signed_Marshal _) as [encoded|] eqn:Hm; [|right; by eexists].
  destruct (_ >? _) eqn:Hlen; [right; by eexists|].
  left. exists (mkSignedDeviceDescriptor (Some d) signature), d, encoded.
  split; [done|]. unfold Presentable. split_and!; try done; lia.
Qed.

(** A successful [Authorize] leaves the record of this very descriptor. *)
Lemma Authorize_Ok fs store now sys s fs' store' view :
  ValidState (state store) → now ≠ zeroTime →
  Authorize fs store now sys (Some s) = (fs', store', Ok view) →
  ∃ d r, Signed_Descriptor s = Some d ∧ devices (state store') !! Desc_DeviceId d = Some r ∧
    Rec_State r = STATE_AUTHORIZED ∧ signed_of r = Some s ∧
    Rec_AuthorizationVersion r = View_AuthorizationVersion view.
Proof.
  intros Hv Hnow HA.
  destruct (Authorize_presentable fs store now sys (Some s)) as [(s' & d & encoded & [= <-] & Hp)|[e He]];
    [|by rewrite He in HA].
  pose proof (Authorize_verdict fs store now sys s d encoded Hv Hnow Hp) as HV.
  pose proof Hp as (Hd & _ & _ & Hm & _). exists d.
  destruct (authorizeVerdict (state store) s d) as [|r0|] eqn:Hverdict.
  - destruct HV as [e He]. by rewrite He in HA.
  - destruct HV as (view' & Hview & He). rewrite He in HA. simplify_eq. exists r0.
    unfold authorizeVerdict in Hverdict. repeat case_match; simplify_eq; split_bool.
    unfold authorizationView in Hview. case_match; simplify_eq. split_and!; try done. lia.
  - destruct HV as (next & view' & [_ _ Hdevs _] & _ & Hview & He). rewrite He in HA.
    unfold saved in HA. repeat case_match; simplify_eq/=. eexists. rewrite Hdevs, lookup_insert_eq.
    split_and!; [done|done|done| |].
    + unfold signed_of. simpl. by rewrite (signed_roundtrip _ _ Hm).
    + unfold authorizationView in Hview. simpl in *. case_match; by simplify_eq/=.
Qed.

Lemma alter_insert {A} (f : A → A) (l : list A) i x :
  l !! i = Some x → alter f i l = <[i := f x]> l.
Proof. revert i; induction l as [|y l IH]; intros [|i] Hi; simplify_eq/=; [done|]. f_equal. by apply IH. Qed.

Lemma revokedRecord_ok r c e version epoch epoch' now :
  RecordOk c e r → c <= version → version ≠ 0 → epoch ≠ 0 → epoch <= epoch' → now ≠ zeroTime →
  RecordOk version epoch' (revokedRecord version epoch now r) ∧
  device_of (revokedRecord version epoch now r) = device_of r.
Proof.
  intros [Hs Hd Hm] Hle Hv He Hle' Hnow. split; [|done]. split; [done..|].
  destruct (metadata_version _ _ _ Hm) as (_ & _ & ?). unfold validateMetadata. simpl.
  destruct ((version =? 0) || _ || _) eqn:?; [lia|].
  destruct ((now =? _) || _ || _) eqn:?; [lia|done].
Qed.

Lemma Revoke_verdict fs store now sys id :
  ValidState (state store) → now ≠ zeroTime → len id = DeviceIDBytes →
  match revokeVerdict (state store) id with
  | Refuse => ∃ e, Revoke fs store now sys id = (fs, store, Err e)
  | Keep r => ∃ view, authorizationView r = Ok view ∧
      Revoke fs store now sys id = (fs, store, Ok view)
  | Put => ∃ r0 next view,
      let r := revokedRecord (St_AuthorizationCounter (state store) + 1)
                 (St_RevocationEpoch (state store) + 1) now r0 in
      devices (state store) !! id = Some r0 ∧
      Updated (state store) next id r ∧
      St_RevocationEpoch next = St_RevocationEpoch (state store) + 1 ∧
      authorizationView r = Ok view ∧
      Revoke fs store now sys id = saved fs store sys next view "persist revocation update"
  end.
Proof.
  intros Hvalid Hnow Hid. pose proof Hvalid as [_ _ Hall Hnd Hcu Heu].
  unfold Revoke, revokeVerdict, devices. rewrite (proj2 (Z.eqb_eq _ _) Hid). simpl negb. cbv iota.
  destruct (revokeScan_devices _ _ id 0 _ Hall Hnd) as [[Hni ->]|(i & r & Hi & Hr & ->)].
  { rewrite devices_of_None by done. by eexists. }
  pose proof (devices_of_lookup _ _ _ Hnd Hi) as Hl. rewrite Hr in Hl. rewrite Hl.
  pose proof (Forall_lookup_1 _ _ _ _ Hall Hi) as Hok.
  destruct (record_view _ _ _ Hok) as (s & ed & Hs & _).
  destruct (_ =? STATE_REVOKED).
  { unfold authorizationView. rewrite Hs. by eexists. }
  fold (exhausted (St_AuthorizationCounter (state store))) (exhausted (St_RevocationEpoch (state store))).
  destruct (exhausted (St_AuthorizationCounter _)) eqn:Hx; [by eexists|].
  destruct (exhausted (St_RevocationEpoch _)) eqn:Hx'; [by eexists|]. simpl.
  destruct (u64_succ _ Hcu Hx) as (-> & ? & ?), (u64_succ _ Heu Hx') as (-> & ? & ?).
  unfold is_u64 in *.
  match goal with |- context [commitState _ _ _ ?x ?j ?a ?b ?c] => set (next := x);
    destruct (commitState_updated fs store sys next j (revokedRecord (St_AuthorizationCounter (state store) + 1)
      (St_RevocationEpoch (state store) + 1) now r) id a b c) as (view & ? & ? & ?);
    [split; simpl; [done|lia|lia]|done| |by exists r, next, view] end.
  destruct (revokedRecord_ok r _ _ (St_AuthorizationCounter (state store) + 1)
    (St_RevocationEpoch (state store) + 1) (St_RevocationEpoch (state store) + 1) now Hok) as [? Hdev];
    try lia; try done.
  rewrite <- Hr. apply valid_insert; try done.
  - split; simpl; [done|lia|lia].
  - by apply alter_insert.
Qed.

(** After a revocation that succeeds the device is revoked. *)
Lemma Revoke_Ok fs store now sys id fs' store' view :
  ValidState (state store) → now ≠ zeroTime → Revoke fs store now sys id = (fs', store', Ok view) →
  ValidState (state store') ∧ ∃ r, devices (state store') !! id = Some r ∧ Rec_State r = STATE_REVOKED.
Proof.
  intros Hv Hnow HR.
  assert (len id = DeviceIDBytes) as Hid.
  { unfold Revoke in HR. destruct (negb _) eqn:Hn; [done|lia]. }
  pose proof (Revoke_verdict fs store now sys id Hv Hnow Hid) as HV. unfold revokeVerdict in HV.
  destruct (devices (state store) !! id) as [r|] eqn:Hr; [|destruct HV as [e HV]; by rewrite HV in HR].
  destruct (Rec_State r =? STATE_REVOKED) eqn:Hst.
  { destruct HV as (view' & _ & HV). rewrite HV in HR. simplify_eq. split; [done|]. exists r. split; [done|lia]. }
  destruct (_ || _); [destruct HV as [e HV]; by rewrite HV in HR|].
  destruct HV as (r0 & next & view' & _ & Hup & _ & _ & HV). rewrite HV in HR.
  unfold saved in HR. destruct (saveState fs sys (path store) next) as [fs1 [[]|e]]; simplify_eq. simpl.
  split; [by apply Hup|]. rewrite (up_devices _ _ _ _ Hup), lookup_insert_eq. by eexists.
Qed.

(** ** The graph only grows *)

(** [st'] is a later state of the same identity: the counters have not gone back,
    every device is still there under the same signing key, at the same or a later
    key version, and what has changed carries a version above the old counter, and
    an epoch above the old one if it is a revocation. *)
Record Grows (st st' : persistedState) : Prop := {
  gr_identity : identity st' = identity st;
  gr_counter : St_AuthorizationCounter st <= St_AuthorizationCounter st';
  gr_epoch : St_RevocationEpoch st <= St_RevocationEpoch st';
  gr_keeps id r d : devices st !! id = Some r → descriptor_of r = Some d →
    ∃ r' d', devices st' !! id = Some r' ∧ descriptor_of r' = Some d' ∧
      Desc_SigningPublicKey d' = Desc_SigningPublicKey d ∧
      Desc_KeyVersion d <= Desc_KeyVersion d';
  gr_changes id r' : devices st' !! id = Some r' → devices st !! id = Some r' ∨
    St_AuthorizationCounter st < Rec_AuthorizationVersion r' ∧
    (Rec_State r' = STATE_REVOKED → St_RevocationEpoch st < Rec_RevocationEpoch r');
}.

#[global] Instance Grows_preorder : PreOrder Grows.
Proof.
  split.
  - intros st. split; [done|lia|lia| |by left]. intros id r d Hr Hd. exists r, d. by split_and!.
  - intros st1 st2 st3 [I1 C1 E1 K1 R1] [I2 C2 E2 K2 R2]. split; [congruence|lia|lia| |].
    + intros id r d Hr Hd. destruct (K1 _ _ _ Hr Hd) as (r2 & d2 & Hr2 & Hd2 & ? & ?).
      destruct (K2 _ _ _ Hr2 Hd2) as (r3 & d3 & ? & ? & ? & ?). exists r3, d3.
      split_and!; [done|done|congruence|lia].
    + intros id r [Hr|[Hv He]]%R2; [by apply R1|]. right. split; [lia|]. intros ?%He. lia.
Qed.

Lemma Updated_grows st next id r d :
  Updated st next id r → Rec_AuthorizationVersion r = St_AuthorizationCounter st + 1 →
  (Rec_State r = STATE_REVOKED → St_RevocationEpoch st < Rec_RevocationEpoch r) →
  descriptor_of r = Some d →
  (∀ r0 d0, devices st !! id = Some r0 → descriptor_of r0 = Some d0 →
    Desc_SigningPublicKey d = Desc_SigningPublicKey d0 ∧ Desc_KeyVersion d0 <= Desc_KeyVersion d) →
  Grows st next.
Proof.
  intros [[Hi Hc He] _ Hdevs _] Hver Hrev Hd Hold. split; [done|lia|lia| |].
  - intros id' r0 d0 Hr0 Hd0. rewrite Hdevs. destruct (decide (id = id')) as [<-|Hne].
    + exists r, d. rewrite lookup_insert_eq. destruct (Hold _ _ Hr0 Hd0). by split_and!.
    + exists r0, d0. rewrite lookup_insert_ne by done. by split_and!.
  - intros id' r'. rewrite Hdevs, lookup_insert_Some. intros [[<- <-]|[_ ?]]; [right|by left].
    split; [lia|done].
Qed.

(** ** The file *)

(** [encoding/json] reads back the valid states it has written. *)
Context `{!JsonLaws envelope written}.
Context `{!JsonLaws persistedState (fun st => validateState st = Ok tt)}.

Lemma loadState_ext fs fs' sysRead p :
  fs' !! p = fs !! p → loadState fs' sysRead p = loadState fs sysRead p.
Proof. intros He. unfold loadState, Read. by rewrite He. Qed.

(** A save either fails and leaves the file, or the file holds the new state. *)
Lemma saveState_outcomes fs sys p next fs' (r : result unit) :
  FreshTemp fs sys p → validateState next = Ok tt → saveState fs sys p next = (fs', r) →
  fs' !! p = fs !! p ∧ is_ok r = false ∨ loadState fs' None p = Ok next.
Proof.
  unfold saveState. intros Hf Hv Hs. destruct (json_Marshal next) as [b|] eqn:Hm; [|left; by simplify_eq].
  destruct (Write_atomic _ _ _ _ _ _ _ Hf Hs) as [?|Hread]; [by left|right].
  unfold loadState. rewrite Hread.
  rewrite (json_roundtrip (P := fun st => validateState st = Ok tt) _ _ Hv Hm),
    (json_single (P := fun st => validateState st = Ok tt) _ _ Hv Hm). by rewrite Hv.
Qed.

(** A store in step with its file: the file holds the store's state, or a later
    one that a failed save has published. *)
Record Synced (fs : Files) (store : Store) : Prop := {
  sy_valid : ValidState (state store);
  sy_file : ∃ st, loadState fs None (path store) = Ok st ∧ ValidState st ∧ Grows (state store) st;
}.

(** What an update does to a store in step with its file. *)
Record Step (fs fs' : Files) (store store' : Store) (acknowledged : bool) : Prop := {
  sp_synced : Synced fs' store';
  sp_grows : Grows (state store) (state store');
  sp_store : path store' = path store ∧ readOnly store' = readOnly store;
  sp_durable : acknowledged = true → state store' = state store ∨
    loadState fs' None (path store') = Ok (state store');
}.

Lemma unchanged_step fs store a : Synced fs store → Step fs fs store store a.
Proof. intros Hs. split; [done|done|done|by left]. Qed.

Lemma saved_step fs store sys next view m fs' store' (r : result AuthorizedDevice) :
  Synced fs store → FreshTemp fs sys (path store) → ValidState next → Grows (state store) next →
  saved fs store sys next view m = (fs', store', r) → Step fs fs' store store' (is_ok r).
Proof.
  intros [Hv (st & Hl & Hst & Hg)] Hf Hnext Hgrow Hs. unfold saved in Hs.
  destruct (saveState fs sys (path store) next) as [fs1 r1] eqn:Hsave.
  pose proof Hnext as [_ _ _ _ Hc He]. pose proof (proj2 (validateState_iff _ Hc He) Hnext) as Hok.
  destruct (saveState_outcomes _ _ _ _ _ _ Hf Hok Hsave) as [[Hfile Herr]|Hfile].
  - destruct r1; [done|]. simplify_eq. split; [|done|done|by left].
    split; [done|]. exists st. by rewrite (loadState_ext fs).
  - destruct r1 as [[]|]; simplify_eq; split; simpl; try done; try (by right); split; simpl; try done;
      exists next; by split_and!.
Qed.

Lemma Authorize_step fs store now sys signed fs' store' (r : result AuthorizedDevice) :
  Synced fs store → FreshTemp fs sys (path store) → now ≠ zeroTime →
  Authorize fs store now sys signed = (fs', store', r) → Step fs fs' store store' (is_ok r).
Proof.
  intros Hsync Hf Hnow HA.
  destruct (Authorize_presentable fs store now sys signed) as [(s & d & encoded & -> & Hp)|[e He]];
    [|rewrite He in HA; simplify_eq; by apply unchanged_step].
  pose proof (Authorize_verdict fs store now sys s d encoded (sy_valid _ _ Hsync) Hnow Hp) as HV.
  destruct (authorizeVerdict (state store) s d) as [|r0|] eqn:Hverdict.
  - destruct HV as [e He]. rewrite He in HA. simplify_eq. by apply unchanged_step.
  - destruct HV as (view & _ & He). rewrite He in HA. simplify_eq. by apply unchanged_step.
  - destruct HV as (next & view & Hup & _ & _ & He). rewrite He in HA.
    eapply saved_step; [done|done|apply Hup| |done].
    destruct Hp as (Hd & _ & _ & Hm & _).
    eapply (Updated_grows _ _ _ _ d Hup); [done|done| |].
    + unfold descriptor_of. simpl. by rewrite (signed_roundtrip _ _ Hm).
    + intros r0 d0 Hr0 Hd0. unfold authorizeVerdict in Hverdict. rewrite Hr0, Hd0 in Hverdict.
      repeat case_match; try done; split_bool; split; [congruence|lia].
Qed.

Lemma Revoke_step fs store now sys id fs' store' (r : result AuthorizedDevice) :
  Synced fs store → FreshTemp fs sys (path store) → now ≠ zeroTime →
  Revoke fs store now sys id = (fs', store', r) → Step fs fs' store store' (is_ok r).
Proof.
  intros Hsync Hf Hnow HA. destruct (decide (len id = DeviceIDBytes)) as [Hid|Hid].
  2:{ unfold Revoke in HA. destruct (negb _) eqn:Hn; [|lia]. simplify_eq. by apply unchanged_step. }
  pose proof (Revoke_verdict fs store now sys id (sy_valid _ _ Hsync) Hnow Hid) as HV.
  destruct (revokeVerdict (state store) id).
  - destruct HV as [e He]. rewrite He in HA. simplify_eq. by apply unchanged_step.
  - destruct HV as (view & _ & He). rewrite He in HA. simplify_eq. by apply unchanged_step.
  - destruct HV as (r0 & next & view & Hr0 & Hup & _ & _ & He). rewrite He in HA.
    eapply saved_step; [done|done|apply Hup| |done].
    pose proof (sy_valid _ _ Hsync) as [_ _ Hall _ _ _].
    apply devices_of_elem in Hr0 as Hin. destruct Hin as [Hin _].
    destruct (record_view _ _ _ (proj1 (Forall_forall _ _) Hall _ Hin)) as (s & d & _ & _ & _ & Hd).
    eapply (Updated_grows _ _ _ _ d Hup); [done|simpl; lia|done|].
    intros r1 d1 Hr1 Hd1. simplify_eq. split; [done|lia].
Qed.

Lemma lock_path p : (p ++ ".lock")%string ≠ p.
Proof.
  induction p as [|c p IH]; [done|]. intros He. injection He. exact IH.
Qed.

(** A restart: the identity is opened again, by [LoadOrCreate] or by [Load]. *)
Definition Reopened (fs : Files) (store : Store) (fs' : Files) (store' : Store) : Prop :=
  ∃ sysRead, (∀ e, sysRead = Some e → errors_is e os_ErrNotExist = false) ∧
  (fs' = fs ∧ Load fs sysRead (path store) = Ok store' ∨
   ∃ sys lc displayName platform g,
     LoadOrCreate fs sysRead sys lc (path store) displayName platform g = (fs', Ok store')).

Lemma loadState_error fs e p :
  errors_is e os_ErrNotExist = false → is_ok (loadState fs (Some e) p) = false ∧
  ∀ e', loadState fs (Some e) p = Err e' → errors_is e' os_ErrNotExist = false.
Proof.
  intros He. unfold loadState, Read, validateArguments.
  destruct (negb (IsAbs p)) eqn:Ha; [split; [done|intros; by simplify_eq]|].
  repeat case_match; simplify_eq; split; try done; intros; by simplify_eq.
Qed.

(** Opening an identity that is there. *)
Lemma LoadOrCreate_existing fs sysRead sys lc p dn pl g st fs' res :
  loadState fs None p = Ok st → (∀ e, sysRead = Some e → errors_is e os_ErrNotExist = false) →
  LoadOrCreate fs sysRead sys lc p dn pl g = (fs', res) →
  fs' !! p = fs !! p ∧ ∀ store, res = Ok store → store = mkStore p st false.
Proof.
  intros Hl Hsys HL. unfold LoadOrCreate in HL. destruct (negb _); [by simplify_eq|].
  destruct (acquireCreationLock fs lc p) as [fs1 r1] eqn:Hlock.
  assert (fs1 !! p = fs !! p) as Hsame.
  { unfold acquireCreationLock in Hlock. repeat case_match; simplify_eq; try done;
      by rewrite lookup_insert_ne by apply lock_path. }
  destruct r1 as [[]|]; [|by simplify_eq]. unfold loadOrCreateState in HL. destruct sysRead as [e|].
  - destruct (loadState_error fs1 e p (Hsys e eq_refl)) as [Herr Hne].
    destruct (loadState _ (Some _) _) as [|e'] eqn:Hload; [done|].
    rewrite (Hne e' eq_refl) in HL. by simplify_eq.
  - rewrite (loadState_ext fs), Hl in HL by done. simplify_eq. split; [done|]. intros store Hs. by repeat case_match; simplify_eq.
Qed.

Lemma Reopened_step fs store fs' store' :
  Synced fs store → Reopened fs store fs' store' →
  Synced fs' store' ∧ path store' = path store ∧
  loadState fs None (path store) = Ok (state store').
Proof.
  intros [Hv (st & Hl & Hst & Hg)] (sysRead & Hsys & [[-> HL]|(sys & lc & dn & pl & g & HL)]).
  - unfold Load in HL. destruct (negb _); [done|].
    destruct sysRead as [e|]; [destruct (loadState_error fs e (path store) (Hsys e eq_refl)) as [Herr _];
      by destruct (loadState _ (Some _) _)|].
    rewrite Hl in HL. simplify_eq. split_and!; [|done|done]. split; [done|]. by exists st.
  - destruct (LoadOrCreate_existing _ _ _ _ _ _ _ _ _ _ _ Hl Hsys HL) as [Hsame Hstore].
    rewrite (Hstore store' eq_refl). split_and!; [|done|done]. split; [done|]. exists st. simpl.
    by rewrite (loadState_ext fs).
Qed.

(** ** Properties *)


(** One event in the life of an identity: an authorization or a revocation with
    any outcome of its system calls, or a restart. *)
Inductive identity_step : Files * Store → Files * Store → Prop :=
  | step_authorize fs store now sys signed fs' store' res :
      FreshTemp fs sys (path store) → now ≠ zeroTime →
      Authorize fs store now sys signed = (fs', store', res) →
      identity_step (fs, store) (fs', store')
  | step_revoke fs store now sys id fs' store' res :
      FreshTemp fs sys (path store) → now ≠ zeroTime →
      Revoke fs store now sys id = (fs', store', res) →
      identity_step (fs, store) (fs', store')
  | step_reopen fs store fs' store' :
      Reopened fs store fs' store' → identity_step (fs, store) (fs', store').

Lemma identity_step_grows fs store fs' store' :
  identity_step (fs, store) (fs', store') → Synced fs store →
  Synced fs' store' ∧ Grows (state store) (state store').
Proof.
  intros Hstep Hs. inversion Hstep; subst.
  - destruct (Authorize_step _ _ _ _ _ _ _ _ Hs ltac:(done) ltac:(done) ltac:(done)). by split.
  - destruct (Revoke_step _ _ _ _ _ _ _ _ Hs ltac:(done) ltac:(done) ltac:(done)). by split.
  - destruct (Reopened_step _ _ _ _ Hs ltac:(done)) as (Hs' & _ & Hl). split; [done|].
    destruct Hs as [_ (st & Hst & _ & Hg)]. rewrite Hl in Hst. by simplify_eq.
Qed.

(** Whatever happens to an identity (authorizations and revocations, writes
    that fail before or after they are published, restarts), its state stays valid
    and its graph only grows: no device is forgotten or bound to another signing
    key, key versions do not move back, and every change carries a fresh version,
    every revocation a fresh epoch. *)
Theorem authorizations_only_grow fs store fs' store' :
  Synced fs store → rtc identity_step (fs, store) (fs', store') →
  Synced fs' store' ∧ Grows (state store) (state store').
Proof.
  intros Hs Hrun. remember (fs, store) as x eqn:Hx. remember (fs', store') as y eqn:Hy.
  revert fs store Hx Hs. induction Hrun as [x|x [fs1 store1] z Hstep Hrun IH]; intros fs store -> Hs.
  - simplify_eq. by split.
  - destruct (identity_step_grows _ _ _ _ Hstep Hs) as [Hs1 Hg1].
    destruct (IH Hy _ _ eq_refl Hs1) as [Hs2 Hg2]. split; [done|]. by etrans.
Qed.

Lemma Synced_Load fs store :
  Synced fs store → ∃ st, Load fs None (path store) = Ok (mkStore (path store) st true) ∧
    loadState fs None (path store) = Ok st ∧ Grows (state store) st.
Proof.
  intros [_ (st & Hl & _ & Hg)]. exists st. split_and!; [|done|done]. unfold Load. rewrite Hl.
  destruct (IsAbs (path store)) eqn:Ha; [done|].
  unfold loadState, Read, validateArguments in Hl. by rewrite Ha in Hl.
Qed.

Lemma Step_durable fs fs' store store' :
  Step fs fs' store store' true → ∃ reopened, Load fs' None (path store) = Ok reopened ∧
    Grows (state store') (state reopened) ∧
    (state store' ≠ state store → state reopened = state store').
Proof.
  intros [Hs _ [Hp _] Hd]. destruct (Synced_Load _ _ Hs) as (st & HL & Hl & Hg).
  rewrite Hp in HL. eexists. split_and!; [done|done|]. intros Hne.
  destruct (Hd eq_refl) as [?|Hd']; [done|]. simpl. congruence.
Qed.

(** C37: an acknowledged authorization or revocation is on disk: whoever opens the
    file afterwards sees the new state, or, when nothing had to change, the state
    the store reports or a later one. *)
Theorem acknowledged_updates_are_durable fs store now sys :
  Synced fs store → FreshTemp fs sys (path store) → now ≠ zeroTime →
  (∀ signed fs' store' view, Authorize fs store now sys signed = (fs', store', Ok view) →
    ∃ reopened, Load fs' None (path store) = Ok reopened ∧
      Grows (state store') (state reopened) ∧
      (state store' ≠ state store → state reopened = state store')) ∧
  (∀ id fs' store' view, Revoke fs store now sys id = (fs', store', Ok view) →
    ∃ reopened, Load fs' None (path store) = Ok reopened ∧
      Grows (state store') (state reopened) ∧
      (state store' ≠ state store → state reopened = state store')).
Proof.
  intros Hs Hf Hnow. split; intros x fs' store' view HA; apply (Step_durable fs).
  - by eapply (Authorize_step _ _ _ _ _ _ _ (Ok view)).
  - by eapply (Revoke_step _ _ _ _ _ _ _ (Ok view)).
Qed.

(** Revoking a device that was authorized closes the relay's gate to every
    ticket stamped before: a gate that reads the store's epoch refuses all epochs
    up to the old one and admits tickets stamped with the new one.  A gate that
    loaded the file before the revocation still admits tickets stamped with the
    old epoch, and before the first revocation it refuses every ticket, stamped
    with the current epoch or not. *)
Theorem revocation_closes_gate fs store now sys id r fs' store' view :
  Synced fs store → now ≠ zeroTime → devices (state store) !! id = Some r →
  Rec_State r ≠ STATE_REVOKED → Revoke fs store now sys id = (fs', store', Ok view) →
  let gate s := StoreAuthorizer (Some (RevocationEpoch s)) in
  (∀ device epoch, epoch <= RevocationEpoch store → is_ok (gate store' device epoch) = false) ∧
  (∀ device, is_ok (gate store' device (RevocationEpoch store')) = true) ∧
  (∀ device, is_ok (gate store device (RevocationEpoch store)) = negb (RevocationEpoch store =? 0)).
Proof.
  intros Hs Hnow Hr Hst HA. pose proof (sy_valid _ _ Hs) as [_ _ _ _ _ [He0 _]].
  assert (len id = DeviceIDBytes) as Hid.
  { unfold Revoke in HA. destruct (negb _) eqn:Hn; [done|lia]. }
  pose proof (Revoke_verdict fs store now sys id (sy_valid _ _ Hs) Hnow Hid) as HV.
  unfold revokeVerdict in HV. rewrite Hr in HV. rewrite (proj2 (Z.eqb_neq _ _) Hst) in HV.
  destruct (_ || _); [destruct HV as [e HV]; by rewrite HV in HA|].
  destruct HV as (r0 & next & view' & _ & _ & Hepoch & _ & HV). rewrite HV in HA.
  unfold saved in HA. repeat case_match; simplify_eq/=. unfold RevocationEpoch, StoreAuthorizer. simpl.
  rewrite Hepoch. split_and!; intros; repeat case_match; try done; simpl; lia.
Qed.
End Graph.

(** A store opened read-only by [Load] authorizes and revokes like any other:
    the [readOnly] flag is never consulted. *)
Theorem read_only_is_not_enforced `{IdentityCrypto} `{!JsonCodec envelope} `{!JsonCodec persistedState}
    fs store now sys signed id :
  let opened := store <| readOnly := true |> in
  let '(fs1, store1, r1) := Authorize fs store now sys signed in
  let '(fs2, store2, r2) := Revoke fs store now sys id in
  Authorize fs opened now sys signed = (fs1, store1 <| readOnly := true |>, r1) ∧
  Revoke fs opened now sys id = (fs2, store2 <| readOnly := true |>, r2).
Proof.
  destruct (Authorize fs store now sys signed) as [[fs1 store1] r1] eqn:HA.
  destruct (Revoke fs store now sys id) as [[fs2 store2] r2] eqn:HR. split.
  - unfold Authorize, putAuthorization, commitState in *. simpl in *.
    repeat case_match; simplify_eq/=; done.
  - unfold Revoke, commitState in *. simpl in *. repeat case_match; simplify_eq/=; done.
Qed.
