(* ===== verification/DeviceIdentityExamples.v ===== *)
(** * Device identity: an executed identity

    A toy cryptography and table codecs that satisfy the laws; an identity that
    authorizes a phone, revokes it and is opened again; the theorems applied to
    it. *)

From S2P Require Import Prelude.
From S2P Require Import SecureStore.
From S2P Require Import Envelope.
From S2P Require Import Ticket.
From S2P Require Import DeviceIdentity.
From S2P Require Import DeviceIdentityFacts.

#[global] Instance persistedAuthorization_eq_dec : EqDecision persistedAuthorization.
Proof. solve_decision. Defined.
#[global] Instance persistedState_eq_dec : EqDecision persistedState.
Proof. solve_decision. Defined.

(** A codec given by a table of values and their encodings. *)
Definition table_encode {A} `{EqDecision A} (t : list (A * bytes)) (v : A) : result bytes :=
  match List.find (fun x => bool_decide (x.1 = v)) t with
  | Some x => Ok x.2 | None => Err (ErrorString "not encodable") end.
Definition table_decode {A} (t : list (A * bytes)) (b : bytes) : result A :=
  match List.find (fun x => bool_decide (x.2 = b)) t with
  | Some x => Ok x.1 | None => Err (ErrorString "not decodable") end.

(** Distinct encodings are decoded to what was encoded. *)
Lemma table_roundtrip {A} `{EqDecision A} (t : list (A * bytes)) v b :
  NoDup t.*2 → table_encode t v = Ok b → table_decode t b = Ok v ∧ b ∈ t.*2.
Proof.
  unfold table_encode, table_decode. intros Hnd He.
  destruct (List.find _ t) as [[v' b']|] eqn:Hf; simplify_eq/=.
  apply List.find_some in Hf as [Hin Hv]. apply bool_decide_eq_true in Hv. simpl in Hv. subst v'.
  induction t as [|[v1 b1] t IH]; [done|]. apply NoDup_cons in Hnd as [Hn Hnd]. simpl.
  destruct Hin as [Heq|Hin]; [simplify_eq; rewrite bool_decide_true by done; split; [done|set_solver]|].
  destruct (IH Hnd Hin) as [HD Hb]. rewrite bool_decide_false; [split; [done|set_solver]|].
  intros ->. done.
Qed.

Definition fill (n : nat) (b : byte) : bytes := replicate n b.

Definition version10 := Some (mkProtocolVersionRange (Some (mkProtocolVersion 1 0)) (Some (mkProtocolVersion 1 0))).

Definition phoneDescriptor (keyVersion : Z) : DeviceDescriptor :=
  mkDeviceDescriptor (fill 16 "002") "Phone" "ios" DEVICE_CLASS_CLIENT (fill 32 "003") (fill 32 "004")
    (Some (mkTimestamp 1700000000 0)) keyVersion version10.

Definition phone (keyVersion : Z) : SignedDeviceDescriptor :=
  mkSignedDeviceDescriptor (Some (phoneDescriptor keyVersion)) (fill 64 "005").

(** Another phone. *)
Definition tablet : SignedDeviceDescriptor :=
  mkSignedDeviceDescriptor (Some (mkDeviceDescriptor (fill 16 "009") "Tablet" "ios" DEVICE_CLASS_CLIENT (fill 32 "003")
    (fill 32 "004") (Some (mkTimestamp 1700000000 0)) 1 version10)) (fill 64 "005").

Definition phones : list (SignedDeviceDescriptor * bytes) :=
  [(phone 1, ["011"%byte]); (phone 2, ["012"%byte]); (tablet, ["013"%byte])].

#[local] Instance toyCrypto : IdentityCrypto := {
  key_FromSeed seed := seed ++ seed;
  key_Public key := take 32 key;
  key_Sign _ _ := fill 64 "006";
  key_Verify _ _ _ := true;
  x25519_PrivateKey key := len key =? 32;
  x25519_PublicKey key := len key =? 32;
  x25519_Public key := key;
  descriptor_Marshal _ := Ok [];
  signed_Marshal := table_encode phones;
  signed_Unmarshal := table_decode phones;
}.

#[local] Instance toyLaws : IdentityLaws.
Proof.
  assert (NoDup phones.*2 ∧ [] ∉ phones.*2) as [Hnd Hne] by (apply (bool_decide_unpack _); vm_compute; exact I).
  split.
  - intros s b He. by apply (table_roundtrip phones).
  - intros s b _ He ->. destruct (table_roundtrip phones s [] Hnd He) as [_ Hin].
    by apply Hne.
Qed.

Definition state0 : persistedState :=
  {| St_Version := 1; St_DeviceID := fill 16 "001"; St_SigningPrivateKey := fill 64 "007";
     St_KeyAgreementPrivateKey := fill 32 "008"; St_DisplayName := "Agent"; St_Platform := "linux";
     St_DeviceClass := DEVICE_CLASS_AGENT; St_CreatedAt := 1700000000 * Second; St_KeyVersion := 1;
     St_AuthorizationCounter := 0; St_RevocationEpoch := 0; St_Authorized := [] |}.

Definition time1 : Z := 1700000100 * Second.

(** The phone is authorized, then revoked, then authorized again with a new key
    agreement key. *)
Definition state1 : persistedState :=
  state0 <| St_AuthorizationCounter := 1 |>
         <| St_Authorized := [authorizedRecord ["011"%byte] 1 time1] |>.
Definition state2 : persistedState :=
  state1 <| St_AuthorizationCounter := 2 |> <| St_RevocationEpoch := 1 |>
         <| St_Authorized := [revokedRecord 2 1 time1 (authorizedRecord ["011"%byte] 1 time1)] |>.
Definition state3 : persistedState :=
  state2 <| St_AuthorizationCounter := 3 |>
         <| St_Authorized := [authorizedRecord ["012"%byte] 3 time1] |>.

(** The tablet beside the phone. *)
Definition state11 : persistedState :=
  state1 <| St_AuthorizationCounter := 2 |>
         <| St_Authorized := [authorizedRecord ["011"%byte] 1 time1; authorizedRecord ["013"%byte] 2 time1] |>.

Definition states : list (persistedState * bytes) :=
  [(state0, ["020"%byte]); (state1, ["021"%byte]); (state2, ["022"%byte]); (state3, ["023"%byte]);
   (state11, ["024"%byte])].

#[local] Instance stateJson : JsonCodec persistedState := {
  json_Marshal := table_encode states;
  json_Decode := table_decode states;
  json_Extra _ := ExtraEOF;
}.

#[local] Instance stateJsonLaws : JsonLaws persistedState (fun st => validateState st = Ok tt).
Proof.
  assert (NoDup states.*2 ∧ [] ∉ states.*2) as [Hnd Hne] by (apply (bool_decide_unpack _); vm_compute; exact I).
  split; [|done|].
  - intros s b _ He. by apply (table_roundtrip states).
  - intros s b _ He ->. destruct (table_roundtrip states s [] Hnd He) as [_ Hin].
    by apply Hne.
Qed.

(** Envelopes for the identity's purpose. *)
#[local] Instance envelopeJson : JsonCodec envelope := {
  json_Marshal e :=
    if bool_decide (env_Version e = 1) && bool_decide (env_Protection e = protectionName) &&
       bool_decide (env_Purpose e = purposeDigest secureStorePurpose)
    then Ok ("{"%byte :: env_Ciphertext e) else Err (ErrorString "not encodable");
  json_Decode b :=
    match b with
    | _ :: c => Ok (SecureStore.mkEnvelope 1 protectionName (purposeDigest secureStorePurpose) c)
    | [] => Err (ErrorString "unexpected end of JSON input")
    end;
  json_Extra _ := ExtraEOF;
}.

#[local] Instance envelopeJsonLaws : JsonLaws envelope written.
Proof.
  split; [|done|].
  - intros [v pr pu c] b _. unfold json_Marshal, json_Decode, envelopeJson. cbn [env_Version env_Protection env_Purpose env_Ciphertext].
    intros He. case_match eqn:Hc; [|done]. split_bool. by simplify_eq.
  - intros e b _. unfold json_Marshal, envelopeJson. intros He. case_match; by simplify_eq.
Qed.

Definition identityPath : string := "/home/u/.config/vibebridge/identity.json".
Definition files0 : Files := {[ identityPath := ["{"%byte; "020"%byte] ]}.
Definition store0 : Store := mkStore identityPath state0 false.
Definition noFault : Syscalls :=
  mkSyscalls (Ok tt) (Ok "/home/u/.config/vibebridge/.secure-store-1.tmp"%string) (Ok tt) None (Ok tt) (Ok tt)
    (Ok tt) (Ok tt) (Ok tt) true.
(** The directory cannot be flushed: the new file is in place, but the save fails. *)
Definition flushFault : Syscalls :=
  mkSyscalls (Ok tt) (Ok "/home/u/.config/vibebridge/.secure-store-2.tmp"%string) (Ok tt) None (Ok tt) (Ok tt)
    (Ok tt) (Ok tt) (Err (ErrorString "input/output error")) true.

Definition store1 : Store := store0 <| state := state1 |>.
Definition store2 : Store := store0 <| state := state2 |>.
Definition files1 : Files := {[ identityPath := ["{"%byte; "021"%byte] ]}.
Definition files2 : Files := {[ identityPath := ["{"%byte; "022"%byte] ]}.
Definition files3 : Files := {[ identityPath := ["{"%byte; "023"%byte] ]}.
Definition view1 : AuthorizedDevice :=
  {| View_Device := phone 1; View_AuthorizationVersion := 1; View_State := STATE_AUTHORIZED;
     View_AuthorizedAt := mkTimestamp 1700000100 0; View_RevokedAt := None; View_RevocationEpoch := 0 |}.
Definition view2 : AuthorizedDevice :=
  {| View_Device := phone 1; View_AuthorizationVersion := 2; View_State := STATE_REVOKED;
     View_AuthorizedAt := mkTimestamp 1700000100 0; View_RevokedAt := Some (mkTimestamp 1700000100 0);
     View_RevocationEpoch := 1 |}.

Example authorize_phone :
  Authorize files0 store0 time1 noFault (Some (phone 1)) = (files1, store1, Ok view1).
Proof. vm_compute. reflexivity. Qed.
Example revoke_phone :
  Revoke files1 store1 time1 noFault (fill 16 "002") = (files2, store2, Ok view2).
Proof. vm_compute. reflexivity. Qed.
(** The update is published, the store is told that it failed. *)
Example unacknowledged :
  Authorize files2 store2 time1 flushFault (Some (phone 2)) =
    (files3, store2, Err (ErrorWrap "persist authorization update" (ErrorWrap "flush secure-store directory"
       (ErrorString "input/output error")))).
Proof. vm_compute. reflexivity. Qed.
Example reopened_identity : Load files3 None identityPath = Ok (mkStore identityPath state3 true).
Proof. vm_compute. reflexivity. Qed.
Example refused_without_descriptor :
  is_ok (Authorize files0 store0 time1 noFault None).2 = false.
Proof. vm_compute. reflexivity. Qed.

(** ** The theorems, applied *)

Lemma valid_example st :
  validateState st = Ok tt → is_u64 (St_AuthorizationCounter st) → is_u64 (St_RevocationEpoch st) →
  ValidState st.
Proof. intros. by apply validateState_iff. Qed.

Lemma synced_example fs store st :
  validateState (state store) = Ok tt → is_u64 (St_AuthorizationCounter (state store)) →
  is_u64 (St_RevocationEpoch (state store)) → loadState fs None (path store) = Ok st →
  st = state store → Synced fs store.
Proof.
  intros Hv Hc He Hl ->. pose proof (valid_example _ Hv Hc He). split; [done|].
  exists (state store). by split_and!.
Qed.

Ltac synced := eapply synced_example;
  [vm_compute; reflexivity|vm_compute; split; congruence|vm_compute; split; congruence
  |vm_compute; reflexivity|reflexivity].

Ltac fresh_temp := intros tmp Htmp; injection Htmp as <-; vm_compute; split; congruence.


(** The phone is authorized; a second update is published but not acknowledged;
    the identity is opened again and then sees it. *)
Lemma authorizations_only_grow_witness :
  rtc identity_step (files0, store0) (files3, mkStore identityPath state3 true) ∧
  Synced files3 (mkStore identityPath state3 true) ∧ Grows state0 state3.
Proof.
  assert (time1 ≠ zeroTime) as Htime by done.
  assert (rtc identity_step (files0, store0) (files3, mkStore identityPath state3 true)) as Hrun.
  { eapply rtc_l; [refine (step_authorize _ _ _ _ _ _ _ _ _ Htime authorize_phone); fresh_temp|].
    eapply rtc_l; [refine (step_revoke _ _ _ _ _ _ _ _ _ Htime revoke_phone); fresh_temp|].
    eapply rtc_l; [refine (step_authorize _ _ _ _ _ _ _ _ _ Htime unacknowledged); fresh_temp|].
    apply rtc_once, step_reopen. exists None. split; [done|]. left. split; [done|exact reopened_identity]. }
  split; [exact Hrun|].
  exact (authorizations_only_grow files0 store0 files3 (mkStore identityPath state3 true) ltac:(synced) Hrun).
Defined.

Lemma acknowledged_updates_are_durable_witness :
  ∃ reopened, Load files1 None identityPath = Ok reopened ∧ state reopened = state1.
Proof.
  destruct (acknowledged_updates_are_durable files0 store0 time1 noFault ltac:(synced) ltac:(fresh_temp) ltac:(done))
    as [HA _].
  destruct (HA (Some (phone 1)) files1 store1 view1 authorize_phone) as (reopened & HL & _ & Hst).
  exists reopened. split; [exact HL|]. apply Hst. discriminate.
Defined.

Lemma revocation_closes_gate_witness :
  is_ok (StoreAuthorizer (Some 1) (fill 16 "002") 0) = false ∧
  is_ok (StoreAuthorizer (Some 1) (fill 16 "002") 1) = true ∧
  is_ok (StoreAuthorizer (Some 0) (fill 16 "002") 0) = false.
Proof.
  assert (Synced files1 store1) as Hs by synced.
  destruct (revocation_closes_gate files1 store1 time1 noFault (fill 16 "002") (authorizedRecord ["011"%byte] 1 time1)
    files2 store2 view2 Hs) as (H1 & H2 & H3); [done|vm_compute; reflexivity|done|exact revoke_phone|].
  split; [exact (H1 (fill 16 "002") 0 ltac:(done))|]. split; [exact (H2 (fill 16 "002"))|].
  exact (H3 (fill 16 "002")).
Defined.
