(* ===== verification/Pairing.v ===== *)
(** * Pairing invitations ([internal/pairing/manager.go])

    The Agent keeps at most one invitation, an expiring bootstrap capability that
    one flow at a time may reserve.  A reservation is an object with an identity: a
    number, whose [manager] field (does it still point to the manager) lives in a
    table.  [net/url] is the class [GoUrl], the protobuf codec of invitations the
    class [InvitationCodec]; times are nanoseconds. *)

From S2P Require Import Prelude.
From S2P Require Import Utf8.
From S2P Require Import Sha256.
From S2P Require Import Encoding.
From S2P Require Import Ticket.
From S2P Require Import DeviceIdentity.

Definition CurrentInvitationVersion : Z := 1.
Definition InvitationIDBytes : Z := 16.
Definition BootstrapSecretBytes : Z := 32.
Definition DefaultTTL : Z := 5 * Minute.
Definition maxConnectionHints : Z := 8.
Definition maxConnectionHintBytes : Z := 512.
Definition maxInvitationBytes : Z := 16 * 1024.

Definition ErrInvitationUnavailable := ErrorString "pairing invitation is not active".
Definition ErrInvitationExpired := ErrorString "pairing invitation has expired".
Definition ErrInvitationRejected := ErrorString "pairing invitation credentials were rejected".
Definition ErrInvitationInUse := ErrorString "pairing invitation already has an active flow".

(** ** Data *)

Record PairingInvitation := mkPairingInvitation {
  Inv_Version : Z;
  Inv_InvitationId : bytes;
  Inv_Agent : option SignedDeviceDescriptor;
  Inv_BootstrapSecret : bytes;
  Inv_CreatedAt : option Timestamp;
  Inv_ExpiresAt : option Timestamp;
  Inv_ConnectionHints : list string;
  Inv_VerificationCode : string;
}.

#[global] Instance PairingInvitation_eta : Eta PairingInvitation := fun i =>
  mkPairingInvitation (Inv_Version i) (Inv_InvitationId i) (Inv_Agent i) (Inv_BootstrapSecret i)
    (Inv_CreatedAt i) (Inv_ExpiresAt i) (Inv_ConnectionHints i) (Inv_VerificationCode i).

(** The active invitation, whose message no longer carries the secret. *)
Record activeInvitation := mkActiveInvitation {
  invitation : PairingInvitation;
  secret : bytes;
  reservation : option nat;
}.

#[global] Instance activeInvitation_eta : Eta activeInvitation := fun a =>
  mkActiveInvitation (invitation a) (secret a) (reservation a).

(** [AsTime] of a message that may be nil. *)
Definition timeOf (t : option Timestamp) : Z := AsTime (default (mkTimestamp 0 0) t).
Definition createdAt (a : activeInvitation) : Z := timeOf (Inv_CreatedAt (invitation a)).
Definition expiresAt (a : activeInvitation) : Z := timeOf (Inv_ExpiresAt (invitation a)).

(** [reservations] maps every reservation to whether its [manager] field points to
    this manager (true) or is nil (false). *)
Record Manager := mkManager {
  ttl : Z;
  active : option activeInvitation;
  reservations : gmap nat bool;
}.

#[global] Instance Manager_eta : Eta Manager := fun m => mkManager (ttl m) (active m) (reservations m).

Record Status := mkStatus {
  Status_InvitationID : bytes;
  Status_CreatedAt : Z;
  Status_ExpiresAt : Z;
  Status_VerificationCode : string;
  Status_Reserved : bool;
}.

(** [net/url]. *)
Class GoUrl := {
  URL : Type;
  url_Parse : string → result URL;
  url_Scheme : URL → string;
  url_Host : URL → string;
  url_HasUser : URL → bool;
  url_Path : URL → string;
  url_RawQuery : URL → string;
  url_Fragment : URL → string;
  url_SetFragment : URL → string → URL;
  url_String : URL → string;
}.

Class InvitationCodec := {
  invitation_Marshal : PairingInvitation → result bytes;
  invitation_Unmarshal : bytes → result PairingInvitation;
  invitation_Size : PairingInvitation → Z;
}.

(** [New], with the interfaces that are not nil. *)
Definition New (hasAgent : bool) (configTTL : Z) : result Manager :=
  if negb hasAgent then Err (ErrorString "pairing Agent identity is required")
  else
    let ttl := if configTTL =? 0 then DefaultTTL else configTTL in
    if (ttl <? 30 * Second) || (ttl >? 15 * Minute) then
      Err (ErrorString "pairing invitation TTL must be between 30 seconds and 15 minutes")
    else Ok (mkManager ttl None ∅).

Section Pairing.
Context {crypto : IdentityCrypto} {url : GoUrl} {codec : InvitationCodec}.

(** ** Checks *)

Definition nonempty (s : string) : bool := negb (bool_decide (s = EmptyString)).

Definition httpScheme (s : string) : bool :=
  bool_decide (s = "http"%string) || bool_decide (s = "https"%string).
Definition wsScheme (s : string) : bool :=
  bool_decide (s = "ws"%string) || bool_decide (s = "wss"%string).

Definition validHint (hint : string) : bool :=
  nonempty hint && negb (slen hint >? maxConnectionHintBytes) && bool_decide (TrimSpace hint = hint) &&
  match url_Parse hint with
  | Err _ => false
  | Ok u => nonempty (url_Host u) && negb (url_HasUser u) && negb (nonempty (url_Fragment u)) &&
            (httpScheme (url_Scheme u) || wsScheme (url_Scheme u))
  end.

Fixpoint checkHints (seen : gset string) (hints : list string) : result unit :=
  match hints with
  | [] => Ok tt
  | hint :: hints' =>
      if negb (validHint hint) then
        Err (ErrorString "pairing invitation contains an invalid connection hint")
      else if bool_decide (hint ∈ seen) then
        Err (ErrorString "pairing invitation contains a duplicate connection hint")
      else checkHints ({[hint]} ∪ seen) hints'
  end.

Definition validateConnectionHints (hints : list string) : result unit :=
  if len hints >? maxConnectionHints then
    Err (ErrorString "pairing invitation has more than 8 connection hints")
  else checkHints ∅ hints.

(** [fmt.Sprintf("%03d")] of a number below 1000. *)
Definition digit (n : Z) : ascii := ascii_of_N (Z.to_N (48 + n)).
Definition threeDigits (n : Z) : string :=
  String (digit (n / 100)) (String (digit (n / 10 mod 10)) (String (digit (n mod 10)) EmptyString)).
Definition sixDigits (value : Z) : string :=
  (threeDigits (value / 1000) ++ "-" ++ threeDigits (value mod 1000))%string.

Definition invitationCodeDomain : bytes :=
  bytes_of_string "VibeBridge pairing invitation v1" ++ ["000"%byte].

Definition verificationCode (inv : PairingInvitation) : result string :=
  match invitation_Marshal (inv <| Inv_VerificationCode := EmptyString |>) with
  | Err e => Err (ErrorWrap "encode pairing verification transcript" e)
  | Ok encoded =>
      let digest := Sum256 (invitationCodeDomain ++ encoded) in
      let at_ i := byte_val (nth i digest "000"%byte) in
      let value := Z.lor (Z.lor (Z.shiftl (at_ 0%nat) 16) (Z.shiftl (at_ 1%nat) 8)) (at_ 2%nat) mod 1000000 in
      Ok (sixDigits value)
  end.

(** [ValidateInvitation]: what a client checks before it opens a transport. *)
Definition ValidateInvitation (inv : option PairingInvitation) (now : Z) : result unit :=
  match inv with
  | None => Err (ErrorString "pairing invitation is required")
  | Some inv =>
      if invitation_Size inv >? maxInvitationBytes then
        Err (ErrorString "pairing invitation is too large")
      else if negb (Inv_Version inv =? CurrentInvitationVersion) then
        Err (ErrorString "unsupported pairing invitation version %d")
      else if negb (len (Inv_InvitationId inv) =? InvitationIDBytes) ||
              negb (len (Inv_BootstrapSecret inv) =? BootstrapSecretBytes) then
        Err (ErrorString "pairing invitation credentials have an invalid size")
      else match VerifySignedDescriptor (Inv_Agent inv), Inv_Agent inv ≫= Signed_Descriptor with
      | Err e, _ => Err (ErrorWrap "pairing Agent descriptor is invalid" e)
      | Ok _, None => Err nilPointer
      | Ok _, Some agent =>
          if negb (Desc_DeviceClass agent =? DEVICE_CLASS_AGENT) then
            Err (ErrorString "pairing invitation descriptor is not an Agent")
          else match Inv_CreatedAt inv, Inv_ExpiresAt inv with
          | Some created, Some expires =>
              if negb (IsValid created) || negb (IsValid expires) then
                Err (ErrorString "pairing invitation timestamps are invalid")
              else if AsTime created >? now + 5 * Minute then
                Err (ErrorString "pairing invitation creation time is too far in the future")
              else if negb (AsTime expires >? AsTime created) ||
                      (AsTime expires - AsTime created >? 15 * Minute) then
                Err (ErrorString "pairing invitation lifetime is invalid")
              else if negb (now <? AsTime expires) then Err ErrInvitationExpired
              else match validateConnectionHints (Inv_ConnectionHints inv) with
              | Err e => Err e
              | Ok _ =>
                  match verificationCode inv with
                  | Err e => Err e
                  | Ok expected =>
                      if negb (bool_decide (expected = Inv_VerificationCode inv)) then
                        Err (ErrorString "pairing invitation verification code is invalid")
                      else Ok tt
                  end
              end
          | _, _ => Err (ErrorString "pairing invitation timestamps are invalid")
          end
      end
  end.

(** ** The invitation in a URL *)

Definition fragmentPrefix : string := "/pair/v1/".

Definition FragmentURL (baseURL : string) (inv : option PairingInvitation) : result string :=
  match inv with
  | None => Err (ErrorString "pairing invitation is required")
  | Some i =>
      match Inv_CreatedAt i with
      | None => Err (ErrorString "pairing invitation is required")
      | Some created =>
          match ValidateInvitation inv (AsTime created) with
          | Err e => Err e
          | Ok _ =>
              match url_Parse baseURL with
              | Err _ => Err (ErrorString "pairing base URL must be an absolute HTTP or HTTPS URL")
              | Ok u =>
                  if negb (nonempty (url_Host u)) || negb (httpScheme (url_Scheme u)) then
                    Err (ErrorString "pairing base URL must be an absolute HTTP or HTTPS URL")
                  else if url_HasUser u || nonempty (url_RawQuery u) || nonempty (url_Fragment u) then
                    Err (ErrorString "pairing base URL must not contain credentials, query, or fragment")
                  else match invitation_Marshal i with
                  | Err e => Err (ErrorWrap "encode pairing invitation" e)
                  | Ok encoded =>
                      Ok (url_String (url_SetFragment u (fragmentPrefix ++ RawURL_Encode encoded)))
                  end
              end
          end
      end
  end.

(** [strings.HasPrefix] and [strings.TrimPrefix]. *)
Fixpoint TrimPrefix (prefix s : string) : option string :=
  match prefix, s with
  | EmptyString, _ => Some s
  | String p prefix', String c s' => if bool_decide (p = c) then TrimPrefix prefix' s' else None
  | String _ _, EmptyString => None
  end.

Definition ParseFragmentURL (value : string) (now : Z) : result PairingInvitation :=
  match url_Parse value with
  | Err _ => Err (ErrorString "pairing URL is invalid")
  | Ok u =>
      if negb (nonempty (url_Host u)) || negb (httpScheme (url_Scheme u)) || url_HasUser u ||
         nonempty (url_RawQuery u) then
        Err (ErrorString "pairing URL is invalid")
      else match TrimPrefix fragmentPrefix (url_Fragment u) with
      | None => Err (ErrorString "pairing URL fragment is invalid")
      | Some payload =>
          if slen payload >? EncodedLen maxInvitationBytes then
            Err (ErrorString "pairing URL payload is too large")
          else match RawURL_Decode payload with
          | None => Err (ErrorString "pairing URL payload is invalid")
          | Some encoded =>
              match invitation_Unmarshal encoded with
              | Err _ => Err (ErrorString "pairing URL payload is invalid")
              | Ok inv =>
                  match ValidateInvitation (Some inv) now with
                  | Err e => Err e
                  | Ok _ => Ok inv
                  end
              end
          end
      end
  end.

(** ** The manager *)

Definition clearActiveLocked (m : Manager) : Manager :=
  match active m with
  | None => m
  | Some a =>
      m <| reservations ::= fun t =>
             match reservation a with Some r => <[r := false]> t | None => t end |>
        <| active := None |>
  end.

(** [Create], with what the identity, the random source and the clock give. *)
Definition Create (m : Manager) (hints : list string) (descriptor : result (option SignedDeviceDescriptor))
    (randomID randomSecret : result bytes) (now : Z) : Manager * result PairingInvitation :=
  match validateConnectionHints hints with
  | Err e => (m, Err e)
  | Ok _ =>
      match descriptor with
      | Err e => (m, Err (ErrorWrap "read Agent descriptor" e))
      | Ok signed =>
          match VerifySignedDescriptor signed, signed ≫= Signed_Descriptor with
          | Err e, _ => (m, Err (ErrorWrap "verify Agent descriptor" e))
          | Ok _, None => (m, Err nilPointer)
          | Ok _, Some d =>
              if negb (Desc_DeviceClass d =? DEVICE_CLASS_AGENT) then
                (m, Err (ErrorString "pairing identity is not an Agent"))
              else match randomID with
              | Err e => (m, Err (ErrorWrap "generate pairing invitation ID" e))
              | Ok id =>
                  match randomSecret with
                  | Err e => (m, Err (ErrorWrap "generate pairing bootstrap secret" e))
                  | Ok sec =>
                      let inv := {| Inv_Version := CurrentInvitationVersion;
                                    Inv_InvitationId := id;
                                    Inv_Agent := signed;
                                    Inv_BootstrapSecret := sec;
                                    Inv_CreatedAt := Some (timestamp_New now);
                                    Inv_ExpiresAt := Some (timestamp_New (now + ttl m));
                                    Inv_ConnectionHints := hints;
                                    Inv_VerificationCode := EmptyString |} in
                      match verificationCode inv with
                      | Err e => (m, Err e)
                      | Ok code =>
                          let inv := inv <| Inv_VerificationCode := code |> in
                          let stored := inv <| Inv_BootstrapSecret := [] |> in
                          ((clearActiveLocked m) <| active :=
                             Some (mkActiveInvitation stored sec None) |>, Ok inv)
                      end
                  end
              end
          end
      end
  end.

Definition statusOf (a : activeInvitation) (reserved : bool) : Status :=
  mkStatus (Inv_InvitationId (invitation a)) (createdAt a) (expiresAt a)
    (Inv_VerificationCode (invitation a)) reserved.

Definition ActiveStatus (m : Manager) (now : Z) : Manager * result Status :=
  match active m with
  | None => (m, Err ErrInvitationUnavailable)
  | Some a =>
      if negb (now <? expiresAt a) then (clearActiveLocked m, Err ErrInvitationExpired)
      else (m, Ok (statusOf a (bool_decide (is_Some (reservation a)))))
  end.

(** A check that succeeds gives the active invitation it has checked. *)
Definition matchInvitationLocked (m : Manager) (now : Z) (id : bytes) : Manager * result activeInvitation :=
  match active m with
  | None => (m, Err ErrInvitationUnavailable)
  | Some a =>
      if negb (now <? expiresAt a) then (clearActiveLocked m, Err ErrInvitationExpired)
      else if negb (len id =? InvitationIDBytes) ||
              negb (bool_decide (id = Inv_InvitationId (invitation a))) then (m, Err ErrInvitationRejected)
      else (m, Ok a)
  end.

Definition validateReservationLocked (m : Manager) (now : Z) (r : option nat) : Manager * result nat :=
  match active m with
  | None => (m, Err ErrInvitationUnavailable)
  | Some a =>
      if negb (now <? expiresAt a) then (clearActiveLocked m, Err ErrInvitationExpired)
      else match r with
      | None => (m, Err ErrInvitationRejected)
      | Some r =>
          if negb (bool_decide (reservations m !! r = Some true)) ||
             negb (bool_decide (reservation a = Some r)) then (m, Err ErrInvitationRejected)
          else (m, Ok r)
      end
  end.

(** [Begin]: the callback sees the secret and gives what its closure captures, or
    an error. *)
Definition Begin {A} (m : Manager) (now : Z) (id : bytes) (useSecret : option (bytes → result A))
    : Manager * result (nat * Status * A) :=
  match useSecret with
  | None => (m, Err (ErrorString "pairing secret callback is required"))
  | Some use =>
      match matchInvitationLocked m now id with
      | (m, Err e) => (m, Err e)
      | (m, Ok a) =>
          match reservation a with
          | Some _ => (m, Err ErrInvitationInUse)
          | None =>
              match use (secret a) with
              | Err e => (m, Err e)
              | Ok x =>
                  let r := fresh (dom (reservations m)) in
                  (m <| reservations ::= insert r true |>
                     <| active := Some (a <| reservation := Some r |>) |>,
                   Ok (r, statusOf a true, x))
              end
          end
      end
  end.

(** [Approve]: [persist] acts on the state [w] of whoever stores authorizations. *)
Definition Approve {W A} (m : Manager) (w : W) (now : Z) (r : option nat)
    (persist : option (W → W * result A)) : Manager * W * result A :=
  match persist with
  | None => (m, w, Err (ErrorString "pairing approval persistence callback is required"))
  | Some persist =>
      match validateReservationLocked m now r with
      | (m, Err e) => (m, w, Err e)
      | (m, Ok _) =>
          match persist w with
          | (w, Err e) => (m, w, Err e)
          | (w, Ok x) => (clearActiveLocked m, w, Ok x)
          end
      end
  end.

Definition Reject (m : Manager) (now : Z) (r : option nat) : Manager * result unit :=
  match validateReservationLocked m now r with
  | (m, Err e) => (m, Err e)
  | (m, Ok _) => (clearActiveLocked m, Ok tt)
  end.

Definition Release (m : Manager) (now : Z) (r : option nat) : Manager * result unit :=
  match validateReservationLocked m now r with
  | (m, Err e) => (m, Err e)
  | (m, Ok r) =>
      (m <| active ::= fmap (fun a => a <| reservation := None |>) |>
         <| reservations ::= insert r false |>, Ok tt)
  end.

Definition authenticateLocked (m : Manager) (now : Z) (id sec : bytes) : Manager * result unit :=
  match matchInvitationLocked m now id with
  | (m, Err e) => (m, Err e)
  | (m, Ok a) =>
      if negb (len sec =? BootstrapSecretBytes) || negb (bool_decide (sec = secret a)) then
        (m, Err ErrInvitationRejected)
      else (m, Ok tt)
  end.

Definition Authenticate (m : Manager) (now : Z) (id sec : bytes) : Manager * result unit :=
  authenticateLocked m now id sec.

Definition Consume (m : Manager) (now : Z) (id sec : bytes) : Manager * result unit :=
  match authenticateLocked m now id sec with
  | (m, Err e) => (m, Err e)
  | (m, Ok _) => (clearActiveLocked m, Ok tt)
  end.

Definition Close (m : Manager) : Manager := clearActiveLocked m.
End Pairing.

Arguments ValidateInvitation : simpl never.
Arguments verificationCode : simpl never.
Arguments validateConnectionHints : simpl never.
