(* ===== verification/PairingFacts.v ===== *)
(** * Pairing invitations: what the manager guarantees

    A reservation is live exactly when the active invitation holds it; runs of the
    manager's operations, and how often an invitation and a reservation can be
    spent in them; the invitation a client scans is the one that was created. *)

From S2P Require Import Prelude.
From S2P Require Import Utf8.
From S2P Require Import Encoding.
From S2P Require Import Ticket.
From S2P Require Import DeviceIdentity.
From S2P Require Import Pairing.

(** ** Reservations *)

(** A reservation points to the manager exactly when the active invitation holds
    it. *)
Definition Exclusive (m : Manager) : Prop :=
  ∀ r, reservations m !! r = Some true ↔ ∃ a, active m = Some a ∧ reservation a = Some r.

Lemma Exclusive_new ttl : Exclusive (mkManager ttl None ∅).
Proof. intros r. split; [done|]. naive_solver. Qed.

(** No reservation is live, and none is forgotten. *)
Definition Cleared (m m' : Manager) : Prop :=
  (∀ r, reservations m' !! r ≠ Some true) ∧ dom (reservations m') = dom (reservations m) ∧ ttl m' = ttl m.

Lemma clear_cleared m : Exclusive m → Cleared m (clearActiveLocked m) ∧ active (clearActiveLocked m) = None.
Proof.
  intros Hx. unfold clearActiveLocked. destruct (active m) as [a|] eqn:Ha.
  - split; [|done]. unfold Cleared. simpl. split_and!; [| |done].
    + intros r Hr. destruct (reservation a) as [r0|] eqn:Hr0.
      * destruct (decide (r0 = r)) as [->|]; simplify_map_eq.
        apply Hx in Hr as (a' & ? & ?). congruence.
      * apply Hx in Hr as (a' & ? & ?). congruence.
    + destruct (reservation a) as [r0|] eqn:Hr0; [|done].
      assert (reservations m !! r0 = Some true) by (apply Hx; eauto).
      rewrite dom_insert_lookup_L; [done|eauto].
  - split; [|done]. split_and!; [|done|done]. intros r Hr. apply Hx in Hr as (a' & ? & ?). congruence.
Qed.

Lemma Exclusive_none m : (∀ r, reservations m !! r ≠ Some true) → active m = None → Exclusive m.
Proof. intros Hn Ha r. split; [intros Hr; by destruct (Hn r)|]. intros (a & ? & ?). congruence. Qed.

Lemma Exclusive_unreserved m a :
  (∀ r, reservations m !! r ≠ Some true) → active m = Some a → reservation a = None → Exclusive m.
Proof. intros Hn Ha Hr r. split; [intros ?; by destruct (Hn r)|]. intros (a' & ? & ?). congruence. Qed.

Lemma Exclusive_clear m : Exclusive m → Exclusive (clearActiveLocked m).
Proof. intros Hx. destruct (clear_cleared m Hx) as [[Hn _] Ha]. by apply Exclusive_none. Qed.

(** ** Runs *)

(** What an operation did, as far as capabilities are concerned. *)
Inductive Event :=
  | Created
  | Reserved (r : nat)
  | Approved (r : nat)
  | Rejected (r : nat)
  | Released (r : nat)
  | Consumed
  | Quiet.

Section Runs.
Context {crypto : IdentityCrypto} {url : GoUrl} {codec : InvitationCodec}.

(** One call of a method, with any arguments and any clock reading; calls that
    fail are quiet. *)
Inductive pairing_step : Manager → Event → Manager → Prop :=
  | step_create m hints d id sec now m' res :
      Create m hints d id sec now = (m', res) →
      pairing_step m (if is_ok res then Created else Quiet) m'
  | step_status m now m' res : ActiveStatus m now = (m', res) → pairing_step m Quiet m'
  | step_begin {A} m now id (use : option (bytes → result A)) m' res :
      Begin m now id use = (m', res) →
      pairing_step m (match res with Ok (r, _, _) => Reserved r | Err _ => Quiet end) m'
  | step_approve {W A} m (w : W) now r (persist : option (W → W * result A)) m' w' res :
      Approve m w now (Some r) persist = (m', w', res) →
      pairing_step m (if is_ok res then Approved r else Quiet) m'
  | step_reject m now r m' res :
      Reject m now (Some r) = (m', res) → pairing_step m (if is_ok res then Rejected r else Quiet) m'
  | step_release m now r m' res :
      Release m now (Some r) = (m', res) → pairing_step m (if is_ok res then Released r else Quiet) m'
  | step_authenticate m now id sec m' res :
      Authenticate m now id sec = (m', res) → pairing_step m Quiet m'
  | step_consume m now id sec m' res :
      Consume m now id sec = (m', res) → pairing_step m (if is_ok res then Consumed else Quiet) m'
  | step_close m : pairing_step m Quiet (Close m).

(** What an event leaves behind. *)
Definition live (m : Manager) (r : nat) : Prop := reservations m !! r = Some true.

#[local] Instance live_dec m r : Decision (live m r).
Proof. unfold live. apply _. Defined.

(** Nothing changes, or the active invitation is dropped because it has expired. *)
Definition Dropped (m m' : Manager) : Prop := m' = m ∨ m' = clearActiveLocked m.

Lemma match_cases m now id m' res :
  matchInvitationLocked m now id = (m', res) →
  Dropped m m' ∧ ∀ a, res = Ok a → m' = m ∧ active m = Some a ∧ now < expiresAt a ∧
    id = Inv_InvitationId (invitation a) ∧ len id = InvitationIDBytes.
Proof.
  unfold matchInvitationLocked, Dropped. intros Hm. repeat case_match; simplify_eq; (split; [by auto|]);
    intros a' Ha; simplify_eq. split_bool. split_and!; try done; lia.
Qed.

Lemma validate_cases m now r m' res :
  validateReservationLocked m now (Some r) = (m', res) →
  Dropped m m' ∧ ∀ r', res = Ok r' → r' = r ∧ m' = m ∧ live m r ∧
    ∃ a, active m = Some a ∧ now < expiresAt a ∧ reservation a = Some r.
Proof.
  unfold validateReservationLocked, Dropped. intros Hm. repeat case_match; simplify_eq; (split; [by auto|]);
    intros r' Hr; simplify_eq. split_bool. split_and!; try done. eexists. split_and!; try done. lia.
Qed.

(** The effect of an event on the manager. *)
Definition Effect (m : Manager) (e : Event) (m' : Manager) : Prop :=
  match e with
  | Created => (∃ a, active m' = Some a ∧ reservation a = None) ∧ Cleared m m'
  | Reserved r => ∃ a, active m = Some a ∧ reservation a = None ∧
      active m' = Some (a <| reservation := Some r |>) ∧
      r ∉ dom (reservations m) ∧ reservations m' = <[r := true]> (reservations m)
  | Approved r | Rejected r => live m r ∧ is_Some (active m) ∧ active m' = None ∧ Cleared m m'
  | Released r => live m r ∧ is_Some (active m') ∧ is_Some (active m) ∧ Cleared m m'
  | Consumed => is_Some (active m) ∧ active m' = None ∧ Cleared m m'
  | Quiet => m' = m ∨ active m' = None ∧ Cleared m m'
  end.

Lemma dropped_quiet m m' : Exclusive m → Dropped m m' → Exclusive m' ∧ Effect m Quiet m'.
Proof.
  intros Hx [->| ->]; [split; [done|by left]|]. destruct (clear_cleared m Hx) as [? ?].
  split; [by apply Exclusive_clear|by right].
Qed.

(** Effects of the methods that spend or grant something. *)
Lemma Create_effect m hints d id sec now m' res :
  Exclusive m → Create m hints d id sec now = (m', res) →
  Exclusive m' ∧ Effect m (if is_ok res then Created else Quiet) m'.
Proof.
  intros Hx HC. destruct (clear_cleared m Hx) as [(Hn & Hdom & Httl) Hnone].
  unfold Create in HC. repeat case_match; simplify_eq; try (split; [done|by left]).
  split; [by eapply Exclusive_unreserved|]. split; [by eexists|done].
Qed.

Lemma Begin_effect {A} m now id (use : option (bytes → result A)) m' res :
  Exclusive m → Begin m now id use = (m', res) →
  Exclusive m' ∧ Effect m (match res with Ok (r, _, _) => Reserved r | Err _ => Quiet end) m'.
Proof.
  intros Hx HB. unfold Begin in HB.
  destruct use as [use|]; [|simplify_eq; apply dropped_quiet; [done|by left]].
  destruct (matchInvitationLocked m now id) as [m1 [a|e]] eqn:Hm;
    destruct (match_cases _ _ _ _ _ Hm) as [Hd Hok]; [|simplify_eq; by apply dropped_quiet].
  destruct (Hok a eq_refl) as (-> & Ha & _).
  destruct (reservation a) eqn:Hr; [simplify_eq; by apply dropped_quiet|].
  destruct (use (secret a)); simplify_eq; [|by apply dropped_quiet].
  pose proof (is_fresh (dom (reservations m))) as Hfresh. split.
  - intros r. simpl. rewrite lookup_insert_Some. split.
    + intros [[<- _]|[Hne Hl]]; [eauto|]. apply Hx in Hl as (a' & ? & ?). congruence.
    + intros (a' & ? & Hr'). simplify_eq/=. auto.
  - exists a. by split_and!.
Qed.

Lemma validated_settles m now r m' res :
  Exclusive m → validateReservationLocked m now (Some r) = (m', res) →
  Exclusive m' ∧ Effect m Quiet m' ∧
  (∀ r', res = Ok r' → m' = m ∧ r' = r ∧ live m r ∧ is_Some (active m) ∧
    ∃ a, active m = Some a ∧ reservation a = Some r).
Proof.
  intros Hx Hv. destruct (validate_cases _ _ _ _ _ Hv) as [Hd Hok].
  destruct (dropped_quiet _ _ Hx Hd). split_and!; [done|done|]. intros r' Hr'.
  destruct (Hok r' Hr') as (-> & -> & Hl & a & Ha & _ & ?). split_and!; try done; eauto.
Qed.

Lemma Approve_effect {W A} m (w : W) now r (persist : option (W → W * result A)) m' w' res :
  Exclusive m → Approve m w now (Some r) persist = (m', w', res) →
  Exclusive m' ∧ Effect m (if is_ok res then Approved r else Quiet) m'.
Proof.
  intros Hx HA. unfold Approve in HA.
  destruct persist as [persist|]; [|simplify_eq; apply dropped_quiet; [done|by left]].
  destruct (validateReservationLocked m now (Some r)) as [m1 [r'|e]] eqn:Hv;
    destruct (validated_settles _ _ _ _ _ Hx Hv) as (? & ? & Hok); [|by simplify_eq].
  destruct (Hok r' eq_refl) as (-> & -> & Hl & ? & _).
  destruct (persist w) as [w1 [x|e]]; simplify_eq/=; [|done].
  destruct (clear_cleared m Hx) as [? ?]. split; [by apply Exclusive_clear|]. by split_and!.
Qed.

Lemma Reject_effect m now r m' res :
  Exclusive m → Reject m now (Some r) = (m', res) →
  Exclusive m' ∧ Effect m (if is_ok res then Rejected r else Quiet) m'.
Proof.
  intros Hx HR. unfold Reject in HR.
  destruct (validateReservationLocked m now (Some r)) as [m1 [r'|e]] eqn:Hv;
    destruct (validated_settles _ _ _ _ _ Hx Hv) as (? & ? & Hok); [|by simplify_eq].
  destruct (Hok r' eq_refl) as (-> & -> & Hl & ? & _). simplify_eq/=.
  destruct (clear_cleared m Hx) as [? ?]. split; [by apply Exclusive_clear|]. by split_and!.
Qed.

Lemma Release_effect m now r m' res :
  Exclusive m → Release m now (Some r) = (m', res) →
  Exclusive m' ∧ Effect m (if is_ok res then Released r else Quiet) m'.
Proof.
  intros Hx HR. unfold Release in HR.
  destruct (validateReservationLocked m now (Some r)) as [m1 [r'|e]] eqn:Hv;
    destruct (validated_settles _ _ _ _ _ Hx Hv) as (? & ? & Hok); [|by simplify_eq].
  destruct (Hok r' eq_refl) as (-> & -> & Hl & Hs & a & Ha & Hra). simplify_eq/=.
  assert (∀ r0, <[r:=false]> (reservations m) !! r0 ≠ Some true) as Hno.
  { intros r0. destruct (decide (r = r0)) as [->|Hne]; [by rewrite lookup_insert_eq|].
    rewrite lookup_insert_ne by done. intros Hr0. apply Hx in Hr0 as (a' & ? & ?). congruence. }
  split; [eapply (Exclusive_unreserved _ (a <| reservation := None |>)); [done| |done]; simpl; by rewrite Ha|].
  split_and!; [done|simpl; by rewrite Ha|done|]. split_and!; [done| |done].
  simpl. rewrite dom_insert_lookup_L; [done|by eexists].
Qed.

Lemma Consume_effect m now id sec m' res :
  Exclusive m → Consume m now id sec = (m', res) →
  Exclusive m' ∧ Effect m (if is_ok res then Consumed else Quiet) m'.
Proof.
  intros Hx HC. unfold Consume, authenticateLocked in HC.
  destruct (matchInvitationLocked m now id) as [m1 [a|e]] eqn:Hm;
    destruct (match_cases _ _ _ _ _ Hm) as [Hd Hok]; [|simplify_eq; by apply dropped_quiet].
  destruct (Hok a eq_refl) as (-> & Ha & _).
  destruct (_ || _); simplify_eq/=; [by apply dropped_quiet|].
  destruct (clear_cleared m Hx) as [? ?]. split; [by apply Exclusive_clear|]. by rewrite Ha.
Qed.

Lemma step_effect m e m' : pairing_step m e m' → Exclusive m → Exclusive m' ∧ Effect m e m'.
Proof.
  intros Hstep Hx. destruct Hstep.
  - by eapply Create_effect.
  - unfold ActiveStatus in *. apply dropped_quiet; [done|]. unfold Dropped.
    repeat case_match; simplify_eq; auto.
  - by eapply Begin_effect.
  - by eapply Approve_effect.
  - by eapply Reject_effect.
  - by eapply Release_effect.
  - unfold Authenticate, authenticateLocked in *.
    destruct (matchInvitationLocked m now id) as [m1 [a|e]] eqn:Hm;
      destruct (match_cases _ _ _ _ _ Hm) as [Hd Hok]; repeat case_match; simplify_eq; by apply dropped_quiet.
  - by eapply Consume_effect.
  - apply dropped_quiet; [done|by right].
Qed.

(** ** Counting *)

(** A run of the manager and the events of its steps, in order. *)
Inductive pairing_run : Manager → list Event → Manager → Prop :=
  | run_nil m : pairing_run m [] m
  | run_snoc m es m' e m'' :
      pairing_run m es m' → pairing_step m' e m'' → pairing_run m (es ++ [e]) m''.

Definition isCreated (e : Event) : bool := match e with Created => true | _ => false end.
Definition isSpent (e : Event) : bool :=
  match e with Approved _ | Rejected _ | Consumed => true | _ => false end.
Definition isReserved (r : nat) (e : Event) : bool :=
  match e with Reserved r' => bool_decide (r' = r) | _ => false end.
Definition isSettled (r : nat) (e : Event) : bool :=
  match e with Approved r' | Rejected r' | Released r' => bool_decide (r' = r) | _ => false end.

(** What the counts of a run say about the state it has reached. *)
Record Counted (es : list Event) (m : Manager) : Prop := {
  ct_exclusive : Exclusive m;
  ct_spent : (countb isSpent es + (if active m then 1 else 0) <= countb isCreated es)%nat;
  ct_settled r : (countb (isSettled r) es + (if bool_decide (live m r) then 1 else 0)
                  <= countb (isReserved r) es)%nat;
  ct_reserved r : (countb (isReserved r) es <= if bool_decide (r ∈ dom (reservations m)) then 1 else 0)%nat;
}.

(** What an event does to the reservations, whatever else it does. *)
Lemma effect_reservations m e m' :
  Effect m e m' → m' = m ∨
  (∃ r, e = Reserved r ∧ r ∉ dom (reservations m) ∧ reservations m' = <[r := true]> (reservations m)) ∨
  (∀ r, e ≠ Reserved r) ∧ Cleared m m'.
Proof. destruct e; simpl; intros; destruct_and?; naive_solver. Qed.

Lemma settled_live m e m' r : Effect m e m' → isSettled r e = true → live m r ∧ Cleared m m'.
Proof. destruct e; simpl; intros; try done; split_bool; subst; by destruct_and?. Qed.

Lemma counted_step es m e m' : Counted es m → pairing_step m e m' → Counted (es ++ [e]) m'.
Proof.
  intros [Hx Hs Hr Hd] Hstep. destruct (step_effect _ _ _ Hstep Hx) as [Hx' He]. split; [done|..].
  - rewrite !countb_snoc. destruct e; simpl in *; destruct_and?; destruct_or?; destruct_and?; subst;
      repeat match goal with H : ∃ _, _ |- _ => destruct H as (? & ?); destruct_and? end;
      repeat match goal with H : is_Some (active _) |- _ => destruct H end;
      repeat match goal with H : active _ = _ |- _ => rewrite H in * end; simpl in *; lia.
  - intros r. rewrite !countb_snoc. specialize (Hr r). specialize (Hd r).
    destruct (isSettled r e) eqn:Hse.
    + destruct (settled_live _ _ _ _ He Hse) as [Hl [Hn _]].
      rewrite (bool_decide_true (live m r)) in Hr by done. rewrite bool_decide_false by apply Hn. lia.
    + destruct (effect_reservations _ _ _ He) as [->|[(r0 & -> & Hr0 & Hm')|[_ [Hn _]]]].
      * lia.
      * simpl. destruct (decide (r0 = r)) as [->|Hne].
        -- rewrite (bool_decide_true (r = r)) by done.
           rewrite (bool_decide_false (r ∈ _)) in Hd by done. repeat case_bool_decide; lia.
        -- rewrite (bool_decide_ext (live m' r) (live m r))
             by (unfold live; by rewrite Hm', lookup_insert_ne).
           rewrite (bool_decide_false (r0 = r)) by done. lia.
      * rewrite bool_decide_false by apply Hn. lia.
  - intros r. rewrite countb_snoc. specialize (Hd r).
    destruct (effect_reservations _ _ _ He) as [->|[(r0 & -> & Hr0 & Hm')|[Hne (_ & Hdom & _)]]].
    + destruct (isReserved r e) eqn:Hres; [|lia]. destruct e; try done. simpl in *. split_bool. subst.
      destruct He as (a & Ha & Hn & Ha' & _). rewrite Ha in Ha'. destruct a; simplify_eq/=.
    + simpl. rewrite Hm', dom_insert_L. destruct (decide (r0 = r)) as [->|Hne].
      * rewrite (bool_decide_false (r ∈ _)) in Hd by done. rewrite !bool_decide_true by set_solver. lia.
      * rewrite (bool_decide_false (r0 = r)) by done. case_bool_decide; [rewrite bool_decide_true by set_solver|]; lia.
    + rewrite Hdom. destruct (isReserved r e) eqn:Hres; [|lia]. destruct e; try done. by destruct (Hne r0).
Qed.

Lemma counted_run ttl es m : pairing_run (mkManager ttl None ∅) es m → Counted es m.
Proof.
  intros Hrun. remember (mkManager ttl None ∅) as m0 eqn:Hm0. induction Hrun; subst.
  - split; [apply Exclusive_new|simpl; lia|intros r|intros r; unfold countb; simpl; case_bool_decide; lia].
    rewrite bool_decide_false; [unfold countb; simpl; lia|]. unfold live. simpl. by rewrite lookup_empty.
  - eapply counted_step; [by apply IHHrun|done].
Qed.

(** C21: invitations and reservations are spent once.  In every run of a manager,
    however calls are ordered and whatever they are given, there are no more
    approvals, rejections and consumptions than invitations created; every
    reservation is granted once, is settled (approved, rejected or released) at
    most once and only after it was granted; and a reservation is valid exactly
    while the active invitation holds it, so at most one is. *)
Theorem invitation_spent_once ttl es m :
  pairing_run (mkManager ttl None ∅) es m →
  (countb isSpent es <= countb isCreated es)%nat ∧
  (∀ r, (countb (isSettled r) es <= countb (isReserved r) es <= 1)%nat) ∧
  (∀ r, live m r ↔ ∃ a, active m = Some a ∧ reservation a = Some r).
Proof.
  intros [Hx Hs Hr Hd]%counted_run. split_and!; [lia| |apply Hx].
  intros r. specialize (Hr r). specialize (Hd r). repeat case_bool_decide; lia.
Qed.

(** The bootstrap secret and the authorization are behind the invitation.
    [Begin] shows its callback the secret only of an active, unexpired invitation
    with that identifier that nobody has reserved, and reserves it when the callback
    succeeds; in every other case the callback is not consulted.  [Approve] runs its
    callback only for the reservation the active, unexpired invitation holds; the
    invitation is spent when the callback succeeds and kept when it fails. *)
Theorem callbacks_guarded {W A B} m now (use : bytes → result A) (persist : W → W * result B) :
  (∀ id, (∃ a r, active m = Some a ∧ now < expiresAt a ∧ id = Inv_InvitationId (invitation a) ∧
      len id = InvitationIDBytes ∧ reservation a = None ∧ r ∉ dom (reservations m) ∧
      Begin m now id (Some use) =
        match use (secret a) with
        | Err e => (m, Err e)
        | Ok x => (m <| reservations ::= insert r true |>
                     <| active := Some (a <| reservation := Some r |>) |>, Ok (r, statusOf a true, x))
        end) ∨
    ∃ m' e, Dropped m m' ∧ ∀ use' : bytes → result A, Begin m now id (Some use') = (m', Err e)) ∧
  (∀ w r, (∃ a, active m = Some a ∧ now < expiresAt a ∧ reservation a = Some r ∧ live m r ∧
      Approve m w now (Some r) (Some persist) =
        match persist w with
        | (w', Err e) => (m, w', Err e)
        | (w', Ok x) => (clearActiveLocked m, w', Ok x)
        end) ∨
    ∃ m' e, Dropped m m' ∧
      ∀ persist' : W → W * result B, Approve m w now (Some r) (Some persist') = (m', w, Err e)).
Proof.
  split.
  - intros id. unfold Begin. destruct (matchInvitationLocked m now id) as [m1 [a|e]] eqn:Hm;
      destruct (match_cases _ _ _ _ _ Hm) as [Hd Hok]; [|right; by exists m1, e].
    destruct (Hok a eq_refl) as (-> & Ha & Hexp & Hid & Hlen).
    destruct (reservation a) eqn:Hr; [right; by exists m, ErrInvitationInUse|].
    left. exists a, (fresh (dom (reservations m))). split_and!; try done. apply is_fresh.
  - intros w r. unfold Approve.
    destruct (validateReservationLocked m now (Some r)) as [m1 [r'|e]] eqn:Hv;
      destruct (validate_cases _ _ _ _ _ Hv) as [Hd Hok]; [|right; by exists m1, e].
    destruct (Hok r' eq_refl) as (-> & -> & Hl & a & Ha & Hexp & Hr).
    left. exists a. by split_and!.
Qed.
End Runs.

(** ** The scanned invitation *)

(** What the protobuf codec promises: what is encoded is decoded back, the size of
    a message is that of its encoding, and the code does not make a message that
    can be encoded one that cannot. *)
Class InvitationLaws `{InvitationCodec} := {
  invitation_roundtrip i b : invitation_Marshal i = Ok b → invitation_Unmarshal b = Ok i;
  invitation_size i b : invitation_Marshal i = Ok b → invitation_Size i = len b;
  invitation_code i b value :
    invitation_Marshal (i <| Inv_VerificationCode := EmptyString |>) = Ok b →
    ∃ b', invitation_Marshal (i <| Inv_VerificationCode := sixDigits value |>) = Ok b';
}.

(** The characters of a fragment that [net/url] leaves alone. *)
Definition fragmentChar (c : ascii) : bool :=
  bool_decide (is_Some (base64Value "-" "_" c)) || bool_decide (c = "/"%char).

(** What [net/url] promises: an absolute URL without credentials, query or
    fragment survives the addition of a fragment of plain characters. *)
Class UrlLaws `{GoUrl} := {
  url_fragment s u f :
    url_Parse s = Ok u → url_Host u ≠ EmptyString → url_HasUser u = false →
    url_RawQuery u = EmptyString → url_Fragment u = EmptyString →
    forallb fragmentChar (list_ascii_of_string f) = true →
    ∃ u', url_Parse (url_String (url_SetFragment u f)) = Ok u' ∧
      url_Host u' = url_Host u ∧ url_Scheme u' = url_Scheme u ∧ url_HasUser u' = false ∧
      url_RawQuery u' = EmptyString ∧ url_Fragment u' = f;
}.

Section Scan.
Context {crypto : IdentityCrypto} {url : GoUrl} {codec : InvitationCodec}.
Context {laws : InvitationLaws} {ulaws : UrlLaws}.

#[local] Ltac Zify.zify_post_hook ::= Z.to_euclidean_division_equations.

Lemma AsTime_New t : AsTime (timestamp_New t) = t.
Proof. unfold AsTime, timestamp_New, Second. simpl. lia. Qed.

Lemma encoded_chars b : forallb fragmentChar (encodeChars "-" "_" false b) = true.
Proof.
  assert (∀ n, 0 <= n < 64 → fragmentChar (base64Char "-" "_" n) = true) as Hc.
  { intros n Hn. unfold fragmentChar. destruct (url_alphabet n Hn) as [-> _].
    by rewrite bool_decide_true by eauto. }
  induction b as [|x|x y|x y z b IH] using bytes_ind3; simpl; [done|..];
    pose proof (byte_val_range x); try pose proof (byte_val_range y); try pose proof (byte_val_range z);
    rewrite !Hc by lia; done.
Qed.

Lemma encoded_length b : len (encodeChars "-" "_" false b) = EncodedLen (len b).
Proof.
  induction b as [|x|x y|x y z b IH] using bytes_ind3; [done..|].
  simpl. rewrite !len_cons, IH. unfold EncodedLen. pose proof (len_nonneg b). lia.
Qed.

Lemma string_length_list l : String.length (string_of_list_ascii l) = length l.
Proof. induction l; simpl; congruence. Qed.

Lemma EncodedLen_mono n k : 0 <= n <= k → EncodedLen n <= EncodedLen k.
Proof. unfold EncodedLen. lia. Qed.

(** The times of an invitation created at [now] fit into a timestamp. *)
Definition timely (m : Manager) (now : Z) : Prop :=
  IsValid (timestamp_New now) = true ∧ IsValid (timestamp_New (now + ttl m)) = true.

Lemma Create_Ok m hints d id sec now m' inv :
  Create m hints d (Ok id) (Ok sec) now = (m', Ok inv) →
  ∃ signed agent code, d = Ok (Some signed) ∧ Signed_Descriptor signed = Some agent ∧
    VerifySignedDescriptor (Some signed) = Ok tt ∧ Desc_DeviceClass agent = DEVICE_CLASS_AGENT ∧
    validateConnectionHints hints = Ok tt ∧
    inv = mkPairingInvitation CurrentInvitationVersion id (Some signed) sec (Some (timestamp_New now))
            (Some (timestamp_New (now + ttl m))) hints code ∧
    verificationCode inv = Ok code.
Proof.
  unfold Create. intros HC.
  destruct (validateConnectionHints hints) as [[]|] eqn:Hh; [|done].
  destruct d as [signed|]; [|done].
  destruct (VerifySignedDescriptor signed) as [[]|] eqn:Hv; [|done].
  destruct signed as [signed|]; [|done]. simpl in HC.
  destruct (Signed_Descriptor signed) as [agent|] eqn:Hs; [|done].
  destruct (negb _) eqn:Hc; [done|]. destruct (verificationCode _) as [code|] eqn:Hcode; [|done].
  simplify_eq. exists signed, agent, code. split_and!; try done. lia.
Qed.

Lemma verificationCode_value inv code :
  verificationCode inv = Ok code → ∃ b value,
    invitation_Marshal (inv <| Inv_VerificationCode := EmptyString |>) = Ok b ∧ code = sixDigits value.
Proof. unfold verificationCode. case_match; intros; simplify_eq. eauto. Qed.

Lemma created_validates m hints d id sec now m' inv now' :
  30 * Second <= ttl m <= 15 * Minute → len id = InvitationIDBytes → len sec = BootstrapSecretBytes →
  timely m now → invitation_Size inv <= maxInvitationBytes →
  Create m hints d (Ok id) (Ok sec) now = (m', Ok inv) →
  now - 5 * Minute <= now' < now + ttl m → ValidateInvitation (Some inv) now' = Ok tt.
Proof.
  intros Httl Hid Hsec [Hv1 Hv2] Hsize HC Hnow.
  apply Create_Ok in HC as (signed & agent & code & -> & Hs & Hv & Hc & Hh & Hinv & Hcode).
  unfold ValidateInvitation. rewrite Hcode, Hinv in *. simpl in *.
  replace (invitation_Size _ >? _) with false by lia.
  rewrite Hid, Hsec, Hv, Hs, Hc, Hv1, Hv2, !AsTime_New, Hh. unfold Second, Minute in *. simpl.
  replace (now >? _) with false by lia. replace (_ >? now) with true by lia.
  replace (now + ttl m - now >? _) with false by lia. replace (now' <? _) with true by lia. simpl.
  by rewrite bool_decide_true.
Qed.

(** What a client scans is what the Agent created: for an absolute base URL,
    the invitation [Create] returns can be put into a URL, and [ParseFragmentURL]
    reads exactly this invitation back, at any time from five minutes before its
    creation (a slow clock) up to its expiry. *)
Theorem invitation_scanned_back m hints d id sec now m' inv base u :
  30 * Second <= ttl m <= 15 * Minute → len id = InvitationIDBytes → len sec = BootstrapSecretBytes →
  timely m now → invitation_Size inv <= maxInvitationBytes →
  Create m hints d (Ok id) (Ok sec) now = (m', Ok inv) →
  url_Parse base = Ok u → url_Host u ≠ EmptyString → httpScheme (url_Scheme u) = true →
  url_HasUser u = false → url_RawQuery u = EmptyString → url_Fragment u = EmptyString →
  ∃ link, FragmentURL base (Some inv) = Ok link ∧
    ∀ now', now - 5 * Minute <= now' < now + ttl m → ParseFragmentURL link now' = Ok inv.
Proof.
  intros Httl Hid Hsec Ht Hsize HC Hparse Hhost Hscheme Huser Hquery Hfrag.
  pose proof (fun now' => created_validates _ _ _ _ _ _ _ _ now' Httl Hid Hsec Ht Hsize HC) as Hval.
  apply Create_Ok in HC as (signed & agent & code & _ & _ & _ & _ & _ & Hinv & Hcode).
  destruct (verificationCode_value _ _ Hcode) as (b0 & value & Hb0 & Hvalue).
  assert (∃ b, invitation_Marshal inv = Ok b) as [b Hb].
  { destruct (invitation_code inv b0 value Hb0) as [b Hb]. exists b. rewrite <- Hb, <- Hvalue.
    by subst inv. }
  assert (Inv_CreatedAt inv = Some (timestamp_New now)) as Hcr by by subst inv.
  unfold FragmentURL. rewrite Hcr, AsTime_New, Hval by (unfold Second, Minute in *; lia).
  rewrite Hparse. unfold nonempty. rewrite bool_decide_false, Hscheme, Huser, Hquery, Hfrag by done. simpl.
  rewrite Hb. eexists; split; [done|]. intros now' Hnow'.
  destruct (url_fragment base u (fragmentPrefix ++ RawURL_Encode b) Hparse Hhost Huser Hquery Hfrag)
    as (u' & Hp' & Hhost' & Hscheme' & Huser' & Hquery' & Hfrag').
  { unfold RawURL_Encode, EncodeToString, fragmentPrefix. simpl.
    match goal with |- context [(EmptyString +:+ ?s)%string] => change (EmptyString +:+ s)%string with s end. by rewrite list_ascii_of_string_of_list_ascii, encoded_chars. }
  unfold ParseFragmentURL. rewrite Hp'. unfold nonempty.
  rewrite Hhost', Hscheme', Huser', Hquery', Hfrag', bool_decide_false, Hscheme by done. simpl.
  match goal with |- context [(EmptyString +:+ ?s)%string] => change (EmptyString +:+ s)%string with s end.
  assert (slen (RawURL_Encode b) <= EncodedLen maxInvitationBytes) as Hfits.
  { unfold RawURL_Encode, EncodeToString, slen. rewrite string_length_list. fold (len (encodeChars "-" "_" false b)).
    rewrite encoded_length. apply EncodedLen_mono. rewrite (invitation_size _ _ Hb) in Hsize.
    split; [apply len_nonneg|done]. }
  replace (slen _ >? _) with false by lia.
  unfold RawURL_Decode, RawURL_Encode. rewrite (base64_roundtrip _ _ _ url_alphabet).
  rewrite (invitation_roundtrip _ _ Hb). by rewrite Hval.
Qed.
End Scan.
