(* ===== verification/Handshake.v ===== *)
(** * Authenticated handshakes ([internal/e2ee])

    The Noise XXpsk0 handshake that pairs a device ([pairing.go]), the Noise IK
    handshake of a session with an authorized device ([session.go]) and the
    encrypted transport both end in ([transport.go]).  The Noise library is the
    class [Noise]: a handshake state is a value its operations replace.  Each
    message on the wire has a protobuf codec, [ProtoMsg].  A method gives the new
    state of its object, on every path. *)

From S2P Require Import Prelude.
From S2P Require Import Utf8.
From S2P Require Import Sha256.
From S2P Require Import Envelope.
From S2P Require Import Negotiation.
From S2P Require Import Ticket.
From S2P Require Import DeviceIdentity.
From S2P Require Import Pairing.

Definition noise_MaxMsgLen : Z := 65535.
Definition maxNoiseMessageBytes : Z := noise_MaxMsgLen.
Definition maxTransportPlaintextBytes : Z := noise_MaxMsgLen - 16.
Definition contextSchemaVersion : Z := 1.
Definition pairingPrologueDomain : bytes :=
  bytes_of_string "VibeBridge pairing prologue v1" ++ ["000"%byte].
Definition pairingSASDomain : bytes := bytes_of_string "VibeBridge pairing SAS v1" ++ ["000"%byte].
Definition sessionPrologueDomain : bytes :=
  bytes_of_string "VibeBridge session prologue v1" ++ ["000"%byte].

Definition ErrInvalidHandshake := ErrorString "pairing handshake is invalid".
Definition ErrHandshakeState := ErrorString "pairing handshake is in an invalid state".
Definition ErrInvalidSessionHandshake := ErrorString "session handshake is invalid".
Definition ErrSessionHandshakeState := ErrorString "session handshake is in an invalid state".
Definition ErrSessionAuthorization := ErrorString "session is not authorized".
Definition ErrTransportClosed := ErrorString "encrypted transport is closed".

(** ** The Noise library *)

Inductive HandshakePattern := HandshakeXX | HandshakeIK.

(** [noise.Config]; the cipher suite is fixed. *)
Record NoiseConfig (Reader : Type) := mkNoiseConfig {
  nc_Random : Reader;
  nc_Pattern : HandshakePattern;
  nc_Initiator : bool;
  nc_Prologue : bytes;
  nc_PresharedKey : option bytes;
  nc_StaticPrivate : bytes;
  nc_StaticPublic : bytes;
  nc_PeerStatic : option bytes;
}.
Arguments mkNoiseConfig {Reader} _ _ _ _ _ _ _ _.

(** The cipher states come with the last message: initiator to responder, then
    responder to initiator. *)
Class Noise := {
  Reader : Type;
  HandshakeState : Type;
  CipherState : Type;
  noise_New : NoiseConfig Reader → result HandshakeState;
  noise_WriteMessage : HandshakeState → bytes →
    HandshakeState * result (bytes * option CipherState * option CipherState);
  noise_ReadMessage : HandshakeState → bytes →
    HandshakeState * result (bytes * option CipherState * option CipherState);
  noise_PeerStatic : HandshakeState → bytes;
  noise_ChannelBinding : HandshakeState → bytes;
  cipher_Encrypt : CipherState → bytes → bytes → CipherState * result bytes;
  cipher_Decrypt : CipherState → bytes → bytes → CipherState * result bytes;
  cipher_Nonce : CipherState → Z;
}.

(** The deterministic encoding of a message, its decoding, and whether an
    encoding holds fields the schema does not know. *)
Class ProtoMsg (A : Type) := {
  msg_Marshal : A → result bytes;
  msg_Unmarshal : bytes → result A;
  msg_HasUnknownFields : bytes → bool;
}.

(** ** Messages *)

(** The intent is an open enumeration. *)
Definition INTENT_PAIR_DEVICE : Z := 1.
Definition INTENT_CONTROL_SESSION : Z := 2.

Record HandshakeContext := mkHandshakeContext {
  Ctx_SchemaVersion : Z;
  Ctx_ProtocolVersion : option ProtocolVersion;
  Ctx_InitiatorDeviceId : bytes;
  Ctx_ResponderDeviceId : bytes;
  Ctx_RelayTicketHash : bytes;
  Ctx_Intent : Z;
  Ctx_InvitationId : bytes;
}.

#[global] Instance HandshakeContext_eq_dec : EqDecision HandshakeContext.
Proof. solve_decision. Defined.

Record PairingInitiatorPayload := mkPairingInitiatorPayload { PIP_Client : option SignedDeviceDescriptor }.
Record PairingResponderPayload := mkPairingResponderPayload { PRP_Agent : option SignedDeviceDescriptor }.
Record PairingFinishPayload := mkPairingFinishPayload { PFP_InitiatorDeviceId : bytes }.
Record SessionInitiatorPayload := mkSessionInitiatorPayload {
  SIP_Client : option SignedDeviceDescriptor;
  SIP_KnownRevocationEpoch : Z;
  SIP_Capabilities : list string;
}.
Record SessionResponderPayload := mkSessionResponderPayload {
  SRP_Agent : option SignedDeviceDescriptor;
  SRP_RevocationEpoch : Z;
}.

(** [PairingHandshakeStart] and [SessionHandshakeStart]; the other messages are
    their Noise message. *)
Record HandshakeStart := mkHandshakeStart {
  Start_Context : option HandshakeContext;
  Start_NoiseMessage : bytes;
}.

Section Handshake.
Context {crypto : IdentityCrypto} {noise : Noise}.
Context `{!ProtoMsg HandshakeContext} `{!ProtoMsg PairingInitiatorPayload}
  `{!ProtoMsg PairingResponderPayload} `{!ProtoMsg PairingFinishPayload}
  `{!ProtoMsg SessionInitiatorPayload} `{!ProtoMsg SessionResponderPayload}.

(** ** The transport *)

(** The cipher states, or nil after [Close] or a failure. *)
Record Transport := mkTransport {
  tr_send : option CipherState;
  tr_receive : option CipherState;
}.

Definition newTransport (send receive : CipherState) : Transport := mkTransport (Some send) (Some receive).
Definition closedTransport : Transport := mkTransport None None.

Definition Encrypt (t : Transport) (plaintext associatedData : bytes) : Transport * result bytes :=
  match tr_send t, tr_receive t with
  | Some send, Some receive =>
      if len plaintext >? maxTransportPlaintextBytes then
        (t, Err (ErrorString "encrypted transport plaintext is too large"))
      else
        let '(send, r) := cipher_Encrypt send associatedData plaintext in
        (mkTransport (Some send) (Some receive), r)
  | _, _ => (t, Err ErrTransportClosed)
  end.

Definition Decrypt (t : Transport) (ciphertext associatedData : bytes) : Transport * result bytes :=
  match tr_send t, tr_receive t with
  | Some send, Some receive =>
      if (len ciphertext <? 16) || (len ciphertext >? noise_MaxMsgLen) then
        (closedTransport, Err (ErrorString "encrypted transport ciphertext has invalid size"))
      else match cipher_Decrypt receive associatedData ciphertext with
      | (_, Err _) => (closedTransport, Err (ErrorString "encrypted transport authentication failed"))
      | (receive, Ok plaintext) => (mkTransport (Some send) (Some receive), Ok plaintext)
      end
  | _, _ => (t, Err ErrTransportClosed)
  end.

Definition SendCounter (t : Transport) : result Z :=
  match tr_send t, tr_receive t with
  | Some send, Some _ => Ok (cipher_Nonce send)
  | _, _ => Err ErrTransportClosed
  end.

Definition ReceiveCounter (t : Transport) : result Z :=
  match tr_send t, tr_receive t with
  | Some _, Some receive => Ok (cipher_Nonce receive)
  | _, _ => Err ErrTransportClosed
  end.

Definition Transport_Close (t : Transport) : Transport := closedTransport.

(** ** Contexts and descriptors *)

Definition validateContext (intent idBytes : Z) (message : string) (context : option HandshakeContext)
    : result unit :=
  match context with
  | None => Err (ErrorString message)
  | Some c =>
      match Ctx_ProtocolVersion c with
      | None => Err (ErrorString message)
      | Some version =>
          if negb (Ctx_SchemaVersion c =? contextSchemaVersion) ||
             negb (Version_Major version =? CurrentMajor) || negb (Version_Minor version =? CurrentMinor) ||
             negb (len (Ctx_InitiatorDeviceId c) =? DeviceIDBytes) ||
             negb (len (Ctx_ResponderDeviceId c) =? DeviceIDBytes) ||
             bool_decide (Ctx_InitiatorDeviceId c = Ctx_ResponderDeviceId c) ||
             negb (len (Ctx_RelayTicketHash c) =? sha256_Size) ||
             negb (Ctx_Intent c =? intent) || negb (len (Ctx_InvitationId c) =? idBytes) then
            Err (ErrorString message)
          else Ok tt
      end
  end.

Definition validatePairingContext : option HandshakeContext → result unit :=
  validateContext INTENT_PAIR_DEVICE InvitationIDBytes "pairing handshake context is invalid".
Definition validateSessionContext : option HandshakeContext → result unit :=
  validateContext INTENT_CONTROL_SESSION 0 "session handshake context is invalid".

Definition currentVersion : ProtocolVersion := mkProtocolVersion CurrentMajor CurrentMinor.

Definition NewPairingContext (initiatorDeviceID responderDeviceID invitationID relayTicket : bytes)
    : result HandshakeContext :=
  let context := mkHandshakeContext contextSchemaVersion (Some currentVersion) initiatorDeviceID
                   responderDeviceID (Sum256 relayTicket) INTENT_PAIR_DEVICE invitationID in
  match validatePairingContext (Some context) with Err e => Err e | Ok _ => Ok context end.

Definition NewSessionContext (initiatorDeviceID responderDeviceID relayTicket : bytes)
    : result HandshakeContext :=
  let context := mkHandshakeContext contextSchemaVersion (Some currentVersion) initiatorDeviceID
                   responderDeviceID (Sum256 relayTicket) INTENT_CONTROL_SESSION [] in
  match validateSessionContext (Some context) with Err e => Err e | Ok _ => Ok context end.

Definition errDescriptor (signed : option SignedDeviceDescriptor) : result unit :=
  match VerifySignedDescriptor signed with
  | Err e => Err (ErrorWrap "verify signed device descriptor" e)
  | Ok _ => Ok tt
  end.

Definition descriptorSupportsVersion (signed : option SignedDeviceDescriptor)
    (version : option ProtocolVersion) : bool :=
  match signed ≫= Signed_Descriptor, version with
  | Some d, Some v =>
      match Desc_SupportedVersions d with
      | Some (mkProtocolVersionRange (Some minimum) (Some maximum)) =>
          (Version_Major minimum =? Version_Major v) && (Version_Major maximum =? Version_Major v) &&
          (Version_Minor minimum <=? Version_Minor v) && (Version_Minor v <=? Version_Minor maximum)
      | _ => false
      end
  | _, _ => false
  end.

Definition validatePeerDescriptor (signed : option SignedDeviceDescriptor) (class : Z) (deviceID : bytes)
    (version : option ProtocolVersion) : result unit :=
  match errDescriptor signed, signed ≫= Signed_Descriptor with
  | Err e, _ => Err e
  | Ok _, None => Err nilPointer
  | Ok _, Some d =>
      if negb (Desc_DeviceClass d =? class) || negb (bool_decide (Desc_DeviceId d = deviceID)) ||
         negb (descriptorSupportsVersion signed version) then
        Err (ErrorString "peer descriptor does not match the handshake context")
      else Ok tt
  end.

Definition checkedStaticKey (private expectedPublic : bytes) : result bytes :=
  if negb (len private =? KeyAgreementBytes) then
    Err (ErrorString "static private key must be 32 bytes")
  else if negb (x25519_PrivateKey private) || negb (bool_decide (x25519_Public private = expectedPublic)) then
    Err (ErrorString "static private key does not match the signed descriptor")
  else Ok private.

(** [marshalDeterministic] and [marshalSessionDeterministic]. *)
Definition marshalBounded {A} `{ProtoMsg A} (kind : string) (message : A) : result bytes :=
  match msg_Marshal message with
  | Err e => Err (ErrorWrap ("encode " ++ kind ++ " handshake payload") e)
  | Ok encoded =>
      if len encoded >? maxNoiseMessageBytes then
        Err (ErrorString (kind ++ " handshake payload is too large"))
      else Ok encoded
  end.

(** [unmarshalBounded] and [unmarshalSessionBounded]; every caller hides the
    error. *)
Definition unmarshalBounded {A} `{ProtoMsg A} (encoded : bytes) : option A :=
  if (len encoded =? 0) || (len encoded >? maxNoiseMessageBytes) then None
  else match msg_Unmarshal encoded with
  | Err _ => None
  | Ok message => if msg_HasUnknownFields (A := A) encoded then None else Some message
  end.

Definition pairingPrologue (context : HandshakeContext) : result bytes :=
  match validatePairingContext (Some context) with
  | Err e => Err e
  | Ok _ => encoded ← marshalBounded "pairing" context; Ok (pairingPrologueDomain ++ encoded)
  end.

Definition sessionPrologue (context : HandshakeContext) : result bytes :=
  match validateSessionContext (Some context) with
  | Err e => Err e
  | Ok _ => encoded ← marshalBounded "session" context; Ok (sessionPrologueDomain ++ encoded)
  end.

(** [binary.BigEndian.Uint64] of the first eight bytes. *)
Definition uint64_of (b : bytes) : Z := foldl (fun n x => n * 256 + byte_val x) 0 (take 8 b).

Definition pairingSAS (handshakeHash : bytes) : string :=
  sixDigits (uint64_of (Sum256 (pairingSASDomain ++ handshakeHash)) mod 1000000).

(** ** Pairing: XXpsk0 *)

Record PairingResult := mkPairingResult {
  PR_Peer : SignedDeviceDescriptor;
  PR_SAS : string;
  PR_HandshakeHash : bytes;
  PR_Transport : Transport;
}.

Definition pairingResult (peer : SignedDeviceDescriptor) (hash : bytes) (send receive : option CipherState)
    : result PairingResult :=
  match send, receive with
  | Some send, Some receive =>
      if negb (len hash =? 64) then Err ErrInvalidHandshake
      else Ok (mkPairingResult peer (pairingSAS hash) hash (newTransport send receive))
  | _, _ => Err ErrInvalidHandshake
  end.

(** The fields of a descriptor; the callers have verified that it is there. *)
Definition keyOf (s : SignedDeviceDescriptor) : bytes :=
  default [] (Desc_KeyAgreementPublicKey <$> Signed_Descriptor s).
Definition idOf (s : SignedDeviceDescriptor) : bytes := default [] (Desc_DeviceId <$> Signed_Descriptor s).
Definition classOf (s : SignedDeviceDescriptor) : Z := default 0 (Desc_DeviceClass <$> Signed_Descriptor s).
Definition signingKeyOf (s : SignedDeviceDescriptor) : bytes :=
  default [] (Desc_SigningPublicKey <$> Signed_Descriptor s).
Definition keyVersionOf (s : SignedDeviceDescriptor) : Z :=
  default 0 (Desc_KeyVersion <$> Signed_Descriptor s).

Inductive initiatorState := initiatorReady | initiatorAwaitingResponse | initiatorComplete | initiatorFailed.
Inductive responderState := responderAwaitingFinish | responderComplete | responderFailed.

#[global] Instance initiatorState_eq_dec : EqDecision initiatorState.
Proof. solve_decision. Defined.
#[global] Instance responderState_eq_dec : EqDecision responderState.
Proof. solve_decision. Defined.

Record PairingInitiatorConfig := mkPairingInitiatorConfig {
  PIC_Context : option HandshakeContext;
  PIC_Client : option SignedDeviceDescriptor;
  PIC_Agent : option SignedDeviceDescriptor;
  PIC_StaticPrivateKey : bytes;
  PIC_BootstrapSecret : bytes;
  PIC_Random : Reader;
}.

Record PairingInitiator := mkPairingInitiator {
  pi_handshake : option HandshakeState;
  pi_context : HandshakeContext;
  pi_client : SignedDeviceDescriptor;
  pi_agent : SignedDeviceDescriptor;
  pi_private : bytes;
  pi_state : initiatorState;
}.

#[global] Instance PairingInitiator_eta : Eta PairingInitiator := fun i =>
  mkPairingInitiator (pi_handshake i) (pi_context i) (pi_client i) (pi_agent i) (pi_private i) (pi_state i).

Definition validatePairingConfig (context : option HandshakeContext)
    (client agent : option SignedDeviceDescriptor) (private secret : bytes) : result unit :=
  match validatePairingContext context with Err e => Err e | Ok _ =>
  match errDescriptor client with Err e => Err e | Ok _ =>
  match errDescriptor agent with Err e => Err e | Ok _ =>
    if negb (len private =? KeyAgreementBytes) then Err (ErrorString "static private key must be 32 bytes")
    else if negb (len secret =? BootstrapSecretBytes) then
      Err (ErrorString "bootstrap secret must be 32 bytes")
    else Ok tt
  end end end.

Definition NewPairingInitiator (config : PairingInitiatorConfig) : result PairingInitiator :=
  match validatePairingConfig (PIC_Context config) (PIC_Client config) (PIC_Agent config)
          (PIC_StaticPrivateKey config) (PIC_BootstrapSecret config),
        PIC_Context config, PIC_Client config, PIC_Agent config with
  | Err e, _, _, _ => Err e
  | Ok _, Some context, Some client, Some agent =>
      if negb (classOf client =? DEVICE_CLASS_CLIENT) || negb (classOf agent =? DEVICE_CLASS_AGENT) then
        Err (ErrorString "pairing descriptors have invalid device classes")
      else if negb (descriptorSupportsVersion (Some client) (Ctx_ProtocolVersion context)) ||
              negb (descriptorSupportsVersion (Some agent) (Ctx_ProtocolVersion context)) then
        Err (ErrorString "pairing descriptor does not support the handshake protocol version")
      else if negb (bool_decide (Ctx_InitiatorDeviceId context = idOf client)) ||
              negb (bool_decide (Ctx_ResponderDeviceId context = idOf agent)) then
        Err (ErrorString "pairing context device IDs do not match descriptors")
      else match checkedStaticKey (PIC_StaticPrivateKey config) (keyOf client) with
      | Err e => Err e
      | Ok privateKey =>
          match pairingPrologue context with
          | Err e => Err e
          | Ok prologue =>
              match noise_New (mkNoiseConfig (PIC_Random config) HandshakeXX true prologue
                      (Some (PIC_BootstrapSecret config)) privateKey (keyOf client) None) with
              | Err e => Err (ErrorWrap "initialize pairing handshake" e)
              | Ok hs => Ok (mkPairingInitiator (Some hs) context client agent privateKey initiatorReady)
              end
          end
      end
  | Ok _, _, _, _ => Err nilPointer
  end.

Definition pi_clear (i : PairingInitiator) : PairingInitiator :=
  i <| pi_private := [] |> <| pi_handshake := None |>.
Definition pi_fail (i : PairingInitiator) : PairingInitiator := pi_clear (i <| pi_state := initiatorFailed |>).

Definition PairingInitiator_Start (i : PairingInitiator) : PairingInitiator * result HandshakeStart :=
  match pi_state i, pi_handshake i with
  | initiatorReady, Some hs =>
      match marshalBounded "pairing" (mkPairingInitiatorPayload (Some (pi_client i))) with
      | Err e => (pi_fail i, Err e)
      | Ok payload =>
          match noise_WriteMessage hs payload with
          | (_, Err _) => (pi_fail i, Err ErrInvalidHandshake)
          | (hs, Ok (message, _, _)) =>
              if len message >? maxNoiseMessageBytes then (pi_fail i, Err ErrInvalidHandshake)
              else (i <| pi_handshake := Some hs |> <| pi_state := initiatorAwaitingResponse |>,
                    Ok (mkHandshakeStart (Some (pi_context i)) message))
          end
      end
  | _, _ => (i, Err ErrHandshakeState)
  end.

(** A Noise message a method refuses without reading it. *)
Definition badMessage (message : option bytes) : bool :=
  match message with
  | None => true
  | Some m => (len m =? 0) || (len m >? maxNoiseMessageBytes)
  end.

Definition PairingInitiator_Finish (i : PairingInitiator) (response : option bytes)
    : PairingInitiator * result (PairingResult * bytes) :=
  match pi_state i, pi_handshake i with
  | initiatorAwaitingResponse, Some hs =>
      let invalid := (pi_fail i, Err ErrInvalidHandshake) in
      if badMessage response then invalid
      else match noise_ReadMessage hs (default [] response) with
      | (hs, Ok (payloadBytes, None, None)) =>
          if negb (bool_decide (noise_PeerStatic hs = keyOf (pi_agent i))) then invalid
          else match unmarshalBounded (A := PairingResponderPayload) payloadBytes with
          | Some (mkPairingResponderPayload (Some agent)) =>
              if negb (bool_decide (agent = pi_agent i)) then invalid
              else match validatePeerDescriptor (Some agent) DEVICE_CLASS_AGENT
                           (Ctx_ResponderDeviceId (pi_context i)) (Ctx_ProtocolVersion (pi_context i)) with
              | Err _ => invalid
              | Ok _ =>
                  match marshalBounded "pairing"
                          (mkPairingFinishPayload (Ctx_InitiatorDeviceId (pi_context i))) with
                  | Err e => (pi_fail i, Err e)
                  | Ok finishPayload =>
                      match noise_WriteMessage hs finishPayload with
                      | (hs, Ok (message, Some send, Some receive)) =>
                          if len message >? maxNoiseMessageBytes then invalid
                          else match pairingResult (pi_agent i) (noise_ChannelBinding hs)
                                       (Some send) (Some receive) with
                          | Err e => (pi_fail i, Err e)
                          | Ok result => (pi_clear (i <| pi_state := initiatorComplete |>),
                                          Ok (result, message))
                          end
                      | _ => invalid
                      end
                  end
              end
          | _ => invalid
          end
      | _ => invalid
      end
  | _, _ => (i, Err ErrHandshakeState)
  end.

Record PairingResponderConfig := mkPairingResponderConfig {
  PRC_ExpectedContext : option HandshakeContext;
  PRC_Agent : option SignedDeviceDescriptor;
  PRC_StaticPrivateKey : bytes;
  PRC_BootstrapSecret : bytes;
  PRC_Random : Reader;
}.

Record PairingResponder := mkPairingResponder {
  pr_handshake : option HandshakeState;
  pr_context : HandshakeContext;
  pr_client : SignedDeviceDescriptor;
  pr_private : bytes;
  pr_state : responderState;
}.

#[global] Instance PairingResponder_eta : Eta PairingResponder := fun r =>
  mkPairingResponder (pr_handshake r) (pr_context r) (pr_client r) (pr_private r) (pr_state r).

Definition AcceptPairingStart (config : PairingResponderConfig) (start : option HandshakeStart)
    : result (PairingResponder * bytes * SignedDeviceDescriptor) :=
  match start, PRC_ExpectedContext config with
  | Some (mkHandshakeStart (Some startContext) message), Some context =>
      if badMessage (Some message) || negb (bool_decide (context = startContext)) ||
         negb (is_ok (validatePairingContext (Some context))) || negb (is_ok (errDescriptor (PRC_Agent config)))
      then Err ErrInvalidHandshake
      else match PRC_Agent config with
      | None => Err nilPointer
      | Some agent =>
          if negb (classOf agent =? DEVICE_CLASS_AGENT) ||
             negb (descriptorSupportsVersion (Some agent) (Ctx_ProtocolVersion context)) ||
             negb (bool_decide (Ctx_ResponderDeviceId context = idOf agent)) ||
             negb (len (PRC_BootstrapSecret config) =? BootstrapSecretBytes) then Err ErrInvalidHandshake
          else match checkedStaticKey (PRC_StaticPrivateKey config) (keyOf agent) with
          | Err e => Err e
          | Ok privateKey =>
              match pairingPrologue context with
              | Err e => Err e
              | Ok prologue =>
                  match noise_New (mkNoiseConfig (PRC_Random config) HandshakeXX false prologue
                          (Some (PRC_BootstrapSecret config)) privateKey (keyOf agent) None) with
                  | Err e => Err (ErrorWrap "initialize pairing handshake" e)
                  | Ok hs =>
                      match noise_ReadMessage hs message with
                      | (hs, Ok (payloadBytes, None, None)) =>
                          match unmarshalBounded (A := PairingInitiatorPayload) payloadBytes with
                          | Some (mkPairingInitiatorPayload (Some client)) =>
                              if negb (is_ok (validatePeerDescriptor (Some client) DEVICE_CLASS_CLIENT
                                        (Ctx_InitiatorDeviceId context) (Ctx_ProtocolVersion context)))
                              then Err ErrInvalidHandshake
                              else match marshalBounded "pairing" (mkPairingResponderPayload (Some agent)) with
                              | Err e => Err e
                              | Ok responsePayload =>
                                  match noise_WriteMessage hs responsePayload with
                                  | (hs, Ok (response, None, None)) =>
                                      if len response >? maxNoiseMessageBytes then Err ErrInvalidHandshake
                                      else Ok (mkPairingResponder (Some hs) context client privateKey
                                                 responderAwaitingFinish, response, client)
                                  | _ => Err ErrInvalidHandshake
                                  end
                              end
                          | _ => Err ErrInvalidHandshake
                          end
                      | _ => Err ErrInvalidHandshake
                      end
                  end
              end
          end
      end
  | _, _ => Err ErrInvalidHandshake
  end.

Definition pr_clear (r : PairingResponder) : PairingResponder :=
  r <| pr_private := [] |> <| pr_handshake := None |>.
Definition pr_fail (r : PairingResponder) : PairingResponder := pr_clear (r <| pr_state := responderFailed |>).

Definition PairingResponder_Close (r : PairingResponder) : PairingResponder :=
  if negb (bool_decide (pr_state r = responderComplete)) then pr_fail r else r.

Definition PairingResponder_Finish (r : PairingResponder) (finish : option bytes)
    : PairingResponder * result PairingResult :=
  match pr_state r, pr_handshake r with
  | responderAwaitingFinish, Some hs =>
      let invalid := (pr_fail r, Err ErrInvalidHandshake) in
      if badMessage finish then invalid
      else match noise_ReadMessage hs (default [] finish) with
      | (hs, Ok (payloadBytes, Some initiatorSend, Some initiatorReceive)) =>
          if negb (bool_decide (noise_PeerStatic hs = keyOf (pr_client r))) then invalid
          else match unmarshalBounded (A := PairingFinishPayload) payloadBytes with
          | Some payload =>
              if negb (bool_decide (PFP_InitiatorDeviceId payload = Ctx_InitiatorDeviceId (pr_context r)))
              then invalid
              else match pairingResult (pr_client r) (noise_ChannelBinding hs)
                           (Some initiatorReceive) (Some initiatorSend) with
              | Err e => (pr_fail r, Err e)
              | Ok result => (pr_clear (r <| pr_state := responderComplete |>), Ok result)
              end
          | None => invalid
          end
      | _ => invalid
      end
  | _, _ => (r, Err ErrHandshakeState)
  end.

(** ** Sessions: IK *)

(** What the session asks of the authorization graph. *)
Record Authorizer := mkAuthorizer {
  AuthorizedDeviceOf : bytes → result AuthorizedDevice;
  CurrentRevocationEpoch : Z;
}.

Definition storeAuthorizer (store : Store) : Authorizer :=
  mkAuthorizer (AuthorizedDevice_lookup store) (RevocationEpoch store).

Record SessionResult := mkSessionResult {
  SR_Peer : SignedDeviceDescriptor;
  SR_AuthorizationVersion : Z;
  SR_RevocationEpoch : Z;
  SR_Capabilities : list string;
  SR_HandshakeHash : bytes;
  SR_Transport : Transport;
}.

(** [sessionResult] leaves the authorization version at zero. *)
Definition sessionResult (peer : SignedDeviceDescriptor) (hash : bytes) (send receive : option CipherState)
    (epoch : Z) (caps : list string) : result SessionResult :=
  match send, receive with
  | Some send, Some receive =>
      if negb (len hash =? 64) then Err ErrInvalidSessionHandshake
      else Ok (mkSessionResult peer 0 epoch caps hash (newTransport send receive))
  | _, _ => Err ErrInvalidSessionHandshake
  end.

Record SessionInitiatorConfig := mkSessionInitiatorConfig {
  SIC_Context : option HandshakeContext;
  SIC_Client : option SignedDeviceDescriptor;
  SIC_Agent : option SignedDeviceDescriptor;
  SIC_StaticPrivateKey : bytes;
  SIC_KnownEpoch : Z;
  SIC_Capabilities : list string;
  SIC_Random : Reader;
}.

Record SessionInitiator := mkSessionInitiator {
  si_handshake : option HandshakeState;
  si_context : HandshakeContext;
  si_client : SignedDeviceDescriptor;
  si_agent : SignedDeviceDescriptor;
  si_known : Z;
  si_caps : list string;
  si_private : bytes;
  si_state : initiatorState;
}.

#[global] Instance SessionInitiator_eta : Eta SessionInitiator := fun i =>
  mkSessionInitiator (si_handshake i) (si_context i) (si_client i) (si_agent i) (si_known i) (si_caps i)
    (si_private i) (si_state i).

Definition validateSessionInitiatorConfig (config : SessionInitiatorConfig) : result unit :=
  match validateSessionContext (SIC_Context config) with Err e => Err e | Ok _ =>
  match errDescriptor (SIC_Client config) with Err e => Err e | Ok _ =>
  match errDescriptor (SIC_Agent config) with Err e => Err e | Ok _ =>
    if negb (len (SIC_StaticPrivateKey config) =? KeyAgreementBytes) then
      Err (ErrorString "static private key must be 32 bytes")
    else Ok tt
  end end end.

Definition NewSessionInitiator (config : SessionInitiatorConfig) : result SessionInitiator :=
  match validateSessionInitiatorConfig config, SIC_Context config, SIC_Client config, SIC_Agent config with
  | Err e, _, _, _ => Err e
  | Ok _, Some context, Some client, Some agent =>
      if negb (classOf client =? DEVICE_CLASS_CLIENT) || negb (classOf agent =? DEVICE_CLASS_AGENT) then
        Err (ErrorString "session descriptors have invalid device classes")
      else if negb (descriptorSupportsVersion (Some client) (Ctx_ProtocolVersion context)) ||
              negb (descriptorSupportsVersion (Some agent) (Ctx_ProtocolVersion context)) then
        Err (ErrorString "session descriptor does not support the handshake protocol version")
      else if negb (bool_decide (Ctx_InitiatorDeviceId context = idOf client)) ||
              negb (bool_decide (Ctx_ResponderDeviceId context = idOf agent)) then
        Err (ErrorString "session context device IDs do not match descriptors")
      else match checkedStaticKey (SIC_StaticPrivateKey config) (keyOf client) with
      | Err e => Err e
      | Ok privateKey =>
          match sessionPrologue context with
          | Err e => Err e
          | Ok prologue =>
              match noise_New (mkNoiseConfig (SIC_Random config) HandshakeIK true prologue None
                      privateKey (keyOf client) (Some (keyOf agent))) with
              | Err e => Err (ErrorWrap "initialize session handshake" e)
              | Ok hs => Ok (mkSessionInitiator (Some hs) context client agent (SIC_KnownEpoch config)
                               (SIC_Capabilities config) privateKey initiatorReady)
              end
          end
      end
  | Ok _, _, _, _ => Err nilPointer
  end.

Definition si_clear (i : SessionInitiator) : SessionInitiator :=
  i <| si_private := [] |> <| si_handshake := None |>.
Definition si_fail (i : SessionInitiator) : SessionInitiator := si_clear (i <| si_state := initiatorFailed |>).

Definition SessionInitiator_Start (i : SessionInitiator) : SessionInitiator * result HandshakeStart :=
  match si_state i, si_handshake i with
  | initiatorReady, Some hs =>
      match marshalBounded "session"
              (mkSessionInitiatorPayload (Some (si_client i)) (si_known i) (si_caps i)) with
      | Err e => (si_fail i, Err e)
      | Ok payload =>
          match noise_WriteMessage hs payload with
          | (_, Err _) => (si_fail i, Err ErrInvalidSessionHandshake)
          | (hs, Ok (message, _, _)) =>
              if len message >? maxNoiseMessageBytes then (si_fail i, Err ErrInvalidSessionHandshake)
              else (i <| si_handshake := Some hs |> <| si_state := initiatorAwaitingResponse |>,
                    Ok (mkHandshakeStart (Some (si_context i)) message))
          end
      end
  | _, _ => (i, Err ErrSessionHandshakeState)
  end.

Definition SessionInitiator_Finish (i : SessionInitiator) (response : option bytes)
    : SessionInitiator * result SessionResult :=
  match si_state i, si_handshake i with
  | initiatorAwaitingResponse, Some hs =>
      let invalid := (si_fail i, Err ErrInvalidSessionHandshake) in
      if badMessage response then invalid
      else match noise_ReadMessage hs (default [] response) with
      | (hs, Ok (payloadBytes, Some send, Some receive)) =>
          if negb (bool_decide (noise_PeerStatic hs = keyOf (si_agent i))) then invalid
          else match unmarshalBounded (A := SessionResponderPayload) payloadBytes with
          | Some (mkSessionResponderPayload (Some agent) epoch) =>
              if negb (bool_decide (agent = si_agent i)) then invalid
              else match validatePeerDescriptor (Some agent) DEVICE_CLASS_AGENT
                           (Ctx_ResponderDeviceId (si_context i)) (Ctx_ProtocolVersion (si_context i)) with
              | Err _ => invalid
              | Ok _ =>
                  match sessionResult (si_agent i) (noise_ChannelBinding hs) (Some send) (Some receive)
                          epoch (si_caps i) with
                  | Err e => (si_fail i, Err e)
                  | Ok result => (si_clear (i <| si_state := initiatorComplete |>), Ok result)
                  end
              end
          | _ => invalid
          end
      | _ => invalid
      end
  | _, _ => (i, Err ErrSessionHandshakeState)
  end.

Definition SessionInitiator_Close (i : SessionInitiator) : SessionInitiator :=
  if negb (bool_decide (si_state i = initiatorComplete)) then si_fail i else i.

(** A responder is built in its final state, [sessionResponderComplete]. *)
Record SessionResponder := mkSessionResponder {
  sr_handshake : HandshakeState;
  sr_context : HandshakeContext;
  sr_client : SignedDeviceDescriptor;
  sr_authorized : AuthorizedDevice;
  sr_capabilities : list string;
  sr_send : CipherState;
  sr_receive : CipherState;
  sr_private : bytes;
}.

Record SessionResponderConfig := mkSessionResponderConfig {
  SRC_Authorizer : option Authorizer;
  SRC_Agent : option SignedDeviceDescriptor;
  SRC_StaticPrivateKey : bytes;
  SRC_Random : Reader;
}.

(** The checks of [AcceptSessionStart] on the client's payload. *)
Definition checkSessionClient (auth : Authorizer) (context : HandshakeContext) (authorized : AuthorizedDevice)
    (payload : option SessionInitiatorPayload) : result (SignedDeviceDescriptor * list string) :=
  match payload with
  | Some (mkSessionInitiatorPayload (Some client) known caps) =>
      if negb (is_ok (validatePeerDescriptor (Some client) DEVICE_CLASS_CLIENT
                (Ctx_InitiatorDeviceId context) (Ctx_ProtocolVersion context)))
      then Err ErrInvalidSessionHandshake
      else if negb (bool_decide (keyOf client = keyOf (View_Device authorized))) ||
              negb (bool_decide (idOf client = idOf (View_Device authorized))) ||
              (keyVersionOf client <? keyVersionOf (View_Device authorized)) ||
              negb (bool_decide (signingKeyOf client = signingKeyOf (View_Device authorized))) ||
              (known >? CurrentRevocationEpoch auth)
      then Err ErrSessionAuthorization
      else Ok (client, caps)
  | _ => Err ErrInvalidSessionHandshake
  end.

Definition AcceptSessionStart (config : SessionResponderConfig) (start : option HandshakeStart)
    : result (SessionResponder * bytes * SignedDeviceDescriptor) :=
  match start with
  | Some (mkHandshakeStart (Some context) message) =>
      if badMessage (Some message) || negb (is_ok (validateSessionContext (Some context))) then
        Err ErrInvalidSessionHandshake
      else match SRC_Authorizer config with
      | None => Err ErrSessionAuthorization
      | Some auth =>
          if negb (is_ok (errDescriptor (SRC_Agent config))) then Err ErrInvalidSessionHandshake
          else match SRC_Agent config with
          | None => Err nilPointer
          | Some agent =>
              if negb (classOf agent =? DEVICE_CLASS_AGENT) ||
                 negb (descriptorSupportsVersion (Some agent) (Ctx_ProtocolVersion context)) ||
                 negb (bool_decide (Ctx_ResponderDeviceId context = idOf agent)) then
                Err ErrInvalidSessionHandshake
              else match checkedStaticKey (SRC_StaticPrivateKey config) (keyOf agent) with
              | Err e => Err e
              | Ok privateKey =>
                  match AuthorizedDeviceOf auth (Ctx_InitiatorDeviceId context) with
                  | Err _ => Err ErrSessionAuthorization
                  | Ok authorized =>
                      if (View_State authorized =? STATE_REVOKED) ||
                         negb (bool_decide (is_Some (Signed_Descriptor (View_Device authorized)))) then
                        Err ErrSessionAuthorization
                      else match sessionPrologue context with
                      | Err e => Err e
                      | Ok prologue =>
                          match noise_New (mkNoiseConfig (SRC_Random config) HandshakeIK false prologue None
                                  privateKey (keyOf agent) None) with
                          | Err e => Err (ErrorWrap "initialize session handshake" e)
                          | Ok hs =>
                              match noise_ReadMessage hs message with
                              | (_, Err _) => Err ErrInvalidSessionHandshake
                              | (hs, Ok (payloadBytes, _, _)) =>
                                  match checkSessionClient auth context authorized
                                          (unmarshalBounded payloadBytes) with
                                  | Err e => Err e
                                  | Ok (client, caps) =>
                                      match marshalBounded "session" (mkSessionResponderPayload (Some agent)
                                              (CurrentRevocationEpoch auth)) with
                                      | Err e => Err e
                                      | Ok responsePayload =>
                                          match noise_WriteMessage hs responsePayload with
                                          | (hs, Ok (response, Some send, Some receive)) =>
                                              if len response >? maxNoiseMessageBytes then
                                                Err ErrInvalidSessionHandshake
                                              else Ok (mkSessionResponder hs context client authorized caps
                                                         receive send privateKey, response, client)
                                          | _ => Err ErrInvalidSessionHandshake
                                          end
                                      end
                                  end
                              end
                          end
                      end
                  end
              end
          end
      end
  | _ => Err ErrInvalidSessionHandshake
  end.

Record SessionView := mkSessionView {
  SV_Peer : SignedDeviceDescriptor;
  SV_AuthorizationVersion : Z;
  SV_RevocationEpoch : Z;
  SV_Capabilities : list string;
  SV_HandshakeHash : bytes;
  SV_Transport : Transport;
}.

Definition SessionResponder_View (r : SessionResponder) : SessionView :=
  mkSessionView (sr_client r) (View_AuthorizationVersion (sr_authorized r))
    (View_RevocationEpoch (sr_authorized r)) (sr_capabilities r) (noise_ChannelBinding (sr_handshake r))
    (newTransport (sr_send r) (sr_receive r)).

(** [Close] spares a completed responder, and there is no other. *)
Definition SessionResponder_Close (r : SessionResponder) : SessionResponder := r.
End Handshake.

Arguments validateContext : simpl never.
Arguments errDescriptor : simpl never.
Arguments validatePeerDescriptor : simpl never.
Arguments checkedStaticKey : simpl never.
Arguments pairingPrologue : simpl never.
Arguments sessionPrologue : simpl never.
Arguments AcceptPairingStart : simpl never.
Arguments AcceptSessionStart : simpl never.
