(* ===== verification/HandshakeFacts.v ===== *)
(** * Authenticated handshakes: whom they admit

    What a completed pairing and an accepted session say about the peer, how the
    two ends' transports fit, what a failed transport still does, and what the
    session's responder does not check. *)

From S2P Require Import Prelude.
From S2P Require Import Ticket.
From S2P Require Import DeviceIdentity.
From S2P Require Import DeviceIdentityFacts.
From S2P Require Import Pairing.
From S2P Require Import Handshake.

Section Handshakes.
Context {crypto : IdentityCrypto} {noise : Noise}.
Context `{!ProtoMsg HandshakeContext} `{!ProtoMsg PairingInitiatorPayload}
  `{!ProtoMsg PairingResponderPayload} `{!ProtoMsg PairingFinishPayload}
  `{!ProtoMsg SessionInitiatorPayload} `{!ProtoMsg SessionResponderPayload}.

(** ** Peers *)

(** A verified descriptor of the device with this identifier. *)
Definition Genuine (s : SignedDeviceDescriptor) (class : Z) (id : bytes) : Prop :=
  VerifySignedDescriptor (Some s) = Ok tt ∧ classOf s = class ∧ idOf s = id.

Lemma validatePeer_Genuine s class id version :
  is_ok (validatePeerDescriptor (Some s) class id version) = true → Genuine s class id.
Proof.
  unfold validatePeerDescriptor, errDescriptor, Genuine, classOf, idOf. intros Hok.
  destruct (VerifySignedDescriptor (Some s)) as [[]|]; [|done]. simpl in *.
  destruct (Signed_Descriptor s); [|done]. destruct (_ || _) eqn:Hc; [done|]. split_bool.
  split_and!; [done|simpl; lia|done].
Qed.

Lemma AcceptPairingStart_Ok config start r response client :
  AcceptPairingStart config start = Ok (r, response, client) →
  ∃ context message hs, start = Some (mkHandshakeStart (Some context) message) ∧
    PRC_ExpectedContext config = Some context ∧
    Genuine client DEVICE_CLASS_CLIENT (Ctx_InitiatorDeviceId context) ∧
    r = mkPairingResponder (Some hs) context client (PRC_StaticPrivateKey config) responderAwaitingFinish.
Proof.
  unfold AcceptPairingStart, checkedStaticKey. intros HA.
  destruct start as [[[context|] message]|]; try done.
  destruct (PRC_ExpectedContext config) as [expected|] eqn:Hexp; [|done].
  destruct (_ || _) eqn:Hg; [done|]. split_bool. subst expected.
  repeat (case_match; try done); simplify_eq; split_bool.
  eexists _, _, _. split_and!; try done. by eapply validatePeer_Genuine.
Qed.

Lemma PairingResponder_Finish_Ok r finish r' result :
  PairingResponder_Finish r finish = (r', Ok result) →
  ∃ hs hs' message payload c1 c2, pr_handshake r = Some hs ∧ finish = Some message ∧
    noise_ReadMessage hs message = (hs', Ok (payload, Some c1, Some c2)) ∧
    noise_PeerStatic hs' = keyOf (pr_client r) ∧
    result = mkPairingResult (pr_client r) (pairingSAS (noise_ChannelBinding hs')) (noise_ChannelBinding hs')
               (newTransport c2 c1) ∧
    r' = pr_clear (r <| pr_state := responderComplete |>).
Proof.
  unfold PairingResponder_Finish, pairingResult. intros HF.
  destruct (pr_state r); try done. destruct (pr_handshake r) as [hs|] eqn:Hhs; [|done].
  destruct finish as [message|]; [|done]. simpl in HF.
  repeat (case_match; try done); simplify_eq; split_bool. eexists _, _, _, _, _, _. by split_and!.
Qed.

(** After a call of [Finish], whatever its outcome, a responder is spent: it has
    no handshake and no key, and refuses further calls. *)
Lemma PairingResponder_spent r finish r' res :
  pr_state r = responderAwaitingFinish → is_Some (pr_handshake r) →
  PairingResponder_Finish r finish = (r', res) →
  pr_handshake r' = None ∧ pr_private r' = [] ∧
  ∀ finish', PairingResponder_Finish r' finish' = (r', Err ErrHandshakeState).
Proof.
  intros Hs [hs Hhs]. unfold PairingResponder_Finish at 1. rewrite Hs, Hhs. intros HF.
  repeat case_match; simplify_eq; by split_and!.
Qed.

(** C38: a completed pairing names the device it has authenticated.  When the
    Agent accepts the first message and then the last, the peer of the result is
    the client whose signed descriptor came first: it verifies, is a client's, has
    the identifier of the expected context, and its key-agreement key is the static
    key Noise authenticated; the code shown to the user is that of this very
    handshake; and the responder is spent by its [Finish], successful or not. *)
Theorem pairing_authenticates_client config start r response client finish r' res :
  AcceptPairingStart config start = Ok (r, response, client) →
  PairingResponder_Finish r finish = (r', res) →
  (∃ context, PRC_ExpectedContext config = Some context ∧
    Genuine client DEVICE_CLASS_CLIENT (Ctx_InitiatorDeviceId context)) ∧
  (pr_handshake r' = None ∧ pr_private r' = [] ∧
    ∀ again, PairingResponder_Finish r' again = (r', Err ErrHandshakeState)) ∧
  (∀ result, res = Ok result → PR_Peer result = client ∧
    ∃ hs, noise_PeerStatic hs = keyOf client ∧ PR_HandshakeHash result = noise_ChannelBinding hs ∧
      PR_SAS result = pairingSAS (noise_ChannelBinding hs)).
Proof.
  intros HA HF. apply AcceptPairingStart_Ok in HA as (context & message & hs & -> & Hc & Hg & ->).
  split_and!; [by exists context|by eapply PairingResponder_spent in HF as (? & _)
    |by eapply PairingResponder_spent in HF as (_ & ? & _)|by eapply PairingResponder_spent in HF as (_ & _ & ?)|].
  intros result ->. apply PairingResponder_Finish_Ok in HF as (hs0 & hs' & ? & ? & ? & ? & _ & _ & _ & Hp & -> & _).
  split; [done|]. by exists hs'.
Qed.

(** ** Sessions *)

Lemma AcceptSessionStart_Ok config start r response client :
  AcceptSessionStart config start = Ok (r, response, client) →
  ∃ auth context hs hs' payload c1 c2 epochs,
    SRC_Authorizer config = Some auth ∧
    AuthorizedDeviceOf auth (Ctx_InitiatorDeviceId context) = Ok (sr_authorized r) ∧
    View_State (sr_authorized r) ≠ STATE_REVOKED ∧
    checkSessionClient auth context (sr_authorized r) epochs = Ok (client, sr_capabilities r) ∧
    noise_WriteMessage hs payload = (hs', Ok (response, Some c1, Some c2)) ∧
    sr_client r = client ∧ sr_send r = c2 ∧ sr_receive r = c1 ∧ sr_context r = context.
Proof.
  unfold AcceptSessionStart. intros HA.
  destruct start as [[[context|] message]|]; try done.
  repeat (case_match; try done); simplify_eq; split_bool.
  eexists _, _, _, _, _, _, _, _. split_and!; try done. simpl. lia.
Qed.

Lemma checkSessionClient_Ok auth context authorized payload client caps :
  checkSessionClient auth context authorized payload = Ok (client, caps) →
  Genuine client DEVICE_CLASS_CLIENT (Ctx_InitiatorDeviceId context) ∧
  keyOf client = keyOf (View_Device authorized) ∧ idOf client = idOf (View_Device authorized) ∧
  signingKeyOf client = signingKeyOf (View_Device authorized) ∧
  keyVersionOf (View_Device authorized) <= keyVersionOf client.
Proof.
  unfold checkSessionClient. intros HC. repeat (case_match; try done); simplify_eq; split_bool.
  split_and!; try done; [by eapply validatePeer_Genuine|lia].
Qed.

Lemma findView_devices counter epoch id rs view :
  Forall (RecordOk counter epoch) rs → findView id rs = Ok view →
  ∃ rec, rec ∈ rs ∧ device_of rec = id ∧ authorizationView rec = Ok view.
Proof.
  induction rs as [|rec rs IH]; intros Hall HF; [done|]. apply Forall_cons in Hall as [Hr Hall].
  destruct (record_view _ _ _ Hr) as (s & d & Hs & Hd & Hdev & _). simpl in HF.
  unfold authorizationView in HF at 1. rewrite Hs in HF. simpl in HF. rewrite Hd in HF.
  case_bool_decide as Hid.
  - exists rec. split_and!; [set_solver|congruence|]. unfold authorizationView. by rewrite Hs.
  - destruct (IH Hall HF) as (rec' & ? & ? & ?). exists rec'. split_and!; [set_solver|done|done].
Qed.

(** A record of a valid state that is not revoked is authorized. *)
Lemma metadata_state counter epoch rec :
  validateMetadata counter epoch rec = Ok tt → Rec_State rec ≠ STATE_REVOKED →
  Rec_State rec = STATE_AUTHORIZED ∧ Rec_RevocationEpoch rec = 0.
Proof. unfold validateMetadata. intros. repeat (case_match; try done); lia. Qed.

(** C22: a session is accepted only for a device the graph authorizes.  With a
    valid store as authorizer, an accepted client has a record that is authorized,
    not revoked, for the identifier the client claims; its verified descriptor has
    the record's signing key and key-agreement key and a key version that is not
    older.  The epoch the Agent's view of the session reports is always zero. *)
Theorem session_admits_authorized store agent private random start r response client :
  ValidState (state store) →
  AcceptSessionStart (mkSessionResponderConfig (Some (storeAuthorizer store)) agent private random) start
    = Ok (r, response, client) →
  ∃ rec d, devices (state store) !! idOf client = Some rec ∧ Rec_State rec = STATE_AUTHORIZED ∧
    descriptor_of rec = Some d ∧ Genuine client DEVICE_CLASS_CLIENT (idOf client) ∧
    signingKeyOf client = Desc_SigningPublicKey d ∧ keyOf client = Desc_KeyAgreementPublicKey d ∧
    Desc_KeyVersion d <= keyVersionOf client ∧
    SV_Peer (SessionResponder_View r) = client ∧
    SV_AuthorizationVersion (SessionResponder_View r) = Rec_AuthorizationVersion rec ∧
    SV_RevocationEpoch (SessionResponder_View r) = 0.
Proof.
  intros [_ _ Hall Hnd _ _] HA.
  apply AcceptSessionStart_Ok in HA as (auth & context & hs & hs' & pl & c1 & c2 & ep & Hau & Hlook & Hst & Hch & _ & Hcl & _).
  simpl in Hau. simplify_eq. simpl in Hlook. unfold AuthorizedDevice_lookup in Hlook.
  apply (findView_devices _ _ _ _ _ Hall) in Hlook as (rec & Hin & Hdev & Hview).
  apply checkSessionClient_Ok in Hch as (Hg & Hk & Hid & Hsk & Hkv).
  pose proof (proj1 (Forall_forall _ _) Hall _ Hin) as Hok.
  destruct (record_view _ _ _ Hok) as (s & d & Hs & Hd & Hdev' & Hdesc).
  unfold authorizationView in Hview. rewrite Hs in Hview. injection Hview as Hview.
  assert (View_Device (sr_authorized r) = s) as Hvd by by rewrite <- Hview.
  unfold keyOf, idOf, signingKeyOf, keyVersionOf in Hk, Hid, Hsk, Hkv. rewrite Hvd, Hd in Hk, Hid, Hsk, Hkv.
  assert (Rec_State rec ≠ STATE_REVOKED) as Hns by (by rewrite <- Hview in Hst).
  destruct (metadata_state _ _ _ (ro_metadata _ _ _ Hok) Hns) as [Hau0 Hep0].
  apply list_elem_of_lookup in Hin as [i Hi].
  assert (idOf (sr_client r) = device_of rec) as Hidr by (rewrite Hdev'; exact Hid).
  exists rec, d. rewrite Hidr. split_and!; try done.
  - by apply (devices_of_lookup _ i).
  - destruct Hg as (? & ? & ?). by rewrite <- Hidr.
  - unfold SessionResponder_View. simpl. by rewrite <- Hview.
  - unfold SessionResponder_View. simpl. by rewrite <- Hview.
Qed.

(** ** The two ends of a transport *)

Lemma PairingInitiator_Finish_Ok i response i' result message :
  PairingInitiator_Finish i response = (i', Ok (result, message)) →
  ∃ hs payload hs' c1 c2, noise_WriteMessage hs payload = (hs', Ok (message, Some c1, Some c2)) ∧
    PR_Transport result = newTransport c1 c2 ∧ PR_Peer result = pi_agent i.
Proof.
  unfold PairingInitiator_Finish, pairingResult. intros HF. repeat (case_match; try done); simplify_eq.
  eexists _, _, _, _, _. by split_and!.
Qed.

Lemma SessionInitiator_Finish_Ok i response i' result :
  SessionInitiator_Finish i response = (i', Ok result) →
  ∃ hs message hs' payload c1 c2, response = Some message ∧
    noise_ReadMessage hs message = (hs', Ok (payload, Some c1, Some c2)) ∧
    noise_PeerStatic hs' = keyOf (si_agent i) ∧
    SR_Transport result = newTransport c1 c2 ∧ SR_Peer result = si_agent i.
Proof.
  unfold SessionInitiator_Finish, sessionResult. intros HF.
  destruct response as [message|]; [|by repeat case_match]. simpl in HF.
  repeat (case_match; try done); simplify_eq; split_bool. eexists _, _, _, _, _, _. by split_and!.
Qed.

(** What Noise promises of the last message of a handshake: an end that accepts
    it splits into the same two cipher states, in the same order, as the end that
    wrote it. *)
Definition SplitAgrees : Prop :=
  ∀ hs payload hs1 message c1 c2 hs' hs1' payload' d1 d2,
    noise_WriteMessage hs payload = (hs1, Ok (message, Some c1, Some c2)) →
    noise_ReadMessage hs' message = (hs1', Ok (payload', Some d1, Some d2)) → d1 = c1 ∧ d2 = c2.

(** Two transports that belong together: what one sends with, the other receives
    with. *)
Definition Crossed (a b : Transport) : Prop :=
  tr_send a = tr_receive b ∧ tr_receive a = tr_send b ∧ is_Some (tr_send a) ∧ is_Some (tr_receive a).

(** Both ends of a completed handshake hold matching transports: whatever the
    one sends with, the other receives with, in the pairing handshake, where the
    initiator writes the last message, and in the session handshake, where the
    responder does. *)
Theorem transports_cross :
  SplitAgrees →
  (∀ i response i' result message r r' result',
    PairingInitiator_Finish i response = (i', Ok (result, message)) →
    PairingResponder_Finish r (Some message) = (r', Ok result') →
    Crossed (PR_Transport result) (PR_Transport result')) ∧
  (∀ config start r response client i i' result,
    AcceptSessionStart config start = Ok (r, response, client) →
    SessionInitiator_Finish i (Some response) = (i', Ok result) →
    Crossed (SR_Transport result) (SV_Transport (SessionResponder_View r))).
Proof.
  intros Hsplit. split.
  - intros i response i' result message r r' result' HI HR.
    apply PairingInitiator_Finish_Ok in HI as (hs & pl & hs' & c1 & c2 & HW & Ht & _).
    apply PairingResponder_Finish_Ok in HR as (hs1 & hs1' & m & pl' & d1 & d2 & _ & Hm & HRd & _ & -> & _).
    simplify_eq. destruct (Hsplit _ _ _ _ _ _ _ _ _ _ _ HW HRd) as [-> ->]. rewrite Ht. by repeat split.
  - intros config start r response client i i' result HA HF.
    apply AcceptSessionStart_Ok in HA as (? & ? & hs & hs' & pl & c1 & c2 & ? & _ & _ & _ & _ & HW & _ & Hs & Hr & _).
    apply SessionInitiator_Finish_Ok in HF as (hs1 & m & hs1' & pl' & d1 & d2 & Hm & HRd & _ & Ht & _).
    simplify_eq. destruct (Hsplit _ _ _ _ _ _ _ _ _ _ _ HW HRd) as [-> ->]. rewrite Ht.
    unfold SessionResponder_View. by repeat split.
Qed.

(** ** The transport *)

Inductive TransportOp :=
  | OpEncrypt (plaintext ad : bytes)
  | OpDecrypt (ciphertext ad : bytes)
  | OpClose.

(** One operation: the transport after it, the nonce it has encrypted under, and
    whether it succeeded. *)
Definition transport_step (t : Transport) (op : TransportOp) : Transport * option Z * bool :=
  match op with
  | OpEncrypt p ad =>
      let '(t', r) := Encrypt t p ad in
      (t', match r, SendCounter t with Ok _, Ok n => Some n | _, _ => None end, is_ok r)
  | OpDecrypt c ad => let '(t', r) := Decrypt t c ad in (t', None, is_ok r)
  | OpClose => (Transport_Close t, None, true)
  end.

(** The nonces a run encrypts under, in order, and the transport it ends in. *)
Fixpoint transport_run (t : Transport) (ops : list TransportOp) : list Z * Transport :=
  match ops with
  | [] => ([], t)
  | op :: ops' =>
      let '(t', n, _) := transport_step t op in
      let '(ns, t'') := transport_run t' ops' in
      (match n with Some n => n :: ns | None => ns end, t'')
  end.

(** What Noise promises of a cipher state: it counts the messages it encrypts. *)
Definition NonceCounts : Prop :=
  ∀ c ad p c' r, cipher_Encrypt c ad p = (c', r) →
    cipher_Nonce c' = cipher_Nonce c + if is_ok r then 1 else 0.

Definition closed (t : Transport) : Prop := tr_send t = None ∨ tr_receive t = None.

Lemma closed_step t op :
  closed t → ∃ t' b, transport_step t op = (t', None, b) ∧ closed t' ∧ (b = true → op = OpClose).
Proof.
  unfold closed. intros Hc. destruct op; simpl; unfold Encrypt, Decrypt.
  3: by eexists _, _; split; [done|]; split; [left|].
  all: destruct (tr_send t) eqn:Hs, (tr_receive t) eqn:Hr; try (exfalso; naive_solver);
    (eexists _, _; split; [done|]; split; [rewrite Hs, Hr; auto|done]).
Qed.

Lemma closed_run t ops : closed t → (transport_run t ops).1 = [] ∧ closed (transport_run t ops).2.
Proof.
  revert t; induction ops as [|op ops IH]; intros t Hc; [done|]. simpl.
  destruct (closed_step t op Hc) as (t' & b & -> & Hc' & _). destruct (IH t' Hc').
  by destruct (transport_run t' ops).
Qed.

Lemma open_step t op send receive :
  NonceCounts → tr_send t = Some send → tr_receive t = Some receive →
  let '(t', n, b) := transport_step t op in
  closed t' ∧ n = None ∨
  ∃ send' receive', tr_send t' = Some send' ∧ tr_receive t' = Some receive' ∧
    match n with
    | Some n => n = cipher_Nonce send ∧ cipher_Nonce send' = cipher_Nonce send + 1
    | None => cipher_Nonce send' = cipher_Nonce send
    end.
Proof.
  intros Hn Hs Hr. destruct op as [p ad|c ad|]; simpl; unfold Encrypt, Decrypt, SendCounter; rewrite ?Hs, ?Hr.
  - destruct (_ >? _); [right; eauto 6|]. destruct (cipher_Encrypt send ad p) as [send' r] eqn:He.
    apply Hn in He. right. exists send', receive. destruct r; simpl in *; split_and!; try done; lia.
  - destruct (_ || _); [left; by split; [left|]|].
    destruct (cipher_Decrypt receive ad c) as [receive' [x|]]; [right; eauto 6|left; by split; [left|]].
  - left. by split; [left|].
Qed.

(** A transport never reuses a nonce and fails closed.  Over any sequence of
    encryptions, decryptions and closes, the nonces it encrypts under are
    consecutive from the cipher's first one; and once a decryption has failed or
    the transport was closed, nothing is encrypted or decrypted again. *)
Theorem transport_nonces_consecutive send receive ops :
  NonceCounts →
  let '(ns, t) := transport_run (newTransport send receive) ops in
  ns = (fun k => cipher_Nonce send + Z.of_nat k) <$> seq 0 (length ns) ∧
  (∀ t0 op t1 n, transport_step t0 op = (t1, n, false) → (∃ c ad, op = OpDecrypt c ad) →
    closed t1 ∧ ∀ ops', (transport_run t1 ops').1 = [] ∧ closed (transport_run t1 ops').2).
Proof.
  intros Hn. destruct (transport_run _ ops) as [ns t] eqn:Hrun. split.
  - assert (∀ ops t ns t' send receive, tr_send t = Some send → tr_receive t = Some receive →
      transport_run t ops = (ns, t') →
      ns = (fun k => cipher_Nonce send + Z.of_nat k) <$> seq 0 (length ns)) as Hgen; [|by eapply (Hgen ops (newTransport send receive) ns t send receive)].
    clear -Hn. induction ops as [|op ops IH]; intros t ns t' send receive Hs Hr Hrun; simpl in Hrun.
    + by simplify_eq.
    + pose proof (open_step t op send receive Hn Hs Hr) as Hst.
      destruct (transport_step t op) as [[t1 n] b]. destruct (transport_run t1 ops) as [ns1 t2] eqn:H1.
      destruct Hst as [[Hc ->]|(send' & receive' & Hs' & Hr' & Hnn)].
      * destruct (closed_run t1 ops Hc) as [He _]. rewrite H1 in He. simpl in He. by simplify_eq.
      * pose proof (IH _ _ _ _ _ Hs' Hr' H1) as Hns. destruct n as [n|]; simplify_eq.
        -- destruct Hnn as [-> Hnn]. simpl. f_equal; [lia|]. rewrite Hns at 1. rewrite <- fmap_S_seq.
           rewrite <- list_fmap_compose. apply list_fmap_ext. intros k x _. simpl. lia.
        -- rewrite Hns at 1. apply list_fmap_ext. intros k x _. lia.
  - intros t0 op t1 n Hst (c & ad & ->). assert (closed t1) as Hc.
    { simpl in Hst. unfold Decrypt in Hst. repeat case_match; simplify_eq/=; unfold closed; simpl; auto. }
    split; [done|]. intros ops'. by apply closed_run.
Qed.
End Handshakes.

(** ** What the session responder does not check *)

(** The same Noise library, reporting other static keys. *)
Definition withPeerStatic (N : Noise) (static : HandshakeState → bytes) : Noise := {|
  Reader := Reader; HandshakeState := HandshakeState; CipherState := CipherState;
  noise_New := noise_New; noise_WriteMessage := noise_WriteMessage; noise_ReadMessage := noise_ReadMessage;
  noise_PeerStatic := static; noise_ChannelBinding := noise_ChannelBinding;
  cipher_Encrypt := cipher_Encrypt; cipher_Decrypt := cipher_Decrypt; cipher_Nonce := cipher_Nonce |}.

(** The response and the client of an accepted session. *)
Definition acceptedClient {N : Noise} (r : result (SessionResponder * bytes * SignedDeviceDescriptor))
    : result (bytes * SignedDeviceDescriptor) :=
  match r with Ok (_, response, client) => Ok (response, client) | Err e => Err e end.

(** The session responder never looks at the static key the handshake has
    authenticated: whatever key that is, it accepts the same clients with the same
    response.  The key-agreement key it compares is the one in the descriptor the
    client sends, which anyone who has seen the descriptor can send. *)
Theorem session_ignores_static_key {crypto : IdentityCrypto} (N : Noise)
    `{!ProtoMsg HandshakeContext} `{!ProtoMsg SessionInitiatorPayload} `{!ProtoMsg SessionResponderPayload}
    (static : @HandshakeState N → bytes) auth agent private (random : @Reader N) start :
  acceptedClient (AcceptSessionStart (noise := withPeerStatic N static)
    (mkSessionResponderConfig (noise := withPeerStatic N static) auth agent private random) start) =
  acceptedClient (AcceptSessionStart (noise := N)
    (mkSessionResponderConfig (noise := N) auth agent private random) start).
Proof.
  unfold AcceptSessionStart. destruct start as [[[context|] message]|]; [|done..]. simpl.
  repeat (case_match; try done); simplify_eq; done.
Qed.
