(* ===== verification/PairingFlow.v ===== *)
(** * The pairing flow ([internal/pairingflow/coordinator.go])

    One pairing at a time: the coordinator reserves the invitation for the phone
    that proves it knows the secret, finishes the handshake, and waits for the
    local user to approve or reject.  It works on the invitation manager
    ([Pairing]), the handshake ([Handshake]) and the identity ([DeviceIdentity]).
    A flow's decision travels over a channel with room for one value, an object
    with an identity.  Every call has its own readings of the coordinator's and of
    the manager's clock. *)

From S2P Require Import Prelude.
From S2P Require Import Encoding.
From S2P Require Import SecureStore.
From S2P Require Import Ticket.
From S2P Require Import DeviceIdentity.
From S2P Require Import Pairing.
From S2P Require Import Handshake.

Definition DefaultApprovalTimeout : Z := 2 * Minute.

Definition ErrInvalidFlow := ErrorString "pairing flow is invalid".
Definition ErrFlowInProgress := ErrorString "another pairing flow is already in progress".
Definition ErrFlowUnavailable := ErrorString "pairing flow is not available".
Definition ErrFlowState := ErrorString "pairing flow is in an invalid state".
Definition ErrFlowExpired := ErrorString "pairing flow has expired".
Definition ErrFlowCanceled := ErrorString "pairing flow was canceled".

Definition ApprovalAssociatedData : bytes :=
  Utf8.bytes_of_string "VibeBridge pairing approval v1" ++ ["000"%byte].

Inductive State := StateHandshaking | StatePending.

#[global] Instance State_eq_dec : EqDecision State.
Proof. solve_decision. Defined.

Record Snapshot := mkSnapshot {
  Snap_FlowID : string;
  Snap_InvitationID : bytes;
  Snap_DeviceID : bytes;
  Snap_DisplayName : string;
  Snap_Platform : string;
  Snap_SAS : string;
  Snap_State : State;
  Snap_CreatedAt : Z;
  Snap_ExpiresAt : Z;
}.

#[global] Instance Snapshot_eta : Eta Snapshot := fun s =>
  mkSnapshot (Snap_FlowID s) (Snap_InvitationID s) (Snap_DeviceID s) (Snap_DisplayName s) (Snap_Platform s)
    (Snap_SAS s) (Snap_State s) (Snap_CreatedAt s) (Snap_ExpiresAt s).

(** The status of an approval is an open enumeration. *)
Definition APPROVAL_PENDING : Z := 1.
Definition APPROVAL_APPROVED : Z := 2.
Definition APPROVAL_REJECTED : Z := 3.

Record PairingApproval := mkPairingApproval {
  Approval_Status : Z;
  Approval_AuthorizationVersion : Z;
}.

Inductive decision := Decided (approval : PairingApproval) | Failed (err : error).

Section PairingFlow.
Context {crypto : IdentityCrypto} {noise : Noise}.
Context `{!ProtoMsg HandshakeContext} `{!ProtoMsg PairingInitiatorPayload}
  `{!ProtoMsg PairingResponderPayload} `{!ProtoMsg PairingFinishPayload} `{!ProtoMsg PairingApproval}.
Context `{!JsonCodec envelope} `{!JsonCodec persistedState}.

Record flow := mkFlow {
  flow_id : string;
  flow_reservation : nat;
  flow_responder : option PairingResponder;
  flow_peer : SignedDeviceDescriptor;
  flow_transport : option Transport;
  flow_decision : nat;
  flow_snapshot : Snapshot;
}.

#[global] Instance flow_eta : Eta flow := fun f =>
  mkFlow (flow_id f) (flow_reservation f) (flow_responder f) (flow_peer f) (flow_transport f)
    (flow_decision f) (flow_snapshot f).

(** The coordinator with what it works on: the manager, the identity and its
    files, and the channels made so far with the value each holds. *)
Record Coordinator := mkCoordinator {
  invitations : Manager;
  identity : Files * Store;
  approvalTimeout : Z;
  current : option flow;
  channels : gmap nat (option decision);
}.

#[global] Instance Coordinator_eta : Eta Coordinator := fun c =>
  mkCoordinator (invitations c) (identity c) (approvalTimeout c) (current c) (channels c).

(** [New], with interfaces that are not nil. *)
Definition New (m : Manager) (w : Files * Store) (configTimeout : Z) : result Coordinator :=
  let timeout := if configTimeout =? 0 then DefaultApprovalTimeout else configTimeout in
  if (timeout <? 30 * Second) || (timeout >? 5 * Minute) then
    Err (ErrorString "pairing approval timeout must be between 30 seconds and 5 minutes")
  else Ok (mkCoordinator m w timeout None ∅).

(** [select { case ch <- d: default: }] *)
Definition trySend (ch : nat) (d : decision) (chs : gmap nat (option decision)) : gmap nat (option decision) :=
  match chs !! ch with
  | Some None => <[ch := Some d]> chs
  | _ => chs
  end.

(** [cancelLocked] and [completeLocked], for the active flow. *)
Definition cancelLocked (c : Coordinator) (mnow : Z) (f : flow) (reason : error) : Coordinator :=
  c <| invitations ::= fun m => (Release m mnow (Some (flow_reservation f))).1 |>
    <| channels ::= trySend (flow_decision f) (Failed reason) |>
    <| current := None |>.

Definition completeLocked (c : Coordinator) (f : flow) (approval : PairingApproval) : Coordinator :=
  c <| channels ::= trySend (flow_decision f) (Decided approval) |>
    <| current := None |>.

Definition expireLocked (c : Coordinator) (now mnow : Z) : Coordinator :=
  match current c with
  | None => c
  | Some f => if now <? Snap_ExpiresAt (flow_snapshot f) then c else cancelLocked c mnow f ErrFlowExpired
  end.

Definition flowLocked (c : Coordinator) (flowID : string) : result flow :=
  match current c with
  | None => Err ErrFlowUnavailable
  | Some f =>
      if bool_decide (flowID = EmptyString) || negb (bool_decide (flow_id f = flowID)) then
        Err ErrFlowUnavailable
      else Ok f
  end.

(** [Start]: [random] is the flow ID's randomness, [reader] the handshake's; [now]
    and [created] are readings of the coordinator's clock, [mnow] of the manager's. *)
Definition Start (c : Coordinator) (now mnow created : Z) (random : result bytes) (reader : Reader)
    (start : option HandshakeStart) : Coordinator * result (string * bytes) :=
  let c := expireLocked c now mnow in
  match current c with
  | Some _ => (c, Err ErrFlowInProgress)
  | None =>
      match start with
      | Some (mkHandshakeStart (Some context) message) =>
          match Descriptor (identity c).2 with
          | Err _ => (c, Err ErrInvalidFlow)
          | Ok agent =>
              if negb (bool_decide (is_Some (Signed_Descriptor agent))) then (c, Err ErrInvalidFlow)
              else match NewPairingContext (Ctx_InitiatorDeviceId context) (idOf agent)
                           (Ctx_InvitationId context) [] with
              | Err _ => (c, Err ErrInvalidFlow)
              | Ok expectedContext =>
                  match KeyAgreementPrivateKey (identity c).2 with
                  | Err _ => (c, Err ErrInvalidFlow)
                  | Ok privateBytes =>
                      match random with
                      | Err _ => (c, Err (ErrorString "generate pairing flow ID"))
                      | Ok flowIDRaw =>
                          let flowID := RawURL_Encode flowIDRaw in
                          match Begin (invitations c) mnow (Ctx_InvitationId context)
                                  (Some (fun secret => AcceptPairingStart
                                     (mkPairingResponderConfig (Some expectedContext) (Some agent)
                                        privateBytes secret reader) start)) with
                          | (m, Err e) =>
                              (c <| invitations := m |>,
                               if errors_is e ErrInvitationInUse then Err ErrFlowInProgress
                               else Err ErrInvalidFlow)
                          | (m, Ok (reservation, status, (responder, response, peer))) =>
                              let approvalExpiry := created + approvalTimeout c in
                              let expiresAt := if approvalExpiry <? Status_ExpiresAt status
                                               then approvalExpiry else Status_ExpiresAt status in
                              let ch := fresh (dom (channels c)) in
                              let d := Signed_Descriptor peer in
                              let f := {| flow_id := flowID;
                                          flow_reservation := reservation;
                                          flow_responder := Some responder;
                                          flow_peer := peer;
                                          flow_transport := None;
                                          flow_decision := ch;
                                          flow_snapshot :=
                                            {| Snap_FlowID := flowID;
                                               Snap_InvitationID := Status_InvitationID status;
                                               Snap_DeviceID := idOf peer;
                                               Snap_DisplayName := default EmptyString (Desc_DisplayName <$> d);
                                               Snap_Platform := default EmptyString (Desc_Platform <$> d);
                                               Snap_SAS := EmptyString;
                                               Snap_State := StateHandshaking;
                                               Snap_CreatedAt := created;
                                               Snap_ExpiresAt := expiresAt |} |} in
                              (c <| invitations := m |>
                                 <| channels ::= insert ch None |>
                                 <| current := Some f |>, Ok (flowID, response))
                          end
                      end
                  end
              end
          end
      | _ => (c, Err ErrInvalidFlow)
      end
  end.

(** The session of a finished handshake: what its WebSocket owns. *)
Record Session := mkSession {
  Session_FlowID : string;
  Session_Snapshot : Snapshot;
  Session_Transport : Transport;
  Session_Decision : nat;
}.

Definition Finish (c : Coordinator) (now mnow : Z) (flowID : string) (finish : option bytes)
    : Coordinator * result Session :=
  let c := expireLocked c now mnow in
  match flowLocked c flowID with
  | Err e => (c, Err e)
  | Ok f =>
      match Snap_State (flow_snapshot f), flow_responder f with
      | StateHandshaking, Some responder =>
          let f := f <| flow_responder := None |> in
          match PairingResponder_Finish responder finish with
          | (_, Err _) => (cancelLocked (c <| current := Some f |>) mnow f ErrInvalidFlow, Err ErrInvalidFlow)
          | (_, Ok result) =>
              let f := f <| flow_transport := Some (PR_Transport result) |>
                         <| flow_snapshot ::= fun s => s <| Snap_SAS := PR_SAS result |>
                                                         <| Snap_State := StatePending |> |> in
              (c <| current := Some f |>,
               Ok (mkSession (flow_id f) (flow_snapshot f) (PR_Transport result) (flow_decision f)))
          end
      | _, _ => (c, Err ErrFlowState)
      end
  end.

Definition Current (c : Coordinator) (now mnow : Z) : Coordinator * option Snapshot :=
  let c := expireLocked c now mnow in
  (c, flow_snapshot <$> current c).

(** The persistence callback of [Approve]: the identity authorizes the peer. *)
Definition persistPeer (tnow : Z) (sys : Syscalls) (peer : SignedDeviceDescriptor) (w : Files * Store)
    : (Files * Store) * result Z :=
  let '(fs, store, r) := Authorize w.1 w.2 tnow sys (Some peer) in
  ((fs, store),
   match r with
   | Err e => Err e
   | Ok view => if View_AuthorizationVersion view =? 0 then Err ErrInvalidFlow
                else Ok (View_AuthorizationVersion view)
   end).

Definition invitationLost (e : error) : bool :=
  errors_is e ErrInvitationUnavailable || errors_is e ErrInvitationExpired ||
  errors_is e ErrInvitationRejected.

(** A pending flow is one whose handshake has finished. *)
Definition pending (f : flow) : bool :=
  bool_decide (Snap_State (flow_snapshot f) = StatePending) && bool_decide (is_Some (flow_transport f)).

Definition Approve (c : Coordinator) (now mnow tnow : Z) (sys : Syscalls) (flowID : string)
    : Coordinator * result unit :=
  let c := expireLocked c now mnow in
  match flowLocked c flowID with
  | Err e => (c, Err e)
  | Ok f =>
      if negb (pending f) then (c, Err ErrFlowState)
      else match Pairing.Approve (invitations c) (identity c) mnow (Some (flow_reservation f))
                   (Some (persistPeer tnow sys (flow_peer f))) with
      | (m, w, Err e) =>
          let c := c <| invitations := m |> <| identity := w |> in
          (if invitationLost e then cancelLocked c mnow f ErrFlowCanceled else c, Err e)
      | (m, w, Ok version) =>
          let c := c <| invitations := m |> <| identity := w |> in
          (completeLocked c f (mkPairingApproval APPROVAL_APPROVED version), Ok tt)
      end
  end.

Definition Reject (c : Coordinator) (now mnow : Z) (flowID : string) : Coordinator * result unit :=
  let c := expireLocked c now mnow in
  match flowLocked c flowID with
  | Err e => (c, Err e)
  | Ok f =>
      if negb (pending f) then (c, Err ErrFlowState)
      else match Pairing.Reject (invitations c) mnow (Some (flow_reservation f)) with
      | (m, Err e) => (cancelLocked (c <| invitations := m |>) mnow f ErrFlowCanceled, Err e)
      | (m, Ok _) =>
          (completeLocked (c <| invitations := m |>) f (mkPairingApproval APPROVAL_REJECTED 0), Ok tt)
      end
  end.

Definition Cancel (c : Coordinator) (mnow : Z) (flowID : string) : Coordinator :=
  match current c with
  | None => c
  | Some f => if negb (bool_decide (flow_id f = flowID)) then c
              else cancelLocked c mnow f ErrFlowCanceled
  end.

(** ** The session *)

Definition Session_Encrypt (s : Session) (approval : option PairingApproval) : Session * result bytes :=
  match approval with
  | None => (s, Err ErrFlowState)
  | Some a =>
      let version := Approval_AuthorizationVersion a in
      let ok := if (Approval_Status a =? APPROVAL_PENDING) || (Approval_Status a =? APPROVAL_REJECTED)
                then version =? 0
                else if Approval_Status a =? APPROVAL_APPROVED then negb (version =? 0) else false in
      if negb ok then (s, Err ErrInvalidFlow)
      else match msg_Marshal a with
      | Err _ => (s, Err ErrInvalidFlow)
      | Ok plaintext =>
          let '(t, r) := Encrypt (Session_Transport s) plaintext ApprovalAssociatedData in
          (mkSession (Session_FlowID s) (Session_Snapshot s) t (Session_Decision s), r)
      end
  end.

Definition receive (c : Coordinator) (s : Session) (d : decision)
    : Coordinator * option (result PairingApproval) :=
  (c <| channels ::= insert (Session_Decision s) None |>,
   Some (match d with Decided approval => Ok approval | Failed e => Err e end)).

(** [Wait]: the value of the channel, or the context's error; [None] while both
    are still to come.  When both are there, [select] takes either. *)
Definition Wait (c : Coordinator) (s : Session) (cancelled : option error) (preferContext : bool)
    : Coordinator * option (result PairingApproval) :=
  match channels c !! Session_Decision s, cancelled with
  | Some (Some d), None => receive c s d
  | Some (Some d), Some e => if preferContext then (c, Some (Err e)) else receive c s d
  | _, Some e => (c, Some (Err e))
  | _, None => (c, None)
  end.

Definition Session_Close (s : Session) : Session :=
  mkSession (Session_FlowID s) (Session_Snapshot s) (Transport_Close (Session_Transport s)) (Session_Decision s).
End PairingFlow.
