(* ===== verification/PairingFlowFacts.v ===== *)
(** * The pairing flow: who is authorized, and who is told

    The invariant of the coordinator with its manager: a live reservation belongs
    to the flow in progress, whose decision is still to be sent.  Over runs of its
    methods, interleaved with the manager's: only an approval of a finished
    handshake changes the identity, every flow is decided once, and an abandoned
    flow does not block the invitation. *)

From S2P Require Import Prelude.
From S2P Require Import Encoding.
From S2P Require Import SecureStore.
From S2P Require Import Ticket.
From S2P Require Import DeviceIdentity.
From S2P Require Import Pairing.
From S2P Require Import PairingFacts.
From S2P Require Import Handshake.
From S2P Require Import HandshakeFacts.
From S2P Require Import PairingFlow.

Section FlowFacts.
Context {crypto : IdentityCrypto} {noise : Noise} {url : GoUrl} {codec : InvitationCodec}.
Context `{!ProtoMsg HandshakeContext} `{!ProtoMsg PairingInitiatorPayload}
  `{!ProtoMsg PairingResponderPayload} `{!ProtoMsg PairingFinishPayload} `{!ProtoMsg PairingApproval}.
Context `{!JsonCodec envelope} `{!JsonCodec persistedState}.
Implicit Types (c : Coordinator) (f : flow).

(** ** The invariant *)

(** The flow in progress: its peer is genuine, its decision has not been sent, and
    once it is pending Noise has authenticated the peer's key and the user is shown
    that handshake's code. *)
Record FlowOk c f : Prop := {
  fo_peer : Genuine (flow_peer f) DEVICE_CLASS_CLIENT (Snap_DeviceID (flow_snapshot f));
  fo_channel : channels c !! flow_decision f = Some None;
  fo_responder r : flow_responder f = Some r → pr_client r = flow_peer f;
  fo_authenticated : Snap_State (flow_snapshot f) = StatePending →
    ∃ hs, noise_PeerStatic hs = keyOf (flow_peer f) ∧
      Snap_SAS (flow_snapshot f) = pairingSAS (noise_ChannelBinding hs);
}.

Record FlowInv c : Prop := {
  fi_exclusive : Exclusive (invitations c);
  fi_live r : live (invitations c) r → ∃ f, current c = Some f ∧ flow_reservation f = r;
  fi_flow f : current c = Some f → FlowOk c f;
}.

(** ** What calls keep *)

Definition channel_of c : option nat := flow_decision <$> current c.

(** A channel that holds nothing and that no flow will send on again. *)
Definition Spent c (ch : nat) : Prop := channels c !! ch = Some None ∧ channel_of c ≠ Some ch.

(** The value a channel holds. *)
Definition holds c (ch : nat) (d : decision) : Prop := channels c !! ch = Some (Some d).

(** From [c] to [c'] the invariant and the spent channels survive, and whatever a
    channel has begun to hold was decided on the flow of [c], for a reason. *)
Record Keeps (why : flow → decision → Prop) c c' : Prop := {
  kp_inv : FlowInv c';
  kp_spent ch : Spent c' ch ↔ Spent c ch;
  kp_told ch d : holds c' ch d → holds c ch d ∨
    ∃ f, current c = Some f ∧ flow_decision f = ch ∧ why f d;
}.

(** ** The parts of the methods *)

Lemma release_dead m mnow r :
  Exclusive m → (∀ r', live m r' → r' = r) →
  Exclusive (Release m mnow (Some r)).1 ∧ ∀ r', ~ live (Release m mnow (Some r)).1 r'.
Proof.
  intros Hx Honly. destruct (Release m mnow (Some r)) as [m' res] eqn:HR.
  destruct (Release_effect _ _ _ _ _ Hx HR) as [Hx' He]. split; [done|]. simpl. intros r' Hl.
  destruct res; simpl in He.
  - destruct He as (_ & _ & _ & Hn & _). by destruct (Hn r').
  - destruct He as [->|[_ [Hn _]]]; [|by destruct (Hn r')].
    assert (r' = r) as -> by by apply Honly.
    apply Hx' in Hl as Ha. destruct Ha as (a & Ha & Hra).
    unfold Release, validateReservationLocked in HR. rewrite Ha in HR.
    destruct (negb (mnow <? expiresAt a)).
    + simplify_eq. apply (f_equal active) in H. rewrite Ha in H. unfold clearActiveLocked in H.
      rewrite Ha in H. done.
    + unfold live in Hl. rewrite (bool_decide_true _ Hl), (bool_decide_true _ Hra) in HR. done.
Qed.

Lemma dead_live c : FlowInv c → ∀ f, current c = Some f → ∀ r, live (invitations c) r → r = flow_reservation f.
Proof. intros [_ Hl _] f Hf r Hr. destruct (Hl r Hr) as (f' & ? & ?). congruence. Qed.

Lemma trySend_empty ch d chs : chs !! ch = Some None → trySend ch d chs = <[ch := Some d]> chs.
Proof. unfold trySend. by intros ->. Qed.

(** Sending on the channel of the flow in progress, which ends with it. *)
Lemma settle_keeps (why : flow → decision → Prop) c c' f d :
  FlowInv c → current c = Some f → Exclusive (invitations c') → (∀ r, ~ live (invitations c') r) →
  current c' = None → channels c' = trySend (flow_decision f) d (channels c) → why f d →
  Keeps why c c'.
Proof.
  intros Hi Hf Hx Hdead Hnone Hch Hwhy. pose proof (fo_channel _ _ (fi_flow _ Hi _ Hf)) as Hempty.
  rewrite trySend_empty in Hch by done. split.
  - split; [done|intros r Hr; by destruct (Hdead r)|congruence].
  - intros ch. unfold Spent, channel_of. rewrite Hch, Hnone, Hf, lookup_insert_Some. naive_solver.
  - intros ch d'. unfold holds. rewrite Hch, lookup_insert_Some. intros [[<- [= <-]]|[_ ?]]; eauto.
Qed.

Lemma cancel_keeps (why : flow → decision → Prop) c mnow f f' reason :
  FlowInv c → current c = Some f → flow_reservation f' = flow_reservation f →
  flow_decision f' = flow_decision f → why f (Failed reason) → ∀ c1,
  channels c1 = channels c → Exclusive (invitations c1) →
  (∀ r, live (invitations c1) r → live (invitations c) r) →
  Keeps why c (cancelLocked c1 mnow f' reason).
Proof.
  intros Hi Hf Hr Hd Hwhy c1 Hch Hx Hl.
  destruct (release_dead (invitations c1) mnow (flow_reservation f') Hx) as [Hx' Hdead].
  { intros r Hlr. rewrite Hr. by apply (dead_live c Hi f Hf), Hl. }
  eapply settle_keeps; [done|done|done|done|done| |done]. simpl. by rewrite Hch, Hd.
Qed.

(** Changes of the manager that only take reservations away. *)
Lemma manager_keeps why c m :
  FlowInv c → Exclusive m → (∀ r, live m r → live (invitations c) r) →
  Keeps why c (c <| invitations := m |>).
Proof.
  intros [_ Hl Hf] Hx Hm. split; [|done|by left]. split; [done| |].
  - intros r Hr. by apply Hl, Hm.
  - intros f Hcur. by destruct (Hf f Hcur).
Qed.

Lemma effect_live m e m' r : Effect m e m' → (∀ r, e ≠ Reserved r) → live m' r → live m r.
Proof.
  intros He Hne Hl. destruct (effect_reservations _ _ _ He) as [->|[(r0 & -> & _)|[_ [Hn _]]]]; [done| |].
  - by destruct (Hne r0).
  - by destruct (Hn r).
Qed.

Lemma Keeps_refl why c : FlowInv c → Keeps why c c.
Proof. intros Hi. split; [done|done|by left]. Qed.

(** ** The beginning of every method *)

Definition expired (now : Z) f (d : decision) : Prop :=
  d = Failed ErrFlowExpired ∧ Snap_ExpiresAt (flow_snapshot f) <= now.

Lemma expire_cases c now mnow :
  FlowInv c →
  expireLocked c now mnow = c ∧ (∀ f, current c = Some f → now < Snap_ExpiresAt (flow_snapshot f)) ∨
  current (expireLocked c now mnow) = None ∧ identity (expireLocked c now mnow) = identity c ∧
  Keeps (expired now) c (expireLocked c now mnow).
Proof.
  intros Hi. unfold expireLocked. destruct (current c) as [f|] eqn:Hf; [|by left].
  destruct (now <? _) eqn:Hnow; [left; split; [done|]; intros f' [= <-]; lia|]. right. split_and!; [done..|].
  eapply cancel_keeps; try done; [split; [done|lia]|by destruct Hi].
Qed.

(** A method that does nothing without a flow. *)
Lemma after_expiry (why : flow → decision → Prop) c now mnow c' :
  FlowInv c → (∀ f d, expired now f d → why f d) →
  (current (expireLocked c now mnow) = None → c' = expireLocked c now mnow) →
  (∀ f, current c = Some f → now < Snap_ExpiresAt (flow_snapshot f) → Keeps why c c') →
  Keeps why c c'.
Proof.
  intros Hi Hwhy Hnone Hsome. destruct (expire_cases c now mnow Hi) as [[He Hb]|(Hn & _ & [HI HS HT])].
  - destruct (current c) as [f|] eqn:Hf; [by eapply Hsome; auto|]. rewrite He in Hnone.
    rewrite (Hnone Hf). by apply Keeps_refl.
  - rewrite (Hnone Hn). split; [done|done|]. intros ch d Hd.
    destruct (HT ch d Hd) as [?|(f & ? & ? & ?)]; [by left|]. right. exists f. eauto.
Qed.

(** ** The methods *)

Lemma Begin_used {A} m now id (use : bytes → result A) m' r status x :
  Begin m now id (Some use) = (m', Ok (r, status, x)) → ∃ sec, use sec = Ok x.
Proof. unfold Begin. intros HB. repeat case_match; simplify_eq. eauto. Qed.

(** Why [Start] may decide a flow: it never does, but for an expired one. *)
Lemma Start_keeps c now mnow created random reader start :
  FlowInv c → let c' := (Start c now mnow created random reader start).1 in
  Keeps (expired now) c c' ∧ identity c' = identity c.
Proof.
  intros Hi. cbv zeta.
  assert (Keeps (expired now) c (expireLocked c now mnow) ∧ identity (expireLocked c now mnow) = identity c)
    as [Hk Hid].
  { destruct (expire_cases c now mnow Hi) as [[-> _]|(_ & ? & ?)]; [by split; [apply Keeps_refl|]|done]. }
  unfold Start. set (c1 := expireLocked c now mnow) in *. destruct Hk as [Hi1 Hs1 Ht1].
  destruct (current c1) as [f|] eqn:Hcur; [done|].
  destruct start as [[[context|] message]|]; [|done..].
  destruct (Descriptor (identity c1).2) as [agent|]; [|done]. destruct (negb _); [done|].
  destruct (NewPairingContext _ _ _ _) as [expectedContext|] eqn:Hctx; [|done].
  destruct (KeyAgreementPrivateKey _) as [privateBytes|]; [|done]. destruct random as [flowIDRaw|]; [|done].
  destruct (Begin _ _ _ _) as [m [[[rv status] [[responder response] peer]]|e]] eqn:HB;
    destruct (Begin_effect _ _ _ _ _ _ (fi_exclusive _ Hi1) HB) as [Hx He]; simpl fst.
  - split; [|done]. destruct He as (a & Ha & Hr & Ha' & Hfresh & Hres).
    pose proof (is_fresh (dom (channels c1))) as Hch. apply not_elem_of_dom in Hch.
    apply Begin_used in HB as [sec Hacc].
    apply AcceptPairingStart_Ok in Hacc as (ctx & msg & hs & Hst & Hec & Hg & Hresp).
    simpl in Hec. simplify_eq. split.
    + split; [done| |].
      * simpl. intros r Hr1. unfold live in Hr1. rewrite Hres, lookup_insert_Some in Hr1.
        destruct Hr1 as [[<- _]|[_ Hr1]]; [by eexists|].
        destruct (fi_live _ Hi1 r Hr1) as (f & ? & _). congruence.
      * simpl. intros f [= <-]. split; simpl; [|by rewrite lookup_insert_eq|by intros r [= <-]|done].
        destruct Hg as (? & ? & ?). by split_and!.
    + intros ch. rewrite <- Hs1. unfold Spent, channel_of. simpl. rewrite lookup_insert_Some, Hcur.
      naive_solver congruence.
    + intros ch d. unfold holds. simpl. rewrite lookup_insert_Some. intros [[_ ?]|[_ Hd]]; [done|].
      by apply Ht1.
  - assert (Keeps (expired now) c1 (c1 <| invitations := m |>)) as [HI HS HT].
    { apply manager_keeps; [done|done|]. intros r. by apply (effect_live _ Quiet). }
    split; [|done]. split; [done|intros ch; by rewrite HS|]. intros ch d [Hd|(f & ? & _)]%HT; [by apply Ht1|congruence].
Qed.

Lemma unexpired c now mnow f :
  current c = Some f → now < Snap_ExpiresAt (flow_snapshot f) → expireLocked c now mnow = c.
Proof. intros Hf Hnow. unfold expireLocked. rewrite Hf. by replace (now <? _) with true by lia. Qed.

Lemma flowLocked_none c id : current c = None → flowLocked c id = Err ErrFlowUnavailable.
Proof. unfold flowLocked. by intros ->. Qed.

Lemma flowLocked_some c id f :
  current c = Some f → flowLocked c id = Ok f ∧ flow_id f = id ∨ flowLocked c id = Err ErrFlowUnavailable.
Proof. unfold flowLocked. intros ->. destruct (_ || _) eqn:Hid; [by right|left]. by split_bool. Qed.

(** The cases of a method that looks up its flow: no flow, or the one named. *)
#[local] Ltac on_flow c f Hi Hf Hnow :=
  eapply (after_expiry _ c); [exact Hi|by intros ? ? ?; left|by intros Hn; rewrite flowLocked_none|];
  intros f Hf Hnow; rewrite (unexpired _ _ _ _ Hf Hnow);
  let Hl := fresh "Hl" in let Hid := fresh "Hid" in
  match goal with |- context [flowLocked _ ?id] =>
    destruct (flowLocked_some c id f Hf) as [[Hl Hid]|Hl]; rewrite Hl; [|by apply Keeps_refl] end.

(** Replacing the flow in progress by one that is as sound and has the same channel
    and reservation. *)
Lemma replace_keeps why c f f' :
  FlowInv c → current c = Some f → flow_reservation f' = flow_reservation f →
  flow_decision f' = flow_decision f → (FlowOk c f → FlowOk c f') →
  Keeps why c (c <| current := Some f' |>).
Proof.
  intros [Hx Hl Hf] Hcur Hr Hd Hok. split.
  - split; [done| |].
    + simpl. intros r Hlive. destruct (Hl r Hlive) as (f0 & ? & ?). exists f'. split; congruence.
    + simpl. intros f0 [= <-]. destruct (Hok (Hf f Hcur)) as [? ? ? ?]. by split.
  - intros ch. unfold Spent, channel_of. simpl. by rewrite Hcur, Hd.
  - by left.
Qed.

Definition finishReason (now : Z) (id : string) f (d : decision) : Prop :=
  expired now f d ∨ d = Failed ErrInvalidFlow ∧ flow_id f = id.

Lemma Finish_keeps c now mnow id finish :
  FlowInv c → Keeps (finishReason now id) c (Finish c now mnow id finish).1 ∧
  identity (Finish c now mnow id finish).1 = identity c.
Proof.
  intros Hi. split.
  - unfold Finish. on_flow c f Hi Hf Hnow.
    destruct (Snap_State _) eqn:Hst, (flow_responder f) as [responder|] eqn:Hresp; try by apply Keeps_refl.
    destruct (PairingResponder_Finish responder finish) as [r' [result|e]] eqn:HF.
    + eapply replace_keeps; try done. intros [Hp Hch Hr _]. split; simpl; try done. intros _.
      apply PairingResponder_Finish_Ok in HF as (hs & hs' & ? & ? & ? & ? & _ & _ & _ & Hk & -> & _).
      exists hs'. by rewrite <- (Hr _ Hresp).
    + eapply cancel_keeps; try done; [by right|apply Hi].
  - assert (identity (expireLocked c now mnow) = identity c) as <-
      by (destruct (expire_cases c now mnow Hi) as [[-> _]|(_ & ? & _)]; done).
    unfold Finish. repeat case_match; done.
Qed.

Lemma expire_identity c now mnow : identity (expireLocked c now mnow) = identity c.
Proof. unfold expireLocked. repeat case_match; done. Qed.

(** The flow that an approval with this identifier authorizes, at this time. *)
Definition approvable c (now : Z) (id : string) f : Prop :=
  current c = Some f ∧ flow_id f = id ∧ pending f = true ∧ now < Snap_ExpiresAt (flow_snapshot f).

Definition approveReason c (now tnow : Z) sys (id : string) f (d : decision) : Prop :=
  expired now f d ∨ d = Failed ErrFlowCanceled ∧ flow_id f = id ∨
  approvable c now id f ∧ ∃ w' version, d = Decided (mkPairingApproval APPROVAL_APPROVED version) ∧
    persistPeer tnow sys (flow_peer f) (identity c) = (w', Ok version).

Lemma manager_Approve_identity {W A} m (w : W) mnow r (persist : W → W * result A) m' w' res :
  Pairing.Approve m w mnow (Some r) (Some persist) = (m', w', res) →
  w' = w ∧ is_ok res = false ∨ persist w = (w', res).
Proof. unfold Pairing.Approve. intros HA. repeat case_match; simplify_eq; auto. Qed.

Lemma Approve_keeps c now mnow tnow sys id :
  FlowInv c → let c' := (Approve c now mnow tnow sys id).1 in
  Keeps (approveReason c now tnow sys id) c c' ∧
  (identity c' = identity c ∨
   ∃ f, approvable c now id f ∧ identity c' = (persistPeer tnow sys (flow_peer f) (identity c)).1).
Proof.
  intros Hi c'. split; subst c'.
  - unfold Approve. on_flow c f Hi Hf Hnow.
    destruct (pending f) eqn:Hp; [|by apply Keeps_refl]. simpl negb. cbv iota.
    destruct (Pairing.Approve _ _ _ _ _) as [[m w] r] eqn:HA.
    destruct (Approve_effect _ _ _ _ _ _ _ _ (fi_exclusive _ Hi) HA) as [Hx He].
    destruct r as [version|e]; simpl in He.
    + destruct He as (_ & _ & _ & [Hdead _]).
      eapply settle_keeps; try done. right. right. split; [done|]. exists w, version. split; [done|].
      by destruct (manager_Approve_identity _ _ _ _ _ _ _ _ HA) as [[_ ?]|?].
    + assert (∀ r, live m r → live (invitations c) r) as Hlive by (intros r; by apply (effect_live _ Quiet)).
      simpl fst. destruct (invitationLost e).
      * eapply cancel_keeps; try done. right. by left.
      * destruct (manager_keeps (approveReason c now tnow sys id) c m Hi Hx Hlive) as [[? ? Hfl] ? ?].
        split; try done. split; try done. simpl. intros f0 Hf0. by destruct (Hfl f0 Hf0).
  - unfold Approve. destruct (expire_cases c now mnow Hi) as [[-> Hb]|(Hn & Hid & _)];
      [|rewrite flowLocked_none by done; by left].
    destruct (current c) as [f|] eqn:Hf; [|rewrite flowLocked_none by done; by left].
    destruct (flowLocked_some c id f Hf) as [[-> Hid]| ->]; [|by left].
    destruct (pending f) eqn:Hp; [|by left]. simpl negb. cbv iota.
    destruct (Pairing.Approve _ _ _ _ _) as [[m w] r] eqn:HA.
    assert (∀ x : Coordinator * result unit, x =
      match r with
      | Ok version => (completeLocked (c <| invitations := m |> <| identity := w |>) f
                         (mkPairingApproval APPROVAL_APPROVED version), Ok tt)
      | Err e => (if invitationLost e
                  then cancelLocked (c <| invitations := m |> <| identity := w |>) mnow f ErrFlowCanceled
                  else c <| invitations := m |> <| identity := w |>, Err e)
      end → identity x.1 = w) as Hw by (intros x ->; by repeat case_match).
    rewrite (Hw _ eq_refl).
    destruct (manager_Approve_identity _ _ _ _ _ _ _ _ HA) as [[-> _]|HP]; [by left|].
    right. exists f. rewrite HP. repeat split; eauto.
Qed.

Definition rejectReason c (now : Z) (id : string) f (d : decision) : Prop :=
  expired now f d ∨ d = Failed ErrFlowCanceled ∧ flow_id f = id ∨
  approvable c now id f ∧ d = Decided (mkPairingApproval APPROVAL_REJECTED 0).

Lemma Reject_keeps c now mnow id :
  FlowInv c → Keeps (rejectReason c now id) c (Reject c now mnow id).1 ∧
  identity (Reject c now mnow id).1 = identity c.
Proof.
  intros Hi. split.
  - unfold Reject. on_flow c f Hi Hf Hnow.
    destruct (pending f) eqn:Hp; [|by apply Keeps_refl]. simpl negb. cbv iota.
    destruct (Pairing.Reject _ _ _) as [m r] eqn:HR.
    destruct (Reject_effect _ _ _ _ _ (fi_exclusive _ Hi) HR) as [Hx He].
    destruct r as [[]|e]; simpl in He.
    + destruct He as (_ & _ & _ & [Hdead _]). eapply settle_keeps; try done. right. by right.
    + eapply cancel_keeps; try done; [right; by left|]. intros r. by apply (effect_live _ Quiet).
  - rewrite <- (expire_identity c now mnow). unfold Reject. repeat case_match; done.
Qed.

Lemma Cancel_keeps c mnow id :
  FlowInv c →
  Keeps (fun f d => d = Failed ErrFlowCanceled ∧ flow_id f = id) c (Cancel c mnow id) ∧
  identity (Cancel c mnow id) = identity c.
Proof.
  intros Hi. split; [|unfold Cancel; by repeat case_match]. unfold Cancel.
  destruct (current c) as [f|] eqn:Hf; [|by apply Keeps_refl].
  case_bool_decide; [|by apply Keeps_refl]. eapply cancel_keeps; try done. apply Hi.
Qed.

Lemma receive_keeps c s d :
  FlowInv c → holds c (Session_Decision s) d →
  FlowInv (receive c s d).1 ∧ Spent (receive c s d).1 (Session_Decision s) ∧
  ∀ ch, Spent c ch → Spent (receive c s d).1 ch.
Proof.
  intros Hi Hch.
  assert (channel_of c ≠ Some (Session_Decision s)) as Hne.
  { unfold channel_of. destruct (current c) as [f|] eqn:Hf; [|done]. simpl. intros [= Heq].
    pose proof (fo_channel _ _ (fi_flow _ Hi _ Hf)). unfold holds in Hch. congruence. }
  split_and!.
  - destruct Hi as [Hx Hl Hf]. split; [done|done|]. simpl. intros f Hf0. destruct (Hf f Hf0) as [? ? ? ?].
    split; simpl; try done. rewrite lookup_insert_ne; [done|]. intros Heq. apply Hne.
    unfold channel_of. rewrite Hf0. simpl. congruence.
  - split; simpl; [by rewrite lookup_insert_eq|done].
  - intros ch [Hs Hc]. split; [|done]. simpl. destruct (decide (Session_Decision s = ch)) as [->|];
      [by rewrite lookup_insert_eq|by rewrite lookup_insert_ne].
Qed.

(** ** Runs *)

(** A call of a method of the coordinator, of a session's [Wait], or of a method
    of the manager that others use while the coordinator works with it. *)
Inductive Call :=
  | CallStart (now mnow created : Z) (random : result bytes) (reader : Reader) (start : option HandshakeStart)
  | CallFinish (now mnow : Z) (id : string) (finish : option bytes)
  | CallCurrent (now mnow : Z)
  | CallApprove (now mnow tnow : Z) (sys : Syscalls) (id : string)
  | CallReject (now mnow : Z) (id : string)
  | CallCancel (mnow : Z) (id : string)
  | CallWait (s : Session) (cancelled : option error) (prefer : bool)
  | CallCreate (hints : list string) (agent : result (option SignedDeviceDescriptor))
      (randomID randomSecret : result bytes) (mnow : Z)
  | CallActiveStatus (mnow : Z)
  | CallAuthenticate (mnow : Z) (id secret : bytes)
  | CallConsume (mnow : Z) (id secret : bytes)
  | CallClose.

Definition exec c (call : Call) : Coordinator :=
  match call with
  | CallStart now mnow created random reader start => (Start c now mnow created random reader start).1
  | CallFinish now mnow id finish => (Finish c now mnow id finish).1
  | CallCurrent now mnow => (Current c now mnow).1
  | CallApprove now mnow tnow sys id => (Approve c now mnow tnow sys id).1
  | CallReject now mnow id => (Reject c now mnow id).1
  | CallCancel mnow id => Cancel c mnow id
  | CallWait s cancelled prefer => (Wait c s cancelled prefer).1
  | CallCreate hints agent randomID randomSecret mnow =>
      c <| invitations ::= fun m => (Create m hints agent randomID randomSecret mnow).1 |>
  | CallActiveStatus mnow => c <| invitations ::= fun m => (ActiveStatus m mnow).1 |>
  | CallAuthenticate mnow id sec => c <| invitations ::= fun m => (Authenticate m mnow id sec).1 |>
  | CallConsume mnow id sec => c <| invitations ::= fun m => (Consume m mnow id sec).1 |>
  | CallClose => c <| invitations ::= Close |>
  end.

(** The decision a call has received, and from which channel. *)
Definition received c (call : Call) : option (nat * decision) :=
  match call with
  | CallWait s cancelled prefer =>
      match channels c !! Session_Decision s with
      | Some (Some d) => if bool_decide (is_Some cancelled) && prefer then None else Some (Session_Decision s, d)
      | _ => None
      end
  | _ => None
  end.

(** A run from a new coordinator: the state it reaches and the decisions received
    on the way. *)
Definition initial (ttl timeout : Z) (w : Files * Store) : Coordinator :=
  mkCoordinator (mkManager ttl None ∅) w timeout None ∅.

Fixpoint run c (calls : list Call) : list (nat * decision) * Coordinator :=
  match calls with
  | [] => ([], c)
  | call :: calls' =>
      let '(got, c') := run (exec c call) calls' in
      (match received c call with Some x => x :: got | None => got end, c')
  end.

(** Why a call may decide the flow in progress. *)
Definition callReason c (call : Call) f (d : decision) : Prop :=
  match call with
  | CallStart now _ _ _ _ _ | CallCurrent now _ => expired now f d
  | CallFinish now _ id _ => finishReason now id f d
  | CallApprove now _ tnow sys id => approveReason c now tnow sys id f d
  | CallReject now _ id => rejectReason c now id f d
  | CallCancel _ id => d = Failed ErrFlowCanceled ∧ flow_id f = id
  | _ => False
  end.

Lemma Wait_received c s cancelled prefer :
  match received c (CallWait s cancelled prefer) with
  | Some (ch, d) => ch = Session_Decision s ∧ holds c ch d ∧ Wait c s cancelled prefer = receive c s d
  | None => (Wait c s cancelled prefer).1 = c
  end.
Proof. unfold received, Wait, holds. by destruct (channels c !! _) as [[d|]|] eqn:Hch, cancelled, prefer. Qed.

Lemma manager_step_keeps why c (m : Manager) e :
  FlowInv c → pairing_step (invitations c) e m → (∀ r, e ≠ Reserved r) →
  Keeps why c (c <| invitations := m |>).
Proof.
  intros Hi Hstep Hne. destruct (step_effect _ _ _ Hstep (fi_exclusive _ Hi)) as [Hx He].
  apply manager_keeps; [done|done|]. intros r. by eapply effect_live.
Qed.

Lemma exec_keeps c call :
  FlowInv c → received c call = None → Keeps (callReason c call) c (exec c call).
Proof.
  intros Hi Hrec. destruct call; simpl exec.
  - by apply Start_keeps.
  - by apply Finish_keeps.
  - simpl. destruct (expire_cases c now mnow Hi) as [[-> _]|(_ & _ & ?)]; [by apply Keeps_refl|done].
  - by apply Approve_keeps.
  - by apply Reject_keeps.
  - by apply Cancel_keeps.
  - pose proof (Wait_received c s cancelled prefer) as Hw. rewrite Hrec in Hw. rewrite Hw. by apply Keeps_refl.
  - eapply manager_step_keeps; [done|by eapply step_create, surjective_pairing|by destruct (is_ok _)].
  - eapply manager_step_keeps; [done|by eapply step_status, surjective_pairing|done].
  - eapply manager_step_keeps; [done|by eapply step_authenticate, surjective_pairing|done].
  - eapply manager_step_keeps; [done|by eapply step_consume, surjective_pairing|by destruct (is_ok _)].
  - eapply manager_step_keeps; [done|apply step_close|done].
Qed.

(** A received decision was held, and its channel, and no other, is spent by it. *)
Lemma exec_receives c call ch d :
  FlowInv c → received c call = Some (ch, d) →
  FlowInv (exec c call) ∧ holds c ch d ∧ (∀ ch', Spent (exec c call) ch' ↔ Spent c ch' ∨ ch' = ch) ∧
  ∀ ch' d', holds (exec c call) ch' d' → holds c ch' d'.
Proof.
  intros Hi Hr. destruct call; try done. pose proof (Wait_received c s cancelled prefer) as Hw.
  rewrite Hr in Hw. destruct Hw as (-> & Hh & Hw). simpl. rewrite Hw.
  destruct (receive_keeps c s d Hi Hh) as (? & ? & HS). split_and!; [done|done| |].
  - intros ch'. split; [|intros [?| ->]; auto]. unfold Spent. simpl. rewrite lookup_insert_Some. naive_solver.
  - intros ch' d'. unfold holds. simpl. rewrite lookup_insert_Some. naive_solver.
Qed.

Lemma exec_inv c call : FlowInv c → FlowInv (exec c call).
Proof.
  intros Hi. destruct (received c call) as [[ch d]|] eqn:Hr; [by eapply exec_receives|by eapply exec_keeps].
Qed.

Lemma initial_inv ttl timeout w : FlowInv (initial ttl timeout w).
Proof. split; [apply Exclusive_new| |done]. intros r. unfold live. simpl. by rewrite lookup_empty. Qed.

Lemma run_inv c calls : FlowInv c → FlowInv (run c calls).2.
Proof.
  revert c. induction calls as [|call calls IH]; intros c Hi; [done|]. simpl.
  destruct (run (exec c call) calls) as [got c'] eqn:Hr. simpl.
  specialize (IH _ (exec_inv c call Hi)). by rewrite Hr in IH.
Qed.

(** Along a run: nothing is received twice, or from a channel that was spent; and
    the channels it spends are those it has received from. *)
Lemma run_received c calls :
  FlowInv c → NoDup (run c calls).1.*1 ∧ (∀ ch, ch ∈ (run c calls).1.*1 → ~ Spent c ch) ∧
  ∀ ch, Spent (run c calls).2 ch ↔ Spent c ch ∨ ch ∈ (run c calls).1.*1.
Proof.
  revert c. induction calls as [|call calls IH]; intros c Hi; [simpl; split_and!; [constructor|set_solver..]|].
  destruct (IH _ (exec_inv c call Hi)) as (Hnd & Hns & Hs). simpl.
  destruct (run (exec c call) calls) as [got c'] eqn:Hr. simpl in *.
  destruct (received c call) as [[ch d]|] eqn:Hrec; simpl.
  - destruct (exec_receives _ _ _ _ Hi Hrec) as (_ & Hh & HS & _). setoid_rewrite HS in Hns.
    setoid_rewrite HS in Hs. assert (~ Spent c ch) by (intros [Hs' _]; unfold holds in Hh; congruence).
    split_and!; [constructor; [|done]; intros Hin; apply (Hns _ Hin); by right| |].
    + intros ch' [->|Hin]%elem_of_cons; [done|]. intros ?. apply (Hns _ Hin). by left.
    + intros ch'. rewrite Hs, elem_of_cons. tauto.
  - pose proof (kp_spent _ _ _ (exec_keeps c call Hi Hrec)) as HS. setoid_rewrite HS in Hns.
    setoid_rewrite HS in Hs. done.
Qed.

Lemma exec_identity c call :
  FlowInv c → identity (exec c call) = identity c ∨
  ∃ now mnow tnow sys id f, call = CallApprove now mnow tnow sys id ∧ approvable c now id f ∧
    identity (exec c call) = (persistPeer tnow sys (flow_peer f) (identity c)).1.
Proof.
  intros Hi. destruct call; try (by left); simpl.
  - left. by apply Start_keeps.
  - left. by apply Finish_keeps.
  - left. apply expire_identity.
  - destruct (Approve_keeps c now mnow tnow sys id Hi) as [_ [?|(f & ? & ?)]]; [by left|].
    right. exists now, mnow, tnow, sys, id, f. done.
  - left. by apply Reject_keeps.
  - left. by apply Cancel_keeps.
  - left. pose proof (Wait_received c s cancelled prefer) as Hw.
    destruct (received _ _) as [[ch d]|]; [by destruct Hw as (_ & _ & ->)|by rewrite Hw].
Qed.

Lemma expire_timeout c now mnow : approvalTimeout (expireLocked c now mnow) = approvalTimeout c.
Proof. unfold expireLocked. repeat case_match; done. Qed.

Lemma exec_timeout c call : approvalTimeout (exec c call) = approvalTimeout c.
Proof.
  destruct call; try done; simpl; unfold Start, Finish, Approve, Reject, Cancel, Wait;
    repeat case_match; simpl; rewrite ?expire_timeout; done.
Qed.

Lemma run_timeout c calls : approvalTimeout (run c calls).2 = approvalTimeout c.
Proof.
  revert c. induction calls as [|call calls IH]; intros c; [done|]. simpl.
  specialize (IH (exec c call)). destruct (run (exec c call) calls). simpl in *. by rewrite IH, exec_timeout.
Qed.

Lemma Release_active m mnow r a :
  active m = Some a → mnow < expiresAt a →
  ∃ a', active (Release m mnow (Some r)).1 = Some a' ∧ invitation a' = invitation a ∧ secret a' = secret a.
Proof.
  intros Ha Hexp. unfold Release, validateReservationLocked. rewrite Ha.
  replace (mnow <? expiresAt a) with true by lia. simpl.
  destruct (_ || _); simpl; [by exists a|]. rewrite Ha. by eexists.
Qed.

(** When the flow in progress, if any, is past its deadline, the invitation is
    free again. *)
Lemma expire_frees c now mnow a :
  FlowInv c → (∀ f, current c = Some f → Snap_ExpiresAt (flow_snapshot f) <= now) →
  active (invitations c) = Some a → mnow < expiresAt a →
  current (expireLocked c now mnow) = None ∧ ∃ a', active (invitations (expireLocked c now mnow)) = Some a' ∧
    invitation a' = invitation a ∧ secret a' = secret a ∧ reservation a' = None.
Proof.
  intros Hi Hold Ha Hexp.
  assert (current (expireLocked c now mnow) = None ∧ ∃ a', active (invitations (expireLocked c now mnow)) = Some a' ∧
    invitation a' = invitation a ∧ secret a' = secret a) as (Hcur & a' & Ha' & ? & ?).
  { unfold expireLocked. destruct (current c) as [f|] eqn:Hf; [|by eauto].
    specialize (Hold f eq_refl). replace (now <? _) with false by lia. split; [done|]. by apply Release_active. }
  split; [done|]. exists a'. split_and!; try done. destruct (reservation a') as [r|] eqn:Hr; [|done].
  assert (FlowInv (expireLocked c now mnow)) as [Hx Hl _].
  { destruct (expire_cases c now mnow Hi) as [[-> _]|(_ & _ & [? _ _])]; done. }
  destruct (Hl r) as (f & ? & _); [apply Hx; eauto|congruence].
Qed.

(** ** Properties *)

(** C13: only the user's approval authorizes, and it authorizes the device whose
    code the user has seen.  In every run of the coordinator, whatever calls are
    made on it and on the manager, a call changes the identity only when it approves
    the flow in progress, which is pending, unexpired and has the identifier the
    approval names; the peer then given to [Authorize] has a verified client
    descriptor with the device identifier shown, its key-agreement key is the one
    Noise authenticated, and the code shown is that handshake's.  A device is told
    that it is approved only by such a call, when [Authorize] has succeeded with
    the version it is told. *)
Theorem only_approval_authorizes ttl timeout w calls call :
  let c := (run (initial ttl timeout w) calls).2 in
  let approved now tnow sys id f w' r :=
    approvable c now id f ∧ Genuine (flow_peer f) DEVICE_CLASS_CLIENT (Snap_DeviceID (flow_snapshot f)) ∧
    (∃ hs, noise_PeerStatic hs = keyOf (flow_peer f) ∧
      Snap_SAS (flow_snapshot f) = pairingSAS (noise_ChannelBinding hs)) ∧
    persistPeer tnow sys (flow_peer f) (identity c) = (w', r) in
  (identity (exec c call) ≠ identity c → ∃ now mnow tnow sys id f r,
    call = CallApprove now mnow tnow sys id ∧ approved now tnow sys id f (identity (exec c call)) r) ∧
  (∀ ch version, let d := Decided (mkPairingApproval APPROVAL_APPROVED version) in
    holds (exec c call) ch d → ~ holds c ch d → ∃ now mnow tnow sys id f w',
    call = CallApprove now mnow tnow sys id ∧ flow_decision f = ch ∧
    approved now tnow sys id f w' (Ok version)).
Proof.
  intros c approved. pose proof (run_inv _ calls (initial_inv ttl timeout w)) as Hi. fold c in Hi.
  assert (∀ now tnow sys id f w' r, approvable c now id f →
    persistPeer tnow sys (flow_peer f) (identity c) = (w', r) → approved now tnow sys id f w' r) as Happ.
  { intros now tnow sys id f w' r Ha HP. pose proof Ha as (Hcur & _ & Hp & _).
    destruct (fi_flow _ Hi _ Hcur) as [? _ _ Hau]. unfold pending in Hp. split_bool.
    unfold approved. split_and!; auto. }
  split.
  - intros Hne. destruct (exec_identity c call Hi) as [?|(now & mnow & tnow & sys & id & f & -> & Ha & HP)]; [done|].
    eexists now, mnow, tnow, sys, id, f, _. split; [done|]. apply Happ; [done|].
    rewrite HP. apply surjective_pairing.
  - intros ch version d Hh Hn.
    destruct (received c call) as [[ch' d']|] eqn:Hrec.
    { destruct (exec_receives _ _ _ _ Hi Hrec) as (_ & _ & _ & Hkeep). by destruct Hn; apply Hkeep. }
    destruct (kp_told _ _ _ (exec_keeps c call Hi Hrec) _ _ Hh) as [?|(f & Hf & Hch & Hwhy)]; [done|].
    destruct call; simpl in Hwhy; unfold expired, finishReason, rejectReason, approveReason, expired in Hwhy;
      try naive_solver.
Qed.

(** A flow is decided once and its decision is not lost.  In every run, no
    channel is received from twice, and the channel of every flow that was ever
    started is in exactly one of three states: its flow is still in progress and
    nothing was sent; it holds the decision and nobody has received it; or the
    decision was received. *)
Theorem flow_told_exactly_once ttl timeout w calls :
  let got := (run (initial ttl timeout w) calls).1 in
  let c := (run (initial ttl timeout w) calls).2 in
  NoDup got.*1 ∧
  ∀ ch o, channels c !! ch = Some o →
    match o with
    | Some d => channel_of c ≠ Some ch ∧ ch ∉ got.*1
    | None => channel_of c = Some ch ∧ ch ∉ got.*1 ∨ channel_of c ≠ Some ch ∧ ch ∈ got.*1
    end.
Proof.
  intros got c. pose proof (run_inv _ calls (initial_inv ttl timeout w)) as Hi. fold c in Hi.
  destruct (run_received _ calls (initial_inv ttl timeout w)) as (Hnd & _ & Hs). fold got c in Hnd, Hs.
  split; [done|]. intros ch o Ho.
  assert (∀ ch, Spent c ch ↔ ch ∈ got.*1) as Hgot.
  { intros ch'. rewrite Hs. split; [intros [[Hn _]|?]; [|done]|by right]. simpl in Hn. by rewrite lookup_empty in Hn. }
  destruct o as [d|]; rewrite <- Hgot; unfold Spent.
  - split; [|rewrite Ho; naive_solver]. unfold channel_of. destruct (current c) as [f|] eqn:Hf; [|done].
    pose proof (fo_channel _ _ (fi_flow _ Hi _ Hf)). simpl. congruence.
  - destruct (decide (channel_of c = Some ch)); [left|right]; naive_solver.
Qed.

(** C39: an abandoned flow does not block the invitation.  In every run, when no
    flow is in progress or the one in progress has reached its deadline, the active
    invitation is free once [Start] has looked at the deadline; so a phone whose
    first message the handshake accepts gets its response.  The deadline of the
    flow this starts is at most the approval timeout away and not after the
    invitation's. *)
Theorem start_is_served ttl timeout w calls now mnow created flowIDRaw reader start context message agent private a :
  let c := (run (initial ttl timeout w) calls).2 in
  (∀ f, current c = Some f → Snap_ExpiresAt (flow_snapshot f) <= now) →
  active (invitations c) = Some a → mnow < expiresAt a →
  start = mkHandshakeStart (Some context) message →
  Inv_InvitationId (invitation a) = Ctx_InvitationId context → len (Ctx_InvitationId context) = InvitationIDBytes →
  Descriptor (identity c).2 = Ok agent → KeyAgreementPrivateKey (identity c).2 = Ok private →
  is_ok (AcceptPairingStart (mkPairingResponderConfig (Some context) (Some agent) private (secret a) reader)
           (Some start)) = true →
  NewPairingContext (Ctx_InitiatorDeviceId context) (idOf agent) (Ctx_InvitationId context) [] = Ok context →
  is_Some (Signed_Descriptor agent) →
  ∃ c' response f, Start c now mnow created (Ok flowIDRaw) reader (Some start)
      = (c', Ok (RawURL_Encode flowIDRaw, response)) ∧
    current c' = Some f ∧ flow_id f = RawURL_Encode flowIDRaw ∧
    Snap_ExpiresAt (flow_snapshot f) <= created + timeout ∧ Snap_ExpiresAt (flow_snapshot f) <= expiresAt a.
Proof.
  intros c Hold Ha Hexp -> Hid Hlen Hd Hk Hacc Hctx Hsd.
  pose proof (run_inv _ calls (initial_inv ttl timeout w)) as Hi.
  pose proof (run_timeout (initial ttl timeout w) calls) as Htime. fold c in Hi, Htime. simpl in Htime.
  destruct (expire_frees c now mnow a Hi Hold Ha Hexp) as (Hcur & a' & Ha' & Hinv & Hsec & Hres).
  unfold Start. rewrite Hcur, expire_identity, Hd, bool_decide_true, Hctx, Hk by done. simpl.
  unfold Begin, matchInvitationLocked. rewrite Ha'.
  assert (expiresAt a' = expiresAt a) as He by (unfold expiresAt; by rewrite Hinv).
  rewrite He, Hinv, Hid, Hlen, (bool_decide_true (Ctx_InvitationId context = _)) by done.
  replace (mnow <? expiresAt a) with true by lia. simpl. rewrite Hres, Hsec.
  destruct (AcceptPairingStart _ _) as [[[responder response] peer]|]; [|done].
  eexists _, response, _. split_and!; [done|done|done|..]; simpl;
    rewrite ?expire_timeout, ?Htime, ?He; case_match; lia.
Qed.
End FlowFacts.
