(* ===== verification/PairingTransport.v ===== *)
(** * The pairing connection ([cmd/vibebridge/pairing_transport.go])

    The WebSocket a phone opens to be paired: its handler drives the coordinator
    of [PairingFlow], waits for the local user, and gives the flow up when it
    returns.  A handler calls the coordinator a few times and other requests may
    come in between, so it is a record of where it stands and each of its calls is
    a step; [PairingWorld] puts any number of them beside the local user.  What
    comes from the socket, the clock and the random source are arguments. *)

From S2P Require Import Prelude.
From S2P Require Import SecureStore.
From S2P Require Import Ticket.
From S2P Require Import DeviceIdentity.
From S2P Require Import Pairing.
From S2P Require Import Handshake.
From S2P Require Import PairingFlow.
From S2P Require Import PairingFlowFacts.

Definition pairingTransportPath : string := "/pairing/v1".
Definition maxPairingFrameBytes : Z := 64 * 1024.

(** [pairingflow.WebSocketSubprotocol]. *)
Definition PairingSubprotocol : string := "vibebridge.pairing.v1".

(** [websocket.BinaryMessage] and the close codes. *)
Definition BinaryMessage : Z := 2.
Definition CloseNormalClosure : Z := 1000.
Definition CloseProtocolError : Z := 1002.
Definition ClosePolicyViolation : Z := 1008.

(** ** The request *)

(** What the handler and the upgrader read of it: the subprotocols are those of
    [websocket.Subprotocols]. *)
Record TransportRequest := mkTransportRequest {
  Method : string;
  RawQuery : string;
  Offered : list string;
  Origin : string;
  RequestHost : string;
}.

Definition offersPairingSubprotocol (r : TransportRequest) : bool :=
  existsb (fun offered => bool_decide (offered = PairingSubprotocol)) (Offered r).

Definition hasBackslash (s : string) : bool := bool_decide ("\"%char ∈ list_ascii_of_string s).

Definition samePairingOrigin {url : GoUrl} (r : TransportRequest) : bool :=
  if bool_decide (Origin r = EmptyString) then false
  else match url_Parse (Origin r) with
  | Err _ => false
  | Ok u =>
      (bool_decide (url_Scheme u = "http"%string) || bool_decide (url_Scheme u = "https"%string)) &&
      negb (url_HasUser u) && bool_decide (url_Host u = RequestHost r) &&
      bool_decide (url_RawQuery u = EmptyString) && bool_decide (url_Fragment u = EmptyString) &&
      (bool_decide (url_Path u = EmptyString) || bool_decide (url_Path u = "/"%string)) &&
      negb (hasBackslash (Origin r))
  end.

(** The answer before the upgrade: a status, or the upgrade, which checks the
    origin; [upgraded] is the rest of the upgrade. *)
Inductive Admission := Refused (status : Z) | NotUpgraded | Upgraded.

Definition admit_pairing {url : GoUrl} (r : TransportRequest) (upgraded : bool) : Admission :=
  if negb (bool_decide (Method r = "GET"%string)) then Refused 405
  else if negb (bool_decide (RawQuery r = EmptyString)) || negb (offersPairingSubprotocol r) then Refused 426
  else if samePairingOrigin r && upgraded then Upgraded else NotUpgraded.

Section PairingTransport.
Context {crypto : IdentityCrypto} {noise : Noise} {url : GoUrl} {codec : InvitationCodec}.
Context `{!ProtoMsg HandshakeContext} `{!ProtoMsg PairingInitiatorPayload}
  `{!ProtoMsg PairingResponderPayload} `{!ProtoMsg PairingFinishPayload} `{!ProtoMsg PairingApproval}.
Context `{!JsonCodec envelope} `{!JsonCodec persistedState}.

(** ** Frames *)

Record PairingHandshakeResponse := mkPairingHandshakeResponse { Response_NoiseMessage : bytes }.
Record PairingHandshakeFinish := mkPairingHandshakeFinish { Finish_NoiseMessage : bytes }.
Context `{!ProtoMsg HandshakeStart} `{!ProtoMsg PairingHandshakeResponse} `{!ProtoMsg PairingHandshakeFinish}.

(** [message] is the outcome of [ReadMessage]. *)
Definition readPairingFrame {A} `{ProtoMsg A} (message : result (Z * bytes)) : result A :=
  match message with
  | Err e => Err e
  | Ok (messageType, encoded) =>
      if negb (messageType =? BinaryMessage) || (len encoded =? 0) || (len encoded >? maxPairingFrameBytes) then
        Err (ErrorString "pairing frame must be bounded binary protobuf")
      else match msg_Unmarshal encoded with
      | Err _ => Err (ErrorString "pairing frame is invalid")
      | Ok m => if msg_HasUnknownFields (A := A) encoded then Err (ErrorString "pairing frame is invalid") else Ok m
      end
  end.

(** What a handler has given to the socket. *)
Inductive Frame := Binary (payload : bytes) | Closing (code : Z).

(** [outcome] is that of [WriteMessage]; a frame whose write failed is not
    counted as sent. *)
Definition writePairingBytes (outcome : result unit) (encoded : bytes) (sent : list Frame)
    : list Frame * result unit :=
  if (len encoded =? 0) || (len encoded >? maxPairingFrameBytes) then
    (sent, Err (ErrorString "pairing frame is invalid"))
  else match outcome with
  | Ok _ => (sent ++ [Binary encoded], Ok tt)
  | Err e => (sent, Err e)
  end.

Definition writePairingFrame {A} `{ProtoMsg A} (outcome : result unit) (message : A) (sent : list Frame)
    : list Frame * result unit :=
  match msg_Marshal message with
  | Err _ => (sent, Err (ErrorString "pairing frame is invalid"))
  | Ok encoded =>
      if (len encoded =? 0) || (len encoded >? maxPairingFrameBytes) then
        (sent, Err (ErrorString "pairing frame is invalid"))
      else writePairingBytes outcome encoded sent
  end.

(** [writePairingClose]; its outcome is ignored. *)
Definition writePairingClose (code : Z) (sent : list Frame) : list Frame := sent ++ [Closing code].

(** ** The handler *)

Inductive Phase := AwaitingStart | AwaitingFinish | Deciding | Returning | Returned.

#[global] Instance Phase_eq_dec : EqDecision Phase.
Proof. solve_decision. Defined.

(** [flowID] and [session] are set once the deferred [Cancel] and [Close] are
    registered; [waiter] says that the goroutine in [session.Wait] runs, and
    [decisionResult] is its channel, which the handler receives from at most
    once. *)
Record Connection := mkConnection {
  phase : Phase;
  flowID : option string;
  session : option Session;
  waiter : bool;
  decisionResult : option (result PairingApproval);
  sent : list Frame;
}.

#[global] Instance Connection_eta : Eta Connection := fun h =>
  mkConnection (phase h) (flowID h) (session h) (waiter h) (decisionResult h) (sent h).

Definition accepted_connection : Connection := mkConnection AwaitingStart None None false None [].

(** The readings a call of [Start] makes of its surroundings. *)
Record StartEnv := mkStartEnv {
  start_now : Z; start_mnow : Z; start_created : Z;
  start_random : result bytes; start_reader : Reader;
}.

Definition onStart (c : Coordinator) (h : Connection) (e : StartEnv) (message : result (Z * bytes))
    (outcome : result unit) : Coordinator * Connection :=
  match phase h with
  | AwaitingStart =>
      match readPairingFrame message with
      | Err _ => (c, h <| sent ::= writePairingClose CloseProtocolError |> <| phase := Returned |>)
      | Ok start =>
          match Start c (start_now e) (start_mnow e) (start_created e) (start_random e) (start_reader e)
                  (Some start) with
          | (c, Err _) => (c, h <| sent ::= writePairingClose ClosePolicyViolation |> <| phase := Returned |>)
          | (c, Ok (id, response)) =>
              let h := h <| flowID := Some id |> in
              match writePairingFrame outcome (mkPairingHandshakeResponse response) (sent h) with
              | (frames, Err _) => (c, h <| sent := frames |> <| phase := Returning |>)
              | (frames, Ok _) => (c, h <| sent := frames |> <| phase := AwaitingFinish |>)
              end
          end
      end
  | _ => (c, h)
  end.

Definition pendingApproval : PairingApproval := mkPairingApproval APPROVAL_PENDING 0.

Definition onFinish (c : Coordinator) (h : Connection) (now mnow : Z) (message : result (Z * bytes))
    (outcome : result unit) : Coordinator * Connection :=
  match phase h, flowID h with
  | AwaitingFinish, Some id =>
      match readPairingFrame message with
      | Err _ => (c, h <| sent ::= writePairingClose CloseProtocolError |> <| phase := Returning |>)
      | Ok finish =>
          match Finish c now mnow id (Some (Finish_NoiseMessage finish)) with
          | (c, Err _) => (c, h <| sent ::= writePairingClose ClosePolicyViolation |> <| phase := Returning |>)
          | (c, Ok s) =>
              let '(s, pending) := Session_Encrypt s (Some pendingApproval) in
              let h := h <| session := Some s |> in
              match pending with
              | Err _ => (c, h <| phase := Returning |>)
              | Ok frame =>
                  match writePairingBytes outcome frame (sent h) with
                  | (frames, Err _) => (c, h <| sent := frames |> <| phase := Returning |>)
                  | (frames, Ok _) =>
                      (c, h <| sent := frames |> <| waiter := true |> <| phase := Deciding |>)
                  end
              end
          end
      end
  | _, _ => (c, h)
  end.

(** The goroutine in [session.Wait], whose context is never cancelled. *)
Definition onWait (c : Coordinator) (h : Connection) : Coordinator * Connection :=
  match waiter h, session h with
  | true, Some s =>
      match Wait c s None false with
      | (c, None) => (c, h)
      | (c, Some r) => (c, h <| waiter := false |> <| decisionResult := Some r |>)
      end
  | _, _ => (c, h)
  end.

(** The three cases of the [select]. *)
Definition onDecision (h : Connection) (outcome : result unit) : Connection :=
  match phase h, decisionResult h, session h with
  | Deciding, Some (Err _), _ =>
      h <| sent ::= writePairingClose ClosePolicyViolation |> <| phase := Returning |>
  | Deciding, Some (Ok approval), Some s =>
      let '(s, frame) := Session_Encrypt s (Some approval) in
      let h := h <| session := Some s |> in
      match frame with
      | Err _ => h <| phase := Returning |>
      | Ok finalFrame =>
          match writePairingBytes outcome finalFrame (sent h) with
          | (frames, Err _) => h <| sent := frames |> <| phase := Returning |>
          | (frames, Ok _) =>
              h <| sent := writePairingClose CloseNormalClosure frames |> <| phase := Returning |>
          end
      end
  | _, _, _ => h
  end.

Definition onPeerActivity (c : Coordinator) (h : Connection) (mnow : Z) : Coordinator * Connection :=
  match phase h, flowID h with
  | Deciding, Some id => (Cancel c mnow id, h <| phase := Returning |>)
  | _, _ => (c, h)
  end.

Definition onTimer (c : Coordinator) (h : Connection) (mnow : Z) : Coordinator * Connection :=
  match phase h, flowID h with
  | Deciding, Some id =>
      (Cancel c mnow id, h <| sent ::= writePairingClose ClosePolicyViolation |> <| phase := Returning |>)
  | _, _ => (c, h)
  end.

(** The deferred calls: the session is closed, then the flow canceled. *)
Definition onReturn (c : Coordinator) (h : Connection) (mnow : Z) : Coordinator * Connection :=
  match phase h, flowID h with
  | Returning, Some id =>
      (Cancel c mnow id, h <| session ::= fmap Session_Close |> <| phase := Returned |>)
  | _, _ => (c, h)
  end.

(** ** Connections and the local user *)

Record PairingWorld := mkPairingWorld {
  coordinator : Coordinator;
  connections : list Connection;
}.

#[global] Instance PairingWorld_eta : Eta PairingWorld := fun w => mkPairingWorld (coordinator w) (connections w).

(** The calls the rest of the Agent makes: those of the management endpoints on
    the coordinator and on the manager of invitations. *)
Definition localCall (call : Call) : bool :=
  match call with
  | CallStart _ _ _ _ _ _ | CallFinish _ _ _ _ | CallCancel _ _ | CallWait _ _ _ => false
  | _ => true
  end.

Inductive WorldStep :=
  | Connect
  | StartFrame (i : nat) (e : StartEnv) (message : result (Z * bytes)) (outcome : result unit)
  | FinishFrame (i : nat) (now mnow : Z) (message : result (Z * bytes)) (outcome : result unit)
  | WaitReturns (i : nat)
  | DecisionTaken (i : nat) (outcome : result unit)
  | PeerActivity (i : nat) (mnow : Z)
  | TimerFires (i : nat) (mnow : Z)
  | HandlerReturns (i : nat) (mnow : Z)
  | Local (call : Call).

Definition on_connection (w : PairingWorld) (i : nat) (f : Coordinator → Connection → Coordinator * Connection)
    : PairingWorld :=
  match connections w !! i with
  | None => w
  | Some h => let '(c, h) := f (coordinator w) h in mkPairingWorld c (<[i := h]> (connections w))
  end.

Definition world_step (w : PairingWorld) (step : WorldStep) : PairingWorld :=
  match step with
  | Connect => w <| connections ::= fun l => l ++ [accepted_connection] |>
  | StartFrame i e message outcome => on_connection w i (fun c h => onStart c h e message outcome)
  | FinishFrame i now mnow message outcome => on_connection w i (fun c h => onFinish c h now mnow message outcome)
  | WaitReturns i => on_connection w i onWait
  | DecisionTaken i outcome => on_connection w i (fun c h => (c, onDecision h outcome))
  | PeerActivity i mnow => on_connection w i (fun c h => onPeerActivity c h mnow)
  | TimerFires i mnow => on_connection w i (fun c h => onTimer c h mnow)
  | HandlerReturns i mnow => on_connection w i (fun c h => onReturn c h mnow)
  | Local call => if localCall call then w <| coordinator ::= fun c => exec c call |> else w
  end.

Definition world_run (w : PairingWorld) (steps : list WorldStep) : PairingWorld := foldl world_step w steps.
End PairingTransport.
