(* ===== verification/PairingTransportFacts.v ===== *)
(** * The pairing connection: who owns a flow, and what a phone is told

    The invariant of [PairingWorld]: a flow in progress belongs to a connection
    that will give it up, a channel to one session, and what a connection has
    written follows its handshake.  At the end, what is shown of the flow in
    progress while it waits. *)

From S2P Require Import Prelude.
From S2P Require Import Encoding.
From S2P Require Import SecureStore.
From S2P Require Import Ticket.
From S2P Require Import DeviceIdentity.
From S2P Require Import Pairing.
From S2P Require Import PairingFacts.
From S2P Require Import Handshake.
From S2P Require Import HandshakeFacts.
From S2P Require Import PairingFlow.
From S2P Require Import PairingFlowFacts.
From S2P Require Import PairingTransport.

Section PairingTransportFacts.
Context {crypto : IdentityCrypto} {noise : Noise} {url : GoUrl} {codec : InvitationCodec}.
Context `{!ProtoMsg HandshakeContext} `{!ProtoMsg PairingInitiatorPayload}
  `{!ProtoMsg PairingResponderPayload} `{!ProtoMsg PairingFinishPayload} `{!ProtoMsg PairingApproval}.
Context `{!JsonCodec envelope} `{!JsonCodec persistedState}.
Context `{!ProtoMsg HandshakeStart} `{!ProtoMsg PairingHandshakeResponse} `{!ProtoMsg PairingHandshakeFinish}.
Implicit Types (c : Coordinator) (f : flow) (s : Session) (h : Connection) (w : PairingWorld).

(** ** What the calls do to the flow in progress *)

(** Nothing, or the flow ends and its channel holds a decision. *)
Definition Move c c' : Prop :=
  current c' = current c ∧ channels c' = channels c ∨
  ∃ f d, current c = Some f ∧ current c' = None ∧ channels c' = <[flow_decision f := Some d]> (channels c).

Lemma Move_same c c' : current c' = current c → channels c' = channels c → Move c c'.
Proof. by left. Qed.

Lemma Move_refl c : Move c c.
Proof. by left. Qed.

Lemma settle_Move c c' f d :
  FlowInv c → current c = Some f → current c' = None →
  channels c' = trySend (flow_decision f) d (channels c) → Move c c'.
Proof.
  intros Hi Hf Hn Hch. right. exists f, d. rewrite trySend_empty in Hch; [done|].
  by apply (fo_channel _ _ (fi_flow _ Hi _ Hf)).
Qed.

Lemma expire_Move c now mnow : FlowInv c → Move c (expireLocked c now mnow).
Proof.
  intros Hi. unfold expireLocked. destruct (current c) as [f|] eqn:Hf; [|apply Move_refl].
  case_match; [apply Move_refl|]. by eapply settle_Move.
Qed.

(** A method that does nothing without a flow, after the look at the clock. *)
Lemma Move_after c now mnow c' :
  FlowInv c → (current (expireLocked c now mnow) = None → c' = expireLocked c now mnow) →
  (∀ f, current c = Some f → expireLocked c now mnow = c → Move c c') → Move c c'.
Proof.
  intros Hi Hn Hs. destruct (expire_cases c now mnow Hi) as [[He _]|(He & _)].
  - destruct (current c) as [f|] eqn:Hf; [by eapply Hs|]. rewrite He in Hn. rewrite (Hn Hf). apply Move_refl.
  - rewrite (Hn He). by apply expire_Move.
Qed.

#[local] Ltac on_flow c Hi f Hf Hid :=
  eapply (Move_after c); [exact Hi|by intros Hn; rewrite flowLocked_none|];
  intros f Hf ->;
  match goal with |- context [flowLocked ?c ?id] =>
    destruct (flowLocked_some c id f Hf) as [[-> Hid]| ->]; [|by apply Move_refl] end.

Lemma Cancel_Move c mnow id : FlowInv c → Move c (Cancel c mnow id).
Proof.
  intros Hi. unfold Cancel. destruct (current c) as [f|] eqn:Hf; [|apply Move_refl].
  case_match; [apply Move_refl|]. by eapply settle_Move.
Qed.

Lemma Cancel_other c mnow id f : current (Cancel c mnow id) = Some f → current c = Some f ∧ flow_id f ≠ id.
Proof.
  unfold Cancel. destruct (current c) as [f'|] eqn:Hf; [|congruence].
  case_bool_decide; simpl; [done|]. rewrite Hf. by intros [= ->].
Qed.

Lemma Approve_Move c now mnow tnow sys id : FlowInv c → Move c (Approve c now mnow tnow sys id).1.
Proof.
  intros Hi. unfold Approve. on_flow c Hi f Hf Hid.
  destruct (negb (pending f)); [apply Move_refl|].
  destruct (Pairing.Approve _ _ _ _ _) as [[m v] [version|e]]; simpl; [by eapply settle_Move|].
  destruct (invitationLost e); [by eapply settle_Move|by left].
Qed.

Lemma Reject_Move c now mnow id : FlowInv c → Move c (Reject c now mnow id).1.
Proof.
  intros Hi. unfold Reject. on_flow c Hi f Hf Hid. destruct (negb (pending f)); [apply Move_refl|].
  destruct (Pairing.Reject _ _ _) as [m [[]|e]]; by eapply settle_Move.
Qed.

Lemma local_Move c call : FlowInv c → localCall call = true → Move c (exec c call).
Proof.
  intros Hi Hl. destruct call; try done; simpl;
    [by apply expire_Move|by apply Approve_Move|by apply Reject_Move|by left..].
Qed.

Lemma Start_Move c now mnow created random reader start c' r :
  FlowInv c → Start c now mnow created random reader start = (c', r) →
  Move c c' ∧ is_ok r = false ∨
  ∃ c1 f response, Move c c1 ∧ current c1 = None ∧ current c' = Some f ∧ r = Ok (flow_id f, response) ∧
    channels c1 !! flow_decision f = None ∧ channels c' = <[flow_decision f := None]> (channels c1) ∧
    Snap_State (flow_snapshot f) = StateHandshaking.
Proof.
  intros Hi HS. pose proof (expire_Move c now mnow Hi) as Hm. unfold Start in HS.
  set (c1 := expireLocked c now mnow) in *.
  destruct (current c1) as [f|] eqn:Hcur; [by simplify_eq; left|].
  destruct start as [[[context|] message]|]; [|by simplify_eq; left..].
  destruct (Descriptor (identity c1).2) as [agent|]; [|by simplify_eq; left].
  destruct (negb _); [by simplify_eq; left|].
  destruct (NewPairingContext _ _ _ _); [|by simplify_eq; left].
  destruct (KeyAgreementPrivateKey _); [|by simplify_eq; left]. destruct random; [|by simplify_eq; left].
  destruct (Begin _ _ _ _) as [m [[[rv status] [[responder response] peer]]|e]].
  - right. pose proof (is_fresh (dom (channels c1))) as Hch. apply not_elem_of_dom in Hch.
    injection HS as <- <-.
    eexists c1, _, response. split_and!; [exact Hm|exact Hcur|reflexivity|reflexivity|done|done|done].
  - left. injection HS as <- <-. split; [|by case_match]. 
    destruct Hm as [[? ?]|(f & d & ? & ? & ?)]; [by left|right; by exists f, d].
Qed.

Lemma Finish_Move c now mnow id finish c' r :
  FlowInv c → Finish c now mnow id finish = (c', r) →
  Move c c' ∧ is_ok r = false ∨
  ∃ f f' s, current c = Some f ∧ flow_id f = id ∧ Snap_State (flow_snapshot f) = StateHandshaking ∧
    current c' = Some f' ∧ channels c' = channels c ∧ flow_decision f' = flow_decision f ∧ flow_id f' = id ∧
    Snap_State (flow_snapshot f') = StatePending ∧ r = Ok s ∧ Session_FlowID s = id ∧
    Session_Snapshot s = flow_snapshot f' ∧ Session_Decision s = flow_decision f.
Proof.
  intros Hi HF. destruct (expire_cases c now mnow Hi) as [[He _]|(He & _)].
  2: { left. unfold Finish in HF. rewrite flowLocked_none in HF by done. simplify_eq.
       split; [by apply expire_Move|done]. }
  unfold Finish in HF. rewrite He in HF.
  destruct (current c) as [f|] eqn:Hf.
  2: { rewrite flowLocked_none in HF by done. simplify_eq. left. split; [apply Move_refl|done]. }
  destruct (flowLocked_some c id f Hf) as [[Hl Hid]|Hl]; rewrite Hl in HF;
    [|simplify_eq; left; split; [apply Move_refl|done]].
  destruct (Snap_State (flow_snapshot f)) eqn:Hst, (flow_responder f) as [responder|];
    try (simplify_eq; left; split; [apply Move_refl|done]).
  destruct (PairingResponder_Finish responder finish) as [r' [result|e]]; simplify_eq.
  - right. eexists f, _, _. split_and!; [done|done|done|reflexivity|done..].
  - left. split; [|done]. by eapply settle_Move.
Qed.

(** ** The invariant *)

(** A session, beside the coordinator it came from. *)
Record SessionOk c h s : Prop := {
  so_flow : flowID h = Some (Session_FlowID s);
  so_channel : is_Some (channels c !! Session_Decision s);
  so_current f : current c = Some f → flow_decision f = Session_Decision s →
    flow_id f = Session_FlowID s ∧ flow_snapshot f = Session_Snapshot s ∧
    Snap_State (flow_snapshot f) = StatePending;
  so_waiter : waiter h = true → (∃ d, holds c (Session_Decision s) d) ∨ channel_of c = Some (Session_Decision s);
  so_returned : phase h = Returned → channel_of c ≠ Some (Session_Decision s);
}.

Record ConnectionOk c h : Prop := {
  co_waiter : waiter h = true → is_Some (session h);
  co_early : phase h = AwaitingStart ∨ phase h = AwaitingFinish → session h = None;
  co_session s : session h = Some s → SessionOk c h s;
}.

Definition owns h f : Prop := flowID h = Some (flow_id f) ∧ phase h ≠ Returned.
Definition shows h f : Prop :=
  ∃ s, session h = Some s ∧ Session_Decision s = flow_decision f ∧ Session_Snapshot s = flow_snapshot f.

(** What of a session other objects see. *)
Definition sview s : string * Snapshot * nat := (Session_FlowID s, Session_Snapshot s, Session_Decision s).
Definition view h : option (string * Snapshot * nat) := sview <$> session h.
Definition channel h : option nat := snd <$> view h.

Record WorldInv w : Prop := {
  wi_flow : FlowInv (coordinator w);
  wi_connection i h : connections w !! i = Some h → ConnectionOk (coordinator w) h;
  wi_owner f : current (coordinator w) = Some f → ∃ i h, connections w !! i = Some h ∧ owns h f;
  wi_shown f : current (coordinator w) = Some f → Snap_State (flow_snapshot f) = StatePending →
    ∃ i h, connections w !! i = Some h ∧ shows h f;
  wi_distinct i j h k ch : connections w !! i = Some h → connections w !! j = Some k →
    channel h = Some ch → channel k = Some ch → i = j;
}.

Lemma Move_SessionOk c c' h s : Move c c' → SessionOk c h s → SessionOk c' h s.
Proof.
  intros [[Hc Hch]|(f & d & Hf & Hc & Hch)] [? ? Hcur Hw Hr].
  - split; unfold holds, channel_of in *; rewrite ?Hc, ?Hch; auto.
  - split; unfold holds, channel_of in *; rewrite ?Hc, ?Hch; simpl; try done.
    + destruct (decide (flow_decision f = Session_Decision s)) as [->|];
        [by rewrite lookup_insert_eq|by rewrite lookup_insert_ne].
    + intros Hwait. left. destruct (decide (flow_decision f = Session_Decision s)) as [->|Hne].
      * exists d. by rewrite lookup_insert_eq.
      * destruct (Hw Hwait) as [[d' Hd]|Heq]; [exists d'; by rewrite lookup_insert_ne|].
        rewrite Hf in Heq. simpl in Heq. congruence.
Qed.

Lemma Move_ConnectionOk c c' h : Move c c' → ConnectionOk c h → ConnectionOk c' h.
Proof. intros Hm [Hw He Hs]. split; [done|done|]. intros s Hs'. by eapply Move_SessionOk, Hs. Qed.

Lemma Move_current c c' f : Move c c' → current c' = Some f → current c = Some f.
Proof. intros [[-> _]|(f' & d & _ & -> & _)]; done. Qed.

Lemma view_session h h' s' : view h' = view h → session h' = Some s' → ∃ s, session h = Some s ∧ sview s = sview s'.
Proof.
  unfold view. intros Hv Hs. rewrite Hs in Hv. destruct (session h) as [s|]; [|done].
  exists s. split; [done|]. simpl in Hv. congruence.
Qed.

(** A connection that keeps its flow and its session, beside a call that starts
    nothing. *)
Lemma update_Move w i h c' h' :
  WorldInv w → connections w !! i = Some h → FlowInv c' → Move (coordinator w) c' →
  flowID h' = flowID h → view h' = view h → waiter h' = waiter h →
  phase h' ≠ AwaitingStart → phase h' ≠ AwaitingFinish →
  (phase h' = Returned → phase h = Returned ∨ ∀ f, current c' = Some f → flowID h ≠ Some (flow_id f)) →
  WorldInv (mkPairingWorld c' (<[i := h']> (connections w))).
Proof.
  intros [Hi Hc Ho Hsh Hd] Hh Hi' Hm Hf Hv Hw Hp1 Hp2 Hret. split; simpl; [done|..].
  - intros j k Hk. apply list_lookup_insert_Some in Hk as [(-> & <- & _)|[_ Hk]];
      [|eapply Move_ConnectionOk; [done|by eapply Hc]].
    pose proof (Move_ConnectionOk _ _ _ Hm (Hc _ _ Hh)) as [Hw' _ Hs']. split.
    + rewrite Hw. intros [s Hs]%Hw'. unfold view in Hv. rewrite Hs in Hv.
      by destruct (session h'); [|done].
    + by intros [?|?].
    + intros s' Hs. destruct (view_session _ _ _ Hv Hs) as (s & Hsh' & Heq).
      destruct (Hs' s Hsh') as [? ? Hcur ? ?]. injection Heq as Hid Hsnap Hdec.
      split; rewrite <- ?Hdec, <- ?Hid, <- ?Hsnap; rewrite ?Hf, ?Hw; auto.
      intros Hr. destruct (Hret Hr) as [?|Hn]; [auto|]. unfold channel_of.
      destruct (current c') as [f|] eqn:Hcf; [|done]. simpl. intros [= Hch].
      destruct (Hcur f eq_refl Hch) as (Hfid & _). apply (Hn f eq_refl). by rewrite Hfid.
  - intros f Hcf. destruct (Ho f) as (j & k & Hk & Hid & Hnr); [by eapply Move_current|].
    destruct (decide (j = i)) as [->|Hne].
    + exists i, h'. rewrite list_lookup_insert_eq by (by eapply lookup_lt_Some).
      split; [done|]. assert (k = h) as -> by congruence. split; [congruence|].
      intros Hr. destruct (Hret Hr) as [?|Hn]; [done|]. by apply (Hn f).
    + exists j, k. by rewrite list_lookup_insert_ne.
  - intros f Hcf Hst. destruct (Hsh f) as (j & k & Hk & s & Hs & Hdec & Hsnap); [by eapply Move_current|done|].
    destruct (decide (j = i)) as [->|Hne].
    + exists i, h'. rewrite list_lookup_insert_eq by (by eapply lookup_lt_Some).
      split; [done|]. assert (k = h) as -> by congruence. symmetry in Hv.
      destruct (view_session _ _ _ Hv Hs) as (s' & Hs' & Heq). exists s'.
      injection Heq as ? ? ?. split_and!; congruence.
    + exists j, k. rewrite list_lookup_insert_ne by done. split; [done|]. by exists s.
  - assert (∀ j k, <[i := h']> (connections w) !! j = Some k →
      ∃ k0, connections w !! j = Some k0 ∧ channel k = channel k0) as Hold.
    { intros j k Hk. apply list_lookup_insert_Some in Hk as [(-> & <- & _)|[_ Hk]]; [|by exists k].
      exists h. unfold channel. by rewrite Hv. }
    intros j1 j2 k1 k2 ch H1 H2 Hch1 Hch2. destruct (Hold _ _ H1) as (k1' & ? & Hk1), (Hold _ _ H2) as (k2' & ? & Hk2).
    rewrite Hk1 in Hch1. rewrite Hk2 in Hch2. by eapply Hd.
Qed.

Lemma local_inv w c' : WorldInv w → FlowInv c' → Move (coordinator w) c' → WorldInv (w <| coordinator := c' |>).
Proof.
  intros [Hi Hc Ho Hsh Hd] Hi' Hm. split; simpl; [done|..|done].
  - intros i h Hh. by eapply Move_ConnectionOk, Hc.
  - intros f Hf. by eapply Ho, Move_current.
  - intros f Hf. by eapply Hsh, Move_current.
Qed.

Lemma connect_inv w : WorldInv w → WorldInv (w <| connections ::= fun l => l ++ [accepted_connection] |>).
Proof.
  intros [Hi Hc Ho Hsh Hd].
  assert (∀ i h, (connections w ++ [accepted_connection]) !! i = Some h →
    connections w !! i = Some h ∨ h = accepted_connection) as Hl.
  { intros i h Hh%lookup_app_Some. destruct Hh as [?|[_ Hh%list_lookup_singleton_Some]]; [by left|by right; destruct Hh]. }
  split; simpl; [done|..].
  - intros i h [Hh| ->]%Hl; [by eapply Hc|]. by split.
  - intros f Hf. destruct (Ho f Hf) as (i & h & Hh & ?). exists i, h. split; [by apply lookup_app_l_Some|done].
  - intros f Hf Hst. destruct (Hsh f Hf Hst) as (i & h & Hh & ?). exists i, h. split; [by apply lookup_app_l_Some|done].
  - intros i j h k ch [Hh| ->]%Hl [Hk| ->]%Hl; [by apply Hd|done..].
Qed.

(** A flow that has just been started has a channel nobody knows. *)
Lemma started_SessionOk c c' f h s :
  current c = None → current c' = Some f → channels c !! flow_decision f = None →
  channels c' = <[flow_decision f := None]> (channels c) → SessionOk c h s → SessionOk c' h s.
Proof.
  intros Hn Hf Hfresh Hch [Hid [v Hv] _ Hw _].
  assert (flow_decision f ≠ Session_Decision s) as Hne by congruence.
  split; unfold holds, channel_of in *; rewrite ?Hf, ?Hch; simpl.
  - done.
  - by rewrite lookup_insert_ne by done.
  - intros f' [= <-]. done.
  - intros [[d Hd]|Heq]%Hw; [left; exists d; by rewrite lookup_insert_ne by done|]. rewrite Hn in Heq. done.
  - intros _ [= ?]. done.
Qed.

(** The lookups in a list of connections one of which has changed. *)
Lemma insert_lookup w i h h' j k :
  connections w !! i = Some h → <[i := h']> (connections w) !! j = Some k →
  j = i ∧ k = h' ∨ j ≠ i ∧ connections w !! j = Some k.
Proof. intros Hh Hk. apply list_lookup_insert_Some in Hk as [(-> & <- & _)|[? Hk]]; auto. Qed.

Lemma insert_self w i h h' : connections w !! i = Some h → <[i := h']> (connections w) !! i = Some h'.
Proof. intros Hh. apply list_lookup_insert_eq. by eapply lookup_lt_Some. Qed.

Lemma update_Start w i h c1 c' f h' :
  WorldInv w → connections w !! i = Some h → FlowInv c' → Move (coordinator w) c1 → current c1 = None →
  current c' = Some f → channels c1 !! flow_decision f = None →
  channels c' = <[flow_decision f := None]> (channels c1) → Snap_State (flow_snapshot f) = StateHandshaking →
  session h = None → waiter h = false →
  session h' = None → waiter h' = false → flowID h' = Some (flow_id f) → phase h' ≠ Returned →
  WorldInv (mkPairingWorld c' (<[i := h']> (connections w))).
Proof.
  intros [Hi Hc Ho Hsh Hd] Hh Hi' Hm Hn Hf Hfresh Hch Hst Hs Hw Hs' Hw' Hid Hp.
  assert (∀ j k ch, <[i := h']> (connections w) !! j = Some k → channel k = Some ch →
    connections w !! j = Some k) as Hold.
  { intros j k ch [[-> ->]|[_ ?]]%(insert_lookup _ _ _ _ _ _ Hh); [|done].
    unfold channel, view. by rewrite Hs'. }
  split; simpl; [done|..].
  - intros j k [[-> ->]|[_ Hk]]%(insert_lookup _ _ _ _ _ _ Hh); [by split; congruence|].
    destruct (Move_ConnectionOk _ _ _ Hm (Hc _ _ Hk)) as [? ? Hok]. split; [done|done|].
    intros s Hks. eapply started_SessionOk; eauto.
  - intros f' Hf'. assert (f' = f) as -> by congruence. exists i, h'. split; [by eapply insert_self|done].
  - intros f' Hf' ?. congruence.
  - intros j1 j2 k1 k2 ch H1 H2 Hc1 Hc2. eapply Hd; eauto.
Qed.

Lemma update_Finish w i h c' f f' s h' :
  WorldInv w → connections w !! i = Some h → FlowInv c' → current (coordinator w) = Some f →
  Snap_State (flow_snapshot f) = StateHandshaking → current c' = Some f' →
  channels c' = channels (coordinator w) → flow_decision f' = flow_decision f →
  Snap_State (flow_snapshot f') = StatePending →
  flowID h = Some (flow_id f') → Session_FlowID s = flow_id f' → Session_Snapshot s = flow_snapshot f' →
  Session_Decision s = flow_decision f →
  flowID h' = flowID h → view h' = Some (sview s) → phase h' = Deciding ∨ phase h' = Returning →
  WorldInv (mkPairingWorld c' (<[i := h']> (connections w))).
Proof.
  intros [Hi Hc Ho Hsh Hd] Hh Hi' Hf Hst Hf' Hch Hdec Hst' Hid Hsid Hsnap Hsdec Hid' Hview Hp.
  pose proof (fo_channel _ _ (fi_flow _ Hi _ Hf)) as Hempty.
  assert (∀ j k s', connections w !! j = Some k → session k = Some s' → Session_Decision s' ≠ flow_decision f) as Hother.
  { intros j k s' Hk Hs Heq. destruct (co_session _ _ (Hc _ _ Hk) _ Hs) as [_ _ Hcur _ _].
    destruct (Hcur f Hf) as (_ & _ & ?); congruence. }
  assert (∃ s', session h' = Some s' ∧ sview s' = sview s) as (s' & Hs' & Heq).
  { unfold view in Hview. destruct (session h') as [s'|]; [|done]. exists s'. simpl in Hview. split; congruence. }
  injection Heq as Hq1 Hq2 Hq3.
  split; simpl; [done|..].
  - intros j k [[-> ->]|[_ Hk]]%(insert_lookup _ _ _ _ _ _ Hh).
    + split; [by rewrite Hs'|intros [?|?]; destruct Hp; congruence|].
      intros s0 Hs0. assert (s0 = s') as -> by congruence.
      split; unfold channel_of; rewrite ?Hf', ?Hch, ?Hq1, ?Hq2, ?Hq3, ?Hsdec, ?Hid', ?Hid, ?Hsid, ?Hsnap; simpl.
      * done.
      * by rewrite Hempty.
      * by intros ? [= <-].
      * right. by rewrite Hdec.
      * destruct Hp; congruence.
    + destruct (Hc _ _ Hk) as [? ? Hok]. split; [done|done|]. intros s0 Hs0.
      pose proof (Hother _ _ _ Hk Hs0). destruct (Hok _ Hs0) as [? ? Hcur Hwt Hrt].
      split; unfold holds, channel_of in *; rewrite ?Hf', ?Hch; rewrite ?Hf in Hwt, Hrt; simpl in *; rewrite ?Hdec; auto.
      intros f0 [= <-]. congruence.
  - intros f0 Hf0. assert (f0 = f') as -> by congruence. exists i, h'. split; [by eapply insert_self|].
    split; [congruence|]. destruct Hp; congruence.
  - intros f0 Hf0 _. assert (f0 = f') as -> by congruence. exists i, h'. split; [by eapply insert_self|].
    exists s'. split_and!; congruence.
  - assert (channel h' = Some (flow_decision f)) as Hch'.
    { unfold channel. rewrite Hview. simpl. by rewrite Hsdec. }
    assert (∀ j k, connections w !! j = Some k → channel k ≠ Some (flow_decision f)) as Hne.
    { intros j k Hk. unfold channel, view. destruct (session k) as [s0|] eqn:Hs0; [|done].
      simpl. intros [= ?]. by eapply Hother. }
    intros j1 j2 k1 k2 ch [[-> ->]|[_ H1]]%(insert_lookup _ _ _ _ _ _ Hh)
      [[-> ->]|[_ H2]]%(insert_lookup _ _ _ _ _ _ Hh) Hc1 Hc2; [done| | |by eapply Hd].
    + destruct (Hne _ _ H2). congruence.
    + destruct (Hne _ _ H1). congruence.
Qed.

Lemma update_Wait w i h s d h' :
  WorldInv w → connections w !! i = Some h → session h = Some s → holds (coordinator w) (Session_Decision s) d →
  flowID h' = flowID h → session h' = Some s → waiter h' = false → phase h' = phase h →
  WorldInv (mkPairingWorld (receive (coordinator w) s d).1 (<[i := h']> (connections w))).
Proof.
  intros [Hi Hc Ho Hsh Hd] Hh Hs Hholds Hid Hs' Hw' Hp.
  assert (FlowInv (receive (coordinator w) s d).1) as Hi' by by apply receive_keeps.
  split; simpl; [done|..].
  - intros j k [[-> ->]|[Hne Hk]]%(insert_lookup _ _ _ _ _ _ Hh).
    + destruct (Hc _ _ Hh) as [_ He Hok]. split; [congruence| |].
      * rewrite Hp. intros Hp0. specialize (He Hp0). congruence.
      * intros s0 Hs0. assert (s0 = s) as -> by congruence. destruct (Hok _ Hs) as [? ? ? ? ?].
        split; simpl; rewrite ?Hid, ?Hw', ?Hp; try done. by rewrite lookup_insert_eq.
    + destruct (Hc _ _ Hk) as [? ? Hok]. split; [done|done|]. intros s0 Hs0.
      assert (Session_Decision s ≠ Session_Decision s0) as Hdiff.
      { intros Heq. destruct Hne. apply (Hd j i k h (Session_Decision s)); [done|done|..];
          unfold channel, view; rewrite ?Hs0, ?Hs; simpl; congruence. }
      destruct (Hok _ Hs0) as [? ? ? Hwt ?]. unfold holds in *.
      split; unfold holds; simpl; try done; by rewrite lookup_insert_ne by done.
  - intros f Hf. destruct (Ho f Hf) as (j & k & Hk & Hown). destruct (decide (j = i)) as [->|Hne].
    + exists i, h'. split; [by eapply insert_self|]. assert (k = h) as -> by congruence.
      unfold owns in *. by rewrite Hid, Hp.
    + exists j, k. by rewrite list_lookup_insert_ne.
  - intros f Hf Hst. destruct (Hsh f Hf Hst) as (j & k & Hk & s0 & Hs0 & ? & ?). destruct (decide (j = i)) as [->|Hne].
    + exists i, h'. split; [by eapply insert_self|]. exists s. assert (k = h) as -> by congruence.
      by simplify_eq.
    + exists j, k. rewrite list_lookup_insert_ne by done. split; [done|]. by exists s0.
  - assert (channel h' = channel h) as Hch by (unfold channel, view; by rewrite Hs, Hs').
    intros j1 j2 k1 k2 ch [[-> ->]|[_ H1]]%(insert_lookup _ _ _ _ _ _ Hh)
      [[-> ->]|[_ H2]]%(insert_lookup _ _ _ _ _ _ Hh) Hc1 Hc2; rewrite ?Hch in *; [done|by eapply Hd..].
Qed.

(** ** What a connection has written *)

(** The payloads of the frames: the response to the first message, the encrypted
    notice that the user is asked, the encrypted decision. *)
Definition conversation h (ps : list bytes) : Prop :=
  ps = [] ∨ (∃ r, ps = [r]) ∨
  ∃ r p s0 s1, view h = Some (sview s1) ∧ Session_Encrypt s0 (Some pendingApproval) = (s1, Ok p) ∧
    (ps = [r; p] ∨
     ∃ a q s2, ps = [r; p; q] ∧ decisionResult h = Some (Ok a) ∧ Session_Encrypt s1 (Some a) = (s2, Ok q)).

Lemma conversation_view h h' ps :
  view h' = view h → decisionResult h' = decisionResult h → conversation h ps → conversation h' ps.
Proof. unfold conversation. by intros -> ->. Qed.

Definition Said h : Prop :=
  ∃ ps closing, sent h = (Binary <$> ps) ++ (Closing <$> option_list closing) ∧ conversation h ps.

Definition phaseOk h : Prop :=
  match phase h with
  | AwaitingStart => sent h = [] ∧ flowID h = None ∧ session h = None ∧ waiter h = false ∧ decisionResult h = None
  | AwaitingFinish =>
      (∃ r, sent h = [Binary r]) ∧ is_Some (flowID h) ∧ session h = None ∧ waiter h = false ∧ decisionResult h = None
  | Deciding => is_Some (flowID h) ∧ ∃ r p s0 s1, sent h = [Binary r; Binary p] ∧ session h = Some s1 ∧
      Session_Encrypt s0 (Some pendingApproval) = (s1, Ok p)
  | Returning => is_Some (flowID h) ∧ Said h
  | Returned => Said h
  end.

Record HandlerOk h : Prop := {
  ho_waiter : waiter h = true → decisionResult h = None;
  ho_phase : phaseOk h;
}.

Lemma Session_Encrypt_view s a s' r : Session_Encrypt s a = (s', r) → sview s' = sview s.
Proof. unfold Session_Encrypt. intros HE. repeat case_match; by simplify_eq. Qed.

Lemma writePairingBytes_Ok outcome encoded frames frames' :
  writePairingBytes outcome encoded frames = (frames', Ok tt) → frames' = frames ++ [Binary encoded].
Proof. unfold writePairingBytes. intros HW. repeat case_match; by simplify_eq. Qed.

Lemma writePairingBytes_Err outcome encoded frames frames' e :
  writePairingBytes outcome encoded frames = (frames', Err e) → frames' = frames.
Proof. unfold writePairingBytes. intros HW. repeat case_match; by simplify_eq. Qed.

Lemma writePairingFrame_Ok {A} `{ProtoMsg A} outcome (message : A) frames frames' :
  writePairingFrame outcome message frames = (frames', Ok tt) → ∃ p, frames' = frames ++ [Binary p].
Proof.
  unfold writePairingFrame. intros HW. destruct (msg_Marshal message); [|done]. case_match; [done|].
  apply writePairingBytes_Ok in HW. by eexists.
Qed.

Lemma writePairingFrame_Err {A} `{ProtoMsg A} outcome (message : A) frames frames' e :
  writePairingFrame outcome message frames = (frames', Err e) → frames' = frames.
Proof.
  unfold writePairingFrame. intros HW. destruct (msg_Marshal message); [|by simplify_eq]. case_match; [by simplify_eq|].
  by apply writePairingBytes_Err in HW.
Qed.

(** Frames without a close frame, and with one. *)
Lemma said_frames h ps : sent h = Binary <$> ps → conversation h ps → Said h.
Proof. intros Hs ?. exists ps, None. by rewrite Hs, app_nil_r. Qed.

Lemma said_closed h ps code : sent h = writePairingClose code (Binary <$> ps) → conversation h ps → Said h.
Proof. intros Hs ?. by exists ps, (Some code). Qed.

(** ** Every step keeps both invariants *)

Definition Sound w : Prop := WorldInv w ∧ ∀ i h, connections w !! i = Some h → HandlerOk h.

Lemma on_connection_sound w i g :
  Sound w →
  (∀ h, connections w !! i = Some h → HandlerOk h → let r := g (coordinator w) h in
     WorldInv (mkPairingWorld r.1 (<[i := r.2]> (connections w))) ∧ HandlerOk r.2) →
  Sound (on_connection w i g).
Proof.
  intros [Hi Hh] Hg. unfold on_connection. destruct (connections w !! i) as [h|] eqn:Hl; [|done].
  specialize (Hg h eq_refl (Hh _ _ Hl)). destruct (g (coordinator w) h) as [c h']. destruct Hg as [? ?].
  split; [done|]. simpl. intros j k [[_ ->]|[_ Hk]]%(insert_lookup _ _ _ _ _ _ Hl); [done|by eapply Hh].
Qed.

(** A step that does not move. *)
Lemma unmoved w i h : WorldInv w → connections w !! i = Some h →
  WorldInv (mkPairingWorld (coordinator w) (<[i := h]> (connections w))).
Proof. intros Hw Hh. rewrite list_insert_id by done. by destruct w. Qed.

Lemma onStart_sound w i e message outcome :
  Sound w → Sound (on_connection w i (fun c h => onStart c h e message outcome)).
Proof.
  intros HS. apply on_connection_sound; [done|]. destruct HS as [Hw _]. intros h Hh Hok r. subst r. pose proof Hok as [Hwt Hp].
  unfold onStart. unfold phaseOk in Hp. destruct (phase h) eqn:Hph;
    try (split; [by apply unmoved|exact Hok]).
  destruct Hp as (Hs & Hid & Hse & Hwf & Hdr).
  assert (∀ code, let h' := h <| sent ::= writePairingClose code |> <| phase := Returned |> in HandlerOk h') as Hclose.
  { intros code. split; [done|]. simpl. eapply (said_closed _ []); [|by left]. simpl. by rewrite Hs. }
  assert (∀ c' code, FlowInv c' → Move (coordinator w) c' → WorldInv (mkPairingWorld c'
    (<[i := h <| sent ::= writePairingClose code |> <| phase := Returned |>]> (connections w)))) as Hclosed.
  { intros c' code ? ?. eapply (update_Move w i h); simpl; try done. right. by rewrite Hid. }
  destruct (readPairingFrame message) as [start|err].
  2: { split; [apply Hclosed; [by destruct Hw|apply Move_refl]|apply Hclose]. }
  pose proof (exec_inv _ (CallStart (start_now e) (start_mnow e) (start_created e) (start_random e) (start_reader e)
    (Some start)) (wi_flow _ Hw)) as Hi'. simpl exec in Hi'.
  destruct (Start _ _ _ _ _ _ _) as [c' r] eqn:HSt. simpl in Hi'.
  apply Start_Move in HSt as [[Hm Hr]|(c1 & f & response & Hm & Hn & Hf & -> & Hfresh & Hch & Hst)]; [| |by destruct Hw].
  - destruct r as [[id response]|err]; [done|]. split; [by apply Hclosed|apply Hclose].
  - destruct (writePairingFrame _ _ _) as [frames [[]|err]] eqn:HW; simpl.
    + apply writePairingFrame_Ok in HW as [p ->]. split; [by eapply update_Start|].
      split; [done|]. unfold phaseOk. simpl. rewrite Hs. split_and!; [by exists p|done..].
    + apply writePairingFrame_Err in HW as ->. split; [by eapply update_Start|].
      split; [done|]. unfold phaseOk. simpl. split; [done|]. apply (said_frames _ []); [done|by left].
Qed.

Lemma onFinish_sound w i now mnow message outcome :
  Sound w → Sound (on_connection w i (fun c h => onFinish c h now mnow message outcome)).
Proof.
  intros HS. apply on_connection_sound; [done|]. destruct HS as [Hw _]. intros h Hh Hok r. subst r. pose proof Hok as [Hwt Hp].
  unfold onFinish. unfold phaseOk in Hp. destruct (phase h) eqn:Hph;
    try (split; [by apply unmoved|exact Hok]).
  destruct Hp as ([p0 Hs] & [id Hid] & Hse & Hwf & Hdr). rewrite Hid.
  assert (∀ code, let h' := h <| sent ::= writePairingClose code |> <| phase := Returning |> in HandlerOk h') as Hclose.
  { intros code. split; [done|]. unfold phaseOk. simpl. split; [by rewrite Hid|].
    eapply (said_closed _ [p0]); [|right; left; by eexists]. simpl. by rewrite Hs. }
  assert (∀ c' code, FlowInv c' → Move (coordinator w) c' → WorldInv (mkPairingWorld c'
    (<[i := h <| sent ::= writePairingClose code |> <| phase := Returning |>]> (connections w)))) as Hclosed.
  { intros c' code ? ?. by eapply (update_Move w i h). }
  destruct (readPairingFrame message) as [finish|err].
  2: { split; [apply Hclosed; [by destruct Hw|apply Move_refl]|apply Hclose]. }
  pose proof (exec_inv _ (CallFinish now mnow id (Some (Finish_NoiseMessage finish))) (wi_flow _ Hw)) as Hi'.
  simpl exec in Hi'. destruct (Finish _ _ _ _ _) as [c' r] eqn:HF. simpl in Hi'.
  apply Finish_Move in HF as [[Hm Hr]|(f & f' & s & Hf & Hfid & Hst & Hf' & Hch & Hdec & Hfid' & Hst' & -> & Hsid & Hsnap & Hsd)];
    [| |by destruct Hw].
  - destruct r as [s|err]; [done|]. split; [by apply Hclosed|apply Hclose].
  - destruct (Session_Encrypt s _) as [s1 pending] eqn:HE. pose proof (Session_Encrypt_view _ _ _ _ HE) as Hv.
    assert (∀ h', flowID h' = flowID h → session h' = Some s1 → phase h' = Deciding ∨ phase h' = Returning →
      WorldInv (mkPairingWorld c' (<[i := h']> (connections w)))) as Hupd.
    { intros h' Hid' Hs' Hp'. eapply (update_Finish w i h c' f f' s h'); try done; try congruence.
      unfold view. rewrite Hs'. simpl. by rewrite Hv. }
    assert (conversation (h <| session := Some s1 |> <| phase := Returning |>) [p0]) as Hone by (right; left; by eexists).
    destruct pending as [p|err].
    + destruct (writePairingBytes _ _ _) as [frames [[]|err]] eqn:HW; simpl.
      * apply writePairingBytes_Ok in HW as ->. simpl. split; [apply Hupd; [done|done|by left]|].
        split; [done|]. unfold phaseOk. simpl. split; [by rewrite Hid|]. exists p0, p, s, s1. by rewrite Hs.
      * apply writePairingBytes_Err in HW as ->. simpl. split; [apply Hupd; [done|done|by right]|].
        split; [done|]. unfold phaseOk. simpl. split; [by rewrite Hid|]. by apply (said_frames _ [p0]).
    + simpl. split; [apply Hupd; [done|done|by right]|].
      split; [done|]. unfold phaseOk. simpl. split; [by rewrite Hid|]. by apply (said_frames _ [p0]).
Qed.

Lemma Deciding_said h r p s0 s1 h' :
  session h = Some s1 → Session_Encrypt s0 (Some pendingApproval) = (s1, Ok p) → view h' = view h →
  conversation h' [r; p].
Proof.
  intros Hs HE Hv. right. right. exists r, p, s0, s1. rewrite Hv. unfold view. rewrite Hs. eauto.
Qed.

Lemma onWait_sound w i : Sound w → Sound (on_connection w i onWait).
Proof.
  intros HS. apply on_connection_sound; [done|]. destruct HS as [Hw _]. intros h Hh Hok r. subst r.
  pose proof Hok as [Hwt Hp]. unfold onWait.
  destruct (waiter h) eqn:Hwh; [|by split; [apply unmoved|]].
  destruct (session h) as [s|] eqn:Hs; [|by split; [apply unmoved|]].
  assert (∀ r, HandlerOk (h <| waiter := false |> <| decisionResult := Some r |>)) as Hafter.
  { intros r. split; [done|]. unfold phaseOk in *. simpl in *. specialize (Hwt eq_refl).
    assert (Said h → Said (h <| waiter := false |> <| decisionResult := Some r |>)) as Hsaid.
    { intros (ps & closing & ? & Hconv). exists ps, closing. split; [done|].
      destruct Hconv as [?|[?|(r0 & p & s0 & s1 & ? & ? & [?|(a & q & s2 & _ & Hdr & _)])]];
        [by left|by right; left|right; right; by exists r0, p, s0, s1; auto|congruence]. }
    destruct (phase h); naive_solver. }
  unfold Wait. destruct (channels (coordinator w) !! Session_Decision s) as [[d|]|] eqn:Hd;
    [|by split; [apply unmoved|]..].
  simpl. split; [|apply Hafter]. eapply (update_Wait w i h s d); try done.
Qed.

Lemma onDecision_sound w i outcome :
  Sound w → Sound (on_connection w i (fun c h => (c, onDecision h outcome))).
Proof.
  intros HS. apply on_connection_sound; [done|]. destruct HS as [Hw _]. intros h Hh Hok r. subst r.
  pose proof Hok as [Hwt Hp]. unfold onDecision. cbn [fst snd].
  destruct (phase h) eqn:Hph; try (split; [by apply unmoved|exact Hok]).
  unfold phaseOk in Hp. rewrite Hph in Hp. destruct Hp as (Hid & r & p & s0 & s1 & Hsent & Hs & HE).
  assert (∀ h', flowID h' = flowID h → view h' = view h → waiter h' = waiter h → decisionResult h' = decisionResult h →
    phase h' = Returning → Said h' → WorldInv (mkPairingWorld (coordinator w) (<[i := h']> (connections w))) ∧ HandlerOk h')
    as Hend.
  { intros h' Hid' Hv' Hw' Hdr' Hp' Hsaid. split.
    - eapply (update_Move w i h); rewrite ?Hp'; try done; [by destruct Hw|apply Move_refl].
    - split; [by rewrite Hw', Hdr'|]. unfold phaseOk. by rewrite Hp', Hid'. }
  rewrite Hs. destruct (decisionResult h) as [[a|err]|] eqn:Hdr; [| |by split; [apply unmoved|]].
  - destruct (Session_Encrypt s1 (Some a)) as [s2 frame] eqn:HE2.
    pose proof (Session_Encrypt_view _ _ _ _ HE2) as Hv.
    assert (view h = Some (sview s2)) as Hvh by (unfold view; rewrite Hs; simpl; by rewrite Hv).
    assert (∀ h', session h' = Some s2 → view h' = view h) as Hv2.
    { intros h' Hs'. unfold view at 1. by rewrite Hs', Hvh. }
    destruct frame as [q|err].
    + destruct (writePairingBytes _ _ _) as [frames [[]|err]] eqn:HW; simpl in HW.
      * apply writePairingBytes_Ok in HW as ->. apply Hend; try done.
        eapply (said_closed _ [r; p; q]); [by simpl; rewrite Hsent|].
        right. right. exists r, p, s0, s1. split_and!; [|done|].
        -- unfold view. simpl. by rewrite Hv.
        -- right. by exists a, q, s2.
      * apply writePairingBytes_Err in HW as ->. apply Hend; try done.
        eapply (said_frames _ [r; p]); [by simpl; rewrite Hsent|]. eapply Deciding_said; [done..|by apply Hv2].
    + apply Hend; try done.
      eapply (said_frames _ [r; p]); [by simpl; rewrite Hsent|]. eapply Deciding_said; [done..|by apply Hv2].
  - apply Hend; try done. eapply (said_closed _ [r; p]); [by simpl; rewrite Hsent|]. by eapply Deciding_said.
Qed.

(** Giving up the flow while the user is asked. *)
Lemma giving_up w i h mnow id h' :
  WorldInv w → connections w !! i = Some h → HandlerOk h → phase h = Deciding → flowID h = Some id →
  flowID h' = flowID h → session h' = session h → waiter h' = waiter h → decisionResult h' = decisionResult h →
  phase h' = Returning → (sent h' = sent h ∨ ∃ code, sent h' = writePairingClose code (sent h)) →
  WorldInv (mkPairingWorld (Cancel (coordinator w) mnow id) (<[i := h']> (connections w))) ∧ HandlerOk h'.
Proof.
  intros Hw Hh [Hwt Hp] Hph Hid Hid' Hs' Hw' Hdr' Hp' Hsent'.
  unfold phaseOk in Hp. rewrite Hph in Hp. destruct Hp as (_ & r & p & s0 & s1 & Hsent & Hs & HE).
  assert (view h' = view h) as Hv by (unfold view; by rewrite Hs').
  assert (conversation h' [r; p]) by by eapply Deciding_said. split.
  - eapply (update_Move w i h); rewrite ?Hp'; try done; [|by apply Cancel_Move; destruct Hw].
    by apply (exec_inv _ (CallCancel mnow id)); destruct Hw.
  - split; [by rewrite Hw', Hdr'|]. unfold phaseOk. rewrite Hp', Hid', Hid. split; [done|].
    destruct Hsent' as [Heq|[code Heq]]; rewrite Hsent in Heq;
      [by apply (said_frames _ [r; p])|by apply (said_closed _ [r; p] code)].
Qed.

Lemma onPeerActivity_sound w i mnow : Sound w → Sound (on_connection w i (fun c h => onPeerActivity c h mnow)).
Proof.
  intros HS. apply on_connection_sound; [done|]. destruct HS as [Hw _]. intros h Hh Hok r. subst r.
  unfold onPeerActivity. destruct (phase h) eqn:Hph, (flowID h) as [id|] eqn:Hid;
    try (split; [by apply unmoved|exact Hok]).
  eapply (giving_up w i h); eauto.
Qed.

Lemma onTimer_sound w i mnow : Sound w → Sound (on_connection w i (fun c h => onTimer c h mnow)).
Proof.
  intros HS. apply on_connection_sound; [done|]. destruct HS as [Hw _]. intros h Hh Hok r. subst r.
  unfold onTimer. destruct (phase h) eqn:Hph, (flowID h) as [id|] eqn:Hid;
    try (split; [by apply unmoved|exact Hok]).
  eapply (giving_up w i h); eauto.
Qed.

Lemma onReturn_sound w i mnow : Sound w → Sound (on_connection w i (fun c h => onReturn c h mnow)).
Proof.
  intros HS. apply on_connection_sound; [done|]. destruct HS as [Hw _]. intros h Hh Hok r. subst r.
  unfold onReturn. pose proof Hok as [Hwt Hp].
  destruct (phase h) eqn:Hph, (flowID h) as [id|] eqn:Hid; try (split; [by apply unmoved|exact Hok]).
  unfold phaseOk in Hp. rewrite Hph in Hp. destruct Hp as [_ (ps & closing & Hsent & Hconv)].
  assert (view (h <| session ::= fmap Session_Close |> <| phase := Returned |>) = view h) as Hv.
  { unfold view. simpl. by destruct (session h). }
  split; simpl.
  - eapply (update_Move w i h); try done.
    + by apply (exec_inv _ (CallCancel mnow id)); destruct Hw.
    + by apply Cancel_Move; destruct Hw.
    + intros _. right. intros f Hf%Cancel_other. rewrite Hid. intros [= ->]. by destruct Hf.
  - split; [done|]. exists ps, closing. split; [done|]. by eapply conversation_view.
Qed.

Lemma world_step_sound w step : Sound w → Sound (world_step w step).
Proof.
  intros HS. destruct step; simpl.
  - destruct HS as [Hw Hh]. split; [by apply connect_inv|]. simpl. intros i h Hi%lookup_app_Some.
    destruct Hi as [Hi|[_ Hi%list_lookup_singleton_Some]]; [by eapply Hh|].
    destruct Hi as [_ <-]. by split.
  - by apply onStart_sound.
  - by apply onFinish_sound.
  - by apply onWait_sound.
  - by apply onDecision_sound.
  - by apply onPeerActivity_sound.
  - by apply onTimer_sound.
  - by apply onReturn_sound.
  - destruct (localCall call) eqn:Hl; [|done]. destruct HS as [Hw Hh]. split; [|done].
    apply local_inv; [done| |]; [by apply exec_inv; destruct Hw|by apply local_Move; [destruct Hw|]].
Qed.

Definition initial_world (ttl timeout : Z) (v : Files * Store) : PairingWorld :=
  mkPairingWorld (initial ttl timeout v) [].

Lemma initial_sound ttl timeout v : Sound (initial_world ttl timeout v).
Proof. split; [|done]. split; simpl; try done. apply initial_inv. Qed.

Lemma world_run_sound w steps : Sound w → Sound (world_run w steps).
Proof.
  unfold world_run. revert w. induction steps as [|step steps IH]; intros w HS; [done|].
  by apply IH, world_step_sound.
Qed.

(** ** Where a decision comes from *)

(** The local user decides the flow, with this approval for the phone. *)
Definition user_decides c (call : Call) f (a : PairingApproval) : Prop :=
  (∃ now mnow tnow sys id v version, call = CallApprove now mnow tnow sys id ∧ approvable c now id f ∧
     persistPeer tnow sys (flow_peer f) (identity c) = (v, Ok version) ∧
     a = mkPairingApproval APPROVAL_APPROVED version) ∨
  ∃ now mnow id, call = CallReject now mnow id ∧ approvable c now id f ∧ a = mkPairingApproval APPROVAL_REJECTED 0.

Lemma callReason_decided c call f a : callReason c call f (Decided a) → user_decides c call f a.
Proof.
  unfold user_decides. destruct call; simpl;
    unfold approveReason, rejectReason, finishReason, expired; try naive_solver.
Qed.

(** A decision that waits on a channel, or that the session of the channel has. *)
Definition told w (ch : nat) (a : PairingApproval) : Prop :=
  holds (coordinator w) ch (Decided a) ∨
  ∃ i h, connections w !! i = Some h ∧ channel h = Some ch ∧ decisionResult h = Some (Ok a).

(** What a step of one connection leaves as it was. *)
Record Transparent c h (r : Coordinator * Connection) : Prop := {
  tr_holds ch a : holds r.1 ch (Decided a) → holds c ch (Decided a);
  tr_decision ch a : channel r.2 = Some ch → decisionResult r.2 = Some (Ok a) →
    channel h = Some ch ∧ decisionResult h = Some (Ok a) ∨ holds c ch (Decided a);
  tr_view : is_Some (view h) → view r.2 = view h;
}.

Lemma Transparent_same c h c' h' :
  (∀ ch a, holds c' ch (Decided a) → holds c ch (Decided a)) → view h' = view h → decisionResult h' = decisionResult h →
  Transparent c h (c', h').
Proof.
  intros Hh Hv Hd. split; simpl; [done| |done]. intros ch a. unfold channel. rewrite Hv, Hd. by left.
Qed.

Lemma exec_holds c call ch a :
  FlowInv c → localCall call = false → received c call = None → holds (exec c call) ch (Decided a) → holds c ch (Decided a).
Proof.
  intros Hi Hl Hr Hh. destruct (kp_told _ _ _ (exec_keeps c call Hi Hr) _ _ Hh) as [?|(f & _ & _ & Hwhy)]; [done|].
  apply callReason_decided in Hwhy. unfold user_decides in Hwhy. destruct call; naive_solver.
Qed.

Lemma onStart_transparent c h e message outcome :
  FlowInv c → HandlerOk h → Transparent c h (onStart c h e message outcome).
Proof.
  intros Hi [_ Hp]. unfold onStart. destruct (phase h); try by apply Transparent_same.
  destruct (readPairingFrame message) as [start|]; [|by apply Transparent_same].
  pose proof (exec_holds c (CallStart (start_now e) (start_mnow e) (start_created e) (start_random e) (start_reader e)
    (Some start))) as Hx. simpl exec in Hx.
  destruct (Start _ _ _ _ _ _ _) as [c' [[id response]|err]]; simpl in Hx;
    [|apply Transparent_same; [by intros ??; apply Hx|done..]].
  destruct (writePairingFrame _ _ _) as [frames [[]|err]]; apply Transparent_same; try done; by intros ??; apply Hx.
Qed.

Lemma onFinish_transparent c h now mnow message outcome :
  FlowInv c → HandlerOk h → Transparent c h (onFinish c h now mnow message outcome).
Proof.
  intros Hi [_ Hp]. unfold onFinish. unfold phaseOk in Hp. destruct (phase h); try by apply Transparent_same.
  destruct Hp as (_ & _ & Hs & _ & Hdr). destruct (flowID h) as [id|]; [|by apply Transparent_same].
  destruct (readPairingFrame message) as [finish|]; [|by apply Transparent_same].
  pose proof (exec_holds c (CallFinish now mnow id (Some (Finish_NoiseMessage finish)))) as Hx. simpl exec in Hx.
  destruct (Finish _ _ _ _ _) as [c' [s|err]]; simpl in Hx;
    [|apply Transparent_same; [by intros ??; apply Hx|done..]].
  assert (∀ h', decisionResult h' = decisionResult h → Transparent c h (c', h')) as Hnew.
  { intros h' Hd. split; simpl; [by intros ??; apply Hx|rewrite Hd, Hdr; done|].
    unfold view. rewrite Hs. by intros [? ?]. }
  destruct (Session_Encrypt s _) as [s1 [frame|err]]; [|by apply Hnew].
  destruct (writePairingBytes _ _ _) as [frames [[]|err]]; by apply Hnew.
Qed.

Lemma onWait_transparent c h : FlowInv c → Transparent c h (onWait c h).
Proof.
  intros Hi. unfold onWait. destruct (waiter h); [|by apply Transparent_same].
  destruct (session h) as [s|] eqn:Hs; [|by apply Transparent_same].
  unfold Wait. destruct (channels c !! Session_Decision s) as [[d|]|] eqn:Hd; [|by apply Transparent_same..].
  simpl. split; simpl.
  - intros ch a. unfold holds. simpl. rewrite lookup_insert_Some. naive_solver.
  - intros ch a. unfold channel, view. simpl. rewrite Hs. simpl. intros [= <-] Hr. right. unfold holds. rewrite Hd.
    destruct d; naive_solver.
  - done.
Qed.

Lemma onDecision_transparent c h outcome : Transparent c h (c, onDecision h outcome).
Proof.
  unfold onDecision. destruct (phase h); try by apply Transparent_same.
  destruct (decisionResult h) as [[a|err]|] eqn:Hd; [|by apply Transparent_same..].
  destruct (session h) as [s|] eqn:Hs; [|by apply Transparent_same].
  destruct (Session_Encrypt s (Some a)) as [s2 frame] eqn:HE. apply Session_Encrypt_view in HE.
  assert (∀ h', session h' = Some s2 → view h' = view h) as Hv.
  { intros h' Hs'. unfold view. rewrite Hs, Hs'. simpl. by rewrite HE. }
  destruct frame as [q|err]; [|by apply Transparent_same; [| apply Hv|]].
  destruct (writePairingBytes _ _ _) as [frames [[]|err]]; by apply Transparent_same; [|apply Hv|].
Qed.

Lemma Cancel_transparent c h h' mnow id :
  FlowInv c → view h' = view h → decisionResult h' = decisionResult h → Transparent c h (Cancel c mnow id, h').
Proof. intros Hi Hv Hd. apply Transparent_same; [|done|done]. by intros ch a; apply (exec_holds c (CallCancel mnow id)). Qed.

(** The step of one connection in the world. *)
Lemma on_connection_view w i g :
  (∀ h, connections w !! i = Some h → Transparent (coordinator w) h (g (coordinator w) h)) →
  (∀ ch a, told (on_connection w i g) ch a → told w ch a) ∧
  ∀ j h s, connections w !! j = Some h → session h = Some s →
    ∃ h', connections (on_connection w i g) !! j = Some h' ∧ view h' = view h.
Proof.
  intros Hg. unfold on_connection. destruct (connections w !! i) as [h|] eqn:Hh; [|by split; eauto].
  specialize (Hg h eq_refl). destruct (g (coordinator w) h) as [c' h'] eqn:Heq. destruct Hg as [H1 H2 H3]. simpl in *. split.
  - intros ch a [Hd|(j & k & [[-> ->]|[_ Hk]]%(insert_lookup _ _ _ _ _ _ Hh) & Hc & Hr)]; simpl in *.
    + left. by apply H1.
    + destruct (H2 ch a Hc Hr) as [[? ?]|?]; [right; by exists i, h|by left].
    + right. by exists j, k.
  - intros j k s Hk Hs. destruct (decide (j = i)) as [->|Hne].
    + exists h'. simpl. split; [by eapply insert_self|]. assert (k = h) as -> by congruence.
      apply H3. unfold view. by rewrite Hs.
    + exists k. simpl. by rewrite list_lookup_insert_ne.
Qed.

Lemma world_step_view w step :
  Sound w →
  (∀ ch a, told (world_step w step) ch a → told w ch a ∨
     ∃ call f, step = Local call ∧ current (coordinator w) = Some f ∧ flow_decision f = ch ∧
       user_decides (coordinator w) call f a) ∧
  ∀ j h s, connections w !! j = Some h → session h = Some s →
    ∃ h', connections (world_step w step) !! j = Some h' ∧ view h' = view h.
Proof.
  intros [Hw Hh]. pose proof (wi_flow _ Hw) as Hi.
  assert (∀ i g, (∀ h, connections w !! i = Some h → Transparent (coordinator w) h (g (coordinator w) h)) →
    (∀ ch a, told (on_connection w i g) ch a → told w ch a ∨
      ∃ call f, step = Local call ∧ current (coordinator w) = Some f ∧ flow_decision f = ch ∧
        user_decides (coordinator w) call f a) ∧
    ∀ j h s, connections w !! j = Some h → session h = Some s →
      ∃ h', connections (on_connection w i g) !! j = Some h' ∧ view h' = view h) as Hon.
  { intros i g Hg. destruct (on_connection_view w i g Hg) as [Ht Hv]. split; [|done]. intros ch a ?. left. by apply Ht. }
  destruct step; simpl; try apply Hon.
  - split.
    + intros ch a [Hd|(i & h & Hl%lookup_app_Some & Hc & Hr)]; [by left; left|]. left. right.
      destruct Hl as [?|[_ [_ <-]%list_lookup_singleton_Some]]; [by exists i, h|done].
    + intros j h s Hj Hs. exists h. split; [by apply lookup_app_l_Some|done].
  - intros h Hl. apply onStart_transparent; [done|by eapply Hh].
  - intros h Hl. apply onFinish_transparent; [done|by eapply Hh].
  - intros h Hl. by apply onWait_transparent.
  - intros h Hl. by apply onDecision_transparent.
  - intros h Hl. unfold onPeerActivity. destruct (phase h), (flowID h); try by apply Transparent_same.
    by apply Cancel_transparent.
  - intros h Hl. unfold onTimer. destruct (phase h), (flowID h); try by apply Transparent_same.
    by apply Cancel_transparent.
  - intros h Hl. unfold onReturn. destruct (phase h), (flowID h); try by apply Transparent_same.
    apply Cancel_transparent; [done| |done]. unfold view. simpl. by destruct (session h).
  - destruct (localCall call) eqn:Hlc; [|by split; eauto]. split; [|by eauto].
    intros ch a [Hd|?]; [|by left; right]. simpl in Hd.
    assert (received (coordinator w) call = None) as Hr by by destruct call.
    destruct (kp_told _ _ _ (exec_keeps _ call Hi Hr) _ _ Hd) as [?|(f & Hf & Hfd & Hwhy)]; [by left; left|].
    right. exists call, f. split_and!; try done. by apply callReason_decided.
Qed.

Lemma HandlerOk_Said h : HandlerOk h → Said h.
Proof.
  intros [_ Hp]. unfold phaseOk in Hp. destruct (phase h).
  - destruct Hp as [Hs _]. apply (said_frames _ []); [done|by left].
  - destruct Hp as ([r Hs] & _). apply (said_frames _ [r]); [done|right; left; by eexists].
  - destruct Hp as (_ & r & p & s0 & s1 & Hsent & Hs & HE).
    apply (said_frames _ [r; p]); [done|]. by eapply Deciding_said.
  - by destruct Hp.
  - done.
Qed.

(** The decision and the flow it was about, with the connection of that flow. *)
Definition Decision_made w0 steps (ch : nat) (a : PairingApproval) : Prop :=
  ∃ steps1 call steps2 f i h s, steps = steps1 ++ Local call :: steps2 ∧
    let w := world_run w0 steps1 in
    current (coordinator w) = Some f ∧ flow_decision f = ch ∧ user_decides (coordinator w) call f a ∧
    connections w !! i = Some h ∧ session h = Some s ∧ Session_Decision s = ch ∧ Session_Snapshot s = flow_snapshot f.

Lemma user_decides_pending c call f a : user_decides c call f a → Snap_State (flow_snapshot f) = StatePending.
Proof.
  intros [(? & ? & ? & ? & ? & ? & ? & _ & (_ & _ & Hp & _) & _)|(? & ? & ? & _ & (_ & _ & Hp & _) & _)];
    unfold pending in Hp; by split_bool.
Qed.

Lemma world_run_snoc w steps step : world_run w (steps ++ [step]) = world_step (world_run w steps) step.
Proof. unfold world_run. by rewrite foldl_app. Qed.

Lemma told_made w0 steps ch a :
  Sound w0 → (∀ a, ~ told w0 ch a) → told (world_run w0 steps) ch a → Decision_made w0 steps ch a.
Proof.
  intros HS Hnone. induction steps as [|step steps IH] using rev_ind; [by intros ?%Hnone|].
  rewrite world_run_snoc. intros Ht. pose proof (world_run_sound _ steps HS) as HSw.
  apply (world_step_view _ step HSw) in Ht as [Ht|(call & f & -> & Hf & Hd & Hu)].
  - destruct (IH Ht) as (steps1 & call & steps2 & f & i & h & s & -> & ?).
    exists steps1, call, (steps2 ++ [step]), f, i, h, s. by rewrite <- app_assoc.
  - destruct HSw as [Hw _]. destruct (wi_shown _ Hw f Hf) as (i & h & Hh & s & Hs & ? & ?);
      [by eapply user_decides_pending|].
    exists steps, call, [], f, i, h, s. split; [done|]. split_and!; [done..|congruence|done].
Qed.

(** A session stays what it is. *)
Lemma world_run_view w steps j h s :
  Sound w → connections w !! j = Some h → session h = Some s →
  ∃ h', connections (world_run w steps) !! j = Some h' ∧ view h' = view h.
Proof.
  intros HS Hj Hs. induction steps as [|step steps IH] using rev_ind; [by exists h|].
  destruct IH as (h1 & Hh1 & Hv1). rewrite world_run_snoc.
  assert (∃ s1, session h1 = Some s1) as [s1 Hs1].
  { unfold view in Hv1. rewrite Hs in Hv1. destruct (session h1); [by eexists|done]. }
  destruct (proj2 (world_step_view _ step (world_run_sound _ steps HS)) j h1 s1 Hh1 Hs1) as (h2 & ? & Hv2).
  exists h2. split; [done|]. congruence.
Qed.

Lemma world_run_app w steps1 steps2 : world_run w (steps1 ++ steps2) = world_run (world_run w steps1) steps2.
Proof. unfold world_run. by rewrite foldl_app. Qed.

(** ** Properties *)

(** C20: no pairing outlives its connection.  In every interleaving of any number of
    pairing connections with the calls of the rest of the Agent, the flow in
    progress belongs to a connection whose handler has not returned, and which will
    cancel it when it does; and when a handler has returned, the goroutine that
    still waits for its decision finds one in its channel, so it ends. *)
Theorem flows_have_connections ttl timeout v steps :
  let w := world_run (initial_world ttl timeout v) steps in
  (∀ f, current (coordinator w) = Some f → ∃ i h, connections w !! i = Some h ∧
     flowID h = Some (flow_id f) ∧ phase h ≠ Returned) ∧
  ∀ i h, connections w !! i = Some h → phase h = Returned → waiter h = true →
    ∃ s d, session h = Some s ∧ holds (coordinator w) (Session_Decision s) d.
Proof.
  intros w. destruct (world_run_sound _ steps (initial_sound ttl timeout v)) as [[_ Hc Ho _ _] _]. fold w in Hc, Ho.
  split; [exact Ho|]. intros i h Hh Hp Hw. destruct (Hc i h Hh) as [Hsome _ Hok].
  destruct (Hsome Hw) as [s Hs]. destruct (Hok s Hs) as [_ _ _ Hwait Hret].
  destruct (Hwait Hw) as [[d Hd]|Hcur]; [by exists s, d|]. by destruct (Hret Hp).
Qed.

(** C14: a phone is told what the local user decided about it, and in this order: the
    answer to its handshake, then, encrypted, that the user is asked, then the
    decision; after a close frame nothing follows.  In every interleaving, a
    decision a connection has received was made by an earlier [Approve] or [Reject]
    of the local user, on the flow whose code this phone shows; it says approved,
    with the version the identity store gave, or rejected; and the third frame is
    the encryption of that decision. *)
Theorem phone_told_users_decision ttl timeout v steps i h :
  let w0 := initial_world ttl timeout v in
  connections (world_run w0 steps) !! i = Some h →
  (∃ ps closing, sent h = (Binary <$> ps) ++ (Closing <$> option_list closing) ∧ conversation h ps) ∧
  ∀ s a, session h = Some s → decisionResult h = Some (Ok a) →
    ∃ steps1 call steps2 f, steps = steps1 ++ Local call :: steps2 ∧
      let c := coordinator (world_run w0 steps1) in
      current c = Some f ∧ flow_snapshot f = Session_Snapshot s ∧ user_decides c call f a.
Proof.
  intros w0 Hh. pose proof (initial_sound ttl timeout v) as HS0. fold w0 in HS0.
  destruct (world_run_sound _ steps HS0) as [Hw Hok]. split; [by apply HandlerOk_Said, (Hok i)|]. intros s a Hs Hr.
  assert (channel h = Some (Session_Decision s)) as Hch by (unfold channel, view; by rewrite Hs).
  destruct (told_made w0 steps (Session_Decision s) a HS0) as
    (steps1 & call & steps2 & f & i1 & h1 & s1 & -> & Hf & _ & Hu & Hh1 & Hs1 & Hd1 & Hsnap).
  { intros a' [Hd|(? & ? & Hl & _)]; [unfold holds in Hd; simpl in Hd; by rewrite lookup_empty in Hd|done]. }
  { right. by exists i, h. }
  exists steps1, call, steps2, f. split; [done|]. split_and!; [done| |done].
  destruct (world_run_view _ (Local call :: steps2) _ _ _ (world_run_sound _ steps1 HS0) Hh1 Hs1) as (h2 & Hh2 & Hv).
  rewrite <- world_run_app in Hh2.
  assert (i1 = i) as ->.
  { eapply (wi_distinct _ Hw); [exact Hh2|exact Hh| |exact Hch]. unfold channel. rewrite Hv. unfold view.
    rewrite Hs1. simpl. by rewrite Hd1. }
  assert (h2 = h) as -> by congruence. unfold view in Hv. rewrite Hs, Hs1 in Hv. injection Hv as _ Hq _. congruence.
Qed.
End PairingTransportFacts.

(** * The flow in progress, as it is shown

    How each call of the coordinator changes the flow in progress, and what its
    snapshot says: a flow that is handshaking names the phone and has no code; a
    pending one has a code of seven characters, and stays as it is until it ends. *)

Section PairingView.
Context {crypto : IdentityCrypto} {noise : Noise} {url : GoUrl} {codec : InvitationCodec}.
Context `{!ProtoMsg HandshakeContext} `{!ProtoMsg PairingInitiatorPayload}
  `{!ProtoMsg PairingResponderPayload} `{!ProtoMsg PairingFinishPayload} `{!ProtoMsg PairingApproval}.
Context `{!ProtoMsg HandshakeStart} `{!ProtoMsg PairingHandshakeResponse} `{!ProtoMsg PairingHandshakeFinish}.
Context `{!JsonCodec envelope} `{!JsonCodec persistedState}.
Implicit Types (c : Coordinator) (f : flow) (call : Call).

(** A flow that has just started: its identifier is that of the random bytes. *)
Definition justStarted (raw : bytes) f : Prop :=
  flow_id f = RawURL_Encode raw ∧ Snap_FlowID (flow_snapshot f) = flow_id f ∧
  Snap_State (flow_snapshot f) = StateHandshaking ∧ Snap_SAS (flow_snapshot f) = EmptyString ∧
  Snap_DisplayName (flow_snapshot f) ≠ EmptyString.

(** A flow whose handshake has just finished. *)
Definition justFinished f f' : Prop :=
  flow_id f' = flow_id f ∧ Snap_State (flow_snapshot f) = StateHandshaking ∧
  ∃ sas, slen sas = 7 ∧ flow_snapshot f' = (flow_snapshot f) <| Snap_SAS := sas |> <| Snap_State := StatePending |>.

(** What a call does to the flow in progress. *)
Definition flowMove c call c' : Prop :=
  current c' = current c ∨ current c' = None ∨
  (∃ now mnow created raw reader start f, call = CallStart now mnow created (Ok raw) reader start ∧
     current c' = Some f ∧ justStarted raw f) ∨
  ∃ f f', current c = Some f ∧ current c' = Some f' ∧ justFinished f f'.

Lemma sixDigits_length value : slen (sixDigits value) = 7.
Proof. reflexivity. Qed.

Lemma PairingResponder_SAS r finish r' result : PairingResponder_Finish r finish = (r', Ok result) → slen (PR_SAS result) = 7.
Proof. by intros (? & ? & ? & ? & ? & ? & _ & _ & _ & _ & -> & _)%PairingResponder_Finish_Ok. Qed.

(** The name of a phone whose first message was accepted. *)
Lemma accepted_name config start r response client :
  AcceptPairingStart config start = Ok (r, response, client) →
  default EmptyString (Desc_DisplayName <$> Signed_Descriptor client) ≠ EmptyString.
Proof.
  intros (context & _ & _ & _ & _ & (Hv & _) & _)%AcceptPairingStart_Ok. unfold VerifySignedDescriptor in Hv.
  destruct client as [[d|] signature]; [|done]. destruct (ValidateDescriptor (Some d)) eqn:HV; [|done].
  unfold ValidateDescriptor in HV. simpl. intros He. rewrite He in HV. by repeat case_match.
Qed.

Lemma expire_current c now mnow : current (expireLocked c now mnow) = current c ∨ current (expireLocked c now mnow) = None.
Proof. unfold expireLocked. repeat case_match; auto. Qed.

Lemma Start_move c now mnow created random reader start :
  flowMove c (CallStart now mnow created random reader start) (Start c now mnow created random reader start).1.
Proof.
  pose proof (expire_current c now mnow) as HE. unfold Start. set (c1 := expireLocked c now mnow) in *.
  assert (∀ c2, current c2 = current c1 → flowMove c (CallStart now mnow created random reader start) c2) as Hsame.
  { intros c2 Hc2. unfold flowMove. rewrite Hc2. tauto. }
  destruct (current c1) eqn:Hc1; [by apply Hsame|].
  destruct start as [[[context|] message]|]; try by apply Hsame.
  destruct (Descriptor _) as [agent|]; [|by apply Hsame]. destruct (negb _); [by apply Hsame|].
  destruct (NewPairingContext _ _ _ _); [|by apply Hsame]. destruct (KeyAgreementPrivateKey _); [|by apply Hsame].
  destruct random as [raw|]; [|by apply Hsame].
  destruct (Begin _ _ _ _) as [m [[[reservation status] [[responder response] peer]]|e]] eqn:HB; [|by apply Hsame].
  right. right. left. eexists now, mnow, created, raw, reader, _, _. split; [reflexivity|]. split; [reflexivity|].
  split_and!; try done. simpl. unfold Begin in HB. repeat (case_match; try done); simplify_eq.
  eapply accepted_name. eassumption.
Qed.

Lemma flowLocked_current c id f : flowLocked c id = Ok f → current c = Some f ∧ flow_id f = id.
Proof. unfold flowLocked. intros HF. by repeat case_match; simplify_eq; split_bool. Qed.

Lemma Finish_move c now mnow id finish : flowMove c (CallFinish now mnow id finish) (Finish c now mnow id finish).1.
Proof.
  pose proof (expire_current c now mnow) as HE. unfold Finish. set (c1 := expireLocked c now mnow) in *.
  destruct (flowLocked c1 id) as [f|] eqn:HF; [|unfold flowMove; tauto]. apply flowLocked_current in HF as [Hf _].
  destruct HE as [HE|HE]; [|congruence].
  destruct (Snap_State (flow_snapshot f)) eqn:Hst, (flow_responder f) as [responder|]; try (by left).
  destruct (PairingResponder_Finish responder finish) as [r' [result|e]] eqn:HR; [|by right; left].
  right. right. right. eexists f, _. split; [congruence|]. split; [reflexivity|]. split; [done|]. split; [done|].
  exists (PR_SAS result). split; [by eapply PairingResponder_SAS|done].
Qed.

(** The other calls leave the flow as it is, or end it. *)
Lemma exec_move c call : flowMove c call (exec c call).
Proof.
  destruct call as [now mnow created random reader start|now mnow id finish|now mnow|now mnow tnow sys id|now mnow id
    |mnow id|s cancelled prefer|hints agent randomID randomSecret mnow|mnow|mnow id sec|mnow id sec|];
    [apply Start_move|apply Finish_move|..]; try (by left); simpl.
  - destruct (expire_current c now mnow); [by left|by right; left].
  - unfold Approve. pose proof (expire_current c now mnow) as HE. set (c1 := expireLocked c now mnow) in *.
    assert (∀ c2, current c2 = current c1 ∨ current c2 = None → flowMove c (CallApprove now mnow tnow sys id) c2) as Hd.
    { intros c2 [Hc2|Hc2]; unfold flowMove; [rewrite Hc2; tauto|auto]. }
    apply Hd. repeat case_match; simpl; auto.
  - unfold Reject. pose proof (expire_current c now mnow) as HE. set (c1 := expireLocked c now mnow) in *.
    assert (∀ c2, current c2 = current c1 ∨ current c2 = None → flowMove c (CallReject now mnow id) c2) as Hd.
    { intros c2 [Hc2|Hc2]; unfold flowMove; [rewrite Hc2; tauto|auto]. }
    apply Hd. repeat case_match; simpl; auto.
  - unfold Cancel. destruct (current c) eqn:Hc; [|by left]. destruct (negb _); [by left|by right; left].
  - left. unfold Wait, receive. by repeat case_match.
Qed.

(** ** What is shown *)

(** A snapshot of the flow [f], started from bytes in [raws]. *)
Record Shown f : Prop := {
  sh_id : Snap_FlowID (flow_snapshot f) = flow_id f;
  sh_name : Snap_DisplayName (flow_snapshot f) ≠ EmptyString;
  sh_handshaking : Snap_State (flow_snapshot f) = StateHandshaking → Snap_SAS (flow_snapshot f) = EmptyString;
  sh_pending : Snap_State (flow_snapshot f) = StatePending → slen (Snap_SAS (flow_snapshot f)) = 7;
}.

Definition currentShown c : Prop := ∀ f, current c = Some f → Shown f.

Lemma move_shown c call c' : flowMove c call c' → currentShown c → currentShown c'.
Proof.
  intros [He|[He|[(now & mnow & created & raw & reader & start & f & _ & Hf & _ & Hid & Hst & Hsas & Hname)|
    (f & f' & Hf & Hf' & Hid & Hst & sas & Hlen & Hsnap)]]] Hs g Hg.
  - apply Hs. congruence.
  - congruence.
  - assert (g = f) as -> by congruence. split; [done|done|done|by rewrite Hst].
  - assert (g = f') as -> by congruence. destruct (Hs f Hf) as [? ? ? ?]. split; rewrite Hsnap; simpl; try done.
    congruence.
Qed.

(** ** A pending flow stays as it is *)

(** No flow but [f] has its identifier. *)
Definition stillThe f c : Prop := ∀ g, current c = Some g → flow_id g = flow_id f → g = f.

Definition otherID (id : string) call : Prop :=
  match call with CallStart _ _ _ (Ok raw) _ _ => RawURL_Encode raw ≠ id | _ => True end.

Lemma move_stillThe f c call c' :
  Snap_State (flow_snapshot f) = StatePending → otherID (flow_id f) call → flowMove c call c' → stillThe f c → stillThe f c'.
Proof.
  intros Hp Ho [He|[He|[(now & mnow & created & raw & reader & start & f' & -> & Hf & Hid & _)|
    (f0 & f' & Hf & Hf' & Hid & Hst & _)]]] Hs g Hg Hgid.
  - apply Hs; congruence.
  - congruence.
  - simpl in Ho. congruence.
  - assert (f0 = f) as -> by (apply Hs; congruence). congruence.
Qed.

(** ** The steps of a connection *)

(** The calls a step of a connection makes: at most one, and a start with its own
    random bytes. *)
Definition stepCall (step : WorldStep) call : Prop :=
  match call with
  | CallStart _ _ _ random _ _ => ∃ i e message outcome, step = StartFrame i e message outcome ∧ random = start_random e
  | _ => True
  end.

Lemma step_move w step :
  coordinator (world_step w step) = coordinator w ∨
  ∃ call, stepCall step call ∧ flowMove (coordinator w) call (coordinator (world_step w step)).
Proof.
  assert (∀ i g, (∀ h, (g (coordinator w) h).1 = coordinator w ∨
      ∃ call, stepCall step call ∧ flowMove (coordinator w) call (g (coordinator w) h).1) →
    coordinator (on_connection w i g) = coordinator w ∨
    ∃ call, stepCall step call ∧ flowMove (coordinator w) call (coordinator (on_connection w i g))) as Hon.
  { intros i g Hg. unfold on_connection. destruct (connections w !! i) as [h|]; [|by left].
    specialize (Hg h). by destruct (g (coordinator w) h). }
  assert (∀ mnow id, ∃ call, stepCall step call ∧ flowMove (coordinator w) call (Cancel (coordinator w) mnow id)) as Hcancel.
  { intros mnow id. exists (CallCancel mnow id). split; [done|]. apply (exec_move _ (CallCancel mnow id)). }
  destruct step as [|i e message outcome|i now mnow message outcome|i|i outcome|i mnow|i mnow|i mnow|call]; simpl.
  - by left.
  - apply Hon. intros h. unfold onStart. destruct (phase h); try (by left).
    destruct (readPairingFrame message) as [start|]; [|by left]. right.
    exists (CallStart (start_now e) (start_mnow e) (start_created e) (start_random e) (start_reader e) (Some start)).
    split; [by eexists _, _, _, _|].
    pose proof (Start_move (coordinator w) (start_now e) (start_mnow e) (start_created e) (start_random e) (start_reader e)
      (Some start)) as HS.
    destruct (Start _ _ _ _ _ _ _) as [c [[id response]|]]; [|done]. by destruct (writePairingFrame _ _ _) as [? []].
  - apply Hon. intros h. unfold onFinish. destruct (phase h), (flowID h) as [id|]; try (by left).
    destruct (readPairingFrame message) as [finish|]; [|by left]. right.
    exists (CallFinish now mnow id (Some (Finish_NoiseMessage finish))). split; [done|].
    pose proof (Finish_move (coordinator w) now mnow id (Some (Finish_NoiseMessage finish))) as HF.
    destruct (Finish _ _ _ _ _) as [c [s|]]; [|done].
    destruct (Session_Encrypt _ _) as [s' [frame|]]; [|done]. by destruct (writePairingBytes _ _ _) as [? []].
  - apply Hon. intros h. unfold onWait. destruct (waiter h), (session h) as [s|]; try (by left). right.
    exists (CallWait s None false). split; [done|].
    pose proof (exec_move (coordinator w) (CallWait s None false)) as HW. simpl in HW.
    by destruct (Wait _ _ _ _) as [c [r|]].
  - apply Hon. by left.
  - apply Hon. intros h. unfold onPeerActivity. destruct (phase h), (flowID h); try (by left). right. apply Hcancel.
  - apply Hon. intros h. unfold onTimer. destruct (phase h), (flowID h); try (by left). right. apply Hcancel.
  - apply Hon. intros h. unfold onReturn. destruct (phase h), (flowID h); try (by left). right. apply Hcancel.
  - destruct (localCall call) eqn:Hl; [|by left]. right. exists call. split; [by destruct call|apply (exec_move (coordinator w) call)].
Qed.
End PairingView.
