(* ===== verification/PairingExamples.v ===== *)
(** * Pairing: an executed pairing

    A toy Noise that sends everything in the clear, table codecs, a toy [net/url],
    and on them a whole pairing: the invitation is created and scanned, the phone
    and the Agent exchange their messages, the user approves, and the phone opens a
    session.  The theorems of [PairingFacts], [HandshakeFacts] and
    [PairingFlowFacts] are applied to it. *)

From S2P Require Import Prelude.
From S2P Require Import Utf8.
From S2P Require Import Encoding.
From S2P Require Import SecureStore.
From S2P Require Import Envelope.
From S2P Require Import Ticket.
From S2P Require Import DeviceIdentity.
From S2P Require Import DeviceIdentityFacts.
From S2P Require Import DeviceIdentityExamples.
From S2P Require Import Pairing.
From S2P Require Import PairingFacts.
From S2P Require Import Handshake.
From S2P Require Import HandshakeFacts.
From S2P Require Import PairingFlow.
From S2P Require Import PairingFlowFacts.
From S2P Require Import PairingTransport.
From S2P Require Import PairingTransportFacts.

#[local] Existing Instance toyCrypto.
#[local] Existing Instance toyLaws.
#[local] Existing Instance stateJson.
#[local] Existing Instance envelopeJson.

(** ** A Noise without cryptography *)

Record toyHandshake := mkToyHandshake {
  th_pattern : HandshakePattern;
  th_initiator : bool;
  th_step : nat;
  th_static : bytes;
  th_peer : bytes;
  th_transcript : bytes;
}.

(** The messages that carry the sender's static key, and the last one. *)
Definition carriesStatic (p : HandshakePattern) (step : nat) : bool :=
  match p, step with HandshakeXX, (1 | 2)%nat => true | HandshakeIK, 0%nat => true | _, _ => false end.
Definition lastMessage (p : HandshakePattern) : nat :=
  match p with HandshakeXX => 2%nat | HandshakeIK => 1%nat end.

Definition toyAdvance (h : toyHandshake) (peer message payload : bytes)
    : toyHandshake * result (bytes * option (bool * Z) * option (bool * Z)) :=
  let final := bool_decide (th_step h = lastMessage (th_pattern h)) in
  (mkToyHandshake (th_pattern h) (th_initiator h) (S (th_step h)) (th_static h) peer
     (th_transcript h ++ message),
   Ok (payload, if final then Some (true, 0) else None, if final then Some (false, 0) else None)).

Definition myTurn (h : toyHandshake) : bool := Bool.eqb (th_initiator h) (Nat.even (th_step h)).

#[local] Instance toyNoise : Noise := {
  Reader := unit;
  HandshakeState := toyHandshake;
  CipherState := bool * Z;
  noise_New config := Ok (mkToyHandshake (nc_Pattern _ config) (nc_Initiator _ config) 0
    (nc_StaticPublic _ config) (default [] (nc_PeerStatic _ config)) (nc_Prologue _ config));
  noise_WriteMessage h payload :=
    if negb (myTurn h) then (h, Err (ErrorString "noise: unexpected call"))
    else let message := (if carriesStatic (th_pattern h) (th_step h) then th_static h else []) ++ payload in
         toyAdvance h (th_peer h) message message;
  noise_ReadMessage h message :=
    if myTurn h then (h, Err (ErrorString "noise: unexpected call"))
    else if carriesStatic (th_pattern h) (th_step h)
         then toyAdvance h (take 32 message) message (drop 32 message)
         else toyAdvance h (th_peer h) message message;
  noise_PeerStatic := th_peer;
  noise_ChannelBinding h := take 64 (th_transcript h ++ fill 64 "000");
  cipher_Encrypt c _ p := ((c.1, c.2 + 1), Ok (p ++ fill 16 "000"));
  cipher_Decrypt c _ p := ((c.1, c.2 + 1), Ok p);
  cipher_Nonce c := c.2;
}.

Lemma toyAdvance_last h peer message payload h' x c1 c2 :
  toyAdvance h peer message payload = (h', Ok (x, Some c1, Some c2)) → c1 = (true, 0) ∧ c2 = (false, 0).
Proof. unfold toyAdvance. case_bool_decide; intros ?; by simplify_eq. Qed.

Lemma toy_split : SplitAgrees.
Proof.
  intros hs payload hs1 message c1 c2 hs' hs1' payload' d1 d2. simpl. intros HW HR.
  assert (c1 = (true, 0) ∧ c2 = (false, 0)) as [-> ->].
  { destruct (negb _); [done|]. by eapply toyAdvance_last. }
  destruct (myTurn hs'); [done|].
  destruct (carriesStatic (th_pattern hs') (th_step hs')); by eapply toyAdvance_last.
Qed.

Lemma toy_nonces : NonceCounts.
Proof. intros c ad p c' r. simpl. intros [= <- <-]. done. Qed.

(** ** Codecs *)

#[local] Instance PairingInitiatorPayload_eq_dec : EqDecision PairingInitiatorPayload.
Proof. solve_decision. Defined.
#[local] Instance PairingResponderPayload_eq_dec : EqDecision PairingResponderPayload.
Proof. solve_decision. Defined.
#[local] Instance PairingFinishPayload_eq_dec : EqDecision PairingFinishPayload.
Proof. solve_decision. Defined.
#[local] Instance SessionInitiatorPayload_eq_dec : EqDecision SessionInitiatorPayload.
Proof. solve_decision. Defined.
#[local] Instance SessionResponderPayload_eq_dec : EqDecision SessionResponderPayload.
Proof. solve_decision. Defined.
#[local] Instance PairingApproval_eq_dec : EqDecision PairingApproval.
Proof. solve_decision. Defined.
#[local] Instance PairingInvitation_eq_dec : EqDecision PairingInvitation.
Proof. solve_decision. Defined.

Definition tableMsg {A} `{EqDecision A} (t : list (A * bytes)) : ProtoMsg A := {|
  msg_Marshal := table_encode t; msg_Unmarshal := table_decode t; msg_HasUnknownFields _ := false |}.

Definition agent : SignedDeviceDescriptor :=
  match Descriptor store0 with Ok s => s | Err _ => phone 1 end.
Definition invitationID : bytes := fill 16 "030".
Definition bootstrap : bytes := fill 32 "031".

Definition pairingContext : HandshakeContext :=
  match NewPairingContext (idOf (phone 1)) (idOf agent) invitationID [] with
  | Ok c => c | Err _ => mkHandshakeContext 0 None [] [] [] 0 [] end.
Definition sessionContext : HandshakeContext :=
  match NewSessionContext (idOf (phone 1)) (idOf agent) [] with
  | Ok c => c | Err _ => mkHandshakeContext 0 None [] [] [] 0 [] end.

#[local] Instance contextMsg : ProtoMsg HandshakeContext :=
  tableMsg [(pairingContext, ["040"%byte]); (sessionContext, ["041"%byte])].
#[local] Instance initiatorMsg : ProtoMsg PairingInitiatorPayload :=
  tableMsg [(mkPairingInitiatorPayload (Some (phone 1)), ["042"%byte])].
#[local] Instance responderMsg : ProtoMsg PairingResponderPayload :=
  tableMsg [(mkPairingResponderPayload (Some agent), ["043"%byte])].
#[local] Instance finishMsg : ProtoMsg PairingFinishPayload :=
  tableMsg [(mkPairingFinishPayload (idOf (phone 1)), ["044"%byte])].
#[local] Instance sessionInitiatorMsg : ProtoMsg SessionInitiatorPayload :=
  tableMsg [(mkSessionInitiatorPayload (Some (phone 1)) 0 ["files"%string], ["045"%byte])].
#[local] Instance sessionResponderMsg : ProtoMsg SessionResponderPayload :=
  tableMsg [(mkSessionResponderPayload (Some agent) 0, ["046"%byte])].
#[local] Instance approvalMsg : ProtoMsg PairingApproval :=
  tableMsg [(mkPairingApproval APPROVAL_APPROVED 1, ["047"%byte])].

(** ** The invitation *)

Definition createdTime : Z := 1700000050 * Second.

(** The codec of the invitations that differ from this one in their code only. *)
Definition bareInvitation : PairingInvitation :=
  mkPairingInvitation 1 invitationID (Some agent) bootstrap (Some (timestamp_New createdTime))
    (Some (timestamp_New (createdTime + DefaultTTL))) ["https://agent.local"%string] EmptyString.

Definition encodeInvitation (i : PairingInvitation) : result bytes :=
  if bool_decide (i <| Inv_VerificationCode := EmptyString |> = bareInvitation)
  then Ok ("050"%byte :: bytes_of_string (Inv_VerificationCode i))
  else Err (ErrorString "not encodable").

#[local] Instance invitationCodec : InvitationCodec := {
  invitation_Marshal := encodeInvitation;
  invitation_Unmarshal b :=
    match b with
    | _ :: code => Ok (bareInvitation <| Inv_VerificationCode := string_of_bytes code |>)
    | [] => Err (ErrorString "not decodable")
    end;
  invitation_Size i := match encodeInvitation i with Ok b => len b | Err _ => 0 end;
}.

#[local] Instance invitationLaws : InvitationLaws.
Proof.
  split; unfold invitation_Marshal, invitation_Unmarshal, invitation_Size, invitationCodec.
  - intros i b He. pose proof He as He'. unfold encodeInvitation in He. case_bool_decide as Hb; [|done].
    simplify_eq. rewrite string_of_bytes_of_string, <- Hb. by destruct i.
  - intros i b He. by rewrite He.
  - intros i b value. unfold encodeInvitation. simpl. case_bool_decide as Hb; [|done]. intros _. by eexists.
Qed.

(** One host; a URL is its fragment. *)
Definition agentURL : string := "https://agent.local".
#[local] Instance toyUrl : GoUrl := {
  URL := string;
  url_Parse s :=
    match TrimPrefix agentURL s with
    | Some EmptyString => Ok EmptyString
    | Some (String c f) => if bool_decide (c = "#"%char) then Ok f else Err (ErrorString "unknown URL")
    | None => Err (ErrorString "unknown URL")
    end;
  url_Scheme _ := "https";
  url_Host _ := "agent.local";
  url_HasUser _ := false;
  url_Path _ := EmptyString;
  url_RawQuery _ := EmptyString;
  url_Fragment u := u;
  url_SetFragment _ f := f;
  url_String u := (agentURL ++ "#" ++ u)%string;
}.

#[local] Instance toyUrlLaws : UrlLaws.
Proof. split. intros s u f _ _ _ _ _ _. exists f. by split_and!. Qed.

Definition hints : list string := ["https://agent.local"%string].
Definition freshManager : Manager := mkManager DefaultTTL None ∅.
Definition created := Create freshManager hints (Ok (Some agent)) (Ok invitationID) (Ok bootstrap) createdTime.
Definition theInvitation : PairingInvitation :=
  match created.2 with Ok i => i | Err _ => bareInvitation end.

Example created_ok : created.2 = Ok theInvitation.
Proof. vm_compute. reflexivity. Qed.

Lemma invitation_scanned_back_witness :
  ∃ link, FragmentURL agentURL (Some theInvitation) = Ok link ∧
    ParseFragmentURL link (createdTime + Minute) = Ok theInvitation.
Proof.
  destruct (invitation_scanned_back freshManager hints (Ok (Some agent)) invitationID bootstrap createdTime
    created.1 theInvitation agentURL (EmptyString : @URL toyUrl)) as (link & HF & HP);
    [vm_compute; split; congruence|vm_compute; reflexivity|vm_compute; reflexivity|split; vm_compute; reflexivity
    |vm_compute; congruence|vm_compute; reflexivity|vm_compute; reflexivity|discriminate|vm_compute; reflexivity
    |reflexivity|reflexivity|reflexivity|].
  exists link. split; [exact HF|]. apply HP. vm_compute. split; congruence.
Defined.

(** Created, reserved, released, reserved again, approved; a second approval of the
    same reservation fails. *)
Definition use (sec : bytes) : result bytes := Ok sec.
Definition persist (n : nat) : nat * result nat := (S n, Ok n).
Definition begun := Begin created.1 createdTime invitationID (Some use).
Definition releasedOnce := Release begun.1 createdTime (Some 0%nat).
Definition begunAgain := Begin releasedOnce.1 createdTime invitationID (Some use).
Definition approvedOnce := Pairing.Approve begunAgain.1 0%nat createdTime (Some 1%nat) (Some persist).
Definition approvedTwice := Pairing.Approve approvedOnce.1.1 0%nat createdTime (Some 1%nat) (Some persist).

Definition pairingEvents : list Event := [Created; Reserved 0; Released 0; Reserved 1; Approved 1; Quiet].

Lemma pairing_executed : pairing_run freshManager pairingEvents approvedTwice.1.1.
Proof.
  eapply (run_snoc _ [Created; Reserved 0; Released 0; Reserved 1; Approved 1] approvedOnce.1.1 Quiet).
  2: { refine (step_approve _ 0%nat createdTime 1 (Some persist) _ approvedTwice.1.2 approvedTwice.2 _).
       vm_compute. reflexivity. }
  eapply (run_snoc _ [Created; Reserved 0; Released 0; Reserved 1] begunAgain.1 (Approved 1)).
  2: { refine (step_approve _ 0%nat createdTime 1 (Some persist) _ approvedOnce.1.2 approvedOnce.2 _).
       vm_compute. reflexivity. }
  eapply (run_snoc _ [Created; Reserved 0; Released 0] releasedOnce.1 (Reserved 1)).
  2: { refine (step_begin _ createdTime invitationID (Some use) _ begunAgain.2 _). vm_compute. reflexivity. }
  eapply (run_snoc _ [Created; Reserved 0] begun.1 (Released 0)).
  2: { refine (step_release _ createdTime 0 _ releasedOnce.2 _). vm_compute. reflexivity. }
  eapply (run_snoc _ [Created] created.1 (Reserved 0)).
  2: { refine (step_begin _ createdTime invitationID (Some use) _ begun.2 _). vm_compute. reflexivity. }
  eapply (run_snoc _ [] freshManager Created).
  2: { refine (step_create _ hints (Ok (Some agent)) (Ok invitationID) (Ok bootstrap) createdTime _ created.2 _).
       vm_compute. reflexivity. }
  apply run_nil.
Qed.

Lemma invitation_spent_once_witness :
  pairing_run freshManager pairingEvents approvedTwice.1.1 ∧
  (countb isSpent pairingEvents <= 1)%nat ∧ (countb (isSettled 1) pairingEvents <= 1)%nat.
Proof.
  destruct (invitation_spent_once DefaultTTL pairingEvents approvedTwice.1.1 pairing_executed) as (HS & HR & _).
  split; [exact pairing_executed|]. split; [exact HS|]. apply (HR 1%nat).
Defined.

(** ** The handshakes *)

Definition resultOf {A} (d : A) (r : result A) : A := match r with Ok a => a | Err _ => d end.

Definition emptyStart : HandshakeStart := mkHandshakeStart None [].
Definition initiator0 := NewPairingInitiator
  (mkPairingInitiatorConfig (Some pairingContext) (Some (phone 1)) (Some agent) (fill 32 "004") bootstrap tt).
Definition initiator1 := match initiator0 with
  | Ok i => PairingInitiator_Start i
  | Err e => (mkPairingInitiator None pairingContext agent agent [] initiatorFailed, Err e) end.
Definition firstMessage : HandshakeStart := resultOf emptyStart initiator1.2.
Definition responderConfig : PairingResponderConfig :=
  mkPairingResponderConfig (Some pairingContext) (Some agent) (fill 32 "008") bootstrap tt.
Definition deadResponder : PairingResponder := mkPairingResponder None pairingContext agent [] responderFailed.
Definition accepted := resultOf (deadResponder, [], agent) (AcceptPairingStart responderConfig (Some firstMessage)).
Definition deadResult : PairingResult := mkPairingResult agent EmptyString [] closedTransport.
Definition initiator2 := PairingInitiator_Finish initiator1.1 (Some accepted.1.2).
Definition lastOf : PairingResult * bytes := resultOf (deadResult, []) initiator2.2.
Definition finished := PairingResponder_Finish accepted.1.1 (Some lastOf.2).

Example pairing_completes : is_ok finished.2 = true ∧ PR_SAS (resultOf deadResult finished.2) = PR_SAS lastOf.1.
Proof. vm_compute. done. Qed.

Example accepted_ok : AcceptPairingStart responderConfig (Some firstMessage) = Ok accepted.
Proof. vm_compute. reflexivity. Qed.

Lemma pairing_authenticates_client_witness :
  PR_Peer (resultOf deadResult finished.2) = phone 1 ∧
  PairingResponder_Finish finished.1 (Some lastOf.2) = (finished.1, Err ErrHandshakeState).
Proof.
  destruct (pairing_authenticates_client responderConfig (Some firstMessage) accepted.1.1 accepted.1.2 (phone 1)
    (Some lastOf.2) finished.1 finished.2) as (_ & (_ & _ & Hspent) & Hres);
    [vm_compute; reflexivity|apply surjective_pairing|].
  split; [|apply Hspent]. apply (Hres (resultOf deadResult finished.2)). vm_compute. reflexivity.
Defined.

(** The session the phone opens once it is authorized. *)
Definition sessionInitiator0 := NewSessionInitiator
  (mkSessionInitiatorConfig (Some sessionContext) (Some (phone 1)) (Some agent) (fill 32 "004") 0 ["files"%string] tt).
Definition sessionInitiator1 := match sessionInitiator0 with
  | Ok i => SessionInitiator_Start i
  | Err e => (mkSessionInitiator None sessionContext agent agent 0 [] [] initiatorFailed, Err e) end.
Definition sessionStart : HandshakeStart := resultOf emptyStart sessionInitiator1.2.
Definition sessionConfig (store : Store) : SessionResponderConfig :=
  mkSessionResponderConfig (Some (storeAuthorizer store)) (Some agent) (fill 32 "008") tt.
Definition sessionAccepted := AcceptSessionStart (sessionConfig store1) (Some sessionStart).

Example session_refused_before_pairing : acceptedClient (AcceptSessionStart (sessionConfig store0) (Some sessionStart))
  = Err ErrSessionAuthorization.
Proof. vm_compute. reflexivity. Qed.

Lemma valid_state1 : ValidState state1.
Proof. apply valid_example; [vm_compute; reflexivity|vm_compute; split; congruence|vm_compute; split; congruence]. Qed.

Lemma session_admits_authorized_witness :
  ∃ r response, sessionAccepted = Ok (r, response, phone 1) ∧
    SV_AuthorizationVersion (SessionResponder_View r) = 1.
Proof.
  destruct sessionAccepted as [[[r response] client]|e] eqn:HA.
  2: { assert (is_ok sessionAccepted = true) as Hok by (vm_compute; reflexivity). rewrite HA in Hok. discriminate. }
  pose proof HA as HA'. unfold sessionAccepted, sessionConfig in HA'.
  destruct (session_admits_authorized store1 (Some agent) (fill 32 "008") (tt : @Reader toyNoise)
    (Some sessionStart) r response client
    valid_state1 HA') as (rec & d & Hrec & _ & _ & _ & _ & _ & _ & Hpeer & Hver & _).
  assert (acceptedClient sessionAccepted = Ok (response, client)) as Hc by by rewrite HA.
  assert (acceptedClient sessionAccepted = Ok (response, phone 1)) as Hc'.
  { rewrite Hc. f_equal. f_equal. enough (match acceptedClient sessionAccepted with Ok (_, c) => c | Err _ => agent end = phone 1) as <-
      by by rewrite Hc. vm_compute. reflexivity. }
  assert (client = phone 1) as -> by congruence.
  exists r, response. split; [done|]. rewrite Hver.
  assert ((Rec_AuthorizationVersion <$> devices (state store1) !! idOf (phone 1)) = Some 1) as Hv
    by (vm_compute; reflexivity).
  rewrite Hrec in Hv. by injection Hv.
Defined.

Lemma transports_cross_witness :
  Crossed (PR_Transport lastOf.1) (PR_Transport (resultOf deadResult finished.2)) ∧
  ∀ r response client i' result, sessionAccepted = Ok (r, response, client) →
    SessionInitiator_Finish sessionInitiator1.1 (Some response) = (i', Ok result) →
    Crossed (SR_Transport result) (SV_Transport (SessionResponder_View r)).
Proof.
  destruct (transports_cross toy_split) as [HP HS]. split.
  - eapply (HP initiator1.1 (Some accepted.1.2) initiator2.1 lastOf.1 lastOf.2 accepted.1.1 finished.1);
      vm_compute; reflexivity.
  - intros r response client i' result. apply HS.
Defined.

Example session_completes :
  match sessionAccepted with
  | Ok (r, response, _) => is_ok (SessionInitiator_Finish sessionInitiator1.1 (Some response)).2
  | Err _ => false
  end = true.
Proof. vm_compute. reflexivity. Qed.

Lemma transport_nonces_consecutive_witness :
  (transport_run (newTransport (true, 7) (false, 0))
     [OpEncrypt ["001"%byte] []; OpDecrypt (fill 16 "000") []; OpEncrypt ["002"%byte] []; OpDecrypt [] [];
      OpEncrypt ["003"%byte] []]).1 = [7; 8].
Proof.
  pose proof (transport_nonces_consecutive (true, 7) (false, 0)
    [OpEncrypt ["001"%byte] []; OpDecrypt (fill 16 "000") []; OpEncrypt ["002"%byte] []; OpDecrypt [] [];
     OpEncrypt ["003"%byte] []] toy_nonces) as H.
  destruct (transport_run _ _) as [ns t] eqn:Hrun. destruct H as [Hns _]. simpl. rewrite Hns.
  assert (length (transport_run (newTransport (true, 7) (false, 0))
    [OpEncrypt ["001"%byte] []; OpDecrypt (fill 16 "000") []; OpEncrypt ["002"%byte] []; OpDecrypt [] [];
     OpEncrypt ["003"%byte] []]).1 = 2%nat) as Hlen by (vm_compute; reflexivity).
  rewrite Hrun in Hlen. simpl in Hlen. rewrite Hlen. reflexivity.
Defined.

(** ** The flow *)

(** The phone starts twice: the first flow is abandoned and expires; the second is
    finished, approved, and the phone is told. *)
Definition coordinator0 : Coordinator := initial DefaultTTL DefaultApprovalTimeout (files0, store0).
Definition late : Z := createdTime + 3 * Minute.
Definition flowID2 : string := RawURL_Encode (fill 16 "062").
Definition firstCalls : list Call :=
  [CallCreate hints (Ok (Some agent)) (Ok invitationID) (Ok bootstrap) createdTime;
   CallStart createdTime createdTime createdTime (Ok (fill 16 "061")) tt (Some firstMessage)].
Definition abandoned : Coordinator := (run coordinator0 firstCalls).2.
Definition secondCalls : list Call :=
  [CallStart late late late (Ok (fill 16 "062")) tt (Some firstMessage);
   CallFinish late late flowID2 (Some lastOf.2);
   CallApprove late late time1 noFault flowID2;
   CallWait (mkSession flowID2 (mkSnapshot EmptyString [] [] EmptyString EmptyString EmptyString StatePending 0 0)
     closedTransport 1) None false].
Definition paired := run abandoned secondCalls.

Example flow_executed :
  paired.1 = [(1%nat, Decided (mkPairingApproval APPROVAL_APPROVED 1))] ∧
  state (identity paired.2).2 = state1 ∧ channels paired.2 !! 0%nat = Some (Some (Failed ErrFlowExpired)).
Proof. vm_compute. done. Qed.

Lemma start_is_served_witness :
  ∃ c' response f, Start abandoned late late late (Ok (fill 16 "062")) tt (Some firstMessage)
      = (c', Ok (flowID2, response)) ∧ current c' = Some f ∧
    Snap_ExpiresAt (flow_snapshot f) <= late + DefaultApprovalTimeout.
Proof.
  assert (∃ a, active (invitations abandoned) = Some a ∧ invitation a = (bareInvitation <| Inv_VerificationCode := Inv_VerificationCode theInvitation |> <| Inv_BootstrapSecret := [] |>) ∧ secret a = bootstrap)
    as (a & Ha & Hinv & Hsec) by (eexists; vm_compute; done).
  pose proof (start_is_served DefaultTTL DefaultApprovalTimeout (files0, store0) firstCalls late late late
    (fill 16 "062") tt firstMessage pairingContext (Start_NoiseMessage firstMessage) agent (fill 32 "008") a) as H.
  cbv zeta in H. replace (run (initial _ _ _) firstCalls).2 with abandoned in H by reflexivity.
  destruct H as (c' & response & f & HS & Hf & _ & Hexp & _).
  - intros f Hf. assert ((fun f => Snap_ExpiresAt (flow_snapshot f)) <$> current abandoned
      = Some (createdTime + DefaultApprovalTimeout)) as He by (vm_compute; reflexivity).
    rewrite Hf in He. injection He as ->. vm_compute. congruence.
  - exact Ha.
  - unfold expiresAt. rewrite Hinv. vm_compute. reflexivity.
  - vm_compute. reflexivity.
  - rewrite Hinv. vm_compute. reflexivity.
  - vm_compute. reflexivity.
  - vm_compute. reflexivity.
  - vm_compute. reflexivity.
  - rewrite Hsec. vm_compute. reflexivity.
  - vm_compute. reflexivity.
  - eexists. vm_compute. reflexivity.
  - exists c', response, f. split; [exact HS|]. split; [exact Hf|exact Hexp].
Defined.

(** * The pairing connection, executed

    A phone connects, completes its handshake, is approved by the local user and
    told so; a second connection is turned away meanwhile.  The toy Noise, codecs
    and invitation are those of [PairingExamples]. *)

#[local] Existing Instance toyNoise.
#[local] Existing Instance toyUrl.
#[local] Existing Instance invitationCodec.
#[local] Existing Instance contextMsg.
#[local] Existing Instance initiatorMsg.
#[local] Existing Instance responderMsg.
#[local] Existing Instance finishMsg.

#[local] Instance approval_eq_dec : EqDecision PairingApproval.
Proof. solve_decision. Defined.
#[local] Instance approvals : ProtoMsg PairingApproval :=
  tableMsg [(pendingApproval, ["046"%byte]); (mkPairingApproval APPROVAL_APPROVED 1, ["047"%byte])].

(** Each message of the transport has one encoding here. *)
#[local] Instance startMsg : ProtoMsg HandshakeStart := {|
  msg_Marshal _ := Ok ["050"%byte]; msg_Unmarshal _ := Ok firstMessage; msg_HasUnknownFields _ := false |}.
#[local] Instance responseMsg : ProtoMsg PairingHandshakeResponse := {|
  msg_Marshal m := Ok (Response_NoiseMessage m); msg_Unmarshal b := Ok (mkPairingHandshakeResponse b);
  msg_HasUnknownFields _ := false |}.
#[local] Instance lastMsg : ProtoMsg PairingHandshakeFinish := {|
  msg_Marshal m := Ok (Finish_NoiseMessage m); msg_Unmarshal b := Ok (mkPairingHandshakeFinish b);
  msg_HasUnknownFields _ := false |}.

Definition world0 : PairingWorld := initial_world DefaultTTL DefaultApprovalTimeout (files0, store0).
Definition demo_env (id : byte) : StartEnv :=
  mkStartEnv createdTime createdTime createdTime (Ok (fill 16 id)) tt.
Definition binary (b : bytes) : result (Z * bytes) := Ok (BinaryMessage, b).

Definition pairing_steps : list WorldStep :=
  [Local (CallCreate hints (Ok (Some agent)) (Ok invitationID) (Ok bootstrap) createdTime);
   Connect; Connect;
   StartFrame 0 (demo_env "061") (binary ["050"%byte]) (Ok tt);
   StartFrame 1 (demo_env "062") (binary ["050"%byte]) (Ok tt);
   FinishFrame 0 createdTime createdTime (binary lastOf.2) (Ok tt);
   Local (CallApprove createdTime createdTime time1 noFault (Encoding.RawURL_Encode (fill 16 "061")));
   WaitReturns 0; DecisionTaken 0 (Ok tt); HandlerReturns 0 createdTime].

Definition frameKind (f : Frame) : Z := match f with Binary _ => 0 | Closing code => code end.

Example pairing_connection_executed :
  let w := world_run world0 pairing_steps in
  map (fun h => (map frameKind (sent h), phase h)) (connections w) =
    [([0; 0; 0; CloseNormalClosure], Returned); ([ClosePolicyViolation], Returned)] ∧
  state (identity (coordinator w)).2 = state1.
Proof. vm_compute. done. Qed.

Lemma phone_told_users_decision_witness :
  ∃ h s, connections (world_run world0 pairing_steps) !! 0%nat = Some h ∧ session h = Some s ∧
    ∃ steps1 call steps2 f, pairing_steps = steps1 ++ Local call :: steps2 ∧
      user_decides (coordinator (world_run world0 steps1)) call f (mkPairingApproval APPROVAL_APPROVED 1).
Proof.
  assert ((fun h => (decisionResult h, bool_decide (is_Some (session h)))) <$>
    connections (world_run world0 pairing_steps) !! 0%nat =
    Some (Some (Ok (mkPairingApproval APPROVAL_APPROVED 1)), true)) as Hcheck by (vm_compute; reflexivity).
  destruct (connections (world_run world0 pairing_steps) !! 0%nat) as [h|] eqn:Hh; [|discriminate].
  simpl in Hcheck. injection Hcheck as Hr Hs. apply bool_decide_eq_true in Hs as [s Hs].
  exists h, s. split; [done|]. split; [exact Hs|].
  destruct (phone_told_users_decision DefaultTTL DefaultApprovalTimeout (files0, store0) pairing_steps 0 h Hh)
    as [_ Htold].
  destruct (Htold s _ Hs Hr) as (steps1 & call & steps2 & f & Heq & _ & _ & Hu).
  exists steps1, call, steps2, f. split; [exact Heq|exact Hu].
Defined.

(** The phone goes away while the user is asked: the flow is canceled and the
    invitation can be used again. *)
Definition leaving_steps : list WorldStep :=
  take 6 pairing_steps ++ [PeerActivity 0 createdTime; HandlerReturns 0 createdTime].

Lemma flows_have_connections_witness :
  let w := world_run world0 leaving_steps in
  current (coordinator w) = None ∧ ∃ h s d, connections w !! 0%nat = Some h ∧ waiter h = true ∧ session h = Some s ∧
    holds (coordinator w) (Session_Decision s) d.
Proof.
  intros w. split; [vm_compute; reflexivity|].
  assert ((fun h => (phase h, waiter h)) <$> connections w !! 0%nat = Some (Returned, true)) as Hcheck
    by (vm_compute; reflexivity).
  destruct (connections w !! 0%nat) as [h|] eqn:Hh; [|discriminate]. simpl in Hcheck. injection Hcheck as Hp Hw.
  destruct (flows_have_connections DefaultTTL DefaultApprovalTimeout (files0, store0) leaving_steps) as [_ Hend].
  destruct (Hend 0%nat h Hh Hp Hw) as (s & d & Hs & Hd). exists h, s, d. split_and!; done.
Defined.

(** ** The door *)

Example pairing_door :
  map (fun r => admit_pairing r true)
    [mkTransportRequest "GET" EmptyString [PairingSubprotocol] agentURL "agent.local";
     mkTransportRequest "POST" EmptyString [PairingSubprotocol] agentURL "agent.local";
     mkTransportRequest "GET" "token=x" [PairingSubprotocol] agentURL "agent.local";
     mkTransportRequest "GET" EmptyString [] agentURL "agent.local";
     mkTransportRequest "GET" EmptyString [PairingSubprotocol] EmptyString "agent.local";
     mkTransportRequest "GET" EmptyString [PairingSubprotocol] agentURL "other.local"] =
  [Upgraded; Refused 405; Refused 426; Refused 426; NotUpgraded; NotUpgraded].
Proof. vm_compute. done. Qed.
