(* ===== verification/Path.v ===== *)
(** * Lexical path functions ([path/filepath] on systems other than Windows)

    The part of Go's [path/filepath] the repository calls.  A path is split at
    ['/'] into elements; [Clean] processes the elements, and the other functions are
    expressed through it. *)

From S2P Require Import Prelude.

Definition Separator : ascii := "/".

(** The elements between separators. *)
Fixpoint splitSlash (s : string) : list string :=
  match s with
  | EmptyString => [EmptyString]
  | String c s' =>
      if bool_decide (c = Separator) then EmptyString :: splitSlash s'
      else match splitSlash s' with
           | first :: rest => String c first :: rest
           | [] => [String c EmptyString]
           end
  end.

Fixpoint joinSlash (parts : list string) : string :=
  match parts with
  | [] => EmptyString
  | [p] => p
  | p :: ps => (p ++ String Separator (joinSlash ps))%string
  end.

Definition IsAbs (path : string) : bool :=
  match path with String c _ => bool_decide (c = Separator) | EmptyString => false end.

(** The loop of [Clean]; [out] is the output so far, reversed. *)
Fixpoint cleanParts (rooted : bool) (parts out : list string) : list string :=
  match parts with
  | [] => reverse out
  | p :: ps =>
      if bool_decide (p = EmptyString) || bool_decide (p = "."%string) then cleanParts rooted ps out
      else if bool_decide (p = ".."%string) then
        match out with
        | top :: out' =>
            if bool_decide (top = ".."%string) then cleanParts rooted ps (p :: out)
            else cleanParts rooted ps out'
        | [] => if rooted then cleanParts rooted ps [] else cleanParts rooted ps [p]
        end
      else cleanParts rooted ps (p :: out)
  end.

(** The elements of the cleaned path. *)
Definition elements (path : string) : list string := cleanParts (IsAbs path) (splitSlash path) [].

Definition fromElements (rooted : bool) (parts : list string) : string :=
  if rooted then String Separator (joinSlash parts)
  else match parts with [] => "." | _ => joinSlash parts end.

Definition Clean (path : string) : string := fromElements (IsAbs path) (elements path).

(** [Join]: leading empty elements are dropped. *)
Fixpoint Join (elem : list string) : string :=
  match elem with
  | [] => EmptyString
  | e :: rest => if bool_decide (e = EmptyString) then Join rest else Clean (joinSlash elem)
  end.

(** [Abs]; the working directory is an argument. *)
Definition Abs (getwd : result string) (path : string) : result string :=
  if IsAbs path then Ok (Clean path)
  else match getwd with
  | Err e => Err e
  | Ok wd => Ok (Join [wd; path])
  end.

(** [Dir] and [Base]: the path up to, and after, the last separator. *)
Definition Dir (path : string) : string :=
  match rev (splitSlash path) with
  | _ :: (_ :: _) as front => Clean (joinSlash (rev front ++ [EmptyString]))
  | _ => "."
  end.

Definition IsLocal (path : string) : bool :=
  if IsAbs path || bool_decide (path = EmptyString) then false
  else match elements path with
  | first :: _ => negb (bool_decide (first = ".."%string))
  | [] => true
  end.

(** The common elements of the two paths are dropped. *)
Fixpoint dropCommon (base targ : list string) : list string * list string :=
  match base, targ with
  | b :: base', t :: targ' => if bool_decide (b = t) then dropCommon base' targ' else (base, targ)
  | _, _ => (base, targ)
  end.

Definition errRel : error := ErrorString "Rel: can't make target relative to base".

Definition Rel (base targ : string) : result string :=
  if bool_decide (Clean base = Clean targ) then Ok "."%string
  else if negb (Bool.eqb (IsAbs base) (IsAbs targ)) then Err errRel
  else match dropCommon (elements base) (elements targ) with
  | (b, t) =>
      if bool_decide (head b = Some ".."%string) then Err errRel
      else Ok (joinSlash (map (fun _ => ".."%string) b ++ t))
  end.

Example Clean_examples :
  map Clean [""; "a//b/./../c"; "/../a/"; "../../a"; "a/.."; "/"; "."]%string =
  ["."; "a/c"; "/a"; "../../a"; "."; "/"; "."]%string ∧
  Join ["/w"; ""; "a/../b"]%string = "/w/b"%string ∧ Join [""; ""]%string = EmptyString ∧
  map Dir [""; "/a/b"; "/a"; "a"; "/"; "a/b/"]%string = ["."; "/a"; "/"; "."; "/"; "a/b"]%string ∧
  Rel "/w/d" "/w/.vibebridge/x" = Ok "../.vibebridge/x"%string ∧ Rel "/w" "/w/a/b" = Ok "a/b"%string ∧
  Rel "a" "/b" = Err errRel ∧ Rel "/" "/x" = Ok "x"%string ∧
  map IsLocal ["a/b"; "a/../../b"; ".."; "."; ""; "/a"; "../a"]%string = [true; false; false; true; false; false; false].
Proof. vm_compute. auto 20. Qed.

(** ** Elements *)

Fixpoint no_slash (s : string) : Prop :=
  match s with EmptyString => True | String c s' => c ≠ Separator ∧ no_slash s' end.

(** An element of a cleaned absolute path. *)
Definition proper (p : string) : Prop :=
  no_slash p ∧ p ≠ EmptyString ∧ p ≠ "."%string ∧ p ≠ ".."%string.

#[global] Instance no_slash_dec s : Decision (no_slash s).
Proof. induction s; simpl; apply _. Defined.

#[global] Instance proper_dec p : Decision (proper p).
Proof. unfold proper. apply _. Defined.

Lemma append_assoc (s t u : string) : ((s ++ t) ++ u = s ++ (t ++ u))%string.
Proof. induction s as [|c s IH]; [done|]. exact (f_equal (String c) IH). Qed.

Lemma append_empty (s : string) : (s ++ EmptyString)%string = s.
Proof. induction s as [|c s IH]; [done|]. exact (f_equal (String c) IH). Qed.

Lemma append_inj (s t u : string) : (s ++ t = s ++ u)%string → t = u.
Proof. induction s as [|c s IH]; intros H; [done|]. apply IH. by injection H. Qed.

Lemma splitSlash_nonempty s : splitSlash s ≠ [].
Proof. destruct s as [|c s]; simpl; [done|]. repeat case_match; done. Qed.

Lemma splitSlash_no_slash s : Forall no_slash (splitSlash s).
Proof.
  induction s as [|c s IH]; simpl; [by repeat constructor|]. case_bool_decide; [by constructor|].
  destruct (splitSlash s); inversion_clear IH; repeat constructor; done.
Qed.

Lemma splitSlash_plain p : no_slash p → splitSlash p = [p].
Proof.
  induction p as [|c p IH]; [done|]. simpl. intros [Hc Hp]. rewrite bool_decide_eq_false_2 by done.
  by rewrite IH.
Qed.

Lemma splitSlash_app p rest :
  no_slash p → splitSlash (p ++ String Separator rest)%string = p :: splitSlash rest.
Proof.
  induction p as [|c p IH]; intros Hp; [done|]. destruct Hp as [Hc Hp].
  change (splitSlash (String c (p ++ String Separator rest)) = String c p :: splitSlash rest).
  simpl. rewrite bool_decide_eq_false_2 by done. by rewrite IH.
Qed.

Lemma joinSlash_cons p ps : ps ≠ [] → joinSlash (p :: ps) = (p ++ String Separator (joinSlash ps))%string.
Proof. by destruct ps. Qed.

Lemma splitSlash_joinSlash ps : ps ≠ [] → Forall no_slash ps → splitSlash (joinSlash ps) = ps.
Proof.
  induction ps as [|p ps IH]; [done|]. intros _ [Hp Hps]%Forall_cons.
  destruct (decide (ps = [])) as [->|Hne]; [by apply splitSlash_plain|].
  rewrite joinSlash_cons, splitSlash_app by done. by rewrite IH.
Qed.

Lemma joinSlash_app ps qs :
  ps ≠ [] → qs ≠ [] → joinSlash (ps ++ qs) = (joinSlash ps ++ String Separator (joinSlash qs))%string.
Proof.
  intros Hps Hqs. induction ps as [|p ps IH]; [done|]. destruct (decide (ps = [])) as [->|Hne].
  - simpl. by destruct qs.
  - cbn [app]. rewrite !joinSlash_cons by (try done; by destruct ps). by rewrite IH, append_assoc.
Qed.

Lemma splitSlash_join_prefix ps rest :
  ps ≠ [] → Forall no_slash ps →
  splitSlash (joinSlash ps ++ String Separator rest)%string = ps ++ splitSlash rest.
Proof.
  induction ps as [|p ps IH]; [done|]. intros _ [Hp Hps]%Forall_cons.
  destruct (decide (ps = [])) as [->|Hne]; [by apply splitSlash_app|].
  rewrite joinSlash_cons, append_assoc by done.
  change (String Separator (joinSlash ps) ++ String Separator rest)%string
    with (String Separator (joinSlash ps ++ String Separator rest)%string).
  rewrite splitSlash_app by done. by rewrite IH.
Qed.

Lemma cleanParts_proper parts out :
  Forall no_slash parts → Forall proper out → Forall proper (cleanParts true parts out).
Proof.
  revert out; induction parts as [|p ps IH]; intros out Hparts Hout; simpl; [by apply Forall_reverse|].
  apply Forall_cons in Hparts as [Hp Hps]. destruct (bool_decide (p = EmptyString) || _) eqn:Hskip; [by apply IH|].
  split_bool. case_bool_decide.
  - destruct out as [|top out]; [by apply IH|]. apply Forall_cons in Hout as [(? & ? & ? & Htop) Hout].
    rewrite bool_decide_eq_false_2 by done. by apply IH.
  - apply IH; [done|]. by constructor.
Qed.

Lemma cleanParts_id parts out : Forall proper parts → cleanParts true parts out = reverse out ++ parts.
Proof.
  revert out; induction parts as [|p ps IH]; intros out Hparts; simpl; [by rewrite app_nil_r|].
  apply Forall_cons in Hparts as [(Hs & Hp1 & Hp2 & Hp3) Hps].
  rewrite !bool_decide_eq_false_2 by done. simpl. rewrite IH by done.
  by rewrite reverse_cons, <- app_assoc.
Qed.

Lemma elements_proper path : IsAbs path = true → Forall proper (elements path).
Proof. intros Habs. unfold elements. rewrite Habs. by apply cleanParts_proper; [apply splitSlash_no_slash|]. Qed.

(** The cleaned absolute path with the given elements. *)
Definition absolute (parts : list string) : string := String Separator (joinSlash parts).

Lemma Clean_absolute path : IsAbs path = true → Clean path = absolute (elements path).
Proof. intros Habs. unfold Clean. by rewrite Habs. Qed.

Lemma proper_no_slash parts : Forall proper parts → Forall no_slash parts.
Proof. intros Hp. eapply Forall_impl; [exact Hp|]. by intros p [Hs _]. Qed.

Lemma elements_absolute parts : Forall proper parts → elements (absolute parts) = parts.
Proof.
  intros Hp. unfold elements, absolute. simpl.
  destruct (decide (parts = [])) as [->|Hne]; [done|].
  rewrite splitSlash_joinSlash by auto using proper_no_slash. by rewrite cleanParts_id.
Qed.

Lemma elements_Clean path : IsAbs path = true → elements (Clean path) = elements path.
Proof. intros Habs. rewrite Clean_absolute by done. by apply elements_absolute, elements_proper. Qed.

Lemma IsAbs_Clean path : IsAbs path = true → IsAbs (Clean path) = true.
Proof. intros Habs. by rewrite Clean_absolute. Qed.

Lemma Clean_idem path : IsAbs path = true → Clean (Clean path) = Clean path.
Proof.
  intros Habs. rewrite (Clean_absolute (Clean path)) by by apply IsAbs_Clean.
  by rewrite elements_Clean, Clean_absolute.
Qed.

Lemma absolute_inj ps qs : Forall proper ps → Forall proper qs → absolute ps = absolute qs → ps = qs.
Proof. intros Hp Hq Heq. rewrite <- (elements_absolute ps), Heq by done. by apply elements_absolute. Qed.


(** ** Joining *)

Lemma splitSlash_append s t : splitSlash (s ++ String Separator t)%string = splitSlash s ++ splitSlash t.
Proof.
  induction s as [|c s IH]; [done|].
  change (splitSlash (String c (s ++ String Separator t)) = splitSlash (String c s) ++ splitSlash t).
  simpl. rewrite IH. case_bool_decide; [done|]. pose proof (splitSlash_nonempty s).
  by destruct (splitSlash s).
Qed.

Lemma cleanParts_app rooted ps qs out :
  cleanParts rooted (ps ++ qs) out = cleanParts rooted qs (reverse (cleanParts rooted ps out)).
Proof.
  revert out; induction ps as [|p ps IH]; intros out; simpl; [by rewrite reverse_involutive|].
  repeat case_match; apply IH.
Qed.

(** Joining proper elements to an absolute path puts them at the end. *)
Lemma Join_propers base names :
  IsAbs base = true → Forall proper names → names ≠ [] →
  Join (base :: names) = absolute (elements base ++ names).
Proof.
  intros Habs Hnames Hne. cbn [Join]. rewrite bool_decide_eq_false_2 by (by intros ->).
  rewrite joinSlash_cons by done.
  assert (IsAbs (base ++ String Separator (joinSlash names))%string = true) as Habs' by (by destruct base).
  rewrite Clean_absolute by done. f_equal. unfold elements. rewrite Habs', Habs, splitSlash_append, cleanParts_app.
  rewrite splitSlash_joinSlash by auto using proper_no_slash. rewrite cleanParts_id by done.
  by rewrite reverse_involutive.
Qed.

Lemma Join_proper base name :
  IsAbs base = true → proper name →
  IsAbs (Join [base; name]) = true ∧ elements (Join [base; name]) = elements base ++ [name].
Proof.
  intros Habs Hname. rewrite Join_propers by (try done; by apply Forall_singleton). split; [done|].
  apply elements_absolute, Forall_app. split; [by apply elements_proper|by apply Forall_singleton].
Qed.

(** A cleaned absolute path is the one with its elements. *)
Lemma Clean_elements path : IsAbs path = true → Clean path = path → path = absolute (elements path).
Proof. intros Habs Hc. by rewrite <- Clean_absolute. Qed.

(** [Dir] drops the last element. *)
Lemma Dir_absolute parts name :
  Forall proper parts → proper name → Dir (absolute (parts ++ [name])) = absolute parts.
Proof.
  intros Hp Hn. unfold Dir, absolute.
  assert (splitSlash (String Separator (joinSlash (parts ++ [name]))) = EmptyString :: parts ++ [name]) as ->.
  { change (String Separator (joinSlash (parts ++ [name]))) with (EmptyString ++ String Separator (joinSlash (parts ++ [name])))%string.
    rewrite splitSlash_app by done. f_equal. apply splitSlash_joinSlash; [by destruct parts|].
    apply proper_no_slash, Forall_app. split; [done|]. constructor; [done|constructor]. }
  rewrite app_comm_cons, rev_unit.
  destruct (rev (EmptyString :: parts)) as [|x l] eqn:Hrev.
  { apply (f_equal length) in Hrev. by rewrite length_rev in Hrev. }
  rewrite <- Hrev, rev_involutive.
  change ((EmptyString :: parts) ++ [EmptyString]) with (EmptyString :: (parts ++ [EmptyString])).
  rewrite joinSlash_cons by (by destruct parts).
  change (EmptyString ++ String Separator (joinSlash (parts ++ [EmptyString])))%string
    with (String Separator (joinSlash (parts ++ [EmptyString]))).
  rewrite Clean_absolute by done. unfold absolute. f_equal. f_equal.
  unfold elements. simpl. destruct (decide (parts = [])) as [->|Hne]; [done|].
  rewrite joinSlash_app by done. simpl. rewrite splitSlash_join_prefix by auto using proper_no_slash.
  rewrite cleanParts_app, (cleanParts_id parts) by done. simpl. apply reverse_involutive.
Qed.

(** Hexadecimal names are proper. *)
Lemma hexDigit_plain n : (n < 16)%N → hexDigit n ≠ Separator ∧ hexDigit n ≠ "."%char.
Proof.
  intros Hn. assert (n ∈ (N.of_nat <$> seq 0 16)) as Hin.
  { apply list_elem_of_fmap. exists (N.to_nat n). rewrite N2Nat.id. split; [done|]. apply elem_of_seq. lia. }
  assert (Forall (fun n => hexDigit n ≠ Separator ∧ hexDigit n ≠ "."%char) (N.of_nat <$> seq 0 16)) as Hall.
  { simpl. repeat (constructor; [by split|]). constructor. }
  rewrite Forall_forall in Hall. by apply Hall.
Qed.

Lemma hexEncode_no_slash b : no_slash (hexEncode b).
Proof.
  induction b as [|x b IH]; [done|]. cbn [hexEncode no_slash].
  assert (Byte.to_N x / 16 < 16 ∧ Byte.to_N x mod 16 < 16)%N as [H1 H2].
  { pose proof (Byte.to_N_bounded x). split; [apply N.Div0.div_lt_upper_bound|apply N.mod_lt]; lia. }
  split_and!; [by apply hexDigit_plain..|done].
Qed.

Lemma hexEncode_proper b : b ≠ [] → proper (hexEncode b).
Proof.
  intros Hb. split; [apply hexEncode_no_slash|]. destruct b as [|x b]; [done|]. cbn [hexEncode].
  assert (Byte.to_N x / 16 < 16)%N as H1.
  { pose proof (Byte.to_N_bounded x). apply N.Div0.div_lt_upper_bound; lia. }
  pose proof (hexDigit_plain _ H1) as [_ Hd]. split_and!; [done|..]; intros [=]; congruence.
Qed.
