(* ===== verification/Workspace.v ===== *)
(** * Workspaces ([internal/workspace/registry.go])

    The workspace roots of the Agent and the directories sessions are launched in.
    The file system is a state of its own, which every call may change: the answers
    of two calls need not agree, as other processes work on it, too. *)

From S2P Require Import Prelude.
From S2P Require Import Utf8.
From S2P Require Import Path.

(** What [os.Lstat] says an entry is. *)
Inductive FileKind := KindDirectory | KindSymlink | KindOther.

#[global] Instance FileKind_eq_dec : EqDecision FileKind.
Proof. solve_decision. Defined.

(** The calls of [os] and [path/filepath] that read or change the file system.
    [os_IsNotExist], [os_IsExist] and [os_Errno] ([errors.As] to [syscall.Errno])
    classify errors. *)
Class FileSystem (F : Type) := {
  os_Getwd : F → F * result string;
  filepath_EvalSymlinks : F → string → F * result string;
  os_Stat_IsDir : F → string → F * result bool;
  os_Lstat : F → string → F * result FileKind;
  os_Mkdir : F → string → F * result unit;
  os_MkdirAll : F → string → F * result unit;
  os_Remove : F → string → F * result unit;
  os_RemoveAll : F → string → F * result unit;
  os_ReadDir : F → string → F * result (list string);
  os_TempDir : F → string;
  os_IsNotExist : error → bool;
  os_IsExist : error → bool;
  os_Errno : error → option error;
}.

Record Definition_ := mkDefinition {
  Def_ID : string;
  Def_Label : string;
  Def_Root : string;
}.

#[global] Instance Definition_eq_dec : EqDecision Definition_.
Proof. solve_decision. Defined.

(** [Registry]: the definitions in order, and by identifier. *)
Record Registry := mkRegistry {
  definitions : list Definition_;
  byID : gmap string Definition_;
}.

(** [idPattern]: [^[a-z0-9][a-z0-9._-]{0,63}$]. *)
Definition lowerOrDigit (c : ascii) : bool :=
  let n := Z.of_N (N_of_ascii c) in in_range 97 122 n || in_range 48 57 n.
Definition idChar (c : ascii) : bool :=
  lowerOrDigit c || bool_decide (c = "."%char) || bool_decide (c = "_"%char) || bool_decide (c = "-"%char).
Definition idPattern_MatchString (id : string) : bool :=
  match list_ascii_of_string id with
  | first :: rest => lowerOrDigit first && forallb idChar rest && (len rest <=? 63)
  | [] => false
  end.

Definition hasNUL (path : string) : bool :=
  bool_decide ("000"%char ∈ list_ascii_of_string path).

Definition newPathOperationError (operation : string) (err : error) : error :=
  ErrorWrap (operation ++ " failed") err.

(** [containsCanonicalPath]. *)
Definition withSeparator (root : string) : string :=
  match last (list_ascii_of_string root) with
  | Some c => if bool_decide (c = Separator) then root else (root ++ String Separator EmptyString)%string
  | None => String Separator EmptyString
  end.
Definition containsCanonicalPath (root candidate : string) : bool :=
  let root := Clean root in
  let candidate := Clean candidate in
  bool_decide (candidate = root) || String.prefix (withSeparator root) candidate.

Section Workspace.
Context {F : Type} {fs : FileSystem F}.

Definition filepath_Abs (f : F) (path : string) : F * result string :=
  if IsAbs path then (f, Ok (Clean path))
  else let '(f, wd) := os_Getwd f in (f, Abs wd path).

Definition canonicalizePath (f : F) (path : string) : F * result string := filepath_EvalSymlinks f path.

Definition canonicalDirectory (f : F) (path baseDirectory : string) : F * result string :=
  if bool_decide (path = EmptyString) then (f, Err (ErrorString "root must not be empty"))
  else if hasNUL path then (f, Err (ErrorString "path contains a NUL byte"))
  else
    let path := if negb (bool_decide (baseDirectory = EmptyString)) && negb (IsAbs path)
                then Join [baseDirectory; path] else path in
    match filepath_Abs f path with
    | (f, Err e) => (f, Err (newPathOperationError "make path absolute" e))
    | (f, Ok absolute) =>
        match canonicalizePath f absolute with
        | (f, Err e) => (f, Err (newPathOperationError "resolve path" e))
        | (f, Ok canonical) =>
            match filepath_Abs f canonical with
            | (f, Err e) => (f, Err (newPathOperationError "make canonical path absolute" e))
            | (f, Ok canonical) =>
                let canonical := Clean canonical in
                match os_Stat_IsDir f canonical with
                | (f, Err e) => (f, Err (newPathOperationError "inspect path" e))
                | (f, Ok isDir) =>
                    if negb isDir then (f, Err (ErrorString "path is not a directory"))
                    else (f, Ok canonical)
                end
            end
        end
    end.

(** The loop of [NewRegistry]; [seenRoots] holds the cleaned roots. *)
Fixpoint registerAll (f : F) (baseDirectory : string) (registry : Registry) (seenRoots : gset string)
    (defs : list Definition_) : F * result Registry :=
  match defs with
  | [] => (f, Ok registry)
  | d :: defs =>
      if negb (idPattern_MatchString (Def_ID d)) then
        (f, Err (ErrorString "workspaces[%d]: id %q must match %s"))
      else if bool_decide (is_Some (byID registry !! Def_ID d)) then
        (f, Err (ErrorString "duplicate workspace id %q"))
      else
        let label := TrimSpace (Def_Label d) in
        if bool_decide (label = EmptyString) then
          (f, Err (ErrorString "workspaces[%d]: label must not be empty"))
        else match canonicalDirectory f (Def_Root d) baseDirectory with
        | (f, Err e) => (f, Err (ErrorWrap "workspaces[%d] %q: invalid root" e))
        | (f, Ok root) =>
            let rootKey := Clean root in
            if bool_decide (rootKey ∈ seenRoots) then
              (f, Err (ErrorString "workspace %q duplicates the canonical root of workspace %q"))
            else
              let d := mkDefinition (Def_ID d) label root in
              registerAll f baseDirectory
                (mkRegistry (definitions registry ++ [d]) (<[Def_ID d := d]> (byID registry)))
                ({[rootKey]} ∪ seenRoots) defs
        end
  end.

Definition NewRegistry (f : F) (defs : list Definition_) (baseDirectory : string) : F * result Registry :=
  registerAll f baseDirectory (mkRegistry [] ∅) ∅ defs.

Definition RevalidateDirectory (f : F) (root path : string) : F * result string :=
  match canonicalDirectory f root EmptyString with
  | (f, Err e) => (f, Err (ErrorWrap "revalidate workspace root" e))
  | (f, Ok currentRoot) =>
      if negb (bool_decide (Clean currentRoot = Clean root)) then
        (f, Err (ErrorString "workspace root changed since configuration"))
      else if bool_decide (path = EmptyString) || bool_decide (Clean path = Clean root) then (f, Ok currentRoot)
      else match canonicalDirectory f path EmptyString with
      | (f, Err e) => (f, Err (ErrorWrap "revalidate launch directory" e))
      | (f, Ok currentDirectory) =>
          if negb (containsCanonicalPath currentRoot currentDirectory) then
            (f, Err (ErrorString "launch directory must remain within workspace"))
          else (f, Ok currentDirectory)
      end
  end.

Definition Definitions (r : Registry) : list Definition_ := definitions r.

Definition Lookup (r : Registry) (id : string) : option Definition_ := byID r !! id.

Definition ResolveDirectory (f : F) (r : Registry) (id path : string) : F * result string :=
  match Lookup r id with
  | None => (f, Err (ErrorString "workspace %q is not configured"))
  | Some d =>
      if bool_decide (path = EmptyString) then (f, Ok (Def_Root d))
      else
        let candidate := if IsAbs path then path else Join [Def_Root d; path] in
        match canonicalDirectory f candidate EmptyString with
        | (f, Err e) => (f, Err (ErrorWrap "resolve directory in workspace %q" e))
        | (f, Ok canonical) =>
            if negb (containsCanonicalPath (Def_Root d) canonical) then
              (f, Err (ErrorString "directory must remain within workspace %q"))
            else (f, Ok canonical)
        end
  end.
End Workspace.

(** ** Containment *)

Lemma last_proper p : proper p → ∃ c, last (list_ascii_of_string p) = Some c ∧ c ≠ Separator.
Proof.
  intros (Hs & Hne & _). clear -Hs Hne. induction p as [|c p IH]; [done|]. simpl in *.
  destruct Hs as [Hc Hp]. destruct p as [|c' p]; [eauto|]. destruct (IH Hp ltac:(done)) as (x & Hx & ?).
  exists x. split; [|done]. by rewrite <- Hx.
Qed.

Lemma list_ascii_append s t :
  list_ascii_of_string (s ++ t)%string = list_ascii_of_string s ++ list_ascii_of_string t.
Proof. induction s as [|c s IH]; [done|]. exact (f_equal (cons c) IH). Qed.

Lemma last_joinSlash ps :
  ps ≠ [] → Forall proper ps → ∃ c, last (list_ascii_of_string (joinSlash ps)) = Some c ∧ c ≠ Separator.
Proof.
  induction ps as [|p ps IH]; [done|]. intros _ [Hp Hps]%Forall_cons.
  destruct (decide (ps = [])) as [->|Hne]; [by apply last_proper|].
  destruct (IH Hne Hps) as (c & Hc & ?). exists c. split; [|done].
  rewrite joinSlash_cons, list_ascii_append by done. rewrite last_app.
  change (list_ascii_of_string (String Separator (joinSlash ps)))
    with (Separator :: list_ascii_of_string (joinSlash ps)).
  by rewrite last_cons, Hc.
Qed.

Lemma withSeparator_absolute ps :
  Forall proper ps →
  withSeparator (absolute ps) =
    match ps with [] => "/"%string | _ => (absolute ps ++ String Separator EmptyString)%string end.
Proof.
  intros Hps. destruct (decide (ps = [])) as [->|Hne]; [done|].
  destruct (last_joinSlash ps Hne Hps) as (c & Hc & Hsep). unfold withSeparator, absolute.
  change (list_ascii_of_string (String Separator (joinSlash ps)))
    with (Separator :: list_ascii_of_string (joinSlash ps)).
  rewrite last_cons, Hc. rewrite bool_decide_eq_false_2 by done. by destruct ps.
Qed.

Lemma prefix_true s t : String.prefix s t = true ↔ ∃ r, t = (s ++ r)%string.
Proof.
  revert t; induction s as [|c s IH]; intros t.
  { split; intros _; [by exists t|by destruct t]. }
  destruct t as [|c' t]; [by split; [|intros [r Hr]]|]. cbn [String.prefix].
  destruct (ascii_dec c c') as [->|Hne].
  - rewrite IH. split; intros [r Hr]; exists r; [by rewrite Hr|by injection Hr].
  - split; [done|]. intros [r Hr]. by injection Hr.
Qed.

(** On absolute paths, [containsCanonicalPath] says that the elements of the root
    are the first elements of the candidate. *)
Lemma containsCanonicalPath_spec root candidate :
  IsAbs root = true → IsAbs candidate = true →
  containsCanonicalPath root candidate = true ↔ elements root `prefix_of` elements candidate.
Proof.
  intros Hr Hc. unfold containsCanonicalPath. rewrite !Clean_absolute by done.
  pose proof (elements_proper root Hr) as Hpr. pose proof (elements_proper candidate Hc) as Hpc.
  set (R := elements root) in *. set (C := elements candidate) in *.
  rewrite withSeparator_absolute, orb_true_iff, bool_decide_eq_true, prefix_true by done. split.
  - intros [Heq%absolute_inj|[r Heq]]; [by rewrite Heq|done|done|].
    destruct (decide (R = [])) as [->|Hne]; [apply prefix_nil|].
    assert (absolute C = (absolute R ++ String Separator r)%string) as Heq'.
    { rewrite Heq. destruct R; [done|]. by rewrite append_assoc. }
    unfold absolute in Heq'.
    change (String Separator (joinSlash R) ++ String Separator r)%string
      with (String Separator (joinSlash R ++ String Separator r)%string) in Heq'.
    injection Heq' as Hj. apply (f_equal splitSlash) in Hj.
    rewrite splitSlash_join_prefix in Hj by auto using proper_no_slash.
    destruct (decide (C = [])) as [HC|HC].
    + rewrite HC in Hj. apply (f_equal length) in Hj. rewrite length_app in Hj.
      pose proof (splitSlash_nonempty r). destruct R, (splitSlash r); simpl in Hj; try done; lia.
    + rewrite splitSlash_joinSlash in Hj by auto using proper_no_slash. rewrite Hj. by apply prefix_app_r.
  - intros [T HT]. destruct (decide (T = [])) as [->|HTne]; [left; by rewrite HT, app_nil_r|]. right.
    destruct (decide (R = [])) as [->|Hne]; [by exists (joinSlash C)|].
    exists (joinSlash T). unfold absolute. rewrite HT, joinSlash_app by done.
    destruct R; [done|]. by rewrite append_assoc.
Qed.

(** * Facts about workspaces

    Directories sessions are launched in lie inside their workspace, whatever the
    file system answers; an executed registry. *)

Section Facts.
Context {F : Type} {fs : FileSystem F}.
Implicit Types (f : F) (r : Registry).

(** The documentation of [os.Getwd]: an absolute path name. *)
Context (Getwd_absolute : ∀ f f' wd, os_Getwd f = (f', Ok wd) → IsAbs wd = true).

(** An absolute path in its shortest form. *)
Definition canonical (path : string) : Prop := IsAbs path = true ∧ Clean path = path.

(** [dir] is [root] or lies below it. *)
Definition within (root dir : string) : Prop := elements root `prefix_of` elements dir.

Lemma canonical_Clean path : IsAbs path = true → canonical (Clean path).
Proof. split; auto using IsAbs_Clean, Clean_idem. Qed.

Lemma IsAbs_joinSlash p ps : IsAbs p = true → IsAbs (joinSlash (p :: ps)) = true.
Proof. destruct p; [done|]. by destruct ps. Qed.

Lemma filepath_Abs_Ok f path f' p : filepath_Abs f path = (f', Ok p) → IsAbs p = true.
Proof.
  unfold filepath_Abs, Abs. destruct (IsAbs path) eqn:Habs; [intros [= _ <-]; by apply IsAbs_Clean|].
  destruct (os_Getwd f) as [g [wd|e]] eqn:Hwd; [|done]. intros [= _ <-].
  apply Getwd_absolute in Hwd. simpl. rewrite bool_decide_eq_false_2 by (by intros ->).
  by apply IsAbs_Clean, (IsAbs_joinSlash wd [path]).
Qed.

Lemma canonicalDirectory_Ok f path base f' dir :
  canonicalDirectory f path base = (f', Ok dir) → canonical dir.
Proof.
  unfold canonicalDirectory. case_bool_decide; [done|]. destruct (hasNUL path); [done|].
  repeat case_match; intros; simplify_eq; apply canonical_Clean; by eapply filepath_Abs_Ok.
Qed.

Lemma within_refl root dir : Clean dir = Clean root → IsAbs root = true → IsAbs dir = true → within root dir.
Proof.
  intros Heq Hr Hd. unfold within. by rewrite <- (elements_Clean root), <- Heq, elements_Clean.
Qed.

(** Revalidating a root gives the root. *)
Lemma revalidated_root f root f' cur :
  IsAbs root = true → RevalidateDirectory f root EmptyString = (f', Ok cur) → cur = Clean root.
Proof.
  intros _. unfold RevalidateDirectory. destruct (canonicalDirectory f root _) as [g [c|e]] eqn:Hc; [|done].
  apply canonicalDirectory_Ok in Hc as [_ Hc]. case_bool_decide; simpl; [|done].
  intros [= _ <-]. congruence.
Qed.

(** The launch directory the session server accepts is a cleaned absolute
    path inside the workspace root it was asked for, which still resolves to
    itself; so is every directory a registry resolves. *)
Theorem launch_directory_stays_inside f root path f' dir :
  IsAbs root = true → RevalidateDirectory f root path = (f', Ok dir) →
  canonical dir ∧ within root dir ∧
  ∃ g, canonicalDirectory f root EmptyString = (g, Ok (Clean root)).
Proof.
  intros Hroot. unfold RevalidateDirectory.
  destruct (canonicalDirectory f root EmptyString) as [g [cur|e]] eqn:Hcur; [|done].
  destruct (canonicalDirectory_Ok _ _ _ _ _ Hcur) as [Habs Hclean].
  case_bool_decide as Heq; simpl; [|done].
  assert (cur = Clean root) as -> by congruence.
  destruct (bool_decide (path = EmptyString) || _).
  { intros [= _ <-]. split_and!; [by split|by apply within_refl|eauto]. }
  destruct (canonicalDirectory g path EmptyString) as [g' [c|e]] eqn:Hc; [|done].
  destruct (negb _) eqn:Hin; [done|]. intros [= _ <-]. split_bool.
  apply canonicalDirectory_Ok in Hc as Hcan. destruct Hcan.
  apply containsCanonicalPath_spec in Hin; [|done|done].
  split_and!; [done| |eauto]. unfold within. by rewrite <- (elements_Clean root).
Qed.

(** ** Registries *)

Record registry_ok (r : Registry) : Prop := {
  ok_ids : NoDup (map Def_ID (definitions r));
  ok_roots : NoDup (map Def_Root (definitions r));
  ok_canonical : Forall (fun d => canonical (Def_Root d) ∧ Def_Label d ≠ EmptyString ∧
                                   idPattern_MatchString (Def_ID d) = true) (definitions r);
  ok_lookup id d : byID r !! id = Some d ↔ d ∈ definitions r ∧ Def_ID d = id;
}.

Lemma registerAll_Ok f base r seen defs f' r' :
  registry_ok r → (∀ d, d ∈ definitions r → Clean (Def_Root d) ∈ seen) →
  registerAll f base r seen defs = (f', Ok r') →
  registry_ok r' ∧ map Def_ID (definitions r') = map Def_ID (definitions r) ++ map Def_ID defs.
Proof.
  revert f r seen; induction defs as [|d defs IH]; intros f r seen Hr Hseen; simpl.
  { intros [= _ <-]. by rewrite app_nil_r. }
  destruct (negb (idPattern_MatchString _)) eqn:Hid; [done|].
  case_bool_decide as Hfresh; [done|]. case_bool_decide as Hlabel; [done|].
  destruct (canonicalDirectory f (Def_Root d) base) as [g [root|e]] eqn:Hc; [|done].
  case_bool_decide as Hnew; [done|]. split_bool.
  pose proof (canonicalDirectory_Ok _ _ _ _ _ Hc) as [Habs Hclean].
  intros Hrest. apply IH in Hrest as [Hok Hmap].
  - split; [done|]. rewrite Hmap. simpl. by rewrite map_app, <- app_assoc.
  - destruct Hr as [H1 H2 H3 H4]. split; simpl.
    + rewrite map_app. apply NoDup_app. split_and!; [done| |apply NoDup_singleton].
      intros x (d' & -> & Hd')%list_elem_of_fmap Heq%list_elem_of_singleton. simpl in *.
      apply Hfresh. exists d'. by apply H4.
    + rewrite map_app. apply NoDup_app. split_and!; [done| |apply NoDup_singleton].
      intros x (d' & -> & Hd')%list_elem_of_fmap Heq%list_elem_of_singleton. simpl in *.
      apply Hnew. rewrite <- Heq. by apply Hseen.
    + apply Forall_app. split; [done|]. repeat constructor; done.
    + intros id d'. rewrite lookup_insert_Some, elem_of_app, list_elem_of_singleton, H4.
      split.
      * intros [[<- <-]|(Hne & Hd' & <-)]; auto.
      * intros [[Hd'| ->] Heq]; [|by left]. right. split_and!; try done.
        intros <-. apply Hfresh. exists d'. apply H4. by split.
  - simpl. intros d' [Hd'| ->%list_elem_of_singleton]%elem_of_app.
    + apply elem_of_union. right. by apply Hseen.
    + apply elem_of_union. left. by apply elem_of_singleton.
Qed.

Lemma NewRegistry_Ok f defs base f' r :
  NewRegistry f defs base = (f', Ok r) →
  registry_ok r ∧ map Def_ID (Definitions r) = map Def_ID defs.
Proof.
  intros Hnew. apply registerAll_Ok in Hnew as [Hok Hmap]; [done| |].
  - split; simpl; [apply NoDup_nil_2|apply NoDup_nil_2|constructor|].
    intros id d. rewrite lookup_empty. split; [done|]. intros [Hd _]. by apply not_elem_of_nil in Hd.
  - simpl. intros d Hd. by apply not_elem_of_nil in Hd.
Qed.

Lemma ResolveDirectory_Ok f r id path f' dir :
  registry_ok r → ResolveDirectory f r id path = (f', Ok dir) →
  canonical dir ∧ ∃ d, Lookup r id = Some d ∧ within (Def_Root d) dir.
Proof.
  intros [_ _ Hcans Hlookup]. unfold ResolveDirectory.
  destruct (Lookup r id) as [d|] eqn:Hd; [|done].
  assert (canonical (Def_Root d)) as Hcan.
  { apply Hlookup in Hd as [Hd _]. rewrite Forall_forall in Hcans. by apply Hcans. }
  case_bool_decide; [intros [= _ <-]; split; [done|]; exists d; split; [done|unfold within; reflexivity]|].
  destruct (canonicalDirectory f _ _) as [g2 [c|e]] eqn:Hc; [|done].
  destruct (negb _) eqn:Hin; [done|]. intros [= _ <-]. split_bool.
  apply canonicalDirectory_Ok in Hc. split; [done|]. exists d. split; [done|].
  apply containsCanonicalPath_spec; [apply Hcan|apply Hc|done].
Qed.

(** A registry that validates lists the configured workspaces in order with
    distinct identifiers and distinct canonical roots, finds each by its
    identifier, and resolves directories only inside the workspace named. *)
Theorem registry_resolves_inside f defs base f' r :
  NewRegistry f defs base = (f', Ok r) →
  map Def_ID (Definitions r) = map Def_ID defs ∧
  NoDup (map Def_ID (Definitions r)) ∧ NoDup (map Def_Root (Definitions r)) ∧
  (∀ id d, Lookup r id = Some d ↔ d ∈ Definitions r ∧ Def_ID d = id) ∧
  (∀ g id path g' dir, ResolveDirectory g r id path = (g', Ok dir) →
     canonical dir ∧ ∃ d, Lookup r id = Some d ∧ within (Def_Root d) dir).
Proof.
  intros [Hok Hmap]%NewRegistry_Ok. pose proof Hok as [H1 H2 _ H4].
  split_and!; try done. intros g id path g' dir. by apply ResolveDirectory_Ok.
Qed.
End Facts.

(** ** An executed file system *)

(** A map from absolute paths to entries, without symbolic links that resolve. *)
Abbreviation tree := (gmap string FileKind).

Definition errNotExist := ErrorString "file does not exist".
Definition errExist := ErrorString "file already exists".

#[global] Instance tree_FileSystem : FileSystem tree := {|
  os_Getwd t := (t, Ok "/w"%string);
  filepath_EvalSymlinks t p := (t, match t !! p with Some _ => Ok p | None => Err errNotExist end);
  os_Stat_IsDir t p :=
    (t, match t !! p with Some k => Ok (bool_decide (k = KindDirectory)) | None => Err errNotExist end);
  os_Lstat t p := (t, match t !! p with Some k => Ok k | None => Err errNotExist end);
  os_Mkdir t p := match t !! p with Some _ => (t, Err errExist) | None => (<[p := KindDirectory]> t, Ok tt) end;
  os_MkdirAll t p := (<[p := KindDirectory]> t, Ok tt);
  os_Remove t p := match t !! p with Some _ => (delete p t, Ok tt) | None => (t, Err errNotExist) end;
  os_RemoveAll t p :=
    (filter (fun kv => containsCanonicalPath p kv.1 = false) t, Ok tt);
  os_ReadDir t p := (t, Ok (filter proper
    (map (fun kv : string * FileKind => default EmptyString (last (splitSlash kv.1)))
       (filter (fun kv => Dir kv.1 = p) (map_to_list t)))));
  os_TempDir _ := "/tmp"%string;
  os_IsNotExist e := errors_is e errNotExist;
  os_IsExist e := errors_is e errExist;
  os_Errno _ := None;
|}.

Lemma tree_Getwd (t t' : tree) wd : os_Getwd t = (t', Ok wd) → IsAbs wd = true.
Proof. simpl. by intros [= _ <-]. Qed.

Definition example_tree : tree :=
  list_to_map (map (fun p => (p, KindDirectory)) ["/"; "/w"; "/w/app"; "/other"; "/tmp"]%string).

Example example_revalidate :
  RevalidateDirectory example_tree "/w" "/w/app/../app" = (example_tree, Ok "/w/app"%string) ∧
  (RevalidateDirectory example_tree "/w" "/w/../other").2 =
    Err (ErrorString "launch directory must remain within workspace").
Proof. vm_compute. auto. Qed.

Lemma launch_directory_stays_inside_witness :
  canonical "/w/app" ∧ within "/w" "/w/app" ∧
  ∃ g, canonicalDirectory example_tree "/w" EmptyString = (g, Ok (Clean "/w")).
Proof.
  exact (launch_directory_stays_inside tree_Getwd example_tree "/w" "/w/app/../app" example_tree "/w/app"
           eq_refl (proj1 example_revalidate)).
Defined.

Definition example_definition : Definition_ := mkDefinition "app" " App " "app".
Definition example_registry : Registry :=
  mkRegistry [mkDefinition "app" "App" "/w/app"] {["app"%string := mkDefinition "app" "App" "/w/app"]}.

Example example_NewRegistry :
  NewRegistry example_tree [example_definition] "/w" = (example_tree, Ok example_registry).
Proof. vm_compute. reflexivity. Qed.

Lemma registry_resolves_inside_witness :
  map Def_ID (Definitions example_registry) = ["app"%string] ∧
  NoDup (map Def_ID (Definitions example_registry)) ∧ NoDup (map Def_Root (Definitions example_registry)) ∧
  (∀ id d, Lookup example_registry id = Some d ↔ d ∈ Definitions example_registry ∧ Def_ID d = id) ∧
  (∀ (g : tree) id path g' dir, ResolveDirectory g example_registry id path = (g', Ok dir) →
     canonical dir ∧ ∃ d, Lookup example_registry id = Some d ∧ within (Def_Root d) dir).
Proof.
  exact (registry_resolves_inside tree_Getwd example_tree [example_definition] "/w" example_tree
           example_registry example_NewRegistry).
Defined.
