(* ===== verification/StagingSession.v ===== *)
(** * A session's staging directory ([internal/attachment/staging.go])

    Creating and removing the directory of one session below the workspace, and the
    removal of leftovers at start.  The file system is the class [FileSystem]; the
    counters of [SessionStaging] are those the transfer manager works with. *)

From S2P Require Import Prelude.
From S2P Require Import Transfer.
From S2P Require Import StagingDirectory.
From S2P Require Import Path.
From S2P Require Import Workspace.

Definition metadataDirectoryName : string := ".vibebridge".
Definition uploadsDirectoryName : string := "uploads".
Definition maxSessionIDBytes : Z := 64.
Definition sandboxDirName : string := ".vibebridge-sandbox".

Definition errStagingInUse := ErrorString "session staging directory is still in use".
Definition errSessionIDLength := ErrorString "session ID length is invalid for staging".

(** [Path] and [Root]; the receiver may be nil. *)
Definition Path (s : option SessionStaging) : string :=
  match s with None => EmptyString | Some s => staging_path s end.
Definition Root (s : option SessionStaging) : string :=
  match s with None => EmptyString | Some s => workspaceRoot s end.

Definition completedBytes (s : SessionStaging) : Z := completedBytesReserved s.

(** What [Cleanup] leaves of the counters when it is done. *)
Definition markCleaned (s : SessionStaging) : SessionStaging :=
  s <| cleaned := true |> <| completedBytesReserved := 0 |>.

Section Staging.
Context {F : Type} {fs : FileSystem F}.

(** [newPathOperationError] with the errors of this file system. *)
Definition pathError (operation : string) (err : error) : error :=
  match os_Errno err with
  | Some errno => ErrorWrap (operation ++ " failed") errno
  | None =>
      match firstSentinel err
              [fs_ErrInvalid; fs_ErrPermission; fs_ErrExist; fs_ErrNotExist; fs_ErrClosed; io_ErrShortWrite] with
      | Some cause => ErrorWrap (operation ++ " failed") cause
      | None => ErrorString (operation ++ " failed")
      end
  end.

Definition validateCanonicalDirectory (f : F) (root path : string) : F * result unit :=
  match RevalidateDirectory f root path with
  | (f, Err _) => (f, Err (ErrorString "staging path boundary is invalid"))
  | (f, Ok canonical) =>
      if negb (bool_decide (Clean canonical = Clean path)) then
        (f, Err (ErrorString "staging path component must be canonical"))
      else (f, Ok tt)
  end.

(** The checks on what is there, or was just created. *)
Definition checkComponent (f : F) (root path : string) (info : result FileKind) : F * result unit :=
  match info with
  | Err e => (f, Err (pathError "inspect staging directory" e))
  | Ok KindSymlink => (f, Err (ErrorString "staging path component must not be a link"))
  | Ok KindOther => (f, Err (ErrorString "staging path component must be a directory"))
  | Ok KindDirectory => validateCanonicalDirectory f root path
  end.

Definition ensureCanonicalDirectory (f : F) (root path : string) : F * result unit :=
  match os_Lstat f path with
  | (f, Err e) =>
      if os_IsNotExist e then
        let '(f, made) := os_Mkdir f path in
        match made with
        | Err e => if negb (os_IsExist e) then (f, Err (pathError "create staging directory" e))
                   else let '(f, info) := os_Lstat f path in checkComponent f root path info
        | Ok _ => let '(f, info) := os_Lstat f path in checkComponent f root path info
        end
      else checkComponent f root path (Err e)
  | (f, info) => checkComponent f root path info
  end.

Definition newSessionStaging (root path : string) : SessionStaging :=
  mkSessionStaging root path false 0 false 0.

Definition CreateSessionStaging (f : F) (root : string) (sessionID : bytes) : F * result SessionStaging :=
  if (len sessionID =? 0) || (len sessionID >? maxSessionIDBytes) then (f, Err errSessionIDLength)
  else match RevalidateDirectory f root EmptyString with
  | (f, Err _) => (f, Err (ErrorString "validate staging workspace failed"))
  | (f, Ok currentRoot) =>
      let metadataDirectory := Join [currentRoot; metadataDirectoryName] in
      match ensureCanonicalDirectory f currentRoot metadataDirectory with
      | (f, Err e) => (f, Err (ErrorWrap "prepare staging metadata directory" e))
      | (f, Ok _) =>
          let uploadsDirectory := Join [metadataDirectory; uploadsDirectoryName] in
          match ensureCanonicalDirectory f currentRoot uploadsDirectory with
          | (f, Err e) => (f, Err (ErrorWrap "prepare staging uploads directory" e))
          | (f, Ok _) =>
              let path := Join [uploadsDirectory; hexEncode sessionID] in
              match os_Mkdir f path with
              | (f, Err e) => (f, Err (pathError "create session staging directory" e))
              | (f, Ok _) =>
                  match validateCanonicalDirectory f currentRoot path with
                  | (f, Err e) =>
                      let '(f, _) := os_Remove f path in
                      (f, Err (ErrorWrap "validate session staging directory" e))
                  | (f, Ok _) => (f, Ok (newSessionStaging currentRoot path))
                  end
              end
          end
      end
  end.

(** [os.Remove] of an entry that is not a directory of ours; that it is gone is as good. *)
Definition removeEntry (f : F) (what path : string) : F * result unit :=
  match os_Remove f path with
  | (f, Err e) => if negb (os_IsNotExist e) then (f, Err (pathError what e)) else (f, Ok tt)
  | (f, Ok _) => (f, Ok tt)
  end.

Definition Cleanup (f : F) (s : SessionStaging) : F * SessionStaging * result unit :=
  if cleaned s then (f, s, Ok tt)
  else if (openDirectories s >? 0) || transferManagerOpen s then (f, s, Err errStagingInUse)
  else match validateCanonicalDirectory f (workspaceRoot s) (Dir (staging_path s)) with
  | (f, Err e) => (f, s, Err (ErrorWrap "validate staging cleanup boundary" e))
  | (f, Ok _) =>
      match os_Lstat f (staging_path s) with
      | (f, Err e) =>
          if os_IsNotExist e then (f, markCleaned s, Ok tt)
          else (f, s, Err (pathError "inspect session staging directory" e))
      | (f, Ok KindDirectory) =>
          match validateCanonicalDirectory f (workspaceRoot s) (staging_path s) with
          | (f, Err e) => (f, s, Err (ErrorWrap "validate session staging cleanup target" e))
          | (f, Ok _) =>
              match os_RemoveAll f (staging_path s) with
              | (f, Err e) => (f, s, Err (pathError "remove session staging directory" e))
              | (f, Ok _) => (f, markCleaned s, Ok tt)
              end
          end
      | (f, Ok _) =>
          match removeEntry f "remove replaced session staging entry" (staging_path s) with
          | (f, Err e) => (f, s, Err e)
          | (f, Ok _) => (f, markCleaned s, Ok tt)
          end
      end
  end.

Definition CreateSandboxStaging (f : F) (sessionID : bytes) : F * result SessionStaging :=
  if (len sessionID =? 0) || (len sessionID >? maxSessionIDBytes) then (f, Err errSessionIDLength)
  else
    let sandboxRoot := Join [os_TempDir f; sandboxDirName] in
    match os_MkdirAll f sandboxRoot with
    | (f, Err e) => (f, Err (ErrorWrap "create sandbox staging root" e))
    | (f, Ok _) =>
        match filepath_EvalSymlinks f sandboxRoot with
        | (f, Err e) => (f, Err (ErrorWrap "canonicalize sandbox staging root" e))
        | (f, Ok canonical) => CreateSessionStaging f canonical sessionID
        end
    end.

(** The loop of [CleanupStaleStaging] over the names of the uploads directory. *)
Fixpoint removeStale (f : F) (root uploadsDir : string) (names : list string) : F * result unit :=
  match names with
  | [] => (f, Ok tt)
  | name :: names =>
      let sessionPath := Join [uploadsDir; name] in
      match os_Lstat f sessionPath with
      | (f, Err e) =>
          if os_IsNotExist e then removeStale f root uploadsDir names
          else (f, Err (pathError "inspect stale session staging" e))
      | (f, Ok KindSymlink) =>
          match removeEntry f "remove stale symlink staging entry" sessionPath with
          | (f, Err e) => (f, Err e)
          | (f, Ok _) => removeStale f root uploadsDir names
          end
      | (f, Ok KindOther) =>
          match removeEntry f "remove stale non-directory staging entry" sessionPath with
          | (f, Err e) => (f, Err e)
          | (f, Ok _) => removeStale f root uploadsDir names
          end
      | (f, Ok KindDirectory) =>
          match validateCanonicalDirectory f root sessionPath with
          | (f, Err e) => (f, Err (ErrorWrap "validate stale session staging boundary" e))
          | (f, Ok _) =>
              match os_RemoveAll f sessionPath with
              | (f, Err e) => (f, Err (pathError "remove stale session staging directory" e))
              | (f, Ok _) => removeStale f root uploadsDir names
              end
          end
      end
  end.

Definition CleanupStaleStaging (f : F) (root : string) : F * result unit :=
  match RevalidateDirectory f root EmptyString with
  | (f, Err _) => (f, Err (ErrorString "validate staging workspace failed"))
  | (f, Ok currentRoot) =>
      let uploadsDir := Join [currentRoot; metadataDirectoryName; uploadsDirectoryName] in
      match os_Lstat f uploadsDir with
      | (f, Err e) =>
          if os_IsNotExist e then (f, Ok tt) else (f, Err (pathError "inspect uploads directory" e))
      | (f, Ok KindDirectory) =>
          match validateCanonicalDirectory f currentRoot uploadsDir with
          | (f, Err e) => (f, Err (ErrorWrap "validate uploads directory boundary" e))
          | (f, Ok _) =>
              match os_ReadDir f uploadsDir with
              | (f, Err e) => (f, Err (pathError "read uploads directory" e))
              | (f, Ok names) => removeStale f currentRoot uploadsDir names
              end
          end
      | (f, Ok _) => (f, Err (ErrorString "uploads path must be a directory"))
      end
  end.

Definition CleanupStaleSandboxStaging (f : F) : F * result unit :=
  let sandboxRoot := Join [os_TempDir f; sandboxDirName] in
  match os_Lstat f sandboxRoot with
  | (f, Err e) =>
      if os_IsNotExist e then (f, Ok tt) else (f, Err (pathError "inspect sandbox staging root" e))
  | (f, Ok KindDirectory) =>
      match filepath_EvalSymlinks f sandboxRoot with
      | (f, Err e) => (f, Err (ErrorWrap "canonicalize sandbox staging root" e))
      | (f, Ok canonical) => CleanupStaleStaging f canonical
      end
  | (f, Ok _) => (f, Err (ErrorString "sandbox staging root must be a directory"))
  end.
End Staging.

(** * Facts about a session's staging directory

    Which paths the staging code may create and remove, seen through a file system
    that logs the changes it is asked for; an executed session. *)

(** ** A file system that logs changes *)

Inductive change := Made (path : string) | Removed (path : string) | RemovedAll (path : string).

Definition change_path (c : change) : string :=
  match c with Made p | Removed p | RemovedAll p => p end.
Definition is_removal (c : change) : bool := match c with Made _ => false | _ => true end.

(** A call on the file system, with the log before and after it. *)
Definition reading {F A} (log : list change) (r : F * A) : (F * list change) * A := ((r.1, log), r.2).

#[global] Instance logged_FileSystem {F} (fs : FileSystem F) : FileSystem (F * list change) := {|
  os_Getwd f := reading f.2 (os_Getwd f.1);
  filepath_EvalSymlinks f p := reading f.2 (filepath_EvalSymlinks f.1 p);
  os_Stat_IsDir f p := reading f.2 (os_Stat_IsDir f.1 p);
  os_Lstat f p := reading f.2 (os_Lstat f.1 p);
  os_Mkdir f p := reading (f.2 ++ [Made p]) (os_Mkdir f.1 p);
  os_MkdirAll f p := reading (f.2 ++ [Made p]) (os_MkdirAll f.1 p);
  os_Remove f p := reading (f.2 ++ [Removed p]) (os_Remove f.1 p);
  os_RemoveAll f p := reading (f.2 ++ [RemovedAll p]) (os_RemoveAll f.1 p);
  os_ReadDir f p := reading f.2 (os_ReadDir f.1 p);
  os_TempDir f := os_TempDir f.1;
  os_IsNotExist := os_IsNotExist;
  os_IsExist := os_IsExist;
  os_Errno := os_Errno;
|}.

Section Facts.
Context {F : Type} {fs : FileSystem F}.
Context (Getwd_absolute : ∀ f f' wd, os_Getwd f = (f', Ok wd) → IsAbs wd = true).

Notation logged := (F * list change)%type.
Implicit Types (f : logged) (s : SessionStaging).

Lemma logged_Getwd f f' wd : os_Getwd f = (f', Ok wd) → IsAbs wd = true.
Proof.
  simpl. unfold reading. destruct (os_Getwd f.1) as [g [x|e]] eqn:Hg; simpl; [|done].
  intros [= _ <-]. by eapply Getwd_absolute.
Qed.

(** A log all of whose changes are known to be allowed. *)
Local Ltac allowed :=
  repeat first [done | apply Forall_app_2 | apply Forall_singleton; by auto | apply Forall_nil_2].

(** *** Reading does not change anything *)

Lemma filepath_Abs_log f path f' r : filepath_Abs f path = (f', r) → f'.2 = f.2.
Proof.
  unfold filepath_Abs. destruct (IsAbs path); [by intros [= <- _]|]. simpl. unfold reading.
  by intros [= <- _].
Qed.

Lemma canonicalDirectory_log f path base f' r : canonicalDirectory f path base = (f', r) → f'.2 = f.2.
Proof.
  unfold canonicalDirectory. case_bool_decide; [by intros [= <- _]|].
  destruct (hasNUL path); [by intros [= <- _]|].
  destruct (filepath_Abs f _) as [f1 [a|e]] eqn:H1; apply filepath_Abs_log in H1;
    [|intros [= <- _]; done].
  unfold canonicalizePath. simpl. unfold reading.
  destruct (filepath_EvalSymlinks f1.1 a).2; [|intros [= <- _]; done].
  destruct (filepath_Abs _ a0) as [f3 [c|e]] eqn:H3; apply filepath_Abs_log in H3; simpl in H3;
    [|intros [= <- _]; congruence].
  destruct (os_Stat_IsDir f3.1 (Clean c)).2; [destruct (negb _)|]; intros [= <- _]; simpl; congruence.
Qed.

Lemma RevalidateDirectory_log f root path f' r : RevalidateDirectory f root path = (f', r) → f'.2 = f.2.
Proof.
  unfold RevalidateDirectory.
  destruct (canonicalDirectory f root EmptyString) as [f1 [cur|e]] eqn:H1; apply canonicalDirectory_log in H1;
    [|by intros [= <- _]].
  destruct (negb _); [by intros [= <- _]|]. destruct (_ || _); [by intros [= <- _]|].
  destruct (canonicalDirectory f1 path EmptyString) as [f2 [c|e]] eqn:H2; apply canonicalDirectory_log in H2;
    [destruct (negb _)|]; intros [= <- _]; congruence.
Qed.

Lemma validateCanonicalDirectory_log f root path f' r :
  StagingSession.validateCanonicalDirectory f root path = (f', r) → f'.2 = f.2.
Proof.
  unfold StagingSession.validateCanonicalDirectory.
  destruct (RevalidateDirectory f root path) as [f1 [c|e]] eqn:H1; apply RevalidateDirectory_log in H1;
    [destruct (negb _)|]; by intros [= <- _].
Qed.

Lemma checkComponent_log f root path info f' r : checkComponent f root path info = (f', r) → f'.2 = f.2.
Proof.
  unfold checkComponent. destruct info as [[]|e]; try by intros [= <- _].
  apply validateCanonicalDirectory_log.
Qed.

(** *** What is changed *)

Lemma ensureCanonicalDirectory_log f root path f' r :
  ensureCanonicalDirectory f root path = (f', r) → f'.2 = f.2 ∨ f'.2 = f.2 ++ [Made path].
Proof.
  unfold ensureCanonicalDirectory. simpl. unfold reading.
  destruct (os_Lstat f.1 path).2 as [k|e]; [intros H%checkComponent_log; by left|].
  destruct (os_IsNotExist e); [|intros [= <- _]; by left].
  destruct (os_Mkdir _ path).2 as [u|e']; [|destruct (negb _)];
    first [intros H%checkComponent_log|intros [= <- _]]; auto.
Qed.

Lemma removeEntry_log f what path f' r :
  removeEntry f what path = (f', r) → f'.2 = f.2 ++ [Removed path].
Proof.
  unfold removeEntry. simpl. unfold reading.
  destruct (os_Remove f.1 path).2; [|destruct (negb _)]; by intros [= <- _].
Qed.

(** The paths of the staging area of a workspace. *)
Definition uploads (root : string) : list string := elements root ++ [metadataDirectoryName; uploadsDirectoryName].

(** A change that creates a part of the way to the entry [name] of the uploads
    directory, or removes this entry. *)
Definition confined (root name : string) (c : change) : Prop :=
  IsAbs (change_path c) = true ∧
  if is_removal c then elements (change_path c) = uploads root ++ [name]
  else elements root `prefix_of` elements (change_path c) ∧
       elements (change_path c) `prefix_of` uploads root ++ [name] ∧
       elements (change_path c) ≠ elements root.

(** The staging of a session as [CreateSessionStaging] makes it: its directory is
    the entry of a proper name in the uploads directory. *)
Definition staged (name : string) s : Prop :=
  IsAbs (workspaceRoot s) = true ∧ proper name ∧
  staging_path s = absolute (uploads (workspaceRoot s) ++ [name]).

Lemma proper_names : proper metadataDirectoryName ∧ proper uploadsDirectoryName.
Proof. by split; repeat split; vm_compute. Qed.

Lemma uploads_proper root : IsAbs root = true → Forall proper (uploads root).
Proof.
  intros Hroot. destruct proper_names. unfold uploads. apply Forall_app.
  split; [by apply elements_proper|]. by repeat (constructor; [done|]).
Qed.

Lemma Join_Clean base name : IsAbs base = true → Clean (Join [base; name]) = Join [base; name].
Proof.
  intros Habs. simpl. rewrite bool_decide_eq_false_2 by (by intros ->). apply Clean_idem. by destruct base.
Qed.

Lemma Join_staged root name :
  IsAbs root = true → proper name →
  let path := Join [Join [Join [root; metadataDirectoryName]; uploadsDirectoryName]; name] in
  IsAbs (Join [root; metadataDirectoryName]) = true ∧
  elements (Join [root; metadataDirectoryName]) = elements root ++ [metadataDirectoryName] ∧
  IsAbs (Join [Join [root; metadataDirectoryName]; uploadsDirectoryName]) = true ∧
  elements (Join [Join [root; metadataDirectoryName]; uploadsDirectoryName]) = uploads root ∧
  IsAbs path = true ∧ elements path = uploads root ++ [name] ∧ path = absolute (uploads root ++ [name]).
Proof.
  intros Hr Hn path. destruct proper_names as [Hm Hu].
  destruct (Join_proper root metadataDirectoryName Hr Hm) as [H1 H2].
  destruct (Join_proper _ uploadsDirectoryName H1 Hu) as [H3 H4].
  destruct (Join_proper _ name H3 Hn) as [H5 H6].
  assert (elements (Join [Join [root; metadataDirectoryName]; uploadsDirectoryName]) = uploads root) as Hup.
  { rewrite H4, H2. unfold uploads. by rewrite <- app_assoc. }
  split_and!; try done; [unfold path; by rewrite H6, Hup|].
  unfold path. rewrite (Clean_elements (Join [Join [Join [root; _]; _]; name])); [|done|by apply Join_Clean].
  f_equal. by rewrite H6, Hup.
Qed.

Lemma confined_made root name path :
  IsAbs path = true → elements root `prefix_of` elements path →
  elements path `prefix_of` uploads root ++ [name] → elements path ≠ elements root → confined root name (Made path).
Proof. by repeat split. Qed.

(** Making a session's staging directory creates at most [.vibebridge],
    [.vibebridge/uploads] and an entry named by the session inside the workspace,
    and removes at most that entry again; the staging it returns is that entry,
    unused and uncleaned. *)
Theorem staging_is_created_inside fs0 root sessionID f' r :
  IsAbs root = true → CreateSessionStaging (fs0, []) root sessionID = (f', r) →
  Forall (confined root (hexEncode sessionID)) f'.2 ∧
  match r with
  | Ok s => workspaceRoot s = Clean root ∧ staged (hexEncode sessionID) s ∧
            s = newSessionStaging (workspaceRoot s) (staging_path s)
  | Err _ => True
  end.
Proof.
  intros Hroot. unfold CreateSessionStaging.
  destruct ((len sessionID =? 0) || _) eqn:Hlen; [intros [= <- <-]; by split; [constructor|]|].
  assert (sessionID ≠ []) as Hne by (intros ->; done). apply hexEncode_proper in Hne as Hprop.
  destruct (RevalidateDirectory (fs0, []) root EmptyString) as [f1 [cur|e]] eqn:Hrev;
    apply RevalidateDirectory_log in Hrev as Hlog1; simpl in Hlog1;
    [|intros [= <- <-]; rewrite Hlog1; by split; [constructor|]].
  apply (revalidated_root logged_Getwd) in Hrev as ->; [|done].
  pose proof (IsAbs_Clean root Hroot) as Habs.
  destruct (Join_staged (Clean root) (hexEncode sessionID) Habs Hprop) as (A1 & E1 & A2 & E2 & A3 & E3 & P3).
  unfold uploads in E2, E3, P3. rewrite elements_Clean in E1, E2, E3 by done.
  set (d1 := Join [Clean root; metadataDirectoryName]) in *.
  set (d2 := Join [d1; uploadsDirectoryName]) in *.
  set (d3 := Join [d2; hexEncode sessionID]) in *.
  assert (confined root (hexEncode sessionID) (Made d1)) as C1.
  { apply confined_made; unfold uploads; rewrite ?E1; try done; [by apply prefix_app_r| |].
    - rewrite <- app_assoc. apply prefix_app. by eexists.
    - intros Heq. apply (f_equal length) in Heq. rewrite length_app in Heq. simpl in Heq. lia. }
  assert (confined root (hexEncode sessionID) (Made d2)) as C2.
  { apply confined_made; unfold uploads; rewrite ?E2; try done; [by apply prefix_app_r|by apply prefix_app_r|].
    intros Heq. apply (f_equal length) in Heq. rewrite length_app in Heq. simpl in Heq. lia. }
  assert (∀ c, change_path c = d3 → confined root (hexEncode sessionID) c) as C3.
  { intros c Hc. unfold confined, uploads. rewrite Hc, E3. split; [done|]. destruct (is_removal c); [done|].
    split_and!; [rewrite <- app_assoc; by apply prefix_app_r|done|].
    intros Heq. apply (f_equal length) in Heq. rewrite !length_app in Heq. simpl in Heq. lia. }
  destruct (ensureCanonicalDirectory f1 (Clean root) d1) as [f2 [u2|e2]] eqn:H2;
    apply ensureCanonicalDirectory_log in H2; rewrite Hlog1 in H2.
  2:{ intros [= <- <-]. split; [|done]. destruct H2 as [->| ->]; allowed. }
  destruct (ensureCanonicalDirectory f2 (Clean root) d2) as [f3 [u3|e3]] eqn:H3;
    apply ensureCanonicalDirectory_log in H3.
  all: assert (Forall (confined root (hexEncode sessionID)) f3.2) as HF
    by (destruct H2 as [H2|H2], H3 as [H3|H3]; rewrite H3, H2; allowed).
  2:{ intros [= <- <-]. by split. }
  cbn [os_Mkdir logged_FileSystem]. unfold reading.
  destruct (os_Mkdir f3.1 d3).2 as [u4|e4].
  2:{ intros [= <- <-]. split; [|done]. simpl. allowed. }
  destruct (StagingSession.validateCanonicalDirectory _ (Clean root) d3) as [f5 [u5|e5]] eqn:H5;
    apply validateCanonicalDirectory_log in H5; simpl in H5.
  - intros [= <- <-]. rewrite H5. split; [allowed|]. split_and!; done.
  - cbn [os_Remove logged_FileSystem]. unfold reading. intros [= <- <-]. simpl. rewrite H5. split; [allowed|done].
Qed.

Lemma staged_path name s :
  staged name s →
  IsAbs (staging_path s) = true ∧ elements (staging_path s) = uploads (workspaceRoot s) ++ [name] ∧
  Dir (staging_path s) = absolute (uploads (workspaceRoot s)).
Proof.
  intros (Hr & Hn & ->). pose proof (uploads_proper _ Hr).
  split_and!; [done| |by apply Dir_absolute].
  apply elements_absolute, Forall_app. split; [done|]. by apply Forall_singleton.
Qed.

(** Cleaning up removes nothing while the directory is in use or after it has
    been cleaned; otherwise it removes at most the session's own entry of the uploads
    directory; it reports success exactly when the staging counts as cleaned from
    then on, and a failure leaves the staging as it was, to be retried. *)
Theorem cleanup_removes_own_entry fs0 name s f' s' r :
  staged name s → Cleanup (fs0, []) s = (f', s', r) →
  Forall (fun c => is_removal c = true ∧ confined (workspaceRoot s) name c) f'.2 ∧ (length f'.2 <= 1)%nat ∧
  (f'.2 ≠ [] → cleaned s = false ∧ openDirectories s <= 0 ∧ transferManagerOpen s = false) ∧
  match r with
  | Ok _ => cleaned s' = true ∧ (s' = s ∨ s' = markCleaned s)
  | Err _ => s' = s ∧ cleaned s = false
  end.
Proof.
  intros Hst. destruct (staged_path name s Hst) as (Habs & Hel & _).
  assert (∀ c, is_removal c = true → change_path c = staging_path s →
    is_removal c = true ∧ confined (workspaceRoot s) name c) as Hc.
  { intros c Hr Hp. split; [done|]. unfold confined. by rewrite Hr, Hp. }
  unfold Cleanup. destruct (cleaned s) eqn:Hcl.
  { intros [= <- <- <-]. simpl. split_and!; [constructor|lia|done|done|by left]. }
  destruct ((openDirectories s >? 0) || transferManagerOpen s) eqn:Huse.
  { intros [= <- <- <-]. simpl. split_and!; [constructor|lia|done|done|done]. }
  assert (openDirectories s <= 0 ∧ transferManagerOpen s = false) as Hfree by (split_bool; split; [lia|done]).
  destruct (StagingSession.validateCanonicalDirectory (fs0, []) (workspaceRoot s) _) as [f1 [u1|e1]] eqn:H1;
    apply validateCanonicalDirectory_log in H1; simpl in H1.
  2:{ intros [= <- <- <-]. rewrite H1. split_and!; [constructor|simpl; lia|done|done|done]. }
  cbn [os_Lstat logged_FileSystem]. unfold reading at 1.
  destruct (os_Lstat f1.1 (staging_path s)).2 as [k|e2].
  2:{ simpl. destruct (os_IsNotExist e2); intros [= <- <- <-]; simpl; rewrite H1;
        split_and!; auto; try done; simpl; lia. }
  assert (∀ f what f' r, f.2 = [] → removeEntry f what (staging_path s) = (f', r) →
    f'.2 = [Removed (staging_path s)]) as Hrm by (intros f what f2 r2 Hf Hr%removeEntry_log; by rewrite Hf in Hr).
  destruct k.
  - destruct (StagingSession.validateCanonicalDirectory _ (workspaceRoot s) (staging_path s)) as [f3 [u3|e3]] eqn:H3;
      apply validateCanonicalDirectory_log in H3; simpl in H3; rewrite H1 in H3.
    2:{ intros [= <- <- <-]. rewrite H3. split_and!; [constructor|simpl; lia|done|done|done]. }
    cbn [os_RemoveAll logged_FileSystem]. unfold reading.
    destruct (os_RemoveAll f3.1 (staging_path s)).2; intros [= <- <- <-]; simpl; rewrite H3;
      (split_and!; [by apply Forall_singleton, Hc|simpl; lia|done..|]); auto.
  - destruct (removeEntry _ _ _) as [f3 [u3|e3]] eqn:H3; apply Hrm in H3; [|done| |done];
      intros [= <- <- <-]; rewrite H3;
      (split_and!; [by apply Forall_singleton, Hc|simpl; lia|done..|]); auto.
  - destruct (removeEntry _ _ _) as [f3 [u3|e3]] eqn:H3; apply Hrm in H3; [|done| |done];
      intros [= <- <- <-]; rewrite H3;
      (split_and!; [by apply Forall_singleton, Hc|simpl; lia|done..|]); auto.
Qed.

(** *** Leftovers *)

Lemma removeStale_confined (f0 : logged) root dir names f r :
  IsAbs dir = true → elements dir = uploads root → Forall proper names →
  removeStale f0 root dir names = (f, r) →
  ∃ log, f.2 = f0.2 ++ log ∧
    Forall (fun c => is_removal c = true ∧ ∃ name, name ∈ names ∧ confined root name c) log.
Proof.
  intros Habs Hel. revert f0; induction names as [|name names IH]; intros f0 Hnames Hrun; cbn [removeStale] in Hrun.
  { simplify_eq. exists []. by rewrite app_nil_r. }
  apply Forall_cons in Hnames as [Hname Hnames].
  destruct (Join_proper dir name Habs Hname) as [A E]. rewrite Hel in E.
  assert (∀ (g : logged) l, g.2 = f0.2 ++ l →
    Forall (fun c => is_removal c = true ∧ ∃ n, n ∈ name :: names ∧ confined root n c) l →
    removeStale g root dir names = (f, r) →
    ∃ log, f.2 = f0.2 ++ log ∧
      Forall (fun c => is_removal c = true ∧ ∃ n, n ∈ name :: names ∧ confined root n c) log) as Hgo.
  { intros g l Hg Hl Hrest. destruct (IH g Hnames Hrest) as (log & Hf & Hlog).
    exists (l ++ log). rewrite Hf, Hg, app_assoc. split; [done|]. apply Forall_app. split; [done|].
    eapply Forall_impl; [exact Hlog|]. intros c (? & n & ? & ?). split; [done|]. exists n. split; [by right|done]. }
  assert (∀ c, is_removal c = true → change_path c = Join [dir; name] →
    Forall (fun c => is_removal c = true ∧ ∃ n, n ∈ name :: names ∧ confined root n c) [c]) as Hc.
  { intros c Hr Hp. apply Forall_singleton. split; [done|]. exists name. split; [by left|].
    unfold confined. by rewrite Hr, Hp. }
  cbn [os_Lstat logged_FileSystem] in Hrun. unfold reading in Hrun at 1.
  set (path := Join [dir; name]) in *. destruct (os_Lstat f0.1 path).2 as [k|e].
  2:{ destruct (os_IsNotExist e).
      - eapply (Hgo _ []) in Hrun; [done| |constructor]. simpl. by rewrite app_nil_r.
      - simplify_eq. exists []. simpl. by rewrite app_nil_r. }
  destruct k.
  - destruct (StagingSession.validateCanonicalDirectory _ root path) as [f2 [u|e]] eqn:H2;
      apply validateCanonicalDirectory_log in H2; simpl in H2.
    2:{ simplify_eq. exists []. by rewrite app_nil_r. }
    cbn [os_RemoveAll logged_FileSystem] in Hrun. unfold reading in Hrun.
    destruct (os_RemoveAll f2.1 path).2.
    + eapply (Hgo _ [RemovedAll path]) in Hrun; [done|simpl; by rewrite H2|by apply Hc].
    + simplify_eq. exists [RemovedAll path]. simpl. rewrite H2. split; [done|by apply Hc].
  - destruct (removeEntry _ _ path) as [f2 [u|e]] eqn:H2; apply removeEntry_log in H2; simpl in H2.
    + eapply (Hgo _ [Removed path]) in Hrun; [done|done|by apply Hc].
    + simplify_eq. exists [Removed path]. split; [done|by apply Hc].
  - destruct (removeEntry _ _ path) as [f2 [u|e]] eqn:H2; apply removeEntry_log in H2; simpl in H2.
    + eapply (Hgo _ [Removed path]) in Hrun; [done|done|by apply Hc].
    + simplify_eq. exists [Removed path]. split; [done|by apply Hc].
Qed.

(** The documentation of [os.ReadDir]: the entries' own names. *)
Context (ReadDir_names : ∀ (g : F) p g' names, os_ReadDir g p = (g', Ok names) → Forall proper names).

(** The start-up clean-up creates nothing and removes only entries of the
    workspace's own uploads directory, each by its name. *)
Theorem stale_cleanup_stays_in_uploads fs0 root f' r :
  IsAbs root = true → CleanupStaleStaging (fs0, []) root = (f', r) →
  Forall (fun c => is_removal c = true ∧ ∃ name, confined (Clean root) name c) f'.2.
Proof.
  intros Hroot. unfold CleanupStaleStaging.
  destruct (RevalidateDirectory (fs0, []) root EmptyString) as [f1 [cur|e]] eqn:Hrev;
    apply RevalidateDirectory_log in Hrev as Hlog1; simpl in Hlog1; [|intros [= <- <-]; by rewrite Hlog1].
  apply (revalidated_root logged_Getwd) in Hrev as ->; [|done].
  pose proof (IsAbs_Clean root Hroot) as Habs.
  rewrite Join_propers by (try done; destruct proper_names; by repeat (constructor; [done|])).
  fold (uploads (Clean root)).
  pose proof (uploads_proper (Clean root) Habs) as Hprop.
  set (dir := absolute (uploads (Clean root))). cbn [os_Lstat logged_FileSystem]. unfold reading at 1.
  destruct (os_Lstat f1.1 dir).2 as [[]|e];
    [|intros [= <- <-]; simpl; by rewrite Hlog1..|destruct (os_IsNotExist e); intros [= <- <-]; simpl; by rewrite Hlog1].
  destruct (StagingSession.validateCanonicalDirectory _ (Clean root) dir) as [f2 [u|e]] eqn:H2;
    apply validateCanonicalDirectory_log in H2; simpl in H2; rewrite Hlog1 in H2;
    [|intros [= <- <-]; by rewrite H2].
  cbn [os_ReadDir logged_FileSystem]. unfold reading.
  destruct (os_ReadDir f2.1 dir) as [f3 [names|e]] eqn:Hread; cbn [fst snd];
    [|intros [= <- <-]; simpl; by rewrite H2].
  intros Hrun. apply removeStale_confined in Hrun as (log & -> & Hlog);
    [|done|by apply elements_absolute|eapply ReadDir_names; exact Hread].
  simpl. rewrite H2. eapply Forall_impl; [exact Hlog|]. intros c (? & n & _ & ?). eauto.
Qed.
End Facts.

(** ** An executed session *)

Definition example_id : bytes := ["001"%byte; "171"%byte].
Definition example_staging : SessionStaging :=
  newSessionStaging "/w" "/w/.vibebridge/uploads/01ab".
Definition example_staged_tree : tree :=
  list_to_map (map (fun p => (p, KindDirectory))
    ["/"; "/w"; "/w/app"; "/other"; "/tmp"; "/w/.vibebridge"; "/w/.vibebridge/uploads";
     "/w/.vibebridge/uploads/01ab"]%string).

Example example_create :
  CreateSessionStaging (example_tree, []) "/w" example_id =
    ((example_staged_tree, [Made "/w/.vibebridge"; Made "/w/.vibebridge/uploads"; Made "/w/.vibebridge/uploads/01ab"]%string),
     Ok example_staging).
Proof. vm_compute. reflexivity. Qed.

Definition example_cleaned_tree : tree := delete "/w/.vibebridge/uploads/01ab"%string example_staged_tree.

Example example_cleanup :
  Cleanup (example_staged_tree, []) example_staging =
    ((example_cleaned_tree, [RemovedAll "/w/.vibebridge/uploads/01ab"%string]), markCleaned example_staging, Ok tt).
Proof. vm_compute. reflexivity. Qed.

Example example_stale :
  CleanupStaleStaging (example_staged_tree, []) "/w" =
    ((example_cleaned_tree, [RemovedAll "/w/.vibebridge/uploads/01ab"%string]), Ok tt).
Proof. vm_compute. reflexivity. Qed.

Lemma example_staged : staged "01ab" example_staging.
Proof. split; [done|]. split; [|done]. repeat split; by vm_compute. Qed.

Lemma tree_ReadDir (t : tree) p (t' : tree) names : os_ReadDir t p = (t', Ok names) → Forall proper names.
Proof. simpl. intros [= _ <-]. apply Forall_forall. intros x. by rewrite list_elem_of_filter; intros [? _]. Qed.

Lemma stale_cleanup_stays_in_uploads_witness :
  Forall (fun c => is_removal c = true ∧ ∃ name, confined (Clean "/w") name c)
    [RemovedAll "/w/.vibebridge/uploads/01ab"%string].
Proof.
  exact (stale_cleanup_stays_in_uploads tree_Getwd tree_ReadDir example_staged_tree "/w"
           (example_cleaned_tree, [RemovedAll "/w/.vibebridge/uploads/01ab"%string]) (Ok tt) eq_refl example_stale).
Defined.

Lemma staging_is_created_inside_witness :
  Forall (confined "/w" (hexEncode example_id))
    [Made "/w/.vibebridge"; Made "/w/.vibebridge/uploads"; Made "/w/.vibebridge/uploads/01ab"]%string ∧
  workspaceRoot example_staging = Clean "/w" ∧ staged (hexEncode example_id) example_staging ∧
  example_staging = newSessionStaging (workspaceRoot example_staging) (staging_path example_staging).
Proof.
  exact (staging_is_created_inside tree_Getwd example_tree "/w" example_id
           (example_staged_tree, [Made "/w/.vibebridge"; Made "/w/.vibebridge/uploads"; Made "/w/.vibebridge/uploads/01ab"]%string)
           (Ok example_staging) eq_refl example_create).
Defined.

Lemma cleanup_removes_own_entry_witness :
  Forall (fun c => is_removal c = true ∧ confined "/w" "01ab" c) [RemovedAll "/w/.vibebridge/uploads/01ab"%string] ∧
  (1 <= 1)%nat ∧
  ([RemovedAll "/w/.vibebridge/uploads/01ab"%string] ≠ [] →
     cleaned example_staging = false ∧ openDirectories example_staging <= 0 ∧ transferManagerOpen example_staging = false) ∧
  cleaned (markCleaned example_staging) = true ∧
  (markCleaned example_staging = example_staging ∨ markCleaned example_staging = markCleaned example_staging).
Proof.
  exact (cleanup_removes_own_entry example_staged_tree "01ab" example_staging
           (example_cleaned_tree, [RemovedAll "/w/.vibebridge/uploads/01ab"%string])
           (markCleaned example_staging) (Ok tt) example_staged example_cleanup).
Defined.
