(* ===== verification/PairedSession.v ===== *)
(** * Paired sessions ([internal/server/pairedsession.go])

    Who may upgrade to a WebSocket: a paired device, or the local browser with
    credentials the Agent has signed.  Either signs a nonce the Agent has issued to
    its host a moment ago.  An HTTP request is what the code reads of it; every
    reading of the clock and of the random source is an argument. *)

From S2P Require Import Prelude.
From S2P Require Import Utf8.
From S2P Require Import Encoding.
From S2P Require Import Ticket.
From S2P Require Import DeviceIdentity.
From S2P Require Import DeviceIdentityFacts.
From S2P Require Import Handshake.
From S2P Require Import HandshakeFacts.

Definition pairedDeviceHeader : string := "VibeBridge-Device".
Definition pairedDeviceSignatureHeader : string := "VibeBridge-Device-Signature".
Definition pairedSessionNonceHeader : string := "VibeBridge-Session-Nonce".
Definition pairedDeviceQuery : string := "vb-device".
Definition pairedSessionNonceQuery : string := "vb-nonce".
Definition pairedDeviceSignatureQuery : string := "vb-sig".
Definition sessionNonceBytes : Z := 32.
Definition sessionNonceDefaultTTL : Z := 30 * Second.
Definition sessionSignatureDomain : bytes :=
  bytes_of_string "VibeBridge session upgrade v1" ++ ["000"%byte].
Definition maxActiveSessionNonces : Z := 4096.

(** [protocolv1.WebSocketSubprotocol]. *)
Definition WebSocketSubprotocol : string := "vibebridge.v1".

Definition errPairedHeadersMissing := ErrorString "paired session headers are required".
Definition errPairedDeviceMalformed := ErrorString "paired session device header is malformed".
Definition errPairedSignatureMalformed := ErrorString "paired session signature is malformed".
Definition errPairedNonceMalformed := ErrorString "paired session nonce is malformed".
Definition errPairedNonceUnknown := ErrorString "paired session nonce is unknown or expired".
Definition errPairedNonceReplayed := ErrorString "paired session nonce has already been used".
Definition errPairedNonceRemote := ErrorString "paired session nonce was not issued for this host".
Definition errPairedDeviceUnknown := ErrorString "paired session device is not authorized".
Definition errPairedDeviceRevoked := ErrorString "paired session device has been revoked".
Definition errPairedSignatureInvalid := ErrorString "paired session device signature is invalid".

(** ** Requests *)

(** [Header.Get], the parameters of the URL, the remote address, and the
    subprotocols [websocket.Subprotocols] finds. *)
Record Request := mkRequest {
  Header : string → string;
  Query : string → option string;
  RemoteAddr : string;
  Subprotocols : list string;
}.

Definition Query_Get (r : Request) (key : string) : string := default EmptyString (Query r key).

(** ** Hosts *)

Fixpoint indexByte (c : ascii) (l : list ascii) : option nat :=
  match l with
  | [] => None
  | x :: l' => if bool_decide (x = c) then Some 0%nat else S <$> indexByte c l'
  end.

Fixpoint lastIndexByte (c : ascii) (l : list ascii) : option nat :=
  match l with
  | [] => None
  | x :: l' =>
      match lastIndexByte c l' with
      | Some i => Some (S i)
      | None => if bool_decide (x = c) then Some 0%nat else None
      end
  end.

Definition hasByte (c : ascii) (l : list ascii) : bool := bool_decide (is_Some (indexByte c l)).

(** [net.SplitHostPort]: the host; [None] is an error. *)
Definition SplitHostPort (hostport : string) : option string :=
  let l := list_ascii_of_string hostport in
  match lastIndexByte ":" l with
  | None => None
  | Some i =>
      match l with
      | c :: l' =>
          if bool_decide (c = "["%char) then
            match indexByte "]" l with
            | None => None
            | Some e =>
                if negb (bool_decide (S e = i)) || hasByte "[" l' || hasByte "]" (drop (S e) l) then None
                else Some (string_of_list_ascii (take (e - 1) l'))
            end
          else if hasByte ":" (take i l) || hasByte "[" l || hasByte "]" l then None
          else Some (string_of_list_ascii (take i l))
      | [] => None
      end
  end.

Definition hostFromAddr (remoteAddr : string) : string :=
  if bool_decide (remoteAddr = EmptyString) then EmptyString
  else default remoteAddr (SplitHostPort remoteAddr).

(** ** Nonces *)

Record nonceRecord := mkNonceRecord {
  nonce_expiresAt : Z;
  nonce_host : string;
  nonce_consumed : bool;
}.

#[global] Instance nonceRecord_eta : Eta nonceRecord := fun r =>
  mkNonceRecord (nonce_expiresAt r) (nonce_host r) (nonce_consumed r).

Record nonceStore := mkNonceStore {
  nonce_ttl : Z;
  nonce_items : gmap string nonceRecord;
}.

#[global] Instance nonceStore_eta : Eta nonceStore := fun s => mkNonceStore (nonce_ttl s) (nonce_items s).

Definition newNonceStore (ttl : Z) : nonceStore :=
  mkNonceStore (if ttl <=? 0 then sessionNonceDefaultTTL else ttl) ∅.

Definition evictLocked (s : nonceStore) (now : Z) : nonceStore :=
  s <| nonce_items ::= filter (fun kv => ~ nonce_expiresAt kv.2 < now) |>.

(** [now] is read for the eviction, [issued] for the record. *)
Definition issue (s : nonceStore) (now issued : Z) (random : result bytes) (remoteAddr : string)
    : nonceStore * result (string * Z) :=
  match random with
  | Err e => (s, Err e)
  | Ok raw =>
      let s := evictLocked s now in
      if Z.of_nat (size (nonce_items s)) >=? maxActiveSessionNonces then
        (s, Err (ErrorString "paired session nonce store is full"))
      else
        let key := hexEncode raw in
        let record := mkNonceRecord (issued + nonce_ttl s) (hostFromAddr remoteAddr) false in
        (s <| nonce_items ::= insert key record |>, Ok (key, nonce_ttl s))
  end.

Definition consume (s : nonceStore) (now : Z) (nonceHex remoteAddr : string) : nonceStore * result unit :=
  let s := evictLocked s now in
  match nonce_items s !! nonceHex with
  | None => (s, Err errPairedNonceUnknown)
  | Some rec =>
      if nonce_consumed rec then (s, Err errPairedNonceReplayed)
      else if negb (bool_decide (nonce_host rec = hostFromAddr remoteAddr)) then (s, Err errPairedNonceRemote)
      else (s <| nonce_items ::= insert nonceHex (rec <| nonce_consumed := true |>) |>, Ok tt)
  end.

Section PairedSession.
Context {crypto : IdentityCrypto}.

(** ** The gate *)

Record pairedSessionGate := mkPairedSessionGate {
  gate_devices : Store;
  gate_nonces : nonceStore;
}.

#[global] Instance pairedSessionGate_eta : Eta pairedSessionGate := fun g =>
  mkPairedSessionGate (gate_devices g) (gate_nonces g).

Definition newPairedSessionGate (devices : Store) (nonces : nonceStore) : pairedSessionGate :=
  mkPairedSessionGate devices nonces.

Record pairedSessionResult := mkPairedSessionResult {
  Result_DeviceID : bytes;
  Result_Fingerprint : string;
  Result_Epoch : Z;
}.

Definition pairedCredential (r : Request) (header queryParam : string) : string :=
  if bool_decide (Header r header = EmptyString) then Query_Get r queryParam else Header r header.

(** The callers have decoded the nonce before. *)
Definition sessionSignatureMessage (nonceHex : string) : bytes :=
  sessionSignatureDomain ++ default [] (hexDecode nonceHex).

(** The checks of both paths up to the nonce: the decoded device identifier and
    signature. *)
Definition decodeDevice (deviceHex : string) : result bytes :=
  match hexDecode deviceHex with
  | Some deviceID => if len deviceID =? DeviceIDBytes then Ok deviceID else Err errPairedDeviceMalformed
  | None => Err errPairedDeviceMalformed
  end.

Definition decodeSignature (nonceHex signatureB64 : string) : result bytes :=
  if negb (slen nonceHex =? sessionNonceBytes * 2) then Err errPairedNonceMalformed
  else match hexDecode nonceHex with
  | None => Err errPairedNonceMalformed
  | Some _ =>
      match Std_Decode signatureB64 with
      | Some signature =>
          if len signature =? ed25519_SignatureSize then Ok signature else Err errPairedSignatureMalformed
      | None => Err errPairedSignatureMalformed
      end
  end.

Definition missing (deviceHex nonceHex signatureB64 : string) : bool :=
  bool_decide (deviceHex = EmptyString) || bool_decide (nonceHex = EmptyString) ||
  bool_decide (signatureB64 = EmptyString).

(** The last checks, on the signer's descriptor. *)
Definition checkSigner (devices : Store) (signer : SignedDeviceDescriptor) (deviceID : bytes)
    (nonceHex : string) (signature : bytes) : result pairedSessionResult :=
  match Signed_Descriptor signer with
  | None => Err nilPointer
  | Some d =>
      if negb (key_Verify (Desc_SigningPublicKey d) (sessionSignatureMessage nonceHex) signature) then
        Err errPairedSignatureInvalid
      else match Fingerprint (Some signer) with
      | Err _ => Err errPairedSignatureInvalid
      | Ok fingerprint => Ok (mkPairedSessionResult deviceID fingerprint (RevocationEpoch devices))
      end
  end.

(** [verify] and [verifyWebSession], on a gate that is not nil. *)
Definition verify (g : pairedSessionGate) (now : Z) (r : Request)
    : pairedSessionGate * result pairedSessionResult :=
  let deviceHex := pairedCredential r pairedDeviceHeader pairedDeviceQuery in
  let nonceHex := pairedCredential r pairedSessionNonceHeader pairedSessionNonceQuery in
  let signatureB64 := pairedCredential r pairedDeviceSignatureHeader pairedDeviceSignatureQuery in
  if missing deviceHex nonceHex signatureB64 then (g, Err errPairedHeadersMissing)
  else match decodeDevice deviceHex with
  | Err e => (g, Err e)
  | Ok deviceID =>
      match decodeSignature nonceHex signatureB64 with
      | Err e => (g, Err e)
      | Ok signature =>
          match consume (gate_nonces g) now nonceHex (RemoteAddr r) with
          | (nonces, Err e) => (g <| gate_nonces := nonces |>, Err e)
          | (nonces, Ok _) =>
              let g := g <| gate_nonces := nonces |> in
              match AuthorizedDevice_lookup (gate_devices g) deviceID with
              | Err _ => (g, Err errPairedDeviceUnknown)
              | Ok authorized =>
                  if negb (View_State authorized =? STATE_AUTHORIZED) then (g, Err errPairedDeviceRevoked)
                  else (g, checkSigner (gate_devices g) (View_Device authorized) deviceID nonceHex signature)
              end
          end
      end
  end.

Definition verifyWebSession (g : pairedSessionGate) (now : Z) (r : Request)
    : pairedSessionGate * result pairedSessionResult :=
  let deviceHex := Query_Get r pairedDeviceQuery in
  let nonceHex := Query_Get r pairedSessionNonceQuery in
  let signatureB64 := Query_Get r pairedDeviceSignatureQuery in
  if missing deviceHex nonceHex signatureB64 then (g, Err errPairedHeadersMissing)
  else match decodeDevice deviceHex with
  | Err e => (g, Err e)
  | Ok deviceID =>
      if negb (bool_decide (deviceID = DeviceID (gate_devices g))) then (g, Err errPairedDeviceUnknown)
      else match decodeSignature nonceHex signatureB64 with
      | Err e => (g, Err e)
      | Ok signature =>
          match consume (gate_nonces g) now nonceHex (RemoteAddr r) with
          | (nonces, Err e) => (g <| gate_nonces := nonces |>, Err e)
          | (nonces, Ok _) =>
              let g := g <| gate_nonces := nonces |> in
              match Descriptor (gate_devices g) with
              | Err _ => (g, Err errPairedSignatureInvalid)
              | Ok descriptor => (g, checkSigner (gate_devices g) descriptor deviceID nonceHex signature)
              end
          end
      end
  end.

(** ** The server's side *)

(** What the server's configuration says about upgrades. *)
Record UpgradeConfig := mkUpgradeConfig {
  SessionToken : string;
  RequirePairedSession : bool;
}.

Definition validToken (c : UpgradeConfig) (r : Request) : bool :=
  let token := Query_Get r "token" in
  negb (bool_decide (token = EmptyString)) && bool_decide (token = SessionToken c).

Definition offersWebSocketSubprotocol (r : Request) (want : string) : bool :=
  bool_decide (want ∈ Subprotocols r).

(** [authorizedForUpgrade]: the binding is nil on the token path.  The two
    readings of the clock are those of the two paths. *)
Definition authorizedForUpgrade (c : UpgradeConfig) (gate : option pairedSessionGate) (now1 now2 : Z)
    (r : Request) : option pairedSessionGate * option (option pairedSessionResult) :=
  if negb (RequirePairedSession c) then (gate, if validToken c r then Some None else None)
  else match gate with
  | None => (gate, None)
  | Some g =>
      if negb (offersWebSocketSubprotocol r WebSocketSubprotocol) then (gate, None)
      else
        let paired g :=
          match verify g now2 r with
          | (g, Err _) => (Some g, None)
          | (g, Ok result) => (Some g, Some (Some result))
          end in
        match Query r pairedDeviceQuery with
        | Some _ =>
            match verifyWebSession g now1 r with
            | (g, Ok result) => (Some g, Some (Some result))
            | (g, Err e) => if negb (errors_is e errPairedDeviceUnknown) then (Some g, None) else paired g
            end
        | None => paired g
        end
  end.

(** ** Endpoints *)

Definition StatusOK : Z := 200.
Definition StatusUnauthorized : Z := 401.
Definition StatusServiceUnavailable : Z := 503.

(** The bodies of the JSON replies. *)
Inductive Body :=
  | ErrorBody (message : string)
  | NonceBody (nonce : string) (expiresIn : Z)
  | WebSessionBody (deviceID nonce signature : string) (expiresIn : Z).

(** [int64(d.Seconds())]. *)
Definition seconds (d : Z) : Z := d `quot` Second.

Definition notConfigured : Z * Body :=
  (StatusServiceUnavailable, ErrorBody "paired session is not configured").

Definition handleSessionNonce (gate : option pairedSessionGate) (now issued : Z) (random : result bytes)
    (r : Request) : option pairedSessionGate * (Z * Body) :=
  match gate with
  | None => (gate, notConfigured)
  | Some g =>
      match issue (gate_nonces g) now issued random (RemoteAddr r) with
      | (nonces, Err e) =>
          (Some (g <| gate_nonces := nonces |>), (StatusServiceUnavailable, ErrorBody (errorMessage e)))
      | (nonces, Ok (nonce, expiresIn)) =>
          (Some (g <| gate_nonces := nonces |>), (StatusOK, NonceBody nonce (seconds expiresIn)))
      end
  end.

Definition handleWebSession (c : UpgradeConfig) (gate : option pairedSessionGate) (now issued : Z)
    (random : result bytes) (r : Request) : option pairedSessionGate * (Z * Body) :=
  match gate with
  | None => (gate, notConfigured)
  | Some g =>
      if negb (validToken c r) then (gate, (StatusUnauthorized, ErrorBody "invalid session token"))
      else match issue (gate_nonces g) now issued random (RemoteAddr r) with
      | (nonces, Err e) =>
          (Some (g <| gate_nonces := nonces |>), (StatusServiceUnavailable, ErrorBody (errorMessage e)))
      | (nonces, Ok (nonce, expiresIn)) =>
          let signature := Sign (gate_devices g) (sessionSignatureMessage nonce) in
          (Some (g <| gate_nonces := nonces |>),
           (StatusOK, WebSessionBody (hexEncode (DeviceID (gate_devices g))) nonce (Std_Encode signature)
                        (seconds expiresIn)))
      end
  end.

Definition signSessionChallenge (signingKey : bytes) (nonceHex : string) : result bytes :=
  if negb (len signingKey =? ed25519_PrivateKeySize) then Err (ErrorString "session signing key is invalid")
  else match hexDecode nonceHex with
  | Some decoded =>
      if negb (len decoded =? sessionNonceBytes) then Err (ErrorString "session nonce is malformed")
      else Ok (key_Sign signingKey (sessionSignatureMessage nonceHex))
  | None => Err (ErrorString "session nonce is malformed")
  end.
End PairedSession.

(** * Paired sessions: who is admitted, and how often

    An admitted upgrade has spent one nonce issued to its host, signed by an
    authorized device or by the Agent; a nonce admits once per issue; and what the
    web-session endpoint returns admits the browser that asked for it. *)

(** ** Nonces *)

(** A nonce that can still be spent. *)
Definition fresh_nonce (s : nonceStore) (n : string) : Prop :=
  nonce_consumed <$> nonce_items s !! n = Some false.

#[global] Instance fresh_nonce_dec s n : Decision (fresh_nonce s n).
Proof. unfold fresh_nonce. apply _. Defined.

Lemma fresh_nonce_record s n :
  fresh_nonce s n ↔ ∃ rec, nonce_items s !! n = Some rec ∧ nonce_consumed rec = false.
Proof. unfold fresh_nonce. rewrite fmap_Some. naive_solver. Qed.

Lemma evict_lookup s now n rec :
  nonce_items (evictLocked s now) !! n = Some rec ↔ nonce_items s !! n = Some rec ∧ now <= nonce_expiresAt rec.
Proof. unfold evictLocked. simpl. rewrite map_lookup_filter_Some. simpl. split; intros []; split; auto; lia. Qed.

Lemma evict_fresh s now n : fresh_nonce (evictLocked s now) n → fresh_nonce s n.
Proof. rewrite !fresh_nonce_record. intros (rec & Hr & Hc). apply evict_lookup in Hr as [Hr _]. by exists rec. Qed.

(** From [s] to [s'] nothing that was spent or unknown becomes fresh. *)
Definition Ages (s s' : nonceStore) : Prop :=
  nonce_ttl s' = nonce_ttl s ∧ ∀ n, fresh_nonce s' n → fresh_nonce s n.

#[global] Instance Ages_preorder : PreOrder Ages.
Proof. split; [by split|]. intros s1 s2 s3 [H1 A1] [H2 A2]. split; [congruence|auto]. Qed.

Lemma evict_ages s now : Ages s (evictLocked s now).
Proof. split; [done|]. intros n. apply evict_fresh. Qed.

(** A consumption spends exactly the nonce it names. *)
Lemma consume_cases s now n remote s' res :
  consume s now n remote = (s', res) →
  Ages s s' ∧
  (res = Ok tt → fresh_nonce s n ∧ ~ fresh_nonce s' n ∧ ∃ rec, nonce_items s !! n = Some rec ∧
    now <= nonce_expiresAt rec ∧ nonce_host rec = hostFromAddr remote ∧
    nonce_items s' = <[n := rec <| nonce_consumed := true |>]> (nonce_items (evictLocked s now))) ∧
  (is_ok res = false → s' = evictLocked s now).
Proof.
  unfold consume. destruct (nonce_items (evictLocked s now) !! n) as [rec|] eqn:Hr.
  2: { intros [= <- <-]. split_and!; [apply evict_ages|done|done]. }
  destruct (nonce_consumed rec) eqn:Hc; [intros [= <- <-]; split_and!; [apply evict_ages|done|done]|].
  case_bool_decide as Hh; simpl; intros [= <- <-]; [|split_and!; [apply evict_ages|done|done]].
  apply evict_lookup in Hr as [Hr Hle]. split_and!; [|intros _; split_and!|done].
  - split; [done|]. intros n'. rewrite fresh_nonce_record. intros (rec' & Hr' & Hc'). simpl in Hr'.
    apply lookup_insert_Some in Hr' as [[<- <-]|[_ Hr']]; [done|].
    apply (evict_fresh _ now), fresh_nonce_record. by exists rec'.
  - apply fresh_nonce_record. by exists rec.
  - rewrite fresh_nonce_record. intros (rec' & Hr' & Hc'). simpl in Hr'. rewrite lookup_insert_eq in Hr'. by simplify_eq.
  - by exists rec.
Qed.

Lemma issue_cases s now issued random remote s' res :
  issue s now issued random remote = (s', res) →
  match res with
  | Ok (n, ttl) => ttl = nonce_ttl s ∧ nonce_ttl s' = nonce_ttl s ∧
      (∃ raw, random = Ok raw ∧ n = hexEncode raw) ∧
      nonce_items s' = <[n := mkNonceRecord (issued + nonce_ttl s) (hostFromAddr remote) false]>
                        (nonce_items (evictLocked s now))
  | Err _ => Ages s s'
  end.
Proof.
  unfold issue. destruct random as [raw|e]; [|by intros [= <- <-]].
  destruct (_ >=? _); intros [= <- <-]; [apply evict_ages|]. split_and!; eauto.
Qed.

Section Gate.
Context {crypto : IdentityCrypto}.
Context {laws : IdentityLaws}.
Implicit Types (g : pairedSessionGate) (r : Request).

(** ** Admission *)

(** What an admission has checked: a nonce issued to this host, now spent, and a
    signature over it. *)
Record Admits g g' r (now : Z) (key : bytes) : Prop := {
  ad_devices : gate_devices g' = gate_devices g;
  ad_nonce : ∃ n rec signature,
    nonce_items (gate_nonces g) !! n = Some rec ∧ nonce_consumed rec = false ∧ now <= nonce_expiresAt rec ∧
    nonce_host rec = hostFromAddr (RemoteAddr r) ∧
    nonce_items (gate_nonces g') =
      <[n := rec <| nonce_consumed := true |>]> (nonce_items (evictLocked (gate_nonces g) now)) ∧
    key_Verify key (sessionSignatureMessage n) signature = true;
}.

(** Signed by a device the graph authorizes, or by the Agent itself. *)
Definition authorizedSigner (devs : Store) (id key : bytes) : Prop :=
  (∃ rec d, devices (state devs) !! id = Some rec ∧ Rec_State rec = STATE_AUTHORIZED ∧
    descriptor_of rec = Some d ∧ key = Desc_SigningPublicKey d) ∨
  id = DeviceID devs ∧ ∃ s d, Descriptor devs = Ok s ∧ Signed_Descriptor s = Some d ∧ key = Desc_SigningPublicKey d.

Lemma checkSigner_Ok devs signer id n signature result :
  checkSigner devs signer id n signature = Ok result →
  ∃ d, Signed_Descriptor signer = Some d ∧
    key_Verify (Desc_SigningPublicKey d) (sessionSignatureMessage n) signature = true ∧
    Result_DeviceID result = id ∧ Result_Epoch result = RevocationEpoch devs ∧
    Fingerprint (Some signer) = Ok (Result_Fingerprint result).
Proof.
  unfold checkSigner. intros HC. destruct (Signed_Descriptor signer) as [d|]; [|done].
  destruct (negb _) eqn:Hv; [done|]. destruct (Fingerprint _); simplify_eq. exists d. split_bool. by split_and!.
Qed.

Lemma consumed_admits g g' r now n key signature nonces :
  consume (gate_nonces g) now n (RemoteAddr r) = (nonces, Ok tt) →
  g' = g <| gate_nonces := nonces |> →
  key_Verify key (sessionSignatureMessage n) signature = true → Admits g g' r now key.
Proof.
  intros Hc -> Hv. destruct (consume_cases _ _ _ _ _ _ Hc) as (_ & Hok & _).
  destruct (Hok eq_refl) as ((rec0 & Hr0 & Hcons)%fresh_nonce_record & _ & rec & Hr & Hle & Hh & Hitems). simplify_eq.
  split; [done|]. exists n, rec0, signature. by split_and!.
Qed.

(** What a path that fails leaves behind. *)
Definition Refused g g' : Prop := gate_devices g' = gate_devices g ∧ Ages (gate_nonces g) (gate_nonces g').

Lemma verify_cases g now r g' res :
  ValidState (state (gate_devices g)) → verify g now r = (g', res) →
  match res with
  | Ok result => ∃ key, Admits g g' r now key ∧ authorizedSigner (gate_devices g) (Result_DeviceID result) key ∧
      Result_Epoch result = RevocationEpoch (gate_devices g)
  | Err _ => Refused g g'
  end.
Proof.
  intros [_ _ Hall Hnd _ _] HV. unfold verify in HV.
  destruct (missing _ _ _); [by simplify_eq|]. destruct (decodeDevice _) as [id|]; [|by simplify_eq].
  destruct (decodeSignature _ _) as [signature|]; [|by simplify_eq].
  destruct (consume _ _ _ _) as [nonces [[]|]] eqn:Hc.
  2: { simplify_eq. split; [done|]. by apply consume_cases in Hc as [? _]. }
  assert (Refused g (g <| gate_nonces := nonces |>)) as Href
    by (split; [done|]; by apply consume_cases in Hc as [? _]).
  destruct (AuthorizedDevice_lookup _ _) as [view|] eqn:Hlook; [|by simplify_eq].
  destruct (negb _) eqn:Hst; [by simplify_eq|].
  destruct (checkSigner _ _ _ _ _) as [result|] eqn:Hs; simplify_eq; [|done].
  apply checkSigner_Ok in Hs as (d & Hd & Hv & Hid & Hep & _). simpl in *.
  apply (findView_devices _ _ _ _ _ Hall) in Hlook as (rec & Hin & Hdev & Hview).
  exists (Desc_SigningPublicKey d). split_and!; [by eapply consumed_admits| |done].
  left. exists rec, d. unfold authorizationView in Hview. unfold descriptor_of.
  destruct (signed_Unmarshal (Rec_Device rec)) as [s|] eqn:Hs; [|done]. simplify_eq/=. split_and!; [|lia|done|done].
  apply list_elem_of_lookup in Hin as [i Hi]. rewrite Hid. by apply (devices_of_lookup _ i).
Qed.

Lemma verifyWebSession_cases g now r g' res :
  verifyWebSession g now r = (g', res) →
  match res with
  | Ok result => ∃ key, Admits g g' r now key ∧ authorizedSigner (gate_devices g) (Result_DeviceID result) key ∧
      Result_Epoch result = RevocationEpoch (gate_devices g)
  | Err e => Refused g g' ∧ (errors_is e errPairedDeviceUnknown = true → g' = g)
  end.
Proof.
  intros HV. unfold verifyWebSession in HV.
  destruct (missing _ _ _); [by simplify_eq|].
  destruct (decodeDevice _) as [id|] eqn:Hdd; [|by simplify_eq].
  destruct (negb _) eqn:Hown; [by simplify_eq|]. split_bool.
  destruct (decodeSignature _ _) as [signature|] eqn:Hds; [|by simplify_eq].
  destruct (consume _ _ _ _) as [nonces [[]|e]] eqn:Hc.
  2: { simplify_eq. assert (Ages (gate_nonces g) nonces) as Ha by by apply consume_cases in Hc as [? _].
       split; [by split|]. unfold consume in Hc. by repeat case_match; simplify_eq. }
  assert (Refused g (g <| gate_nonces := nonces |>)) as Href
    by (split; [done|]; by apply consume_cases in Hc as [? _]).
  destruct (Descriptor _) as [s|] eqn:Hd; [|by simplify_eq].
  destruct (checkSigner _ _ _ _ _) as [result|e] eqn:Hs; simplify_eq.
  - apply checkSigner_Ok in Hs as (d & Hsd & Hv & Hid & Hep & _). simpl in *.
    exists (Desc_SigningPublicKey d). split_and!; [by eapply consumed_admits| |done].
    right. split; [done|]. by exists s, d.
  - split; [done|]. unfold checkSigner in Hs. by repeat case_match; simplify_eq.
Qed.

Lemma Refused_trans g g1 g2 : Refused g g1 → Refused g1 g2 → Refused g g2.
Proof. intros [D1 A1] [D2 A2]. split; [congruence|by etrans]. Qed.

(** An upgrade on a gate that is required, on every path. *)
Lemma upgrade_cases c g now1 now2 r g' res :
  ValidState (state (gate_devices g)) → RequirePairedSession c = true →
  authorizedForUpgrade c (Some g) now1 now2 r = (Some g', res) →
  match res with
  | Some (Some result) => WebSocketSubprotocol ∈ Subprotocols r ∧ ∃ now key,
      (now = now1 ∨ now = now2) ∧ Admits g g' r now key ∧
      authorizedSigner (gate_devices g) (Result_DeviceID result) key ∧
      Result_Epoch result = RevocationEpoch (gate_devices g)
  | Some None => False
  | None => Refused g g'
  end.
Proof.
  intros Hv Hreq HA. unfold authorizedForUpgrade in HA. rewrite Hreq in HA. simpl negb in HA. cbv iota in HA.
  destruct (negb (offersWebSocketSubprotocol _ _)) eqn:Hoff; [by simplify_eq|].
  apply negb_false_iff, bool_decide_eq_true in Hoff.
  destruct (verify g now2 r) as [gv resv] eqn:HV. pose proof (verify_cases _ _ _ _ _ Hv HV) as Hcv.
  destruct (Query r pairedDeviceQuery).
  - destruct (verifyWebSession g now1 r) as [gw [result|e]] eqn:HW;
      pose proof (verifyWebSession_cases _ _ _ _ _ HW) as Hcw.
    + simplify_eq. split; [done|]. destruct Hcw as (key & ? & ? & ?). exists now1, key. auto.
    + destruct Hcw as [Href Hsame]. destruct (errors_is e _) eqn:He; simpl in HA; [|by simplify_eq].
      rewrite (Hsame eq_refl), HV in HA. destruct resv; simplify_eq; [|done].
      split; [done|]. destruct Hcv as (key & ? & ? & ?). exists now2, key. auto.
  - destruct resv; simplify_eq; [|done].
    split; [done|]. destruct Hcv as (key & ? & ? & ?). exists now2, key. auto.
Qed.

Lemma upgrade_gate c g now1 now2 r :
  ∃ g', (authorizedForUpgrade c (Some g) now1 now2 r).1 = Some g'.
Proof. unfold authorizedForUpgrade. repeat case_match; simpl; eauto. Qed.

(** C5: an upgrade the gate requires is authenticated.  It is admitted only on the
    protocol's subprotocol, with the binding of a device, by spending one nonce
    that was issued to the request's host, had not expired and had not been used,
    over which there is a signature that verifies under the signing key of an
    authorized device of the graph, or of the Agent itself; the epoch bound is the
    graph's.  An upgrade that is refused makes no nonce usable; and without a gate
    none is admitted. *)
Theorem upgrade_is_authenticated c gate now1 now2 r gate' binding :
  RequirePairedSession c = true →
  (∀ g, gate = Some g → ValidState (state (gate_devices g))) →
  authorizedForUpgrade c gate now1 now2 r = (gate', binding) →
  match binding with
  | Some b => WebSocketSubprotocol ∈ Subprotocols r ∧ ∃ g g' result now key,
      gate = Some g ∧ gate' = Some g' ∧ b = Some result ∧ (now = now1 ∨ now = now2) ∧
      Admits g g' r now key ∧ authorizedSigner (gate_devices g) (Result_DeviceID result) key ∧
      Result_Epoch result = RevocationEpoch (gate_devices g)
  | None => match gate, gate' with
            | Some g, Some g' => Refused g g' | None, None => True | _, _ => False end
  end.
Proof.
  intros Hreq Hv HA. destruct gate as [g|].
  - destruct (upgrade_gate c g now1 now2 r) as [g' Hg']. rewrite HA in Hg'. simpl in Hg'. subst gate'.
    pose proof (upgrade_cases _ _ _ _ _ _ _ (Hv g eq_refl) Hreq HA) as Hc.
    destruct binding as [[result|]|]; [|done|done].
    destruct Hc as (Hs & now & key & ? & ? & ? & ?). split; [done|]. exists g, g', result, now, key. by split_and!.
  - unfold authorizedForUpgrade in HA. rewrite Hreq in HA. simpl in HA. by simplify_eq.
Qed.

(** ** Runs *)

(** The endpoints that issue nonces, and upgrades. *)
Inductive GateOp :=
  | GateNonce (now issued : Z) (random : result bytes) (r : Request)
  | GateWebSession (c : UpgradeConfig) (now issued : Z) (random : result bytes) (r : Request)
  | GateUpgrade (c : UpgradeConfig) (now1 now2 : Z) (r : Request).

Inductive GateEvent := Issued (nonce : string) | Entered (nonces : gset string) | NoEvent.

(** The nonces that were usable before and are marked as used after. *)
Definition newlySpent g g' : gset string :=
  dom (filter (fun kv => nonce_consumed kv.2 = true ∧ fresh_nonce (gate_nonces g) kv.1)
         (nonce_items (gate_nonces g'))).

Definition issuedEvent (reply : Z * Body) : GateEvent :=
  match reply.2 with NonceBody n _ | WebSessionBody _ n _ _ => Issued n | ErrorBody _ => NoEvent end.

Definition gateExec g (op : GateOp) : pairedSessionGate * GateEvent :=
  match op with
  | GateNonce now issued random r =>
      let '(g', reply) := handleSessionNonce (Some g) now issued random r in (default g g', issuedEvent reply)
  | GateWebSession c now issued random r =>
      let '(g', reply) := handleWebSession c (Some g) now issued random r in (default g g', issuedEvent reply)
  | GateUpgrade c now1 now2 r =>
      let '(g', binding) := authorizedForUpgrade c (Some g) now1 now2 r in
      (default g g', match binding with
                     | Some (Some _) => Entered (newlySpent g (default g g'))
                     | _ => NoEvent
                     end)
  end.

Fixpoint gateRun g (ops : list GateOp) : list GateEvent * pairedSessionGate :=
  match ops with
  | [] => ([], g)
  | op :: ops' =>
      let '(g', e) := gateExec g op in
      let '(es, g'') := gateRun g' ops' in (e :: es, g'')
  end.

Definition issues (n : string) (e : GateEvent) : bool :=
  match e with Issued m => bool_decide (m = n) | _ => false end.
Definition enters (n : string) (e : GateEvent) : bool :=
  match e with Entered ns => bool_decide (n ∈ ns) | _ => false end.

Lemma newlySpent_admitted g g' r now key :
  Admits g g' r now key → ∃ n, newlySpent g g' = {[n]} ∧ fresh_nonce (gate_nonces g) n ∧
    ~ fresh_nonce (gate_nonces g') n ∧ ∀ n', fresh_nonce (gate_nonces g') n' → fresh_nonce (gate_nonces g) n'.
Proof.
  intros [_ (n & rec & signature & Hr & Hc & Hle & _ & Hitems & _)].
  assert (fresh_nonce (gate_nonces g) n) as Hf by (apply fresh_nonce_record; eauto).
  exists n. split_and!; [|done| |].
  - apply leibniz_equiv. intros n'. unfold newlySpent. rewrite elem_of_dom, elem_of_singleton. split.
    + intros [rec' Hr']. apply map_lookup_filter_Some in Hr' as [Hr' [Hcons Hfr]]. simpl in *.
      rewrite Hitems in Hr'. apply lookup_insert_Some in Hr' as [[<- _]|[_ Hr']]; [done|].
      apply evict_lookup in Hr' as [Hr' _]. apply fresh_nonce_record in Hfr as (rec0 & ? & ?). congruence.
    + intros ->. exists (rec <| nonce_consumed := true |>). apply map_lookup_filter_Some.
      rewrite Hitems, lookup_insert_eq. done.
  - rewrite fresh_nonce_record, Hitems. setoid_rewrite lookup_insert_eq. naive_solver.
  - intros n'. rewrite !fresh_nonce_record, Hitems. intros (rec' & Hr' & Hc').
    apply lookup_insert_Some in Hr' as [[<- <-]|[_ Hr']]; [done|]. apply evict_lookup in Hr' as [Hr' _]. eauto.
Qed.

(** How an operation changes which nonces are usable. *)
Definition freshCount g n : nat := if bool_decide (fresh_nonce (gate_nonces g) n) then 1%nat else 0%nat.
Definition eventCount (f : GateEvent → bool) (e : GateEvent) : nat := if f e then 1%nat else 0%nat.

Record Effects g (e : GateEvent) g' : Prop := {
  ef_devices : gate_devices g' = gate_devices g;
  ef_fresh n : (eventCount (enters n) e + freshCount g' n <= eventCount (issues n) e + freshCount g n)%nat;
  ef_single ns : e = Entered ns → ∃ n, ns = {[n]};
}.

Lemma Refused_effects g g' : Refused g g' → Effects g NoEvent g'.
Proof.
  intros [Hd [_ Ha]]. split; [done| |done]. intros n. unfold freshCount. simpl.
  repeat case_bool_decide; try lia. exfalso. eauto.
Qed.

Lemma issue_effects g now issued random remote nonces res :
  issue (gate_nonces g) now issued random remote = (nonces, res) →
  Effects g (match res with Ok (n, _) => Issued n | Err _ => NoEvent end) (g <| gate_nonces := nonces |>).
Proof.
  intros HI. apply issue_cases in HI. destruct res as [[n ttl]|e]; [|by apply Refused_effects].
  destruct HI as (_ & _ & _ & Hitems). split; [done| |done]. intros n'. unfold freshCount. simpl.
  destruct (decide (n = n')) as [->|Hne].
  - unfold eventCount. simpl. rewrite (bool_decide_true (n' = n')) by done. repeat case_bool_decide; lia.
  - unfold eventCount. simpl. rewrite (bool_decide_false (n = n')) by done.
    repeat case_bool_decide; try lia. exfalso.
    match goal with H : ~ fresh_nonce _ _ |- _ => apply H end.
    apply (evict_fresh _ now). unfold fresh_nonce in *. simpl. rewrite Hitems, lookup_insert_ne in * by done. done.
Qed.

Lemma gateExec_effects g op :
  ValidState (state (gate_devices g)) → Effects g (gateExec g op).2 (gateExec g op).1.
Proof.
  intros Hv. destruct op as [now issued random r|c now issued random r|c now1 now2 r]; simpl.
  - destruct (issue _ _ _ _ _) as [nonces res] eqn:HI. apply issue_effects in HI.
    by destruct res as [[n ttl]|e].
  - unfold handleWebSession. destruct (negb _); [by apply Refused_effects|].
    destruct (issue _ _ _ _ _) as [nonces res] eqn:HI. apply issue_effects in HI.
    by destruct res as [[n ttl]|e].
  - destruct (authorizedForUpgrade c (Some g) now1 now2 r) as [og binding] eqn:HA.
    destruct (upgrade_gate c g now1 now2 r) as [g' Hg']. rewrite HA in Hg'. simpl in Hg'. subst og. simpl.
    destruct (RequirePairedSession c) eqn:Hreq.
    + pose proof (upgrade_cases _ _ _ _ _ _ _ Hv Hreq HA) as Hc.
      destruct binding as [[result|]|]; [|done|by apply Refused_effects].
      destruct Hc as (_ & now & key & _ & Had & _).
      destruct (newlySpent_admitted _ _ _ _ _ Had) as (n & Hn & Hf & Hnf & Hkeep).
      rewrite Hn. split; [by apply ad_devices in Had| |intros ns [= <-]; eauto].
      intros n'. unfold eventCount, freshCount. simpl.
      destruct (decide (n' = n)) as [->|Hne].
      * rewrite (bool_decide_true (n ∈ _)) by set_solver. rewrite (bool_decide_false _ Hnf).
        by rewrite (bool_decide_true _ Hf).
      * rewrite (bool_decide_false (n' ∈ _)) by set_solver. repeat case_bool_decide; try lia. exfalso; eauto.
    + unfold authorizedForUpgrade in HA. rewrite Hreq in HA. simpl in HA. simplify_eq.
      destruct (validToken c r); by apply Refused_effects.
Qed.

(** A nonce admits once.  In every run of the endpoints and of upgrades, with
    whatever requests and clocks, every admitted upgrade spends exactly one nonce,
    and no nonce is spent more often than it was issued; from an empty store, one
    that the random source has given once admits at most once. *)
Theorem nonce_admits_once g ops :
  ValidState (state (gate_devices g)) →
  let es := (gateRun g ops).1 in
  (∀ ns, Entered ns ∈ es → ∃ n, ns = {[n]}) ∧
  (∀ n, (countb (enters n) es <= countb (issues n) es + freshCount g n)%nat) ∧
  (nonce_items (gate_nonces g) = ∅ → ∀ n, (countb (issues n) es <= 1)%nat → (countb (enters n) es <= 1)%nat).
Proof.
  intros Hv.
  assert ((∀ ns, Entered ns ∈ (gateRun g ops).1 → ∃ n, ns = {[n]}) ∧
    ∀ n, (countb (enters n) (gateRun g ops).1 <= countb (issues n) (gateRun g ops).1 + freshCount g n)%nat)
    as [Hs Hc].
  { revert g Hv. induction ops as [|op ops IH]; intros g Hv; [simpl; split; [set_solver|unfold countb; simpl; lia]|].
    pose proof (gateExec_effects g op Hv) as [Hd Hf Hone]. simpl. destruct (gateExec g op) as [g' e] eqn:He.
    destruct (IH g') as [IHs IHc]; [simpl in Hd; by rewrite Hd|].
    destruct (gateRun g' ops) as [es g'']. simpl in *. split.
    - intros ns [<-|Hin]%elem_of_cons; [by apply Hone|by apply IHs].
    - intros n. specialize (Hf n). specialize (IHc n). unfold countb, eventCount in *. simpl.
      destruct (enters n e), (issues n e); simpl; lia. }
  split_and!; [exact Hs|exact Hc|]. intros Hempty n Hn. specialize (Hc n). unfold freshCount in Hc.
  rewrite bool_decide_false in Hc; [lia|]. unfold fresh_nonce. by rewrite Hempty, lookup_empty.
Qed.
End Gate.

(** ** The browser's round trip *)

(** What Ed25519 promises. *)
Class SignatureLaws {crypto : IdentityCrypto} := {
  sign_verifies key m : key_Verify (key_Public key) m (key_Sign key m) = true;
  sign_length key m : len (key_Sign key m) = ed25519_SignatureSize;
}.

Section WebSession.
Context {crypto : IdentityCrypto} {sigs : SignatureLaws}.
Implicit Types (g : pairedSessionGate) (r : Request).

Lemma hexEncode_length b : slen (hexEncode b) = 2 * len b.
Proof.
  induction b as [|x b IH]; [done|]. rewrite len_cons. cbn [hexEncode]. unfold slen in *. cbn [String.length]. lia.
Qed.

Lemma slen_nonempty s : 0 < slen s → bool_decide (s = EmptyString) = false.
Proof. intros Hs. apply bool_decide_eq_false. intros ->. done. Qed.

Lemma base64_nonempty b : b ≠ [] → Std_Encode b ≠ EmptyString.
Proof. intros Hb He. pose proof (base64_roundtrip _ _ true std_alphabet b) as Hr. unfold Std_Encode in He.
  rewrite He in Hr. unfold DecodeString in Hr. simpl in Hr. congruence. Qed.

(** The Agent's own descriptor is there and passes its own verification. *)
Lemma agent_descriptor st :
  ValidState st → len (St_DeviceID st) = DeviceIDBytes ∧ ∃ s d, signedDescriptorLocked st = Ok s ∧
    Signed_Descriptor s = Some d ∧ Desc_SigningPublicKey d = key_Public (St_SigningPrivateKey st) ∧
    ∃ fingerprint, Fingerprint (Some s) = Ok fingerprint.
Proof.
  intros [Hid _ _ _ _ _]. unfold validateState in Hid.
  change (signedDescriptorLocked (identity st)) with (signedDescriptorLocked st) in Hid. simpl in Hid.
  destruct (signedDescriptorLocked st) as [s|] eqn:Hs; [|by repeat case_match].
  assert (len (St_DeviceID st) = DeviceIDBytes) as Hlen.
  { repeat (case_match; [done|]). lia. }
  split; [done|]. unfold signedDescriptorLocked, newSignedDescriptor in Hs.
  destruct (negb (x25519_PrivateKey _)); [done|]. simpl in Hs.
  destruct (ValidateDescriptor _) as [[]|] eqn:Hv; [|done]. destruct (_ || _); [done|].
  destruct (descriptorSignatureMessage _) as [m|] eqn:Hm; [|done]. simplify_eq.
  eexists _, _. split_and!; [done|done|done|]. unfold Fingerprint, VerifySignedDescriptor.
  rewrite Hv, Hm, sign_length. simpl. rewrite sign_verifies. simpl.
  unfold descriptorSignatureMessage in Hm. destruct (descriptor_Marshal _); [|done]. by eexists.
Qed.

(** A request that presents the reply of the web-session endpoint. *)
Definition presents r (deviceID nonce signature : string) : Prop :=
  Query r pairedDeviceQuery = Some deviceID ∧ Query r pairedSessionNonceQuery = Some nonce ∧
  Query r pairedDeviceSignatureQuery = Some signature ∧ WebSocketSubprotocol ∈ Subprotocols r.

(** What such a request is decoded to. *)
Lemma presented r g raw signature :
  presents r (hexEncode (DeviceID (gate_devices g))) (hexEncode raw) (Std_Encode signature) →
  len (DeviceID (gate_devices g)) = DeviceIDBytes → len raw = sessionNonceBytes →
  len signature = ed25519_SignatureSize → ∀ now,
  verifyWebSession g now r =
    match consume (gate_nonces g) now (hexEncode raw) (RemoteAddr r) with
    | (nonces, Err e) => (g <| gate_nonces := nonces |>, Err e)
    | (nonces, Ok _) =>
        (g <| gate_nonces := nonces |>,
         match Descriptor (gate_devices g) with
         | Err _ => Err errPairedSignatureInvalid
         | Ok descriptor => checkSigner (gate_devices g) descriptor (DeviceID (gate_devices g)) (hexEncode raw) signature
         end)
    end.
Proof.
  intros (Hq1 & Hq2 & Hq3 & _) Hid Hraw Hsig now. unfold verifyWebSession, Query_Get. rewrite Hq1, Hq2, Hq3. simpl.
  unfold missing. rewrite (slen_nonempty (hexEncode (DeviceID _))) by (rewrite hexEncode_length, Hid; done).
  rewrite (slen_nonempty (hexEncode raw)) by (rewrite hexEncode_length, Hraw; done).
  rewrite (bool_decide_false (Std_Encode _ = _)) by (apply base64_nonempty; intros ->; done).
  unfold decodeDevice, decodeSignature, Std_Decode, Std_Encode.
  rewrite !hex_roundtrip, hexEncode_length, Hid, Hraw, (base64_roundtrip _ _ _ std_alphabet), Hsig. simpl.
  rewrite bool_decide_true by done. simpl. destruct (consume _ _ _ _) as [nonces [[]|e]]; [|done].
  simpl. by destruct (Descriptor _).
Qed.

(** What the web-session endpoint returns admits the browser, once.  On a valid
    identity, a request with the session token is given credentials with which an
    upgrade from the same host is admitted until the nonce expires, bound to the
    Agent's own device; the same credentials are then refused at any time. *)
Theorem web_session_admits_once c g now issued raw r0 g1 id nonce signature expiresIn r now1 now2 :
  ValidState (state (gate_devices g)) → RequirePairedSession c = true → len raw = sessionNonceBytes →
  handleWebSession c (Some g) now issued (Ok raw) r0
    = (Some g1, (StatusOK, WebSessionBody id nonce signature expiresIn)) →
  presents r id nonce signature → hostFromAddr (RemoteAddr r) = hostFromAddr (RemoteAddr r0) →
  now1 <= issued + nonce_ttl (gate_nonces g) →
  ∃ g2 result, authorizedForUpgrade c (Some g1) now1 now2 r = (Some g2, Some (Some result)) ∧
    Result_DeviceID result = DeviceID (gate_devices g) ∧ Result_Epoch result = RevocationEpoch (gate_devices g) ∧
    ∀ now1' now2', (authorizedForUpgrade c (Some g2) now1' now2' r).2 = None.
Proof.
  intros Hv Hreq Hraw HW Hp Hhost Hnow. destruct (agent_descriptor _ Hv) as (Hid & s & d & Hs & Hsd & Hkey & fp & Hfp).
  unfold handleWebSession in HW. destruct (negb (validToken c r0)); [done|].
  destruct (issue _ _ _ _ _) as [nonces [[n ttl]|e]] eqn:HI; [|done]. simplify_eq.
  apply issue_cases in HI as (_ & Httl & (raw' & [= <-] & ->) & Hitems).
  set (sig := Sign (gate_devices g) (sessionSignatureMessage (hexEncode raw))) in *.
  assert (len sig = ed25519_SignatureSize) as Hsig by apply sign_length.
  set (g1 := g <| gate_nonces := nonces |>) in *.
  pose proof (presented r g1 raw sig Hp Hid Hraw Hsig) as Hpres.
  assert (offersWebSocketSubprotocol r WebSocketSubprotocol = true) as Hoff
    by (apply bool_decide_eq_true, Hp).
  assert (consume nonces now1 (hexEncode raw) (RemoteAddr r) =
    ((evictLocked nonces now1) <| nonce_items ::= insert (hexEncode raw)
       (mkNonceRecord (issued + nonce_ttl (gate_nonces g)) (hostFromAddr (RemoteAddr r0)) true) |>, Ok tt)) as Hcons.
  { unfold consume. assert (nonce_items (evictLocked nonces now1) !! hexEncode raw =
      Some (mkNonceRecord (issued + nonce_ttl (gate_nonces g)) (hostFromAddr (RemoteAddr r0)) false)) as ->.
    { apply evict_lookup. rewrite Hitems, lookup_insert_eq. by split. }
    simpl. by rewrite bool_decide_true. }
  assert (checkSigner (gate_devices g) s (DeviceID (gate_devices g)) (hexEncode raw) sig =
    Ok (mkPairedSessionResult (DeviceID (gate_devices g)) fp (RevocationEpoch (gate_devices g)))) as Hcheck.
  { unfold checkSigner. rewrite Hsd, Hkey. unfold sig, Sign. rewrite sign_verifies. simpl. by rewrite Hfp. }
  eexists _, _. split_and!.
  - unfold authorizedForUpgrade. rewrite Hreq, Hoff. simpl. destruct Hp as [Hq _]. rewrite Hq.
    rewrite Hpres. simpl. rewrite Hcons. unfold Descriptor. rewrite Hs, Hcheck. done.
  - done.
  - done.
  - intros now1' now2'. unfold authorizedForUpgrade. rewrite Hreq, Hoff. simpl. destruct (Hp) as [Hq _]. rewrite Hq.
    match goal with |- context [verifyWebSession ?g2 _ r] =>
      rewrite (presented r g2 raw sig Hp Hid Hraw Hsig) end. simpl.
    destruct (consume _ now1' (hexEncode raw) (RemoteAddr r)) as [nonces' res] eqn:Hc.
    unfold consume in Hc.
    destruct (nonce_items (evictLocked _ now1') !! hexEncode raw) as [rec|] eqn:Hrec.
    + apply evict_lookup in Hrec as [Hrec _]. simpl in Hrec. rewrite lookup_insert_eq in Hrec. simplify_eq/=. done.
    + by simplify_eq/=.
Qed.
End WebSession.
