(* ===== verification/Router.v ===== *)
(** * The relay's route table ([internal/relay/router.go], and the peers of
      [internal/relay/server.go])

    The router puts the two halves of a route together and forwards bytes
    between them.  Peers are objects with an identity; the state keeps which of
    them have been closed and what was delivered to whom.  Times are
    nanoseconds; each operation that reads the clock takes its reading. *)

From S2P Require Import Prelude.
From S2P Require Import Ticket.

Definition ErrRouteFull := ErrorString "relay route is at capacity".
Definition ErrRouteEndpoint := ErrorString "relay route endpoint is already occupied".
Definition ErrRouteMismatch := ErrorString "relay route id does not match the ticket".
Definition ErrRouteUnknown := ErrorString "relay route is not registered".
Definition ErrPeerClosed := ErrorString "relay peer is closed".
Definition ErrPeerMissing := ErrorString "relay peer endpoint has not been joined yet".
Definition ErrRouterStopped := ErrorString "relay router has been stopped".

Definition defaultRouteIdleTimeout : Z := 5 * Minute.
Definition defaultRouteMaxLifetime : Z := 30 * Minute.
Definition defaultSweepInterval : Z := 30 * Second.

(** ** Data *)

(** A [webSocketPeer]: its identity, and what its ticket says. *)
Record Peer := mkPeer {
  peer_id : nat;
  peer_endpoint : RelayEndpoint;
  peer_routeID : bytes;
  peer_deviceID : bytes;
}.

#[global] Instance Peer_eq_dec : EqDecision Peer.
Proof. solve_decision. Defined.

Record route := mkRoute {
  route_id : string;
  connectionCap : Z;
  agent : option Peer;
  client : option Peer;
  createdAt : Z;
  lastActivity : Z;
}.

#[global] Instance route_eta : Eta route := fun r =>
  mkRoute (route_id r) (connectionCap r) (agent r) (client r) (createdAt r) (lastActivity r).

Record RouterConfig := mkRouterConfig {
  IdleTimeout : Z;
  MaxLifetime : Z;
  SweepInterval : Z;
}.

Record Router := mkRouter {
  routes : gmap string route;
  stopped : bool;
  idle : Z;
  maxLife : Z;
  sweepInt : Z;
}.

#[global] Instance Router_eta : Eta Router := fun r =>
  mkRouter (routes r) (stopped r) (idle r) (maxLife r) (sweepInt r).

(** The handle [Join] returns. *)
Record Route := mkRouteHandle {
  handle_id : string;
  handle_endpoint : RelayEndpoint;
  owner : Peer;
}.

Record SweepResult := mkSweepResult {
  IdleClosed : Z;
  ExpiredClosed : Z;
}.

(** The relay: the router, the peers closed so far, and the messages written to
    a peer's connection, with their senders. *)
Record Relay := mkRelay {
  router : Router;
  closedPeers : gset nat;
  delivered : list (Peer * Peer * bytes);
}.

#[global] Instance Relay_eta : Eta Relay := fun s =>
  mkRelay (router s) (closedPeers s) (delivered s).

(** ** Peers *)

Definition newWebSocketPeer (id : nat) (t : Ticket) : Peer :=
  mkPeer id (Ticket_Endpoint (wire t)) (RouteId (wire t)) (DeviceId (wire t)).

Definition Peer_Close (s : Relay) (p : Peer) : Relay :=
  s <| closedPeers ::= fun c => {[peer_id p]} ∪ c |>.

Definition closeSlot (s : Relay) (p : option Peer) : Relay :=
  match p with Some p => Peer_Close s p | None => s end.

(** [webSocketPeer.Forward]; [writeFails] is the outcome of the write. *)
Definition Peer_Forward (s : Relay) (from p : Peer) (plaintext : bytes) (writeFails : bool)
    : Relay * result unit :=
  if bool_decide (peer_id p ∈ closedPeers s) then (s, Err ErrPeerClosed)
  else if writeFails then (Peer_Close s p, Err ErrPeerClosed)
  else (s <| delivered ::= fun l => l ++ [(from, p, plaintext)] |>, Ok tt).

(** ** Routes *)

Definition occupied (r : route) : Z :=
  (if agent r is Some _ then 1 else 0) + (if client r is Some _ then 1 else 0).

Definition otherOf (r : route) (p : Peer) : option Peer :=
  match peer_endpoint p with
  | RELAY_ENDPOINT_AGENT => client r
  | RELAY_ENDPOINT_CLIENT => agent r
  | _ => None
  end.

Definition NewRouterWithConfig (cfg : RouterConfig) : Router :=
  mkRouter ∅ false
    (if IdleTimeout cfg <=? 0 then defaultRouteIdleTimeout else IdleTimeout cfg)
    (if MaxLifetime cfg =? 0 then defaultRouteMaxLifetime else MaxLifetime cfg)
    (if SweepInterval cfg <=? 0 then defaultSweepInterval else SweepInterval cfg).

Definition NewRouter : Router := NewRouterWithConfig (mkRouterConfig 0 0 0).

Definition closeRoute (s : Relay) (r : route) : Relay := closeSlot (closeSlot s (agent r)) (client r).

(** [Join].  A route that does not exist is created before the checks. *)
Definition Join (s : Relay) (now : Z) (t : Ticket) (p : Peer)
    : Relay * result (Route * option Peer) :=
  let routeID := string_of_bytes (RouteId (wire t)) in
  let rs := router s in
  if stopped rs then (s, Err ErrRouterStopped)
  else
    let rt := match routes rs !! routeID with
              | Some rt => rt
              | None =>
                  let cap := if MaxConnections (wire t) <? 2 then 2 else MaxConnections (wire t) in
                  mkRoute routeID cap None None now now
              end in
    let put rt := s <| router ::= fun r => r <| routes ::= insert routeID rt |> |> in
    let joined rt := (put rt, Ok (mkRouteHandle routeID (Ticket_Endpoint (wire t)) p, otherOf rt p)) in
    if occupied rt >=? connectionCap rt then (put rt, Err ErrRouteFull)
    else match Ticket_Endpoint (wire t) with
    | RELAY_ENDPOINT_AGENT =>
        if agent rt is Some _ then (put rt, Err ErrRouteEndpoint)
        else joined (rt <| agent := Some p |>)
    | RELAY_ENDPOINT_CLIENT =>
        if client rt is Some _ then (put rt, Err ErrRouteEndpoint)
        else joined (rt <| client := Some p |>)
    | _ => (put rt, Err ErrRouteMismatch)
    end.

(** [Leave] clears the slot of the peer's endpoint, whoever occupies it. *)
Definition Leave (s : Relay) (p : Peer) : Relay :=
  let routeID := string_of_bytes (peer_routeID p) in
  match routes (router s) !! routeID with
  | None => s
  | Some rt =>
      let '(other, rt) :=
        match peer_endpoint p with
        | RELAY_ENDPOINT_AGENT => (client rt, rt <| agent := None |>)
        | RELAY_ENDPOINT_CLIENT => (agent rt, rt <| client := None |>)
        | _ => (None, rt)
        end in
      let shouldClose := match agent rt, client rt with Some _, Some _ => false | _, _ => true end in
      if shouldClose then
        closeSlot (Peer_Close (s <| router ::= fun r => r <| routes ::= delete routeID |> |>) p) other
      else s <| router ::= fun r => r <| routes ::= insert routeID rt |> |>
  end.

(** ** Lifecycle *)

Definition expired (r : Router) (now : Z) (rt : route) : bool :=
  (maxLife r >? 0) && (now - createdAt rt >=? maxLife r).
Definition idled (r : Router) (now : Z) (rt : route) : bool :=
  (idle r >? 0) && (now - lastActivity rt >=? idle r).

(** The routes to close are collected in the order of the map's iteration. *)
Definition Sweep (s : Relay) (now : Z) : Relay * SweepResult :=
  let rs := router s in
  if stopped rs then (s, mkSweepResult 0 0)
  else
    let toClose := (map_to_list (filter (fun kv => expired rs now kv.2 || idled rs now kv.2 = true)
                                   (routes rs))).*2 in
    let s := s <| router ::= fun r =>
      r <| routes ::= fun m => foldl (fun m rt => delete (route_id rt) m) m toClose |> |> in
    foldl (fun '(s, res) rt =>
             (closeRoute s rt,
              if expired rs now rt
              then mkSweepResult (IdleClosed res) (ExpiredClosed res + 1)
              else mkSweepResult (IdleClosed res + 1) (ExpiredClosed res)))
      (s, mkSweepResult 0 0) toClose.

Definition Stop (s : Relay) : Relay :=
  if stopped (router s) then s
  else
    let rs := (map_to_list (routes (router s))).*2 in
    foldl closeRoute
      (s <| router ::= fun r => r <| stopped := true |> <| routes := ∅ |> |>) rs.

(** ** Forwarding *)

Definition Forward (s : Relay) (now : Z) (h : Route) (plaintext : bytes) (writeFails : bool)
    : Relay * result unit :=
  match routes (router s) !! handle_id h with
  | None => (s, Err ErrRouteUnknown)
  | Some rt =>
      match otherOf rt (owner h) with
      | None => (s, Err ErrPeerMissing)
      | Some dest =>
          let s := s <| router ::= fun r =>
            r <| routes ::= insert (handle_id h) (rt <| lastActivity := now |>) |> |> in
          match Peer_Forward s (owner h) dest plaintext writeFails with
          | (s, Err e) => (Leave s dest, Err e)
          | (s, Ok _) => (s, Ok tt)
          end
      end
  end.

(** * The route table: pairing, isolation, reaping

    Connections are numbered; connection [n] presented the verified ticket
    [conn n].  The theorems hold for every interleaving of the router's
    operations, each of which runs under the router's lock. *)

(** ** Closing *)

Definition slot_ids (p : option Peer) : gset nat :=
  match p with Some p => {[peer_id p]} | None => ∅ end.
Definition route_ids (rt : route) : gset nat := slot_ids (agent rt) ∪ slot_ids (client rt).

Lemma closeRoute_spec s rt :
  router (closeRoute s rt) = router s ∧ delivered (closeRoute s rt) = delivered s ∧
  closedPeers (closeRoute s rt) = route_ids rt ∪ closedPeers s.
Proof.
  unfold closeRoute, closeSlot, Peer_Close, route_ids, slot_ids.
  destruct (agent rt), (client rt); simpl; split_and!; set_solver.
Qed.

Lemma closeRoutes_spec rs : ∀ s,
  router (foldl closeRoute s rs) = router s ∧
  delivered (foldl closeRoute s rs) = delivered s ∧
  closedPeers (foldl closeRoute s rs) = ⋃ (route_ids <$> rs) ∪ closedPeers s.
Proof.
  induction rs as [|rt rs IH]; intros s; simpl; [split_and!; set_solver|].
  destruct (IH (closeRoute s rt)) as (-> & -> & ->).
  destruct (closeRoute_spec s rt) as (-> & -> & ->). split_and!; set_solver.
Qed.

(** ** Sweeping *)

Lemma delete_routes (rs : list route) (m : gmap string route) k :
  foldl (fun m rt => delete (route_id rt) m) m rs !! k =
  if decide (k ∈ route_id <$> rs) then None else m !! k.
Proof.
  revert m. induction rs as [|rt rs IH]; intros m; [done|]. cbn [foldl fmap list_fmap].
  rewrite IH. repeat case_decide; try done; [set_solver| |].
  - destruct (decide (k = route_id rt)) as [->|]; [by rewrite lookup_delete_eq|set_solver].
  - rewrite lookup_delete_ne; [done|]. set_solver.
Qed.

Definition reaped (r : Router) (now : Z) (rt : route) : bool := expired r now rt || idled r now rt.

(** The routes a sweep closes. *)
Definition reapedRoutes (r : Router) (now : Z) : list route :=
  (map_to_list (filter (fun kv => reaped r now kv.2 = true) (routes r))).*2.

Lemma elem_of_reapedRoutes r now rt :
  rt ∈ reapedRoutes r now ↔ ∃ k, routes r !! k = Some rt ∧ reaped r now rt = true.
Proof.
  unfold reapedRoutes. rewrite list_elem_of_fmap. split.
  - intros ([k rt'] & -> & Hin). apply elem_of_map_to_list, map_lookup_filter_Some in Hin. eauto.
  - intros (k & Hk & Hr). exists (k, rt). split; [done|].
    by apply elem_of_map_to_list, map_lookup_filter_Some.
Qed.

(** Every route of the table is stored under its own identifier. *)
Definition keyed (r : Router) : Prop := map_Forall (fun k rt => route_id rt = k) (routes r).

Lemma sweep_counts (f : route → bool) rs : ∀ s res,
  foldl (fun '(s, res) rt => (closeRoute s rt,
           if f rt then mkSweepResult (IdleClosed res) (ExpiredClosed res + 1)
           else mkSweepResult (IdleClosed res + 1) (ExpiredClosed res))) (s, res) rs =
  (foldl closeRoute s rs,
   mkSweepResult (IdleClosed res + len (filter (fun rt => f rt = false) rs))
                 (ExpiredClosed res + len (filter (fun rt => f rt = true) rs))).
Proof.
  induction rs as [|rt rs IH]; intros s res; simpl.
  - destruct res. unfold len. simpl. by rewrite !Z.add_0_r.
  - rewrite IH, !filter_cons. destruct (f rt); repeat case_decide; try done; simpl;
      rewrite ?len_cons; f_equal; f_equal; lia.
Qed.

Lemma Sweep_eq s now : stopped (router s) = false →
  Sweep s now =
  (foldl closeRoute (s <| router ::= fun r => r <| routes ::= fun m =>
     foldl (fun m rt => delete (route_id rt) m) m (reapedRoutes (router s) now) |> |>)
     (reapedRoutes (router s) now),
   mkSweepResult
     (len (filter (fun rt => expired (router s) now rt = false) (reapedRoutes (router s) now)))
     (len (filter (fun rt => expired (router s) now rt = true) (reapedRoutes (router s) now)))).
Proof. intros Hs. unfold Sweep. rewrite Hs. apply sweep_counts. Qed.

(** A sweep removes exactly the routes that have outlived the maximum
    lifetime or been silent for the idle timeout, closes both peers of each, and
    touches no other route or peer. *)
Theorem Sweep_spec s now s' res :
  stopped (router s) = false → keyed (router s) → Sweep s now = (s', res) →
  (∀ k rt, routes (router s') !! k = Some rt ↔
     routes (router s) !! k = Some rt ∧ reaped (router s) now rt = false) ∧
  (∀ n, n ∈ closedPeers s' ↔ n ∈ closedPeers s ∨
     ∃ k rt, routes (router s) !! k = Some rt ∧ reaped (router s) now rt = true ∧ n ∈ route_ids rt) ∧
  delivered s' = delivered s ∧
  IdleClosed res + ExpiredClosed res = len (reapedRoutes (router s) now).
Proof.
  intros Hs Hkey HS. rewrite Sweep_eq in HS by done. injection HS as <- <-.
  set (rs := reapedRoutes (router s) now).
  match goal with |- context [foldl closeRoute ?x rs] =>
    destruct (closeRoutes_spec rs x) as (-> & -> & ->) end. simpl.
  split_and!; [| |done|].
  - intros k rt. rewrite delete_routes. case_decide as Hd.
    + split; [done|]. intros [Hk Hr]. apply list_elem_of_fmap in Hd as (rt' & -> & Hin).
      apply elem_of_reapedRoutes in Hin as (k' & Hk' & Hr').
      rewrite (Hkey _ _ Hk') in Hk. congruence.
    + split; [|tauto]. intros Hk. split; [done|]. destruct (reaped _ _ rt) eqn:Hr; [|done].
      exfalso. apply Hd, list_elem_of_fmap. exists rt. split; [by rewrite (Hkey _ _ Hk)|].
      apply elem_of_reapedRoutes. eauto.
  - intros n. rewrite elem_of_union, elem_of_union_list. split.
    + intros [(X & (rt & -> & Hin)%list_elem_of_fmap & Hn)|]; [|by left].
      right. apply elem_of_reapedRoutes in Hin as (k & ? & ?). eauto.
    + intros [|(k & rt & ? & ? & ?)]; [by right|]. left. exists (route_ids rt). split; [|done].
      apply list_elem_of_fmap. exists rt. split; [done|]. apply elem_of_reapedRoutes. eauto.
  - clear. induction rs as [|rt rs IH]; [done|]. rewrite !filter_cons.
    destruct (expired _ _ rt); repeat case_decide; try done; rewrite ?len_cons; lia.
Qed.

(** ** Runs *)

Inductive RelayOp :=
  | OpJoin (now : Z) (n : nat)
  | OpLeave (n : nat)
  | OpSweep (now : Z)
  | OpStop
  | OpForward (now : Z) (n : nat) (plaintext : bytes) (writeFails : bool).

Section Runs.
Variable conn : nat → Ticket.

Definition peer_of (n : nat) : Peer := newWebSocketPeer n (conn n).
Definition route_of (n : nat) : string := string_of_bytes (RouteId (wire (conn n))).
Definition handle_of (n : nat) : Route :=
  mkRouteHandle (route_of n) (Ticket_Endpoint (wire (conn n))) (peer_of n).

Definition relay_step (s : Relay) (op : RelayOp) : Relay :=
  match op with
  | OpJoin now n => (Join s now (conn n) (peer_of n)).1
  | OpLeave n => Leave s (peer_of n)
  | OpSweep now => (Sweep s now).1
  | OpStop => Stop s
  | OpForward now n data fails => (Forward s now (handle_of n) data fails).1
  end.

(** A connection joins before anything closed it. *)
Definition relay_op_ok (s : Relay) (op : RelayOp) : Prop :=
  match op with OpJoin _ n => n ∉ closedPeers s | _ => True end.

Inductive relay_reachable (cfg : RouterConfig) : Relay → Prop :=
  | relay_init : relay_reachable cfg (mkRelay (NewRouterWithConfig cfg) ∅ [])
  | relay_next s op : relay_reachable cfg s → relay_op_ok s op →
      relay_reachable cfg (relay_step s op).

(** ** The invariant *)

(** An occupied slot holds an open connection whose ticket names this route and
    this endpoint. *)
Definition slot_ok (closed : gset nat) (k : string) (e : RelayEndpoint) (p : option Peer) : Prop :=
  ∀ q, p = Some q → ∃ n, q = peer_of n ∧ route_of n = k ∧
    Ticket_Endpoint (wire (conn n)) = e ∧ n ∉ closed.

Record route_ok (closed : gset nat) (k : string) (rt : route) : Prop := mkRouteOk {
  r_id : route_id rt = k;
  r_cap : 2 <= connectionCap rt;
  r_agent : slot_ok closed k RELAY_ENDPOINT_AGENT (agent rt);
  r_client : slot_ok closed k RELAY_ENDPOINT_CLIENT (client rt);
}.

Definition opposite (a b : RelayEndpoint) : Prop :=
  (a = RELAY_ENDPOINT_AGENT ∧ b = RELAY_ENDPOINT_CLIENT) ∨
  (a = RELAY_ENDPOINT_CLIENT ∧ b = RELAY_ENDPOINT_AGENT).

(** A delivered message went from one end of a route to the other. *)
Definition delivery_ok (d : Peer * Peer * bytes) : Prop :=
  ∃ n m, d.1.1 = peer_of n ∧ d.1.2 = peer_of m ∧ route_of n = route_of m ∧
    opposite (Ticket_Endpoint (wire (conn n))) (Ticket_Endpoint (wire (conn m))).

Record relay_inv (s : Relay) : Prop := mkRelayInv {
  i_routes : map_Forall (route_ok (closedPeers s)) (routes (router s));
  i_stopped : stopped (router s) = true → routes (router s) = ∅;
  i_delivered : Forall delivery_ok (delivered s);
}.

Lemma slot_ok_None c k e : slot_ok c k e None.
Proof. by intros q. Qed.
Hint Resolve slot_ok_None : vb.

(** Closing connections outside a route leaves it well formed. *)
Lemma slot_ok_close c c' k e p :
  slot_ok c k e p → slot_ids p ## c' → slot_ok (c' ∪ c) k e p.
Proof.
  intros Hs Hd q ->. destruct (Hs q eq_refl) as (n & -> & ? & ? & ?). exists n. set_solver.
Qed.

Lemma route_ok_close c c' k rt : route_ok c k rt → route_ids rt ## c' → route_ok (c' ∪ c) k rt.
Proof.
  unfold route_ids. intros [] Hd. split; try done; apply slot_ok_close; set_solver.
Qed.

(** The connections of two routes are different. *)
Lemma route_ids_owner c k rt n : route_ok c k rt → n ∈ route_ids rt →
  route_of n = k ∧ (Ticket_Endpoint (wire (conn n)) = RELAY_ENDPOINT_AGENT ∧ agent rt = Some (peer_of n) ∨
                    Ticket_Endpoint (wire (conn n)) = RELAY_ENDPOINT_CLIENT ∧ client rt = Some (peer_of n)).
Proof.
  unfold route_ids, slot_ids. intros [_ _ Ha Hc] [Hn|Hn]%elem_of_union.
  - destruct (agent rt) as [q|] eqn:E; [|set_solver]. apply elem_of_singleton in Hn as ->.
    destruct (Ha q eq_refl) as (m & -> & ? & ? & _). simpl. auto.
  - destruct (client rt) as [q|] eqn:E; [|set_solver]. apply elem_of_singleton in Hn as ->.
    destruct (Hc q eq_refl) as (m & -> & ? & ? & _). simpl. auto.
Qed.

Lemma route_ids_disjoint c k k' rt rt' :
  route_ok c k rt → route_ok c k' rt' → k ≠ k' → route_ids rt ## route_ids rt'.
Proof.
  intros H1 H2 Hne n Hn Hn'. apply (route_ids_owner _ _ _ _ H1) in Hn as [? _].
  apply (route_ids_owner _ _ _ _ H2) in Hn' as [? _]. congruence.
Qed.

Lemma keyed_inv s : relay_inv s → keyed (router s).
Proof. intros [Hr _ _] k rt Hk. by apply Hr in Hk as []. Qed.

(** ** The operations preserve it *)

Lemma insert_inv s k rt :
  relay_inv s → stopped (router s) = false → route_ok (closedPeers s) k rt →
  relay_inv (s <| router ::= fun r => r <| routes ::= insert k rt |> |>).
Proof.
  intros [Hr Hs Hd] Hst Hok. split; simpl; [|congruence|done]. by apply map_Forall_insert_2.
Qed.

Lemma Join_inv s now n :
  relay_inv s → n ∉ closedPeers s → relay_inv (Join s now (conn n) (peer_of n)).1.
Proof.
  intros Hi Hn. unfold Join. destruct (stopped (router s)) eqn:Hst; [done|]. fold (route_of n).
  set (rt := match routes (router s) !! route_of n with Some rt => rt | None => _ end).
  assert (route_ok (closedPeers s) (route_of n) rt) as Hrt.
  { subst rt. destruct (routes (router s) !! route_of n) as [rt|] eqn:E; [by apply Hi in E|].
    split; simpl; auto with vb. case_match; lia. }
  repeat case_match; simpl; try (by apply insert_inv);
    (apply insert_inv; [done|done|]); destruct Hrt; split; try done;
    intros q [= <-]; exists n; done.
Qed.

(** Removing a route and closing its peers, or others outside every route. *)
Lemma remove_inv s k rt c' :
  relay_inv s → routes (router s) !! k = Some rt →
  (∀ n, n ∈ c' → n ∈ route_ids rt ∨
     ∀ k' rt', k' ≠ k → routes (router s) !! k' = Some rt' → n ∉ route_ids rt') →
  relay_inv (mkRelay ((router s) <| routes ::= delete k |>) (c' ∪ closedPeers s) (delivered s)).
Proof.
  intros [Hr Hs Hd] Hk Hc. split; simpl; [| |done].
  - intros k' rt' [Hne Hk']%lookup_delete_Some. apply route_ok_close; [by apply Hr|].
    intros n Hn Hn'. destruct (Hc n Hn') as [Hin|Hout]; [|by eapply Hout].
    eapply (route_ids_disjoint _ k k'); eauto.
  - intros Hst. by rewrite (Hs Hst) in Hk.
Qed.

Lemma Leave_inv s n : validEndpoint (Ticket_Endpoint (wire (conn n))) = true →
  relay_inv s → relay_inv (Leave s (peer_of n)).
Proof.
  intros Hv Hi. unfold Leave, peer_of, newWebSocketPeer. simpl. fold (route_of n).
  destruct (routes (router s) !! route_of n) as [rt|] eqn:Hk; [|done].
  assert (∀ o, (∀ q, o = Some q → peer_id q ∈ route_ids rt) →
    relay_inv (closeSlot (Peer_Close (s <| router ::= fun r => r <| routes ::= delete (route_of n) |> |>)
      (peer_of n)) o)) as Hrem.
  { intros o Ho. replace (closeSlot _ o) with
      (mkRelay ((router s) <| routes ::= delete (route_of n) |>)
         ((slot_ids o ∪ {[n]}) ∪ closedPeers s) (delivered s)).
    2:{ destruct o; unfold closeSlot, Peer_Close; simpl; f_equal; set_solver. }
    apply (remove_inv _ _ rt); [done|done|]. intros m [Hm|Hm]%elem_of_union.
    - left. destruct o as [q|]; simpl in Hm; [|set_solver]. apply elem_of_singleton in Hm as ->. auto.
    - right. apply elem_of_singleton in Hm as ->. intros k' rt' Hne Hk' Hin.
      apply (route_ids_owner (closedPeers s) k') in Hin as [? _]; [done|]. by apply Hi. }
  unfold route_ids in Hrem.
  destruct (Ticket_Endpoint _); try done; simpl.
  - apply Hrem. intros q Hq. rewrite Hq. set_solver.
  - replace (match agent rt with Some _ | _ => true end) with true by (by destruct (agent rt)).
    apply Hrem. intros q Hq. rewrite Hq. set_solver.
Qed.

(** Leaving closes the peer anyway. *)
Lemma Leave_closed s p rt :
  routes (router s) !! string_of_bytes (peer_routeID p) = Some rt →
  validEndpoint (peer_endpoint p) = true → Leave (Peer_Close s p) p = Leave s p.
Proof.
  intros Hk Hv. unfold Leave. simpl. rewrite Hk.
  destruct (peer_endpoint p); try done; simpl; [|destruct (agent rt); simpl]; destruct (client rt);
    unfold closeSlot, Peer_Close; simpl; f_equal; set_solver.
Qed.

Lemma Sweep_inv s now : relay_inv s → relay_inv (Sweep s now).1.
Proof.
  intros Hi. destruct (stopped (router s)) eqn:Hst; [unfold Sweep; by rewrite Hst|].
  pose proof (Sweep_eq s now Hst) as E. destruct (Sweep s now) as [s' res] eqn:HS.
  destruct (Sweep_spec _ _ _ _ Hst (keyed_inv _ Hi) HS) as (Hroutes & Hclosed & Hdel & _).
  assert (stopped (router s') = false) as Hst'.
  { injection E as -> _. match goal with |- context [foldl closeRoute ?x ?rs] =>
      destruct (closeRoutes_spec rs x) as (-> & _) end. done. }
  simpl. split; [|congruence|rewrite Hdel; apply Hi].
  intros k rt Hk. apply Hroutes in Hk as [Hk Hr]. pose proof (i_routes _ Hi _ _ Hk) as Hok.
  assert (∀ n, n ∈ route_ids rt → n ∉ closedPeers s') as Hopen.
  { intros n Hn [Hc|(k' & rt' & Hk' & Hr' & Hn')]%Hclosed.
    - apply (route_ids_owner _ _ _ _ Hok) in Hn as [_ [[_ E1]|[_ E1]]].
      + destruct (r_agent _ _ _ Hok _ E1) as (m & E2 & _ & _ & Hm).
        by apply (f_equal peer_id) in E2; simpl in E2; subst.
      + destruct (r_client _ _ _ Hok _ E1) as (m & E2 & _ & _ & Hm).
        by apply (f_equal peer_id) in E2; simpl in E2; subst.
    - destruct (decide (k = k')) as [->|Hne]; [congruence|].
      eapply (route_ids_disjoint _ k k'); eauto. by apply Hi. }
  unfold route_ids in Hopen. destruct Hok as [Hid Hcap Ha Hc]. split; [done|done| |].
  - intros q Hq. destruct (Ha q Hq) as (n & -> & ? & ? & _). exists n. split_and!; try done.
    apply Hopen. rewrite Hq. simpl. set_solver.
  - intros q Hq. destruct (Hc q Hq) as (n & -> & ? & ? & _). exists n. split_and!; try done.
    apply Hopen. rewrite Hq. simpl. set_solver.
Qed.

Lemma Stop_inv s : relay_inv s → relay_inv (Stop s).
Proof.
  intros Hi. unfold Stop. destruct (stopped (router s)); [done|].
  match goal with |- context [foldl closeRoute ?x ?rs] =>
    destruct (closeRoutes_spec rs x) as (E1 & E2 & E3) end.
  split; rewrite ?E1, ?E2; simpl; [apply map_Forall_empty|done|apply Hi].
Qed.

(** What a handle finds at the other end of its route. *)
Lemma otherOf_spec s n rt dest :
  relay_inv s → routes (router s) !! route_of n = Some rt → otherOf rt (peer_of n) = Some dest →
  ∃ m, dest = peer_of m ∧ route_of m = route_of n ∧ m ∉ closedPeers s ∧
    opposite (Ticket_Endpoint (wire (conn n))) (Ticket_Endpoint (wire (conn m))).
Proof.
  intros Hi Hk Ho. apply (i_routes _ Hi) in Hk as [_ _ Ha Hc]. unfold otherOf, opposite in *. simpl in Ho.
  destruct (Ticket_Endpoint (wire (conn n))); try done.
  - destruct (Hc _ Ho) as (m & -> & ? & ? & ?). exists m. split_and!; auto.
  - destruct (Ha _ Ho) as (m & -> & ? & ? & ?). exists m. split_and!; auto.
Qed.

Lemma opposite_valid a b : opposite a b → validEndpoint b = true.
Proof. by intros [[_ ->]|[_ ->]]. Qed.

Lemma touch_inv s k rt now :
  relay_inv s → routes (router s) !! k = Some rt →
  relay_inv (s <| router ::= fun r => r <| routes ::= insert k (rt <| lastActivity := now |>) |> |>).
Proof.
  intros Hi Hk. destruct (stopped (router s)) eqn:Hst.
  - by rewrite (i_stopped _ Hi Hst) in Hk.
  - apply insert_inv; [done|done|]. by apply (i_routes _ Hi) in Hk as [].
Qed.

Lemma Forward_inv s now n data fails :
  relay_inv s → relay_inv (Forward s now (handle_of n) data fails).1.
Proof.
  intros Hi. unfold Forward. simpl.
  destruct (routes (router s) !! route_of n) as [rt|] eqn:Hk; [|done].
  destruct (otherOf rt (peer_of n)) as [dest|] eqn:Ho; [|done].
  destruct (otherOf_spec _ _ _ _ Hi Hk Ho) as (m & -> & Hm & Hopen & Hopp).
  pose proof (touch_inv _ _ _ now Hi Hk) as Hi'.
  set (s' := s <| router ::= fun r => r <| routes ::= insert (route_of n) (rt <| lastActivity := now |>) |> |>) in *.
  unfold Peer_Forward.
  change (closedPeers s') with (closedPeers s). rewrite bool_decide_eq_false_2 by done.
  pose proof (opposite_valid _ _ Hopp) as Hv. destruct fails; simpl.
  - rewrite (Leave_closed s' _ (rt <| lastActivity := now |>)); [by apply Leave_inv| |done].
    simpl. rewrite <- Hm. apply lookup_insert_eq.
  - destruct Hi' as [H1 H2 H3]. split; [done|done|]. simpl. apply Forall_app. split; [apply Hi|].
    apply Forall_singleton. exists n, m. done.
Qed.

Lemma reachable_inv cfg s :
  (∀ n, validEndpoint (Ticket_Endpoint (wire (conn n))) = true) →
  relay_reachable cfg s → relay_inv s.
Proof.
  intros Hv. induction 1 as [|s op _ IH Hok].
  - split; simpl; [apply map_Forall_empty|done|constructor].
  - destruct op; simpl in *; auto using Join_inv, Leave_inv, Sweep_inv, Stop_inv, Forward_inv.
Qed.

(** Whatever connections join, leave, forward, stall, and whenever the
    table is swept or stopped: the route table holds only open connections, each
    in the slot its ticket names on the route its ticket names, and every message
    was delivered to the opposite endpoint of the sender's route. *)
Theorem relay_isolates_routes cfg s :
  (∀ n, validEndpoint (Ticket_Endpoint (wire (conn n))) = true) →
  relay_reachable cfg s → relay_inv s.
Proof. apply reachable_inv. Qed.

(** ** What an operation does *)

(** A connection joins exactly when the router runs and its slot of the
    route is free; it is then paired with whoever holds the other slot. *)
Theorem Join_spec cfg s now n :
  (∀ n, validEndpoint (Ticket_Endpoint (wire (conn n))) = true) →
  relay_reachable cfg s →
  let free rt := match Ticket_Endpoint (wire (conn n)) with
                 | RELAY_ENDPOINT_AGENT => agent rt = None
                 | _ => client rt = None end in
  match (Join s now (conn n) (peer_of n)).2 with
  | Ok (h, other) => stopped (router s) = false ∧ h = handle_of n ∧
      match routes (router s) !! route_of n with
      | Some rt => free rt ∧ other = otherOf rt (peer_of n)
      | None => other = None
      end
  | Err _ => stopped (router s) = true ∨
      ∃ rt, routes (router s) !! route_of n = Some rt ∧ ¬ free rt
  end.
Proof.
  intros Hv Hreach free. pose proof (reachable_inv _ _ Hv Hreach) as Hi.
  specialize (Hv n). unfold Join, free. fold (route_of n).
  destruct (stopped (router s)); [simpl; by left|].
  destruct (routes (router s) !! route_of n) as [rt|] eqn:Hk.
  - pose proof (r_cap _ _ _ (i_routes _ Hi _ _ Hk)) as Hcap. unfold occupied.
    unfold otherOf, handle_of, peer_of. simpl.
    destruct (Ticket_Endpoint (wire (conn n))); try done; destruct (agent rt) eqn:?, (client rt) eqn:?;
      (match goal with |- context [?a >=? ?b] => destruct (a >=? b) eqn:? end);
      simpl; try lia; try (split_and!; done); right; exists rt; split; congruence.
  - simpl. unfold occupied, otherOf, handle_of, peer_of. simpl.
    destruct (MaxConnections (wire (conn n)) <? 2) eqn:?;
      (match goal with |- context [?a >=? ?b] => destruct (a >=? b) eqn:? end); try lia;
      by destruct (Ticket_Endpoint (wire (conn n))).
Qed.

Lemma Leave_eq s n rt :
  validEndpoint (Ticket_Endpoint (wire (conn n))) = true →
  routes (router s) !! route_of n = Some rt →
  Leave s (peer_of n) =
    mkRelay ((router s) <| routes ::= delete (route_of n) |>)
      (slot_ids (otherOf rt (peer_of n)) ∪ {[n]} ∪ closedPeers s) (delivered s).
Proof.
  intros Hv Hk. unfold Leave, otherOf, peer_of, newWebSocketPeer. simpl. fold (route_of n). rewrite Hk.
  destruct (Ticket_Endpoint (wire (conn n))); try done; simpl; [|destruct (agent rt); simpl];
    try destruct (client rt); unfold closeSlot, Peer_Close; simpl; f_equal; set_solver.
Qed.

(** The slot of a connection's endpoint. *)
Definition slot_of (rt : route) (n : nat) : option Peer :=
  match Ticket_Endpoint (wire (conn n)) with
  | RELAY_ENDPOINT_AGENT => agent rt
  | RELAY_ENDPOINT_CLIENT => client rt
  | _ => None
  end.

Lemma route_ids_split rt n : validEndpoint (Ticket_Endpoint (wire (conn n))) = true →
  route_ids rt = slot_ids (slot_of rt n) ∪ slot_ids (otherOf rt (peer_of n)).
Proof.
  unfold route_ids, slot_of, otherOf. simpl. destruct (Ticket_Endpoint _); try done; set_solver.
Qed.

(** A forwarded message reaches the connection at the other end of the
    sender's route and nobody else; without a partner nothing is delivered and
    the sender stays connected; when the partner cannot take it, the route is
    dropped and every connection in it is closed. *)
Theorem Forward_spec cfg s now n data fails :
  (∀ n, validEndpoint (Ticket_Endpoint (wire (conn n))) = true) →
  relay_reachable cfg s →
  Forward s now (handle_of n) data fails =
    match routes (router s) !! route_of n with
    | None => (s, Err ErrRouteUnknown)
    | Some rt =>
        match otherOf rt (peer_of n) with
        | None => (s, Err ErrPeerMissing)
        | Some dest =>
            if fails then
              (mkRelay ((router s) <| routes ::= delete (route_of n) |>)
                 (route_ids rt ∪ closedPeers s) (delivered s), Err ErrPeerClosed)
            else
              (s <| router ::= fun r => r <| routes ::=
                      insert (route_of n) (rt <| lastActivity := now |>) |> |>
                 <| delivered ::= fun l => l ++ [(peer_of n, dest, data)] |>, Ok tt)
        end
    end.
Proof.
  intros Hv Hreach. pose proof (reachable_inv _ _ Hv Hreach) as Hi. unfold Forward. simpl.
  destruct (routes (router s) !! route_of n) as [rt|] eqn:Hk; [|done].
  destruct (otherOf rt (peer_of n)) as [dest|] eqn:Ho; [|done].
  destruct (otherOf_spec _ _ _ _ Hi Hk Ho) as (m & -> & Hm & Hopen & Hopp).
  unfold Peer_Forward. simpl. rewrite bool_decide_eq_false_2 by done. destruct fails; [|done].
  set (rt' := rt <| lastActivity := now |>).
  rewrite (Leave_closed _ _ rt'); [|simpl; rewrite <- Hm; apply lookup_insert_eq|by apply Hv].
  rewrite (Leave_eq _ m rt'); [|done|simpl; rewrite Hm; apply lookup_insert_eq]. simpl.
  f_equal. f_equal.
  - rewrite Hm. by rewrite delete_insert_eq.
  - rewrite (route_ids_split rt n) by done. rewrite Ho. simpl.
    replace (otherOf rt' (peer_of m)) with (slot_of rt n); [set_solver|].
    unfold slot_of, otherOf, rt'. simpl. by destruct Hopp as [[-> ->]|[-> ->]].
Qed.

(** A connection that leaves while it holds its slot takes its route down:
    the route is gone and both ends are closed.  A connection that no longer
    holds the slot, because the route was reaped and rebuilt by others, takes the
    new route down as well: the connection that now holds the slot is left open
    without a route, and its partner is closed. *)
Theorem Leave_spec cfg s n rt p :
  (∀ n, validEndpoint (Ticket_Endpoint (wire (conn n))) = true) →
  relay_reachable cfg s → routes (router s) !! route_of n = Some rt → slot_of rt n = Some p →
  let s' := Leave s (peer_of n) in
  router s' = (router s) <| routes ::= delete (route_of n) |> ∧ delivered s' = delivered s ∧
  if decide (p = peer_of n)
  then closedPeers s' = route_ids rt ∪ closedPeers s
  else peer_id p ∉ closedPeers s' ∧ n ∈ closedPeers s' ∧
       slot_ids (otherOf rt (peer_of n)) ⊆ closedPeers s'.
Proof.
  intros Hv Hreach Hk Hp s'. pose proof (reachable_inv _ _ Hv Hreach) as Hi. subst s'.
  rewrite (Leave_eq _ _ rt) by done. simpl. split_and!; [done|done|].
  case_decide as Hd; [subst p|].
  - rewrite (route_ids_split rt n), Hp by done. simpl. set_solver.
  - pose proof (i_routes _ Hi _ _ Hk) as [_ _ Ha Hc].
    assert (∃ m, p = peer_of m ∧ m ∉ closedPeers s ∧ m ≠ n ∧
      ∀ q, otherOf rt (peer_of n) = Some q → peer_id q ≠ m) as (m & -> & Hm & Hne & Hoth).
    { unfold slot_of, otherOf in *. simpl in *.
      destruct (Ticket_Endpoint (wire (conn n))) eqn:E; try done;
        [destruct (Ha _ Hp) as (m & -> & ? & Em & ?)|destruct (Hc _ Hp) as (m & -> & ? & Em & ?)];
        exists m; split_and!; try done; try congruence; intros q Hq;
        [destruct (Hc _ Hq) as (x & -> & _ & Ex & _)|destruct (Ha _ Hq) as (x & -> & _ & Ex & _)];
        simpl; intros ->; congruence. }
    split_and!; [|set_solver|set_solver]. simpl. intros Hin.
    apply elem_of_union in Hin as [[Hin|Hin]%elem_of_union|Hin]; [|set_solver|done].
    destruct (otherOf rt (peer_of n)) as [q|] eqn:Eq; simpl in Hin; [|set_solver].
    apply elem_of_singleton in Hin. by eapply Hoth.
Qed.

(** Stopping the router closes every connection it holds and empties the
    table; afterwards no connection joins, and a second stop does nothing. *)
Theorem Stop_spec cfg s :
  (∀ n, validEndpoint (Ticket_Endpoint (wire (conn n))) = true) →
  relay_reachable cfg s →
  routes (router (Stop s)) = ∅ ∧ stopped (router (Stop s)) = true ∧ Stop (Stop s) = Stop s ∧
  (∀ k rt, routes (router s) !! k = Some rt → route_ids rt ⊆ closedPeers (Stop s)) ∧
  (∀ now n, (Join (Stop s) now (conn n) (peer_of n)).2 = Err ErrRouterStopped).
Proof.
  intros Hv Hreach. pose proof (reachable_inv _ _ Hv Hreach) as Hi.
  assert (routes (router (Stop s)) = ∅ ∧ stopped (router (Stop s)) = true ∧
    (∀ k rt, routes (router s) !! k = Some rt → route_ids rt ⊆ closedPeers (Stop s))) as (H1 & H2 & H3).
  { unfold Stop. destruct (stopped (router s)) eqn:Hst.
    - pose proof (i_stopped _ Hi Hst) as He. split_and!; [done|done|]. intros k rt Hk.
      by rewrite He in Hk.
    - match goal with |- context [foldl closeRoute ?x ?rs] =>
        destruct (closeRoutes_spec rs x) as (-> & _ & ->) end. split_and!; [done|done|].
      intros k rt Hk n Hn. apply elem_of_union. left. apply elem_of_union_list.
      exists (route_ids rt). split; [|done]. apply list_elem_of_fmap. exists rt. split; [done|].
      apply list_elem_of_fmap. exists (k, rt). split; [done|]. by apply elem_of_map_to_list. }
  split_and!; try done; [unfold Stop at 1; by rewrite H2|].
  intros now n. unfold Join. by rewrite H2.
Qed.
End Runs.
