(* ===== verification/RelayServer.v ===== *)
(** * The relay's front door ([internal/relay/server.go])

    Admission of WebSocket connections and their accounting, the first frame
    that carries the ticket, the path from a connection to a joined route, the
    origin check of the upgrade, and shutdown.  The HTTP and WebSocket libraries
    enter through the outcomes of their calls. *)

From S2P Require Import Prelude.
From S2P Require Import Sha256.
From S2P Require Import Ticket.
From S2P Require Import Router.

Definition maxTicketBytes : Z := 8 * 1024.
Definition defaultMaxConnections : Z := 4096.
Definition BinaryMessage : Z := 2.

(** ** Construction and shutdown *)

(** [Verifier] and [Router] are nil or present. *)
Record Config := mkConfig {
  Config_Verifier : option Verifier;
  Config_Router : option Router;
  Config_RouterConfig : RouterConfig;
  Config_MaxConnections : Z;
}.

#[global] Instance Config_eta : Eta Config := fun c =>
  mkConfig (Config_Verifier c) (Config_Router c) (Config_RouterConfig c) (Config_MaxConnections c).

Record Server := mkServer {
  server_verifier : Verifier;
  server_relay : Relay;
  conns : Z;
  stopping : bool;
  activeConns : Z;
  maxConns : Z;
  ownsRouter : bool;
}.

#[global] Instance Server_eta : Eta Server := fun s =>
  mkServer (server_verifier s) (server_relay s) (conns s) (stopping s) (activeConns s) (maxConns s)
    (ownsRouter s).

(** The default router is stored in the configuration before the field is
    compared with nil. *)
Definition New (config : Config) : result Server :=
  match Config_Verifier config with
  | None => Err (ErrorString "relay server requires a Verifier")
  | Some v =>
      let r := match Config_Router config with
               | Some r => r
               | None => NewRouterWithConfig (Config_RouterConfig config)
               end in
      let config := config <| Config_Router := Some r |> in
      let max := if Config_MaxConnections config =? 0 then defaultMaxConnections
                 else Config_MaxConnections config in
      Ok {| server_verifier := v;
            server_relay := mkRelay r ∅ [];
            conns := 0;
            stopping := false;
            activeConns := 0;
            maxConns := max;
            ownsRouter := match Config_Router config with None => true | Some _ => false end |}
  end.

(** [Shutdown], after the connections have drained. *)
Definition Shutdown (s : Server) : Server :=
  if stopping s then s
  else
    let s := s <| stopping := true |> in
    if ownsRouter s then s <| server_relay ::= Stop |> else s.

(** ** Admission *)

Inductive Admission :=
  | ShuttingDown
  | NotWebSocket
  | AtCapacity
  | UpgradeFailed
  | Accepted.

(** [ServeHTTP]; the flags are the outcomes of [IsWebSocketUpgrade] and
    [Upgrade]. *)
Definition ServeHTTP (s : Server) (isUpgrade upgradeOk : bool) : Server * Admission :=
  if stopping s then (s, ShuttingDown)
  else
    let s := s <| conns ::= fun n => n + 1 |> in
    if negb isUpgrade then (s <| conns ::= fun n => n - 1 |>, NotWebSocket)
    else
      let counted := maxConns s >? 0 in
      let s := if counted then s <| activeConns ::= fun n => i64 (n + 1) |> else s in
      if counted && (activeConns s >? maxConns s) then
        (s <| conns ::= fun n => n - 1 |> <| activeConns ::= fun n => i64 (n - 1) |>, AtCapacity)
      else if negb upgradeOk then
        (s <| conns ::= fun n => n - 1 |> <| activeConns ::= fun n => i64 (n - 1) |>, UpgradeFailed)
      else (s, Accepted).

(** The deferred calls of [handleConnection]. *)
Definition connectionDone (s : Server) : Server :=
  s <| activeConns ::= fun n => i64 (n - 1) |> <| conns ::= fun n => n - 1 |>.

(** ** The ticket frame *)

Class TicketWire := { ticket_Unmarshal : bytes → result RelayTicket }.

Section Frames.
Context {crypto : TicketCrypto} {tw : TicketWire}.

Definition Uint32 (b : bytes) : Z :=
  foldl (fun n x => n * 256 + Z.of_N (Byte.to_N x)) 0 (take 4 b).

(** [readTicket] on the first frame: its type and payload, or the read error. *)
Definition readTicket (frame : result (Z * bytes)) : result RelayTicket :=
  match frame with
  | Err e => Err (ErrorWrap "read first frame" e)
  | Ok (messageType, payload) =>
      if negb (messageType =? BinaryMessage) then
        Err (ErrorString ("first frame must be binary, got " ++ pretty messageType))
      else if len payload <? 4 then
        Err (ErrorString "first frame too short for ticket length prefix")
      else if len payload >? maxTicketBytes + 4 then
        Err (ErrorString "first frame exceeds 8192 bytes")
      else
        let length := Uint32 payload in
        if length >? len payload - 4 then
          Err (ErrorString "ticket length prefix larger than payload")
        else
          match ticket_Unmarshal (take (Z.to_nat length) (drop 4 payload)) with
          | Err e => Err (ErrorWrap "decode ticket" e)
          | Ok ticket => Ok ticket
          end
  end.

(** ** From a connection to a route *)

Inductive ConnectionOutcome :=
  | InvalidTicket
  | TicketRejected
  | JoinRejected (e : error)
  | Joined (h : Route) (other : option Peer).

(** [handleConnection] up to the peer's read loop; [id] is the identity of the
    connection. *)
Definition handleConnection (s : Server) (id : nat) (frame : result (Z * bytes))
    (now replayNow joinNow : Z) : Server * ConnectionOutcome :=
  match readTicket frame with
  | Err _ => (s, InvalidTicket)
  | Ok ticket =>
      match Verify (server_verifier s) now replayNow ticket with
      | (v, Err _) => (s <| server_verifier := v |>, TicketRejected)
      | (v, Ok verified) =>
          let s := s <| server_verifier := v |> in
          match Join (server_relay s) joinNow verified (newWebSocketPeer id verified) with
          | (r, Err e) => (s <| server_relay := r |>, JoinRejected e)
          | (r, Ok (joined, other)) => (s <| server_relay := r |>, Joined joined other)
          end
      end
  end.
End Frames.

(** ** Origins *)

(** A Go slice expression [s[n:]]: it panics when [n] exceeds the length. *)
Inductive parsed := Host (h : string) | BadOrigin (e : error) | Panic.

Definition string_drop (n : nat) (s : string) : option string :=
  if (n <=? String.length s)%nat then Some (String.substring n (String.length s - n) s) else None.

Definition parseOrigin (origin : string) : parsed :=
  if slen origin <? 8 then BadOrigin (ErrorString "origin too short")
  else
    let scheme := String.substring 0 5 origin in
    let rest := match string_drop 5 origin with Some r => r | None => EmptyString end in
    let rest := if bool_decide (scheme = "https"%string) then Some (string_drop 3 rest)
                else if bool_decide (scheme = "http:"%string) then Some (string_drop 4 rest)
                else None in
    match rest with
    | None => BadOrigin (ErrorString "unsupported origin scheme")
    | Some None => Panic
    | Some (Some rest) =>
        if slen rest =? 0 then BadOrigin (ErrorString "origin missing host") else Host rest
    end.

(** [buildOriginChecker]: [None] is the nil list; the request is its [Origin]
    header and its host.  The result is [None] when the check panics. *)
Definition buildOriginChecker (allowed : option (list string)) (origin host : string) : option bool :=
  match allowed with
  | None =>
      if bool_decide (origin = EmptyString) then Some true
      else if bool_decide (host = EmptyString) then Some false
      else match parseOrigin origin with
           | Panic => None
           | BadOrigin _ => Some false
           | Host h => Some (bool_decide (h = host))
           end
  | Some [] => Some false
  | Some l => Some (bool_decide (origin ∈ l))
  end.

(** ** Accounting *)

Inductive ServerEvent :=
  | EvRequest (isUpgrade upgradeOk : bool)
  | EvDone.

(** The server with the numbers of connections being served and of those that
    ended; a connection ends once. *)
Record Served := mkServed { srv : Server; open_conns : Z; ended : Z; failed_upgrades : Z }.

Inductive served_step : Served → Served → Prop :=
  | step_request x u ok s' a :
      ServeHTTP (srv x) u ok = (s', a) →
      served_step x
        (mkServed s' (open_conns x + match a with Accepted => 1 | _ => 0 end) (ended x)
           (failed_upgrades x + match a with UpgradeFailed => 1 | _ => 0 end))
  | step_done x : 0 < open_conns x →
      served_step x (mkServed (connectionDone (srv x)) (open_conns x - 1) (ended x + 1) (failed_upgrades x)).

(** What the counter of active connections counts. *)
Record served_inv (x : Served) : Prop := mkServedInv {
  v_open : 0 <= open_conns x;
  v_ended : 0 <= ended x ∧ 0 <= failed_upgrades x;
  v_conns : conns (srv x) = open_conns x;
  v_active : maxConns (srv x) > 0 → activeConns (srv x) = open_conns x ∧
               open_conns x <= maxConns (srv x);
  v_uncapped : maxConns (srv x) <= 0 →
               activeConns (srv x) = i64 (- (ended x + failed_upgrades x));
}.

Lemma i64_id z : - 2 ^ 63 <= z < 2 ^ 63 → i64 z = z.
Proof. intros Hz. unfold i64. rewrite Z.mod_small; lia. Qed.

Lemma i64_pred z : i64 (i64 z - 1) = i64 (z - 1).
Proof.
  unfold i64. f_equal.
  replace ((z + 2 ^ 63) `mod` 2 ^ 64 - 2 ^ 63 - 1 + 2 ^ 63)
    with ((z + 2 ^ 63) `mod` 2 ^ 64 - 1) by lia.
  rewrite Zminus_mod_idemp_l. f_equal. lia.
Qed.

Lemma served_step_inv x x' :
  maxConns (srv x) < 2 ^ 63 - 1 → served_step x x' → served_inv x →
  served_inv x' ∧ maxConns (srv x') = maxConns (srv x).
Proof.
  intros Hmax Hs [Ho He Hc Ha Hu]. inv Hs.
  - unfold ServeHTTP in *. destruct (maxConns (srv x) >? 0) eqn:Hpos;
      repeat (case_match; simplify_eq/=); split; try done; constructor; simpl; try lia;
      rewrite ?Z.add_0_r; try done; intros Hm; try lia;
      try (destruct (Ha Hm) as [Ha1 Ha2]; rewrite ?Ha1 in *;
           rewrite ?(i64_id (open_conns x + 1)) in * by lia; rewrite ?i64_id by lia; lia);
      try (rewrite (Hu Hm), i64_pred; f_equal; lia); auto.
  - split; [|done]. constructor; simpl; try lia.
    + intros Hm. destruct (Ha Hm) as [Ha1 Ha2]. rewrite Ha1, i64_id by lia. lia.
    + intros Hm. rewrite (Hu Hm), i64_pred. f_equal. lia.
Qed.

(** With a connection cap the counter is exactly the number of connections
    being served and never exceeds the cap, over any sequence of upgrades,
    rejections and disconnections.  With the cap disabled, connections are not
    counted when they open but are when they end: the counter is minus the number
    of connections that have ended or failed to upgrade. *)
Theorem active_connections_counted config s x :
  New config = Ok s → Config_MaxConnections config < 2 ^ 63 - 1 →
  rtc served_step (mkServed s 0 0 0) x →
  0 <= open_conns x ∧
  (maxConns s > 0 → activeConns (srv x) = open_conns x ∧ open_conns x <= maxConns s) ∧
  (maxConns s <= 0 → activeConns (srv x) = i64 (- (ended x + failed_upgrades x))).
Proof.
  intros HN Hmax Hrtc.
  assert (served_inv (mkServed s 0 0 0) ∧ maxConns s < 2 ^ 63 - 1) as [Hi Hm].
  { unfold New in HN. go_cases; (split; [constructor|]); simpl; unfold defaultMaxConnections; try lia;
      done. }
  assert (served_inv x ∧ maxConns (srv x) = maxConns s) as [Hx Hmx].
  { clear HN Hmax. revert Hi Hm. remember (mkServed s 0 0 0) as y eqn:Hy.
    assert (maxConns s = maxConns (srv y)) as -> by (by subst). clear Hy.
    induction Hrtc as [y|y z x Hstep _ IH]; intros Hi Hm; [done|].
    destruct (served_step_inv _ _ Hm Hstep Hi) as [Hi' Hm']. rewrite <- Hm' in *. auto. }
  destruct Hx. rewrite <- Hmx. auto.
Qed.

(** A server never owns its router, not even one it built itself, so
    shutting it down leaves the routes and their peers as they are. *)
Theorem shutdown_never_stops_router config s :
  New config = Ok s →
  ownsRouter s = false ∧
  ∀ r, server_relay (Shutdown (s <| server_relay := r |>)) = r.
Proof.
  intros HN. unfold New in HN. go_cases; split; done.
Qed.

(** ** Admission to a route *)

Section Admission.
Context {crypto : TicketCrypto} {tw : TicketWire}.

(** A connection reaches a route only with a ticket its first frame
    carries and the verifier accepts: well formed, unexpired, signed by a
    configured issuer, authorized and never seen before; it then sits in the slot
    its ticket names. *)
Theorem connection_joins_with_ticket s id frame now replayNow joinNow s' h other :
  handleConnection s id frame now replayNow joinNow = (s', Joined h other) →
  ∃ w t, readTicket frame = Ok w ∧ wire t = w ∧ well_formed w ∧
    (∃ e, ExpiresAt w = Some e ∧ now <= e <= now + ticketReplayTTL) ∧
    signed_by (server_verifier s) w (issuer t) ∧ authorized (server_verifier s) w ∧
    ¬ remembered (server_verifier s) replayNow (TicketId w) ∧
    remembered (server_verifier s') replayNow (TicketId w) ∧
    handle_id h = string_of_bytes (RouteId w) ∧ owner h = newWebSocketPeer id t ∧
    ∃ rt, routes (router (server_relay s')) !! handle_id h = Some rt ∧
      match Ticket_Endpoint w with
      | RELAY_ENDPOINT_AGENT => agent rt = Some (owner h)
      | _ => client rt = Some (owner h)
      end.
Proof.
  unfold handleConnection. intros H. destruct (readTicket frame) as [w|] eqn:HR; [|done].
  destruct (Verify _ _ _ _) as [v [t|e]] eqn:HV; [|done].
  destruct (Join _ _ _ _) as [r [[j o]|e]] eqn:HJ; [|done]. injection H as <- <- <-.
  pose proof (Verify_Ok _ _ _ _ _ _ HV) as (Hw & Ht & He & _ & Hrange & Hr & Hs & Ha & Hn & Hv).
  exists w, t. simpl in HJ. unfold Join in HJ. rewrite Ht in HJ.
  assert (remembered v replayNow (TicketId w)) as Hrem.
  { exists replayNow. rewrite Hv. simpl. rewrite lookup_insert_eq. split; [done|].
    unfold ticketReplayTTL, Minute, Second. lia. }
  destruct (wf_endpoint _ Hw) as [E|E]; rewrite E in *; go_cases; split_and!; simpl; eauto;
    eexists; split; try (apply lookup_insert_eq); done.
Qed.
End Admission.

(** ** Origins *)

Lemma substring_all s : String.substring 0 (String.length s) s = s.
Proof.
  induction s as [|a s IH]; [done|].
  change (String a (String.substring 0 (String.length s) s) = String a s). by f_equal.
Qed.

Lemma string_drop_app s t : string_drop (String.length s) (s ++ t) = Some t.
Proof.
  unfold string_drop. assert (String.length (s ++ t) = String.length s + String.length t)%nat as ->.
  { induction s as [|a s IH]; [done|]. simpl. by f_equal. }
  destruct (Nat.leb_spec (String.length s) (String.length s + String.length t)); [|lia].
  replace (String.length s + String.length t - String.length s)%nat with (String.length t) by lia.
  f_equal. induction s as [|a s IH]; [apply substring_all|]. apply IH. lia.
Qed.

Lemma slen_nonzero a s : (slen (String a s) =? 0) = false.
Proof. apply Z.eqb_neq. unfold slen. simpl. lia. Qed.

(** The same-origin check compares the host of an [https] origin with the
    host of the request.  For an [http] origin it drops the first two characters
    of the host: such an origin never matches its own host, and a one-character
    host makes the check panic. *)
Theorem origin_check a b rest host :
  host ≠ EmptyString →
  buildOriginChecker None ("https://" ++ String a rest) host =
    Some (bool_decide (String a rest = host)) ∧
  buildOriginChecker None ("http://" ++ String a (String b rest)) (String a (String b rest)) =
    Some false ∧
  buildOriginChecker None ("http://" ++ String a EmptyString) host = None.
Proof.
  intros Hh. unfold buildOriginChecker.
  assert (∀ t : string, (slen ("https://" ++ t) <? 8) = false) as L1.
  { intros t. apply Z.ltb_ge. unfold slen. simpl. lia. }
  assert (∀ c t, (slen ("http://" ++ String c t) <? 8) = false) as L2.
  { intros c t. apply Z.ltb_ge. unfold slen. simpl. lia. }
  rewrite !(bool_decide_eq_false_2 (host = EmptyString)) by done.
  split_and!.
  - rewrite bool_decide_eq_false_2 by done. unfold parseOrigin. rewrite L1.
    change (String.substring 0 5 ("https://" ++ String a rest)) with "https"%string.
    change ("https://" ++ String a rest)%string with ("https" ++ ("://" ++ String a rest))%string.
    rewrite (string_drop_app "https"). cbv zeta iota beta.
    rewrite (bool_decide_eq_true_2 ("https"%string = "https"%string)) by done.
    rewrite (string_drop_app "://"), slen_nonzero. done.
  - rewrite !bool_decide_eq_false_2 by done. unfold parseOrigin. rewrite L2.
    change (String.substring 0 5 ("http://" ++ String a (String b rest))) with "http:"%string.
    change ("http://" ++ String a (String b rest))%string
      with ("http:" ++ (String "/" (String "/" (String a (String b EmptyString))) ++ rest))%string.
    rewrite (string_drop_app "http:"). cbv zeta iota beta.
    rewrite (bool_decide_eq_false_2 ("http:"%string = "https"%string)) by done.
    rewrite (bool_decide_eq_true_2 ("http:"%string = "http:"%string)) by done.
    rewrite (string_drop_app (String "/" (String "/" (String a (String b EmptyString))))).
    destruct (slen rest =? 0); [done|]. rewrite bool_decide_eq_false_2; [done|].
    intros E. apply (f_equal String.length) in E. simpl in E. lia.
  - reflexivity.
Qed.
