(* ===== verification/RelayClient.v ===== *)
(** * The Agent's relay client ([internal/relayclient])

    Minting the two tickets of a route, the frame that presents a ticket, the
    stream over the relay's WebSocket with its read pump, and the bridges.  The
    WebSocket connection enters through the outcomes of its calls; the protobuf encoding of a
    ticket is the class [TicketEncoder]. *)

From S2P Require Import Prelude.
From S2P Require Import Utf8.
From S2P Require Import Sha256.
From S2P Require Import Encoding.
From S2P Require Import Ticket.
From S2P Require Import Router.
From S2P Require Import RelayServer.

Definition DefaultTicketLifetime : Z := 5 * Minute.
Definition MaxFrameBytes : Z := 1 * 1024 * 1024.
Definition readPumpBuffer : nat := 4.

Definition io_EOF : error := ErrorString "EOF".
Definition io_ErrClosedPipe : error := ErrorString "io: read/write on closed pipe".
Definition ErrFrameTooLarge : error :=
  ErrorString "relay frame is larger than the caller's buffer".

(** ** Minting a pair of tickets ([ticket_mint.go]) *)

Record PairInput := mkPairInput {
  Pair_RouteID : bytes;
  Pair_AgentID : bytes;
  Pair_ClientID : bytes;
  Pair_Lifetime : Z;
  Pair_MaxConnections : Z;
  Pair_IssuedAt : Z;
  Pair_IssuerEpoch : Z;
}.

(** What one call of [Issue] reads: the clock, and the random source twice. *)
Record Minting := mkMinting {
  mint_now : Z;
  mint_id : result bytes;
  mint_nonce : result bytes;
}.

Section Minting.
Context {crypto : TicketCrypto}.

Definition pairTicket (private : bytes) (m : Minting) (input : PairInput) (endpoint : RelayEndpoint)
    (deviceID : bytes) : result RelayTicket :=
  let maxConn := if Pair_MaxConnections input =? 0 then 1 else Pair_MaxConnections input in
  let expiresAt := if negb (Pair_IssuedAt input =? zeroTime)
                   then Pair_IssuedAt input + Pair_Lifetime input else zeroTime in
  Issue private (mint_now m) (mint_id m) (mint_nonce m)
    (mkIssueInput (Pair_RouteID input) deviceID endpoint maxConn (Pair_Lifetime input) expiresAt
       (Pair_IssuerEpoch input)).

(** [Pair]; the issuer is nil or its private key. *)
Definition Pair (issuer : option bytes) (agentMint clientMint : Minting) (input : PairInput)
    : result (RelayTicket * RelayTicket) :=
  match issuer with
  | None => Err (ErrorString "relay issuer must not be nil")
  | Some private =>
      if negb (len (Pair_RouteID input) =? 16) then
        Err (ErrorString ("relay route id must be 16 bytes, got " ++ pretty (len (Pair_RouteID input))))
      else if negb (len (Pair_AgentID input) =? 16) then
        Err (ErrorString ("relay agent device id must be 16 bytes, got " ++ pretty (len (Pair_AgentID input))))
      else if negb (len (Pair_ClientID input) =? 16) then
        Err (ErrorString ("relay client device id must be 16 bytes, got " ++ pretty (len (Pair_ClientID input))))
      else if Pair_Lifetime input <=? 0 then
        Err (ErrorString "relay ticket lifetime must be positive")
      else if Pair_Lifetime input >? 10 * Minute then
        Err (ErrorString "relay ticket lifetime %s exceeds verifier replay window")
      else
        match pairTicket private agentMint input RELAY_ENDPOINT_AGENT (Pair_AgentID input) with
        | Err e => Err (ErrorWrap "mint agent ticket" e)
        | Ok agentTicket =>
            match pairTicket private clientMint input RELAY_ENDPOINT_CLIENT (Pair_ClientID input) with
            | Err e => Err (ErrorWrap "mint client ticket" e)
            | Ok clientTicket => Ok (agentTicket, clientTicket)
            end
        end
  end.

(** The nil slice is empty. *)
Definition PublicKeyBytes (issuer : option bytes) : bytes :=
  match issuer with Some private => ed25519_Public private | None => [] end.

Definition ParsePublicKey (raw : bytes) : result bytes :=
  if negb (len raw =? ed25519_PublicKeySize) then
    Err (ErrorString ("relay public key must be 32 bytes, got " ++ pretty (len raw)))
  else Ok raw.

(** ** The issuer's key ([issuer.go], [NewIssuer]) *)

Definition NewIssuer (private : bytes) : result bytes :=
  if negb (len private =? ed25519_PrivateKeySize) then
    Err (ErrorString ("issuer private key must be 64 bytes, got " ++ pretty (len private)))
  else Ok private.

(** What [os.ReadFile] finds. *)
Inductive KeyFile :=
  | KeyContents (raw : bytes)
  | KeyMissing
  | KeyUnreadable (e : error).

(** [LoadOrCreateIssuer]: the path is empty, absolute, or resolved by [Abs]; the
    key generator and [WriteFile] have outcomes.  The result names the bytes
    written. *)
Definition LoadOrCreateIssuer (path : string) (isAbs : bool) (abs : result string) (file : KeyFile)
    (generated : result bytes) (written : result unit) : option bytes * result bytes :=
  if bool_decide (path = EmptyString) then
    (None, Err (ErrorString "relay issuer key path must not be empty"))
  else match (if isAbs then Ok path else abs) with
  | Err e => (None, Err (ErrorWrap "resolve issuer key path" e))
  | Ok path =>
      match file with
      | KeyContents raw =>
          if negb (len raw =? ed25519_PrivateKeySize) then
            (None, Err (ErrorString ("relay issuer key file " ++ path ++ " is " ++ pretty (len raw) ++
                                     " bytes, expected 64")))
          else (None, NewIssuer raw)
      | KeyUnreadable e => (None, Err (ErrorWrap ("read issuer key file " ++ path) e))
      | KeyMissing =>
          match generated with
          | Err e => (None, Err (ErrorWrap "generate relay issuer key" e))
          | Ok priv =>
              match written with
              | Err e => (None, Err (ErrorWrap ("write issuer key file " ++ path) e))
              | Ok _ => (Some priv, NewIssuer priv)
              end
          end
      end
  end.

Definition IssuerPublicKeyHex (issuer : option bytes) : string :=
  match issuer with Some private => hexEncode (ed25519_Public private) | None => EmptyString end.
End Minting.

(** ** Dialling ([client.go]) *)

Class TicketEncoder := { proto_Marshal : RelayTicket → result bytes }.

(** [binary.BigEndian.PutUint32] of a length. *)
Definition PutUint32 (n : Z) : bytes :=
  map byte_of_Z [n / 2 ^ 24; n / 2 ^ 16; n / 2 ^ 8; n].

Section Dialling.
Context {enc : TicketEncoder}.

(** The first frame [Dial] writes; the ticket may be nil. *)
Definition dialFrame (ticket : option RelayTicket) : result bytes :=
  match ticket with
  | None => Err (ErrorString "relay ticket must not be nil")
  | Some t =>
      if len (RouteId t) =? 0 then Err (ErrorString "relay ticket is missing a route id")
      else match proto_Marshal t with
      | Err e => Err (ErrorWrap "encode relay ticket" e)
      | Ok encoded =>
          if len encoded >? MaxFrameBytes then
            Err (ErrorString ("relay ticket is " ++ pretty (len encoded) ++ " bytes, exceeds 1048576 limit"))
          else Ok (PutUint32 (len encoded) ++ encoded)
      end
  end.

(** ** The stream ([client.go]) *)

Record frameDelivery := mkDelivery {
  delivery_payload : bytes;
  delivery_err : option error;
}.

(** The read pump is in [ReadMessage]; or about to hand a delivery over, after
    which it marks the stream closed with [mark], if any; or has returned. *)
Inductive PumpState :=
  | PumpReading
  | PumpDelivering (d : frameDelivery) (mark : option error)
  | PumpDone.

(** [frames_sent] and [ws_closed] are what the WebSocket was told. *)
Record Stream := mkStream {
  frames_sent : list bytes;
  ws_closed : bool;
  readCh : list frameDelivery;
  pump : PumpState;
  closed : bool;
  closeErr : option error;
}.

#[global] Instance Stream_eta : Eta Stream := fun s =>
  mkStream (frames_sent s) (ws_closed s) (readCh s) (pump s) (closed s) (closeErr s).

(** [Dial]; [upgrade] and [written] are the outcomes of the WebSocket dial and of
    the first write. *)
Definition Dial (ticket : option RelayTicket) (upgrade written : result unit) : result Stream :=
  frame ← dialFrame ticket;
  match upgrade with
  | Err e => Err (ErrorWrap "dial relay" e)
  | Ok _ =>
      match written with
      | Err e => Err (ErrorWrap "send relay ticket" e)
      | Ok _ => Ok (mkStream [frame] false [] PumpReading false None)
      end
  end.
End Dialling.

Definition markClosed (s : Stream) (e : error) : Stream :=
  if closed s then s
  else s <| closed := true |> <| closeErr := Some e |> <| ws_closed := true |>.

(** [Close]; [outcome] is what closing the WebSocket returns. *)
Definition Close (s : Stream) (outcome : option error) : Stream * option error :=
  if closed s then (s, closeErr s)
  else (s <| closed := true |> <| closeErr := outcome |> <| ws_closed := true |>, outcome).

(** A [select] takes any of its ready cases: [preferClosed] says which when both
    are.  [None] is a call that blocks. *)
Definition Read (s : Stream) (buffer : Z) (preferClosed : bool) : option (Stream * result bytes) :=
  if buffer =? 0 then Some (s, Ok [])
  else match readCh s with
  | d :: rest =>
      if closed s && preferClosed then Some (s, Err io_ErrClosedPipe)
      else
        let s := s <| readCh := rest |> in
        match delivery_err d with
        | Some e => Some (s, Err e)
        | None =>
            if len (delivery_payload d) >? buffer then Some (s, Err ErrFrameTooLarge)
            else Some (s, Ok (delivery_payload d))
        end
  | [] => if closed s then Some (s, Err io_ErrClosedPipe) else None
  end.

(** [Write]; [outcome] is the outcome of the WebSocket write. *)
Definition Write (s : Stream) (p : bytes) (outcome : result unit) : Stream * result Z :=
  if len p =? 0 then (s, Ok 0)
  else if len p >? MaxFrameBytes then
    (s, Err (ErrorString ("relay frame is " ++ pretty (len p) ++ " bytes, exceeds 1048576 limit")))
  else if closed s then (s, Err io_ErrClosedPipe)
  else match outcome with
  | Err e => (markClosed s e, Err e)
  | Ok _ => (s <| frames_sent ::= fun l => l ++ [p] |>, Ok (len p))
  end.

Definition errNonBinary : error := ErrorString "relay forwarded a non-binary frame".

(** [readPump], when [ReadMessage] returns. *)
Definition pumpReceived (s : Stream) (message : result (Z * bytes)) : Stream :=
  match pump s with
  | PumpReading =>
      s <| pump :=
        match message with
        | Err e => PumpDelivering (mkDelivery [] (Some e)) None
        | Ok (messageType, payload) =>
            if negb (messageType =? BinaryMessage) then
              PumpDelivering (mkDelivery [] (Some errNonBinary)) (Some errNonBinary)
            else if len payload >? MaxFrameBytes then
              PumpDelivering
                (mkDelivery [] (Some (ErrorString ("relay frame is " ++ pretty (len payload) ++
                                                   " bytes, exceeds 1048576 limit"))))
                (Some (ErrorString "relay frame exceeds limit"))
            else PumpDelivering (mkDelivery payload None) None
        end |>
  | _ => s
  end.

(** [readPump] after its [select]: it goes on reading only when a payload was
    handed over. *)
Definition pumpAfter (s : Stream) (d : frameDelivery) (mark : option error) (handedOver : bool) : Stream :=
  match delivery_err d with
  | None => s <| pump := if handedOver then PumpReading else PumpDone |>
  | Some _ =>
      let s := s <| pump := PumpDone |> in
      match mark with Some e => markClosed s e | None => s end
  end.

(** [readPump], at its [select]; the stream is unchanged while both cases block. *)
Definition pumpDeliver (s : Stream) (preferClosed : bool) : Stream :=
  match pump s with
  | PumpDelivering d mark =>
      let room := (length (readCh s) <? readPumpBuffer)%nat in
      if closed s && (preferClosed || negb room) then pumpAfter s d mark false
      else if room then pumpAfter (s <| readCh ::= fun l => l ++ [d] |>) d mark true
      else s
  | _ => s
  end.

(** ** Bridging ([bridge.go], [wsbridge.go]) *)

Definition isBenignClose (err : option error) : bool :=
  match err with
  | None => true
  | Some e => bool_decide (e = io_EOF) || bool_decide (e = io_ErrClosedPipe)
  end.

(** The errors of the two directions in the order they arrive, folded into one. *)
Definition firstError (what : string) (errs : list (option error)) : option error :=
  match List.find (fun e => negb (isBenignClose e)) errs with
  | Some (Some e) => Some (ErrorWrap what e)
  | _ => None
  end.

(** [Bridge], once both copies have returned; the ends are nil or not. *)
Definition Bridge (localNil remoteNil : bool) (errs : list (option error)) : option error :=
  if localNil then Some (ErrorString "relay bridge: local must not be nil")
  else if remoteNil then Some (ErrorString "relay bridge: remote must not be nil")
  else firstError "relay bridge" errs.

(** [ConnectAndBridge]; the error of the bridge is that of its two copies. *)
Definition ConnectAndBridge {enc : TicketEncoder} (ticket : option RelayTicket)
    (upgrade written : result unit) (localNil : bool) (errs : list (option error)) : option error :=
  match Dial ticket upgrade written with
  | Err e => Some e
  | Ok _ => Bridge localNil false errs
  end.

(** [BridgeWebSocket] while its two loops run.  [to_local] are the messages
    written to the local WebSocket; [up] and [down] say which loops still run. *)
Record WebSocketBridge := mkWebSocketBridge {
  remote : Stream;
  to_local : list bytes;
  local_closed : bool;
  up : bool;
  down : bool;
  errCh : list error;
}.

#[global] Instance WebSocketBridge_eta : Eta WebSocketBridge := fun b =>
  mkWebSocketBridge (remote b) (to_local b) (local_closed b) (up b) (down b) (errCh b).

Definition BridgeWebSocket_start (s : Stream) : WebSocketBridge :=
  mkWebSocketBridge s [] false true true [].

(** One round of the loop from the local side to the relay: what
    [local.ReadMessage] returns, and the outcomes of the calls that follow. *)
Definition bridgeUp (b : WebSocketBridge) (message : result (Z * bytes)) (written : result unit)
    (closeOutcome : option error) : WebSocketBridge :=
  if negb (up b) then b
  else match message with
  | Err e =>
      b <| errCh ::= fun l => l ++ [ErrorWrap "local read" e] |>
        <| remote ::= fun s => (Close s closeOutcome).1 |> <| up := false |>
  | Ok (messageType, payload) =>
      if negb (messageType =? BinaryMessage) then b
      else match Write (remote b) payload written with
      | (s, Ok _) => b <| remote := s |>
      | (s, Err e) =>
          b <| remote := s |> <| errCh ::= fun l => l ++ [ErrorWrap "remote write" e] |>
            <| local_closed := true |> <| up := false |>
      end
  end.

(** One round of the loop from the relay to the local side; it does not move
    while [remote.Read] blocks. *)
Definition bridgeDown (b : WebSocketBridge) (preferClosed : bool) (written : result unit)
    (closeOutcome : option error) : WebSocketBridge :=
  if negb (down b) then b
  else match Read (remote b) MaxFrameBytes preferClosed with
  | None => b
  | Some (s, Err e) =>
      b <| remote := s |> <| errCh ::= fun l => l ++ [ErrorWrap "remote read" e] |>
        <| local_closed := true |> <| down := false |>
  | Some (s, Ok payload) =>
      match written with
      | Ok _ => b <| remote := s |> <| to_local ::= fun l => l ++ [payload] |>
      | Err e =>
          b <| remote := (Close s closeOutcome).1 |>
            <| errCh ::= fun l => l ++ [ErrorWrap "local write" e] |> <| down := false |>
      end
  end.

(** The value [BridgeWebSocket] returns: at once when an end is nil, otherwise when
    both loops have ended. *)
Definition BridgeWebSocket (localNil remoteNil : bool) (b : WebSocketBridge) : option error :=
  if localNil then Some (ErrorString "relay wsbridge: local must not be nil")
  else if remoteNil then Some (ErrorString "relay wsbridge: remote must not be nil")
  else firstError "relay wsbridge" (map Some (errCh b)).

(** * What the relay client promises

    The frames of a stream arrive whole and in order; the bridge keeps message
    boundaries in both directions; the two tickets of a pair meet on one route of
    a relay that trusts the issuer. *)

(** ** The stream *)

Definition payloads (l : list frameDelivery) : list bytes :=
  omap (fun d => match delivery_err d with None => Some (delivery_payload d) | Some _ => None end) l.

(** The frame the pump is about to hand over. *)
Definition in_flight (s : Stream) : list bytes :=
  match pump s with PumpDelivering d _ => payloads [d] | _ => [] end.

(** What the pump accepts from the relay. *)
Definition accepted_frame (s : Stream) (message : result (Z * bytes)) : list bytes :=
  match pump s, message with
  | PumpReading, Ok (ty, p) => if (ty =? BinaryMessage) && (len p <=? MaxFrameBytes) then [p] else []
  | _, _ => []
  end.

(** The frame a call of [Read] takes off the channel. *)
Definition taken_frame (s : Stream) (buffer : Z) (preferClosed : bool) : list bytes :=
  match Read s buffer preferClosed with
  | Some (s', _) => payloads (take (length (readCh s) - length (readCh s')) (readCh s))
  | None => []
  end.

(** [received] were accepted from the relay, [taken] were read; what was lost was
    in flight when the stream was closed. *)
Record stream_inv (s : Stream) (received taken : list bytes) : Prop := mkStreamInv {
  si_order : ∃ lost, received = taken ++ payloads (readCh s) ++ in_flight s ++ lost ∧
               (lost = [] ∨ closed s = true ∧ pump s = PumpDone);
  si_room : (length (readCh s) <= readPumpBuffer)%nat;
  si_size : Forall (fun p => len p <= MaxFrameBytes) received;
  si_payload : ∀ d mark, pump s = PumpDelivering d mark → delivery_err d = None → mark = None;
}.

Lemma payloads_app l k : payloads (l ++ k) = payloads l ++ payloads k.
Proof. apply omap_app. Qed.

Lemma pumpReceived_inv s received taken message :
  stream_inv s received taken →
  stream_inv (pumpReceived s message) (received ++ accepted_frame s message) taken.
Proof.
  intros Hi. pose proof Hi as [(lost & Ho & Hl) Hr Hs Hp]. unfold pumpReceived, accepted_frame.
  destruct (pump s) eqn:Hpump; rewrite ?app_nil_r; [|done..].
  assert (lost = []) as -> by (destruct Hl as [|[_ [=]]]; done).
  unfold in_flight in Ho. rewrite Hpump in Ho. rewrite !app_nil_r in Ho.
  destruct message as [[ty p]|e]; simpl.
  - destruct (Z.eqb_spec ty BinaryMessage); simpl; [destruct (Z.gtb_spec (len p) MaxFrameBytes)|];
      try (destruct (Z.leb_spec (len p) MaxFrameBytes); [lia|]).
    + rewrite app_nil_r. constructor; simpl; eauto; [|naive_solver].
      exists []. rewrite !app_nil_r. auto.
    + destruct (Z.leb_spec (len p) MaxFrameBytes); [|lia].
      constructor; simpl; [|done|by apply Forall_app; split; [|constructor]|naive_solver].
      exists []. simpl. rewrite Ho, <- app_assoc. auto.
    + rewrite app_nil_r. constructor; simpl; eauto; [|naive_solver].
      exists []. unfold in_flight. simpl. rewrite !app_nil_r. auto.
  - rewrite app_nil_r. constructor; simpl; eauto; [|naive_solver].
    exists []. unfold in_flight. simpl. rewrite !app_nil_r. auto.
Qed.

(** Closing and writing touch neither the channel nor the pump. *)
Lemma stream_inv_frame s s' received taken :
  readCh s' = readCh s → pump s' = pump s → (closed s = true → closed s' = true) →
  stream_inv s received taken → stream_inv s' received taken.
Proof.
  intros Hch Hpump Hc [(lost & Ho & Hl) Hr Hs Hp].
  constructor; unfold in_flight; rewrite ?Hch, ?Hpump; [|done..].
  exists lost. split; [done|]. naive_solver.
Qed.

Lemma markClosed_frame s e :
  readCh (markClosed s e) = readCh s ∧ pump (markClosed s e) = pump s ∧
  closed (markClosed s e) = true ∧ frames_sent (markClosed s e) = frames_sent s.
Proof. unfold markClosed. by destruct (closed s) eqn:?. Qed.

Lemma Close_frame s outcome :
  readCh (Close s outcome).1 = readCh s ∧ pump (Close s outcome).1 = pump s ∧
  closed (Close s outcome).1 = true ∧ frames_sent (Close s outcome).1 = frames_sent s.
Proof. unfold Close. by destruct (closed s) eqn:?. Qed.

Lemma Close_inv s received taken outcome :
  stream_inv s received taken → stream_inv (Close s outcome).1 received taken.
Proof. destruct (Close_frame s outcome) as (? & ? & ? & _). by apply stream_inv_frame. Qed.

Lemma Write_inv s received taken p outcome :
  stream_inv s received taken → stream_inv (Write s p outcome).1 received taken.
Proof.
  unfold Write. repeat case_match; try done; [by apply stream_inv_frame|].
  destruct (markClosed_frame s e) as (? & ? & ? & _). by apply stream_inv_frame.
Qed.

Lemma pumpDeliver_inv s received taken preferClosed :
  stream_inv s received taken → stream_inv (pumpDeliver s preferClosed) received taken.
Proof.
  intros Hi. pose proof Hi as [(lost & Ho & Hl) Hr Hs Hp]. unfold pumpDeliver.
  destruct (pump s) as [|d mark|] eqn:Hpump; [done| |done].
  assert (lost = []) as -> by (destruct Hl as [|[_ [=]]]; done).
  unfold in_flight in Ho. rewrite Hpump in Ho. simpl in Ho. rewrite app_nil_r in Ho.
  assert (∀ s' : Stream, readCh s' = readCh s → closed s' = true → pump s' = PumpDone →
    stream_inv s' received taken) as Hdrop.
  { intros s' E1 E2 E3. constructor; unfold in_flight; rewrite ?E1, ?E3; [|done..].
    exists (payloads [d]). rewrite Ho. auto. }
  destruct (closed s && _) eqn:Hc.
  - apply andb_prop in Hc as [Hc _]. unfold pumpAfter. destruct (delivery_err d); [|by apply Hdrop].
    destruct mark; [|by apply Hdrop].
    apply Hdrop; by destruct (markClosed_frame (s <| pump := PumpDone |>) e0) as (? & ? & ? & _).
  - destruct (Nat.ltb_spec (length (readCh s)) readPumpBuffer) as [Hroom|]; [|done].
    assert (∀ s' : Stream, readCh s' = readCh s ++ [d] → pump s' ≠ PumpDelivering d mark →
      (pump s' = PumpReading ∨ pump s' = PumpDone) → stream_inv s' received taken) as Hpush.
    { intros s' E1 _ E2. constructor; unfold in_flight; rewrite ?E1, ?length_app; simpl;
        [|lia|done|destruct E2 as [-> | ->]; done].
      exists []. rewrite payloads_app, Ho, <- app_assoc.
      destruct E2 as [-> | ->]; rewrite !app_nil_r; auto. }
    unfold pumpAfter. destruct (delivery_err d); [|apply Hpush; simpl; auto].
    destruct mark; [|apply Hpush; simpl; auto].
    match goal with |- stream_inv (markClosed ?x ?e) _ _ =>
      destruct (markClosed_frame x e) as (E1 & E2 & _) end.
    apply Hpush; rewrite ?E1, ?E2; simpl; auto.
Qed.

Lemma Read_inv s received taken n preferClosed s' r :
  Read s n preferClosed = Some (s', r) → stream_inv s received taken →
  stream_inv s' received (taken ++ taken_frame s n preferClosed) ∧
  frames_sent s' = frames_sent s ∧ closed s' = closed s ∧
  match taken_frame s n preferClosed with
  | [] => r = Ok [] ∧ n = 0 ∨ ∃ e, r = Err e
  | p :: _ => taken_frame s n preferClosed = [p] ∧ r = (if len p >? n then Err ErrFrameTooLarge else Ok p)
  end.
Proof.
  intros HR Hi. unfold taken_frame. rewrite HR. unfold Read in HR.
  destruct (Z.eqb_spec n 0); [injection HR as <- <-; rewrite Nat.sub_diag, take_0, app_nil_r; split_and!; simpl; eauto|].
  destruct (readCh s) as [|d rest] eqn:Hch.
  { destruct (closed s) eqn:?; [|done]. injection HR as <- <-. rewrite Hch, Nat.sub_diag, take_0, app_nil_r. split_and!; simpl; eauto. }
  destruct (closed s && preferClosed) eqn:?.
  { injection HR as <- <-. rewrite Hch, Nat.sub_diag, take_0, app_nil_r. split_and!; simpl; eauto. }
  assert (stream_inv (s <| readCh := rest |>) received (taken ++ payloads [d])) as Hi'.
  { destruct Hi as [(lost & Ho & Hl) Hr Hs Hp]. rewrite Hch in *.
    constructor; [|simpl in *; lia|done|done].
    exists lost. change (in_flight (s <| readCh := rest |>)) with (in_flight s).
    rewrite Ho, <- app_assoc, (payloads_app [d] rest : payloads (d :: rest) = _), <- app_assoc. auto. }
  assert (s' = s <| readCh := rest |>) as ->
    by (destruct (delivery_err d); [|destruct (len _ >? n)]; by injection HR).
  simpl readCh. replace (length (d :: rest) - length rest)%nat with 1%nat by (simpl; lia).
  simpl take. split_and!; [done|done|done|]. simpl.
  destruct (delivery_err d) eqn:He; [injection HR as <-; eauto|].
  destruct (len (delivery_payload d) >? n); injection HR as <-; auto.
Qed.

(** ** Runs of a stream *)

Inductive StreamOp :=
  | OpReceived (message : result (Z * bytes))
  | OpDeliver (preferClosed : bool)
  | OpRead (buffer : Z) (preferClosed : bool)
  | OpWrite (p : bytes) (outcome : result unit)
  | OpClose (outcome : option error).

(** A stream with the frames accepted from the relay and those taken by [Read]. *)
Record StreamRun := mkStreamRun {
  stream : Stream;
  received : list bytes;
  taken : list bytes;
}.

Definition stream_step (r : StreamRun) (op : StreamOp) : StreamRun :=
  let s := stream r in
  match op with
  | OpReceived message => mkStreamRun (pumpReceived s message) (received r ++ accepted_frame s message) (taken r)
  | OpDeliver c => mkStreamRun (pumpDeliver s c) (received r) (taken r)
  | OpRead n c =>
      match Read s n c with
      | Some (s', _) => mkStreamRun s' (received r) (taken r ++ taken_frame s n c)
      | None => r
      end
  | OpWrite p outcome => mkStreamRun (Write s p outcome).1 (received r) (taken r)
  | OpClose outcome => mkStreamRun (Close s outcome).1 (received r) (taken r)
  end.

Lemma stream_step_inv r op :
  stream_inv (stream r) (received r) (taken r) →
  stream_inv (stream (stream_step r op)) (received (stream_step r op)) (taken (stream_step r op)).
Proof.
  intros Hi. destruct op; simpl;
    [by apply pumpReceived_inv|by apply pumpDeliver_inv| |by apply Write_inv|by apply Close_inv].
  destruct (Read (stream r) buffer preferClosed) as [[s' x]|] eqn:HR; [|done]. simpl.
  by eapply Read_inv.
Qed.

Lemma stream_run_inv ops r :
  stream_inv (stream r) (received r) (taken r) →
  let r' := foldl stream_step r ops in stream_inv (stream r') (received r') (taken r').
Proof. revert r. induction ops as [|op ops IH]; intros r Hi; [done|]. by apply IH, stream_step_inv. Qed.

(** Frames arrive whole and in order: in every run of a dialled stream the
    frames taken by [Read] are the first of those accepted from the relay; while
    the stream is open every accepted frame has been taken, waits in the channel or
    is being handed over; the channel holds at most four deliveries, and no frame is
    larger than a mebibyte. *)
Theorem relay_frames_in_order {enc : TicketEncoder} ticket upgrade written s ops :
  Dial ticket upgrade written = Ok s →
  let r := foldl stream_step (mkStreamRun s [] []) ops in
  taken r `prefix_of` received r ∧
  (closed (stream r) = false →
     received r = taken r ++ payloads (readCh (stream r)) ++ in_flight (stream r)) ∧
  (length (readCh (stream r)) <= readPumpBuffer)%nat ∧
  Forall (fun p => len p <= MaxFrameBytes) (received r).
Proof.
  intros HD r.
  assert (stream_inv (stream r) (received r) (taken r)) as [(lost & Ho & Hl) Hr Hs _].
  { apply stream_run_inv. unfold Dial in HD. inv_ok. repeat case_match; try done.
    match goal with H : Ok _ = Ok _ |- _ => injection H as <- end.
    constructor; simpl; [|lia|constructor|done]. exists []. auto. }
  split_and!; [by rewrite Ho; apply prefix_app_r| |done|done].
  intros Hc. destruct Hl as [-> |[E _]]; [|congruence]. by rewrite app_nil_r in Ho.
Qed.

(** ** The bridge between the local WebSocket and a stream *)

Inductive BridgeOp :=
  | BridgeReceived (message : result (Z * bytes))
  | BridgeDeliver (preferClosed : bool)
  | BridgeUp (message : result (Z * bytes)) (written : result unit) (closeOutcome : option error)
  | BridgeDown (preferClosed : bool) (written : result unit) (closeOutcome : option error).

(** The bridge with the frames accepted from the relay, those the bridge took off
    the stream, and the messages the local side sent it. *)
Record BridgeRun := mkBridgeRun {
  bridge : WebSocketBridge;
  from_relay : list bytes;
  relay_taken : list bytes;
  from_local : list bytes;
}.

(** The messages worth a frame: binary and not empty. *)
Definition local_message (b : WebSocketBridge) (message : result (Z * bytes)) : list bytes :=
  match message with
  | Ok (ty, p) => if up b && (ty =? BinaryMessage) && negb (len p =? 0) then [p] else []
  | Err _ => []
  end.

Definition bridge_step (x : BridgeRun) (op : BridgeOp) : BridgeRun :=
  let b := bridge x in
  match op with
  | BridgeReceived m =>
      mkBridgeRun (b <| remote ::= fun s => pumpReceived s m |>)
        (from_relay x ++ accepted_frame (remote b) m) (relay_taken x) (from_local x)
  | BridgeDeliver c =>
      mkBridgeRun (b <| remote ::= fun s => pumpDeliver s c |>) (from_relay x) (relay_taken x) (from_local x)
  | BridgeUp m w c =>
      mkBridgeRun (bridgeUp b m w c) (from_relay x) (relay_taken x) (from_local x ++ local_message b m)
  | BridgeDown c w o =>
      mkBridgeRun (bridgeDown b c w o) (from_relay x)
        (relay_taken x ++ if down b then taken_frame (remote b) MaxFrameBytes c else []) (from_local x)
  end.

Record bridge_inv (first : list bytes) (x : BridgeRun) : Prop := mkBridgeInv {
  bi_stream : stream_inv (remote (bridge x)) (from_relay x) (relay_taken x);
  bi_down : ∃ lost, relay_taken x = to_local (bridge x) ++ lost ∧ (lost = [] ∨ down (bridge x) = false);
  bi_up : ∃ sent lost, frames_sent (remote (bridge x)) = first ++ sent ∧ from_local x = sent ++ lost ∧
            (lost = [] ∨ up (bridge x) = false);
  bi_errors : length (errCh (bridge x)) =
                ((if up (bridge x) then 0 else 1) + (if down (bridge x) then 0 else 1))%nat;
  bi_wrapped : Forall (fun e => ∃ m c, e = ErrorWrap m c) (errCh (bridge x));
}.

Lemma pumpDeliver_sent s c : frames_sent (pumpDeliver s c) = frames_sent s.
Proof.
  unfold pumpDeliver, pumpAfter. repeat (case_match; try done);
    by match goal with |- context [markClosed ?x ?e] => destruct (markClosed_frame x e) as (_ & _ & _ & ->) end.
Qed.

Lemma pumpReceived_sent s m : frames_sent (pumpReceived s m) = frames_sent s.
Proof. unfold pumpReceived. by destruct (pump s). Qed.

Lemma Write_sent s p outcome :
  frames_sent (Write s p outcome).1 =
    frames_sent s ++ (if is_ok (Write s p outcome).2 && negb (len p =? 0) then [p] else []).
Proof.
  unfold Write. destruct (len p =? 0) eqn:?; simpl; [by rewrite app_nil_r|].
  repeat case_match; simpl; rewrite ?app_nil_r; try done. by destruct (markClosed_frame s e) as (_ & _ & _ & ->).
Qed.

Lemma bridgeUp_inv first x m w c : bridge_inv first x → bridge_inv first (bridge_step x (BridgeUp m w c)).
Proof.
  intros [Hs Hd (sent & lost & Hf & Hl & Hup) He Hw]. simpl. unfold bridgeUp, local_message.
  destruct (up (bridge x)) eqn:Hup'; simpl.
  2:{ replace (match m with Ok _ => _ | Err _ => [] end) with (@nil bytes) by (by destruct m as [[]|]).
      rewrite app_nil_r. constructor; simpl; rewrite ?Hup'; eauto 10. }
  destruct Hup as [-> |]; [|done]. rewrite app_nil_r in Hl.
  destruct m as [[ty p]|e]; simpl.
  - destruct (ty =? BinaryMessage); simpl.
    2:{ rewrite app_nil_r. constructor; simpl; rewrite ?Hup'; eauto 10. exists sent, []. by rewrite app_nil_r; auto. }
    pose proof (Write_inv _ _ _ p w Hs) as Hs'. pose proof (Write_sent (remote (bridge x)) p w) as Hsent.
    destruct (Write (remote (bridge x)) p w) as [s [z|e]] eqn:HW; simpl in *.
    + constructor; simpl; rewrite ?Hup'; try done.
      exists (sent ++ if negb (len p =? 0) then [p] else []), [].
      rewrite Hsent, Hf, Hl, app_nil_r, app_assoc. auto.
    + constructor; simpl; try done.
      * exists sent. eexists. rewrite Hsent, Hf, app_nil_r, Hl. auto.
      * rewrite length_app, He. simpl. lia.
      * apply Forall_app. split; [done|]. constructor; [eauto|constructor].
  - rewrite app_nil_r. constructor; simpl.
    + by apply Close_inv.
    + done.
    + exists sent, []. destruct (Close_frame (remote (bridge x)) c) as (_ & _ & _ & ->).
      rewrite app_nil_r. auto.
    + rewrite length_app, He. simpl. lia.
    + apply Forall_app. split; [done|]. constructor; [eauto|constructor].
Qed.

Lemma bridgeDown_inv first x c w o :
  bridge_inv first x → bridge_inv first (bridge_step x (BridgeDown c w o)).
Proof.
  intros [Hs (lost & Ht & Hl) (sent & gone & Hf & Hg & Hup) He Hw]. simpl. unfold bridgeDown.
  destruct (down (bridge x)) eqn:Hdown; simpl.
  2:{ rewrite app_nil_r. constructor; simpl; rewrite ?Hdown; eauto 10. }
  destruct Hl as [-> |]; [|done]. rewrite app_nil_r in Ht.
  destruct (Read (remote (bridge x)) MaxFrameBytes c) as [[s r]|] eqn:HR.
  2:{ unfold taken_frame. rewrite HR, app_nil_r. constructor; simpl; rewrite ?Hdown; eauto 10.
      exists []. by rewrite app_nil_r; auto. }
  destruct (Read_inv _ _ _ _ _ _ _ HR Hs) as (Hs' & Hfs & _ & Hr).
  assert (match r with
          | Ok p => taken_frame (remote (bridge x)) MaxFrameBytes c = [p]
          | Err _ => taken_frame (remote (bridge x)) MaxFrameBytes c = []
          end) as Htf.
  { destruct (taken_frame _ _ _) as [|p l] eqn:Htf.
    - destruct Hr as [[_ Hz]|[e ->]]; [|done]. by vm_compute in Hz.
    - destruct Hr as [-> ->]. destruct (Z.gtb_spec (len p) MaxFrameBytes) as [Hbig|]; [|done].
      destruct Hs' as [(l' & Ho & _) _ Hsz _]. rewrite Ho in Hsz.
      apply Forall_app in Hsz as [Hsz _]. apply Forall_app in Hsz as [_ Hsz].
      apply Forall_cons in Hsz as [? _]. exfalso. lia. }
  destruct r as [p|e]; rewrite Htf in *; [destruct w as [u|e]|]; constructor; simpl;
    rewrite ?Hdown, ?length_app, ?He, ?app_nil_r in *; simpl; try (by apply Close_inv); try done;
    try lia; try (apply Forall_app; split; [done|]; constructor; [eauto|constructor]);
    try (exists sent, gone; destruct (Close_frame s o) as (_ & _ & _ & E); rewrite ?E, Hfs; auto).
  - exists []. rewrite Ht, app_nil_r. auto.
  - exists [p]. rewrite Ht. auto.
  - exists []. rewrite Ht, app_nil_r. auto.
Qed.

Lemma bridge_step_inv first x op : bridge_inv first x → bridge_inv first (bridge_step x op).
Proof.
  intros Hi. destruct op; [| |by apply bridgeUp_inv|by apply bridgeDown_inv];
    destruct Hi as [Hs Hd Hu He Hw]; constructor; simpl; try done;
    rewrite ?pumpReceived_sent, ?pumpDeliver_sent; try done;
    [by apply pumpReceived_inv|by apply pumpDeliver_inv].
Qed.

Lemma bridge_run_inv first ops x : bridge_inv first x → bridge_inv first (foldl bridge_step x ops).
Proof. revert x. induction ops as [|op ops IH]; intros x Hi; [done|]. by apply IH, bridge_step_inv. Qed.

(** The bridge keeps message boundaries and order in both directions: the
    messages written to the local WebSocket are the first of the frames accepted
    from the relay, and the frames sent after the ticket are the first of the
    non-empty binary messages the local side sent, all of them while that direction
    runs.  When both directions have ended the result is an error: the code wraps the
    reason of either before it looks whether it is benign. *)
Theorem bridge_keeps_messages {enc : TicketEncoder} ticket upgrade written s ops :
  Dial ticket upgrade written = Ok s →
  let x := foldl bridge_step (mkBridgeRun (BridgeWebSocket_start s) [] [] []) ops in
  to_local (bridge x) `prefix_of` from_relay x ∧
  (∃ frame sent, dialFrame ticket = Ok frame ∧ frames_sent (remote (bridge x)) = frame :: sent ∧
     sent `prefix_of` from_local x ∧ (up (bridge x) = true → sent = from_local x)) ∧
  (up (bridge x) = false → down (bridge x) = false →
     length (errCh (bridge x)) = 2%nat ∧ BridgeWebSocket false false (bridge x) ≠ None).
Proof.
  intros HD x.
  assert (∃ frame, dialFrame ticket = Ok frame ∧ s = mkStream [frame] false [] PumpReading false None)
    as (frame & Hframe & ->).
  { unfold Dial in HD. inv_ok. repeat case_match; try done. simplify_eq. eauto. }
  assert (bridge_inv [frame] x) as [Hs (lost & Ht & Hl) (sent & gone & Hf & Hg & Hup) He Hw].
  { apply bridge_run_inv. constructor; simpl; [|exists []; auto|exists [], []; auto|done|constructor].
    constructor; simpl; [exists []; auto|lia|constructor|done]. }
  split_and!.
  - destruct Hs as [(l & -> & _) _ _ _]. rewrite Ht, <- app_assoc. apply prefix_app_r. done.
  - exists frame, sent. split_and!; [done|done|by rewrite Hg; apply prefix_app_r|].
    intros E. destruct Hup as [-> |]; [by rewrite Hg, app_nil_r|congruence].
  - intros E1 E2. rewrite E1, E2 in He. split; [done|].
    destruct (errCh (bridge x)) as [|e l] eqn:Herr; [done|].
    apply Forall_cons in Hw as [(m & c & ->) _]. unfold BridgeWebSocket. by rewrite Herr.
Qed.
