(* ===== verification/RelayManager.v ===== *)
(** * The relay connection manager ([internal/relayclient/manager.go])

    The manager mints the two tickets of a route, keeps the Agent's until the
    route is connected, and tracks the connections in use.  A connection is an
    object with an identity: [CancelRoute] and [Close] cancel its context, whatever
    the maps say by then. *)

From S2P Require Import Prelude.
From S2P Require Import Ticket.
From S2P Require Import Router.
From S2P Require Import RelayServer.
From S2P Require Import RelayClient.

Record ManagerConfig := mkManagerConfig {
  Config_RelayURL : string;
  Config_Issuer : option bytes;
  Config_AgentID : bytes;
  Config_RevocationEpoch : Z;
  Config_TicketLifetime : Z;
}.

#[global] Instance ManagerConfig_eta : Eta ManagerConfig := fun c =>
  mkManagerConfig (Config_RelayURL c) (Config_Issuer c) (Config_AgentID c) (Config_RevocationEpoch c)
    (Config_TicketLifetime c).

(** [cancelled]: its context is done; [done]: its channel is closed. *)
Record managedConnection := mkManagedConnection {
  conn_routeID : string;
  cancelled : bool;
  done : bool;
}.

#[global] Instance managedConnection_eta : Eta managedConnection := fun c =>
  mkManagedConnection (conn_routeID c) (cancelled c) (done c).

(** [connections] are all connections made so far, by identity. *)
Record Manager := mkManager {
  manager_config : ManagerConfig;
  pending : gmap string RelayTicket;
  active : gmap string nat;
  connections : list managedConnection;
}.

#[global] Instance Manager_eta : Eta Manager := fun m =>
  mkManager (manager_config m) (pending m) (active m) (connections m).

Definition NewManager (config : ManagerConfig) : result Manager :=
  if bool_decide (Config_RelayURL config = EmptyString) then
    Err (ErrorString "relay manager: RelayURL must not be empty")
  else match Config_Issuer config with
  | None => Err (ErrorString "relay manager: Issuer must not be nil")
  | Some _ =>
      if negb (len (Config_AgentID config) =? 16) then
        Err (ErrorString ("relay manager: AgentID must be 16 bytes, got " ++
                          pretty (len (Config_AgentID config))))
      else
        let config := if Config_TicketLifetime config <=? 0
                      then config <| Config_TicketLifetime := DefaultTicketLifetime |> else config in
        Ok (mkManager config ∅ ∅ [])
  end.

Section Manager.
Context {crypto : TicketCrypto}.

(** [Provision], with the random route identifier and what minting reads. *)
Definition Provision (m : Manager) (clientDeviceID : bytes) (randomRoute : result bytes)
    (agentMint clientMint : Minting) : Manager * result (RelayTicket * string) :=
  if negb (len clientDeviceID =? 16) then
    (m, Err (ErrorString ("relay manager: client device ID must be 16 bytes, got " ++
                          pretty (len clientDeviceID))))
  else match randomRoute with
  | Err e => (m, Err (ErrorWrap "relay manager: generate route ID" e))
  | Ok routeID =>
      let config := manager_config m in
      match Pair (Config_Issuer config) agentMint clientMint
              (mkPairInput routeID (Config_AgentID config) clientDeviceID
                 (Config_TicketLifetime config) 1 zeroTime (Config_RevocationEpoch config)) with
      | Err e => (m, Err (ErrorWrap "relay manager: mint tickets" e))
      | Ok (agentTicket, clientTicket) =>
          (m <| pending ::= insert (hexEncode routeID) agentTicket |>,
           Ok (clientTicket, hexEncode routeID))
      end
  end.
End Manager.

(** [Connect] up to the dial: the ticket it takes and the connection it
    registers. *)
Definition connectBegin (m : Manager) (routeIDHex : string)
    : Manager * result (RelayTicket * nat) :=
  match pending m !! routeIDHex with
  | None => (m, Err (ErrorString ("relay manager: no pending ticket for route " ++ routeIDHex)))
  | Some agentTicket =>
      let m := m <| pending ::= delete routeIDHex |> in
      match active m !! routeIDHex with
      | Some _ => (m, Err (ErrorString ("relay manager: route " ++ routeIDHex ++ " is already connected")))
      | None =>
          let id := length (connections m) in
          (m <| connections ::= fun l => l ++ [mkManagedConnection routeIDHex false false] |>
             <| active ::= insert routeIDHex id |>, Ok (agentTicket, id))
      end
  end.

Definition cancel (m : Manager) (id : nat) : Manager :=
  m <| connections ::= alter (fun c => c <| cancelled := true |>) id |>.

(** [Connect] after the bridge has returned. *)
Definition connectEnd (m : Manager) (routeIDHex : string) (id : nat) : Manager :=
  (cancel m id) <| connections ::= alter (fun c => c <| done := true |>) id |>
                <| active ::= delete routeIDHex |>.

(** The goroutine that watches the context of a connection closes the local end
    when the context is done before the connection is. *)
Definition closesLocal (c : managedConnection) : bool := cancelled c && negb (done c).

(** [Connect], when nothing else happens to the manager meanwhile. *)
Definition Connect {enc : TicketEncoder} (m : Manager) (routeIDHex : string)
    (upgrade written : result unit) (localNil : bool) (errs : list (option error))
    : Manager * option error :=
  match connectBegin m routeIDHex with
  | (m, Err e) => (m, Some e)
  | (m, Ok (ticket, id)) =>
      let err := ConnectAndBridge (Some ticket) upgrade written localNil errs in
      (connectEnd m routeIDHex id, err)
  end.

(** [ConnectWebSocket]: the bridge is given by the state its two loops end in. *)
Definition ConnectWebSocket {enc : TicketEncoder} (m : Manager) (routeIDHex : string)
    (upgrade written : result unit) (bridge : Stream → WebSocketBridge)
    : Manager * option error :=
  match connectBegin m routeIDHex with
  | (m, Err e) => (m, Some e)
  | (m, Ok (ticket, id)) =>
      let err := match Dial (Some ticket) upgrade written with
                 | Err e => Some (ErrorWrap "relay manager: dial relay" e)
                 | Ok stream => BridgeWebSocket false false (bridge stream)
                 end in
      (connectEnd m routeIDHex id, err)
  end.

Definition CancelRoute (m : Manager) (routeIDHex : string) : Manager :=
  match active m !! routeIDHex with
  | None => m
  | Some id => cancel m id
  end.

(** The connections are cancelled in the order of the map's iteration. *)
Definition Close (m : Manager) : Manager :=
  (foldl cancel m (map_to_list (active m)).*2) <| active := ∅ |> <| pending := ∅ |>.

(** The order of the map's iteration. *)
Definition ActiveRoutes (m : Manager) : list string := (map_to_list (active m)).*1.
Definition PendingRoutes (m : Manager) : list string := (map_to_list (pending m)).*1.
Definition RelayURL (m : Manager) : string := Config_RelayURL (manager_config m).

(** * Runs of the relay connection manager

    Provisioning, connecting, cancelling and closing in any order, with several
    connections in use at once. *)

Section Runs.
Context {crypto : TicketCrypto}.

Inductive ManagerOp :=
  | OpProvision (clientDeviceID : bytes) (randomRoute : result bytes) (agentMint clientMint : Minting)
  | OpConnectBegin (routeIDHex : string)
  | OpConnectEnd (id : nat)
  | OpCancelRoute (routeIDHex : string)
  | OpClose.

(** A manager with the Agent tickets provisioned and those handed to the dialer. *)
Record ManagerRun := mkManagerRun {
  mgr : Manager;
  provisioned : list RelayTicket;
  dialled : list RelayTicket;
}.

Definition manager_step (x : ManagerRun) (op : ManagerOp) : ManagerRun :=
  let m := mgr x in
  match op with
  | OpProvision device route ma mc =>
      match Provision m device route ma mc with
      | (m', Ok (_, r)) =>
          mkManagerRun m' (provisioned x ++ match pending m' !! r with Some w => [w] | None => [] end) (dialled x)
      | (m', Err _) => mkManagerRun m' (provisioned x) (dialled x)
      end
  | OpConnectBegin r =>
      match connectBegin m r with
      | (m', Ok (w, _)) => mkManagerRun m' (provisioned x) (dialled x ++ [w])
      | (m', Err _) => mkManagerRun m' (provisioned x) (dialled x)
      end
  | OpConnectEnd id =>
      match connections m !! id with
      | Some c => if done c then x
                  else mkManagerRun (connectEnd m (conn_routeID c) id) (provisioned x) (dialled x)
      | None => x
      end
  | OpCancelRoute r => mkManagerRun (CancelRoute m r) (provisioned x) (dialled x)
  | OpClose => mkManagerRun (Close m) (provisioned x) (dialled x)
  end.

Definition waiting (m : Manager) : list RelayTicket := (map_to_list (pending m)).*2.

Record manager_inv (agentID : bytes) (x : ManagerRun) : Prop := mkManagerInv {
  mi_agent : Config_AgentID (manager_config (mgr x)) = agentID;
  mi_once : dialled x ++ waiting (mgr x) ⊆+ provisioned x;
  mi_pending : ∀ r w, pending (mgr x) !! r = Some w →
                 hexEncode (RouteId w) = r ∧ Ticket_Endpoint w = RELAY_ENDPOINT_AGENT ∧
                 DeviceId w = agentID;
  mi_active : ∀ r id, active (mgr x) !! r = Some id →
                ∃ c, connections (mgr x) !! id = Some c ∧ conn_routeID c = r ∧ done c = false;
}.

(** Cancelling changes neither the routes nor which connections are over. *)
Lemma cancel_lookup m id i :
  connections (cancel m id) !! i =
    (fun c => if decide (i = id) then c <| cancelled := true |> else c) <$> connections m !! i.
Proof.
  unfold cancel. simpl. case_decide as Hd; [subst; apply list_lookup_alter_eq|].
  rewrite list_lookup_alter_ne by done. by destruct (connections m !! i).
Qed.

Lemma cancels_spec ids m :
  let m' := foldl cancel m ids in
  manager_config m' = manager_config m ∧ pending m' = pending m ∧ active m' = active m ∧
  ∀ i, connections m' !! i =
    (fun c => if decide (i ∈ ids) then c <| cancelled := true |> else c) <$> connections m !! i.
Proof.
  revert m. induction ids as [|id ids IH]; intros m; simpl.
  - split_and!; try done. intros i. by destruct (connections m !! i).
  - destruct (IH (cancel m id)) as (-> & -> & -> & H). split_and!; try done.
    intros i. rewrite H, cancel_lookup. destruct (connections m !! i) as [c|]; [|done]. simpl. f_equal.
    destruct (decide (i = id)), (decide (i ∈ ids)), (decide (i ∈ id :: ids)); set_solver.
Qed.

(** The tickets that wait, with one of them set apart. *)
Lemma waiting_delete (tickets : gmap string RelayTicket) r w :
  tickets !! r = Some w → (map_to_list tickets).*2 ≡ₚ w :: (map_to_list (delete r tickets)).*2.
Proof.
  intros Hk. rewrite <- (insert_delete_id _ _ _ Hk) at 1.
  by rewrite map_to_list_insert by apply lookup_delete_eq.
Qed.

Lemma waiting_insert (tickets : gmap string RelayTicket) r w :
  (map_to_list (<[r := w]> tickets)).*2 ⊆+ w :: (map_to_list tickets).*2.
Proof.
  rewrite (waiting_delete _ r w), delete_insert_eq by apply lookup_insert_eq. apply submseteq_skip.
  destruct (tickets !! r) as [w'|] eqn:Hk; [|by rewrite delete_id].
  rewrite (waiting_delete _ _ _ Hk). by apply submseteq_cons.
Qed.

Lemma Provision_spec m device route ma mc m' t r :
  Provision m device route ma mc = (m', Ok (t, r)) →
  ∃ w routeID, route = Ok routeID ∧ r = hexEncode routeID ∧ m' = m <| pending ::= insert r w |> ∧
    RouteId w = routeID ∧ Ticket_Endpoint w = RELAY_ENDPOINT_AGENT ∧
    DeviceId w = Config_AgentID (manager_config m) ∧
    RouteId t = routeID ∧ Ticket_Endpoint t = RELAY_ENDPOINT_CLIENT ∧ DeviceId t = device.
Proof.
  unfold Provision. intros H. repeat (case_match; simplify_eq/=; []).
  match goal with H : Pair _ _ _ _ = Ok _ |- _ => unfold Pair in H; repeat (case_match; simplify_eq/=; []) end.
  repeat match goal with H : pairTicket _ ?m _ _ _ = Ok _ |- _ =>
    unfold pairTicket in H; destruct (mint_id m), (mint_nonce m);
    try (by unfold Issue in H; repeat (case_match; simplify_eq/=));
    apply Issue_Ok in H as (_ & ? & ? & _ & _ & _ & _ & _ & ? & ? & ? & _) end.
  eexists _, _. split_and!; eauto.
Qed.

Lemma Provision_Err m device route ma mc m' e :
  Provision m device route ma mc = (m', Err e) → m' = m.
Proof. unfold Provision. intros H. by go_cases. Qed.

Lemma manager_step_inv a x op : manager_inv a x → manager_inv a (manager_step x op).
Proof.
  intros [Hcfg Ho Hp Ha]. destruct op as [device route ma mc|r|i|r|]; simpl.
  - destruct (Provision (mgr x) device route ma mc) as [m' [[t r]|e]] eqn:HP.
    2:{ apply Provision_Err in HP as ->. by constructor. }
    apply Provision_spec in HP as (w & routeID & _ & Hr & -> & Hroute & He & Hd & _). simpl.
    rewrite lookup_insert_eq. constructor; simpl; [done| | |done].
    + unfold waiting in *. simpl. etrans; [apply submseteq_skips_l, waiting_insert|].
      rewrite <- Permutation_middle, (comm (++) (provisioned x)).
      by apply submseteq_skip.
    + intros r' w' [[<- <-]|[? ?]]%lookup_insert_Some; [|by apply Hp]. by rewrite Hroute, Hd.
  - unfold connectBegin. destruct (pending (mgr x) !! r) as [w|] eqn:Hk; [|by constructor].
    assert (∀ r' w', delete r (pending (mgr x)) !! r' = Some w' → pending (mgr x) !! r' = Some w') as Hdel.
    { intros r' w' [_ ?]%lookup_delete_Some. done. }
    unfold waiting in *. rewrite (waiting_delete _ _ _ Hk) in Ho. simpl.
    destruct (active (mgr x) !! r) as [id|] eqn:Hact; simpl; constructor; simpl; try done; try (by eauto).
    + rewrite <- Permutation_middle in Ho. etrans; [|apply Ho]. by apply submseteq_cons.
    + unfold waiting. simpl. by rewrite <- app_assoc.
    + intros r' id [[<- <-]|[? Hr]]%lookup_insert_Some.
      * exists (mkManagedConnection r false false). rewrite lookup_app_r, Nat.sub_diag by lia. done.
      * destruct (Ha _ _ Hr) as (c & Hc & ?). exists c. split; [|done]. by apply lookup_app_l_Some.
  - destruct (connections (mgr x) !! i) as [c|] eqn:Hc; [|by constructor].
    destruct (done c) eqn:Hdone; [by constructor|]. constructor; simpl; [done|done|done|].
    intros r id' [Hne Hr]%lookup_delete_Some. destruct (Ha _ _ Hr) as (c' & Hc' & Hr' & Hd').
    assert (i ≠ id') as Hid by congruence. exists c'. split; [|done].
    by rewrite !list_lookup_alter_ne.
  - unfold CancelRoute. destruct (active (mgr x) !! r) as [id|] eqn:Hact; [|by constructor].
    constructor; [done|done|done|]. intros r' id' Hr. destruct (Ha _ _ Hr) as (c & Hc & <- & <-).
    pose proof (cancel_lookup (mgr x) id id') as E.
    rewrite Hc in E. eexists. split; [exact E|]. by case_decide.
  - destruct (cancels_spec (map_to_list (active (mgr x))).*2 (mgr x)) as (E & _).
    constructor; simpl; [by rewrite E| |done|done]. unfold waiting. simpl. rewrite app_nil_r.
    etrans; [|apply Ho]. by apply submseteq_inserts_r.
Qed.

Lemma manager_run_inv id ops x : manager_inv id x → manager_inv id (foldl manager_step x ops).
Proof. revert x. induction ops as [|op ops IH]; intros x Hi; [done|]. by apply IH, manager_step_inv. Qed.

(** In every run of a new manager a provisioned ticket is dialled at most
    once; the tickets that wait are Agent tickets for the Agent's own device, each
    filed under its route; an active route is that of one connection that is not
    over.  Closing forgets every waiting ticket and active route and cancels every
    connection it finds active, and whatever it cancels has its local end closed. *)
Theorem route_dialled_once config m ops :
  NewManager config = Ok m →
  let x := foldl manager_step (mkManagerRun m [] []) ops in
  (NoDup (provisioned x) → NoDup (dialled x ++ waiting (mgr x))) ∧
  (∀ w, w ∈ dialled x → w ∈ provisioned x) ∧
  (∀ r w, pending (mgr x) !! r = Some w →
     hexEncode (RouteId w) = r ∧ Ticket_Endpoint w = RELAY_ENDPOINT_AGENT ∧
     DeviceId w = Config_AgentID config) ∧
  (∀ r id, active (mgr x) !! r = Some id →
     ∃ c, connections (mgr x) !! id = Some c ∧ conn_routeID c = r ∧ done c = false ∧
       ∃ c', connections (Close (mgr x)) !! id = Some c' ∧ closesLocal c' = true) ∧
  active (Close (mgr x)) = ∅ ∧ pending (Close (mgr x)) = ∅.
Proof.
  intros HN x.
  assert (manager_inv (Config_AgentID config) x) as [_ Ho Hp Ha].
  { apply manager_run_inv. unfold NewManager in HN. go_cases; by constructor. }
  split_and!; try done.
  - intros Hnd. apply submseteq_Permutation in Ho as [k Hk]. rewrite Hk in Hnd.
    by apply NoDup_app in Hnd as [? _].
  - intros w Hw. eapply elem_of_submseteq; [|exact Ho]. apply elem_of_app. by left.
  - intros r id Hr. destruct (Ha _ _ Hr) as (c & Hc & Hrc & Hd). exists c. split_and!; try done.
    destruct (cancels_spec (map_to_list (active (mgr x))).*2 (mgr x)) as (_ & _ & _ & Hl).
    specialize (Hl id). rewrite Hc in Hl. eexists. split; [exact Hl|]. simpl.
    rewrite decide_True; [by unfold closesLocal; simpl; rewrite Hd|].
    apply list_elem_of_fmap. exists (r, id). split; [done|]. by apply elem_of_map_to_list.
Qed.
End Runs.
