(* ===== verification/RateLimit.v ===== *)
(** * The rate limiter of the management endpoint ([cmd/vibebridge/ratelimit.go])

    A counter per client address and window.  Times and durations are nanoseconds;
    the counter is Go's 64-bit [int]. *)

From S2P Require Import Prelude.

Record rateEntry := mkRateEntry { count : Z; windowEnd : Z }.

#[global] Instance rateEntry_eta : Eta rateEntry := fun e => mkRateEntry (count e) (windowEnd e).

Record rateLimiter := mkRateLimiter {
  window : Z;
  maxReqs : Z;
  rate_entries : gmap string rateEntry;
}.

#[global] Instance rateLimiter_eta : Eta rateLimiter := fun rl =>
  mkRateLimiter (window rl) (maxReqs rl) (rate_entries rl).

Definition newRateLimiter (maxReqs window : Z) : rateLimiter := mkRateLimiter window maxReqs ∅.

(** [allow], with its reading of the clock. *)
Definition allow (rl : rateLimiter) (now : Z) (ip : string) : rateLimiter * bool :=
  let restart :=
    let rl := rl <| rate_entries ::= insert ip (mkRateEntry 1 (now + window rl)) |> in
    (if Z.of_nat (size (rate_entries rl)) >? 1000
     then rl <| rate_entries ::= filter (fun kv => ¬ now > windowEnd kv.2) |> else rl, true) in
  match rate_entries rl !! ip with
  | None => restart
  | Some entry =>
      if now >? windowEnd entry then restart
      else
        let entry := entry <| count ::= fun n => i64 (n + 1) |> in
        (rl <| rate_entries ::= insert ip entry |>, count entry <=? maxReqs rl)
  end.

(** ** Who is asking *)

(** [indexOfByte]; -1 when the byte does not occur. *)
Fixpoint indexFrom (i : Z) (s : string) (b : ascii) : Z :=
  match s with
  | EmptyString => -1
  | String c s' => if bool_decide (c = b) then i else indexFrom (i + 1) s' b
  end.
Definition indexOfByte (s : string) (b : ascii) : Z := indexFrom 0 s b.

(** [clientIP]: the [X-Forwarded-For] header of the request, and its remote
    address. *)
Definition clientIP (forwarded remoteAddr : string) : string :=
  let cut s b := let idx := indexOfByte s b in
                 if idx >? 0 then String.substring 0 (Z.to_nat idx) s else s in
  if negb (bool_decide (forwarded = EmptyString)) then cut forwarded ","%char
  else cut remoteAddr ":"%char.

Inductive RateOutcome := RateLimited (retryAfter : string) | Served.

(** [rateLimitMiddleware]. *)
Definition rateLimitMiddleware (rl : rateLimiter) (now : Z) (forwarded remoteAddr : string)
    : rateLimiter * RateOutcome :=
  match allow rl now (clientIP forwarded remoteAddr) with
  | (rl, false) => (rl, RateLimited "60")
  | (rl, true) => (rl, Served)
  end.

(** ** The bound *)

(** The times at which requests of [ip] were allowed, in a run of requests. *)
Fixpoint allowedTimes (rl : rateLimiter) (ip : string) (requests : list (Z * string)) : list Z :=
  match requests with
  | [] => []
  | (now, who) :: requests =>
      let '(rl', ok) := allow rl now who in
      (if ok && bool_decide (who = ip) then [now] else []) ++ allowedTimes rl' ip requests
  end.

(** Every request comes at [now] or later, in order. *)
Fixpoint requests_from (now : Z) (requests : list (Z * string)) : Prop :=
  match requests with
  | [] => True
  | (t, _) :: requests => now <= t ∧ requests_from t requests
  end.

Definition in_interval (lo hi : Z) (times : list Z) : Z := len (filter (fun t => lo <= t <= hi) times).

Section Bound.
Context (ip : string) (lo : Z).

(** [limit] requests per window, and at least the one that opens it. *)
Definition limit (rl : rateLimiter) : Z := Z.max 1 (maxReqs rl).

(** What the entry of the address says about the requests allowed so far: [last] is
    the end of its latest window, [n] the number allowed in the interval, and [seen]
    the requests so far. *)
Record window_inv (rl : rateLimiter) (now last n seen : Z) : Prop := mkWindowInv {
  wi_entry : match rate_entries rl !! ip with
             | Some e => windowEnd e = last ∧ 1 <= count e <= seen
             | None => last < now
             end;
  wi_last : last <= now + window rl;
  wi_count : 0 <= n <= 2 * limit rl ∧ 0 <= seen;
  wi_before : last < lo → n = 0;
  wi_first : last - window rl <= lo →
             n <= limit rl ∧ ∀ e, rate_entries rl !! ip = Some e → n <= Z.min (count e) (limit rl);
  wi_second : last - window rl <= lo + window rl →
              ∀ e, rate_entries rl !! ip = Some e → n <= limit rl + Z.min (count e) (limit rl);
}.

Lemma filter_entry (m : gmap string rateEntry) now k e :
  filter (fun kv : string * rateEntry => ¬ now > windowEnd kv.2) m !! k = Some e ↔
  m !! k = Some e ∧ now <= windowEnd e.
Proof. rewrite map_lookup_filter_Some. simpl. naive_solver lia. Qed.

(** What [allow] does to the entry of the address itself and to others. *)
Lemma allow_self rl now rl' ok :
  0 <= window rl → allow rl now ip = (rl', ok) →
  window rl' = window rl ∧ maxReqs rl' = maxReqs rl ∧
  match rate_entries rl !! ip with
  | Some e =>
      if now >? windowEnd e then ok = true ∧ rate_entries rl' !! ip = Some (mkRateEntry 1 (now + window rl))
      else rate_entries rl' !! ip = Some (mkRateEntry (i64 (count e + 1)) (windowEnd e)) ∧
           ok = (i64 (count e + 1) <=? maxReqs rl)
  | None => ok = true ∧ rate_entries rl' !! ip = Some (mkRateEntry 1 (now + window rl))
  end.
Proof.
  intros Hw. unfold allow.
  assert (∀ rl2 : rateLimiter,
    rl2 = (rl <| rate_entries ::= insert ip (mkRateEntry 1 (now + window rl)) |>) ∨
    rl2 = (rl <| rate_entries ::= insert ip (mkRateEntry 1 (now + window rl)) |>)
            <| rate_entries ::= filter (fun kv => ¬ now > windowEnd kv.2) |> →
    window rl2 = window rl ∧ maxReqs rl2 = maxReqs rl ∧
    rate_entries rl2 !! ip = Some (mkRateEntry 1 (now + window rl))) as Hnew.
  { intros rl2 [-> | ->]; (split; [done|split; [done|]]); simpl; [apply lookup_insert_eq|].
    apply filter_entry. rewrite lookup_insert_eq. simpl. split; [done|lia]. }
  destruct (rate_entries rl !! ip) as [e|] eqn:He; [destruct (now >? windowEnd e)|].
  2: { intros [= <- <-]. simpl. rewrite lookup_insert_eq. done. }
  all: match goal with |- (if ?b then _ else _, true) = _ → _ => destruct b end; intros [= <- <-];
    match goal with |- window ?x = _ ∧ _ => destruct (Hnew x) as (E1 & E2 & E3); [auto|] end; auto.
Qed.

Lemma allow_other rl now who rl' ok :
  who ≠ ip → allow rl now who = (rl', ok) →
  window rl' = window rl ∧ maxReqs rl' = maxReqs rl ∧
  (rate_entries rl' !! ip = rate_entries rl !! ip ∨
   ∃ e, rate_entries rl !! ip = Some e ∧ windowEnd e < now ∧ rate_entries rl' !! ip = None).
Proof.
  intros Hne. unfold allow.
  assert (∀ v, (<[who := v]> (rate_entries rl)) !! ip = rate_entries rl !! ip) as Hins
    by (intros v; by rewrite lookup_insert_ne).
  assert (∀ rl2 : rateLimiter,
    rl2 = (rl <| rate_entries ::= insert who (mkRateEntry 1 (now + window rl)) |>) ∨
    rl2 = (rl <| rate_entries ::= insert who (mkRateEntry 1 (now + window rl)) |>)
            <| rate_entries ::= filter (fun kv => ¬ now > windowEnd kv.2) |> →
    window rl2 = window rl ∧ maxReqs rl2 = maxReqs rl ∧
    (rate_entries rl2 !! ip = rate_entries rl !! ip ∨
     ∃ e, rate_entries rl !! ip = Some e ∧ windowEnd e < now ∧ rate_entries rl2 !! ip = None)) as Hnew.
  { intros rl2 [-> | ->]; (split; [done|split; [done|]]); simpl; [left; apply Hins|].
    match goal with |- ?f !! ip = _ ∨ _ => destruct (f !! ip) as [e|] eqn:Hf end.
    - apply filter_entry in Hf as [Hf _]. rewrite Hins in Hf. by left.
    - destruct (rate_entries rl !! ip) as [e|] eqn:He; [|by left]. right. exists e. split_and!; try done.
      destruct (decide (windowEnd e < now)); [done|]. exfalso.
      match type of Hf with ?m !! ip = None => assert (m !! ip = Some e) as Hs; [|congruence] end.
      apply filter_entry. rewrite Hins. split; [done|lia]. }
  destruct (rate_entries rl !! who) as [e|] eqn:He; [destruct (now >? windowEnd e)|].
  2: { intros [= <- <-]. simpl. rewrite Hins. auto. }
  all: match goal with |- (if ?b then _ else _, true) = _ → _ => destruct b end; intros [= <- <-]; apply Hnew; auto.
Qed.

(** The requests of the interval that one request adds. *)
Definition added (w t : Z) (counted : bool) : Z := if counted && (lo <=? t) && (t <=? lo + w) then 1 else 0.

Lemma window_step rl now last n seen t who rl' ok :
  0 <= window rl → now <= t → seen < 2 ^ 63 - 1 → window_inv rl now last n seen →
  allow rl t who = (rl', ok) →
  window rl' = window rl ∧ maxReqs rl' = maxReqs rl ∧
  ∃ last', window_inv rl' t last' (n + added (window rl) t (ok && bool_decide (who = ip))) (seen + 1).
Proof.
  intros Hw Ht Hseen [He Hlast Hc Hb H1 H2] Ha. unfold added. destruct (decide (who = ip)) as [->|Hne].
  - rewrite (bool_decide_eq_true_2 (ip = ip)), andb_true_r by done.
    destruct (allow_self _ _ _ _ Hw Ha) as (E1 & E2 & E3). split_and!; [done|done|].
    assert (limit rl' = limit rl) as El by (unfold limit; by rewrite E2).
    assert ((match rate_entries rl !! ip with Some e => (t >? windowEnd e) = true | None => True end) ∧ last < t ∧
        ok = true ∧ rate_entries rl' !! ip = Some (mkRateEntry 1 (t + window rl)) ∨
      ∃ e, rate_entries rl !! ip = Some e ∧ t <= last ∧ windowEnd e = last ∧ 1 <= count e <= seen ∧
        rate_entries rl' !! ip = Some (mkRateEntry (count e + 1) last) ∧ ok = (count e + 1 <=? maxReqs rl)) as Hcase.
    { destruct (rate_entries rl !! ip) as [e|]; [|left; naive_solver lia].
      destruct He as [He Hce]. destruct (Z.gtb_spec t (windowEnd e)); [left; naive_solver lia|].
      assert (i64 (count e + 1) = count e + 1) as Hi by (unfold i64; rewrite Z.mod_small; lia).
      rewrite Hi in E3. right. exists e. subst last. naive_solver. }
    destruct Hcase as [(_ & Hl & -> & Hr)|(e & Hr0 & Htl & Hend & Hce & Hr & Hok)].
    + assert (last - window rl <= lo → n <= limit rl) as H1' by naive_solver.
      assert (1 <= limit rl) as Hlim by (unfold limit; lia). clear H1 H2 Ha E3.
      exists (t + window rl). rewrite ?andb_true_l.
      constructor; rewrite ?Hr, ?E1, ?El; simpl; try intros ? e [= <-]; simpl;
        destruct (lo <=? t) eqn:?, (t <=? lo + window rl) eqn:?; simpl; try lia.
      all: intros; split; [lia|intros e [= <-]; simpl; lia].
    + rewrite Hr0 in *.
      assert (last - window rl <= lo → n <= Z.min (count e) (limit rl)) as H1' by naive_solver.
      assert (last - window rl <= lo + window rl → n <= limit rl + Z.min (count e) (limit rl)) as H2' by naive_solver.
      assert (ok = true → count e + 1 <= limit rl) as Hok' by (unfold limit; lia).
      assert (1 <= limit rl) as Hlim by (unfold limit; lia). clear H1 H2 Ha E3 Hok.
      exists last. constructor; rewrite ?Hr, ?E1, ?El; simpl; try intros ? e' [= <-]; simpl;
        destruct ok, (lo <=? t) eqn:?, (t <=? lo + window rl) eqn:?; simpl; try lia.
      all: intros; split; [lia|intros e' [= <-]; simpl; lia].
  - rewrite (bool_decide_eq_false_2 (who = ip)), andb_false_r by done. simpl. rewrite Z.add_0_r.
    destruct (allow_other _ _ _ _ _ Hne Ha) as (E1 & E2 & E3). split_and!; [done|done|].
    assert (limit rl' = limit rl) as El by (unfold limit; by rewrite E2). exists last.
    destruct E3 as [E3|(e & Hr0 & Hend & E3)]; constructor; rewrite ?E3, ?E1, ?El; try lia; try done.
    all: try (rewrite Hr0 in *; naive_solver lia).
    destruct (rate_entries rl !! ip); naive_solver lia.
Qed.

Lemma window_run requests : ∀ rl now last n seen,
  0 <= window rl → window_inv rl now last n seen → requests_from now requests →
  seen + len requests < 2 ^ 63 - 1 →
  n + in_interval lo (lo + window rl) (allowedTimes rl ip requests) <= 2 * limit rl.
Proof.
  induction requests as [|[t who] requests IH]; intros rl now last n seen Hw Hi Hr Hseen.
  - destruct Hi as [_ _ [? _] _ _ _]. change (n + 0 <= 2 * limit rl). lia.
  - destruct Hr as [Ht Hr]. rewrite len_cons in Hseen. pose proof (len_nonneg requests).
    simpl. destruct (allow rl t who) as [rl' ok] eqn:Ha.
    destruct (window_step rl now last n seen t who rl' ok Hw Ht ltac:(lia) Hi Ha) as (E1 & E2 & last' & Hi').
    assert (limit rl' = limit rl) as El by (unfold limit; by rewrite E2).
    specialize (IH rl' t last' _ _ ltac:(lia) Hi' Hr). specialize (IH ltac:(lia)). rewrite El, E1 in IH.
    enough (in_interval lo (lo + window rl)
              ((if ok && bool_decide (who = ip) then [t] else []) ++ allowedTimes rl' ip requests) =
            added (window rl) t (ok && bool_decide (who = ip)) +
            in_interval lo (lo + window rl) (allowedTimes rl' ip requests)) as -> by lia.
    unfold in_interval, added. destruct (ok && bool_decide (who = ip)); simpl; [|lia].
    rewrite filter_cons. destruct (decide (lo <= t <= lo + window rl)) as [Hin|Hin].
    + rewrite len_cons. destruct (Z.leb_spec lo t), (Z.leb_spec t (lo + window rl)); simpl; lia.
    + destruct (Z.leb_spec lo t), (Z.leb_spec t (lo + window rl)); simpl; lia.
Qed.
End Bound.

(** C40: whatever requests arrive from whatever addresses, with a clock that does not
    go back, the limiter allows one address at most twice its limit in any interval
    as long as the window: the limit in each of two windows that meet there. *)
Theorem requests_are_limited maxReqs window now requests ip lo :
  0 <= window → requests_from now requests → len requests < 2 ^ 63 - 1 →
  in_interval lo (lo + window) (allowedTimes (newRateLimiter maxReqs window) ip requests)
    <= 2 * Z.max 1 maxReqs.
Proof.
  intros Hw Hr Hlen.
  assert (window_inv ip lo (newRateLimiter maxReqs window) now (Z.min (now - 1) (lo - 1)) 0 0) as Hi.
  { constructor; simpl; rewrite ?lookup_empty; unfold limit; simpl; try lia; try done.
    all: intros; try split; try lia; try done. }
  pose proof (window_run ip lo requests (newRateLimiter maxReqs window) _ _ _ _ Hw Hi Hr ltac:(lia)) as H.
  unfold limit in H. simpl in H. lia.
Qed.

(** With a limit of ten per minute, nineteen requests of one address pass within
    two seconds around the end of its first window. *)
Definition burst : list (Z * string) :=
  (0, "10.0.0.7"%string) ::
  map (fun i => (59 * 10 ^ 9 + Z.of_nat i, "10.0.0.7"%string)) (seq 0 9) ++
  map (fun i => (60 * 10 ^ 9 + 1 + Z.of_nat i, "10.0.0.7"%string)) (seq 0 10).

Lemma requests_are_limited_witness :
  in_interval (59 * 10 ^ 9) (59 * 10 ^ 9 + 60 * 10 ^ 9)
    (allowedTimes (newRateLimiter 10 (60 * 10 ^ 9)) "10.0.0.7" burst) <= 20 ∧
  in_interval (59 * 10 ^ 9) (61 * 10 ^ 9)
    (allowedTimes (newRateLimiter 10 (60 * 10 ^ 9)) "10.0.0.7" burst) = 19.
Proof.
  split; [|vm_compute; reflexivity].
  apply (requests_are_limited 10 (60 * 10 ^ 9) 0 burst "10.0.0.7" (59 * 10 ^ 9)).
  - lia.
  - vm_compute. repeat split; discriminate.
  - vm_compute. reflexivity.
Defined.

(** An IPv6 peer is known by what precedes the first colon of its address, and a
    request that names a forwarded address is counted under that name. *)
Example client_addresses :
  clientIP EmptyString "10.0.0.7:5123" = "10.0.0.7"%string ∧ clientIP EmptyString "[2001:db8::1]:5123" = "[2001"%string ∧
  clientIP "1.2.3.4, 5.6.7.8" "10.0.0.7:5123" = "1.2.3.4"%string.
Proof. vm_compute. done. Qed.
