(* ===== verification/GoNet.v ===== *)
(** * Addresses ([net], [net/netip])

    What the command line reads of the standard library's package [net]: a host
    and port, an IP address from its text, and the kinds of addresses.  An address
    is its bytes: 16 when it was parsed, 4 or 16 when the system reports it. *)

From S2P Require Import Prelude.
From S2P Require Import Utf8.
From S2P Require Import Encoding.
From S2P Require Import PairedSession.

(** ** Host and port *)

(** [net.SplitHostPort]; [SplitHostPort] of [PairedSession] is its host. *)
Definition SplitPort (hostport : string) : option (string * string) :=
  match SplitHostPort hostport with
  | None => None
  | Some host =>
      let l := list_ascii_of_string hostport in
      match lastIndexByte ":" l with
      | None => None
      | Some i => Some (host, string_of_list_ascii (drop (S i) l))
      end
  end.

Definition hasChar (c : ascii) (s : string) : bool := hasByte c (list_ascii_of_string s).

(** [net.JoinHostPort]. *)
Definition JoinHostPort (host port : string) : string :=
  if hasChar ":" host then ("[" ++ host ++ "]:" ++ port)%string else (host ++ ":" ++ port)%string.

(** ** Parsing *)

Definition decimal (c : ascii) : option Z :=
  let v := ascii_val c - 48 in if (0 <=? v) && (v <=? 9) then Some v else None.

(** [parseIPv4Fields]: [first] at the first byte, [afterDot] behind a dot. *)
Fixpoint parseIPv4Fields (s : list ascii) (first afterDot : bool) (val digLen pos : Z) (fields : list Z)
    : option (list Z) :=
  match s with
  | [] => if pos <? 3 then None else Some (fields ++ [val])
  | c :: s' =>
      match decimal c with
      | Some d =>
          if (digLen =? 1) && (val =? 0) then None
          else if val * 10 + d >? 255 then None
          else parseIPv4Fields s' false false (val * 10 + d) (digLen + 1) pos fields
      | None =>
          if bool_decide (c = "."%char) then
            if first || bool_decide (s' = []) || afterDot then None
            else if pos =? 3 then None
            else parseIPv4Fields s' false true 0 0 (pos + 1) (fields ++ [val])
          else None
      end
  end.

Definition parseIPv4 (s : list ascii) : option (list Z) := parseIPv4Fields s true false 0 0 0 [].

(** The digits of a group: their number, the value and the rest; [None] when there
    are more than four. *)
Fixpoint hexGroup (s : list ascii) (off acc : Z) : option (Z * Z * list ascii) :=
  match s with
  | [] => Some (off, acc, [])
  | c :: s' =>
      match fromHexChar c with
      | None => Some (off, acc, s)
      | Some d => if off >? 3 then None else hexGroup s' (off + 1) (acc * 16 + d)
      end
  end.

(** The end of [parseIPv6]: the ellipsis is expanded. *)
Definition expandIPv6 (ip : list Z) (ellipsis : option nat) (rest : list ascii) : option (list Z) :=
  if bool_decide (rest ≠ []) then None
  else if len ip <? 16 then
    match ellipsis with
    | None => None
    | Some e => Some (take e ip ++ replicate (16 - length ip) 0 ++ drop e ip)
    end
  else if bool_decide (is_Some ellipsis) then None else Some ip.

(** The loop over the groups; every round but the last adds two bytes to [ip], so
    eight rounds are enough. *)
Fixpoint parseGroups (fuel : nat) (s : list ascii) (ip : list Z) (ellipsis : option nat) : option (list Z) :=
  match fuel with
  | O => expandIPv6 ip ellipsis s
  | S fuel =>
      match hexGroup s 0 0 with
      | None => None
      | Some (off, acc, rest) =>
          if off =? 0 then None
          else match rest with
          | [] => expandIPv6 (ip ++ [acc / 256; acc mod 256]) ellipsis []
          | c :: rest' =>
              if bool_decide (c = "."%char) then
                if bool_decide (ellipsis = None) && negb (len ip =? 12) then None
                else if len ip + 4 >? 16 then None
                else match parseIPv4 s with
                | None => None
                | Some v4 => expandIPv6 (ip ++ v4) ellipsis []
                end
              else
                let ip := ip ++ [acc / 256; acc mod 256] in
                if negb (bool_decide (c = ":"%char)) then None
                else match rest' with
                | [] => None
                | c' :: rest'' =>
                    if bool_decide (c' = ":"%char) then
                      match ellipsis with
                      | Some _ => None
                      | None =>
                          match rest'' with
                          | [] => expandIPv6 ip (Some (length ip)) []
                          | _ => parseGroups fuel rest'' ip (Some (length ip))
                          end
                      end
                    else parseGroups fuel rest' ip ellipsis
                end
          end
      end
  end.

Definition parseIPv6 (s : list ascii) : option (list Z) :=
  match s with
  | c1 :: c2 :: rest =>
      if bool_decide (c1 = ":"%char) && bool_decide (c2 = ":"%char) then
        match rest with
        | [] => Some (replicate 16 0)
        | _ => parseGroups 8 rest [] (Some 0%nat)
        end
      else parseGroups 8 s [] None
  | _ => parseGroups 8 s [] None
  end.

Definition v4InV6Prefix : list Z := replicate 10 0 ++ [255; 255].

(** [net.ParseIP]: [netip.ParseAddr] looks for the first of [.], [:] and [%]; an
    address with a zone is refused. *)
Fixpoint firstMark (s : list ascii) : option ascii :=
  match s with
  | [] => None
  | c :: s' => if bool_decide (c = "."%char) || bool_decide (c = ":"%char) || bool_decide (c = "%"%char)
               then Some c else firstMark s'
  end.

Definition IP := list Z.

Definition ParseIP (text : string) : option IP :=
  let s := list_ascii_of_string text in
  if hasByte "%" s then None
  else match firstMark s with
  | None => None
  | Some c => if bool_decide (c = "."%char) then app v4InV6Prefix <$> parseIPv4 s else parseIPv6 s
  end.

(** ** Kinds of addresses *)

Definition To4 (ip : IP) : option (list Z) :=
  if len ip =? 4 then Some ip
  else if (len ip =? 16) && bool_decide (take 12 ip = v4InV6Prefix) then Some (drop 12 ip)
  else None.

Definition To16 (ip : IP) : option (list Z) :=
  if len ip =? 4 then Some (v4InV6Prefix ++ ip) else if len ip =? 16 then Some ip else None.

Definition IPv6loopback : IP := replicate 15 0 ++ [1].

(** [IP.Equal]: an IPv4 address equals its IPv6 form. *)
Definition IP_Equal (a b : IP) : bool :=
  if len a =? len b then bool_decide (a = b)
  else if (len a =? 4) && (len b =? 16) then bool_decide (take 12 b = v4InV6Prefix) && bool_decide (a = drop 12 b)
  else if (len a =? 16) && (len b =? 4) then bool_decide (take 12 a = v4InV6Prefix) && bool_decide (drop 12 a = b)
  else false.

Definition IsLoopback (ip : IP) : bool :=
  match To4 ip with
  | Some v4 => bool_decide (v4 !! 0%nat = Some 127)
  | None => IP_Equal ip IPv6loopback
  end.

(** RFC 1918 and RFC 4193. *)
Definition IsPrivate (ip : IP) : bool :=
  match To4 ip with
  | Some v4 =>
      match v4 with
      | a :: b :: _ => (a =? 10) || ((a =? 172) && (Z.land b 240 =? 16)) || ((a =? 192) && (b =? 168))
      | _ => false
      end
  | None => (len ip =? 16) && match ip with a :: _ => Z.land a 254 =? 252 | [] => false end
  end.

(** [IP.String] of an IPv4 address. *)
Definition String4 (v4 : list Z) : string := String.concat "." (map pretty v4).

(** ** Facts *)

Definition is_byte (z : Z) : Prop := 0 <= z < 256.

Lemma decimal_range c d : decimal c = Some d → 0 <= d <= 9.
Proof. unfold decimal. intros H. case_match; [|done]. split_bool. simplify_eq. lia. Qed.

Lemma parseIPv4Fields_bytes s first afterDot val digLen pos fields l :
  parseIPv4Fields s first afterDot val digLen pos fields = Some l →
  is_byte val → Forall is_byte fields → len fields = pos → 0 <= pos <= 3 → Forall is_byte l ∧ len l = 4.
Proof.
  revert first afterDot val digLen pos fields.
  induction s as [|c s IH]; intros first afterDot val digLen pos fields Hl Hv Hf Hp Hb; simpl in Hl.
  - destruct (pos <? 3) eqn:?; simplify_eq. rewrite len_app. split; [by apply Forall_app; auto|].
    unfold len at 2. simpl. lia.
  - destruct (decimal c) as [d|] eqn:Hd.
    + apply decimal_range in Hd. destruct (_ && _); [done|]. destruct (_ >? 255) eqn:?; [done|].
      eapply IH; [exact Hl|unfold is_byte in *; lia|done|done|done].
    + destruct (bool_decide (c = "."%char)); [|done]. destruct (_ || _); [done|]. destruct (pos =? 3) eqn:?; [done|].
      eapply IH; [exact Hl|unfold is_byte; lia|by apply Forall_app; auto| |lia].
      rewrite len_app. unfold len at 2. simpl. lia.
Qed.

(** A dotted quad is an address of 16 bytes that is an IPv4 address. *)
Lemma parseIPv4_bytes s l : parseIPv4 s = Some l → Forall is_byte l ∧ len l = 4.
Proof. intros H. eapply parseIPv4Fields_bytes; [exact H|unfold is_byte; lia|constructor|done|lia]. Qed.

Lemma To4_v4 l : len l = 4 → To4 (v4InV6Prefix ++ l) = Some l.
Proof.
  destruct l as [|a [|b [|c [|d [|? ?]]]]]; unfold len; simpl; intros; try lia. done.
Qed.

Lemma hexGroup_range s off acc off' acc' rest :
  hexGroup s off acc = Some (off', acc', rest) → 0 <= acc < 16 ^ off → 0 <= off <= 4 → 0 <= acc' < 65536.
Proof.
  revert off acc. induction s as [|c s IH]; intros off acc Hs Ha Ho; simpl in Hs.
  - simplify_eq. assert (16 ^ off' <= 16 ^ 4) by (apply Z.pow_le_mono_r; lia). lia.
  - destruct (fromHexChar c) as [d|] eqn:Hd.
    + destruct (off >? 3) eqn:?; [done|]. eapply IH; [exact Hs| |lia].
      assert (0 <= d < 16).
      { unfold fromHexChar in Hd. repeat case_match; simplify_eq; split_bool; lia. }
      rewrite Z.add_1_r, Z.pow_succ_r by lia. lia.
    + simplify_eq. assert (16 ^ off' <= 16 ^ 4) by (apply Z.pow_le_mono_r; lia). lia.
Qed.

Lemma expandIPv6_bytes ip ellipsis rest l :
  expandIPv6 ip ellipsis rest = Some l → Forall is_byte ip → len ip <= 16 → Forall is_byte l ∧ len l = 16.
Proof.
  unfold expandIPv6. intros H Hf Hl. case_match; [done|]. destruct (len ip <? 16) eqn:Hlt.
  - destruct ellipsis as [e|]; [|done]. simplify_eq. split.
    + rewrite !Forall_app. split_and!; [by apply Forall_take|apply Forall_replicate; unfold is_byte; lia|by apply Forall_drop].
    + unfold len in *. rewrite !length_app, length_replicate, length_take, length_drop. lia.
  - case_match; [done|]. simplify_eq. split; [done|]. lia.
Qed.

Lemma parseGroups_bytes fuel s ip ellipsis l :
  parseGroups fuel s ip ellipsis = Some l → Forall is_byte ip → len ip + 2 * Z.of_nat fuel <= 16 →
  Forall is_byte l ∧ len l = 16.
Proof.
  revert s ip ellipsis. induction fuel as [|fuel IH]; intros s ip ellipsis Hs Hf Hl; simpl in Hs.
  { eapply expandIPv6_bytes; [exact Hs|done|lia]. }
  destruct (hexGroup s 0 0) as [[[off acc] rest]|] eqn:Hh; [|done].
  apply hexGroup_range in Hh; [|lia..]. destruct (off =? 0); [done|].
  assert (Forall is_byte (ip ++ [acc / 256; acc mod 256])) as Hf'.
  { apply Forall_app. split; [done|]. repeat constructor; unfold is_byte;
      first [by apply Z.div_pos; lia|apply Z.div_lt_upper_bound; lia|by apply Z.mod_pos_bound]. }
  assert (len (ip ++ [acc / 256; acc mod 256]) = len ip + 2) as Hl' by (by rewrite len_app).
  destruct rest as [|c rest]; [by eapply expandIPv6_bytes; [exact Hs|done|lia]|].
  destruct (bool_decide (c = "."%char)).
  - destruct (_ && _); [done|]. destruct (_ >? 16) eqn:?; [done|]. destruct (parseIPv4 s) as [v4|] eqn:Hv; [|done].
    apply parseIPv4_bytes in Hv as [? Hlv]. eapply expandIPv6_bytes; [exact Hs|by apply Forall_app|].
    rewrite len_app. lia.
  - destruct (negb _); [done|]. destruct rest as [|c' rest]; [done|].
    destruct (bool_decide (c' = ":"%char)); [|eapply IH; [exact Hs|done|lia]].
    destruct ellipsis; [done|]. destruct rest as [|? rest]; [eapply expandIPv6_bytes; [exact Hs|done|lia]|].
    eapply IH; [exact Hs|done|lia].
Qed.

(** A parsed address has sixteen bytes. *)
Lemma ParseIP_bytes text ip : ParseIP text = Some ip → Forall is_byte ip ∧ len ip = 16.
Proof.
  unfold ParseIP. destruct (hasByte _ _); [done|]. destruct (firstMark _) as [c|]; [|done].
  destruct (bool_decide (c = "."%char)).
  - intros (v4 & Hv & ->)%fmap_Some. apply parseIPv4_bytes in Hv as [? Hl]. split.
    + apply Forall_app. split; [|done]. unfold v4InV6Prefix. repeat constructor; unfold is_byte; lia.
    + by rewrite len_app, Hl.
  - unfold parseIPv6. intros H. destruct (list_ascii_of_string text) as [|c1 [|c2 rest]];
      try (eapply parseGroups_bytes; [exact H|constructor|by cbn]).
    destruct (_ && _); [|eapply parseGroups_bytes; [exact H|constructor|by cbn]].
    destruct rest; [|eapply parseGroups_bytes; [exact H|constructor|by cbn]].
    simplify_eq. split; [|done]. repeat constructor; unfold is_byte; lia.
Qed.

Example addresses :
  map ParseIP ["127.0.0.1"; "::1"; "10.0.0.256"; "1.2.3"; "01.2.3.4"; "fe80::1%eth0"; "::ffff:10.0.0.1"; "1::2::3";
               "1:2:3:4:5:6:7:8"; "1:2:3:4:5:6:7"; "2001:db8::"; "12345::"]%string =
  [Some (v4InV6Prefix ++ [127; 0; 0; 1]); Some IPv6loopback; None; None; None; None;
   Some (v4InV6Prefix ++ [10; 0; 0; 1]); None; Some [0; 1; 0; 2; 0; 3; 0; 4; 0; 5; 0; 6; 0; 7; 0; 8]; None;
   Some ([32; 1; 13; 184] ++ replicate 12 0); None] ∧
  map (fun t => IsLoopback <$> ParseIP t) ["127.8.0.1"; "::1"; "::2"; "::ffff:127.0.0.1"]%string =
  [Some true; Some true; Some false; Some true] ∧
  map (fun t => IsPrivate <$> ParseIP t) ["10.1.2.3"; "172.31.0.1"; "172.32.0.1"; "192.168.1.1"; "fd00::1"]%string =
  [Some true; Some true; Some false; Some true; Some true] ∧
  SplitPort "[::1]:8787" = Some ("::1", "8787")%string ∧ JoinHostPort "::1" "8787" = "[::1]:8787"%string ∧
  String4 [192; 168; 1; 20] = "192.168.1.20"%string.
Proof. vm_compute. done. Qed.
