(* ===== verification/ToolAdapter.v ===== *)
(** * Tool adapters ([internal/tooladapter/adapter.go])

    The terminal input that presents verified attachments to a command-line tool.
    Paths are those of the operating systems other than Windows, where
    [filepath.VolumeName] is empty. *)

From S2P Require Import Prelude.
From S2P Require Import Utf8.

Definition Generic : string := "generic".
Definition Codex : string := "codex".
Definition Claude : string := "claude".

Definition ErrUnknownAdapter := ErrorString "tool adapter is not supported".
Definition ErrInvalidPromptAction := ErrorString "attachment prompt action is invalid".

Record AttachmentPromptRequest := mkAttachmentPromptRequest {
  Prompt : string;
  RelativePaths : list string;
  Submit : bool;
}.

Record PreparedAction := mkPreparedAction {
  Prepared_Preview : string;
  Prepared_TerminalInput : bytes;
}.

Record Adapter := mkAdapter { kind : string }.

Definition IsSupported (name : string) : bool :=
  bool_decide (name = Generic) || bool_decide (name = Codex) || bool_decide (name = Claude).

Definition New (name : string) : result Adapter :=
  if negb (IsSupported name) then Err ErrUnknownAdapter else Ok (mkAdapter name).

(** ** Checks *)

(** [unicode.IsControl] and [unicode.Is(unicode.Cf, r)]. *)
Definition IsControl (r : Z) : bool := in_range 0 0x1F r || in_range 0x7F 0x9F r.
Definition unicode_Cf (r : Z) : bool :=
  existsb (fun '(lo, hi) => in_range lo hi r)
    [(0xAD, 0xAD); (0x600, 0x605); (0x61C, 0x61C); (0x6DD, 0x6DD); (0x70F, 0x70F); (0x890, 0x891);
     (0x8E2, 0x8E2); (0x180E, 0x180E); (0x200B, 0x200F); (0x202A, 0x202E); (0x2060, 0x2064);
     (0x2066, 0x206F); (0xFEFF, 0xFEFF); (0xFFF9, 0xFFFB); (0x110BD, 0x110BD); (0x110CD, 0x110CD);
     (0x13430, 0x1343F); (0x1BCA0, 0x1BCA3); (0x1D173, 0x1D17A); (0xE0001, 0xE0001); (0xE0020, 0xE007F)].

Definition validPrompt (prompt : string) : bool :=
  if bool_decide (TrimSpace prompt = EmptyString) then false
  else match runes (bytes_of_string prompt) with
  | None => false
  | Some rs =>
      forallb (fun value => negb (negb (value =? 10) && negb (value =? 9) &&
                                  (IsControl value || unicode_Cf value))) rs
  end.

(** [strings.ContainsRune] of an ASCII character, and [strings.HasPrefix] of one. *)
Fixpoint ContainsChar (s : string) (c : ascii) : bool :=
  match s with
  | EmptyString => false
  | String x s' => bool_decide (x = c) || ContainsChar s' c
  end.
Definition startsWith (s : string) (c : ascii) : bool :=
  match s with EmptyString => false | String x _ => bool_decide (x = c) end.

Definition hasWindowsVolumePrefix (path : string) : bool :=
  match path with
  | String first (String c _) =>
      bool_decide (c = ":"%char) &&
      (in_range 65 90 (Z.of_N (N_of_ascii first)) || in_range 97 122 (Z.of_N (N_of_ascii first)))
  | _ => false
  end.

Definition validRelativeReference (path : string) : bool :=
  if bool_decide (path = EmptyString) || hasWindowsVolumePrefix path || startsWith path "\" ||
     startsWith path "/" || ContainsChar path "`" then false
  else match runes (bytes_of_string path) with
  | None => false
  | Some rs => forallb (fun value => negb (IsControl value || unicode_Cf value)) rs
  end.

(** ** Formats *)

Definition finalizeAction (preview : string) (submit : bool) : PreparedAction :=
  mkPreparedAction preview (bytes_of_string preview ++ if submit then ["013"%byte] else []).

Definition newline : string := String "010" EmptyString.

Definition genericItem (path : string) : string := (newline ++ "- `" ++ path ++ "`")%string.
Definition prepareGeneric (request : AttachmentPromptRequest) : PreparedAction :=
  finalizeAction
    (Prompt request ++ newline ++ newline ++ "Use the following local files:" ++
     String.concat EmptyString (map genericItem (RelativePaths request)))%string (Submit request).

Definition codexItem (path : string) : string := (" @" ++ path)%string.
Definition prepareCodex (request : AttachmentPromptRequest) : PreparedAction :=
  finalizeAction (Prompt request ++ String.concat EmptyString (map codexItem (RelativePaths request)))%string
    (Submit request).

Definition claudeItem (path : string) : string := (newline ++ "@" ++ path)%string.
Definition prepareClaude (request : AttachmentPromptRequest) : PreparedAction :=
  finalizeAction
    (Prompt request ++ newline ++ String.concat EmptyString (map claudeItem (RelativePaths request)))%string
    (Submit request).

(** The checks of [Prepare] on one path. *)
Definition validPath (a : Adapter) (path : string) : bool :=
  validRelativeReference path &&
  negb (negb (bool_decide (kind a = Generic)) && ContainsChar path "@").

Definition Prepare (a : Adapter) (request : AttachmentPromptRequest) : result PreparedAction :=
  if negb (validPrompt (Prompt request)) || bool_decide (RelativePaths request = []) then
    Err ErrInvalidPromptAction
  else if negb (forallb (validPath a) (RelativePaths request)) then Err ErrInvalidPromptAction
  else Ok (if bool_decide (kind a = Codex) then prepareCodex request
           else if bool_decide (kind a = Claude) then prepareClaude request
           else prepareGeneric request).

(** * Facts about the tool adapters

    What an adapter types into the terminal contains no control byte but the ones
    the prompt may hold and the final carriage return, and its text determines the
    prompt's files. *)

(** ** Bytes and runes *)

(** An ASCII byte of a rune is the whole rune. *)
Lemma DecodeRune_ascii b p :
  let '(r, size) := DecodeRune (b :: p) in
  (r =? RuneError) && (size =? 1)%nat = false →
  ∀ x, x ∈ take size (b :: p) → byte_val x < 128 → byte_val x = r.
Proof.
  destruct (DecodeRune (b :: p)) as [r size] eqn:HD. intros Hok x Hx Hlt.
  assert (size = 1%nat ∧ r = byte_val b ∨ Forall (fun x => 128 <= byte_val x) (take size (b :: p)))
    as [[-> ->]|Hall].
  - destruct p as [|b1 [|b2 [|b3 p]]];
      unfold DecodeRune, utf8_first, is_cont, in_range in HD;
      repeat (case_match; simplify_eq/=); try done; try (by left);
      right; repeat (apply Forall_cons; split; [lia|]); apply Forall_nil; done.
  - simpl in Hx. rewrite take_0 in Hx. by apply list_elem_of_singleton in Hx as ->.
  - rewrite Forall_forall in Hall. specialize (Hall x Hx). simpl in Hall. lia.
Qed.

(** The ASCII bytes of a text are runes of it. *)
Lemma decodeRunes_ascii n p rs :
  decodeRunes n p = Some rs → ∀ b, b ∈ p → byte_val b < 128 → byte_val b ∈ rs.
Proof.
  revert p rs; induction n as [|n IH]; intros [|b0 p] rs HD b Hb Hlt; try by inversion Hb.
  cbn [decodeRunes] in HD. pose proof (DecodeRune_ascii b0 p) as Ha.
  destruct (DecodeRune (b0 :: p)) as [r size] eqn:HDR. case_match eqn:Hbad; [done|].
  destruct (decodeRunes n (drop size (b0 :: p))) as [rs'|] eqn:Hrest; [|done]. simplify_eq/=.
  rewrite <- (take_drop size (b0 :: p)) in Hb. apply elem_of_app in Hb as [Hb|Hb].
  - rewrite (Ha eq_refl b Hb Hlt). by left.
  - right. by eapply IH.
Qed.

Definition control_byte (b : byte) : bool := (byte_val b <? 32) || (byte_val b =? 127).

(** A text whose control runes are all of some kind has only control bytes of that kind. *)
Lemma no_control_bytes (allowed : Z → bool) s rs :
  runes (bytes_of_string s) = Some rs →
  (∀ v, v ∈ rs → IsControl v = true → allowed v = true) →
  Forall (fun b => control_byte b = true → allowed (byte_val b) = true) (bytes_of_string s).
Proof.
  intros Hr Hf. apply Forall_forall. intros b Hb Hc. unfold control_byte in Hc.
  pose proof (byte_val_range b). apply Hf; [|unfold IsControl, in_range; lia].
  eapply decodeRunes_ascii; eauto. lia.
Qed.

(** A line feed or a tab. *)
Definition layout (v : Z) : bool := (v =? 10) || (v =? 9).
Definition typeable (b : byte) : Prop := control_byte b = true → layout (byte_val b) = true.

Lemma validPrompt_typeable prompt :
  validPrompt prompt = true → Forall typeable (bytes_of_string prompt).
Proof.
  unfold validPrompt. case_bool_decide; [done|]. case_match eqn:Hr; [|done]. intros Hf.
  eapply no_control_bytes; [done|]. intros v Hv Hc.
  eapply forallb_forall in Hf; [|by apply list_elem_of_In]. rewrite Hc in Hf.
  unfold layout. destruct (v =? 10), (v =? 9); done.
Qed.

Lemma validRelativeReference_typeable path :
  validRelativeReference path = true → Forall typeable (bytes_of_string path).
Proof.
  unfold validRelativeReference. case_match; [done|]. case_match eqn:Hr; [|done]. intros Hf.
  eapply no_control_bytes; [done|]. intros v Hv Hc.
  eapply forallb_forall in Hf; [|by apply list_elem_of_In]. by rewrite Hc in Hf.
Qed.

(** ** What is typed *)

(** The part of the text that follows the prompt. *)
Definition references (a : Adapter) (paths : list string) : string :=
  if bool_decide (kind a = Codex) then String.concat EmptyString (map codexItem paths)
  else if bool_decide (kind a = Claude) then newline ++ String.concat EmptyString (map claudeItem paths)
  else newline ++ newline ++ "Use the following local files:" ++ String.concat EmptyString (map genericItem paths).

Lemma Prepare_Ok a request act :
  Prepare a request = Ok act →
  validPrompt (Prompt request) = true ∧ RelativePaths request ≠ [] ∧
  Forall (fun path => validPath a path = true) (RelativePaths request) ∧
  act = finalizeAction (Prompt request ++ references a (RelativePaths request)) (Submit request).
Proof.
  unfold Prepare. destruct (negb _ || _) eqn:H1; [done|]. destruct (negb (forallb _ _)) eqn:H2; [done|].
  intros Heq. injection Heq as Heq. subst act. split_bool. split_and!; [done|done| |].
  - apply Forall_forall. intros path Hin. eapply forallb_forall in H2; [done|]. by apply list_elem_of_In.
  - unfold references. by repeat case_bool_decide.
Qed.

Lemma concat_typeable (item : string → string) paths :
  (∀ path, path ∈ paths → Forall typeable (bytes_of_string (item path))) →
  Forall typeable (bytes_of_string (String.concat EmptyString (map item paths))).
Proof.
  induction paths as [|path paths IH]; intros Hall; [constructor|].
  assert (bytes_of_string (String.concat EmptyString (map item (path :: paths))) =
    bytes_of_string (item path) ++ bytes_of_string (String.concat EmptyString (map item paths))) as ->.
  { destruct paths; simpl; [by rewrite app_nil_r|by rewrite bytes_of_string_app]. }
  apply Forall_app. split; [apply Hall; by left|]. apply IH. intros p Hp. apply Hall. by right.
Qed.

Lemma references_typeable a paths :
  Forall (fun path => validPath a path = true) paths → Forall typeable (bytes_of_string (references a paths)).
Proof.
  intros Hall. assert (∀ path, path ∈ paths → Forall typeable (bytes_of_string path)) as Hpath.
  { intros path Hin. rewrite Forall_forall in Hall. specialize (Hall path Hin).
    unfold validPath in Hall. split_bool. by apply validRelativeReference_typeable. }
  unfold references. repeat case_bool_decide; rewrite ?bytes_of_string_app;
    repeat (apply Forall_app; split); try (by repeat constructor);
    apply concat_typeable; intros path Hin; unfold codexItem, claudeItem, genericItem;
    rewrite ?bytes_of_string_app; repeat (apply Forall_app; split); auto; by repeat constructor.
Qed.

(** C18: the bytes typed for an accepted request are the previewed text, then one
    carriage return when the request submits; the text holds no control byte but
    line feeds and tabs, so it can neither submit itself nor steer the terminal. *)
Theorem typed_text_is_inert a request act :
  Prepare a request = Ok act →
  Prepared_TerminalInput act =
    bytes_of_string (Prepared_Preview act) ++ (if Submit request then ["013"%byte] else []) ∧
  Forall (fun b => control_byte b = true → byte_val b = 10 ∨ byte_val b = 9)
    (bytes_of_string (Prepared_Preview act)).
Proof.
  intros (Hp & _ & Hall & ->)%Prepare_Ok. split; [done|]. simpl. rewrite bytes_of_string_app.
  eapply Forall_impl.
  - apply Forall_app. split; [by apply validPrompt_typeable|by apply references_typeable].
  - intros b Hb Hc. specialize (Hb Hc). unfold layout in Hb. lia.
Qed.

(** ** The files are the ones of the request *)

Fixpoint free_of (c : ascii) (s : string) : Prop :=
  match s with EmptyString => True | String x s' => x ≠ c ∧ free_of c s' end.

Lemma ContainsChar_free s c : ContainsChar s c = false → free_of c s.
Proof. induction s as [|x s IH]; [done|]. simpl. intros ?. split_bool. auto. Qed.

Lemma validPath_newline_free path :
  validRelativeReference path = true → free_of "010"%char path.
Proof.
  unfold validRelativeReference. case_match; [done|]. case_match eqn:Hr; [|done]. intros Hf.
  assert (Forall (fun b => control_byte b = true → false = true) (bytes_of_string path)) as Hall.
  { apply (no_control_bytes (fun _ => false)) with l; [done|]. intros v Hv Hc.
    eapply forallb_forall in Hf; [|by apply list_elem_of_In]. by rewrite Hc in Hf. }
  clear -Hall. induction path as [|c path IH]; [done|]. simpl in *.
  apply Forall_cons in Hall as [Hc Hall]. split; [|by apply IH]. intros ->. by specialize (Hc eq_refl).
Qed.

(** What may follow a reference: nothing, or a text that begins with a mark. *)
Definition follows (mark rest : string) : Prop := rest = EmptyString ∨ ∃ r, rest = (mark ++ r)%string.

(** References without the second character of a two-character mark end at the mark. *)
Lemma mark_inj x y p1 p2 r1 r2 :
  x ≠ y → free_of y p1 → free_of y p2 →
  follows (String x (String y EmptyString)) r1 → follows (String x (String y EmptyString)) r2 →
  (p1 ++ r1 = p2 ++ r2)%string → p1 = p2 ∧ r1 = r2.
Proof.
  intros Hxy. revert p2. induction p1 as [|c1 p1 IH]; intros [|c2 p2] F1 F2 R1 R2 Heq; simpl in *.
  - done.
  - destruct R1 as [->|[r ->]]; [done|]. simpl in Heq. simplify_eq/=.
    destruct p2 as [|c p2]; simpl in *; [|simplify_eq; naive_solver].
    destruct R2 as [->|[r' ->]]; simplify_eq/=; naive_solver.
  - destruct R2 as [->|[r ->]]; [done|]. simpl in Heq. simplify_eq/=.
    destruct p1 as [|c p1]; simpl in *; [|simplify_eq; naive_solver].
    destruct R1 as [->|[r' ->]]; simplify_eq/=; naive_solver.
  - simplify_eq/=. destruct (IH p2) as [-> ->]; naive_solver.
Qed.

(** References without the first character of the mark end there, too. *)
Lemma first_mark_inj x m p1 p2 r1 r2 :
  free_of x p1 → free_of x p2 → follows (String x m) r1 → follows (String x m) r2 →
  (p1 ++ r1 = p2 ++ r2)%string → p1 = p2 ∧ r1 = r2.
Proof.
  revert p2. induction p1 as [|c1 p1 IH]; intros [|c2 p2] F1 F2 R1 R2 Heq; simpl in *.
  - done.
  - destruct R1 as [->|[r ->]]; [done|]. simplify_eq/=. naive_solver.
  - destruct R2 as [->|[r ->]]; [done|]. simplify_eq/=. naive_solver.
  - simplify_eq/=. destruct (IH p2) as [-> ->]; naive_solver.
Qed.

Lemma string_app_inj_l s t u : (s ++ t = s ++ u)%string → t = u.
Proof. induction s; simpl; intros H; [done|]. simplify_eq. auto. Qed.

Lemma string_app_nil_r s : (s ++ EmptyString)%string = s.
Proof. induction s as [|c s IH]; [done|]. exact (f_equal (String c) IH). Qed.

Section References.
Context (ok : string → bool) (item : string → string) (mark : string).

(** An item is its mark and a text from which the path can be told when more items follow. *)
Context (Hcons : ∀ p1 p2 r1 r2, ok p1 = true → ok p2 = true → follows mark r1 → follows mark r2 →
  (item p1 ++ r1 = item p2 ++ r2)%string → p1 = p2 ∧ r1 = r2).
Context (Hmark : ∀ p, ∃ r, item p = (mark ++ r)%string) (Hne : mark ≠ EmptyString).

Lemma concat_items p ps :
  String.concat EmptyString (map item (p :: ps)) =
    (item p ++ String.concat EmptyString (map item ps))%string.
Proof. destruct ps; simpl; [|done]. by rewrite string_app_nil_r. Qed.

Lemma items_follow ps : follows mark (String.concat EmptyString (map item ps)).
Proof.
  destruct ps as [|p ps]; [by left|]. right. rewrite concat_items. destruct (Hmark p) as [r ->].
  eexists. apply string_app_assoc.
Qed.

Lemma items_nonempty p ps : String.concat EmptyString (map item (p :: ps)) ≠ EmptyString.
Proof. rewrite concat_items. destruct (Hmark p) as [r ->]. by destruct mark. Qed.

Lemma items_inj ps qs :
  Forall (fun p => ok p = true) ps → Forall (fun p => ok p = true) qs →
  String.concat EmptyString (map item ps) = String.concat EmptyString (map item qs) → ps = qs.
Proof.
  revert qs; induction ps as [|p ps IH]; intros [|q qs] Hps Hqs Heq; [done|..].
  - symmetry in Heq. by apply items_nonempty in Heq.
  - by apply items_nonempty in Heq.
  - inversion_clear Hps. inversion_clear Hqs. rewrite !concat_items in Heq.
    apply Hcons in Heq as [-> Heq]; auto using items_follow. f_equal. auto.
Qed.
End References.

Lemma validPath_reserved a p :
  validPath a p = true → free_of "010"%char p ∧ free_of "`"%char p ∧ (kind a ≠ Generic → free_of "@"%char p).
Proof.
  unfold validPath. intros Hp. split_bool. split_and!.
  - by apply validPath_newline_free.
  - unfold validRelativeReference in *. case_match; [done|]. split_bool. by apply ContainsChar_free.
  - intros Hk. rewrite bool_decide_eq_false_2 in * by done. by apply ContainsChar_free.
Qed.

Lemma references_inj a ps qs :
  Forall (fun p => validPath a p = true) ps → Forall (fun p => validPath a p = true) qs →
  references a ps = references a qs → ps = qs.
Proof.
  unfold references. intros Hps Hqs. intros Heq.
  destruct (bool_decide (kind a = Codex)) eqn:Hk; [|destruct (bool_decide (kind a = Claude))]; split_bool.
  - eapply (items_inj (validPath a) codexItem " @"); try done; [|intros p; by eexists].
    intros p1 p2 r1 r2 (_ & _ & H1)%validPath_reserved (_ & _ & H2)%validPath_reserved F1 F2 Hi.
    unfold codexItem in Hi. rewrite !string_app_assoc in Hi. apply string_app_inj_l in Hi.
    rewrite Hk in *. apply (mark_inj " " "@"); auto.
  - apply string_app_inj_l in Heq.
    eapply (items_inj (validPath a) claudeItem (newline ++ "@")); try done; [|intros p; by eexists].
    intros p1 p2 r1 r2 (H1 & _ & _)%validPath_reserved (H2 & _ & _)%validPath_reserved F1 F2 Hi.
    unfold claudeItem in Hi. rewrite !string_app_assoc in Hi. do 2 apply string_app_inj_l in Hi.
    apply (first_mark_inj "010" "@"); auto.
  - do 3 apply string_app_inj_l in Heq.
    eapply (items_inj (validPath a) genericItem (newline ++ "- `")); try done; [|intros p; by eexists].
    intros p1 p2 r1 r2 (_ & H1 & _)%validPath_reserved (_ & H2 & _)%validPath_reserved F1 F2 Hi.
    unfold genericItem in Hi. rewrite !string_app_assoc in Hi. do 2 apply string_app_inj_l in Hi.
    apply (first_mark_inj "`" EmptyString) in Hi as [-> Hr]; auto; [|right; by eexists..].
    split; [done|]. by apply string_app_inj_l in Hr.
Qed.

(** Two accepted requests with the same prompt whose texts are equal name the
    same files in the same order: a file's name cannot pose as several references,
    nor as text. *)
Theorem typed_text_names_its_files a request1 request2 act1 act2 :
  Prepare a request1 = Ok act1 → Prepare a request2 = Ok act2 →
  Prompt request1 = Prompt request2 → Prepared_Preview act1 = Prepared_Preview act2 →
  RelativePaths request1 = RelativePaths request2.
Proof.
  intros (_ & _ & H1 & ->)%Prepare_Ok (_ & _ & H2 & ->)%Prepare_Ok Hp Heq.
  simpl in Heq. rewrite Hp in Heq. apply string_app_inj_l in Heq. by eapply references_inj.
Qed.

(** ** Executed requests *)

Definition example_request : AttachmentPromptRequest :=
  mkAttachmentPromptRequest "Look at these" [".vibebridge/a b.png"; ".vibebridge/c.txt"] true.

Definition example_prepared : PreparedAction :=
  mkPreparedAction "Look at these @.vibebridge/a b.png @.vibebridge/c.txt"
    (bytes_of_string "Look at these @.vibebridge/a b.png @.vibebridge/c.txt" ++ ["013"%byte]).

Example example_prepare : Prepare (mkAdapter Codex) example_request = Ok example_prepared.
Proof. vm_compute. reflexivity. Qed.

Example example_reject :
  Prepare (mkAdapter Codex) (mkAttachmentPromptRequest "x" ["a @b"] true) = Err ErrInvalidPromptAction ∧
  Prepare (mkAdapter Generic) (mkAttachmentPromptRequest "x" ["a`b"] true) = Err ErrInvalidPromptAction ∧
  is_ok (Prepare (mkAdapter Generic) (mkAttachmentPromptRequest "x" ["a @b"] true)) = true.
Proof. vm_compute. auto. Qed.

Lemma typed_text_is_inert_witness :
  Prepared_TerminalInput example_prepared =
    bytes_of_string (Prepared_Preview example_prepared) ++ (if Submit example_request then ["013"%byte] else []) ∧
  Forall (fun b => control_byte b = true → byte_val b = 10 ∨ byte_val b = 9)
    (bytes_of_string (Prepared_Preview example_prepared)).
Proof. exact (typed_text_is_inert (mkAdapter Codex) example_request example_prepared example_prepare). Defined.

Lemma typed_text_names_its_files_witness :
  RelativePaths example_request = [".vibebridge/a b.png"; ".vibebridge/c.txt"]%string.
Proof.
  exact (typed_text_names_its_files (mkAdapter Codex) example_request example_request example_prepared
           example_prepared example_prepare example_prepare eq_refl eq_refl).
Defined.
