(* ===== verification/GoTime.v ===== *)
(** * Durations and floating point of the standard library

    [float64] arithmetic (IEEE 754 binary64, rounding to nearest even), as far as
    the code uses it, and [time.ParseDuration]. *)

From S2P Require Import Prelude.

From Stdlib Require Import Floats.SpecFloat.

(** ** [float64] *)

Abbreviation float64 := spec_float.

Definition float64_of (z : Z) : float64 := binary_normalize 53 1024 z 0 false.
Definition float64_mul (x y : float64) : float64 := SFmul 53 1024 x y.
Definition float64_div (x y : float64) : float64 := SFdiv 53 1024 x y.
Definition float64_leb (x y : float64) : bool := SFleb x y.

(** Rounding towards zero; [None] when there is no integer to round to. *)
Definition float64_trunc (x : float64) : option Z :=
  match x with
  | S754_zero _ => Some 0
  | S754_finite s m e =>
      let n := if 0 <=? e then Z.pos m * 2 ^ e else Z.pos m / 2 ^ (- e) in
      Some (if s then - n else n)
  | _ => None
  end.

(** ** [time.ParseDuration] *)

Definition digit (c : ascii) : option Z :=
  let n := Z.of_N (N_of_ascii c) in
  if (48 <=? n) && (n <=? 57) then Some (n - 48) else None.

(** [leadingInt]: the number and the rest; [None] on overflow. *)
Fixpoint leadingInt (x : Z) (s : list ascii) : option (Z * list ascii) :=
  match s with
  | c :: s' =>
      match digit c with
      | None => Some (x, s)
      | Some d =>
          if x >? 2 ^ 63 / 10 then None
          else let x := u64 (x * 10 + d) in
               if x >? 2 ^ 63 then None else leadingInt x s'
      end
  | [] => Some (x, [])
  end.

(** [leadingFraction]: the digits that fit, their scale, and the rest. *)
Fixpoint leadingFraction (x : Z) (scale : float64) (overflow : bool) (s : list ascii)
    : Z * float64 * list ascii :=
  match s with
  | c :: s' =>
      match digit c with
      | None => (x, scale, s)
      | Some d =>
          if overflow then leadingFraction x scale true s'
          else if x >? (2 ^ 63 - 1) / 10 then leadingFraction x scale true s'
          else let y := u64 (x * 10 + d) in
               if y >? 2 ^ 63 then leadingFraction x scale true s'
               else leadingFraction y (float64_mul scale (float64_of 10)) false s'
      end
  | [] => (x, scale, [])
  end.

(** The unit: everything up to the next digit or period. *)
Fixpoint leadingUnit (s : list ascii) : list ascii * list ascii :=
  match s with
  | c :: s' =>
      if bool_decide (c = "."%char) || bool_decide (is_Some (digit c)) then ([], s)
      else let '(u, rest) := leadingUnit s' in (c :: u, rest)
  | [] => ([], [])
  end.

(** [unitMap]; the two spellings of the microsecond are U+00B5 and U+03BC. *)
Definition unitMap : list (list ascii * Z) :=
  [(["n"; "s"], 1); (["u"; "s"], 1000); (["194"; "181"; "s"], 1000); (["206"; "188"; "s"], 1000);
   (["m"; "s"], 1000000); (["s"], 1000000000); (["m"], 60 * 1000000000); (["h"], 3600 * 1000000000)]%char.
Definition unitOf (u : list ascii) : option Z :=
  snd <$> List.find (fun kv : list ascii * Z => bool_decide (kv.1 = u)) unitMap.

Definition errDuration (s : list ascii) : error :=
  ErrorString "time: invalid duration".

(** The loop over [value unit] pairs; each round consumes a character, so the
    length of the text is enough fuel. *)
Fixpoint parseTerms (fuel : nat) (d : Z) (s : list ascii) : result Z :=
  match fuel, s with
  | _, [] => Ok d
  | O, _ => Err (errDuration s)
  | S fuel, c :: _ =>
      if negb (bool_decide (c = "."%char) || bool_decide (is_Some (digit c))) then Err (errDuration s)
      else match leadingInt 0 s with
      | None => Err (errDuration s)
      | Some (v, s1) =>
          let pre := negb (bool_decide (length s = length s1)) in
          let '(f, scale, s2, post) :=
            match s1 with
            | c1 :: rest =>
                if bool_decide (c1 = "."%char) then
                  let '(f, scale, s2) := leadingFraction 0 (float64_of 1) false rest in
                  (f, scale, s2, negb (bool_decide (length rest = length s2)))
                else (0, float64_of 1, s1, false)
            | [] => (0, float64_of 1, s1, false)
            end in
          if negb pre && negb post then Err (errDuration s)
          else
            let '(u, rest) := leadingUnit s2 in
            if bool_decide (u = []) then Err (ErrorString "time: missing unit in duration")
            else match unitOf u with
            | None => Err (ErrorString "time: unknown unit in duration")
            | Some unit =>
                if v >? 2 ^ 63 / unit then Err (errDuration s)
                else
                  let v := v * unit in
                  let v := if f >? 0 then
                             u64 (v + match float64_trunc (float64_mul (float64_of f)
                                                             (float64_div (float64_of unit) scale)) with
                                      | Some n => n | None => 0 end)
                           else v in
                  if v >? 2 ^ 63 then Err (errDuration s)
                  else
                    let d := u64 (d + v) in
                    if d >? 2 ^ 63 then Err (errDuration s) else parseTerms fuel d rest
            end
      end
  end.

Definition ParseDuration (text : string) : result Z :=
  let orig := list_ascii_of_string text in
  let '(neg, s) := match orig with
                   | c :: s' => if bool_decide (c = "-"%char) then (true, s')
                                else if bool_decide (c = "+"%char) then (false, s') else (false, orig)
                   | [] => (false, []) end in
  if bool_decide (s = ["0"%char]) then Ok 0
  else if bool_decide (s = []) then Err (errDuration orig)
  else match parseTerms (length s) 0 s with
  | Err e => Err e
  | Ok d => if neg then Ok (i64 (- d))
            else if d >? 2 ^ 63 - 1 then Err (errDuration orig) else Ok d
  end.

Example duration_1h30m : ParseDuration "1h30m" = Ok (5400 * 1000000000).
Proof. vm_compute. reflexivity. Qed.
Example duration_fraction : ParseDuration "-1.5h" = Ok (- 5400 * 1000000000).
Proof. vm_compute. reflexivity. Qed.
Example duration_tiny : ParseDuration "0.3333333333333333333h" = Ok 1200000000000.
Proof. vm_compute. reflexivity. Qed.
Example duration_bad : is_ok (ParseDuration "30") = false ∧ is_ok (ParseDuration ".s") = false ∧
  is_ok (ParseDuration "9223372036854775808ns") = false.
Proof. vm_compute. done. Qed.

Lemma gtb_le a b : (a >? b) = false → a <= b.
Proof. lia. Qed.

(** Every duration fits 64 bits. *)
Lemma parseTerms_range fuel d s d' : 0 <= d <= 2 ^ 63 → parseTerms fuel d s = Ok d' → 0 <= d' <= 2 ^ 63.
Proof.
  revert d s. induction fuel as [|fuel IH]; intros d s Hd; destruct s as [|c s]; simpl; try done;
    try (by intros [= <-]).
  intros H. repeat (case_match; try done); simplify_eq.
  all: eapply IH; [|eassumption]; split; [apply u64_range|by apply gtb_le].
Qed.

Lemma ParseDuration_range text d : ParseDuration text = Ok d → - 2 ^ 63 <= d < 2 ^ 63.
Proof.
  unfold ParseDuration. intros H.
  destruct (match list_ascii_of_string text with [] => _ | _ => _ end) as [neg s].
  repeat (case_match; try done); simplify_eq; try lia.
  - unfold i64. pose proof (Z.mod_pos_bound (- a + 2 ^ 63) (2 ^ 64)). lia.
  - match goal with H : parseTerms _ _ _ = _ |- _ => apply parseTerms_range in H end; lia.
Qed.
