(* ===== verification/AgentConfig.v ===== *)
(** * The Agent's configuration ([internal/agentconfig/config.go])

    Loading and validating the configuration file.  Validation normalises the file
    in place and talks to the file system; the JSON decoder and the calls that read
    the file enter through their outcomes. *)

From S2P Require Import Prelude.
From S2P Require Import Utf8.
From S2P Require Import Path.
From S2P Require Import Workspace.
From S2P Require Import ToolAdapter.
From S2P Require Import GoTime.

Definition MinimumVersion : Z := 1.
Definition CurrentVersion : Z := 2.
Definition workspaceConfigVersion : Z := 2.
Definition maxConfigBytes : Z := 1024 * 1024.

(** ** Data *)

Record LaunchProfile := mkLaunchProfile {
  Profile_ID : string;
  Profile_Label : string;
  Executable : string;
  Args : list string;
  WorkspaceID : string;
  WorkingDirectory : string;
  EnvironmentAllowlist : list string;
  Profile_ToolAdapter : string;
  workspaceIDConfigured : bool;
}.

#[global] Instance LaunchProfile_eta : Eta LaunchProfile := fun p =>
  mkLaunchProfile (Profile_ID p) (Profile_Label p) (Executable p) (Args p) (WorkspaceID p)
    (WorkingDirectory p) (EnvironmentAllowlist p) (Profile_ToolAdapter p) (workspaceIDConfigured p).

Record File := mkFile {
  File_Version : Z;
  ListenAddress : string;
  WebDirectory : string;
  ReconnectTimeout : string;
  File_IdleTimeout : string;
  Workspaces : list Definition_;
  DefaultProfile : string;
  Profiles : list LaunchProfile;
  File_RelayURL : string;
  workspacesConfigured : bool;
}.

#[global] Instance File_eta : Eta File := fun c =>
  mkFile (File_Version c) (ListenAddress c) (WebDirectory c) (ReconnectTimeout c) (File_IdleTimeout c)
    (Workspaces c) (DefaultProfile c) (Profiles c) (File_RelayURL c) (workspacesConfigured c).

(** ** Fields *)

(** [profileIDPattern] is the pattern of workspace identifiers. *)
Definition profileIDPattern_MatchString (id : string) : bool := idPattern_MatchString id.

(** [environmentNamePattern]: [^[A-Za-z_][A-Za-z0-9_]*$]. *)
Definition nameStart (c : ascii) : bool :=
  let n := Z.of_N (N_of_ascii c) in
  in_range 65 90 n || in_range 97 122 n || bool_decide (c = "_"%char).
Definition nameChar (c : ascii) : bool :=
  nameStart c || in_range 48 57 (Z.of_N (N_of_ascii c)).
Definition environmentNamePattern_MatchString (name : string) : bool :=
  match list_ascii_of_string name with
  | first :: rest => nameStart first && forallb nameChar rest
  | [] => false
  end.

(** [strings.ToUpper] of a name that matches the pattern. *)
Definition upperAscii (a : ascii) : ascii :=
  let n := N_of_ascii a in if ((97 <=? n) && (n <=? 122))%N then ascii_of_N (n - 32) else a.
Fixpoint ToUpper (s : string) : string :=
  match s with EmptyString => EmptyString | String a s' => String (upperAscii a) (ToUpper s') end.

Fixpoint validateEnvironment (seen : gset string) (names : list string) : result unit :=
  match names with
  | [] => Ok tt
  | name :: names =>
      if negb (environmentNamePattern_MatchString name) then
        Err (ErrorString "environment_allowlist[%d] %q is not a valid environment variable name")
      else if bool_decide (ToUpper name ∈ seen) then
        Err (ErrorString "environment_allowlist contains duplicate %q")
      else validateEnvironment ({[ToUpper name]} ∪ seen) names
  end.

Definition validateDuration (name value : string) (allowZero : bool) : result unit :=
  if bool_decide (value = EmptyString) then Ok tt
  else match ParseDuration value with
  | Err e => Err (ErrorWrap (name ++ " %q is invalid") e)
  | Ok duration =>
      if (duration <? 0) || (negb allowZero && (duration =? 0)) then
        Err (ErrorString (name ++ " must be " ++
                          (if allowZero then "zero or greater" else "greater than zero")))
      else Ok tt
  end.

Definition usesWorkspaceFields (c : File) : bool :=
  workspacesConfigured c || (len (Workspaces c) >? 0) ||
  existsb (fun p => workspaceIDConfigured p || negb (bool_decide (WorkspaceID p = EmptyString)))
    (Profiles c).

(** ** Validation *)

Section Validation.
Context {F : Type} {fs : FileSystem F}.

(** The working directory of a profile. *)
Definition resolveWorkingDirectory (f : F) (p : LaunchProfile) (baseDirectory : string)
    (workspaceRegistry : Registry) : F * result string :=
  if negb (bool_decide (WorkspaceID p = EmptyString)) then
    match ResolveDirectory f workspaceRegistry (WorkspaceID p) (WorkingDirectory p) with
    | (f, Err e) => (f, Err (ErrorWrap "workspace_id %q" e))
    | (f, Ok dir) => (f, Ok dir)
    end
  else if negb (bool_decide (WorkingDirectory p = EmptyString)) then
    let dir := if negb (bool_decide (baseDirectory = EmptyString)) && negb (IsAbs (WorkingDirectory p))
               then Join [baseDirectory; WorkingDirectory p] else WorkingDirectory p in
    match filepath_Abs f dir with
    | (f, Err e) => (f, Err (ErrorWrap "resolve working_directory" e))
    | (f, Ok absolute) => (f, Ok (Clean absolute))
    end
  else (f, Ok (WorkingDirectory p)).

(** [LaunchProfile.validate]: the profile as it is left behind, and the outcome. *)
Definition LaunchProfile_validate (f : F) (p : LaunchProfile) (baseDirectory : string)
    (workspaceRegistry : Registry) : F * LaunchProfile * result unit :=
  if negb (profileIDPattern_MatchString (Profile_ID p)) then (f, p, Err (ErrorString "id %q must match %s"))
  else
    let p := p <| Profile_Label ::= TrimSpace |> in
    if bool_decide (Profile_Label p = EmptyString) then (f, p, Err (ErrorString "label must not be empty"))
    else
      let p := p <| Executable ::= TrimSpace |> in
      if bool_decide (Executable p = EmptyString) then
        (f, p, Err (ErrorString "executable must not be empty"))
      else
        let p := p <| Profile_ToolAdapter ::= TrimSpace |> in
        let p := if bool_decide (Profile_ToolAdapter p = EmptyString)
                 then p <| Profile_ToolAdapter := Generic |> else p in
        if negb (IsSupported (Profile_ToolAdapter p)) then
          (f, p, Err (ErrorString "tool_adapter %q is not supported"))
        else if existsb hasNUL (Args p) then (f, p, Err (ErrorString "args[%d] contains a NUL byte"))
        else match resolveWorkingDirectory f p baseDirectory workspaceRegistry with
        | (f, Err e) => (f, p, Err e)
        | (f, Ok dir) =>
            let p := p <| WorkingDirectory := dir |> in
            (f, p, validateEnvironment ∅ (EnvironmentAllowlist p))
        end.

(** The loop over the profiles, which it changes in place; the result says whether
    the default profile was met. *)
Fixpoint validateProfiles (f : F) (baseDirectory defaultProfile : string) (workspaceRegistry : Registry)
    (seen : gset string) (defaultFound : bool) (profiles : list LaunchProfile)
    : F * list LaunchProfile * result bool :=
  match profiles with
  | [] => (f, [], Ok defaultFound)
  | p :: rest =>
      match LaunchProfile_validate f p baseDirectory workspaceRegistry with
      | (f, p, Err e) => (f, p :: rest, Err (ErrorWrap "profiles[%d]" e))
      | (f, p, Ok _) =>
          if bool_decide (Profile_ID p ∈ seen) then
            (f, p :: rest, Err (ErrorString "duplicate profile id %q"))
          else
            let '(f, rest, r) :=
              validateProfiles f baseDirectory defaultProfile workspaceRegistry
                ({[Profile_ID p]} ∪ seen)
                (defaultFound || bool_decide (Profile_ID p = defaultProfile)) rest in
            (f, p :: rest, r)
      end
  end.

(** [File.validate]: the file as it is left behind, and the outcome. *)
Definition File_validate (f : F) (c : File) (baseDirectory : string) : F * File * result unit :=
  if (File_Version c <? MinimumVersion) || (File_Version c >? CurrentVersion) then
    (f, c, Err (ErrorString "unsupported version %d; supported versions are %d through %d"))
  else if (File_Version c <? workspaceConfigVersion) && usesWorkspaceFields c then
    (f, c, Err (ErrorString "workspaces and workspace_id require config version %d"))
  else if bool_decide (TrimSpace (DefaultProfile c) = EmptyString) then
    (f, c, Err (ErrorString "default_profile must not be empty"))
  else if len (Profiles c) =? 0 then
    (f, c, Err (ErrorString "profiles must contain at least one launch profile"))
  else match validateDuration "reconnect_timeout" (ReconnectTimeout c) false with
  | Err e => (f, c, Err e)
  | Ok _ =>
  match validateDuration "idle_timeout" (File_IdleTimeout c) true with
  | Err e => (f, c, Err e)
  | Ok _ =>
  match NewRegistry f (Workspaces c) baseDirectory with
  | (f, Err e) => (f, c, Err e)
  | (f, Ok workspaceRegistry) =>
      let c := c <| Workspaces := Definitions workspaceRegistry |> in
      let '(f, profiles, r) :=
        validateProfiles f baseDirectory (DefaultProfile c) workspaceRegistry ∅ false (Profiles c) in
      let c := c <| Profiles := profiles |> in
      match r with
      | Err e => (f, c, Err e)
      | Ok defaultFound =>
          if negb defaultFound then
            (f, c, Err (ErrorString "default_profile %q does not reference a configured profile"))
          else (f, c, Ok tt)
      end
  end
  end
  end.

(** [Validate] works on a copy of the struct, whose slice of profiles is the
    caller's: the caller's profiles are the ones left behind. *)
Definition Validate (f : F) (c : File) : F * File * result unit :=
  let '(f, copy, r) := File_validate f c EmptyString in
  (f, c <| Profiles := Profiles copy |>, r).

(** ** Loading *)

(** What the decoder finds after the first value. *)
Inductive NextValue := EndOfInput | AnotherValue | BadInput (e : error).

(** [json_Decode] yields the file and the unread input; [json_Fields] says whether
    [workspaces] and the [workspace_id] of each profile are present. *)
Class ConfigJSON := {
  json_Decode : bytes → result (File * bytes);
  json_Next : bytes → NextValue;
  json_Fields : bytes → result (bool * list bool);
}.
Context {json : ConfigJSON}.

Definition ensureJSONEnd (rest : bytes) : result unit :=
  match json_Next rest with
  | EndOfInput => Ok tt
  | AnotherValue => Err (ErrorString "multiple JSON values are not allowed")
  | BadInput e => Err e
  end.

(** The flags of the profiles, as far as both lists go. *)
Fixpoint markProfiles (profiles : list LaunchProfile) (fields : list bool) : list LaunchProfile :=
  match profiles, fields with
  | p :: ps, b :: bs => p <| workspaceIDConfigured := b |> :: markProfiles ps bs
  | _, _ => profiles
  end.

Definition markWorkspaceFieldPresence (content : bytes) (c : File) : result File :=
  match json_Fields content with
  | Err e => Err e
  | Ok (workspacesPresent, profileFields) =>
      Ok (c <| workspacesConfigured := workspacesPresent |>
            <| Profiles := markProfiles (Profiles c) profileFields |>)
  end.

(** [Load]; [opened], [size] and [content] are the outcomes of opening the file, of
    [Stat] and of reading it. *)
Definition Load (f : F) (path : string) (opened : result unit) (size : result Z) (content : result bytes)
    : F * result File :=
  match opened with
  | Err e => (f, Err (ErrorWrap "open config %q" e))
  | Ok _ =>
  match size with
  | Err e => (f, Err (ErrorWrap "stat config %q" e))
  | Ok size =>
      if size >? maxConfigBytes then (f, Err (ErrorString "config %q exceeds the %d byte limit"))
      else match content with
      | Err e => (f, Err (ErrorWrap "read config %q" e))
      | Ok content =>
          if len content >? maxConfigBytes then (f, Err (ErrorString "config %q exceeds the %d byte limit"))
          else match (c ← json_Decode content;
                      _ ← ensureJSONEnd c.2;
                      markWorkspaceFieldPresence content c.1) with
          | Err e => (f, Err (ErrorWrap "decode config %q" e))
          | Ok c =>
              match File_validate f c (Dir path) with
              | (f, _, Err e) => (f, Err (ErrorWrap "validate config %q" e))
              | (f, c, Ok _) => (f, Ok c)
              end
          end
      end
  end
  end.
End Validation.

(** ** Queries *)

Definition File_Profile (c : File) (id : string) : option LaunchProfile :=
  List.find (fun p => bool_decide (Profile_ID p = id)) (Profiles c).

Definition File_Workspace (c : File) (id : string) : option Definition_ :=
  List.find (fun d => bool_decide (Def_ID d = id)) (Workspaces c).

(** The zero duration of a text that does not parse is ignored with its error. *)
Definition parsedDuration (text : string) : option Z :=
  if bool_decide (text = EmptyString) then None
  else Some (match ParseDuration text with Ok d => d | Err _ => 0 end).

Definition ParsedReconnectTimeout (c : File) : option Z := parsedDuration (ReconnectTimeout c).
Definition ParsedIdleTimeout (c : File) : option Z := parsedDuration (File_IdleTimeout c).

(** * What a loaded configuration guarantees *)

Section Facts.
Context {F : Type} {fs : FileSystem F} {json : ConfigJSON}.
Implicit Types f : F.
Context (Getwd_absolute : ∀ f f' wd, os_Getwd f = (f', Ok wd) → IsAbs wd = true).

(** A profile the Agent can launch, given the workspaces of its file. *)
Record profile_ok (workspaces : list Definition_) (p : LaunchProfile) : Prop := mkProfileOk {
  po_id : profileIDPattern_MatchString (Profile_ID p) = true;
  po_label : Profile_Label p ≠ EmptyString;
  po_executable : Executable p ≠ EmptyString;
  po_adapter : is_ok (New (Profile_ToolAdapter p)) = true;
  po_args : Forall (fun a => hasNUL a = false) (Args p);
  po_environment : Forall (fun n => environmentNamePattern_MatchString n = true) (EnvironmentAllowlist p) ∧
                   NoDup (map ToUpper (EnvironmentAllowlist p));
  po_directory :
    if decide (WorkspaceID p = EmptyString)
    then WorkingDirectory p = EmptyString ∨ canonical (WorkingDirectory p)
    else canonical (WorkingDirectory p) ∧
      ∃ d, d ∈ workspaces ∧ Def_ID d = WorkspaceID p ∧ within (Def_Root d) (WorkingDirectory p);
}.

Lemma validateEnvironment_Ok seen names u :
  validateEnvironment seen names = Ok u →
  Forall (fun n => environmentNamePattern_MatchString n = true) names ∧ NoDup (map ToUpper names) ∧
  ∀ n, n ∈ map ToUpper names → n ∉ seen.
Proof.
  revert seen. induction names as [|n names IH]; intros seen; simpl.
  - intros _. split_and!; [constructor|constructor|set_solver].
  - destruct (environmentNamePattern_MatchString n) eqn:Hn; [|done]. simpl. case_bool_decide as Hs; [done|].
    intros (H1 & H2 & H3)%IH. split_and!.
    + by constructor.
    + constructor; [|done]. intros Hin. specialize (H3 _ Hin). set_solver.
    + intros m [->|Hm]%elem_of_cons; [done|]. specialize (H3 _ Hm). set_solver.
Qed.

Lemma resolveWorkingDirectory_Ok f p base r f' dir :
  registry_ok r → resolveWorkingDirectory f p base r = (f', Ok dir) →
  if decide (WorkspaceID p = EmptyString) then dir = EmptyString ∨ canonical dir
  else canonical dir ∧ ∃ d, d ∈ Definitions r ∧ Def_ID d = WorkspaceID p ∧ within (Def_Root d) dir.
Proof.
  intros Hr. unfold resolveWorkingDirectory. case_bool_decide as Hw; simpl.
  - rewrite decide_True by done. case_bool_decide as Hd; simpl; [by intros [= _ <-]; left|].
    destruct (filepath_Abs f _) as [g [a|e]] eqn:Ha; [|done]. intros [= _ <-]. right.
    apply canonical_Clean. by eapply filepath_Abs_Ok.
  - rewrite decide_False by done. destruct (ResolveDirectory f r _ _) as [g [a|e]] eqn:Ha; [|done].
    intros [= _ <-]. apply ResolveDirectory_Ok in Ha as (Hc & d & Hd & Hin); [|done..].
    split; [done|]. apply ok_lookup in Hd as [Hd Hid]; [|done]. by exists d.
Qed.

Lemma LaunchProfile_validate_Ok f p base r f' p' u :
  registry_ok r → LaunchProfile_validate f p base r = (f', p', Ok u) →
  profile_ok (Definitions r) p' ∧ Profile_ID p' = Profile_ID p ∧ WorkspaceID p' = WorkspaceID p ∧
  Args p' = Args p ∧ EnvironmentAllowlist p' = EnvironmentAllowlist p.
Proof.
  intros Hr. unfold LaunchProfile_validate. cbv zeta. intros H.
  destruct (negb (profileIDPattern_MatchString _)) eqn:Hid; [done|].
  simpl in H. destruct (bool_decide (TrimSpace (Profile_Label p) = _)) eqn:Hl; [done|].
  destruct (bool_decide (TrimSpace (Executable p) = _)) eqn:He; [done|].
  match type of H with context [IsSupported (Profile_ToolAdapter ?x)] => set (q := x) in H end.
  assert (Profile_ID q = Profile_ID p ∧ Profile_Label q = TrimSpace (Profile_Label p) ∧
    Executable q = TrimSpace (Executable p) ∧ Args q = Args p ∧ WorkspaceID q = WorkspaceID p ∧
    EnvironmentAllowlist q = EnvironmentAllowlist p) as (E1 & E2 & E3 & E4 & E5 & E6)
    by (subst q; by case_bool_decide).
  destruct (negb (IsSupported _)) eqn:Hs; [done|]. destruct (existsb hasNUL (Args q)) eqn:Ha; [done|].
  destruct (resolveWorkingDirectory f q base r) as [g [dir|e]] eqn:Hd; [|done].
  injection H as _ <- Henv. apply validateEnvironment_Ok in Henv as (Hn & Hnd & _).
  apply resolveWorkingDirectory_Ok in Hd; [|done]. split_bool.
  split_and!; try done. constructor; simpl; try congruence.
  - unfold New. by rewrite Hs.
  - apply Forall_forall. intros a Hin. destruct (hasNUL a) eqn:?; [|done].
    assert (existsb hasNUL (Args q) = true) by (apply existsb_exists; exists a; by rewrite <- list_elem_of_In).
    congruence.
  - by split.
Qed.

Lemma validateProfiles_Ok f base default r seen found ps f' ps' b :
  registry_ok r → validateProfiles f base default r seen found ps = (f', ps', Ok b) →
  Forall (profile_ok (Definitions r)) ps' ∧ map Profile_ID ps' = map Profile_ID ps ∧
  map WorkspaceID ps' = map WorkspaceID ps ∧ map Args ps' = map Args ps ∧
  map EnvironmentAllowlist ps' = map EnvironmentAllowlist ps ∧
  NoDup (map Profile_ID ps') ∧ (∀ id, id ∈ map Profile_ID ps' → id ∉ seen) ∧
  (b = true ↔ found = true ∨ default ∈ map Profile_ID ps').
Proof.
  intros Hr. revert f seen found ps'. induction ps as [|p ps IH]; intros f seen found ps'; simpl.
  { intros [= _ <- <-]. simpl. split_and!; try constructor; set_solver. }
  destruct (LaunchProfile_validate f p base r) as [[g p1] [u|e]] eqn:Hp; [|done].
  apply LaunchProfile_validate_Ok in Hp as (Hok & E1 & E2 & E3 & E4); [|done].
  case_bool_decide as Hseen; [done|].
  destruct (validateProfiles _ _ _ _ _ _ ps) as [[g1 ps1] r1] eqn:Hps. intros [= -> <- ->].
  apply IH in Hps as (H1 & H2 & H3 & H4 & H5 & H6 & H7 & H8). simpl.
  split_and!; try congruence.
  - by constructor.
  - constructor; [|done]. intros Hin%H7. set_solver.
  - intros id [->|Hin]%elem_of_cons; [done|]. apply H7 in Hin. set_solver.
  - rewrite H8, orb_true_iff, bool_decide_eq_true, elem_of_cons. naive_solver.
Qed.

Lemma validateDuration_Ok name value zero u :
  validateDuration name value zero = Ok u →
  value = EmptyString ∨ ∃ d, ParseDuration value = Ok d ∧ 0 <= d ∧ (zero = false → 0 < d).
Proof.
  unfold validateDuration. case_bool_decide as Hv; [by left|]. intros H. right.
  destruct (ParseDuration value) as [d|]; [|done]. exists d.
  destruct (Z.ltb_spec d 0); [done|]. destruct zero; simpl in H; [done|].
  destruct (Z.eqb_spec d 0); [done|]. split_and!; [done|done|lia].
Qed.

(** A configuration the Agent starts with. *)
Record config_ok (c : File) : Prop := mkConfigOk {
  co_version : File_Version c = 1 ∨ File_Version c = 2;
  co_legacy : File_Version c = 1 → Workspaces c = [] ∧ Forall (fun p => WorkspaceID p = EmptyString) (Profiles c);
  co_workspaces : NoDup (map Def_ID (Workspaces c)) ∧ NoDup (map Def_Root (Workspaces c)) ∧
                  Forall (fun d => canonical (Def_Root d)) (Workspaces c);
  co_profiles : NoDup (map Profile_ID (Profiles c)) ∧ Forall (profile_ok (Workspaces c)) (Profiles c);
  co_default : ∃ p, File_Profile c (DefaultProfile c) = Some p ∧ p ∈ Profiles c ∧ Profile_ID p = DefaultProfile c;
  co_reconnect : ∀ d, ParsedReconnectTimeout c = Some d → 0 < d < 2 ^ 63;
  co_idle : ∀ d, ParsedIdleTimeout c = Some d → 0 <= d < 2 ^ 63;
}.

Lemma File_Profile_found c id :
  id ∈ map Profile_ID (Profiles c) →
  ∃ p, File_Profile c id = Some p ∧ p ∈ Profiles c ∧ Profile_ID p = id.
Proof.
  intros (q & -> & Hq)%list_elem_of_fmap. unfold File_Profile.
  destruct (List.find _ _) as [p|] eqn:Hf.
  - apply List.find_some in Hf as [Hin Hid]. apply bool_decide_eq_true in Hid.
    exists p. by rewrite list_elem_of_In.
  - apply list_elem_of_In in Hq. eapply List.find_none in Hf; [|done].
    by apply bool_decide_eq_false in Hf.
Qed.

Lemma parsedDuration_spec name text zero u d :
  validateDuration name text zero = Ok u → parsedDuration text = Some d →
  0 <= d < 2 ^ 63 ∧ (zero = false → 0 < d).
Proof.
  unfold parsedDuration. intros [->|(x & Hx & H0 & Hpos)]%validateDuration_Ok; [done|].
  case_bool_decide; [done|]. rewrite Hx. intros [= <-]. apply ParseDuration_range in Hx as [_ ?]. auto.
Qed.

Lemma File_validate_Ok f c base f' c' u :
  File_validate f c base = (f', c', Ok u) →
  config_ok c' ∧ map Profile_ID (Profiles c') = map Profile_ID (Profiles c) ∧
  map Args (Profiles c') = map Args (Profiles c) ∧
  map EnvironmentAllowlist (Profiles c') = map EnvironmentAllowlist (Profiles c) ∧
  map Def_ID (Workspaces c') = map Def_ID (Workspaces c) ∧ DefaultProfile c' = DefaultProfile c.
Proof.
  unfold File_validate. intros H.
  destruct ((File_Version c <? MinimumVersion) || _) eqn:Hv; [done|].
  destruct ((File_Version c <? workspaceConfigVersion) && _) eqn:Hlegacy; [done|].
  destruct (bool_decide (TrimSpace _ = _)); [done|]. destruct (len (Profiles c) =? 0); [done|].
  destruct (validateDuration _ (ReconnectTimeout c) false) as [[]|] eqn:Hrec; [|done].
  destruct (validateDuration _ (File_IdleTimeout c) true) as [[]|] eqn:Hidle; [|done].
  destruct (NewRegistry f _ base) as [g [r|e]] eqn:Hreg; [|done]. cbv zeta in H. simpl in H.
  apply NewRegistry_Ok in Hreg as [Hr Hids]; [|done].
  destruct (validateProfiles _ _ _ _ _ _ (Profiles c)) as [[g1 ps] [b|e]] eqn:Hps; [|done].
  apply validateProfiles_Ok in Hps as (H1 & H2 & H3 & H4 & H5 & H6 & _ & H8); [|done].
  destruct b; [|done]. injection H as <- <-. unfold MinimumVersion, CurrentVersion, workspaceConfigVersion in *.
  assert (DefaultProfile c ∈ map Profile_ID ps) as Hdef by (destruct H8 as [H8 _]; naive_solver).
  split_and!; try done. constructor; simpl.
  - lia.
  - intros E. rewrite E in Hlegacy. simpl in Hlegacy. unfold usesWorkspaceFields in Hlegacy. split_bool.
    assert (Workspaces c = []) as Hw by (destruct (Workspaces c); [done|unfold len in *; simpl in *; lia]).
    split; [rewrite Hw in Hids; by destruct (Definitions r)|].
    apply Forall_fmap with (f := WorkspaceID) (P := fun w => w = EmptyString). 
    change (WorkspaceID <$> ps) with (map WorkspaceID ps). rewrite H3. apply Forall_fmap, Forall_forall.
    intros p Hp. destruct (decide (WorkspaceID p = EmptyString)) as [|Hne]; [done|].
    match goal with Hx : existsb ?g ?l = false |- _ =>
      assert (existsb g l = true) as Ht; [|congruence] end.
    apply existsb_exists. exists p. split; [by apply list_elem_of_In|].
    rewrite bool_decide_eq_false_2 by done. apply orb_true_r.
  - destruct Hr as [R1 R2 R3 _]. split_and!; [done|done|]. eapply Forall_impl; [done|]. by intros d [? _].
  - done.
  - by apply File_Profile_found.
  - intros d Hd. destruct (parsedDuration_spec _ _ _ _ _ Hrec Hd) as [? ?]. split; [auto|lia].
  - intros d Hd. by destruct (parsedDuration_spec _ _ _ _ _ Hidle Hd).
Qed.

Lemma markProfiles_map {B} (g : LaunchProfile → B) ps bs :
  (∀ p b, g (p <| workspaceIDConfigured := b |>) = g p) → map g (markProfiles ps bs) = map g ps.
Proof.
  intros Hg. revert bs. induction ps as [|p ps IH]; intros [|b bs]; simpl; try done. f_equal; [apply Hg|apply IH].
Qed.

(** What a load has read, decoded and validated. *)
Lemma Load_validated f path opened size content f' c :
  Load f path opened size content = (f', Ok c) →
  ∃ b c0 rest marked, content = Ok b ∧ len b <= maxConfigBytes ∧ json_Decode b = Ok (c0, rest) ∧
    json_Next rest = EndOfInput ∧ DefaultProfile marked = DefaultProfile c0 ∧ Workspaces marked = Workspaces c0 ∧
    map Profile_ID (Profiles marked) = map Profile_ID (Profiles c0) ∧
    map Args (Profiles marked) = map Args (Profiles c0) ∧
    map EnvironmentAllowlist (Profiles marked) = map EnvironmentAllowlist (Profiles c0) ∧
    File_validate f marked (Dir path) = (f', c, Ok tt).
Proof.
  unfold Load. intros H. destruct opened; [|done]. destruct size as [n|]; [|done].
  destruct (n >? maxConfigBytes); [done|]. destruct content as [b|]; [|done].
  destruct (Z.gtb_spec (len b) maxConfigBytes); [done|].
  destruct (json_Decode b) as [[c0 rest]|] eqn:HD; simpl in H; [|done].
  unfold ensureJSONEnd in H. destruct (json_Next rest) eqn:HN; simpl in H; try done.
  unfold markWorkspaceFieldPresence in H. destruct (json_Fields b) as [[ws fields]|] eqn:HF; [|done].
  match type of H with context [File_validate f ?x _] => set (marked := x) in H end.
  destruct (File_validate f marked (Dir path)) as [[g c1] [[]|e]] eqn:Hval; [|done].
  injection H as <- <-. exists b, c0, rest, marked. subst marked. simpl. rewrite !markProfiles_map by done. done.
Qed.

Lemma Load_config_ok f path opened size content f' c :
  Load f path opened size content = (f', Ok c) → config_ok c.
Proof. intros (? & ? & ? & ? & _ & _ & _ & _ & _ & _ & _ & _ & _ & Hval)%Load_validated. by apply File_validate_Ok in Hval as [? _]. Qed.

(** A configuration that loads is one the Agent can run: one JSON value of at
    most a mebibyte in a supported version, workspaces with distinct identifiers and
    canonical roots, profiles with distinct valid identifiers whose default exists,
    a supported tool adapter, NUL-free arguments, distinct environment names, and a
    working directory that lies in the workspace the profile names; the time-outs
    parse and have the sign they need.  Loading changes no identifier, argument or
    environment name, and a version 1 file uses no workspaces. *)
Theorem loaded_configuration_is_sound f path opened size content f' c :
  Load f path opened size content = (f', Ok c) →
  config_ok c ∧
  ∃ b c0 rest, content = Ok b ∧ len b <= maxConfigBytes ∧ json_Decode b = Ok (c0, rest) ∧
    json_Next rest = EndOfInput ∧ DefaultProfile c = DefaultProfile c0 ∧
    map Def_ID (Workspaces c) = map Def_ID (Workspaces c0) ∧
    map Profile_ID (Profiles c) = map Profile_ID (Profiles c0) ∧
    map Args (Profiles c) = map Args (Profiles c0) ∧
    map EnvironmentAllowlist (Profiles c) = map EnvironmentAllowlist (Profiles c0).
Proof.
  intros (b & c0 & rest & marked & H1 & H2 & H3 & H4 & H5 & H6 & H7 & H8 & H9 & Hval)%Load_validated.
  apply File_validate_Ok in Hval as (Hok & E1 & E2 & E3 & E4 & E5).
  split; [done|]. exists b, c0, rest. rewrite E1, E2, E3, E4, E5, H6. done.
Qed.
End Facts.

(** ** An executed configuration *)

Definition toy_profile : LaunchProfile :=
  mkLaunchProfile "shell" " Shell " "/bin/sh" ["-l"]%string "app" EmptyString ["PATH"; "HOME"]%string EmptyString false.
Definition toy_file : File :=
  mkFile 2 "127.0.0.1:8787" EmptyString "30s" "1h30m" [mkDefinition "app" " App " "app"] "shell" [toy_profile] EmptyString false.

(** Any content decodes to the file above. *)
#[local] Instance toy_json : ConfigJSON := {|
  json_Decode b := Ok (toy_file, []);
  json_Next rest := EndOfInput;
  json_Fields b := Ok (true, [true]);
|}.

Definition toy_loaded : File :=
  mkFile 2 "127.0.0.1:8787" EmptyString "30s" "1h30m" [mkDefinition "app" "App" "/w/app"] "shell"
    [mkLaunchProfile "shell" "Shell" "/bin/sh" ["-l"]%string "app" "/w/app" ["PATH"; "HOME"]%string "generic" true]
    EmptyString true.

Lemma loaded_configuration_is_sound_witness : config_ok toy_loaded.
Proof.
  apply (loaded_configuration_is_sound tree_Getwd example_tree "/w/config.json" (Ok tt) (Ok 2) (Ok ["{"; "}"]%byte)
           example_tree toy_loaded).
  vm_compute. reflexivity.
Defined.

(** [Validate] has a value receiver, but the profiles of the caller are changed
    through the slice it shares with its copy; the workspaces are not. *)
Example validate_changes_callers_profiles :
  let '(_, after, r) := Validate example_tree (toy_file <| Workspaces := [mkDefinition "app" " App " "/w/app"] |>) in
  r = Ok tt ∧ map Profile_Label (Profiles after) = ["Shell"%string] ∧
  map WorkingDirectory (Profiles after) = ["/w/app"%string] ∧
  map Def_Label (Workspaces after) = [" App "%string].
Proof. vm_compute. done. Qed.
