(* ===== verification/Startup.v ===== *)
(** * Starting the Agent ([cmd/vibebridge/main.go], [diagnostics.go])

    How the flags, the configuration and the environment give what the Agent
    launches, the addresses it offers to the phone, and the checks of [--diagnose].
    The interfaces of the computer, the environment and what reading the
    configuration file gives are arguments. *)

From S2P Require Import Prelude.
From S2P Require Import Utf8.
From S2P Require Import Encoding.
From S2P Require Import Path.
From S2P Require Import Workspace.
From S2P Require Import PairedSession.
From S2P Require Import GoNet.
From S2P Require Import AgentConfig.

(** ** Options *)

Record startupOptions := mkStartupOptions {
  addr : string;
  webDir : string;
  commandLine : string;
  command : list string;
  workingDirectory : string;
  environment : list string;
  reconnectTimeout : Z;
  idleTimeout : Z;
  profileID : string;
  workspaceID : string;
  workspaceRoot : string;
  toolAdapter : string;
  relayURL : string;
}.

#[global] Instance startupOptions_eta : Eta startupOptions := fun o =>
  mkStartupOptions (addr o) (webDir o) (commandLine o) (command o) (workingDirectory o) (environment o)
    (reconnectTimeout o) (idleTimeout o) (profileID o) (workspaceID o) (workspaceRoot o) (toolAdapter o) (relayURL o).

(** [strings.Fields]: [word] is the field being read; every rune is at least one
    byte wide, so the length of the string is enough fuel. *)
Fixpoint fieldsLoop (fuel : nat) (p word : bytes) : list string :=
  let flush rest := if bool_decide (word = []) then rest else string_of_bytes word :: rest in
  match fuel, p with
  | S fuel', _ :: _ =>
      let '(r, size) := DecodeRune p in
      if IsSpace r then flush (fieldsLoop fuel' (drop size p) [])
      else fieldsLoop fuel' (drop size p) (word ++ take size p)
  | _, _ => flush []
  end.

Definition Fields (s : string) : list string :=
  let p := bytes_of_string s in fieldsLoop (length p) p [].

(** [lookupEnv] is [os.LookupEnv]. *)
Fixpoint resolveEnvironment (allowlist : list string) (lookupEnv : string → option string) : list string :=
  match allowlist with
  | [] => []
  | name :: rest =>
      match lookupEnv name with
      | Some value => (name ++ "=" ++ value)%string :: resolveEnvironment rest lookupEnv
      | None => resolveEnvironment rest lookupEnv
      end
  end.

Definition commandOf (options : startupOptions) : result startupOptions :=
  let options := options <| command := Fields (commandLine options) |> in
  if len (command options) =? 0 then Err (ErrorString "cmd must not be empty") else Ok options.

(** The settings the configuration gives where the flags do not. *)
Definition mergeConfig (options : startupOptions) (explicitFlags : string → bool) (config : File) : startupOptions :=
  let options :=
    if negb (explicitFlags "addr"%string) && negb (bool_decide (ListenAddress config = EmptyString))
    then options <| addr := ListenAddress config |> else options in
  let options :=
    if negb (explicitFlags "web-dir"%string) && negb (bool_decide (WebDirectory config = EmptyString))
    then options <| webDir := WebDirectory config |> else options in
  let options :=
    if negb (explicitFlags "reconnect-timeout"%string) then
      match ParsedReconnectTimeout config with
      | Some duration => options <| reconnectTimeout := duration |>
      | None => options
      end
    else options in
  if negb (explicitFlags "idle-timeout"%string) then
    match ParsedIdleTimeout config with
    | Some duration => options <| idleTimeout := duration |>
    | None => options
    end
  else options.

(** The launch profile. *)
Definition selectProfile (options : startupOptions) (config : File) (requestedProfile : string)
    (explicitFlags : string → bool) (lookupEnv : string → option string) : result startupOptions :=
  let selectedID := if bool_decide (requestedProfile = EmptyString) then DefaultProfile config else requestedProfile in
  match File_Profile config selectedID with
  | None => Err (ErrorString "launch profile %q was not found")
  | Some profile =>
      let options := options <| profileID := Profile_ID profile |> <| workspaceID := WorkspaceID profile |> in
      match (if bool_decide (WorkspaceID profile = EmptyString) then Ok options
             else match File_Workspace config (WorkspaceID profile) with
             | None => Err (ErrorString "launch profile %q references an unavailable workspace")
             | Some definition => Ok (options <| workspaceRoot := Def_Root definition |>)
             end) with
      | Err e => Err e
      | Ok options =>
          let options := options <| command := Executable profile :: Args profile |>
            <| workingDirectory := WorkingDirectory profile |>
            <| environment := resolveEnvironment (EnvironmentAllowlist profile) lookupEnv |>
            <| toolAdapter := Profile_ToolAdapter profile |> in
          Ok (if negb (explicitFlags "relay-url"%string) && negb (bool_decide (File_RelayURL config = EmptyString))
              then options <| relayURL := File_RelayURL config |> else options)
      end
  end.

Section Startup.
Context {F : Type} {fs : FileSystem F} {json : ConfigJSON}.

Definition resolveStartupOptions (f : F) (options : startupOptions) (configPath requestedProfile : string)
    (explicitFlags : string → bool) (lookupEnv : string → option string)
    (opened : result unit) (size : result Z) (content : result bytes) : F * result startupOptions :=
  if bool_decide (configPath = EmptyString) then
    (f, if negb (bool_decide (requestedProfile = EmptyString)) then Err (ErrorString "--profile requires --config")
        else commandOf options)
  else match Load f configPath opened size content with
  | (f, Err e) => (f, Err e)
  | (f, Ok config) =>
      let options := mergeConfig options explicitFlags config in
      (f, if explicitFlags "cmd"%string then
            if negb (bool_decide (requestedProfile = EmptyString)) then
              Err (ErrorString "--cmd and --profile cannot be used together")
            else commandOf options
          else selectProfile options config requestedProfile explicitFlags lookupEnv)
  end.

(** ** Checks before the start *)

Definition validateWorkingDirectory (f : F) (path : string) : F * result unit :=
  if bool_decide (path = EmptyString) then (f, Ok tt)
  else match os_Stat_IsDir f path with
  | (f, Err e) => (f, Err (ErrorWrap "working directory %q is not available" e))
  | (f, Ok isDir) => (f, if isDir then Ok tt else Err (ErrorString "working directory %q is not a directory"))
  end.

Definition validateStartupWorkingDirectory (f : F) (options : startupOptions) : F * result unit :=
  let '(f, r) :=
    if negb (bool_decide (workspaceRoot options = EmptyString)) then
      match RevalidateDirectory f (workspaceRoot options) (workingDirectory options) with
      | (f, Err e) => (f, Err e)
      | (f, Ok _) => (f, Ok tt)
      end
    else validateWorkingDirectory f (workingDirectory options) in
  (f, match r with
      | Err e => if negb (bool_decide (workspaceID options = EmptyString))
                 then Err (ErrorString "workspace root or launch working directory is not available") else Err e
      | Ok _ => Ok tt
      end).

(** [lookPath] is the outcome of [exec.LookPath]. *)
Definition validateCommand (command : list string) (lookPath : string → bool) : result unit :=
  match command with
  | [] => Err (ErrorString "cmd must not be empty")
  | name :: _ => if lookPath name then Ok tt else Err (ErrorString "command %q was not found in PATH")
  end.
End Startup.

Definition newSessionToken (random : result bytes) : result string :=
  match random with Err e => Err e | Ok raw => Ok (hexEncode raw) end.

(** Neither platform lacks a shell; [pwsh] says that it was found. *)
Definition defaultCommandLine (windows pwsh : bool) : string :=
  if windows then
    if pwsh then "pwsh -NoLogo -NoExit -NoProfile" else "powershell.exe -NoLogo -NoExit -NoProfile"
  else "/bin/sh".

(** ** Addresses of the computer *)

(** [net.Addr]: [*net.IPNet], [*net.IPAddr], or another type; the IP of the first
    two may be nil. *)
Inductive NetAddr := IPNet (ip : option IP) | IPAddr (ip : option IP) | OtherAddr.

Definition addressIP (a : NetAddr) : option IP :=
  match a with IPNet ip | IPAddr ip => ip | OtherAddr => None end.

Record Interface := mkInterface { FlagUp : bool; FlagLoopback : bool; Addrs : result (list NetAddr) }.

Definition lanHost (a : NetAddr) : option string :=
  match addressIP a with
  | None => None
  | Some ip =>
      match To4 ip with
      | None => None
      | Some ip4 => if IsLoopback ip4 || negb (IsPrivate ip4) then None else Some (String4 ip4)
      end
  end.

Fixpoint lanHostsOf (interfaces : list Interface) : list string :=
  match interfaces with
  | [] => []
  | i :: rest =>
      if negb (FlagUp i) || FlagLoopback i then lanHostsOf rest
      else match Addrs i with
      | Err _ => lanHostsOf rest
      | Ok addrs => omap lanHost addrs ++ lanHostsOf rest
      end
  end.

(** [interfaces] is the outcome of [net.Interfaces]. *)
Definition lanIPv4Hosts (interfaces : result (list Interface)) : list string :=
  match interfaces with Err _ => [] | Ok l => lanHostsOf l end.

Definition isWildcardHost (host : string) : bool :=
  bool_decide (host = "0.0.0.0"%string) || bool_decide (host = "::"%string).

Fixpoint urlsOf (seen : gset string) (hosts : list string) (port token : string) : list string :=
  match hosts with
  | [] => []
  | candidate :: rest =>
      if bool_decide (candidate = EmptyString) || bool_decide (candidate ∈ seen) then urlsOf seen rest port token
      else ("http://" ++ JoinHostPort candidate port ++ "/?token=" ++ token)%string
             :: urlsOf ({[candidate]} ∪ seen) rest port token
  end.

Definition accessHosts (host : string) (interfaces : result (list Interface)) : list string :=
  let host := if bool_decide (host = EmptyString) then "0.0.0.0"%string else host in
  if isWildcardHost host then lanIPv4Hosts interfaces ++ ["127.0.0.1"%string] else [host].

Definition errSplit := ErrorString "address %s: missing port in address".

Definition accessURLs (listen token : string) (interfaces : result (list Interface)) : result (list string) :=
  match SplitPort listen with
  | None => Err errSplit
  | Some (host, port) => Ok (urlsOf ∅ (accessHosts host interfaces) port token)
  end.

Definition isWildcardAddress (listen : string) : bool :=
  match SplitPort listen with None => false | Some (host, _) => isWildcardHost host end.

Definition isLoopbackHost (host : string) : bool :=
  if bool_decide (host = "localhost"%string) then true
  else match ParseIP host with None => false | Some ip => IsLoopback ip end.

(** ** Diagnostics *)

Record diagnosticCheck := mkCheck { check_status : string; check_message : string; check_err : option error }.
Definition passing (status message : string) : diagnosticCheck := mkCheck status message None.

Definition networkDiagnostics (listen : string) (interfaces : result (list Interface)) (windows : bool)
    : list diagnosticCheck :=
  match SplitPort listen with
  | None => [passing "warn" "listener exposure could not be classified because the address is invalid"]
  | Some (host, _) =>
      if isLoopbackHost host then [passing "warn" "listener is loopback-only; phones on the LAN cannot connect"]
      else
        let checks :=
          if bool_decide (host = EmptyString) || isWildcardHost host then
            match lanIPv4Hosts interfaces with
            | [] => [passing "warn" "no private LAN IPv4 address was detected"]
            | hosts => map (fun h => passing "ok" ("private LAN address detected: " ++ h)%string) hosts
            end
          else if match ParseIP host with Some ip => IsPrivate ip | None => false end then
            [passing "ok" ("private LAN listener address configured: " ++ host)%string]
          else [passing "warn" "listener is not a private or loopback IP; use VibeBridge only on a trusted private network"] in
        checks ++ [passing "check"
          (if windows then "Windows Firewall must allow private-network access to the selected executable"
           else "the host firewall must allow private-network access to the selected executable")]
  end.

(** The line of each check and the outcome. *)
Definition checkLine (c : diagnosticCheck) : string :=
  match check_err c with
  | None => ("[" ++ check_status c ++ "] " ++ check_message c)%string
  | Some e => ("[fail] " ++ check_message c ++ ": " ++ errorMessage e)%string
  end.

Definition runDiagnostics (checks : list diagnosticCheck) : list string * result unit :=
  let failures := countb (fun c => bool_decide (is_Some (check_err c))) checks in
  (map checkLine checks,
   if (0 <? failures)%nat then Err (ErrorString (pretty (Z.of_nat failures) ++ " diagnostic check(s) failed")) else Ok tt).

(** * Starting the Agent: what is launched *)

(** ** The environment *)

Lemma resolveEnvironment_spec allowlist lookupEnv entry :
  entry ∈ resolveEnvironment allowlist lookupEnv ↔
  ∃ name value, name ∈ allowlist ∧ lookupEnv name = Some value ∧ entry = (name ++ "=" ++ value)%string.
Proof.
  induction allowlist as [|name rest IH]; simpl; [split; [by intros ?%not_elem_of_nil|set_solver]|].
  destruct (lookupEnv name) as [value|] eqn:Hv; rewrite ?elem_of_cons, IH; split.
  - intros [->|(n & v & ? & ? & ->)]; [exists name, value|exists n, v]; rewrite elem_of_cons; auto.
  - intros (n & v & [->|?]%elem_of_cons & ? & ->); [left; congruence|right; by exists n, v].
  - intros (n & v & ? & ? & ->). exists n, v. rewrite elem_of_cons. auto.
  - intros (n & v & [->|?]%elem_of_cons & ? & ->); [congruence|by exists n, v].
Qed.

(** ** The merge *)

Lemma mergeConfig_spec o E c :
  let r := mergeConfig o E c in
  addr r = (if E "addr"%string || bool_decide (ListenAddress c = EmptyString) then addr o else ListenAddress c) ∧
  webDir r = (if E "web-dir"%string || bool_decide (WebDirectory c = EmptyString) then webDir o else WebDirectory c) ∧
  reconnectTimeout r = (if E "reconnect-timeout"%string then reconnectTimeout o
                        else default (reconnectTimeout o) (ParsedReconnectTimeout c)) ∧
  idleTimeout r = (if E "idle-timeout"%string then idleTimeout o else default (idleTimeout o) (ParsedIdleTimeout c)) ∧
  commandLine r = commandLine o ∧ relayURL r = relayURL o ∧ workspaceRoot r = workspaceRoot o.
Proof.
  unfold mergeConfig. destruct (E "addr"%string), (E "web-dir"%string), (E "reconnect-timeout"%string), (E "idle-timeout"%string);
    destruct (bool_decide (ListenAddress c = EmptyString)), (bool_decide (WebDirectory c = EmptyString)),
      (ParsedReconnectTimeout c), (ParsedIdleTimeout c); done.
Qed.

Lemma commandOf_Ok o r :
  commandOf o = Ok r → command r = Fields (commandLine o) ∧ command r ≠ [] ∧ r = o <| command := command r |>.
Proof.
  unfold commandOf. simpl. destruct (len (Fields (commandLine o)) =? 0) eqn:Hl; [done|]. intros [= <-]. simpl.
  split_and!; [done| |done]. intros Hn. rewrite Hn in Hl. done.
Qed.

(** ** The profile *)

Lemma File_Profile_Some c id p : File_Profile c id = Some p → p ∈ Profiles c ∧ Profile_ID p = id.
Proof. intros [Hin Hid]%List.find_some. apply bool_decide_eq_true in Hid. by rewrite list_elem_of_In. Qed.

Lemma File_Workspace_Some c id d : File_Workspace c id = Some d → d ∈ Workspaces c ∧ Def_ID d = id.
Proof. intros [Hin Hid]%List.find_some. apply bool_decide_eq_true in Hid. by rewrite list_elem_of_In. Qed.

(** The workspace of a profile of a sound configuration is found, and it is the
    one its working directory lies in. *)
Lemma profile_workspace c p :
  config_ok c → p ∈ Profiles c → WorkspaceID p ≠ EmptyString →
  ∃ d, File_Workspace c (WorkspaceID p) = Some d ∧ d ∈ Workspaces c ∧ canonical (Def_Root d) ∧
    within (Def_Root d) (WorkingDirectory p).
Proof.
  intros [_ _ [Hnd [_ Hcan]] [_ Hps] _ _ _] Hp Hne.
  rewrite Forall_forall in Hps. destruct (Hps p Hp) as [_ _ _ _ _ _ Hdir]. rewrite decide_False in Hdir by done.
  destruct Hdir as [_ (d & Hd & Hid & Hw)]. rewrite Forall_forall in Hcan.
  destruct (File_Workspace c (WorkspaceID p)) as [d'|] eqn:Hf.
  - apply File_Workspace_Some in Hf as [Hd' Hid']. exists d'. split_and!; [done|done|by apply Hcan|].
    assert (d' = d) as ->; [|done]. clear -Hnd Hd Hd' Hid Hid'. rewrite <- Hid in Hid'. clear Hid.
    apply list_elem_of_lookup in Hd as [i Hi], Hd' as [j Hj].
    assert (i = j) as ->; [|congruence]. eapply NoDup_lookup; [exact Hnd|..]; rewrite list_lookup_fmap.
    + by rewrite Hi.
    + rewrite Hj. simpl. by rewrite Hid'.
  - apply list_elem_of_In in Hd. eapply List.find_none in Hf; [|exact Hd]. simpl in Hf.
    by apply bool_decide_eq_false in Hf.
Qed.

Lemma selectProfile_spec o c requested E lookupEnv p :
  config_ok c → let id := if bool_decide (requested = EmptyString) then DefaultProfile c else requested in
  File_Profile c id = Some p →
  ∃ r, selectProfile o c requested E lookupEnv = Ok r ∧
    profileID r = id ∧ command r = Executable p :: Args p ∧ Executable p ≠ EmptyString ∧
    workingDirectory r = WorkingDirectory p ∧ toolAdapter r = Profile_ToolAdapter p ∧
    environment r = resolveEnvironment (EnvironmentAllowlist p) lookupEnv ∧
    relayURL r = (if E "relay-url"%string || bool_decide (File_RelayURL c = EmptyString) then relayURL o else File_RelayURL c) ∧
    addr r = addr o ∧ webDir r = webDir o ∧ reconnectTimeout r = reconnectTimeout o ∧ idleTimeout r = idleTimeout o ∧
    if decide (WorkspaceID p = EmptyString) then workspaceRoot r = workspaceRoot o
    else canonical (workspaceRoot r) ∧ within (workspaceRoot r) (workingDirectory r).
Proof.
  intros Hok id Hp. unfold selectProfile. fold id. rewrite Hp. pose proof (File_Profile_Some _ _ _ Hp) as [Hin Hid].
  assert (Executable p ≠ EmptyString) as Hexe.
  { destruct Hok as [_ _ _ [_ Hps] _ _ _]. rewrite Forall_forall in Hps. by destruct (Hps p Hin). }
  destruct (decide (WorkspaceID p = EmptyString)) as [Hw|Hw].
  - rewrite bool_decide_true by done.
    destruct (E "relay-url"%string), (bool_decide (File_RelayURL c = EmptyString)); eexists; (split; [reflexivity|]); by split_and!.
  - rewrite bool_decide_false by done.
    destruct (profile_workspace c p Hok Hin Hw) as (d & -> & _ & Hcan & Hwithin).
    destruct (E "relay-url"%string), (bool_decide (File_RelayURL c = EmptyString)); eexists; (split; [reflexivity|]); by split_and!.
Qed.

Section Startup.
Context {F : Type} {fs : FileSystem F} {json : ConfigJSON}.
Context (Getwd_absolute : ∀ (f f' : F) wd, os_Getwd f = (f', Ok wd) → IsAbs wd = true).

(** ** Properties *)

End Startup.

(** ** An executed start *)

#[local] Existing Instance toy_json.

Definition demo_options : startupOptions :=
  mkStartupOptions "0.0.0.0:8787" "web/dist" " /bin/sh  -l " [] EmptyString [] 90 1800 EmptyString EmptyString
    EmptyString EmptyString EmptyString.
Definition demo_environment (name : string) : option string :=
  if bool_decide (name = "HOME"%string) then Some "/home/me"%string else None.

Definition demo_started : tree * result startupOptions :=
  resolveStartupOptions example_tree demo_options "/w/config.json" EmptyString (fun flag => bool_decide (flag = "addr"%string))
    demo_environment (Ok tt) (Ok 2) (Ok ["{"; "}"]%byte).

Example started_options :
  demo_started.2 = Ok (mkStartupOptions "0.0.0.0:8787" "web/dist" " /bin/sh  -l " ["/bin/sh"; "-l"]%string "/w/app"
    ["HOME=/home/me"]%string (30000000000) (5400000000000) "shell" "app" "/w/app" "generic" EmptyString) ∧
  Fields " /bin/sh  -l " = ["/bin/sh"; "-l"]%string.
Proof. vm_compute. done. Qed.


(** ** The addresses offered *)

Definition demo_interfaces : result (list Interface) :=
  Ok [mkInterface true true (Ok [IPNet (Some [127; 0; 0; 1])]);
      mkInterface true false (Ok [IPNet (Some (v4InV6Prefix ++ [192; 168; 1; 20])); IPNet (Some [8; 8; 8; 8]); OtherAddr]);
      mkInterface false false (Ok [IPNet (Some [10; 0; 0; 1])])].

Example addresses_offered :
  accessURLs "0.0.0.0:8787" "t" demo_interfaces =
    Ok ["http://192.168.1.20:8787/?token=t"; "http://127.0.0.1:8787/?token=t"]%string ∧
  accessURLs "[::1]:80" "t" demo_interfaces = Ok ["http://[::1]:80/?token=t"]%string ∧
  isWildcardAddress "0.0.0.0:8787" = true ∧ isWildcardAddress ":8787" = false ∧
  map check_status (networkDiagnostics "0.0.0.0:8787" demo_interfaces false) = ["ok"; "check"]%string.
Proof. vm_compute. done. Qed.
