(* ===== verification/AgentManagement.v ===== *)
(** * The management endpoints ([cmd/vibebridge/agent_management.go])

    The HTTP handlers the local user drives the Agent with: the pairing page, the
    decision on a phone, revocation, relay routes, status.  Each handler reads the
    shared objects (the coordinator of [PairingFlow] with its invitations and
    identity, the relay manager, the rate limiter) and answers.  A request is what
    the handlers read of it; the clocks, the random source, the outcomes of writes
    to the identity file and the QR library are arguments.  Instants shown to the
    user are left as instants. *)

From S2P Require Import Prelude.
From S2P Require Import Utf8.
From S2P Require Import Encoding.
From S2P Require Import SecureStore.
From S2P Require Import Ticket.
From S2P Require Import RelayClient.
From S2P Require Import RelayManager.
From S2P Require Import RateLimit.
From S2P Require Import DeviceIdentity.
From S2P Require Import Pairing.
From S2P Require Import Handshake.
From S2P Require Import PairingFlow.
From S2P Require Import PairedSession.
From S2P Require Import GoNet.
From S2P Require Import Startup.

Definition localPairingPath : string := "/agent/pair".
Definition localPairingStatusPath : string := "/agent/pairing/status".
Definition localPairingApprovePath : string := "/agent/pairing/approve".
Definition localPairingRejectPath : string := "/agent/pairing/reject".
Definition localRevokePath : string := "/agent/devices/revoke".
Definition localRelayProvisionPath : string := "/agent/relay/provision".
Definition localRelayStatusPath : string := "/agent/relay/status".
Definition localInfoPath : string := "/agent/info".
Definition localPairingCodePath : string := "/agent/pairing/code".
Definition managementTransportPath : string := "/pairing/v1".

(** ** The local machine *)

(** [strings.Trim] with the brackets as cutset. *)
Definition isBracket (c : ascii) : bool := bool_decide (c = "["%char) || bool_decide (c = "]"%char).
Fixpoint dropBrackets (l : list ascii) : list ascii :=
  match l with c :: l' => if isBracket c then dropBrackets l' else l | [] => [] end.
Definition TrimBrackets (s : string) : string :=
  string_of_list_ascii (rev (dropBrackets (rev (dropBrackets (list_ascii_of_string s))))).

(** [strings.Cut] at the percent sign: what is before it. *)
Definition beforePercent (s : string) : string :=
  match indexByte "%" (list_ascii_of_string s) with
  | Some i => string_of_list_ascii (take i (list_ascii_of_string s))
  | None => s
  end.

Definition matchesLocalMachineIP (candidate : option IP) (addresses : list NetAddr) : bool :=
  match candidate with
  | None => false
  | Some ip =>
      if IsLoopback ip then true
      else existsb (fun a => match addressIP a with Some local => IP_Equal local ip | None => false end) addresses
  end.

(** [addresses] is the outcome of [net.InterfaceAddrs]. *)
Definition isLocalMachineIP (candidate : option IP) (addresses : result (list NetAddr)) : bool :=
  match addresses with
  | Err _ => match candidate with Some ip => IsLoopback ip | None => false end
  | Ok l => matchesLocalMachineIP candidate l
  end.

Definition isLocalMachineRemote (remoteAddress : string) (addresses : result (list NetAddr)) : bool :=
  let host := match SplitHostPort remoteAddress with Some host => host | None => TrimBrackets remoteAddress end in
  isLocalMachineIP (ParseIP (beforePercent host)) addresses.

(** ** Requests and replies *)

(** [req_form] is the outcome of [ParseForm] within the limit of the body, as
    [PostForm.Get]; [req_json] that of decoding [client_device_id]. *)
Record ManagementRequest := mkManagementRequest {
  req_path : string;
  req_method : string;
  req_remote : string;
  req_forwarded : string;
  req_token : string;
  req_form : result (string → string);
  req_json : result string;
}.

Record pairingPendingRow := mkPendingRow {
  Row_FlowID : string; Row_Name : string; Row_Platform : string; Row_SAS : string;
  Row_ExpiresAt : Z; Row_CanDecide : bool;
}.

Record pairingDeviceRow := mkDeviceRow {
  Device_ID : string; Device_Name : string; Device_Platform : string; Device_Fingerprint : string;
  Device_State : string; Device_Revoked : bool;
}.

(** The invitation on the page: the QR code, the link, the deadline, the code. *)
Record pageInvitation := mkPageInvitation {
  Page_QRCode : string; Page_Target : string; Page_ExpiresAt : option Z; Page_VerificationCode : string;
}.

Record pairingPageData := mkPageData {
  Page_Invitation : option pageInvitation;
  Page_Fingerprint : string;
  Page_Token : string;
  Page_Devices : list pairingDeviceRow;
  Page_Pending : option pairingPendingRow;
}.

Record localPairingStatus := mkPairingStatus {
  Status_State : string; Status_FlowID : string; Status_DisplayName : string; Status_Platform : string;
  Status_SAS : string; Status_Expiry : option Z;
}.

Inductive Reply :=
  | HttpError (status : Z) (message : string)
  | Redirect (location : string)
  | PageReply (data : pairingPageData)
  | StatusReply (status : localPairingStatus)
  | ProvisionReply (routeID clientTicket relayURL : string)
  | RelayReply (configured : bool) (relayURL : string) (active pending : list string)
  | InfoReply (devices : list pairingDeviceRow) (pendingPairing : option (string * string * string))
  | CodeReply (invitation : pageInvitation)
  | PairingTransportReply
  | ApplicationReply.

(** [url.QueryEscape]. *)
Definition unreserved (n : Z) : bool :=
  in_range 65 90 n || in_range 97 122 n || in_range 48 57 n || (n =? 45) || (n =? 95) || (n =? 46) || (n =? 126).
Fixpoint QueryEscape (s : string) : string :=
  match s with
  | EmptyString => EmptyString
  | String c s' =>
      let n := ascii_val c in
      if n =? 32 then String "+" (QueryEscape s')
      else if unreserved n then String c (QueryEscape s')
      else ("%" ++ upperHex (hexEncode [byte_of_ascii c]) ++ QueryEscape s')%string
  end.

(** [rsc.io/qr]: the PNG of a text, at level M. *)
Class QrCode := qr_PNG : string → result bytes.

(** What [phonePairingBaseURL] does with a parsed URL beside what [GoUrl] has: its
    host name, and the URL of the root of its host. *)
Class PhoneUrl {url : GoUrl} := {
  url_Hostname : URL → string;
  url_Root : URL → URL;
}.

Definition TrimSuffixSlash (s : string) : string :=
  match rev (list_ascii_of_string s) with
  | c :: rest => if bool_decide (c = "/"%char) then string_of_list_ascii (rev rest) else s
  | [] => s
  end.

Section PhoneBase.
Context {url : GoUrl} {phone : PhoneUrl}.

Fixpoint firstPhoneURL (candidates : list string) : string :=
  match candidates with
  | [] => EmptyString
  | candidate :: rest =>
      match url_Parse candidate with
      | Err _ => firstPhoneURL rest
      | Ok parsed =>
          if match ParseIP (url_Hostname parsed) with Some ip => IsLoopback ip | None => false end
          then firstPhoneURL rest else url_String (url_Root parsed)
      end
  end.

Definition phonePairingBaseURL (listenAddress : string) (interfaces : result (list Interface)) : result string :=
  match accessURLs listenAddress "pairing-placeholder" interfaces with
  | Err e => Err e
  | Ok urls => Ok (firstPhoneURL urls)
  end.
End PhoneBase.

Section AgentManagement.
Context {crypto : IdentityCrypto} {noise : Noise} {tickets : TicketCrypto} {enc : TicketEncoder}.
Context {url : GoUrl} {phone : PhoneUrl} {codec : InvitationCodec} {qr : QrCode}.
Context `{!ProtoMsg HandshakeContext} `{!ProtoMsg PairingInitiatorPayload}
  `{!ProtoMsg PairingResponderPayload} `{!ProtoMsg PairingFinishPayload} `{!ProtoMsg PairingApproval}.
Context `{!JsonCodec envelope} `{!JsonCodec persistedState}.

(** [agentManagement]; the invitations and the identity are those of [flows]. *)
Record agentManagement := mkAgentManagement {
  token : string;
  pairingBase : string;
  flows : Coordinator;
  relayManager : option RelayManager.Manager;
  listenAddress : string;
  provisionLimiter : rateLimiter;
}.

#[global] Instance agentManagement_eta : Eta agentManagement := fun m =>
  mkAgentManagement (token m) (pairingBase m) (flows m) (relayManager m) (listenAddress m) (provisionLimiter m).

(** [newAgentHTTPHandler], with an application and pairing objects that are not
    nil: the state its handlers share. *)
Definition newAgentHTTPHandler (listen managementToken : string) (interfaces : result (list Interface))
    (c : Coordinator) (relay : option RelayManager.Manager) : result agentManagement :=
  if bool_decide (managementToken = EmptyString) then
    Err (ErrorString "Agent management token must not be empty")
  else match phonePairingBaseURL listen interfaces with
  | Err e => Err e
  | Ok base => Ok (mkAgentManagement managementToken base c relay listen (newRateLimiter 10 Minute))
  end.

(** The surroundings of a request: the clocks of the coordinator, the manager of
    invitations, the identity and the limiter; the addresses of the computer; the
    random source of an invitation and of a route; the outcome of saving the
    identity; what minting reads. *)
Record ManagementEnv := mkManagementEnv {
  env_now : Z; env_mnow : Z; env_tnow : Z; env_rateNow : Z;
  env_addresses : result (list NetAddr);
  env_randomID : result bytes; env_randomSecret : result bytes;
  env_sys : Syscalls;
  env_route : result bytes; env_agentMint : Minting; env_clientMint : Minting;
}.

(** [authorizeLocalManagement]: [None] when the request may go on. *)
Definition authorizeLocalManagement (m : agentManagement) (e : ManagementEnv) (r : ManagementRequest) : option Reply :=
  if negb (isLocalMachineRemote (req_remote r) (env_addresses e)) then Some (HttpError 403 "local access only")
  else if negb (bool_decide (req_token r = token m)) then Some (HttpError 401 "unauthorized")
  else None.

Definition methodNotAllowed : Reply := HttpError 405 "method not allowed".

(** The guards of the handlers with one method. *)
Definition guarded (method : string) (m : agentManagement) (e : ManagementEnv) (r : ManagementRequest)
    (serve : agentManagement * Reply) : agentManagement * Reply :=
  if negb (bool_decide (req_method r = method)) then (m, methodNotAllowed)
  else match authorizeLocalManagement m e r with Some reply => (m, reply) | None => serve end.

Definition store_of (m : agentManagement) : Store := (PairingFlow.identity (flows m)).2.

Definition deviceRow (device : AuthorizedDevice) : result pairingDeviceRow :=
  match Fingerprint (Some (View_Device device)) with
  | Err e => Err e
  | Ok fingerprint =>
      match Signed_Descriptor (View_Device device) with
      | None => Err nilPointer
      | Some d =>
          let revoked := View_State device =? STATE_REVOKED in
          Ok (mkDeviceRow (RawURL_Encode (Desc_DeviceId d)) (Desc_DisplayName d) (Desc_Platform d) fingerprint
                (if revoked then "Revoked" else "Authorized") revoked)
      end
  end.

Fixpoint rowsOf (l : list AuthorizedDevice) : result (list pairingDeviceRow) :=
  match l with
  | [] => Ok []
  | device :: rest => row ← deviceRow device; rows ← rowsOf rest; Ok (row :: rows)
  end.

Definition deviceRows (store : Store) : result (list pairingDeviceRow) :=
  match AuthorizedDevices store true with Err e => Err e | Ok l => rowsOf l end.

(** The descriptor [Create] asks the identity for. *)
Definition agentDescriptor (store : Store) : result (option SignedDeviceDescriptor) :=
  match Descriptor store with Ok d => Ok (Some d) | Err e => Err e end.

(** A new invitation and how it is shown; the messages are those of the two
    handlers. *)
Definition createInvitation (m : agentManagement) (e : ManagementEnv) (qrMessage : string)
    : agentManagement * result pageInvitation :=
  let hint := (TrimSuffixSlash (pairingBase m) ++ "/pairing/v1")%string in
  let '(manager, created) :=
    Pairing.Create (invitations (flows m)) [hint] (agentDescriptor (store_of m)) (env_randomID e)
      (env_randomSecret e) (env_mnow e) in
  let m := m <| flows ::= fun c => c <| invitations := manager |> |> in
  (m, match created with
      | Err _ => Err (ErrorString "could not create pairing invitation")
      | Ok invitation =>
          match FragmentURL (pairingBase m) (Some invitation) with
          | Err _ => Err (ErrorString "could not encode pairing invitation")
          | Ok target =>
              match qr_PNG target with
              | Err _ => Err (ErrorString qrMessage)
              | Ok png => Ok (mkPageInvitation (Std_Encode png) target (AsTime <$> Inv_ExpiresAt invitation)
                                (Inv_VerificationCode invitation))
              end
          end
      end).

(** The look at the flow in progress. *)
Definition currentFlow (m : agentManagement) (e : ManagementEnv) : agentManagement * option Snapshot :=
  let '(c, snapshot) := PairingFlow.Current (flows m) (env_now e) (env_mnow e) in
  (m <| flows := c |>, snapshot).

Definition pendingRow (s : Snapshot) : pairingPendingRow :=
  mkPendingRow (Snap_FlowID s) (Snap_DisplayName s) (Snap_Platform s) (Snap_SAS s) (Snap_ExpiresAt s)
    (bool_decide (Snap_State s = StatePending)).

Definition pairingPage (m : agentManagement) (e : ManagementEnv) : agentManagement * Reply :=
  let '(m, current) := currentFlow m e in
  match Descriptor (store_of m) with
  | Err _ => (m, HttpError 500 "could not read Agent identity")
  | Ok descriptor =>
  match Fingerprint (Some descriptor) with
  | Err _ => (m, HttpError 500 "could not verify Agent identity")
  | Ok fingerprint =>
  match deviceRows (store_of m) with
  | Err _ => (m, HttpError 500 "could not read paired devices")
  | Ok rows =>
      let page invitation :=
        PageReply (mkPageData invitation fingerprint (QueryEscape (token m)) rows (pendingRow <$> current)) in
      if negb (bool_decide (pairingBase m = EmptyString)) && bool_decide (current = None) then
        match createInvitation m e "could not create pairing code" with
        | (m, Err err) => (m, HttpError 500 (errorMessage err))
        | (m, Ok invitation) => (m, page (Some invitation))
        end
      else (m, page None)
  end end end.

Definition stateText (s : State) : string :=
  match s with StateHandshaking => "handshaking" | StatePending => "pending" end.

Definition pairingStatus (m : agentManagement) (e : ManagementEnv) : agentManagement * Reply :=
  let '(m, current) := currentFlow m e in
  (m, StatusReply match current with
                  | None => mkPairingStatus "idle" EmptyString EmptyString EmptyString EmptyString None
                  | Some s => mkPairingStatus (stateText (Snap_State s)) (Snap_FlowID s) (Snap_DisplayName s)
                                (Snap_Platform s) (Snap_SAS s) (Some (Snap_ExpiresAt s))
                  end).

Definition backToPage (m : agentManagement) : Reply :=
  Redirect (localPairingPath ++ "?token=" ++ QueryEscape (token m)).

Definition decode16 (text : string) : option bytes :=
  match RawURL_Decode text with
  | Some b => if len b =? DeviceIDBytes then Some b else None
  | None => None
  end.

Definition pairingDecision (approve : bool) (m : agentManagement) (e : ManagementEnv) (r : ManagementRequest)
    : agentManagement * Reply :=
  match req_form r with
  | Err _ => (m, HttpError 400 "invalid pairing decision")
  | Ok form =>
      let flowID := form "flow_id"%string in
      match decode16 flowID with
      | None => (m, HttpError 400 "invalid pairing flow ID")
      | Some _ =>
          let '(c, result) :=
            if approve then PairingFlow.Approve (flows m) (env_now e) (env_mnow e) (env_tnow e) (env_sys e) flowID
            else PairingFlow.Reject (flows m) (env_now e) (env_mnow e) flowID in
          let m := m <| flows := c |> in
          (m, match result with
              | Ok _ => backToPage m
              | Err err =>
                  if errors_is err ErrFlowUnavailable || errors_is err ErrFlowState then
                    HttpError 409 "pairing flow is no longer available"
                  else HttpError 500 "could not persist pairing decision"
              end)
      end
  end.

Definition revokeDevice (m : agentManagement) (e : ManagementEnv) (r : ManagementRequest) : agentManagement * Reply :=
  match req_form r with
  | Err _ => (m, HttpError 400 "invalid revoke request")
  | Ok form =>
      match decode16 (form "device_id"%string) with
      | None => (m, HttpError 400 "invalid device ID")
      | Some deviceID =>
          let '(fs, store, result) :=
            Revoke (PairingFlow.identity (flows m)).1 (store_of m) (env_tnow e) (env_sys e) deviceID in
          let m := m <| flows ::= fun c => c <| PairingFlow.identity := (fs, store) |> |> in
          (m, match result with
              | Ok _ => backToPage m
              | Err err => if errors_is err ErrDeviceNotFound then HttpError 404 "device not found"
                           else HttpError 500 "could not revoke device"
              end)
      end
  end.

(** The route that the goroutine of the handler connects is that of the reply. *)
Definition relayProvision (m : agentManagement) (e : ManagementEnv) (r : ManagementRequest) : agentManagement * Reply :=
  match relayManager m with
  | None => (m, HttpError 503 "relay is not configured")
  | Some manager =>
      match req_json r with
      | Err _ => (m, HttpError 400 "invalid request body")
      | Ok text =>
          match decode16 text with
          | None => (m, HttpError 400 "invalid client device ID")
          | Some clientDeviceID =>
              match RelayManager.Provision manager clientDeviceID (env_route e) (env_agentMint e) (env_clientMint e) with
              | (manager, Err _) =>
                  (m <| relayManager := Some manager |>, HttpError 500 "could not provision relay route")
              | (manager, Ok (clientTicket, routeID)) =>
                  let m := m <| relayManager := Some manager |> in
                  (m, match proto_Marshal clientTicket with
                      | Err _ => HttpError 500 "could not encode client ticket"
                      | Ok ticketBytes => ProvisionReply routeID (Std_Encode ticketBytes) (RelayManager.RelayURL manager)
                      end)
              end
          end
      end
  end.

Definition relayStatus (m : agentManagement) : Reply :=
  match relayManager m with
  | None => RelayReply false EmptyString [] []
  | Some manager => RelayReply true (RelayManager.RelayURL manager) (RelayManager.ActiveRoutes manager)
                      (RelayManager.PendingRoutes manager)
  end.

Definition info (m : agentManagement) (e : ManagementEnv) : agentManagement * Reply :=
  match deviceRows (store_of m) with
  | Err _ => (m, HttpError 500 "could not read paired devices")
  | Ok rows =>
      let '(m, current) := currentFlow m e in
      (m, InfoReply rows ((fun s => (Snap_DisplayName s, Snap_Platform s, Snap_SAS s)) <$> current))
  end.

Definition pairingCode (m : agentManagement) (e : ManagementEnv) : agentManagement * Reply :=
  if bool_decide (pairingBase m = EmptyString) then (m, HttpError 503 "pairing base URL not available")
  else match createInvitation m e "could not create QR code" with
  | (m, Err err) => (m, HttpError 500 (errorMessage err))
  | (m, Ok invitation) => (m, CodeReply invitation)
  end.

(** The two handlers without a method. *)
Definition authorized_only (m : agentManagement) (e : ManagementEnv) (r : ManagementRequest)
    (serve : agentManagement * Reply) : agentManagement * Reply :=
  match authorizeLocalManagement m e r with Some reply => (m, reply) | None => serve end.

(** The multiplexer of [newAgentHTTPHandler]. *)
Definition serveManagement (m : agentManagement) (e : ManagementEnv) (r : ManagementRequest) : agentManagement * Reply :=
  let path p := bool_decide (req_path r = p) in
  if path localPairingPath then guarded "GET" m e r (pairingPage m e)
  else if path localPairingStatusPath then guarded "GET" m e r (pairingStatus m e)
  else if path localPairingApprovePath then guarded "POST" m e r (pairingDecision true m e r)
  else if path localPairingRejectPath then guarded "POST" m e r (pairingDecision false m e r)
  else if path localRevokePath then guarded "POST" m e r (revokeDevice m e r)
  else if path localRelayProvisionPath then
    match rateLimitMiddleware (provisionLimiter m) (env_rateNow e) (req_forwarded r) (req_remote r) with
    | (limiter, RateLimited _) => (m <| provisionLimiter := limiter |>, HttpError 429 "rate limit exceeded")
    | (limiter, Served) =>
        let m := m <| provisionLimiter := limiter |> in guarded "POST" m e r (relayProvision m e r)
    end
  else if path localRelayStatusPath then guarded "GET" m e r (m, relayStatus m)
  else if path localInfoPath then authorized_only m e r (info m e)
  else if path localPairingCodePath then authorized_only m e r (pairingCode m e)
  else if path managementTransportPath then (m, PairingTransportReply)
  else (m, ApplicationReply).

(** [loopbackDialAddress]: where the goroutine of [relayProvision] dials. *)
Definition loopbackDialAddress (m : agentManagement) : string :=
  match SplitPort (listenAddress m) with
  | None => listenAddress m
  | Some (host, port) =>
      JoinHostPort (if bool_decide (host = EmptyString) || isWildcardHost host then "127.0.0.1" else host) port
  end.
End AgentManagement.
