(* ===== verification/LocalDial.v ===== *)
(** * The Agent's own connection ([dialLocalAgentWS] of [cmd/vibebridge/agent_management.go])

    A route of the relay ends in the Agent's own WebSocket: the handler that
    provisions it fetches credentials from the web-session endpoint with the session
    token and upgrades with them, as a browser would.  The credentials travel in the
    query of a URL, so [net/url]'s escaping and parsing of queries are written out.
    The gate is [PairedSession]; the connection itself is the network's. *)

From S2P Require Import Prelude.
From S2P Require Import Encoding.
From S2P Require Import Ticket.
From S2P Require Import DeviceIdentity.
From S2P Require Import DeviceIdentityFacts.
From S2P Require Import PairedSession.
From S2P Require Import AgentManagement.

(** ** Queries *)

(** [strings.Cut] at a character. *)
Fixpoint cutAt (c : ascii) (s : string) : string * option string :=
  match s with
  | EmptyString => (EmptyString, None)
  | String x s' => if bool_decide (x = c) then (EmptyString, Some s') else let '(a, b) := cutAt c s' in (String x a, b)
  end.

(** The query of a URL: what follows its first question mark, up to a fragment. *)
Definition rawQuery (url : string) : string := default EmptyString (cutAt "?" (cutAt "#" url).1).2.

(** [url.QueryUnescape] *)
Fixpoint QueryUnescape (s : string) : option string :=
  match s with
  | EmptyString => Some EmptyString
  | String c s' =>
      if bool_decide (c = "%"%char) then
        match s' with
        | String a (String b s'') =>
            match hexDecode (String a (String b EmptyString)), QueryUnescape s'' with
            | Some [x], Some t => Some (String (ascii_of_byte x) t)
            | _, _ => None
            end
        | _ => None
        end
      else match QueryUnescape s' with
      | Some t => Some (String (if bool_decide (c = "+"%char) then " "%char else c) t)
      | None => None
      end
  end.

(** [url.ParseQuery] of the rest of a query; a pair that is malformed is left out. *)
Definition queryPair (piece : string) : list (string * string) :=
  if bool_decide (";"%char ∈ list_ascii_of_string piece) || bool_decide (piece = EmptyString) then []
  else let '(key, value) := cutAt "=" piece in
  match QueryUnescape key, QueryUnescape (default EmptyString value) with
  | Some key, Some value => [(key, value)]
  | _, _ => []
  end.

Fixpoint parseQuery (fuel : nat) (query : string) : list (string * string) :=
  match fuel with
  | O => []
  | S fuel' =>
      let '(piece, rest) := cutAt "&" query in
      queryPair piece ++ match rest with Some rest => parseQuery fuel' rest | None => [] end
  end.

(** [url.Values.Get] and [Has], of the URL of a request. *)
Definition queryOf (url : string) (key : string) : option string :=
  snd <$> List.find (fun kv => bool_decide (kv.1 = key)) (parseQuery (S (String.length (rawQuery url))) (rawQuery url)).

(** The request a client makes from this computer for a URL. *)
Definition localRequest (url remote : string) (protocols : list string) : Request :=
  mkRequest (fun _ => EmptyString) (queryOf url) remote protocols.

(** ** Dialling *)

Definition sessionURL (loopbackAddr token : string) : string :=
  ("http://" ++ loopbackAddr ++ "/pairing/web-session?token=" ++ QueryEscape token)%string.

Definition wsURL (loopbackAddr deviceID nonce signature : string) : string :=
  ("ws://" ++ loopbackAddr ++ "/ws?vb-device=" ++ QueryEscape deviceID ++ "&vb-nonce=" ++ QueryEscape nonce ++
   "&vb-sig=" ++ QueryEscape signature)%string.

(** What the second half makes of the answer of the first: the URL to dial.  The
    answer is the status and the fields of the decoded body. *)
Definition dialURL (loopbackAddr : string) (response : result (Z * result (string * string * string))) : result string :=
  match response with
  | Err e => Err (ErrorWrap "fetch web-session" e)
  | Ok (status, body) =>
      if negb (status =? StatusOK) then Err (ErrorString "web-session returned %d")
      else match body with
      | Err e => Err (ErrorWrap "decode web-session" e)
      | Ok (deviceID, nonce, signature) => Ok (wsURL loopbackAddr deviceID nonce signature)
      end
  end.

(** The fields of a body; those that are missing are empty. *)
Definition sessionFields (body : Body) : string * string * string :=
  match body with
  | WebSessionBody deviceID nonce signature _ => (deviceID, nonce, signature)
  | NonceBody nonce _ => (EmptyString, nonce, EmptyString)
  | ErrorBody _ => (EmptyString, EmptyString, EmptyString)
  end.

(** The clock, the randomness and the addresses of the two requests. *)
Record LocalDial := mkLocalDial {
  ld_now : Z; ld_issued : Z; ld_random : result bytes; ld_remote : string;
  ld_now1 : Z; ld_now2 : Z; ld_remote2 : string;
}.

Section LocalDial.
Context {crypto : IdentityCrypto}.

(** [dialLocalAgentWS] against the Agent's gate: the gate afterwards, and whom the
    connection is bound to. *)
Definition dialLocalAgentWS (c : UpgradeConfig) (gate : option pairedSessionGate) (d : LocalDial) (loopbackAddr token : string)
    : option pairedSessionGate * result (option pairedSessionResult) :=
  let '(gate, (status, body)) :=
    handleWebSession c gate (ld_now d) (ld_issued d) (ld_random d) (localRequest (sessionURL loopbackAddr token) (ld_remote d) []) in
  match dialURL loopbackAddr (Ok (status, Ok (sessionFields body))) with
  | Err e => (gate, Err e)
  | Ok url =>
      match authorizedForUpgrade c gate (ld_now1 d) (ld_now2 d) (localRequest url (ld_remote2 d) [WebSocketSubprotocol]) with
      | (gate, None) => (gate, Err (ErrorString "dial local ws: bad handshake"))
      | (gate, Some binding) => (gate, Ok binding)
      end
  end.
End LocalDial.

(** ** Escaping *)

Definition escapeChar (c : ascii) : string :=
  let n := ascii_val c in
  if n =? 32 then "+"%string
  else if unreserved n then String c EmptyString
  else ("%" ++ upperHex (hexEncode [byte_of_ascii c]))%string.

Lemma QueryEscape_cons c s : QueryEscape (String c s) = (escapeChar c ++ QueryEscape s)%string.
Proof. unfold escapeChar. simpl. destruct (_ =? 32); [done|]. by destruct (unreserved _). Qed.

Lemma unescape_char c s : QueryUnescape (escapeChar c ++ s) = (String c) <$> QueryUnescape s.
Proof.
  destruct c as [[] [] [] [] [] [] [] []];
    (match goal with |- context [escapeChar ?c] => let e := eval vm_compute in (escapeChar c) in change (escapeChar c) with e end);
    simpl; change (EmptyString ++ s)%string with s; by destruct (QueryUnescape s).
Qed.

(** Escaping is undone. *)
Theorem query_escape_roundtrip s : QueryUnescape (QueryEscape s) = Some s.
Proof. induction s as [|c s IH]; [done|]. by rewrite QueryEscape_cons, unescape_char, IH. Qed.

Definition special (c : ascii) : bool := bool_decide (c ∈ list_ascii_of_string "?#&;=").

Lemma escapeChar_plain c : forallb (fun x => negb (special x)) (list_ascii_of_string (escapeChar c)) = true.
Proof. destruct c as [[] [] [] [] [] [] [] []]; vm_compute; done. Qed.

Definition plain (s : string) : Prop := Forall (fun x => special x = false) (list_ascii_of_string s).

Lemma list_ascii_app a b : list_ascii_of_string (a ++ b) = list_ascii_of_string a ++ list_ascii_of_string b.
Proof. induction a as [|c a IH]; [done|]. simpl. by rewrite IH. Qed.

Lemma plain_app a b : plain a → plain b → plain (a ++ b).
Proof. unfold plain. rewrite list_ascii_app, Forall_app. done. Qed.

Lemma QueryEscape_plain s : plain (QueryEscape s).
Proof.
  induction s as [|c s IH]; [constructor|]. rewrite QueryEscape_cons. apply plain_app; [|done].
  apply Forall_forall. intros x Hx. pose proof (escapeChar_plain c) as H. rewrite forallb_forall in H.
  apply list_elem_of_In, H in Hx. by destruct (special x).
Qed.

Definition free (c : ascii) (s : string) : Prop := c ∉ list_ascii_of_string s.

Lemma plain_free c s : special c = true → plain s → free c s.
Proof. unfold plain, free. rewrite Forall_forall. intros Hc Hs Hin. apply Hs in Hin. congruence. Qed.

Lemma free_app c a b : free c a → free c b → free c (a ++ b).
Proof. unfold free. rewrite list_ascii_app. set_solver. Qed.

Lemma cutAt_found c s t : free c s → cutAt c (s ++ String c t) = (s, Some t).
Proof.
  unfold free. induction s as [|x s IH]; simpl; intros Hs; [by rewrite bool_decide_eq_true_2|].
  rewrite bool_decide_eq_false_2 by set_solver. rewrite IH by set_solver. done.
Qed.

Lemma cutAt_none c s : free c s → cutAt c s = (s, None).
Proof.
  unfold free. induction s as [|x s IH]; simpl; intros Hs; [done|].
  rewrite bool_decide_eq_false_2 by set_solver. rewrite IH by set_solver. done.
Qed.

Lemma rawQuery_eq url query : free "#" url → free "?" url → free "#" query → rawQuery (url ++ String "?" query) = query.
Proof.
  intros H1 H2 H3. unfold rawQuery. rewrite (cutAt_none "#"); [cbn [fst]; by rewrite (cutAt_found "?" url query)|].
  apply free_app; [done|]. unfold free in *. simpl. set_solver.
Qed.

(** A key of plain characters with an escaped value. *)
Definition pairText (kv : string * string) : string := (kv.1 ++ String "=" (QueryEscape kv.2))%string.

Definition goodKey (key : string) : Prop := plain key ∧ QueryUnescape key = Some key ∧ key ≠ EmptyString.

Lemma pairText_free c kv : special c = true → c ≠ "="%char → goodKey kv.1 → free c (pairText kv).
Proof.
  intros Hc Hne (Hk & _). apply free_app; [by apply plain_free|].
  pose proof (plain_free c _ Hc (QueryEscape_plain kv.2)). unfold free in *. simpl. set_solver.
Qed.

Lemma queryPair_eq kv : goodKey kv.1 → queryPair (pairText kv) = [kv].
Proof.
  intros Hk. pose proof Hk as (Hp & Hu & Hne). unfold queryPair.
  rewrite bool_decide_eq_false_2 by (by apply (pairText_free ";")).
  rewrite bool_decide_eq_false_2 by (unfold pairText; destruct kv.1; done).
  unfold pairText. rewrite cutAt_found by (by apply plain_free). simpl. rewrite Hu, query_escape_roundtrip. by destruct kv.
Qed.

(** Pairs written one after the other, joined by ampersands. *)
Fixpoint queryText (kv : string * string) (more : list (string * string)) : string :=
  match more with
  | [] => pairText kv
  | kv' :: more => (pairText kv ++ String "&" (queryText kv' more))%string
  end.

Lemma parse_queryText more : ∀ fuel kv, (length more < fuel)%nat → Forall (fun kv => goodKey kv.1) (kv :: more) →
  parseQuery fuel (queryText kv more) = kv :: more.
Proof.
  induction more as [|kv' more IH]; intros [|fuel] kv Hf [Hk Hks]%Forall_cons; simpl in *; try lia.
  - rewrite cutAt_none by (by apply pairText_free). by rewrite queryPair_eq.
  - rewrite cutAt_found by (by apply pairText_free). rewrite queryPair_eq by done. simpl.
    by rewrite IH by (done || lia).
Qed.

Lemma queryText_free more : ∀ kv, Forall (fun kv => goodKey kv.1) (kv :: more) → free "#" (queryText kv more).
Proof.
  induction more as [|kv' more IH]; intros kv [Hk Hks]%Forall_cons; simpl; [by apply pairText_free|].
  apply free_app; [by apply pairText_free|]. specialize (IH _ Hks). unfold free in *. simpl. set_solver.
Qed.

Lemma queryText_length more : ∀ kv, (length more <= String.length (queryText kv more))%nat.
Proof.
  assert (∀ a b, String.length (a ++ b) = (String.length a + String.length b)%nat) as Happ.
  { induction a as [|c a IH]; intros b; simpl; [done|]. by rewrite IH. }
  induction more as [|kv' more IH]; intros kv; simpl; [lia|]. rewrite Happ. simpl. specialize (IH kv'). lia.
Qed.

(** The parameters of a URL are those it was built from. *)
Lemma queryOf_built url kv more key :
  free "#" url → free "?" url → Forall (fun kv => goodKey kv.1) (kv :: more) →
  queryOf (url ++ String "?" (queryText kv more)) key =
    snd <$> List.find (fun kv => bool_decide (kv.1 = key)) (kv :: more).
Proof.
  intros H1 H2 Hk. unfold queryOf. rewrite rawQuery_eq by (by try apply queryText_free).
  rewrite parse_queryText; [done| |done]. pose proof (queryText_length more kv). lia.
Qed.

(** ** The connection is admitted *)

Lemma good_token : goodKey "token".
Proof. split; [repeat constructor|done]. Qed.
Lemma good_device : goodKey "vb-device".
Proof. split; [repeat constructor|done]. Qed.
Lemma good_nonce : goodKey "vb-nonce".
Proof. split; [repeat constructor|done]. Qed.
Lemma good_sig : goodKey "vb-sig".
Proof. split; [repeat constructor|done]. Qed.

Lemma sessionURL_token addr tok : free "#" addr → free "?" addr → queryOf (sessionURL addr tok) "token" = Some tok.
Proof.
  intros H1 H2.
  replace (sessionURL addr tok) with (("http://" ++ addr ++ "/pairing/web-session") ++ String "?" (queryText ("token", tok) []))%string
    by (unfold sessionURL; by rewrite !string_app_assoc).
  rewrite queryOf_built; [done|..|by repeat constructor; apply good_token]; (repeat apply free_app; [by vm_compute; set_solver|done|by vm_compute; set_solver]).
Qed.

Lemma wsURL_presents addr remote id nonce signature : free "#" addr → free "?" addr →
  presents (localRequest (wsURL addr id nonce signature) remote [WebSocketSubprotocol]) id nonce signature.
Proof.
  intros H1 H2. unfold presents. simpl.
  replace (wsURL addr id nonce signature) with (("ws://" ++ addr ++ "/ws") ++
    String "?" (queryText ("vb-device", id) [("vb-nonce", nonce); ("vb-sig", signature)]))%string
    by (unfold wsURL; simpl; by rewrite !string_app_assoc).
  assert (∀ c, c = "#"%char ∨ c = "?"%char → free c ("ws://" ++ addr ++ "/ws")) as Hfree.
  { intros c Hc. repeat apply free_app; [|by destruct Hc as [-> | ->]|]; unfold free; simpl; destruct Hc as [-> | ->]; set_solver. }
  rewrite !queryOf_built by (first [apply Hfree; naive_solver|repeat constructor; (apply good_device || apply good_nonce || apply good_sig)]).
  split_and!; [done..|]. set_solver.
Qed.

Section AgentDial.
Context {crypto : IdentityCrypto} {signatures : SignatureLaws}.

(** C25: the Agent can always reach itself, and only with its token.  Whatever bytes
    the token holds, the connection that ends a relay route is admitted by the
    Agent's own gate: the credentials the endpoint returns survive the query of the
    URL, the nonce is spent from the host it was issued to within its lifetime, and
    the connection is bound to the Agent's device at the current epoch.  With any
    other token the gate is left as it was and there is no connection. *)
Theorem local_dial_is_admitted c g d addr raw :
  ValidState (state (gate_devices g)) → RequirePairedSession c = true → SessionToken c ≠ EmptyString →
  ld_random d = Ok raw → len raw = sessionNonceBytes →
  Z.of_nat (size (nonce_items (evictLocked (gate_nonces g) (ld_now d)))) < maxActiveSessionNonces →
  hostFromAddr (ld_remote2 d) = hostFromAddr (ld_remote d) → ld_now1 d <= ld_issued d + nonce_ttl (gate_nonces g) →
  free "#" addr → free "?" addr →
  (∃ g' result, dialLocalAgentWS c (Some g) d addr (SessionToken c) = (Some g', Ok (Some result)) ∧
     Result_DeviceID result = DeviceID (gate_devices g) ∧ Result_Epoch result = RevocationEpoch (gate_devices g)) ∧
  ∀ token, token ≠ SessionToken c →
    dialLocalAgentWS c (Some g) d addr token = (Some g, Err (ErrorString "web-session returned %d")).
Proof.
  intros Hv Hreq Htok Hrand Hraw Hroom Hhost Hnow H1 H2. split.
  - set (r0 := localRequest (sessionURL addr (SessionToken c)) (ld_remote d) []).
    destruct (handleWebSession c (Some g) (ld_now d) (ld_issued d) (Ok raw) r0) as [g1 [status body]] eqn:HW.
    assert (∃ g2 id nonce signature expiresIn, g1 = Some g2 ∧ status = StatusOK ∧ body = WebSessionBody id nonce signature expiresIn)
      as (g2 & id & nonce & signature & expiresIn & -> & -> & ->).
    { unfold handleWebSession, validToken, Query_Get in HW. change (Query r0) with (queryOf (sessionURL addr (SessionToken c))) in HW.
      rewrite sessionURL_token in HW by done. simpl in HW. rewrite bool_decide_eq_false_2 in HW by done.
      rewrite bool_decide_eq_true_2 in HW by done. simpl in HW. unfold issue in HW.
      destruct (_ >=? maxActiveSessionNonces) eqn:Hfull; [unfold evictLocked in Hroom; simpl in Hroom; lia|]. simplify_eq. by eexists _, _, _, _, _. }
    destruct (web_session_admits_once c g (ld_now d) (ld_issued d) raw r0 g2 id nonce signature expiresIn
      (localRequest (wsURL addr id nonce signature) (ld_remote2 d) [WebSocketSubprotocol]) (ld_now1 d) (ld_now2 d)
      Hv Hreq Hraw HW (wsURL_presents _ _ _ _ _ H1 H2) Hhost Hnow) as (g3 & result & HA & HD & HE & _).
    exists g3, result. split; [|done]. unfold dialLocalAgentWS. rewrite Hrand. fold r0. rewrite HW. cbn. by rewrite HA.
  - intros tok Hne. unfold dialLocalAgentWS, handleWebSession, validToken, Query_Get.
    change (Query (localRequest ?u _ _)) with (queryOf u). rewrite sessionURL_token by done. simpl.
    rewrite (bool_decide_eq_false_2 (tok = SessionToken c)) by done. by rewrite andb_false_r.
Qed.
End AgentDial.
