(* ===== verification/PairedSessionExamples.v ===== *)
(** * Paired sessions: executed upgrades

    The browser asks for credentials and upgrades with them, twice; a paired phone
    upgrades with its headers; the theorems of [PairedSession] are applied. *)

From S2P Require Import Prelude.
From S2P Require Import Encoding.
From S2P Require Import Ticket.
From S2P Require Import DeviceIdentity.
From S2P Require Import DeviceIdentityFacts.
From S2P Require Import DeviceIdentityExamples.
From S2P Require Import PairedSession.
From S2P Require Import LocalDial.

#[local] Existing Instance toyCrypto.
#[local] Existing Instance toyLaws.

#[local] Instance toySignatures : SignatureLaws.
Proof. by split. Qed.

Example host_and_port : hostFromAddr "192.168.1.7:52114" = "192.168.1.7"%string.
Proof. vm_compute. reflexivity. Qed.
Example host_v6 : hostFromAddr "[fe80::1]:443" = "fe80::1"%string ∧ hostFromAddr "fe80::1" = "fe80::1"%string ∧
  hostFromAddr "[fe80::1]x:443" = "[fe80::1]x:443"%string ∧ hostFromAddr EmptyString = EmptyString.
Proof. vm_compute. done. Qed.

Definition requirePaired : UpgradeConfig := mkUpgradeConfig "token" true.
Definition gate0 : pairedSessionGate := newPairedSessionGate store1 (newNonceStore 0).
Definition nonce1 : bytes := fill 32 "071".
Definition nonce2 : bytes := fill 32 "072".
Definition toyHex (b : bytes) : string := hexEncode b.

(** The parameters of a URL, in order. *)
Definition lookupParam (params : list (string * string)) (key : string) : option string :=
  snd <$> List.find (fun kv => bool_decide (kv.1 = key)) params.

Definition askCredentials : Request :=
  mkRequest (fun _ => EmptyString) (lookupParam [("token", "token")]%string) "127.0.0.1:50000" [].
Definition browser : Request :=
  mkRequest (fun _ => EmptyString)
    (lookupParam [(pairedDeviceQuery, toyHex (fill 16 "001")); (pairedSessionNonceQuery, toyHex nonce1);
                  (pairedDeviceSignatureQuery, Std_Encode (fill 64 "006"))])
    "127.0.0.1:50001" [WebSocketSubprotocol].
Definition phoneHeaders (key : string) : string :=
  if bool_decide (key = pairedDeviceHeader) then toyHex (fill 16 "002")
  else if bool_decide (key = pairedSessionNonceHeader) then toyHex nonce2
  else if bool_decide (key = pairedDeviceSignatureHeader) then Std_Encode (fill 64 "006")
  else EmptyString.
Definition phoneRequest : Request :=
  mkRequest phoneHeaders (fun _ => None) "10.0.0.2:7000" [WebSocketSubprotocol].
Definition phoneAsks : Request := mkRequest (fun _ => EmptyString) (fun _ => None) "10.0.0.2:6999" [].

Definition gateOps : list GateOp :=
  [GateWebSession requirePaired 100 100 (Ok nonce1) askCredentials;
   GateUpgrade requirePaired 200 200 browser;
   GateUpgrade requirePaired 300 300 browser;
   GateNonce 400 400 (Ok nonce2) phoneAsks;
   GateUpgrade requirePaired 500 500 phoneRequest].

Definition wasEntered (e : GateEvent) : bool := match e with Entered _ => true | _ => false end.

Example gate_executed :
  wasEntered <$> (gateRun gate0 gateOps).1 = [false; true; false; false; true].
Proof. vm_compute. reflexivity. Qed.

Lemma valid_store1 : ValidState (state store1).
Proof. apply valid_example; [vm_compute; reflexivity|vm_compute; split; congruence|vm_compute; split; congruence]. Qed.
Lemma gate0_valid : ValidState (state (gate_devices gate0)).
Proof. exact valid_store1. Qed.

Lemma nonce_admits_once_witness :
  (countb (enters (toyHex nonce1)) (gateRun gate0 gateOps).1 <= 1)%nat.
Proof.
  destruct (nonce_admits_once gate0 gateOps gate0_valid) as (_ & _ & H).
  apply H; [reflexivity|]. vm_compute. constructor.
Defined.

Definition issuedGate := handleWebSession requirePaired (Some gate0) 100 100 (Ok nonce1) askCredentials.
Definition gate1 : pairedSessionGate := default gate0 issuedGate.1.

Example credentials : issuedGate = (Some gate1, (StatusOK,
  WebSessionBody (toyHex (fill 16 "001")) (toyHex nonce1) (Std_Encode (fill 64 "006")) 30)).
Proof. vm_compute. reflexivity. Qed.

Lemma browser_presents :
  presents browser (toyHex (fill 16 "001")) (toyHex nonce1) (Std_Encode (fill 64 "006")).
Proof. split; [reflexivity|]. split; [reflexivity|]. split; [reflexivity|]. by left. Qed.

Lemma web_session_admits_once_witness :
  ∃ g2 result, authorizedForUpgrade requirePaired (Some gate1) 200 200 browser = (Some g2, Some (Some result)) ∧
    Result_DeviceID result = fill 16 "001" ∧
    (authorizedForUpgrade requirePaired (Some g2) 300 300 browser).2 = None.
Proof.
  destruct (web_session_admits_once requirePaired gate0 100 100 nonce1 askCredentials gate1 _ _ _ _ browser 200 200
    gate0_valid eq_refl eq_refl credentials browser_presents) as (g2 & result & HA & HD & _ & Hagain);
    [vm_compute; reflexivity|vm_compute; congruence|].
  exists g2, result. split; [exact HA|]. split; [exact HD|]. apply Hagain.
Defined.

(** The phone's upgrade. *)
Definition gate2 : pairedSessionGate := (gateExec gate1 (GateNonce 400 400 (Ok nonce2) phoneAsks)).1.

Lemma gate2_devices : gate_devices gate2 = store1.
Proof. vm_compute. reflexivity. Qed.
Lemma gate2_valid g : Some gate2 = Some g → ValidState (state (gate_devices g)).
Proof. intros Hg. apply (f_equal (default g)) in Hg. simpl in Hg. rewrite <- Hg, gate2_devices. exact valid_store1. Qed.

Lemma upgrade_is_authenticated_witness :
  ∃ g' result now key, (authorizedForUpgrade requirePaired (Some gate2) 500 500 phoneRequest).1 = Some g' ∧
    Admits gate2 g' phoneRequest now key ∧ authorizedSigner store1 (Result_DeviceID result) key.
Proof.
  assert (is_Some (authorizedForUpgrade requirePaired (Some gate2) 500 500 phoneRequest).2) as [b Hb]
    by (vm_compute; eexists; reflexivity).
  destruct (authorizedForUpgrade requirePaired (Some gate2) 500 500 phoneRequest) as [og res] eqn:HA.
  simpl in Hb. subst res.
  destruct (upgrade_is_authenticated requirePaired (Some gate2) 500 500 phoneRequest og (Some b) eq_refl gate2_valid HA)
    as (_ & g & g' & result & now & key & Hg & Hg' & _ & _ & Had & Hsig & _).
  apply (f_equal (default g)) in Hg. simpl in Hg. rewrite <- Hg in Had, Hsig. rewrite gate2_devices in Hsig. exists g', result, now, key. split; [exact Hg'|]. split; [exact Had|exact Hsig].
Defined.

(** * The Agent's own connection ([LocalDial]), executed *)

#[local] Existing Instance toySignatures.

(** Queries as browsers write them, and some that are malformed. *)
Example queries :
  queryOf "http://h/p?a=1+2&b=%C3%A9&a=3#f" "a" = Some "1 2"%string ∧
  queryOf "http://h/p?a=1+2&b=%41" "b" = Some "A"%string ∧
  queryOf "http://h/p?a;b&c=%4&d" "a" = None ∧ queryOf "http://h/p?a;b&c=%4&d" "c" = None ∧
  queryOf "http://h/p?a;b&c=%4&d" "d" = Some EmptyString ∧ queryOf "http://h/p" "a" = None.
Proof. vm_compute. done. Qed.

(** A token that needs escaping. *)
Definition oddToken : string := "a&b=c d%?#".
Definition oddConfig : UpgradeConfig := mkUpgradeConfig oddToken true.
Definition ownDial : LocalDial := mkLocalDial 100 100 (Ok nonce1) "127.0.0.1:50000" 200 200 "127.0.0.1:50001".
Definition ownAddr : string := "127.0.0.1:8787".

Example own_connection :
  (match
     (dialLocalAgentWS oddConfig (Some gate0) ownDial ownAddr oddToken).2 with Ok (Some r) => Result_DeviceID r | _ => [] end) = fill 16 "001".
Proof. vm_compute. reflexivity. Qed.

Lemma ownAddr_free : free "#" ownAddr ∧ free "?" ownAddr.
Proof. split; unfold free; simpl; set_solver. Qed.

Lemma local_dial_is_admitted_witness :
  (∃ g' result, dialLocalAgentWS oddConfig (Some gate0) ownDial ownAddr oddToken = (Some g', Ok (Some result)) ∧
     Result_DeviceID result = fill 16 "001") ∧
  dialLocalAgentWS oddConfig (Some gate0) ownDial ownAddr "a" = (Some gate0, Err (ErrorString "web-session returned %d")).
Proof.
  destruct (local_dial_is_admitted oddConfig gate0 ownDial ownAddr nonce1) as [(g' & result & HA & HD & _) Hother].
  - exact gate0_valid.
  - reflexivity.
  - intros H. discriminate H.
  - reflexivity.
  - reflexivity.
  - vm_compute. reflexivity.
  - vm_compute. reflexivity.
  - vm_compute. intros H. discriminate H.
  - exact (proj1 ownAddr_free).
  - exact (proj2 ownAddr_free).
  - split; [exists g', result; split; [exact HA|exact HD]|]. apply Hother. intros H. discriminate H.
Defined.
