(* ===== verification/PromptAction.v ===== *)
(** * Prompt actions ([internal/promptaction/registry.go])

    A prompt is prepared, shown to the user, and then typed into the terminal at
    most once, or cancelled.  The writer of [Commit] acts on a state of its own. *)

From S2P Require Import Prelude.
From S2P Require Import Utf8.
From S2P Require Import Sha256.

Definition defaultMaxTrackedActions : Z := 4096.
Definition defaultMaxPendingActions : Z := 16.
Definition defaultMaxActionIDBytes : Z := 64.
Definition defaultMaxPreviewBytes : Z := 48 * 1024.
Definition defaultMaxTerminalInputBytes : Z := defaultMaxPreviewBytes + 1.

Definition ErrInvalidAction := ErrorString "prompt action is invalid".
Definition ErrPendingActionLimit := ErrorString "pending prompt action limit exceeded".
Definition ErrTrackedActionLimit := ErrorString "tracked prompt action limit exceeded".
Definition ErrActionConflict := ErrorString "prompt action ID conflicts with an existing action".
Definition ErrActionNotFound := ErrorString "prompt action was not found".
Definition ErrActionCancelled := ErrorString "prompt action was cancelled".
Definition ErrActionCommitted := ErrorString "prompt action was already committed".
Definition ErrActionCommitFailed := ErrorString "prompt action commit previously failed".
Definition ErrRegistryClosed := ErrorString "prompt action registry is closed".

Inductive State := StatePrepared | StateCommitted | stateCancelled | stateCommitFailed.

#[global] Instance State_eq_dec : EqDecision State.
Proof. solve_decision. Defined.

Record Action := mkAction {
  Action_Preview : string;
  Action_TerminalInput : bytes;
}.

Record PrepareResult := mkPrepareResult {
  Prepare_State : State;
  Prepare_Preview : string;
}.

Record registryEntry := mkRegistryEntry {
  entry_digest : bytes;
  entry_state : State;
  entry_preview : string;
  entry_terminalInput : bytes;
}.

#[global] Instance registryEntry_eta : Eta registryEntry := fun e =>
  mkRegistryEntry (entry_digest e) (entry_state e) (entry_preview e) (entry_terminalInput e).

(** The registry; [entries] is nil, hence empty, once it is closed. *)
Record Registry := mkRegistry {
  entries : gmap bytes registryEntry;
  pending : Z;
  closed : bool;
}.

#[global] Instance Registry_eta : Eta Registry := fun r => mkRegistry (entries r) (pending r) (closed r).

Definition NewRegistry : Registry := mkRegistry ∅ 0 false.

Definition validActionID (actionID : bytes) : bool :=
  (0 <? len actionID) && (len actionID <=? defaultMaxActionIDBytes).

Definition validAction (action : Action) : bool :=
  negb (bool_decide (Action_Preview action = EmptyString)) && ValidString (Action_Preview action) &&
  (slen (Action_Preview action) <=? defaultMaxPreviewBytes) &&
  (0 <? len (Action_TerminalInput action)) &&
  (len (Action_TerminalInput action) <=? defaultMaxTerminalInputBytes).

Definition actionDigest (action : Action) : bytes :=
  Sum256 (big_endian 8 (slen (Action_Preview action)) ++ bytes_of_string (Action_Preview action) ++
          big_endian 8 (len (Action_TerminalInput action)) ++ Action_TerminalInput action).

Definition Prepare (r : Registry) (actionID : bytes) (action : Action) : Registry * result PrepareResult :=
  if negb (validActionID actionID) || negb (validAction action) then (r, Err ErrInvalidAction)
  else
    let digest := actionDigest action in
    if closed r then (r, Err ErrRegistryClosed)
    else match entries r !! actionID with
    | Some entry =>
        if negb (bool_decide (entry_digest entry = digest)) then (r, Err ErrActionConflict)
        else (r, match entry_state entry with
                 | StatePrepared => Ok (mkPrepareResult StatePrepared (entry_preview entry))
                 | StateCommitted => Ok (mkPrepareResult StateCommitted EmptyString)
                 | stateCancelled => Err ErrActionCancelled
                 | stateCommitFailed => Err ErrActionCommitFailed
                 end)
    | None =>
        if Z.of_nat (size (entries r)) >=? defaultMaxTrackedActions then (r, Err ErrTrackedActionLimit)
        else if pending r >=? defaultMaxPendingActions then (r, Err ErrPendingActionLimit)
        else
          let entry := mkRegistryEntry digest StatePrepared (Action_Preview action) (Action_TerminalInput action) in
          (r <| entries ::= insert actionID entry |> <| pending ::= Z.succ |>,
           Ok (mkPrepareResult StatePrepared (Action_Preview action)))
    end.

(** [finalizeEntry], for the entry of this identifier. *)
Definition finalizeEntry (r : Registry) (actionID : bytes) (entry : registryEntry) (state : State) : Registry :=
  r <| entries ::= insert actionID (mkRegistryEntry (entry_digest entry) state EmptyString []) |>
    <| pending ::= fun n => if n >? 0 then n - 1 else n |>.

Definition Commit {W} (r : Registry) (w : W) (actionID : bytes) (writer : option (W → bytes → W * result unit))
    : Registry * W * result unit :=
  match writer with
  | None => (r, w, Err ErrInvalidAction)
  | Some writer =>
      if negb (validActionID actionID) then (r, w, Err ErrInvalidAction)
      else if closed r then (r, w, Err ErrRegistryClosed)
      else match entries r !! actionID with
      | None => (r, w, Err ErrActionNotFound)
      | Some entry =>
          match entry_state entry with
          | StateCommitted => (r, w, Ok tt)
          | stateCancelled => (r, w, Err ErrActionCancelled)
          | stateCommitFailed => (r, w, Err ErrActionCommitFailed)
          | StatePrepared =>
              match writer w (entry_terminalInput entry) with
              | (w, Err e) =>
                  (finalizeEntry r actionID entry stateCommitFailed, w, Err (ErrorWrap "commit prompt action" e))
              | (w, Ok _) => (finalizeEntry r actionID entry StateCommitted, w, Ok tt)
              end
          end
      end
  end.

Definition Cancel (r : Registry) (actionID : bytes) : Registry * result unit :=
  if negb (validActionID actionID) then (r, Err ErrInvalidAction)
  else if closed r then (r, Err ErrRegistryClosed)
  else match entries r !! actionID with
  | None => (r, Err ErrActionNotFound)
  | Some entry =>
      match entry_state entry with
      | StatePrepared => (finalizeEntry r actionID entry stateCancelled, Ok tt)
      | stateCancelled => (r, Ok tt)
      | StateCommitted => (r, Err ErrActionCommitted)
      | stateCommitFailed => (r, Err ErrActionCommitFailed)
      end
  end.

Definition Close (r : Registry) : Registry :=
  if closed r then r else mkRegistry ∅ 0 true.

(** * Facts about prompt actions

    A system around the registry that remembers what [Prepare] showed and what
    [Commit] wrote, its runs, and the promise of the registry: an action reaches
    the terminal at most once, and only with the bytes prepared with the preview
    that was shown. *)

(** ** The registry and its history *)

#[local] Arguments Prepare : simpl never.
#[local] Arguments Commit : simpl never.
#[local] Arguments Cancel : simpl never.

(** [shown]: the previews of the replies in state [StatePrepared]; [written]: the
    bytes each call of a writer received; [prepared]: the actions that made an entry. *)
Record History := mkHistory {
  registry : Registry;
  shown : list (bytes * string);
  written : list (bytes * bytes);
}.

#[global] Instance History_eta : Eta History := fun h => mkHistory (registry h) (shown h) (written h).

(** One call; a writer records its bytes and fails with the given error, or succeeds. *)
Inductive op :=
  | OpPrepare (id : bytes) (action : Action)
  | OpCommit (id : bytes) (failure : option error)
  | OpCancel (id : bytes)
  | OpClose.

Definition recorder (id : bytes) (failure : option error) (log : list (bytes * bytes)) (input : bytes)
    : list (bytes * bytes) * result unit :=
  (log ++ [(id, input)], match failure with Some e => Err e | None => Ok tt end).

Definition apply_op (o : op) (h : History) : History :=
  match o with
  | OpPrepare id action =>
      let '(r, reply) := Prepare (registry h) id action in
      h <| registry := r |>
        <| shown ::= fun l => match reply with
                              | Ok (mkPrepareResult StatePrepared preview) => l ++ [(id, preview)]
                              | _ => l
                              end |>
  | OpCommit id failure =>
      let '(r, log, _) := Commit (registry h) (written h) id (Some (recorder id failure)) in
      h <| registry := r |> <| written := log |>
  | OpCancel id => h <| registry := fst (Cancel (registry h) id) |>
  | OpClose => h <| registry ::= Close |>
  end.

Definition run_ops (ops : list op) (h : History) : History := fold_left (fun h o => apply_op o h) ops h.

Definition start : History := mkHistory NewRegistry [] [].

(** ** The invariant *)

Definition is_prepared (e : registryEntry) : bool := bool_decide (entry_state e = StatePrepared).
Definition prepared_entries (r : Registry) : Z :=
  map_sum (fun e => if is_prepared e then 1 else 0) (entries r).

(** What one entry promises: a pending entry holds a valid action, a settled one
    holds no bytes. *)
Definition entry_ok (e : registryEntry) : Prop :=
  if is_prepared e then validAction (mkAction (entry_preview e) (entry_terminalInput e)) = true
  else entry_preview e = EmptyString ∧ entry_terminalInput e = [].

Record registry_ok (r : Registry) : Prop := {
  ok_pending : pending r = prepared_entries r;
  ok_max_pending : pending r <= defaultMaxPendingActions;
  ok_max_entries : Z.of_nat (size (entries r)) <= defaultMaxTrackedActions;
  ok_entries : map_Forall (fun id e => validActionID id = true ∧ entry_ok e) (entries r);
  ok_closed : closed r = true → entries r = ∅;
}.

Lemma registry_ok_new : registry_ok NewRegistry.
Proof. by split. Qed.

Lemma prepared_entries_pos r id e :
  entries r !! id = Some e → is_prepared e = true → 0 < prepared_entries r.
Proof.
  intros He Hp. unfold prepared_entries. rewrite (map_sum_delete _ _ _ e He), Hp.
  pose proof (map_sum_nonneg (fun e => if is_prepared e then 1 else 0) (delete id (entries r))
                ltac:(intros ???; by case_match)). lia.
Qed.

(** Settling an entry keeps the invariant. *)
Lemma finalize_ok r id e st :
  registry_ok r → entries r !! id = Some e → entry_state e = StatePrepared → st ≠ StatePrepared →
  registry_ok (finalizeEntry r id e st).
Proof.
  intros [Hp Hm Hs Hall Hc] He Hst Hne.
  assert (is_prepared e = true) as Hpe by (by apply bool_decide_eq_true).
  pose proof (prepared_entries_pos r id e He Hpe) as Hpos.
  unfold finalizeEntry. simpl in *. replace (pending r >? 0) with true by lia.
  split; simpl.
  - rewrite Hp. unfold prepared_entries at 2. simpl.
    rewrite <- insert_delete_eq, map_sum_insert by apply lookup_delete_eq.
    unfold prepared_entries. rewrite (map_sum_delete _ _ _ e He), Hpe.
    unfold is_prepared at 2. simpl. rewrite bool_decide_eq_false_2 by done. lia.
  - lia.
  - rewrite map_size_insert_Some by eauto. lia.
  - intros id' e' [(<- & <-)|(Hn & He')]%lookup_insert_Some; [|by apply Hall].
    split; [by eapply Hall|]. unfold entry_ok, is_prepared. simpl.
    by rewrite bool_decide_eq_false_2.
  - intros Hcl. rewrite (Hc Hcl), lookup_empty in He. done.
Qed.

Lemma Prepare_ok r id action : registry_ok r → registry_ok (fst (Prepare r id action)).
Proof.
  intros Hr. unfold Prepare.
  destruct (negb (validActionID id) || negb (validAction action)) eqn:Hv; [done|].
  destruct (closed r) eqn:Hcl; [done|].
  destruct (entries r !! id) as [e|] eqn:He; [by case_match|].
  destruct (_ >=? defaultMaxTrackedActions) eqn:H1; [done|].
  destruct (pending r >=? _) eqn:H2; [done|]. split_bool.
  destruct Hr as [Hp Hm Hs Hall Hc]. split; simpl; try lia.
  - rewrite Hp. unfold prepared_entries. simpl. rewrite map_sum_insert by done. simpl. lia.
  - rewrite map_size_insert_None by done. lia.
  - apply map_Forall_insert; [done|]. split; [|done]. split; [done|]. by destruct action.
Qed.

Lemma Commit_ok {W} r (w : W) id writer : registry_ok r → registry_ok (fst (fst (Commit r w id writer))).
Proof.
  intros Hr. unfold Commit. destruct writer as [writer|]; [|done].
  destruct (negb _); [done|]. destruct (closed r); [done|].
  destruct (entries r !! id) as [e|] eqn:He; [|done].
  destruct (entry_state e) eqn:Hst; try done.
  destruct (writer w (entry_terminalInput e)) as [w' [u|err]]; simpl; by apply finalize_ok.
Qed.

Lemma Cancel_ok r id : registry_ok r → registry_ok (fst (Cancel r id)).
Proof.
  intros Hr. unfold Cancel. destruct (negb _); [done|]. destruct (closed r); [done|].
  destruct (entries r !! id) as [e|] eqn:He; [|done].
  destruct (entry_state e) eqn:Hst; try done. simpl. by apply finalize_ok.
Qed.

Lemma Close_ok r : registry_ok r → registry_ok (Close r).
Proof.
  intros Hr. unfold Close. destruct (closed r); [done|].
  by split.
Qed.

#[export] Hint Resolve registry_ok_new Prepare_ok Commit_ok Cancel_ok Close_ok : vb.

Lemma apply_op_registry o h :
  registry (apply_op o h) =
    match o with
    | OpPrepare id action => fst (Prepare (registry h) id action)
    | OpCommit id failure => fst (fst (Commit (registry h) (written h) id (Some (recorder id failure))))
    | OpCancel id => fst (Cancel (registry h) id)
    | OpClose => Close (registry h)
    end.
Proof.
  destruct o as [id action|id failure|id|]; try done; simpl.
  - by destruct (Prepare _ _ _).
  - by destruct (Commit (registry h) (written h) id (Some (recorder id failure))) as [[??]?].
Qed.

Lemma apply_op_ok o h : registry_ok (registry h) → registry_ok (registry (apply_op o h)).
Proof. rewrite apply_op_registry. destruct o; auto with vb. Qed.

Lemma run_ops_snoc ops o h : run_ops (ops ++ [o]) h = apply_op o (run_ops ops h).
Proof. unfold run_ops. by rewrite fold_left_app. Qed.

Lemma run_ops_ok ops : registry_ok (registry (run_ops ops start)).
Proof.
  induction ops as [|o ops IH] using rev_ind; [apply registry_ok_new|].
  rewrite run_ops_snoc. by apply apply_op_ok.
Qed.

(** After any calls, the count of pending actions is the number of prepared
    entries and within its limit, so is the number of tracked actions, settled
    entries hold no bytes, and a closed registry holds nothing. *)
Theorem registry_stays_bounded ops : registry_ok (registry (run_ops ops start)).
Proof. apply run_ops_ok. Qed.

(** ** The history *)

(** What the history says about the registry after the calls [ops]. *)
Record history_ok (ops : list op) (h : History) : Prop := {
  ok_written_once : NoDup (map fst (written h));
  ok_written id input : (id, input) ∈ written h →
    ∃ preview, (id, preview) ∈ shown h ∧ OpPrepare id (mkAction preview input) ∈ ops;
  ok_shown id p1 p2 : (id, p1) ∈ shown h → (id, p2) ∈ shown h → p1 = p2;
  ok_tracked id : closed (registry h) = false → id ∈ map fst (shown h) → is_Some (entries (registry h) !! id);
  ok_prepared id e : entries (registry h) !! id = Some e → is_prepared e = true →
    id ∉ map fst (written h) ∧ (id, entry_preview e) ∈ shown h ∧
    OpPrepare id (mkAction (entry_preview e) (entry_terminalInput e)) ∈ ops;
}.

Lemma history_ok_mono ops o h : history_ok ops h → history_ok (ops ++ [o]) h.
Proof.
  intros [H1 H2 H3 H4 H5]. split; try done.
  - intros id input Hin. destruct (H2 id input Hin) as (p & ? & ?). exists p. split; [done|].
    apply elem_of_app; auto.
  - intros id e He Hp. destruct (H5 id e He Hp) as (? & ? & ?). split_and!; try done.
    apply elem_of_app; auto.
Qed.

(** The history is unchanged when no entry becomes prepared and none is forgotten
    before the registry closes. *)
Lemma history_ok_settle ops h r :
  history_ok ops h →
  (∀ id e, entries r !! id = Some e → is_prepared e = true → entries (registry h) !! id = Some e) →
  (closed r = false → closed (registry h) = false ∧
     ∀ id, is_Some (entries (registry h) !! id) → is_Some (entries r !! id)) →
  history_ok ops (h <| registry := r |>).
Proof.
  intros [H1 H2 H3 H4 H5] Hent Hcl. split; simpl; try done.
  - intros id Hr Hin. destruct (Hcl Hr) as [? Hs]. by apply Hs, H4.
  - intros id e He Hp. by apply H5; [apply Hent|].
Qed.

Lemma finalize_settles r id e st :
  entries r !! id = Some e → st ≠ StatePrepared →
  (∀ id' e', entries (finalizeEntry r id e st) !! id' = Some e' → is_prepared e' = true →
     id' ≠ id ∧ entries r !! id' = Some e') ∧
  (∀ id', is_Some (entries r !! id') → is_Some (entries (finalizeEntry r id e st) !! id')).
Proof.
  intros He Hst. unfold finalizeEntry. simpl. split; [|intros id' ?; by apply lookup_insert_is_Some'; auto].
  intros id' e' [(<- & <-)|(Hn & He')]%lookup_insert_Some; [|done].
  unfold is_prepared. simpl. by rewrite bool_decide_eq_false_2.
Qed.

Lemma Prepare_history ops h id action :
  history_ok ops h → history_ok (ops ++ [OpPrepare id action]) (apply_op (OpPrepare id action) h).
Proof.
  intros Hh. pose proof (history_ok_mono ops (OpPrepare id action) h Hh) as Hm.
  simpl. unfold Prepare.
  assert (∀ ops, history_ok ops h → history_ok ops (h <| registry := registry h |> <| shown ::= λ l, l |>))
    as Hsame by (by destruct h).
  destruct (negb (validActionID id) || _) eqn:Hv; [by apply Hsame|].
  destruct (closed (registry h)) eqn:Hcl; [by apply Hsame|].
  destruct (entries (registry h) !! id) as [e|] eqn:He.
  - destruct (negb (bool_decide _)); [by apply Hsame|].
    destruct (entry_state e) eqn:Hst; try by apply Hsame.
    destruct Hm as [H1 H2 H3 H4 H5].
    destruct (H5 id e He) as (Hw & Hs & Hop); [by apply bool_decide_eq_true|].
    assert (∀ x, x ∈ shown h ++ [(id, entry_preview e)] → x ∈ shown h) as Hsub.
    { intros x [?| ->%list_elem_of_singleton]%elem_of_app; done. }
    split; simpl; try done.
    + intros id' i Hin. destruct (H2 id' i Hin) as (p & ? & ?). exists p. split; [apply elem_of_app; auto|done].
    + intros id' p1 p2 ?%Hsub ?%Hsub. eauto.
    + intros id' _ Hin. apply H4; [done|]. apply list_elem_of_fmap in Hin as (y & -> & ?%Hsub).
      apply list_elem_of_fmap; eauto.
    + intros id' e' He' Hp. destruct (H5 id' e' He' Hp) as (? & ? & ?). split_and!; try done.
      apply elem_of_app; auto.
  - destruct (_ >=? defaultMaxTrackedActions); [by apply Hsame|].
    destruct (_ >=? defaultMaxPendingActions); [by apply Hsame|].
    destruct Hm as [H1 H2 H3 H4 H5].
    assert (id ∉ map fst (shown h)) as Hnew.
    { intros Hin. destruct (H4 id Hcl Hin) as [??]. congruence. }
    assert (id ∉ map fst (written h)) as Hneww.
    { intros ([id' input] & -> & (p & Hp & _)%H2)%list_elem_of_fmap. apply Hnew. simpl.
      apply list_elem_of_fmap. by exists (id', p). }
    split; simpl; try done.
    + intros id' i Hin. destruct (H2 id' i Hin) as (p & ? & ?). exists p. split; [apply elem_of_app; auto|done].
    + intros id' p1 p2 [Hi1|Hi1]%elem_of_app [Hi2|Hi2]%elem_of_app.
      * eauto.
      * apply list_elem_of_singleton in Hi2 as [= -> ->]. destruct Hnew. apply list_elem_of_fmap. by exists (id, p1).
      * apply list_elem_of_singleton in Hi1 as [= -> ->]. destruct Hnew. apply list_elem_of_fmap. by exists (id, p2).
      * apply list_elem_of_singleton in Hi1 as [= -> ->]. by apply list_elem_of_singleton in Hi2 as [= ->].
    + intros id' _. rewrite map_app. intros [Hin|Hin]%elem_of_app.
      * apply lookup_insert_is_Some'. right. by apply H4.
      * apply list_elem_of_singleton in Hin as ->. apply lookup_insert_is_Some'. by left.
    + intros id' e' [(<- & <-)|(Hn & He')]%lookup_insert_Some Hp; simpl.
      * split_and!; [done|apply elem_of_app; right; by left|apply elem_of_app; right; destruct action; by left].
      * destruct (H5 id' e' He' Hp) as (? & ? & ?). split_and!; try done. apply elem_of_app; auto.
Qed.

Lemma Commit_history ops h id failure :
  history_ok ops h → history_ok (ops ++ [OpCommit id failure]) (apply_op (OpCommit id failure) h).
Proof.
  intros Hh. pose proof (history_ok_mono ops (OpCommit id failure) h Hh) as Hm.
  assert (∀ st e, entries (registry h) !! id = Some e → is_prepared e = true → st ≠ StatePrepared →
    history_ok (ops ++ [OpCommit id failure])
      (h <| registry := finalizeEntry (registry h) id e st |>
         <| written := written h ++ [(id, entry_terminalInput e)] |>)) as Hwrite.
  { intros st e He Hp Hst. destruct (finalize_settles (registry h) id e st He Hst) as [Hf1 Hf2].
    destruct (ok_prepared _ _ Hm id e He Hp) as (Hw & Hs & Hop).
    destruct Hm as [H1 H2 H3 H4 H5]. split; simpl; try done.
    - rewrite map_app. apply NoDup_app. split_and!; [done| |apply NoDup_singleton].
      intros x Hx ->%list_elem_of_singleton. done.
    - intros id' i [Hin|Hin]%elem_of_app; [by apply H2|].
      apply list_elem_of_singleton in Hin as [= -> ->]. eauto.
    - intros id' Hc Hin. by apply Hf2, H4.
    - intros id' e' He' Hp'. destruct (Hf1 id' e' He' Hp') as [Hne Hold].
      destruct (H5 id' e' Hold Hp') as (? & ? & ?). split_and!; try done.
      rewrite map_app. intros [?|?%list_elem_of_singleton]%elem_of_app; done. }
  assert (apply_op (OpCommit id failure) h = h ∨
    ∃ st e, entries (registry h) !! id = Some e ∧ is_prepared e = true ∧ st ≠ StatePrepared ∧
      apply_op (OpCommit id failure) h =
        h <| registry := finalizeEntry (registry h) id e st |>
          <| written := written h ++ [(id, entry_terminalInput e)] |>) as [->|(st & e & He & Hp & Hst & ->)];
    [|done|by apply Hwrite].
  simpl. unfold Commit. destruct (negb _); [by left; destruct h|].
  destruct (closed _); [by left; destruct h|].
  destruct (entries (registry h) !! id) as [e|] eqn:He; [|by left; destruct h].
  destruct (entry_state e) eqn:Hst; try by left; destruct h.
  right. unfold recorder.
  destruct failure; [exists stateCommitFailed, e|exists StateCommitted, e];
    (split_and!; [done|by apply bool_decide_eq_true|done|done]).
Qed.

Lemma Cancel_history ops h id :
  history_ok ops h → history_ok (ops ++ [OpCancel id]) (apply_op (OpCancel id) h).
Proof.
  intros Hm%(history_ok_mono ops (OpCancel id)). unfold apply_op, Cancel.
  destruct (negb _); [by destruct h|]. destruct (closed (registry h)) eqn:Hc; [by destruct h|].
  destruct (entries (registry h) !! id) as [e|] eqn:He; [|by destruct h].
  destruct (entry_state e) eqn:Hst; try by destruct h.
  destruct (finalize_settles (registry h) id e stateCancelled He ltac:(done)) as [Hf1 Hf2].
  apply history_ok_settle; [done| |done]. intros id' e' He' Hp. by apply Hf1.
Qed.

Lemma Close_history ops h : history_ok ops h → history_ok (ops ++ [OpClose]) (apply_op OpClose h).
Proof.
  intros Hm%(history_ok_mono ops OpClose). simpl. apply history_ok_settle; [done|..].
  - intros id' e'. unfold Close. case_match; [done|]. simpl. by rewrite lookup_empty.
  - unfold Close. destruct (closed (registry h)) eqn:Hc; [by rewrite Hc|done].
Qed.

#[export] Hint Resolve Prepare_history Commit_history Cancel_history Close_history : vb.

Lemma run_ops_history ops : history_ok ops (run_ops ops start).
Proof.
  induction ops as [|o ops IH] using rev_ind.
  - split; try by (intros; set_solver). apply NoDup_nil_2.
  - rewrite run_ops_snoc. destruct o; auto with vb.
Qed.

(** C17: over any calls the terminal receives the bytes of an action at most once
    per identifier, whether the write fails or not, and they are the bytes some
    [Prepare] of that identifier passed together with the one preview every reply
    for the identifier showed. *)
Theorem action_written_once_as_shown ops :
  let h := run_ops ops start in
  NoDup (map fst (written h)) ∧
  (∀ id input, (id, input) ∈ written h →
     ∃ preview, (id, preview) ∈ shown h ∧ (∀ p, (id, p) ∈ shown h → p = preview) ∧
       OpPrepare id (mkAction preview input) ∈ ops).
Proof.
  destruct (run_ops_history ops) as [H1 H2 H3 _ _]. split; [done|].
  intros id input Hin. destruct (H2 id input Hin) as (p & Hp & Ho). exists p. eauto.
Qed.

(** ** Settled actions *)

Lemma apply_op_settled o h id e :
  entries (registry h) !! id = Some e → entry_state e ≠ StatePrepared →
  closed (registry (apply_op o h)) = true ∨ entries (registry (apply_op o h)) !! id = Some e.
Proof.
  intros He Hst. rewrite apply_op_registry.
  assert (∀ id' e' st, entries (registry h) !! id' = Some e' → entry_state e' = StatePrepared →
    entries (finalizeEntry (registry h) id' e' st) !! id = Some e) as Hfin.
  { intros id' e' st He' Hst'. simpl. rewrite lookup_insert_ne; congruence. }
  destruct o as [id' action|id' failure|id'|].
  - right. unfold Prepare. repeat case_match; try done. simpl. rewrite lookup_insert_ne; congruence.
  - right. unfold Commit, recorder. repeat case_match; simplify_eq; try done; by apply Hfin.
  - right. unfold Cancel. repeat case_match; try done. by apply Hfin.
  - left. unfold Close. by case_match.
Qed.

Lemma apply_op_closed o h : closed (registry h) = true → closed (registry (apply_op o h)) = true.
Proof.
  intros Hc. rewrite apply_op_registry. destruct o; unfold Prepare, Commit, Cancel, Close; rewrite ?Hc;
    repeat case_match; done.
Qed.

Definition settled_reply (st : State) : result unit * result unit :=
  match st with
  | StatePrepared => (Err ErrActionNotFound, Err ErrActionNotFound)
  | StateCommitted => (Ok tt, Err ErrActionCommitted)
  | stateCancelled => (Err ErrActionCancelled, Ok tt)
  | stateCommitFailed => (Err ErrActionCommitFailed, Err ErrActionCommitFailed)
  end.

(** Once an action is settled (committed, cancelled or failed), whatever calls
    follow, a retried [Commit] or [Cancel] gives the reply of that outcome, or
    that the registry is closed, and neither writes nor changes anything. *)
Theorem settled_action_is_final ops1 ops2 id e :
  let h1 := run_ops ops1 start in
  let r := registry (run_ops ops2 h1) in
  entries (registry h1) !! id = Some e → entry_state e ≠ StatePrepared →
  ∃ commit cancel,
    (∀ W (w : W) writer, Commit r w id (Some writer) = (r, w, commit)) ∧ Cancel r id = (r, cancel) ∧
    ((commit, cancel) = settled_reply (entry_state e) ∨
     closed r = true ∧ commit = Err ErrRegistryClosed ∧ cancel = Err ErrRegistryClosed).
Proof.
  intros h1 r He Hst.
  destruct (ok_entries _ (run_ops_ok ops1) id e He) as [Hid _].
  assert (closed r = true ∨ closed r = false ∧ entries r !! id = Some e) as Hr.
  { assert (closed r = true ∨ entries r !! id = Some e) as [?|?];
      [|by left|destruct (closed r); auto].
    subst r. induction ops2 as [|o ops2 IH] using rev_ind; [by right|].
    rewrite run_ops_snoc. destruct IH as [?|?]; [left; by apply apply_op_closed|].
    by apply apply_op_settled. }
  unfold Commit, Cancel. rewrite Hid. simpl. destruct Hr as [->|[-> ->]].
  - eexists _, _. split_and!; eauto.
  - destruct (entry_state e) eqn:Hs; [done|..]; (eexists _, _; split_and!; eauto).
Qed.

(** ** An executed session *)

Definition example_id : bytes := ["001"%byte].
Definition example_action : Action := mkAction "run the tests" (bytes_of_string "run the tests" ++ ["013"%byte]).
Definition broken_pipe := ErrorString "broken pipe".

(** A prompt is shown twice, its write fails, and it is retried in vain. *)
Definition example_ops : list op :=
  [OpPrepare example_id example_action; OpPrepare example_id example_action;
   OpCommit example_id (Some broken_pipe); OpCommit example_id None].

Example example_ops_history :
  shown (run_ops example_ops start) = [(example_id, "run the tests"%string); (example_id, "run the tests"%string)] ∧
  written (run_ops example_ops start) = [(example_id, Action_TerminalInput example_action)] ∧
  pending (registry (run_ops example_ops start)) = 0.
Proof. vm_compute. auto. Qed.

Definition example_entry : registryEntry :=
  mkRegistryEntry (actionDigest example_action) stateCommitFailed EmptyString [].

Example example_ops_settled : entries (registry (run_ops example_ops start)) !! example_id = Some example_entry.
Proof. vm_compute. reflexivity. Qed.

Lemma settled_action_is_final_witness :
  entry_state example_entry ≠ StatePrepared ∧
  ∃ commit cancel,
    (∀ W (w : W) writer,
       Commit (registry (run_ops [OpCancel example_id] (run_ops example_ops start))) w example_id (Some writer) =
         (registry (run_ops [OpCancel example_id] (run_ops example_ops start)), w, commit)) ∧
    Cancel (registry (run_ops [OpCancel example_id] (run_ops example_ops start))) example_id =
      (registry (run_ops [OpCancel example_id] (run_ops example_ops start)), cancel) ∧
    ((commit, cancel) = settled_reply stateCommitFailed ∨
     closed (registry (run_ops [OpCancel example_id] (run_ops example_ops start))) = true ∧
     commit = Err ErrRegistryClosed ∧ cancel = Err ErrRegistryClosed).
Proof.
  split; [done|].
  exact (settled_action_is_final example_ops [OpCancel example_id] example_id example_entry
           example_ops_settled ltac:(discriminate)).
Defined.
