(* ===== verification/AgentLog.v ===== *)
(** * The Agent's log ([internal/agentlog/logger.go])

    The events the Agent logs and the attributes a structured logger writes for one:
    names from a fixed vocabulary and an opaque session identifier. *)

From S2P Require Import Prelude.

Definition EventAgentStarting : string := "agent.starting".
Definition EventAgentStopping : string := "agent.stopping".
Definition EventAgentStopped : string := "agent.stopped".
Definition EventSessionStarted : string := "session.started".
Definition EventSessionAttached : string := "session.attached".
Definition EventSessionDetached : string := "session.detached".
Definition EventSessionEnding : string := "session.ending".
Definition EventSessionEnded : string := "session.ended".
Definition EventSessionCleanupFailed : string := "session.cleanup_failed".

Definition StateConnected : string := "connected".
Definition StateDetached : string := "detached".
Definition StateEnded : string := "ended".
Definition StateEnding : string := "ending".
Definition StateFailed : string := "failed".

Definition ReasonAgentShutdown : string := "agent_shutdown".
Definition ReasonExplicitEnd : string := "explicit_end".
Definition ReasonIdleTimeout : string := "idle_timeout".
Definition ReasonListenerClosed : string := "listener_closed".
Definition ReasonListenerError : string := "listener_error".
Definition ReasonProcessExit : string := "process_exit".
Definition ReasonReconnectExpired : string := "reconnect_expired".
Definition ReasonSignal : string := "signal".
Definition ReasonSuperseded : string := "superseded".

Definition OutcomeFailure : string := "failure".
Definition OutcomeSuccess : string := "success".

Record Event := mkEvent {
  Event_Name : string;
  Event_SessionID : string;
  Event_State : string;
  Event_Reason : string;
  Event_Outcome : string;
}.

#[global] Instance Event_eq_dec : EqDecision Event.
Proof. solve_decision. Defined.

Definition attribute (key value : string) : list (string * string) :=
  if bool_decide (value = EmptyString) then [] else [(key, value)].

(** The attributes [jsonLogger.Log] hands to the structured logger. *)
Definition Log (event : Event) : list (string * string) :=
  ("event"%string, Event_Name event) :: attribute "session_id" (Event_SessionID event) ++
    attribute "state" (Event_State event) ++ attribute "reason" (Event_Reason event) ++
    attribute "outcome" (Event_Outcome event).
