(* ===== verification/WebsocketWriter.v ===== *)
(** * The writing side of a connection ([websocketWriter] of [internal/server/server.go])

    What the Agent writes to one WebSocket connection, in the ordered stream when it
    was negotiated and as raw or JSON messages otherwise, and the Hello exchange.
    The connection decides for every write whether it fails; [written] holds the
    frames of the writes that did not.  A writer's methods hold its mutex, so each is
    one step. *)

From S2P Require Import Prelude.
From S2P Require Import Envelope.
From S2P Require Import Negotiation.
From S2P Require Import Stream.
From S2P Require Import StreamFacts.
From S2P Require Import Transfer.
From S2P Require Import PromptAction.

(** ** Connections *)

Inductive Frame :=
  | BinaryMessage (data : bytes)
  | JSONMessage (type data : string)
  | CloseMessage (code : Z) (text : string)
  | PingMessage.

#[global] Instance Frame_eq_dec : EqDecision Frame.
Proof. solve_decision. Defined.

Definition CloseNormalClosure : Z := 1000.
Definition CloseProtocolError : Z := 1002.

(** [conn_fault n] is what the [n]-th write to the connection fails with. *)
Record Conn := mkConn {
  conn_fault : nat → option error;
  conn_writes : nat;
  written : list Frame;
}.

#[global] Instance Conn_eta : Eta Conn := fun c => mkConn (conn_fault c) (conn_writes c) (written c).

Definition newConn (fault : nat → option error) : Conn := mkConn fault 0 [].

(** [WriteMessage], [WriteJSON] and [WriteControl]. *)
Definition WriteFrame (c : Conn) (f : Frame) : Conn * result unit :=
  let c' := c <| conn_writes ::= S |> in
  match conn_fault c (conn_writes c) with
  | Some e => (c', Err e)
  | None => (c' <| written ::= fun l => l ++ [f] |>, Ok tt)
  end.

(** ** Writers *)

(** [clock n] is the [n]-th reading of the writer's clock. *)
Record websocketWriter := mkWebsocketWriter {
  conn : Conn;
  clock : nat → Z;
  readings : nat;
  protocolV1 : option AgentStream;
}.

#[global] Instance websocketWriter_eta : Eta websocketWriter := fun w =>
  mkWebsocketWriter (conn w) (clock w) (readings w) (protocolV1 w).

Definition newWriter (fault : nat → option error) (clock : nat → Z) : websocketWriter :=
  mkWebsocketWriter (newConn fault) clock 0 None.

Definition currentTime (w : websocketWriter) : websocketWriter * Z :=
  (w <| readings ::= S |>, clock w (readings w)).

Definition writeFrame (w : websocketWriter) (f : Frame) : websocketWriter * result unit :=
  let '(c, r) := WriteFrame (conn w) f in (w <| conn := c |>, r).

Definition errNoStream := ErrorString "runtime error: invalid memory address or nil pointer dereference".

(** A method of the stream, on a writer that has one. *)
Definition onStream {A} (w : websocketWriter) (f : AgentStream → AgentStream * result A)
    : websocketWriter * result A :=
  match protocolV1 w with
  | None => (w, Err errNoStream)
  | Some s => let '(s, r) := f s in (w <| protocolV1 := Some s |>, r)
  end.

(** [encoded, err := stream.Encode(..., w.currentTime()); ... WriteMessage(encoded)]. *)
Definition sendEncoded (w : websocketWriter) (encode : AgentStream → Z → AgentStream * result bytes)
    : websocketWriter * result unit :=
  let '(w, t) := currentTime w in
  match onStream w (fun s => encode s t) with
  | (w, Err e) => (w, Err e)
  | (w, Ok encoded) => writeFrame w (BinaryMessage encoded)
  end.

Definition usesProtocolV1 (w : websocketWriter) : bool := bool_decide (is_Some (protocolV1 w)).
Definition usesStream (w : websocketWriter) (f : AgentStream → bool) : bool := from_option f false (protocolV1 w).
Definition usesSessionResume (w : websocketWriter) : bool := usesStream w UsesSessionResume.
Definition usesControlHealth (w : websocketWriter) : bool := usesStream w UsesControlHealth.
Definition usesTerminalResizeEnd (w : websocketWriter) : bool := usesStream w UsesTerminalResizeEnd.

Definition enableProtocolV1 (w : websocketWriter) (s : AgentStream) : websocketWriter := w <| protocolV1 := Some s |>.

Definition highestProtocolV1OutboundSequence (w : websocketWriter) : Z :=
  match protocolV1 w with None => 0 | Some s => HighestOutboundSequence s end.

Definition writeJSON (w : websocketWriter) (type data : string) : websocketWriter * result unit :=
  writeFrame w (JSONMessage type data).

Definition stableErrorMessage (code : ErrorCode) : result string :=
  match code with
  | ERROR_CODE_SESSION_START_FAILED => Ok "could not start terminal session"%string
  | ERROR_CODE_SESSION_ALREADY_ACTIVE => Ok "session already active"%string
  | ERROR_CODE_TERMINAL_INPUT_FAILED => Ok "could not write terminal input"%string
  | ERROR_CODE_TERMINAL_RESIZE_FAILED => Ok "could not resize terminal"%string
  | ERROR_CODE_UNSUPPORTED_MESSAGE => Ok "unsupported message type"%string
  | ERROR_CODE_ATTACHMENT_TRANSFER_FAILED => Ok "attachment transfer failed"%string
  | ERROR_CODE_ATTACHMENT_PROMPT_ACTION_FAILED => Ok "attachment prompt action failed"%string
  | _ => Err (ErrorString "stable error code is invalid")
  end.

Definition writePing (w : websocketWriter) : websocketWriter * result unit := writeFrame w PingMessage.

(** [writeProtocolClose] and [writeClose]; the error of the write is dropped. *)
Definition closeProtocol (w : websocketWriter) (message : string) : websocketWriter :=
  (writeFrame w (CloseMessage CloseProtocolError message)).1.
Definition writeClose (w : websocketWriter) : websocketWriter :=
  (writeFrame w (CloseMessage CloseNormalClosure "session ended")).1.

(** [ReadMessage]: whether the message is binary, and its bytes. *)
Abbreviation ReadMessage := (result (bool * bytes)).

Section Writer.
Context {codec : ProtoCodec}.

Definition writeError (w : websocketWriter) (code : ErrorCode) : websocketWriter * result unit :=
  if usesStream w UsesControlError then sendEncoded w (fun s t => EncodeError s code t)
  else match stableErrorMessage code with
  | Err e => (w, Err e)
  | Ok message => writeFrame w (JSONMessage "error" message)
  end.

Definition writeProcessExit (w : websocketWriter) (outcome : ProcessExitOutcome) (legacyMessage : string)
    : websocketWriter * result unit :=
  if usesStream w UsesSessionProcessExit then sendEncoded w (fun s t => EncodeProcessExit s outcome t)
  else writeFrame w (JSONMessage "exit" legacyMessage).

(** The loop of [writeBinary]; a chunk consumes at least one byte, so the length of
    the value is enough fuel. *)
Fixpoint writeChunks (fuel : nat) (w : websocketWriter) (value : bytes) : websocketWriter * result unit :=
  match fuel, value with
  | _, [] => (w, Ok tt)
  | O, _ => (w, Err errNoStream)
  | S fuel', _ =>
      let '(w, t) := currentTime w in
      match onStream w (fun s => EncodeTerminalOutputChunk s value t) with
      | (w, Err e) => (w, Err e)
      | (w, Ok (encoded, consumed)) =>
          match writeFrame w (BinaryMessage encoded) with
          | (w, Err e) => (w, Err e)
          | (w, Ok _) => writeChunks fuel' w (drop (Z.to_nat consumed) value)
          end
      end
  end.

Definition writeBinary (w : websocketWriter) (value : bytes) : websocketWriter * result unit :=
  if usesProtocolV1 w then writeChunks (length value) w value else writeFrame w (BinaryMessage value).

Definition decodeProtocolV1ClientMessage (w : websocketWriter) (encoded : bytes)
    : websocketWriter * result ClientStreamMessage :=
  onStream w (fun s => DecodeClientMessage s encoded).

Definition commitClient (w : websocketWriter) (message : ClientStreamMessage) : websocketWriter * result unit :=
  onStream w (fun s => CommitClientMessage s message).

Definition commitProtocolV1Attach (w : websocketWriter) (message : ClientStreamMessage) (sessionID : bytes)
    (generation : Z) (disposition : ResumeDisposition) : websocketWriter * result unit :=
  match commitClient w message with
  | (w, Err e) => (w, Err e)
  | (w, Ok _) =>
      match onStream w (fun s => BindSession s sessionID generation) with
      | (w, Err e) => (w, Err e)
      | (w, Ok _) => sendEncoded w (fun s t => EncodeSessionStatus s disposition t)
      end
  end.

Definition transferDisposition (d : TransferDisposition) : AttachmentTransferDisposition :=
  match d with
  | TransferDispositionUnknown => ATTACHMENT_TRANSFER_DISPOSITION_UNKNOWN
  | TransferDispositionActive => ATTACHMENT_TRANSFER_DISPOSITION_ACTIVE
  | TransferDispositionCompleted => ATTACHMENT_TRANSFER_DISPOSITION_COMPLETED
  | TransferDispositionCancelled => ATTACHMENT_TRANSFER_DISPOSITION_CANCELLED
  end.

Definition respondProtocolV1AttachmentTransferStatus (w : websocketWriter) (message : ClientStreamMessage)
    (outcome : TransferOutcome) : websocketWriter * result unit :=
  match commitClient w message with
  | (w, Err e) => (w, Err e)
  | (w, Ok _) =>
      sendEncoded w (fun s t => EncodeAttachmentTransferStatus s (Msg_TransferID message)
                                  (transferDisposition (Disposition outcome)) (NextOffsetBytes outcome) t)
  end.

Definition respondProtocolV1AttachmentPromptPrepare (w : websocketWriter) (message : ClientStreamMessage)
    (r : PrepareResult) : websocketWriter * result unit :=
  match commitClient w message with
  | (w, Err e) => (w, Err e)
  | (w, Ok _) =>
      match Prepare_State r with
      | StatePrepared =>
          sendEncoded w (fun s t => EncodeAttachmentPromptPreview s (Msg_ActionID message)
            ATTACHMENT_PROMPT_DISPOSITION_PREPARED (Prepare_Preview r) (Msg_AppendEnter message) t)
      | StateCommitted =>
          sendEncoded w (fun s t => EncodeAttachmentPromptPreview s (Msg_ActionID message)
            ATTACHMENT_PROMPT_DISPOSITION_COMMITTED (Prepare_Preview r) false t)
      | _ => (w, Err (ErrorString "prompt action prepare result is invalid"))
      end
  end.

Definition respondProtocolV1Ping (w : websocketWriter) (message : ClientStreamMessage) : websocketWriter * result unit :=
  match commitClient w message with
  | (w, Err e) => (w, Err e)
  | (w, Ok _) => sendEncoded w EncodePong
  end.

Definition commitProtocolV1ClientMessage (w : websocketWriter) (message : ClientStreamMessage)
    (sendAcknowledgement : bool) : websocketWriter * result unit :=
  match commitClient w message with
  | (w, Err e) => (w, Err e)
  | (w, Ok _) => if negb sendAcknowledgement then (w, Ok tt) else sendEncoded w EncodeAcknowledgement
  end.

(** ** The Hello exchange *)

Definition requiredCapabilities : list string :=
  [CapabilityTerminalBinaryOutput; CapabilityTerminalSequencedIO; CapabilityTerminalResizeEnd;
   CapabilitySessionProcessExit; CapabilitySessionResume; CapabilityControlError; CapabilityControlHealth].

Definition errRequiredCapability := ErrorString "client does not support required capability %q".

Definition requireCurrentClientCapabilities (negotiated : NegotiatedHello) : result unit :=
  reject_if (negb (forallb (HasCapability negotiated) requiredCapabilities)) errRequiredCapability.

(** [negotiateProtocolV1]; [identity] is what [agentHelloIdentity] returns, [deadline]
    the outcome of the last [SetReadDeadline]. *)
Definition negotiateProtocolV1 (disableLegacy : bool) (identity : result (option AgentIdentity))
    (w : websocketWriter) (read : ReadMessage) (now : Z) (deadline : result unit) : websocketWriter * result unit :=
  match read with
  | Err e => (w, Err (ErrorWrap "read client Hello" e))
  | Ok (binary, encoded) =>
      if negb binary then (w, Err (ErrorString "client Hello must use a binary WebSocket message"))
      else
        let response :=
          negotiated ← AcceptClientHello encoded;
          _ ← (if disableLegacy then requireCurrentClientCapabilities negotiated
               else reject_if (negb (HasCapability negotiated CapabilityTerminalBinaryOutput)) errRequiredCapability);
          identity ← identity;
          response ← NewAgentHello (ConnectionID negotiated) (Negotiated_Major negotiated)
                       (Negotiated_Minor negotiated) now identity;
          match proto_Marshal response with
          | None => Err (ErrorString "encode Agent Hello")
          | Some responseBytes =>
              _ ← reject_if (len responseBytes >? PeerMaxEnvelopeBytes negotiated)
                    (ErrorString "Agent Hello exceeds the client envelope limit");
              Ok (negotiated, responseBytes)
          end in
        match response with
        | Err e => (w, Err e)
        | Ok (negotiated, responseBytes) =>
            match writeBinary w responseBytes with
            | (w, Err e) => (w, Err (ErrorWrap "write Agent Hello" e))
            | (w, Ok _) =>
                if HasCapability negotiated CapabilityTerminalSequencedIO then
                  match NewAgentStream negotiated with
                  | Err e => (w, Err (ErrorWrap "initialize Protocol V1 stream" e))
                  | Ok stream => (enableProtocolV1 w stream, deadline)
                  end
                else (w, deadline)
            end
        end
  end.

Definition readProtocolV1Attach (w : websocketWriter) (read : ReadMessage) (deadline : result unit)
    : websocketWriter * result ClientStreamMessage :=
  match read with
  | Err e => (w, Err (ErrorWrap "read AttachSession" e))
  | Ok (binary, encoded) =>
      if negb binary then (w, Err (ErrorString "AttachSession must use a binary WebSocket message"))
      else match decodeProtocolV1ClientMessage w encoded with
      | (w, Err e) => (w, Err e)
      | (w, Ok message) =>
          if negb (bool_decide (Msg_Kind message = ClientStreamMessageAttachSession)) then
            (w, Err (ErrorString "first stream message must contain AttachSession"))
          else match deadline with
               | Err e => (w, Err e)
               | Ok _ => (w, Ok message)
               end
      end
  end.
End Writer.

(** * Facts about writers

    Terminal output of any length crosses a connection in order: in the ordered
    stream it is cut into envelopes with consecutive sequence numbers whose payloads
    concatenate to it. *)

Section Facts.
Context {codec : ProtoCodec}.
Implicit Types (w : websocketWriter) (s : AgentStream).

(** ** One write *)

Lemma writeFrame_spec w f w' r :
  writeFrame w f = (w', r) →
  protocolV1 w' = protocolV1 w ∧ clock w' = clock w ∧ readings w' = readings w ∧
  conn_fault (conn w') = conn_fault (conn w) ∧
  match r with
  | Ok _ => written (conn w') = written (conn w) ++ [f]
  | Err _ => written (conn w') = written (conn w)
  end.
Proof. unfold writeFrame, WriteFrame. intros. go_cases; by split_and!. Qed.

(** A frame that carries a piece of output as the next envelope of the stream. *)
Definition output_frame s (b chunk : bytes) : Prop :=
  chunk ≠ [] ∧ ∃ t, marshalLocked s (outboundEnvelope s (Payload_TerminalOutput chunk) t) = Ok b.

(** Frames that carry pieces of output under consecutive sequence numbers. *)
Inductive sends_output : AgentStream → list bytes → list bytes → AgentStream → Prop :=
  | sends_nil s : sends_output s [] [] s
  | sends_cons s b chunk frames chunks s' :
      output_frame s b chunk → sends_output (bump s) frames chunks s' →
      sends_output s (b :: frames) (chunk :: chunks) s'.

Lemma sends_app s1 f1 c1 s2 f2 c2 s3 :
  sends_output s1 f1 c1 s2 → sends_output s2 f2 c2 s3 → sends_output s1 (f1 ++ f2) (c1 ++ c2) s3.
Proof. induction 1; intros; simpl; [done|]. constructor; auto. Qed.

(** Sending keeps everything of the stream but the next sequence number. *)
Definition same_binding s s' : Prop :=
  sessionBound s' = sessionBound s ∧ sessionResume s' = sessionResume s ∧ nextInbound s' = nextInbound s ∧
  highestInbound s' = highestInbound s ∧ sessionID s' = sessionID s ∧ sessionGeneration s' = sessionGeneration s.

Lemma sends_binding s f c s' : sends_output s f c s' → same_binding s s'.
Proof. induction 1 as [s|s b chunk frames chunks s' _ _ IH]; [done|]. done. Qed.

Lemma EncodeTerminalOutputChunk_Ok s value t s' b k :
  EncodeTerminalOutputChunk s value t = (s', Ok (b, k)) →
  1 <= k <= len value ∧ output_frame s b (take (Z.to_nat k) value) ∧ s' = bump s.
Proof.
  unfold EncodeTerminalOutputChunk. destruct (len value =? 0) eqn:Hlen; [done|].
  destruct (unbound s); [done|].
  destruct (chunkSearch _ _ _ _ _ _ _) as [[b' k']|] eqn:Hs; [|done]. intros [= <- <- <-].
  apply chunkSearch_marshals in Hs as [?|(k & Hk & <- & Hm)]; [done|]. simpl in *.
  split; [done|]. split; [|done]. split; [|eauto].
  intros Hnil. apply (f_equal len) in Hnil. rewrite len_take in Hnil. unfold len in *. simpl in Hnil. lia.
Qed.

Lemma EncodeTerminalOutputChunk_Err s value t s' e :
  EncodeTerminalOutputChunk s value t = (s', Err e) → s' = s.
Proof. unfold EncodeTerminalOutputChunk. intros. by go_cases. Qed.

(** ** A value *)

(** What [writeBinary] does on the ordered stream: the frames it wrote carry a
    prefix of the value, all of it when it succeeds; at most one more envelope was
    encoded, whose write failed. *)
Record wrote w s (value : bytes) (r : result unit) w' : Prop := {
  wrote_frames : ∃ frames chunks s1,
    sends_output s frames chunks s1 ∧ concat chunks `prefix_of` value ∧
    written (conn w') = written (conn w) ++ map BinaryMessage frames ∧
    match r with
    | Ok _ => protocolV1 w' = Some s1 ∧ concat chunks = value
    | Err _ => protocolV1 w' = Some s1 ∨ protocolV1 w' = Some (bump s1)
    end;
  wrote_fault : conn_fault (conn w') = conn_fault (conn w);
}.

Lemma writeChunks_spec fuel w s value w' r :
  (length value <= fuel)%nat → protocolV1 w = Some s → writeChunks fuel w value = (w', r) → wrote w s value r w'.
Proof.
  revert w s value. induction fuel as [|fuel IH]; intros w s value Hf Hp Hrun.
  - destruct value; [|simpl in Hf; lia]. simpl in Hrun. simplify_eq.
    split; [|done]. exists [], [], s. rewrite app_nil_r. split_and!; [constructor|done|done|done|done].
  - destruct value as [|x value].
    { simpl in Hrun. simplify_eq. split; [|done]. exists [], [], s. rewrite app_nil_r.
      split_and!; [constructor|done|done|done|done]. }
    cbn [writeChunks currentTime] in Hrun. unfold onStream in Hrun. simpl protocolV1 in Hrun. rewrite Hp in Hrun.
    destruct (EncodeTerminalOutputChunk s (x :: value) _) as [s2 [[b k]|e]] eqn:He.
    + apply EncodeTerminalOutputChunk_Ok in He as (Hk & Hframe & ->).
      destruct (writeFrame _ _) as [w2 [u|e]] eqn:Hw.
      * apply writeFrame_spec in Hw as (Hp2 & _ & _ & Hfault & Hwr). simpl in *.
        apply (IH _ (bump s)) in Hrun as [(frames & chunks & s3 & Hs & Hpre & Hwr' & Hres) Hfault'];
          [|rewrite length_drop; simpl; unfold len in Hk; simpl in Hk; lia|done].
        split; [|congruence].
        exists (b :: frames), (take (Z.to_nat k) (x :: value) :: chunks), s3. split_and!.
        -- by constructor.
        -- cbn [concat]. rewrite <- (take_drop (Z.to_nat k) (x :: value)) at 2. by apply prefix_app.
        -- rewrite Hwr', Hwr, <- app_assoc. done.
        -- destruct r; [|done]. destruct Hres as [-> Hc]. split; [done|]. cbn [concat]. rewrite Hc. apply take_drop.
      * apply writeFrame_spec in Hw as (Hp2 & _ & _ & Hfault & Hwr). simplify_eq/=. split; [|done].
        exists [], [], s. rewrite app_nil_r. split_and!; [constructor|apply prefix_nil|done|by right].
    + apply EncodeTerminalOutputChunk_Err in He as ->. simplify_eq. split; [|done].
      exists [], [], s. rewrite app_nil_r. split_and!; [constructor|apply prefix_nil|done|by left].
Qed.

Lemma writeBinary_stream w s value w' r :
  protocolV1 w = Some s → writeBinary w value = (w', r) → wrote w s value r w'.
Proof.
  intros Hp. unfold writeBinary, usesProtocolV1. rewrite bool_decide_eq_true_2 by eauto.
  by apply writeChunks_spec.
Qed.

Lemma writeBinary_raw w value w' r :
  protocolV1 w = None → writeBinary w value = (w', r) → writeFrame w (BinaryMessage value) = (w', r).
Proof.
  intros Hp. unfold writeBinary, usesProtocolV1. rewrite bool_decide_eq_false_2; [done|].
  rewrite Hp. by intros [? ?].
Qed.

(** An answer is encoded and written, or nothing is written. *)
Lemma sendEncoded_spec w s encode w' r :
  protocolV1 w = Some s → sendEncoded w encode = (w', r) →
  ∃ t s' res, encode s t = (s', res) ∧ protocolV1 w' = Some s' ∧
    match r with
    | Ok _ => ∃ b, res = Ok b ∧ written (conn w') = written (conn w) ++ [BinaryMessage b]
    | Err _ => written (conn w') = written (conn w)
    end.
Proof.
  intros Hp. unfold sendEncoded, currentTime, onStream. simpl. rewrite Hp.
  destruct (encode s (clock w (readings w))) as [s' [b|e]] eqn:He.
  - destruct (writeFrame _ _) as [w2 r2] eqn:Hw. intros [= <- <-].
    apply writeFrame_spec in Hw as (Hp2 & _ & _ & _ & Hwr). simpl in *.
    exists (clock w (readings w)), s', (Ok b). split_and!; [done|done|]. destruct r2; eauto.
  - intros [= <- <-]. by exists (clock w (readings w)), s', (Err e).
Qed.

(** ** Delivery *)

(** The negotiated limit leaves room for one byte of output in any envelope. *)
Definition carries_bytes s : Prop :=
  ∀ n x t, is_ok (marshalLocked s (outboundEnvelope (s <| nextOutbound := n |>) (Payload_TerminalOutput [x]) t)) = true.

Lemma carries_bump s : carries_bytes s → carries_bytes (bump s).
Proof. intros Hc n x t. exact (Hc n x t). Qed.

(** The bisection finds a prefix when one byte fits. *)
Lemma chunkSearch_finds fuel s value t high best :
  is_ok (marshalLocked s (outboundEnvelope s (Payload_TerminalOutput (take 1 value)) t)) = true →
  (Z.to_nat high <= fuel)%nat → 1 <= high → chunkSearch fuel s value t 1 high best ≠ None.
Proof.
  intros H1. assert (∀ fuel low high b, chunkSearch fuel s value t low high (Some b) ≠ None) as Hsome.
  { induction fuel0 as [|fuel0 IH]; intros low high0 b; simpl; [done|].
    destruct (low <=? high0); [|done]. by case_match. }
  revert high best. induction fuel as [|fuel IH]; intros high best Hfuel Hhigh; [lia|]. cbn [chunkSearch].
  replace (1 <=? high) with true by lia. set (middle := 1 + (high - 1) `quot` 2).
  assert (1 <= middle <= high ∧ (1 < middle → middle <= high) ∧ (middle = 1 ∨ 2 <= middle)) as (Hm & _ & Hcase).
  { unfold middle. rewrite Z.quot_div_nonneg by lia.
    pose proof (Z.div_pos (high - 1) 2). pose proof (Z.div_le_upper_bound (high - 1) 2 (high - 1)). lia. }
  destruct (marshalLocked s (outboundEnvelope s (Payload_TerminalOutput (take (Z.to_nat middle) value)) t)) eqn:Hmar.
  - apply Hsome.
  - destruct Hcase as [Heq|Hge]; [|apply IH; lia].
    rewrite Heq in Hmar. change (Z.to_nat 1) with 1%nat in Hmar. by rewrite Hmar in H1.
Qed.

Lemma EncodeTerminalOutputChunk_carries s x value t :
  unbound s = false → carries_bytes s →
  ∃ b k, EncodeTerminalOutputChunk s (x :: value) t = (bump s, Ok (b, k)).
Proof.
  intros Hb Hc. unfold EncodeTerminalOutputChunk. replace (len (x :: value) =? 0) with false
    by (rewrite len_cons; pose proof (len_nonneg value); lia). rewrite Hb.
  destruct (chunkSearch _ _ _ _ _ _ _) as [[b k]|] eqn:Hs; [by eexists _, _|].
  exfalso. revert Hs. apply chunkSearch_finds; [|unfold len; lia|unfold len; simpl; lia].
  specialize (Hc (nextOutbound s) x t). by destruct s.
Qed.

(** C29: over a connection that does not fail and whose limit leaves room for one
    byte per envelope, [writeBinary] terminates with success on every value, in at
    most as many envelopes as the value has bytes: consecutive sequence numbers, in
    order, nothing left out. *)
Theorem output_is_delivered w s value :
  protocolV1 w = Some s → unbound s = false → (∀ n, conn_fault (conn w) n = None) → carries_bytes s →
  ∃ w' frames chunks s',
    writeBinary w value = (w', Ok tt) ∧ protocolV1 w' = Some s' ∧
    written (conn w') = written (conn w) ++ map BinaryMessage frames ∧
    sends_output s frames chunks s' ∧ concat chunks = value ∧ (length frames <= length value)%nat.
Proof.
  intros Hp Hb Hok Hc.
  assert (∀ fuel w s value, (length value <= fuel)%nat → protocolV1 w = Some s → unbound s = false →
    (∀ n, conn_fault (conn w) n = None) → carries_bytes s → ∃ w', writeChunks fuel w value = (w', Ok tt)) as Hterm.
  { clear. induction fuel as [|fuel IH]; intros w s [|x value] Hf Hp Hb Hok Hc; try (by eexists); [simpl in Hf; lia|].
    cbn [writeChunks currentTime]. unfold onStream. simpl protocolV1. rewrite Hp.
    destruct (EncodeTerminalOutputChunk_carries s x value (clock w (readings w)) Hb Hc) as (b & k & He).
    rewrite He. apply EncodeTerminalOutputChunk_Ok in He as (Hk & _ & _).
    unfold writeFrame, WriteFrame. simpl. rewrite Hok.
    apply (IH _ (bump s)); [|done|done|done|by apply carries_bump].
    rewrite length_drop. unfold len in Hk. cbn [length] in *. lia. }
  destruct (Hterm (length value) w s value ltac:(lia) Hp Hb Hok Hc) as [w' Hw'].
  assert (writeBinary w value = (w', Ok tt)) as Hrun.
  { unfold writeBinary, usesProtocolV1. by rewrite bool_decide_eq_true_2 by eauto. }
  destruct (writeBinary_stream w s value w' (Ok tt) Hp Hrun) as [(frames & chunks & s1 & Hs & _ & Hwr & Hp' & Hcat) _].
  exists w', frames, chunks, s1. split_and!; try done. rewrite <- Hcat. clear -Hs.
  induction Hs as [|s b chunk frames chunks s' [Hne _] _ IH]; [done|]. cbn [concat]. rewrite length_app.
  destruct chunk; [done|]. simpl. lia.
Qed.
End Facts.
