(* ===== verification/TerminalSession.v ===== *)
(** * Terminal sessions ([ptySession] of [internal/server/server.go])

    One pseudo-terminal, the client attached to it, the output kept while nobody is,
    its attachments and prompt actions, its timers and its end.  A method is a
    function on a [Scene]: the session, the writers of the connections (a session
    refers to its client by identity), the attachment tracker shared by sessions, and
    the disk.  The terminal's answers are part of it; every reading of the clock is
    an argument.  Methods hold the session's mutexes, so each is one step. *)

From S2P Require Import Prelude.
From S2P Require Import Envelope.
From S2P Require Import Negotiation.
From S2P Require Import Stream.
From S2P Require Import ReplayBuffer.
From S2P Require Import SessionLifecycle.
From S2P Require Import ContentPolicy.
From S2P Require Import Aggregate.
From S2P Require Import Transfer.
From S2P Require Import Path.
From S2P Require Import Workspace.
From S2P Require Import StagingSession.
From S2P Require Import ToolAdapter.
From S2P Require Import PromptAction.
From S2P Require Import AgentLog.
From S2P Require Import WebsocketWriter.

Definition Minutes : Z := 60 * 1000 * 1000 * 1000.
Definition maxBufferedOutputBytes : Z := 1024 * 1024.
Definition bufferedOutputMaxAge : Z := 2 * Minutes.

(** ** The terminal *)

(** [write_answer n] is what the [n]-th [Write] returns; [typed] is what the
    terminal has taken of its input. *)
Record terminal := mkTerminal {
  write_answer : nat → Z * option error;
  term_writes : nat;
  typed : bytes;
  resize_answer : nat → option error;
  sizes : list (Z * Z);
}.

#[global] Instance terminal_eta : Eta terminal := fun t =>
  mkTerminal (write_answer t) (term_writes t) (typed t) (resize_answer t) (sizes t).

Definition Terminal_Write (t : terminal) (input : bytes) : terminal * (Z * option error) :=
  let '(n, e) := write_answer t (term_writes t) in
  (t <| term_writes ::= S |> <| typed ::= fun l => l ++ take (Z.to_nat n) input |>, (n, e)).

Definition Terminal_Resize (t : terminal) (cols rows : Z) : terminal * result unit :=
  (t <| sizes ::= fun l => l ++ [(cols, rows)] |>,
   match resize_answer t (length (sizes t)) with Some e => Err e | None => Ok tt end).

(** ** The session *)

Record ptySession := mkPtySession {
  command : list string;
  term : terminal;
  cancelled_process : bool;
  exited : bool;
  client : option nat;
  replay : replayBuffer;
  protocolSessionID : bytes;
  generation : Z;
  resumeCheckpoint : bool;
  lastDetachedOutput : Z;
  lifecycle : sessionLifecycle;
  detachTimer : option Z;
  idleTimeout : Z;
  idleTimer : option Z;
  startedAt : Z;
  lastActivityAt : Z;
  resourcesClosed : bool;
  correlationID : string;
  logged : list Event;
  staging : option SessionStaging;
  session_workspaceRoot : string;
  workingDirectory : string;
  toolAdapter : Adapter;
  promptActions : PromptAction.Registry;
  attachmentManager : option Manager;
  attachmentsClosed : bool;
  endReason : string;
}.

#[global] Instance ptySession_eta : Eta ptySession := fun s =>
  mkPtySession (command s) (term s) (cancelled_process s) (exited s) (client s) (replay s)
    (protocolSessionID s) (generation s) (resumeCheckpoint s) (lastDetachedOutput s) (lifecycle s)
    (detachTimer s) (idleTimeout s) (idleTimer s) (startedAt s) (lastActivityAt s) (resourcesClosed s)
    (correlationID s) (logged s) (staging s) (session_workspaceRoot s) (workingDirectory s)
    (toolAdapter s) (promptActions s) (attachmentManager s) (attachmentsClosed s) (endReason s).

(** The state as the log names it. *)
Definition stateName (st : sessionState) : string :=
  match st with
  | sessionStateStarting => "starting"
  | sessionStateConnected => "connected"
  | sessionStateDetached => "detached"
  | sessionStateEnding => "ending"
  | sessionStateEnded => "ended"
  | sessionStateFailed => "failed"
  end.

Definition logEvent (s : ptySession) (name reason outcome : string) : ptySession :=
  s <| logged ::= fun l => l ++ [mkEvent name (correlationID s) (stateName (state (lifecycle s))) reason outcome] |>.

(** The session is ending or has ended. *)
Definition ending (s : ptySession) : bool :=
  bool_decide (state (lifecycle s) = sessionStateEnding) || SessionLifecycle.done (lifecycle s).

(** A timer is the time it will fire at; [AfterFunc] and [Reset] both set it. *)
Definition resetIdleTimerLocked (s : ptySession) (now : Z) : ptySession :=
  if (idleTimeout s <=? 0) || SessionLifecycle.done (lifecycle s) ||
     bool_decide (state (lifecycle s) = sessionStateEnding) then s
  else s <| idleTimer := Some (now + idleTimeout s) |>.

Definition resetIdleTimer (s : ptySession) (now : Z) : ptySession := resetIdleTimerLocked s now.

Definition touchActivity (s : ptySession) (now : Z) : ptySession := s <| lastActivityAt := now |>.

Definition stopTimers (s : ptySession) : ptySession := s <| detachTimer := None |> <| idleTimer := None |>.

Definition joinCommand (command : list string) : string := String.concat " " command.

(** [newPTYSession], when the launcher has started the process. *)
Definition newPTYSession (cmd : list string) (t : terminal) (idle now : Z) (stg : option SessionStaging)
    (correlation : string) : ptySession :=
  let s := {|
    command := cmd;
    term := t;
    cancelled_process := false;
    exited := false;
    client := None;
    replay := newReplayBuffer maxBufferedOutputBytes bufferedOutputMaxAge;
    protocolSessionID := [];
    generation := 0;
    resumeCheckpoint := false;
    lastDetachedOutput := 0;
    lifecycle := (started newSessionLifecycle).1;
    detachTimer := None;
    idleTimeout := idle;
    idleTimer := None;
    startedAt := now;
    lastActivityAt := now;
    resourcesClosed := false;
    correlationID := correlation;
    logged := [];
    staging := stg;
    session_workspaceRoot := EmptyString;
    workingDirectory := EmptyString;
    toolAdapter := mkAdapter EmptyString;
    promptActions := PromptAction.NewRegistry;
    attachmentManager := None;
    attachmentsClosed := false;
    endReason := EmptyString;
  |} in
  let s := logEvent s EventSessionStarted EmptyString EmptyString in
  let banner := ("started PTY shell: " ++ joinCommand cmd ++ String "013" (String "010" EmptyString))%string in
  resetIdleTimer (s <| replay ::= fun b => ReplayBuffer.append b now (Utf8.bytes_of_string banner) |>) now.

(** ** Attaching and detaching *)

Definition beginAttachLocked (s : ptySession) (id : nat) (now : Z) : ptySession * bool :=
  match client s with
  | Some _ => (s, false)
  | None =>
      match SessionLifecycle.attach (lifecycle s) with
      | (l, false) => (s <| lifecycle := l |>, false)
      | (l, true) =>
          let s := s <| lifecycle := l |> <| detachTimer := None |> <| client := Some id |>
                     <| lastActivityAt := now |> in
          (logEvent (resetIdleTimerLocked s now) EventSessionAttached EmptyString EmptyString, true)
      end
  end.

Definition resumeDispositionLocked (s : ptySession) (request : ClientStreamMessage)
    (created replayComplete : bool) : ResumeDisposition :=
  let fresh := (len (Msg_SessionID request) =? 0) && (Msg_SessionGeneration request =? 0) &&
               (Msg_LastAcknowledgedSequence request =? 0) in
  if created && fresh then RESUME_DISPOSITION_FRESH
  else
    let identityMatches := bool_decide (Msg_SessionID request = protocolSessionID s) &&
                           (Msg_SessionGeneration request =? generation s) in
    if negb created && identityMatches && resumeCheckpoint s && replayComplete &&
       (Msg_LastAcknowledgedSequence request =? lastDetachedOutput s) then RESUME_DISPOSITION_RESUMED
    else RESUME_DISPOSITION_RESYNC_REQUIRED.

(** [detach]; the last result says that a goroutine now ends the session. *)
Definition detachSession (s : ptySession) (id : nat) (w : websocketWriter) (timeout now : Z) : ptySession * bool :=
  if negb (bool_decide (client s = Some id)) then (s, false)
  else
    let s := s <| client := None |> in
    let s := if usesSessionResume w
             then s <| resumeCheckpoint := true |> <| lastDetachedOutput := highestProtocolV1OutboundSequence w |>
             else s <| resumeCheckpoint := false |> <| lastDetachedOutput := 0 |> in
    match SessionLifecycle.detach (lifecycle s) with
    | (l, false) => (s <| lifecycle := l |>, false)
    | (l, true) =>
        let s := logEvent (s <| lifecycle := l |>) EventSessionDetached EmptyString EmptyString in
        if timeout <=? 0 then (s, true) else (s <| detachTimer := Some (now + timeout) |>, false)
    end.

Definition isEnded (s : ptySession) : bool := SessionLifecycle.done (lifecycle s).

(** ** Input *)

Definition io_ErrShortWrite := ErrorString "short write".

(** The loop of [writeInputBytes]; every write that goes on takes at least a byte. *)
Fixpoint writeInputLoop (fuel : nat) (t : terminal) (input : bytes) : terminal * result unit :=
  match fuel, input with
  | _, [] => (t, Ok tt)
  | O, _ => (t, Err io_ErrShortWrite)
  | S fuel', _ =>
      match Terminal_Write t input with
      | (t, (_, Some e)) => (t, Err e)
      | (t, (written, None)) =>
          if (written <=? 0) || (written >? len input) then (t, Err io_ErrShortWrite)
          else writeInputLoop fuel' t (drop (Z.to_nat written) input)
      end
  end.

Definition writeInputBytes (s : ptySession) (now : Z) (input : bytes) : ptySession * result unit :=
  match writeInputLoop (length input) (term s) input with
  | (t, Err e) => (s <| term := t |>, Err e)
  | (t, Ok _) => (resetIdleTimer (touchActivity (s <| term := t |>) now) now, Ok tt)
  end.

Definition writeInput (s : ptySession) (now : Z) (input : string) : ptySession * result unit :=
  writeInputBytes s now (Utf8.bytes_of_string input).

Definition resize (s : ptySession) (now cols rows : Z) : ptySession * result unit :=
  match Terminal_Resize (term s) cols rows with
  | (t, Err e) => (s <| term := t |>, Err e)
  | (t, Ok _) => (resetIdleTimer (touchActivity (s <| term := t |>) now) now, Ok tt)
  end.

(** ** The end *)

Definition closeAttachmentCreationLocked (s : ptySession) : ptySession := s <| attachmentsClosed := true |>.

(** [closeResources]: once, the process tree and the terminal are closed. *)
Definition closeResources (s : ptySession) : ptySession := s <| resourcesClosed := true |>.

Definition terminateWithReason (s : ptySession) (reason : string) : ptySession :=
  match beginEnding (lifecycle s) with
  | (l, false) => s <| lifecycle := l |>
  | (l, true) =>
      let s := stopTimers (s <| lifecycle := l |>) in
      let s := closeAttachmentCreationLocked (s <| endReason := reason |>) in
      let s := logEvent s EventSessionEnding reason EmptyString in
      closeResources (s <| cancelled_process := true |>)
  end.

(** ** Prompt actions *)

Definition errPromptsClosed := ErrorString "attachment prompt actions are closed for this session".

Definition commitAttachmentPrompt (s : ptySession) (now : Z) (actionID : bytes) : ptySession * result unit :=
  if ending s then (s, Err errPromptsClosed)
  else
    let '(r, s, res) := PromptAction.Commit (promptActions s) s actionID
                          (Some (fun s input => writeInputBytes s now input)) in
    (s <| promptActions := r |>, res).

Definition cancelAttachmentPrompt (s : ptySession) (actionID : bytes) : ptySession * result unit :=
  if ending s then (s, Err errPromptsClosed)
  else
    let '(r, res) := PromptAction.Cancel (promptActions s) actionID in
    (s <| promptActions := r |>, res).

(** The loop of [prepareAttachmentPrompt] over the completed attachments. *)
Fixpoint attachmentReferences (root directory : string) (completed : list CompletedAttachment)
    : result (list string) :=
  match completed with
  | [] => Ok []
  | c :: completed =>
      if negb (IsLocal (RelativePath c)) then Err (ErrorString "completed attachment path is invalid")
      else match Rel directory (Join [root; RelativePath c]) with
      | Err e => Err (ErrorWrap "derive attachment prompt reference" e)
      | Ok relativePath =>
          rest ← attachmentReferences root directory completed; Ok (relativePath :: rest)
      end
  end.

(** ** The scene *)

Section Scene.
Context {codec : ProtoCodec} {D : Type} {ops : StagingOps D} {fs : FileSystem D} {gm : GoMime}.

Record Scene := mkScene {
  sess : ptySession;
  writers : gmap nat websocketWriter;
  aggregate : option AggregateTracker;
  disk : D;
}.

#[local] Instance Scene_eta : Eta Scene := fun h => mkScene (sess h) (writers h) (aggregate h) (disk h).

(** A method of a connection's writer. *)
Definition onWriter {A} (h : Scene) (id : nat) (f : websocketWriter → websocketWriter * result A)
    : Scene * result A :=
  match writers h !! id with
  | None => (h, Err errNoStream)
  | Some w => let '(w, r) := f w in (h <| writers ::= insert id w |>, r)
  end.

Fixpoint writeBuffered (w : websocketWriter) (buffered : list bytes) : websocketWriter * result unit :=
  match buffered with
  | [] => (w, Ok tt)
  | chunk :: buffered =>
      match writeBinary w chunk with
      | (w, Err e) => (w, Err e)
      | (w, Ok _) => writeBuffered w buffered
      end
  end.

Definition attach (h : Scene) (id : nat) (now : Z) : Scene * bool :=
  let '(s, ok) := beginAttachLocked (sess h) id now in
  if negb ok then (h <| sess := s |>, false)
  else
    let '(b, buffered) := drain (replay s) now in
    match onWriter (h <| sess := s <| replay := b |> |>) id (fun w => writeBuffered w buffered) with
    | (h, Err _) => (h, false)
    | (h, Ok _) => (h, true)
    end.

Definition attachProtocolV1 (h : Scene) (id : nat) (request : ClientStreamMessage) (created : bool) (now : Z)
    : Scene * (bool * result unit) :=
  let '(s, ok) := beginAttachLocked (sess h) id now in
  if negb ok then (h <| sess := s |>, (false, Ok tt))
  else
    let '(b, (buffered, replayComplete)) := drainWithStatus (replay s) now in
    let disposition := resumeDispositionLocked s request created replayComplete in
    let h := h <| sess := s <| replay := b |> |> in
    match onWriter h id (fun w => commitProtocolV1Attach w request (protocolSessionID s) (generation s) disposition) with
    | (h, Err e) => (h, (true, Err e))
    | (h, Ok _) =>
        let '(h, r) := onWriter h id (fun w => writeBuffered w buffered) in (h, (true, r))
    end.

Definition detach (h : Scene) (id : nat) (timeout now : Z) : Scene * bool :=
  match writers h !! id with
  | None => (h, false)
  | Some w => let '(s, spawned) := detachSession (sess h) id w timeout now in (h <| sess := s |>, spawned)
  end.

(** *** Output *)

Definition deliverOutput (h : Scene) (chunk : bytes) (now : Z) : Scene :=
  if negb (acceptsOutput (lifecycle (sess h))) then h
  else
    let h := h <| sess ::= fun s => s <| lastActivityAt := now |> |> in
    match client (sess h) with
    | None => h <| sess ::= fun s => s <| replay ::= fun b => ReplayBuffer.append b now chunk |> |>
    | Some id => (onWriter h id (fun w => writeBinary w chunk)).1
    end.

(** [streamOutput]: the reads of the terminal until one fails; each is the bytes
    read, whether it failed, and the time of delivery. *)
Fixpoint streamOutput (h : Scene) (reads : list (bytes * bool * Z)) : Scene :=
  match reads with
  | [] => h
  | (chunk, failed, now) :: reads =>
      let h := if 0 <? len chunk then deliverOutput h chunk now else h in
      if failed : bool then h else streamOutput h reads
  end.

Definition idleMessage : bytes :=
  Utf8.bytes_of_string ("idle timeout reached; ending session" ++ String "013" (String "010" EmptyString)).

Definition expireIdle (h : Scene) (now : Z) : Scene :=
  (deliverOutput h idleMessage now) <| sess ::= fun s => terminateWithReason s ReasonIdleTimeout |>.

(** *** Attachments *)

Definition errTransfersClosed := ErrorString "attachment transfers are closed for this session".

(** The manager works on the session's staging, the shared tracker and the disk. *)
Definition onManager {A} (h : Scene) (f : World → World * result A) : Scene * result A :=
  match attachmentManager (sess h), staging (sess h) with
  | Some m, Some st =>
      let '(w, r) := f (mkWorld m st (aggregate h) (disk h)) in
      (h <| sess ::= fun s => s <| attachmentManager := Some (mgr w) |> <| staging := Some (stg w) |> |>
         <| aggregate := agg w |> <| disk := dir w |>, r)
  | _, _ => (h, Err errNoStream)
  end.

Definition transferManager (h : Scene) (rand : nat → result bytes) : Scene * result unit :=
  let s := sess h in
  if ending s || attachmentsClosed s then (h, Err errTransfersClosed)
  else match attachmentManager s with
  | Some _ => (h, Ok tt)
  | None =>
      match staging s with
      | None => (h, Err (ErrorString "attachment transfers are not available for this session"))
      | Some st =>
          match NewManagerWithAggregate (disk h) st (aggregate h) rand with
          | (d, st, a, Err e) =>
              (h <| sess := s <| staging := Some st |> |> <| aggregate := a |> <| disk := d |>,
               Err (ErrorWrap "initialize attachment transfers" e))
          | (d, st, a, Ok w) =>
              (h <| sess := s <| staging := Some (stg w) |> <| attachmentManager := Some (mgr w) |> |>
                 <| aggregate := agg w |> <| disk := dir w |>, Ok tt)
          end
      end
  end.

(** The switch of [applyAttachmentMessage]. *)
Definition attachmentOperation (message : ClientStreamMessage) (rand : nat → result bytes)
    : option (World → World * result unit) :=
  match Msg_Kind message with
  | ClientStreamMessageAttachmentBegin =>
      Some (fun w => Begin w (mkBeginRequest (Msg_TransferID message) (Msg_DisplayName message)
              (Msg_DeclaredContentType message) (Msg_DeclaredExtension message)
              (Msg_TotalSizeBytes message) (Msg_TotalSHA256 message)) rand)
  | ClientStreamMessageAttachmentChunk =>
      Some (fun w => Chunk w (mkChunkRequest (Msg_TransferID message) (Msg_OffsetBytes message)
              (Msg_Data message) (Msg_ChunkSHA256 message)))
  | ClientStreamMessageAttachmentComplete =>
      Some (fun w => let '(w, r) := Complete w (Msg_TransferID message) in (w, _ ← r; Ok tt))
  | ClientStreamMessageAttachmentCancel => Some (fun w => Transfer.Cancel w (Msg_TransferID message))
  | ClientStreamMessageAttachmentDiscard => Some (fun w => Discard w (Msg_TransferIDs message))
  | _ => None
  end.

(** [errors.Join] with an error that is there. *)
Definition joinWith (e : error) (r : result unit) : error :=
  match r with Ok _ => e | Err e' => ErrorJoin e e' end.

Definition applyAttachmentMessage (h : Scene) (message : ClientStreamMessage) (randNew rand : nat → result bytes)
    : Scene * result unit :=
  match transferManager h randNew with
  | (h, Err e) => (h, Err e)
  | (h, Ok _) =>
      match attachmentOperation message rand with
      | None => (h, Err (ErrorString "message is not an attachment transfer"))
      | Some operation =>
          match onManager h operation with
          | (h, Ok _) => (h, Ok tt)
          | (h, Err e) =>
              if bool_decide (Msg_Kind message = ClientStreamMessageAttachmentDiscard) then (h, Err e)
              else
                let '(h, r) := onManager h (fun w => Transfer.Cancel w (Msg_TransferID message)) in
                (h, Err (joinWith e r))
          end
      end
  end.

Definition attachmentOutcome (h : Scene) (transferID : bytes) : result TransferOutcome :=
  let s := sess h in
  if ending s || attachmentsClosed s then Err errTransfersClosed
  else match attachmentManager s, staging s with
  | Some m, Some st => Outcome (mkWorld m st (aggregate h) (disk h)) transferID
  | _, _ => Ok (mkTransferOutcome TransferDispositionUnknown 0)
  end.

Definition prepareAttachmentPrompt (h : Scene) (message : ClientStreamMessage) (randNew : nat → result bytes)
    : Scene * result PrepareResult :=
  match transferManager h randNew with
  | (h, Err e) => (h, Err e)
  | (h, Ok _) =>
      match onManager h (fun w => (w, CompletedAttachments w (Msg_TransferIDs message))) with
      | (h, Err e) => (h, Err e)
      | (h, Ok completed) =>
          let s := sess h in
          match (relativePaths ← attachmentReferences (session_workspaceRoot s) (workingDirectory s) completed;
                 ToolAdapter.Prepare (toolAdapter s)
                   (mkAttachmentPromptRequest (Msg_Prompt message) relativePaths (Msg_AppendEnter message))) with
          | Err e => (h, Err e)
          | Ok prepared =>
              let '(r, res) := PromptAction.Prepare (promptActions s) (Msg_ActionID message)
                                 (mkAction (Prepared_Preview prepared) (Prepared_TerminalInput prepared)) in
              (h <| sess := s <| promptActions := r |> |>, res)
          end
      end
  end.

(** The order in which [Close] visits the active transfers is an argument. *)
Definition closeAttachmentManager (h : Scene) (order : list string) : Scene * result unit :=
  let h := h <| sess ::= fun s => s <| attachmentsClosed := true |> |> in
  match attachmentManager (sess h) with
  | None => (h, Ok tt)
  | Some _ =>
      match onManager h (fun w => Transfer.Close w order) with
      | (h, Err e) => (h, Err e)
      | (h, Ok _) => (h <| sess ::= fun s => s <| attachmentManager := None |> |>, Ok tt)
      end
  end.

(** *** The process has exited *)

(** [waitForExit] up to the release of its mutexes; false when the session had
    finished before. *)
Definition exitSession (h : Scene) (err : option error) : Scene * bool :=
  let s := sess h in
  match finish (lifecycle s) (bool_decide (is_Some err)) with
  | (l, false) => (h <| sess := s <| lifecycle := l |> |>, false)
  | (l, true) =>
      let s := stopTimers (closeAttachmentCreationLocked (s <| lifecycle := l |>)) in
      let attached := client s in
      let reason := if bool_decide (endReason s = EmptyString) then ReasonProcessExit else endReason s in
      let failed := bool_decide (state (lifecycle s) = sessionStateFailed) in
      let s := logEvent (s <| client := None |>) EventSessionEnded reason
                 (if failed then OutcomeFailure else OutcomeSuccess) in
      let h := h <| sess := s |> in
      match attached with
      | None => (h, true)
      | Some id =>
          let outcome := if failed then PROCESS_EXIT_OUTCOME_FAILURE else PROCESS_EXIT_OUTCOME_SUCCESS in
          let message := from_option errorMessage "process exited"%string err in
          let '(h, _) := onWriter h id (fun w => writeProcessExit w outcome message) in
          ((onWriter h id (fun w => (writeClose w, Ok tt))).1, true)
      end
  end.

(** The rest of [waitForExit]: resources, prompts, attachments and the staging
    directory are closed; [onDone] is the server's. *)
Definition cleanUpSession (h : Scene) (order : list string) : Scene :=
  let reason := if bool_decide (endReason (sess h) = EmptyString) then ReasonProcessExit else endReason (sess h) in
  let h := h <| sess ::= fun s => closeResources s <| promptActions ::= PromptAction.Close |> |> in
  let '(h, closed) := closeAttachmentManager h order in
  let '(h, cleaned) :=
    match closed, staging (sess h) with
    | Ok _, Some st =>
        let '(d, st, r) := Cleanup (disk h) st in
        (h <| sess ::= fun s => s <| staging := Some st |> |> <| disk := d |>, r)
    | _, _ => (h, Ok tt)
    end in
  let h := if is_ok closed && is_ok cleaned then h
           else h <| sess ::= fun s => logEvent s EventSessionCleanupFailed reason OutcomeFailure |> in
  h <| sess ::= fun s => s <| exited := true |> |>.

Definition waitForExit (h : Scene) (err : option error) (order : list string) : Scene :=
  let '(h, finished) := exitSession h err in
  if finished : bool then cleanUpSession h order else h.
End Scene.
#[global] Existing Instance Scene_eta.
