(* ===== verification/SessionServer.v ===== *)
(** * The session server ([Server] of [internal/server/server.go])

    The server's sessions, the requests that reach it, and the loop that serves one
    connection: the upgrade, the Hello exchange, attaching, one client message after
    the other, detaching.  What a connection reads is a list of messages; the clock,
    the random source, the launcher and the outcome of the upgrade are arguments. *)

From S2P Require Import Prelude.
From S2P Require Import Utf8.
From S2P Require Import Envelope.
From S2P Require Import Negotiation.
From S2P Require Import Stream.
From S2P Require Import SessionLifecycle.
From S2P Require Import ContentPolicy.
From S2P Require Import Aggregate.
From S2P Require Import Transfer.
From S2P Require Import Workspace.
From S2P Require Import StagingSession.
From S2P Require Import DeviceIdentity.
From S2P Require Import PairedSession.
From S2P Require Import ToolAdapter.
From S2P Require Import PromptAction.
From S2P Require Import AgentLog.
From S2P Require Import WebsocketWriter.
From S2P Require Import TerminalSession.

(** ** Messages of the JSON adapter *)

Record ClientMessage := mkClientMessage {
  Client_Type : string;
  Client_Data : string;
  Client_Cols : Z;
  Client_Rows : Z;
}.

(** [json.Unmarshal] into a [ClientMessage]. *)
Class ClientJson := json_ClientMessage : bytes → option ClientMessage.

Definition endingMessage : bytes := bytes_of_string ("ending session" ++ String "013" (String "010" EmptyString)).

(** The readings of the clock and of the random source one message may need. *)
Record MessageEnv := mkMessageEnv {
  env_now : Z;
  env_randNew : nat → result bytes;
  env_rand : nat → result bytes;
}.

(** ** Configuration and state *)

Record Config := mkConfig {
  Config_Command : list string;
  Config_WorkingDirectory : string;
  Config_WorkspaceRoot : string;
  Config_ToolAdapter : string;
  ReconnectTimeout : Z;
  IdleTimeout : Z;
  DisableLegacyProtocol : bool;
  MaxAggregateBytes : Z;
  Config_Upgrade : UpgradeConfig;
  DeviceStore : option Store;
}.

#[global] Instance Config_eta : Eta Config := fun c =>
  mkConfig (Config_Command c) (Config_WorkingDirectory c) (Config_WorkspaceRoot c) (Config_ToolAdapter c)
    (ReconnectTimeout c) (IdleTimeout c) (DisableLegacyProtocol c) (MaxAggregateBytes c) (Config_Upgrade c)
    (DeviceStore c).

Record SessionStatus := mkSessionStatus {
  Status_State : string;
  Status_StartedAt : option Z;
  Status_LastActivityAt : option Z;
  Status_ReconnectTimeoutSeconds : Z;
  Status_IdleTimeoutSeconds : Z;
}.

(** What happens around the creation of a session. *)
Record LaunchEnv := mkLaunchEnv {
  launch_correlation : result bytes;
  launch_sessionID : result bytes;
  launch_terminal : result terminal;
  launch_now : Z;
}.

Definition StatusUpgradeRequired : Z := 426.

Section Server.
Context {codec : ProtoCodec} {D : Type} {ops : StagingOps D} {fs : FileSystem D} {gm : GoMime}.
Context {crypto : IdentityCrypto} {json : ClientJson}.

Notation Scene := (@Scene D).
Implicit Types (h : Scene).

(** ** One client message *)

Definition failWith h (id : nat) (code : ErrorCode) : Scene * bool :=
  ((onWriter h id (fun w => writeError w code)).1, false).

(** The loop goes on unless the writer fails. *)
Definition proceed {A} (r : Scene * result A) : Scene * bool :=
  let '(h, res) := r in (h, is_ok res).

Definition commitMessage h (id : nat) (message : ClientStreamMessage) (acknowledge : bool) : Scene * bool :=
  proceed (onWriter h id (fun w => commitProtocolV1ClientMessage w message acknowledge)).

Definition closeConnection h (id : nat) (message : string) : Scene * bool :=
  ((onWriter h id (fun w => (closeProtocol w message, Ok tt))).1, false).

(** A method of the session alone. *)
Definition onSession {A} h (f : ptySession → ptySession * A) : Scene * A :=
  let '(s, r) := f (sess h) in (h <| sess := s |>, r).

(** The switch on the kind of a stream message. *)
Definition handleStreamMessage h (id : nat) (env : MessageEnv) (message : ClientStreamMessage) : Scene * bool :=
  match Msg_Kind message with
  | ClientStreamMessageTerminalInput =>
      match onSession h (fun s => writeInputBytes s (env_now env) (Msg_Data message)) with
      | (h, Err _) => failWith h id ERROR_CODE_TERMINAL_INPUT_FAILED
      | (h, Ok _) => commitMessage h id message true
      end
  | ClientStreamMessageTerminalResize =>
      match onSession h (fun s => resize s (env_now env) (Msg_Columns message) (Msg_Rows message)) with
      | (h, Err _) => failWith h id ERROR_CODE_TERMINAL_RESIZE_FAILED
      | (h, Ok _) => commitMessage h id message true
      end
  | ClientStreamMessageEndSession =>
      match commitMessage h id message false with
      | (h, false) => (h, false)
      | (h, true) =>
          let h := (onWriter h id (fun w => writeBinary w endingMessage)).1 in
          (h <| sess ::= fun s => terminateWithReason s ReasonExplicitEnd |>, false)
      end
  | ClientStreamMessageAcknowledgement => commitMessage h id message false
  | ClientStreamMessagePing => proceed (onWriter h id (fun w => respondProtocolV1Ping w message))
  | ClientStreamMessageAttachmentBegin | ClientStreamMessageAttachmentChunk
  | ClientStreamMessageAttachmentComplete | ClientStreamMessageAttachmentCancel
  | ClientStreamMessageAttachmentDiscard =>
      match applyAttachmentMessage h message (env_randNew env) (env_rand env) with
      | (h, Err _) => failWith h id ERROR_CODE_ATTACHMENT_TRANSFER_FAILED
      | (h, Ok _) => commitMessage h id message true
      end
  | ClientStreamMessageAttachmentTransferStatusRequest =>
      match attachmentOutcome h (Msg_TransferID message) with
      | Err _ => failWith h id ERROR_CODE_ATTACHMENT_TRANSFER_FAILED
      | Ok outcome =>
          proceed (onWriter h id (fun w => respondProtocolV1AttachmentTransferStatus w message outcome))
      end
  | ClientStreamMessageAttachmentPromptPrepare =>
      match prepareAttachmentPrompt h message (env_randNew env) with
      | (h, Err _) => failWith h id ERROR_CODE_ATTACHMENT_PROMPT_ACTION_FAILED
      | (h, Ok r) => proceed (onWriter h id (fun w => respondProtocolV1AttachmentPromptPrepare w message r))
      end
  | ClientStreamMessageAttachmentPromptCommit =>
      match onSession h (fun s => commitAttachmentPrompt s (env_now env) (Msg_ActionID message)) with
      | (h, Err _) => failWith h id ERROR_CODE_ATTACHMENT_PROMPT_ACTION_FAILED
      | (h, Ok _) => commitMessage h id message true
      end
  | ClientStreamMessageAttachmentPromptCancel =>
      match onSession h (fun s => cancelAttachmentPrompt s (Msg_ActionID message)) with
      | (h, Err _) => failWith h id ERROR_CODE_ATTACHMENT_PROMPT_ACTION_FAILED
      | (h, Ok _) => commitMessage h id message true
      end
  | ClientStreamMessageNone | ClientStreamMessageAttachSession =>
      closeConnection h id "Unsupported Protocol V1 message"
  end.

Definition validDimension (n : Z) : bool := (n >? 0) && (n <=? MaxTerminalDimension).

(** The switch on the type of a JSON message. *)
Definition handleControlMessage h (id : nat) (env : MessageEnv) (msg : ClientMessage) : Scene * bool :=
  if bool_decide (Client_Type msg = "input"%string) then
    match onSession h (fun s => writeInput s (env_now env) (Client_Data msg)) with
    | (h, Err _) => failWith h id ERROR_CODE_TERMINAL_INPUT_FAILED
    | (h, Ok _) => (h, true)
    end
  else if bool_decide (Client_Type msg = "exit"%string) then
    let h := (onWriter h id (fun w => writeBinary w endingMessage)).1 in
    (h <| sess ::= fun s => terminateWithReason s ReasonExplicitEnd |>, false)
  else if bool_decide (Client_Type msg = "resize"%string) then
    if validDimension (Client_Cols msg) && validDimension (Client_Rows msg) then
      match onSession h (fun s => resize s (env_now env) (Client_Cols msg) (Client_Rows msg)) with
      | (h, Err _) => failWith h id ERROR_CODE_TERMINAL_RESIZE_FAILED
      | (h, Ok _) => (h, true)
      end
    else (h, true)
  else if bool_decide (Client_Type msg = "ping"%string) then
    proceed (onWriter h id (fun w => writeJSON w "pong" EmptyString))
  else proceed (onWriter h id (fun w => writeError w ERROR_CODE_UNSUPPORTED_MESSAGE)).

(** One turn of [readClientMessages]; false ends the loop. *)
Definition readClientMessage h (id : nat) (env : MessageEnv) (read : ReadMessage) : Scene * bool :=
  match writers h !! id, read with
  | Some w, Ok (binary, encoded) =>
      if usesProtocolV1 w then
        if binary : bool then
          match onWriter h id (fun w => decodeProtocolV1ClientMessage w encoded) with
          | (h, Err _) => closeConnection h id "Invalid Protocol V1 message"
          | (h, Ok message) => handleStreamMessage h id env message
          end
        else match json_ClientMessage encoded with
        | None => closeConnection h id "Invalid transitional control message"
        | Some msg =>
            if bool_decide (Client_Type msg = "input"%string) then
              closeConnection h id "Invalid transitional control message"
            else if usesTerminalResizeEnd w && (bool_decide (Client_Type msg = "resize"%string) ||
                                                bool_decide (Client_Type msg = "exit"%string)) then
              closeConnection h id "Negotiated resize/end controls must use Protocol V1 envelopes"
            else if usesControlHealth w && bool_decide (Client_Type msg = "ping"%string) then
              closeConnection h id "Negotiated health checks must use Protocol V1 envelopes"
            else handleControlMessage h id env msg
        end
      else match json_ClientMessage encoded with
      | None => (h, false)
      | Some msg => handleControlMessage h id env msg
      end
  | _, _ => (h, false)
  end.

Fixpoint readClientMessages h (id : nat) (reads : list (MessageEnv * ReadMessage)) : Scene :=
  match reads with
  | [] => h
  | (env, read) :: reads =>
      match readClientMessage h id env read with
      | (h, false) => h
      | (h, true) => readClientMessages h id reads
      end
  end.

(** ** The server *)

(** [srv_sessions] are all sessions ever created, [srv_session] is the one the
    server refers to. *)
Record Server := mkServer {
  config : Config;
  srv_sessions : gmap nat ptySession;
  srv_session : option nat;
  nextSessionGeneration : Z;
  srv_writers : gmap nat websocketWriter;
  srv_aggregate : option AggregateTracker;
  srv_disk : D;
  gate : option pairedSessionGate;
}.

#[local] Instance Server_eta : Eta Server := fun s =>
  mkServer (config s) (srv_sessions s) (srv_session s) (nextSessionGeneration s) (srv_writers s)
    (srv_aggregate s) (srv_disk s) (gate s).

Implicit Types (srv : Server).

Definition New (c : Config) (d : D) : Server :=
  let c := if ReconnectTimeout c <=? 0 then c <| ReconnectTimeout := 90 * Ticket.Second |> else c in
  let maxAggregate := if MaxAggregateBytes c =? 0 then DefaultMaxAggregateBytes else MaxAggregateBytes c in
  mkServer c ∅ None 0 ∅ (Some (NewAggregateTracker maxAggregate)) d
    ((fun devices => newPairedSessionGate devices (newNonceStore sessionNonceDefaultTTL)) <$> DeviceStore c).

(** A step of one session, with the parts of the server it works on. *)
Definition onScene {A} srv (n : nat) (default : A) (f : Scene → Scene * A) : Server * A :=
  match srv_sessions srv !! n with
  | None => (srv, default)
  | Some s =>
      let '(h, r) := f (mkScene s (srv_writers srv) (srv_aggregate srv) (srv_disk srv)) in
      (srv <| srv_sessions ::= insert n (sess h) |> <| srv_writers := writers h |>
           <| srv_aggregate := aggregate h |> <| srv_disk := disk h |>, r)
  end.

Definition live srv (n : nat) : bool := from_option (fun s => negb (isEnded s)) false (srv_sessions srv !! n).

(** The first look of [getOrCreateSession] at the current session. *)
Definition currentSession srv : option nat :=
  match srv_session srv with
  | Some n => if live srv n then Some n else None
  | None => None
  end.

(** The part of [getOrCreateSession] that runs without the server's mutex: a new
    session, not yet installed. *)
Definition createSession srv (env : LaunchEnv) : Server * result (bytes * ptySession) :=
  let c := config srv in
  let '(d, workingDirectory) :=
    if negb (bool_decide (Config_WorkspaceRoot c = EmptyString)) then
      match RevalidateDirectory (srv_disk srv) (Config_WorkspaceRoot c) (Config_WorkingDirectory c) with
      | (d, Err e) => (d, Err (ErrorWrap "revalidate workspace launch directory" e))
      | r => r
      end
    else (srv_disk srv, Ok (Config_WorkingDirectory c)) in
  let srv := srv <| srv_disk := d |> in
  match workingDirectory, launch_correlation env, launch_sessionID env with
  | Err e, _, _ => (srv, Err e)
  | Ok _, Err e, _ => (srv, Err (ErrorWrap "create session correlation ID" e))
  | Ok _, Ok _, Err e => (srv, Err (ErrorWrap "create protocol session ID" e))
  | Ok directory, Ok correlation, Ok protocolSessionID =>
      let adapterName := if bool_decide (Config_ToolAdapter c = EmptyString) then Generic else Config_ToolAdapter c in
      match ToolAdapter.New adapterName with
      | Err e => (srv, Err (ErrorWrap "initialize tool adapter" e))
      | Ok adapter =>
          let '(d, staged) :=
            if negb (bool_decide (Config_WorkspaceRoot c = EmptyString)) then
              match CreateSessionStaging (srv_disk srv) (Config_WorkspaceRoot c) protocolSessionID with
              | (d, Err e) => (d, Err (ErrorWrap "create session attachment staging" e))
              | r => r
              end
            else match CreateSandboxStaging (srv_disk srv) protocolSessionID with
              | (d, Err e) => (d, Err (ErrorWrap "create sandbox attachment staging" e))
              | r => r
              end in
          let srv := srv <| srv_disk := d |> in
          match staged with
          | Err e => (srv, Err e)
          | Ok staging =>
              match launch_terminal env with
              | Err e =>
                  let '(d, _, cleanup) := Cleanup (srv_disk srv) staging in
                  (srv <| srv_disk := d |>, Err (joinWith e cleanup))
              | Ok t =>
                  let s := newPTYSession (Config_Command c) t (IdleTimeout c) (launch_now env) (Some staging)
                             (hexEncode correlation) in
                  let root := if bool_decide (Config_WorkspaceRoot c = EmptyString) then Root (Some staging)
                              else Config_WorkspaceRoot c in
                  (srv, Ok (protocolSessionID,
                     s <| toolAdapter := adapter |> <| session_workspaceRoot := root |>
                       <| TerminalSession.workingDirectory := directory |>))
              end
          end
      end
  end.

(** The part under the server's mutex. *)
Definition installSession srv (protocolSessionID : bytes) (s : ptySession) : Server * result (nat * bool) :=
  let n := fresh (dom (srv_sessions srv)) in
  match currentSession srv with
  | Some current => (srv <| srv_sessions ::= insert n (terminateWithReason s ReasonSuperseded) |>, Ok (current, false))
  | None =>
      if nextSessionGeneration srv =? 2 ^ 64 - 1 then
        (srv <| srv_sessions ::= insert n (terminateWithReason s ReasonSuperseded) |>,
         Err (ErrorString "session generation exhausted"))
      else
        let next := nextSessionGeneration srv + 1 in
        (srv <| nextSessionGeneration := next |>
             <| srv_sessions ::= insert n (s <| TerminalSession.protocolSessionID := protocolSessionID |>
                                             <| generation := next |>) |>
             <| srv_session := Some n |>, Ok (n, true))
  end.

Definition getOrCreateSession srv (env : LaunchEnv) : Server * result (nat * bool) :=
  if bool_decide (Config_Command (config srv) = []) then (srv, Err (ErrorString "no command configured"))
  else match currentSession srv with
  | Some n => (srv, Ok (n, false))
  | None =>
      match createSession srv env with
      | (srv, Err e) => (srv, Err e)
      | (srv, Ok (protocolSessionID, s)) => installSession srv protocolSessionID s
      end
  end.

Definition clearSession srv (n : nat) : Server :=
  if bool_decide (srv_session srv = Some n) then srv <| srv_session := None |> else srv.

Definition Server_Close srv : Server :=
  match srv_session srv with
  | None => srv
  | Some n => srv <| srv_sessions ::= alter (fun s => terminateWithReason s ReasonAgentShutdown) n |>
  end.

(** [waitForExit] of a session, with [onDone]. *)
Definition sessionExited srv (n : nat) (err : option error) (order : list string) : Server :=
  match srv_sessions srv !! n with
  | Some s =>
      let '(srv, finished) := onScene srv n false (fun h =>
        let '(h, finished) := exitSession h err in
        (if finished : bool then cleanUpSession h order else h, finished)) in
      if finished : bool then clearSession srv n else srv
  | None => srv
  end.

Definition sessionStatus srv : SessionStatus :=
  let reconnect := seconds (ReconnectTimeout (config srv)) in
  let idle := seconds (IdleTimeout (config srv)) in
  match srv_session srv ≫= fun n => srv_sessions srv !! n with
  | None => mkSessionStatus "idle" None None reconnect idle
  | Some s => mkSessionStatus (publicState (lifecycle s)) (Some (startedAt s)) (Some (lastActivityAt s)) reconnect idle
  end.

(** The status code and, for an authorized request, the body. *)
Definition handleStatus srv (r : Request) : Z * result SessionStatus :=
  if negb (validToken (Config_Upgrade (config srv)) r) then
    (StatusUnauthorized, Err (ErrorString "invalid session token"))
  else (StatusOK, Ok (sessionStatus srv)).

(** [sameOrigin]; [parse] is the host of [url.Parse]. *)
Definition sameOrigin (origin host : string) (parse : string → option string) : bool :=
  bool_decide (origin = EmptyString) || bool_decide (parse origin = Some host).

(** [agentHelloIdentity]. *)
Definition agentHelloIdentity srv : result (option AgentIdentity) :=
  match DeviceStore (config srv) with
  | None => Ok None
  | Some store =>
      match Descriptor store with
      | Err e => Err (ErrorWrap "load Agent descriptor" e)
      | Ok signed =>
          match Fingerprint (Some signed) with
          | Err e => Err (ErrorWrap "compute Agent fingerprint" e)
          | Ok fingerprint => Ok (Some (mkAgentIdentity (DeviceID store) fingerprint (RevocationEpoch store)))
          end
      end
  end.

(** ** One connection *)

(** What a connection meets: the clock of the gate, the outcome of the upgrade, the
    faults and clock of its writer, and what it reads before it is attached. *)
Record ConnectEnv := mkConnectEnv {
  connect_now1 : Z;
  connect_now2 : Z;
  connect_upgraded : bool;
  connect_writer : websocketWriter;
  connect_hello : ReadMessage;
  connect_helloTime : Z;
  connect_deadline : result unit;
  connect_attach : ReadMessage;
  connect_launch : LaunchEnv;
  connect_attachTime : Z;
}.

Inductive ConnectResult :=
  | Refused (status : Z)      (* an HTTP error *)
  | Dropped                   (* the WebSocket is closed *)
  | Attached (n : nat) (ok : bool). (* attached to session [n]; whether its start was written *)

Definition onServerWriter {A} srv (id : nat) (f : websocketWriter → websocketWriter * A) (default : A) : Server * A :=
  match srv_writers srv !! id with
  | None => (srv, default)
  | Some w => let '(w, r) := f w in (srv <| srv_writers ::= insert id w |>, r)
  end.

Definition refuse srv (id : nat) (code : ErrorCode) : Server * ConnectResult :=
  let '(srv, _) := onServerWriter srv id (fun w => writeError w code) (Ok tt) in
  let '(srv, _) := onServerWriter srv id (fun w => (writeClose w, tt)) tt in
  (srv, Dropped).

Definition dropConnection srv (id : nat) (message : string) : Server * ConnectResult :=
  let '(srv, _) := onServerWriter srv id (fun w => (closeProtocol w message, tt)) tt in (srv, Dropped).

(** [handleWebSocket] from the Hello exchange to the attachment, on the writer [id]. *)
Definition attachConnection srv (id : nat) (request : option ClientStreamMessage) (env : ConnectEnv)
    : Server * ConnectResult :=
  match getOrCreateSession srv (connect_launch env) with
  | (srv, Err _) => refuse srv id ERROR_CODE_SESSION_START_FAILED
  | (srv, Ok (n, created)) =>
      let '(srv, (attached, r)) :=
        onScene srv n (false, Ok tt) (fun h =>
          match request with
          | Some request => attachProtocolV1 h id request created (connect_attachTime env)
          | None => let '(h, ok) := attach h id (connect_attachTime env) in (h, (ok, Ok tt))
          end) in
      if negb attached then refuse srv id ERROR_CODE_SESSION_ALREADY_ACTIVE
      else match r with
      | Err _ => let '(srv, _) := dropConnection srv id "Protocol V1 session attachment failed" in (srv, Attached n false)
      | Ok _ => (srv, Attached n true)
      end
  end.

Definition connect srv (id : nat) (r : Request) (env : ConnectEnv) : Server * ConnectResult :=
  match authorizedForUpgrade (Config_Upgrade (config srv)) (gate srv) (connect_now1 env) (connect_now2 env) r with
  | (g, None) => (srv <| gate := g |>, Refused StatusUnauthorized)
  | (g, Some _) =>
      let srv := srv <| gate := g |> in
      if DisableLegacyProtocol (config srv) && negb (offersWebSocketSubprotocol r WebSocketSubprotocol) then
        (srv, Refused StatusUpgradeRequired)
      else if negb (connect_upgraded env) then (srv, Dropped)
      else
        let srv := srv <| srv_writers ::= insert id (connect_writer env) |> in
        let '(srv, negotiated) :=
          if offersWebSocketSubprotocol r WebSocketSubprotocol then
            onServerWriter srv id (fun w =>
              negotiateProtocolV1 (DisableLegacyProtocol (config srv)) (agentHelloIdentity srv) w (connect_hello env)
                (connect_helloTime env) (connect_deadline env)) (Ok tt)
          else (srv, Ok tt) in
        match negotiated with
        | Err _ => dropConnection srv id "Protocol V1 negotiation failed"
        | Ok _ =>
            if from_option usesSessionResume false (srv_writers srv !! id) then
              match onServerWriter srv id (fun w => readProtocolV1Attach w (connect_attach env) (connect_deadline env))
                      (Err errNoStream) with
              | (srv, Err _) => dropConnection srv id "Invalid Protocol V1 AttachSession"
              | (srv, Ok request) => attachConnection srv id (Some request) env
              end
            else attachConnection srv id None env
        end
  end.

(** The deferred [detach]; a termination it starts runs at once. *)
Definition disconnect srv (n id : nat) (now : Z) : Server :=
  (onScene srv n tt (fun h =>
     let '(h, spawned) := detach h id (ReconnectTimeout (config srv)) now in
     (if spawned : bool then h <| sess ::= fun s => terminateWithReason s ReasonReconnectExpired |> else h, tt))).1.

(** A connection from its request to its end. *)
Definition handleWebSocket srv (id : nat) (r : Request) (env : ConnectEnv)
    (reads : list (MessageEnv * ReadMessage)) (closed : Z) : Server * ConnectResult :=
  match connect srv id r env with
  | (srv, Attached n true) =>
      let srv := (onScene srv n tt (fun h => (readClientMessages h id reads, tt))).1 in
      let '(srv, _) := onServerWriter srv id (fun w => (writeClose w, tt)) tt in
      (disconnect srv n id closed, Attached n true)
  | (srv, Attached n false) => (disconnect srv n id closed, Attached n false)
  | r => r
  end.
End Server.
#[global] Existing Instance Server_eta.
