(* ===== verification/TerminalSessionFacts.v ===== *)
(** * Facts about terminal sessions

    Runs of one session: its methods and the messages of its connections, in any
    order.  The invariant of a session, what a resuming client gets, and what the end
    of a session leaves. *)

From S2P Require Import Prelude.
From S2P Require Import Envelope.
From S2P Require Import Negotiation.
From S2P Require Import Stream.
From S2P Require Import StreamFacts.
From S2P Require Import ReplayBuffer.
From S2P Require Import SessionLifecycle.
From S2P Require Import ContentPolicy.
From S2P Require Import Aggregate.
From S2P Require Import Transfer.
From S2P Require Import Workspace.
From S2P Require Import StagingSession.
From S2P Require Import ToolAdapter.
From S2P Require Import PromptAction.
From S2P Require Import AgentLog.
From S2P Require Import WebsocketWriter.
From S2P Require Import TerminalSession.
From S2P Require Import SessionServer.

(** ** The invariant *)

Record session_ok (s : ptySession) : Prop := {
  ok_started : state (lifecycle s) ≠ sessionStateStarting;
  ok_connected : state (lifecycle s) = sessionStateConnected → is_Some (client s);
  ok_detached : state (lifecycle s) = sessionStateDetached → client s = None;
  ok_done : SessionLifecycle.done (lifecycle s) = true → client s = None;
  ok_attachments : attachmentsClosed s = ending s;
  ok_timers : ending s = true → detachTimer s = None ∧ idleTimer s = None;
  ok_detach_timer : is_Some (detachTimer s) → state (lifecycle s) = sessionStateDetached;
  ok_idle_timer : ending s = false → (is_Some (idleTimer s) ↔ 0 < idleTimeout s);
  ok_attached_replay : is_Some (client s) → holds (replay s) [];
  ok_replay : maxBytes (replay s) = maxBufferedOutputBytes ∧ maxAge (replay s) = bufferedOutputMaxAge;
  ok_manager : is_Some (attachmentManager s) → is_Some (staging s);
  ok_resources : state (lifecycle s) = sessionStateEnding → resourcesClosed s = true ∧ cancelled_process s = true;
  ok_exited : exited s = true → SessionLifecycle.done (lifecycle s) = true;
}.

(** What the methods that serve a client's message leave alone. *)
Record keeps (s s' : ptySession) : Prop := {
  keeps_lifecycle : lifecycle s' = lifecycle s;
  keeps_client : client s' = client s;
  keeps_replay : replay s' = replay s;
  keeps_attachments : attachmentsClosed s' = attachmentsClosed s;
  keeps_detach : detachTimer s' = detachTimer s;
  keeps_timeout : idleTimeout s' = idleTimeout s;
  keeps_idle : idleTimer s' = idleTimer s ∨
    (ending s = false ∧ 0 < idleTimeout s ∧ is_Some (idleTimer s'));
  keeps_resume : resumeCheckpoint s' = resumeCheckpoint s ∧ lastDetachedOutput s' = lastDetachedOutput s ∧
    protocolSessionID s' = protocolSessionID s ∧ generation s' = generation s;
  keeps_resources : resourcesClosed s' = resourcesClosed s ∧ cancelled_process s' = cancelled_process s ∧
    exited s' = exited s ∧ endReason s' = endReason s ∧ logged s' = logged s;
  keeps_manager : (is_Some (attachmentManager s) → is_Some (staging s)) →
    is_Some (attachmentManager s') → is_Some (staging s');
}.

Lemma keeps_refl s : keeps s s.
Proof. by split; auto. Qed.

Lemma keeps_ending s s' : keeps s s' → ending s' = ending s.
Proof. intros [Hl _ _ _ _ _ _ _ _ _]. unfold ending. by rewrite Hl. Qed.

Lemma keeps_trans s1 s2 s3 : keeps s1 s2 → keeps s2 s3 → keeps s1 s3.
Proof.
  intros H12 H23. pose proof (keeps_ending _ _ H12) as He. destruct H12, H23. split; try congruence.
  - destruct keeps_idle0 as [Hi|(? & ? & Hi)], keeps_idle1 as [Hj|(? & ? & Hj)]; rewrite ?He in *;
      rewrite ?Hi, ?Hj in *; auto; right; rewrite ?keeps_timeout0 in *; auto.
  - destruct keeps_resume0 as (? & ? & ? & ?), keeps_resume1 as (? & ? & ? & ?). split_and!; congruence.
  - destruct keeps_resources0 as (? & ? & ? & ? & ?), keeps_resources1 as (? & ? & ? & ? & ?). split_and!; congruence.
  - auto.
Qed.

#[export] Hint Resolve keeps_refl : vb.

Lemma keeps_ok s s' : session_ok s → keeps s s' → session_ok s'.
Proof.
  intros Hs Hk. pose proof (keeps_ending _ _ Hk) as He. destruct Hs, Hk.
  destruct keeps_resources0 as (Hr & Hc & Hx & _).
  split; rewrite ?He, ?keeps_lifecycle0, ?keeps_client0, ?keeps_replay0, ?keeps_attachments0, ?keeps_detach0,
    ?keeps_timeout0, ?Hr, ?Hc, ?Hx in *; auto.
  - intros H. destruct (ok_timers0 H) as [? ?]. split; [done|].
    destruct keeps_idle0 as [->|(? & _)]; [done|congruence].
  - intros H. destruct keeps_idle0 as [->|(_ & ? & ?)]; [by apply ok_idle_timer0|by split].
Qed.

(** *** Client messages *)

Lemma resetIdle_keeps s now : keeps s (resetIdleTimerLocked s now).
Proof.
  unfold resetIdleTimerLocked. destruct (_ || _) eqn:Hc; [by apply keeps_refl|].
  split_bool. split; simpl; auto. right. split_and!; [|lia|eauto].
  unfold ending. apply orb_false_iff. split; [by apply bool_decide_eq_false|done].
Qed.

Lemma activity_keeps s t now : keeps s (resetIdleTimer (touchActivity (s <| term := t |>) now) now).
Proof.
  eapply keeps_trans; [|apply resetIdle_keeps]. split; simpl; auto.
Qed.

Lemma writeInputBytes_keeps s now input s' r : writeInputBytes s now input = (s', r) → keeps s s'.
Proof.
  unfold writeInputBytes. destruct (writeInputLoop _ _ _) as [t [u|e]]; intros [= <- _];
    [apply activity_keeps|by split; auto].
Qed.

Lemma resize_keeps s now c r s' res : resize s now c r = (s', res) → keeps s s'.
Proof.
  unfold resize. destruct (Terminal_Resize _ _ _) as [t [u|e]]; intros [= <- _];
    [apply activity_keeps|by split; auto].
Qed.

Lemma set_prompts_keeps s r : keeps s (s <| promptActions := r |>).
Proof. by split; auto. Qed.

Lemma set_term_keeps s t : keeps s (s <| term := t |>).
Proof. by split; auto. Qed.

Lemma commitPrompt_keeps s now id s' r : commitAttachmentPrompt s now id = (s', r) → keeps s s'.
Proof.
  unfold commitAttachmentPrompt. destruct (ending s); [intros [= <- _]; auto with vb|].
  destruct (PromptAction.Commit _ _ _ _) as [[reg s1] res] eqn:Hc. intros [= <- _].
  eapply keeps_trans; [|apply set_prompts_keeps].
  revert Hc. unfold PromptAction.Commit. destruct (negb _); [intros [= _ <- _]; auto with vb|].
  destruct (PromptAction.closed _); [intros [= _ <- _]; auto with vb|].
  destruct (PromptAction.entries _ !! id) as [e|]; [|intros [= _ <- _]; auto with vb].
  destruct (entry_state e); try (intros [= _ <- _]; auto with vb).
  destruct (writeInputBytes s now (entry_terminalInput e)) as [s2 [u|err]] eqn:Hw; intros [= _ <- _];
    by eapply writeInputBytes_keeps.
Qed.

Lemma cancelPrompt_keeps s id s' r : cancelAttachmentPrompt s id = (s', r) → keeps s s'.
Proof.
  unfold cancelAttachmentPrompt. destruct (ending s); [intros [= <- _]; auto with vb|].
  destruct (PromptAction.Cancel _ _) as [reg res]. intros [= <- _]. by split; auto.
Qed.

Section Scenes.
Context {codec : ProtoCodec} {D : Type} {ops : StagingOps D} {fs : FileSystem D} {gm : GoMime} {json : ClientJson}.
Notation Scene := (@Scene D).
Implicit Types (h : Scene) (s : ptySession).

Definition hkeeps h h' : Prop := keeps (sess h) (sess h').

Lemma hkeeps_trans h1 h2 h3 : hkeeps h1 h2 → hkeeps h2 h3 → hkeeps h1 h3.
Proof. apply keeps_trans. Qed.

Lemma hkeeps_refl h : hkeeps h h.
Proof. apply keeps_refl. Qed.
Hint Resolve hkeeps_refl : vb.

Lemma onWriter_sess {A} h id (f : websocketWriter → websocketWriter * result A) h' r :
  onWriter h id f = (h', r) → sess h' = sess h.
Proof. unfold onWriter. destruct (writers h !! id) as [w|]; [destruct (f w)|]; by intros [= <- _]. Qed.

Lemma onWriter_sess1 {A} h id (f : websocketWriter → websocketWriter * result A) : sess (onWriter h id f).1 = sess h.
Proof. destruct (onWriter h id f) eqn:Ho. by eapply onWriter_sess. Qed.

Lemma onWriter_keeps {A} h id (f : websocketWriter → websocketWriter * result A) h' r :
  onWriter h id f = (h', r) → hkeeps h h'.
Proof. intros Ho%onWriter_sess. unfold hkeeps. rewrite Ho. apply keeps_refl. Qed.

Lemma set_manager_keeps s m st : keeps s (s <| attachmentManager := m |> <| staging := Some st |>).
Proof. split; simpl; auto. Qed.

Lemma onManager_keeps {A} h (f : World → World * result A) h' r : onManager h f = (h', r) → hkeeps h h'.
Proof.
  unfold onManager. destruct (attachmentManager (sess h)) as [m|]; [|intros [= <- _]; auto with vb].
  destruct (staging (sess h)) as [st|]; [|intros [= <- _]; auto with vb].
  destruct (f _) as [w r']. intros [= <- _]. unfold hkeeps. simpl. apply set_manager_keeps.
Qed.

Lemma transferManager_keeps h rand h' r : transferManager h rand = (h', r) → hkeeps h h'.
Proof.
  unfold transferManager. destruct (_ || _); [intros [= <- _]; auto with vb|].
  destruct (attachmentManager (sess h)) as [m|] eqn:Hm; [intros [= <- _]; auto with vb|].
  destruct (staging (sess h)) as [st|]; [|intros [= <- _]; auto with vb].
  destruct (NewManagerWithAggregate _ _ _ _) as [[[d st'] a] [w|e]]; intros [= <- _]; unfold hkeeps; simpl.
  - split; simpl; auto.
  - split; simpl; auto.
Qed.

Lemma applyAttachment_keeps h m r1 r2 h' r : applyAttachmentMessage h m r1 r2 = (h', r) → hkeeps h h'.
Proof.
  unfold applyAttachmentMessage. destruct (transferManager h r1) as [h1 [u|e]] eqn:H1;
    apply transferManager_keeps in H1; [|by intros [= <- _]].
  destruct (attachmentOperation m r2) as [op|]; [|by intros [= <- _]].
  destruct (onManager h1 op) as [h2 [u2|e2]] eqn:H2; apply onManager_keeps in H2;
    [intros [= <- _]; by eapply hkeeps_trans|].
  case_bool_decide; [intros [= <- _]; by eapply hkeeps_trans|].
  destruct (onManager h2 _) as [h3 r3] eqn:H3. apply onManager_keeps in H3. intros [= <- _].
  eapply hkeeps_trans; [exact H1|]. by eapply hkeeps_trans.
Qed.

Lemma prepareAttachment_keeps h m r1 h' r : prepareAttachmentPrompt h m r1 = (h', r) → hkeeps h h'.
Proof.
  unfold prepareAttachmentPrompt. destruct (transferManager h r1) as [h1 [u|e]] eqn:H1;
    apply transferManager_keeps in H1; [|by intros [= <- _]].
  destruct (onManager h1 _) as [h2 [c|e2]] eqn:H2; apply onManager_keeps in H2;
    [|intros [= <- _]; by eapply hkeeps_trans].
  destruct (mbind _ _) as [prepared|e]; [|intros [= <- _]; by eapply hkeeps_trans].
  destruct (PromptAction.Prepare _ _ _) as [reg res]. intros [= <- _].
  eapply hkeeps_trans; [exact H1|]. eapply hkeeps_trans; [exact H2|]. unfold hkeeps. simpl. apply set_prompts_keeps.
Qed.

Lemma onSession_keeps {A} h (f : ptySession → ptySession * A) h' r :
  (∀ s' x, f (sess h) = (s', x) → keeps (sess h) s') → onSession h f = (h', r) → hkeeps h h'.
Proof.
  intros Hf. unfold onSession. destruct (f (sess h)) as [s' x] eqn:He. intros [= <- _]. unfold hkeeps. simpl. eauto.
Qed.

(** What a message of a client does to the session: what [keeps] says, and the end
    of the session when it asks for it. *)
Definition served h h' : Prop :=
  ∃ s, keeps (sess h) s ∧ (sess h' = s ∨ sess h' = terminateWithReason s ReasonExplicitEnd).

Lemma keeps_served h h' : hkeeps h h' → served h h'.
Proof. intros Hk. exists (sess h'). auto. Qed.

Lemma failWith_served h0 h id code h' b : hkeeps h0 h → failWith h id code = (h', b) → served h0 h'.
Proof.
  intros Hk. unfold failWith. intros [= <- _]. apply keeps_served. unfold hkeeps. by rewrite onWriter_sess1.
Qed.

Lemma closeConnection_served h0 h id m h' b : hkeeps h0 h → closeConnection h id m = (h', b) → served h0 h'.
Proof.
  intros Hk. unfold closeConnection. intros [= <- _]. apply keeps_served. unfold hkeeps. by rewrite onWriter_sess1.
Qed.

Lemma proceed_served {A} h0 h id (f : websocketWriter → websocketWriter * result A) h' b :
  hkeeps h0 h → proceed (onWriter h id f) = (h', b) → served h0 h'.
Proof.
  intros Hk. unfold proceed. destruct (onWriter h id f) as [h1 r] eqn:Ho. intros [= <- _].
  apply keeps_served. unfold hkeeps. apply onWriter_sess in Ho. by rewrite Ho.
Qed.

Lemma end_served h0 h id :
  hkeeps h0 h →
  served h0 ((onWriter h id (fun w => writeBinary w endingMessage)).1
               <| sess ::= fun s => terminateWithReason s ReasonExplicitEnd |>).
Proof. intros Hk. exists (sess h). split; [done|]. right. simpl. by rewrite onWriter_sess1. Qed.

Hint Resolve failWith_served closeConnection_served proceed_served : vb.

Lemma handleStream_served h id env m h' b : handleStreamMessage h id env m = (h', b) → served h h'.
Proof.
  unfold handleStreamMessage, commitMessage. destruct (Msg_Kind m); intros Hrun; eauto with vb.
  - destruct (onSession h _) as [h1 [u|e]] eqn:H1;
      apply onSession_keeps in H1; eauto using writeInputBytes_keeps with vb.
  - destruct (onSession h _) as [h1 [u|e]] eqn:H1;
      apply onSession_keeps in H1; eauto using resize_keeps with vb.
  - destruct (proceed _) as [h1 []] eqn:H1.
    + simplify_eq. unfold proceed in H1. destruct (onWriter h id _) as [h2 r] eqn:Ho. simplify_eq.
      apply end_served. by eapply onWriter_keeps.
    + simplify_eq. eauto with vb.
  - destruct (applyAttachmentMessage _ _ _ _) as [h1 [u|e]] eqn:H1; apply applyAttachment_keeps in H1; eauto with vb.
  - destruct (applyAttachmentMessage _ _ _ _) as [h1 [u|e]] eqn:H1; apply applyAttachment_keeps in H1; eauto with vb.
  - destruct (applyAttachmentMessage _ _ _ _) as [h1 [u|e]] eqn:H1; apply applyAttachment_keeps in H1; eauto with vb.
  - destruct (applyAttachmentMessage _ _ _ _) as [h1 [u|e]] eqn:H1; apply applyAttachment_keeps in H1; eauto with vb.
  - destruct (applyAttachmentMessage _ _ _ _) as [h1 [u|e]] eqn:H1; apply applyAttachment_keeps in H1; eauto with vb.
  - destruct (attachmentOutcome _ _); eauto with vb.
  - destruct (prepareAttachmentPrompt _ _ _) as [h1 [u|e]] eqn:H1; apply prepareAttachment_keeps in H1; eauto with vb.
  - destruct (onSession h _) as [h1 [u|e]] eqn:H1;
      apply onSession_keeps in H1; eauto using commitPrompt_keeps with vb.
  - destruct (onSession h _) as [h1 [u|e]] eqn:H1;
      apply onSession_keeps in H1; eauto using cancelPrompt_keeps with vb.
Qed.

Lemma handleControl_served h id env msg h' b : handleControlMessage h id env msg = (h', b) → served h h'.
Proof.
  unfold handleControlMessage. repeat case_bool_decide; intros Hrun; eauto with vb.
  - destruct (onSession h _) as [h1 [u|e]] eqn:Hstep;
      apply onSession_keeps in Hstep; eauto using writeInputBytes_keeps with vb; simplify_eq; by apply keeps_served.
  - simplify_eq. apply end_served. apply hkeeps_refl.
  - destruct (_ && _); [|simplify_eq; apply keeps_served, hkeeps_refl].
    destruct (onSession h _) as [h1 [u|e]] eqn:Hstep;
      apply onSession_keeps in Hstep; eauto using resize_keeps with vb; simplify_eq; by apply keeps_served.
Qed.

Lemma served_after h h1 h' : hkeeps h h1 → served h1 h' → served h h'.
Proof. intros Hk (s & Hs & Hor). exists s. split; [by eapply keeps_trans|done]. Qed.

Lemma readClientMessage_served h id env read h' b : readClientMessage h id env read = (h', b) → served h h'.
Proof.
  unfold readClientMessage. destruct (writers h !! id) as [w|]; [|intros [= <- _]; apply keeps_served, hkeeps_refl].
  destruct read as [[[] encoded]|e]; [| |intros [= <- _]; apply keeps_served, hkeeps_refl].
  - destruct (usesProtocolV1 w).
    + destruct (onWriter h id _) as [h1 [m|e]] eqn:H1; apply onWriter_keeps in H1; [|eauto with vb].
      intros Hh%handleStream_served. by eapply served_after.
    + destruct (json_ClientMessage encoded); [apply handleControl_served|].
      intros [= <- _]. apply keeps_served, hkeeps_refl.
  - destruct (usesProtocolV1 w).
    + destruct (json_ClientMessage encoded); [|eauto with vb]. repeat case_match; eauto with vb.
      apply handleControl_served.
    + destruct (json_ClientMessage encoded); [apply handleControl_served|].
      intros [= <- _]. apply keeps_served, hkeeps_refl.
Qed.
End Scenes.
