(* ===== verification/SessionRuns.v ===== *)
(** * Runs of a terminal session

    The methods of a session and the messages of its connections in any order, with
    the output that came while nobody was attached kept beside the state as a ghost.
    The invariant of the session, what a client that attaches is told and sent, and
    what the end of the session leaves. *)

From S2P Require Import Prelude.
From S2P Require Import Envelope.
From S2P Require Import Negotiation.
From S2P Require Import Stream.
From S2P Require Import StreamFacts.
From S2P Require Import ReplayBuffer.
From S2P Require Import SessionLifecycle.
From S2P Require Import ContentPolicy.
From S2P Require Import Aggregate.
From S2P Require Import Transfer.
From S2P Require Import Workspace.
From S2P Require Import StagingSession.
From S2P Require Import ToolAdapter.
From S2P Require Import PromptAction.
From S2P Require Import AgentLog.
From S2P Require Import WebsocketWriter.
From S2P Require Import TerminalSession.
From S2P Require Import SessionServer.
From S2P Require Import TerminalSessionFacts.

(** ** Steps of the session alone *)

Lemma set_lifecycle_same s l : l = lifecycle s → s <| lifecycle := l |> = s.
Proof. intros ->. by destruct s. Qed.

(** A refused transition leaves the lifecycle as it was. *)
Lemma refused_transition l l' op : lifecycle_step l op = (l', false) → l' = l.
Proof. destruct l as [[]], op as [| | | |[]]; simpl; by intros [= <-]. Qed.

(** The session a client is attached to. *)
Record attached_as s (id : nat) s' : Prop := {
  as_before : client s = None ∧ state (lifecycle s) = sessionStateDetached;
  as_client : client s' = Some id;
  as_state : state (lifecycle s') = sessionStateConnected;
  as_replay : replay s' = replay s;
  as_detach : detachTimer s' = None;
  as_idle : idleTimeout s' = idleTimeout s ∧
    (idleTimer s' = idleTimer s ∨ (0 < idleTimeout s ∧ is_Some (idleTimer s')));
  as_idle_set : 0 < idleTimeout s → is_Some (idleTimer s');
  as_resume : resumeCheckpoint s' = resumeCheckpoint s ∧ lastDetachedOutput s' = lastDetachedOutput s ∧
    protocolSessionID s' = protocolSessionID s ∧ generation s' = generation s;
  as_rest : attachmentsClosed s' = attachmentsClosed s ∧ attachmentManager s' = attachmentManager s ∧
    staging s' = staging s ∧ exited s' = exited s;
}.

Lemma beginAttach_spec s id now s' ok :
  beginAttachLocked s id now = (s', ok) → if ok then attached_as s id s' else s' = s.
Proof.
  unfold beginAttachLocked. destruct (client s) eqn:Hc; [by intros [= <- <-]|].
  destruct (SessionLifecycle.attach (lifecycle s)) as [l []] eqn:Ha.
  - intros [= <- <-]. destruct (lifecycle s) as [[]] eqn:Hl; try done. injection Ha as <-.
    unfold resetIdleTimerLocked. simpl. rewrite !orb_false_r. destruct (idleTimeout s <=? 0) eqn:Hi.
    + by split; simpl; rewrite ?Hl; auto; lia.
    + split; simpl; rewrite ?Hl; eauto. split; [done|]. right. split; [lia|eauto].
  - intros [= <- <-]. apply set_lifecycle_same. by apply (refused_transition _ _ LAttach).
Qed.

Lemma ending_state s :
  ending s = match state (lifecycle s) with
             | sessionStateEnding | sessionStateEnded | sessionStateFailed => true | _ => false end.
Proof. unfold ending, SessionLifecycle.done. by destruct (state (lifecycle s)). Qed.

Lemma done_state l :
  SessionLifecycle.done l = match state l with sessionStateEnded | sessionStateFailed => true | _ => false end.
Proof. done. Qed.

Lemma attached_ok s id s' : session_ok s → holds (replay s) [] → attached_as s id s' → session_ok s'.
Proof.
  intros [Hstarted Hconn Hdet Hdone Hatt Htim Hdtim Hitim Harep Hrep Hman Hres Hexit] Hh
    [[Hn Hst] Hc Hst' Hr Hd [Hto Hi] His _ (Ha & Hm & Hg & Hx)].
  rewrite ending_state, done_state, Hst in *.
  split; rewrite ?ending_state, ?done_state, ?Hst', ?Hc, ?Hr, ?Hd, ?Hto, ?Ha, ?Hm, ?Hg, ?Hx; try done; eauto.
  - intros _. split; [|auto]. destruct Hi as [->|[? _]]; [by apply Hitim|done].
Qed.

Lemma terminate_ok s reason : session_ok s → session_ok (terminateWithReason s reason).
Proof.
  intros [Hstarted Hconn Hdet Hdone Hatt Htim Hdtim Hitim Harep Hrep Hman Hres Hexit]. unfold terminateWithReason.
  rewrite ending_state, done_state in *.
  destruct (lifecycle s) as [[]] eqn:Hl; simpl in *;
    try (rewrite set_lifecycle_same by done; split; rewrite ?ending_state, ?done_state, ?Hl; done);
    split; rewrite ?ending_state, ?done_state; simpl; try done; auto; by intros [? ?].
Qed.

Lemma detach_spec s id w timeout now s' b :
  detachSession s id w timeout now = (s', b) →
  (s' = s ∧ client s ≠ Some id) ∨
  (client s = Some id ∧ client s' = None ∧ replay s' = replay s ∧ attachmentsClosed s' = attachmentsClosed s ∧
   idleTimer s' = idleTimer s ∧ idleTimeout s' = idleTimeout s ∧ attachmentManager s' = attachmentManager s ∧
   staging s' = staging s ∧ exited s' = exited s ∧ resourcesClosed s' = resourcesClosed s ∧
   cancelled_process s' = cancelled_process s ∧
   protocolSessionID s' = protocolSessionID s ∧ generation s' = generation s ∧
   resumeCheckpoint s' = usesSessionResume w ∧
   lastDetachedOutput s' = (if usesSessionResume w then highestProtocolV1OutboundSequence w else 0) ∧
   match state (lifecycle s) with
   | sessionStateConnected => state (lifecycle s') = sessionStateDetached
   | _ => lifecycle s' = lifecycle s ∧ detachTimer s' = detachTimer s
   end).
Proof.
  unfold detachSession. case_bool_decide as Hc; simpl; [|intros [= <- _]; by left].
  set (s1 := if usesSessionResume w then _ else _).
  assert (lifecycle s1 = lifecycle s) as Hl by (unfold s1; by destruct (usesSessionResume w)).
  rewrite Hl. intros Hrun. right. destruct (lifecycle s) as [[]] eqn:Hst; simpl in *;
    [| destruct (timeout <=? 0)| | | |]; injection Hrun as <- _;
    try (rewrite (set_lifecycle_same s1) by done); unfold s1; destruct (usesSessionResume w); by split_and!.
Qed.

Lemma detach_ok s id w timeout now s' b :
  session_ok s → detachSession s id w timeout now = (s', b) → session_ok s'.
Proof.
  intros Hs [[-> _]|(Hc & Hc' & Hr & Ha & Hi & Hto & Hm & Hg & Hx & Hre & Hcan & _ & _ & _ & _ & Hst')]
    %detach_spec; [done|].
  destruct Hs as [Hstarted Hconn Hdet Hdone Hatt Htim Hdtim Hitim Harep Hrep Hman Hres Hexit].
  rewrite ending_state, done_state in *.
  destruct (state (lifecycle s)) eqn:Hst; [done| |by rewrite Hc in Hdet; discriminate Hdet| | |].
  { split; rewrite ?ending_state, ?done_state, ?Hst', ?Hc', ?Hr, ?Ha, ?Hi, ?Hto, ?Hm, ?Hg, ?Hx; done. }
  all: destruct Hst' as [Hl Htimer]; split;
    rewrite ?ending_state, ?done_state, ?Hl, ?Htimer, ?Hst, ?Hc', ?Hr, ?Ha, ?Hi, ?Hto, ?Hm, ?Hg, ?Hx, ?Hre, ?Hcan;
    try done; by intros [? ?].
Qed.

(** The session whose process has exited. *)
Lemma finish_ok s l failed :
  session_ok s → finish (lifecycle s) failed = (l, true) → ∀ s',
  lifecycle s' = l → client s' = None → attachmentsClosed s' = true → detachTimer s' = None → idleTimer s' = None →
  maxBytes (replay s') = maxBytes (replay s) ∧ maxAge (replay s') = maxAge (replay s) →
  attachmentManager s' = attachmentManager s → staging s' = staging s → session_ok s'.
Proof.
  intros [Hstarted Hconn Hdet Hdone Hatt Htim Hdtim Hitim Harep Hrep Hman Hres Hexit] Hf s' Hl Hc Ha Hd Hi [H1 H2] Hm Hg.
  assert (SessionLifecycle.done l = true) as Hdl.
  { destruct (lifecycle s) as [[]], failed; simpl in Hf; by injection Hf as <-. }
  rewrite done_state in Hdl.
  split; rewrite ?ending_state, ?done_state, ?Hl, ?Hc, ?Ha, ?Hd, ?Hi, ?H1, ?H2, ?Hm, ?Hg;
    destruct (state l); try done; auto; by intros [? ?].
Qed.

(** ** Runs *)

(** What a new session shows first. *)
Definition banner (cmd : list string) : bytes :=
  Utf8.bytes_of_string ("started PTY shell: " ++ joinCommand cmd ++ String "013" (String "010" EmptyString)).

(** A session as [createSession] and [installSession] hand it over. *)
Record new_session (cmd : list string) s : Prop := {
  new_from : ∃ t idle now stg correlation adapter root directory id g,
    s = (newPTYSession cmd t idle now stg correlation)
          <| toolAdapter := adapter |> <| session_workspaceRoot := root |> <| workingDirectory := directory |>
          <| protocolSessionID := id |> <| generation := g |>;
}.

Section Runs.
Context {codec : ProtoCodec} {D : Type} {ops : StagingOps D} {fs : FileSystem D} {gm : GoMime} {json : ClientJson}.
Notation Scene := (@Scene D).
Implicit Types (h : Scene) (s : ptySession) (kept : bytes).

Inductive SessionOp :=
  | OpConnect (id : nat) (w : websocketWriter)
  | OpAttach (id : nat) (now : Z)
  | OpAttachV1 (id : nat) (request : ClientStreamMessage) (created : bool) (now : Z)
  | OpDetach (id : nat) (timeout now : Z)
  | OpOutput (chunk : bytes) (now : Z)
  | OpIdle (now : Z)
  | OpRead (id : nat) (env : MessageEnv) (read : ReadMessage)
  | OpWrite (id : nat) (f : Frame)
  | OpTerminate (reason : string)
  | OpExit (err : option error)
  | OpCleanUp (order : list string).

Definition session_step h (op : SessionOp) : Scene :=
  match op with
  | OpConnect id w => h <| writers ::= insert id w |>
  | OpAttach id now => (attach h id now).1
  | OpAttachV1 id request created now => (attachProtocolV1 h id request created now).1
  | OpDetach id timeout now => (detach h id timeout now).1
  | OpOutput chunk now => deliverOutput h chunk now
  | OpIdle now => expireIdle h now
  | OpRead id env read => (readClientMessage h id env read).1
  | OpWrite id f => (onWriter h id (fun w => writeFrame w f)).1
  | OpTerminate reason => h <| sess ::= fun s => terminateWithReason s reason |>
  | OpExit err => (exitSession h err).1
  | OpCleanUp order => cleanUpSession h order
  end.

(** Connections are new objects; [waitForExit] cleans up after the session finished. *)
Definition session_enabled h (op : SessionOp) : Prop :=
  match op with
  | OpConnect id _ => writers h !! id = None
  | OpCleanUp _ => SessionLifecycle.done (lifecycle (sess h)) = true
  | _ => True
  end.

(** The output a session keeps: what arrived since the last attachment, or since the
    session started, while nobody was attached. *)
Definition keep h (chunk kept : bytes) : bytes :=
  if acceptsOutput (lifecycle (sess h)) && bool_decide (client (sess h) = None) then kept ++ chunk else kept.

Definition kept_after h (op : SessionOp) (kept : bytes) : bytes :=
  match op with
  | OpAttach id now | OpAttachV1 id _ _ now => if (beginAttachLocked (sess h) id now).2 then [] else kept
  | OpOutput chunk _ => keep h chunk kept
  | OpIdle _ => keep h idleMessage kept
  | _ => kept
  end.

Inductive session_run h0 kept0 : Scene → bytes → Prop :=
  | run_start : session_run h0 kept0 h0 kept0
  | run_step h kept op :
      session_run h0 kept0 h kept → session_enabled h op →
      session_run h0 kept0 (session_step h op) (kept_after h op kept).

Record scene_ok h kept : Prop := {
  scene_session : session_ok (sess h);
  scene_kept : holds (replay (sess h)) kept;
  scene_attached : is_Some (client (sess h)) → kept = [];
}.

Lemma drain_spec b now b' out complete kept :
  holds b kept → drainWithStatus b now = (b', (out, complete)) →
  holds b' [] ∧ concat out `suffix_of` kept ∧ (complete = true → concat out = kept) ∧
  (0 < maxBytes b → len (concat out) <= maxBytes b) ∧ maxBytes b' = maxBytes b ∧ maxAge b' = maxAge b.
Proof.
  intros Hh Hd. destruct (pruneExpired_wf b now (proj1 Hh)) as (_ & Hm & Ha).
  pose proof (pruneExpired_holds _ now _ Hh) as ([Hc [_ Hl] Hdis] & Hsuf & Hfull).
  unfold drainWithStatus in Hd. simplify_eq. unfold snapshot. fold (content (ReplayBuffer.entries (pruneExpired b now))).
  split_and!; auto.
  - split_and!; [split; simpl; [done|lia|done]|done|done].
  - by intros Ht%negb_true_iff; auto.
  - rewrite Hm, Hc in Hl. lia.
Qed.

(** The scene between the attachment and the writes of [attach]. *)
Lemma attached_scene h kept id s b now out complete :
  scene_ok h kept → attached_as (sess h) id s → drainWithStatus (replay s) now = (b, (out, complete)) →
  scene_ok (h <| sess := s <| replay := b |> |>) [].
Proof.
  intros [Hs Hk _] Ha Hd. rewrite (as_replay _ _ _ Ha) in Hd.
  destruct (drain_spec _ _ _ _ _ _ Hk Hd) as (Hb & _ & _ & _ & Hm & Hg). split; simpl; [|done|done].
  apply (attached_ok ((sess h) <| replay := b |>) id).
  - destruct Hs as [Hstarted Hconn Hdet Hdone Hatt Htim Hdtim Hitim Harep Hrep Hman Hres Hexit].
    split; simpl; rewrite ?Hm, ?Hg; auto.
  - done.
  - by destruct Ha; split.
Qed.

Lemma append_bounds b now d :
  maxBytes (ReplayBuffer.append b now d) = maxBytes b ∧ maxAge (ReplayBuffer.append b now d) = maxAge b.
Proof. unfold ReplayBuffer.append, pruneExpired. by repeat (case_match; simplify_eq/=). Qed.

Lemma keep_ok h kept chunk now : scene_ok h kept → scene_ok (deliverOutput h chunk now) (keep h chunk kept).
Proof.
  intros [Hs Hk Ha]. unfold deliverOutput, keep. destruct (acceptsOutput (lifecycle (sess h))) eqn:Hacc; [|by split].
  simpl. destruct (client (sess h)) as [id|] eqn:Hc.
  - rewrite bool_decide_eq_false_2 by done. split; rewrite onWriter_sess1; simpl; rewrite ?Hc; auto.
    eapply keeps_ok; [exact Hs|]. by split; auto.
  - rewrite bool_decide_eq_true_2 by done. split; simpl; rewrite ?Hc; [|by apply append_holds|by intros [? ?]].
    destruct (append_bounds (replay (sess h)) now chunk) as [Hm Hg].
    destruct Hs as [Hstarted Hconn Hdet Hdone Hatt Htim Hdtim Hitim Harep Hrep Hman Hres Hexit].
    split; simpl; rewrite ?Hc, ?Hm, ?Hg in *; auto; by intros [? ?].
Qed.

Lemma sess_ok h h' kept :
  keeps (sess h) (sess h') → scene_ok h kept → scene_ok h' kept.
Proof.
  intros Hk [Hs Hr Ha]. split; [by eapply keeps_ok|by rewrite (keeps_replay _ _ Hk)|].
  by rewrite (keeps_client _ _ Hk).
Qed.

Lemma terminate_scene h kept reason :
  scene_ok h kept → scene_ok (h <| sess ::= fun s => terminateWithReason s reason |>) kept.
Proof.
  intros [Hs Hr Ha]. split; simpl; [by apply terminate_ok| |];
    unfold terminateWithReason; destruct (beginEnding _) as [l []]; by simpl.
Qed.

Lemma attach_scene h kept id now :
  scene_ok h kept → scene_ok (attach h id now).1 (kept_after h (OpAttach id now) kept).
Proof.
  intros Hok. unfold attach. simpl kept_after. destruct (beginAttachLocked (sess h) id now) as [s ok] eqn:Hb.
  apply beginAttach_spec in Hb. destruct ok; cbn [negb snd].
  - unfold drain. destruct (drainWithStatus (replay s) now) as [b [out complete]] eqn:Hd.
    eapply (attached_scene h) in Hd; [|done..].
    destruct (onWriter _ id _) as [h' [u|e]] eqn:Hw; (eapply sess_ok; [|exact Hd]);
      apply onWriter_sess in Hw; cbn [fst]; rewrite Hw; apply keeps_refl.
  - subst s. by destruct Hok.
Qed.

Lemma attachV1_scene h kept id request created now :
  scene_ok h kept → scene_ok (attachProtocolV1 h id request created now).1 (kept_after h (OpAttachV1 id request created now) kept).
Proof.
  intros Hok. unfold attachProtocolV1. simpl kept_after.
  destruct (beginAttachLocked (sess h) id now) as [s ok] eqn:Hb. apply beginAttach_spec in Hb. destruct ok; cbn [negb snd].
  - destruct (drainWithStatus (replay s) now) as [b [out complete]] eqn:Hd. eapply (attached_scene h) in Hd; [|done..].
    destruct (onWriter _ id _) as [h' [u|e]] eqn:Hw;
      [destruct (onWriter h' id _) as [h2 r2] eqn:Hw2|]; (eapply sess_ok; [|exact Hd]);
      apply onWriter_sess in Hw; cbn [fst]; [apply onWriter_sess in Hw2; rewrite Hw2|]; rewrite Hw; apply keeps_refl.
  - subst s. by destruct Hok.
Qed.

Lemma exit_scene h kept err : scene_ok h kept → scene_ok (exitSession h err).1 kept.
Proof.
  intros [Hs Hr Ha]. unfold exitSession. destruct (finish (lifecycle (sess h)) _) as [l []] eqn:Hf.
  - set (s' := logEvent _ _ _ _).
    assert (scene_ok (h <| sess := s' |>) kept) as Hok.
    { split; simpl; [|done|by intros [? ?]]. by eapply finish_ok. }
    change (client (stopTimers _)) with (client (sess h)). destruct (client (sess h)) as [id|]; [|exact Hok].
    destruct (onWriter _ id _) as [h' r] eqn:Hw. simpl. eapply sess_ok; [|exact Hok].
    rewrite onWriter_sess1. apply onWriter_sess in Hw. rewrite Hw. apply keeps_refl.
  - cbn [fst]. rewrite set_lifecycle_same; [by destruct h|]. by apply (refused_transition _ _ (LFinish (bool_decide (is_Some err)))).
Qed.

(** What cleaning up changes. *)
Record cleaned s s' : Prop := {
  cl_client : client s' = client s;
  cl_lifecycle : lifecycle s' = lifecycle s;
  cl_replay : replay s' = replay s;
  cl_timers : detachTimer s' = detachTimer s ∧ idleTimer s' = idleTimer s;
  cl_closed : resourcesClosed s' = true ∧ attachmentsClosed s' = true ∧ exited s' = true;
  cl_prompts : promptActions s' = PromptAction.Close (promptActions s);
  cl_identity : protocolSessionID s' = protocolSessionID s ∧ generation s' = generation s;
  cl_manager : (is_Some (attachmentManager s) → is_Some (staging s)) →
    is_Some (attachmentManager s') → is_Some (staging s');
}.

Lemma closeManager_sess h order h' r :
  closeAttachmentManager h order = (h', r) →
  ∃ m st, sess h' = (sess h) <| attachmentsClosed := true |> <| attachmentManager := m |> <| staging := st |> ∧
    ((is_Some (attachmentManager (sess h)) → is_Some (staging (sess h))) → is_Some m → is_Some st) ∧
    (r = Ok tt → m = None).
Proof.
  unfold closeAttachmentManager. set (h1 := h <| sess ::= _ |>).
  assert (attachmentManager (sess h) = attachmentManager (sess h1)) as -> by done.
  assert (staging (sess h) = staging (sess h1)) as -> by done.
  destruct (attachmentManager (sess h1)) as [m|] eqn:Hm.
  - unfold onManager. rewrite Hm. destruct (staging (sess h1)) as [st|] eqn:Hst.
    + destruct (Transfer.Close _ order) as [w [u|e]]; intros [= <- <-]; eexists _, _;
        (split_and!; [reflexivity|eauto|done]).
    + intros [= <- <-]. exists (Some m), None. split_and!; [by rewrite <- Hm, <- Hst|naive_solver|done].
  - intros [= <- <-]. exists None, (staging (sess h1)). split_and!; [by rewrite <- Hm|by intros _ [? ?]|done].
Qed.

Lemma cleanUp_cleaned h order : cleaned (sess h) (sess (cleanUpSession h order)).
Proof.
  unfold cleanUpSession. set (h0 := h <| sess ::= _ |>).
  destruct (closeAttachmentManager h0 order) as [h1 closed] eqn:Hc.
  apply closeManager_sess in Hc as (m & st & Hs & Hms & _). simpl in Hs, Hms.
  set (reason := if bool_decide _ then _ else _).
  assert (∀ h2 r (st' : option SessionStaging), sess h2 = (sess h1) <| staging := st' |> → (is_Some st → is_Some st') →
    cleaned (sess h) (sess ((if is_ok closed && is_ok (r : result unit) then h2
      else h2 <| sess ::= fun s => logEvent s EventSessionCleanupFailed reason OutcomeFailure |>)
      <| sess ::= fun s => s <| exited := true |> |>))) as Hfinal.
  { intros h2 r st' H2 Hst'. rewrite Hs in H2.
    destruct (is_ok closed && is_ok r); split; simpl; rewrite ?H2; simpl; auto. }
  assert (∀ r, cleaned (sess h) (sess ((if is_ok closed && is_ok (r : result unit) then h1
      else h1 <| sess ::= fun s => logEvent s EventSessionCleanupFailed reason OutcomeFailure |>)
      <| sess ::= fun s => s <| exited := true |> |>))) as Hsame.
  { intros r. apply (Hfinal h1 r st); [|done]. by rewrite Hs. }
  destruct closed as [u|e]; [|apply Hsame].
  destruct (staging (sess h1)) as [st1|]; [|apply Hsame].
  destruct (Cleanup (disk h1) st1) as [[d st2] r]. apply (Hfinal _ r (Some st2)); [done|]. eauto.
Qed.

Lemma cleanUp_ok s s' : session_ok s → SessionLifecycle.done (lifecycle s) = true → cleaned s s' → session_ok s'.
Proof.
  intros [Hstarted Hconn Hdet Hdone Hatt Htim Hdtim Hitim Harep Hrep Hman Hres Hexit] Hd
    [Hc Hl Hr [Ht Hi] (Hrc & Hac & Hx) _ _ Hm].
  rewrite ending_state, done_state in *.
  split; rewrite ?ending_state, ?done_state, ?Hc, ?Hl, ?Hr, ?Ht, ?Hi, ?Hrc, ?Hac, ?Hx in *;
    destruct (state (lifecycle s)); try done; auto.
Qed.

Lemma session_step_ok h kept op :
  scene_ok h kept → session_enabled h op → scene_ok (session_step h op) (kept_after h op kept).
Proof.
  intros Hok He. destruct op; simpl session_step.
  - by destruct Hok; split.
  - by apply attach_scene.
  - by apply attachV1_scene.
  - unfold detach. destruct (writers h !! id) as [w|]; [|done].
    destruct (detachSession (sess h) id w timeout now) as [s b] eqn:Hd. destruct Hok as [Hs Hk Ha].
    split; simpl; [by eapply detach_ok| |];
      apply detach_spec in Hd as [[-> _]|(_ & Hc & Hr & _)]; rewrite ?Hr, ?Hc; done.
  - by apply keep_ok.
  - unfold expireIdle. apply terminate_scene. by apply (keep_ok _ _ idleMessage).
  - destruct (readClientMessage h id env read) as [h' b] eqn:Hr.
    apply readClientMessage_served in Hr as (s & Hk & [Hs|Hs]).
    + eapply sess_ok; [|done]. simpl. by rewrite Hs.
    + pose proof (terminate_scene _ _ ReasonExplicitEnd (sess_ok h (h <| sess := s |>) kept Hk Hok)) as Hend.
      eapply sess_ok; [|exact Hend]. simpl. rewrite Hs. apply keeps_refl.
  - eapply sess_ok; [|done]. rewrite onWriter_sess1. apply keeps_refl.
  - by apply terminate_scene.
  - by apply exit_scene.
  - pose proof (cleanUp_cleaned h order) as Hc. destruct Hok as [Hs Hk Ha]. split.
    + by eapply cleanUp_ok.
    + by rewrite (cl_replay _ _ Hc).
    + by rewrite (cl_client _ _ Hc).
Qed.

Lemma session_run_ok h0 kept0 h kept : scene_ok h0 kept0 → session_run h0 kept0 h kept → scene_ok h kept.
Proof. intros H0. induction 1; [done|by apply session_step_ok]. Qed.

Lemma new_session_ok cmd h : new_session cmd (sess h) → scene_ok h (banner cmd).
Proof.
  intros [(t & idle & now & stg & c & adapter & root & directory & id & g & Hs)].
  pose proof (append_holds _ now (banner cmd) _ (newReplayBuffer_holds maxBufferedOutputBytes bufferedOutputMaxAge)) as Hh.
  destruct (append_bounds (newReplayBuffer maxBufferedOutputBytes bufferedOutputMaxAge) now (banner cmd)) as [Hm Hg].
  assert (∀ s, s = newPTYSession cmd t idle now stg c → session_ok s ∧ holds (replay s) (banner cmd) ∧ client s = None) as Hnew.
  { intros s ->. unfold newPTYSession, resetIdleTimer, resetIdleTimerLocked. simpl. rewrite !orb_false_r.
    destruct (idle <=? 0) eqn:Hi; (split_and!; [|exact Hh|done]); split; simpl; try done; try by intros [? ?].
    - intros _. split; [by intros [? ?]|lia].
    - intros _. split; [lia|eauto]. }
  destruct (Hnew _ eq_refl) as (Hok & Hr & Hc).
  split; rewrite Hs; [by destruct Hok; split|exact Hr|]. intros [x Hx].
  change (client (newPTYSession cmd t idle now stg c) = Some x) in Hx. congruence.
Qed.

(** C30: in every run of a new session its state is well formed: a client is attached
    exactly while the state says so, timers run only while they may fire, resources
    and attachments are closed when the session ends, and the replay buffer holds a
    suffix of what arrived while nobody was attached, all of it unless marked. *)
Theorem session_well_formed cmd h0 h kept :
  new_session cmd (sess h0) → session_run h0 (banner cmd) h kept → session_ok (sess h) ∧ holds (replay (sess h)) kept.
Proof. intros Hn Hr. by destruct (session_run_ok _ _ _ _ (new_session_ok _ _ Hn) Hr). Qed.
End Runs.
