(* ===== verification/SessionBehaviour.v ===== *)
(** * What a terminal session promises its clients

    A client that attaches is told how its history continues and is sent the kept
    output; input that is acknowledged has been typed; when the process exits the
    client is told and everything the session holds is closed. *)

From S2P Require Import Prelude.
From S2P Require Import Envelope.
From S2P Require Import Negotiation.
From S2P Require Import Stream.
From S2P Require Import StreamFacts.
From S2P Require Import ReplayBuffer.
From S2P Require Import SessionLifecycle.
From S2P Require Import ContentPolicy.
From S2P Require Import Aggregate.
From S2P Require Import Transfer.
From S2P Require Import Workspace.
From S2P Require Import StagingSession.
From S2P Require Import ToolAdapter.
From S2P Require Import PromptAction.
From S2P Require Import AgentLog.
From S2P Require Import WebsocketWriter.
From S2P Require Import TerminalSession.
From S2P Require Import SessionServer.
From S2P Require Import TerminalSessionFacts.
From S2P Require Import SessionRuns.

Section Behaviour.
Context {codec : ProtoCodec} {D : Type} {ops : StagingOps D} {fs : FileSystem D} {gm : GoMime} {json : ClientJson}.
Notation Scene := (@Scene D).
Implicit Types (h : Scene) (s : ptySession) (w : websocketWriter) (st : AgentStream) (kept : bytes).

(** ** Attaching *)

(** A frame carries the payload in the envelope the stream sends next. *)
Definition carries_payload st (b : bytes) (p : Payload) : Prop :=
  ∃ t, marshalLocked st (outboundEnvelope st p t) = Ok b.

Lemma sendEncoded_Ok w st encode p w' :
  protocolV1 w = Some st → (∀ st t, encode st t = encodeLocked st p t ∨ ∃ e, encode st t = (st, Err e)) →
  sendEncoded w encode = (w', Ok tt) →
  ∃ b, carries_payload st b p ∧ protocolV1 w' = Some (bump st) ∧
    written (conn w') = written (conn w) ++ [BinaryMessage b].
Proof.
  intros Hp Henc Hrun. destruct (sendEncoded_spec _ _ _ _ _ Hp Hrun) as (t & st' & r & He & Hp' & b & -> & Hw).
  destruct (Henc st t) as [Heq|[e Heq]]; rewrite Heq in He; [|done].
  apply encodeLocked_spec in He as [Hm ->]. exists b. split_and!; [by exists t|done|done].
Qed.

(** The stream after a client message was committed. *)
Lemma commitClient_Ok w m w' :
  commitClient w m = (w', Ok tt) →
  ∃ st st', protocolV1 w = Some st ∧ w' = w <| protocolV1 := Some st' |> ∧
    nextOutbound st' = nextOutbound st ∧ highestInbound st' = Msg_Sequence m ∧ connectionID st' = connectionID st.
Proof.
  unfold commitClient, onStream. destruct (protocolV1 w) as [st|]; [|done].
  unfold CommitClientMessage. destruct (negb _); [done|]. intros [= <-].
  eexists st, _. split_and!; [done|reflexivity|..]; by case_bool_decide.
Qed.

Lemma commitAttach_Ok w request id g d w' :
  commitProtocolV1Attach w request id g d = (w', Ok tt) →
  ∃ st b, carries_payload st b (Payload_SessionStatus d) ∧ protocolV1 w' = Some (bump st) ∧
    sessionID st = id ∧ sessionGeneration st = g ∧ highestInbound st = Msg_Sequence request ∧
    written (conn w') = written (conn w) ++ [BinaryMessage b].
Proof.
  unfold commitProtocolV1Attach. destruct (commitClient w request) as [w1 [[]|e]] eqn:Hc; [|done].
  apply commitClient_Ok in Hc as (st0 & st1 & Hp & -> & _ & Hin & _). unfold onStream at 1. simpl.
  destruct (BindSession st1 id g) as [st2 [[]|e]] eqn:Hb; [|done]. intros Hs.
  assert (sessionID st2 = id ∧ sessionGeneration st2 = g ∧ highestInbound st2 = Msg_Sequence request) as (H1 & H2 & H3).
  { unfold BindSession in Hb.
    destruct (sessionResume st1); [|done]. destruct (sessionBound st1); [done|]. simpl in Hb.
    destruct (highestInbound st1 <? 2); [done|]. destruct (_ || _); [done|]. by injection Hb as <-. }
  clear Hb. apply (sendEncoded_Ok _ st2 _ (Payload_SessionStatus d)) in Hs as (b & Hb' & Hp' & Hw); [|done|].
  - by exists st2, b.
  - intros st t. unfold EncodeSessionStatus. destruct (_ || _); [eauto|]. destruct d; eauto.
Qed.

Lemma writeBuffered_Ok w st buffered w' :
  protocolV1 w = Some st → writeBuffered w buffered = (w', Ok tt) →
  ∃ frames chunks st', sends_output st frames chunks st' ∧ concat chunks = concat buffered ∧
    protocolV1 w' = Some st' ∧ written (conn w') = written (conn w) ++ map BinaryMessage frames.
Proof.
  revert w st. induction buffered as [|c buffered IH]; intros w st Hp Hrun; simpl in Hrun.
  - simplify_eq. exists [], [], st. rewrite app_nil_r. split_and!; [constructor|done..].
  - destruct (writeBinary w c) as [w1 [[]|e]] eqn:Hw; [|done].
    apply (writeBinary_stream _ _ _ _ _ Hp) in Hw as [(f1 & c1 & st1 & Hs1 & _ & Hw1 & Hp1 & Hc1) _].
    destruct (IH _ _ Hp1 Hrun) as (f2 & c2 & st2 & Hs2 & Hc2 & Hp2 & Hw2).
    exists (f1 ++ f2), (c1 ++ c2), st2. split_and!; [by eapply sends_app| |done|].
    + by rewrite concat_app, Hc1, Hc2.
    + by rewrite Hw2, Hw1, map_app, <- app_assoc.
Qed.

Lemma onWriter_Ok {A} h id (f : websocketWriter → websocketWriter * result A) h' r :
  onWriter h id f = (h', Ok r) →
  ∃ w w', writers h !! id = Some w ∧ f w = (w', Ok r) ∧ h' = h <| writers ::= insert id w' |>.
Proof.
  unfold onWriter. destruct (writers h !! id) as [w|]; [|done]. destruct (f w) as [w' r'] eqn:Hf.
  intros [= <- ->]. eauto.
Qed.

(** The request carries the identity and the cursor of a session that can be resumed. *)
Definition resumable s (request : ClientStreamMessage) : Prop :=
  Msg_SessionID request = protocolSessionID s ∧ Msg_SessionGeneration request = generation s ∧
  resumeCheckpoint s = true ∧ Msg_LastAcknowledgedSequence request = lastDetachedOutput s.

Lemma resumeDisposition_RESUMED s request created complete :
  resumeDispositionLocked s request created complete = RESUME_DISPOSITION_RESUMED ↔
  created = false ∧ complete = true ∧ resumable s request.
Proof.
  unfold resumeDispositionLocked, resumable. destruct created; simpl.
  - destruct (_ && _); split; try done; naive_solver.
  - case_match eqn:Hc; split; try done.
    + intros _. split_bool. split_and!; try done; lia.
    + intros (_ & Hcomp & Hi & Hg & Hk & Ha).
      by rewrite Hcomp, Hk, Hg, Ha, !Z.eqb_refl, bool_decide_eq_true_2 in Hc.
Qed.

Lemma resumeDisposition_FRESH s request created complete :
  resumeDispositionLocked s request created complete = RESUME_DISPOSITION_FRESH ↔
  created = true ∧ Msg_SessionID request = [] ∧ Msg_SessionGeneration request = 0 ∧
  Msg_LastAcknowledgedSequence request = 0.
Proof.
  unfold resumeDispositionLocked. destruct created; simpl.
  - destruct (_ && _) eqn:Hc; split; try done.
    + intros _. split_bool. split_and!; [done|by apply len_zero|lia|lia].
    + intros (_ & Hi & Hg & Ha). rewrite Hi in Hc. simpl in Hc. lia.
  - case_match; split; try done; naive_solver.
Qed.


(** ** Input *)

Lemma writeInputLoop_typed fuel t input t' r :
  (length input <= fuel)%nat → writeInputLoop fuel t input = (t', r) →
  ∃ part, typed t' = typed t ++ part ∧ part `prefix_of` input ∧ (r = Ok tt → part = input).
Proof.
  revert t input. induction fuel as [|fuel IH]; intros t [|x input] Hf Hrun; simpl in Hf; try lia.
  { simpl in Hrun. simplify_eq. exists []. by rewrite app_nil_r. }
  { simpl in Hrun. simplify_eq. exists []. by rewrite app_nil_r. }
  cbn [writeInputLoop] in Hrun. unfold Terminal_Write in Hrun.
  destruct (write_answer t (term_writes t)) as [n [e|]].
  { simplify_eq. exists (take (Z.to_nat n) (x :: input)). split_and!; [done|apply prefix_take|done]. }
  destruct (_ || _) eqn:Hn.
  { simplify_eq. exists (take (Z.to_nat n) (x :: input)). split_and!; [done|apply prefix_take|done]. }
  split_bool. apply IH in Hrun as (part & Ht & Hpre & Hok).
  - exists (take (Z.to_nat n) (x :: input) ++ part). split_and!.
    + rewrite Ht. simpl. by rewrite <- app_assoc.
    + rewrite <- (take_drop (Z.to_nat n) (x :: input)) at 2. by apply prefix_app.
    + intros Hr. rewrite Hok by done. apply take_drop.
  - rewrite length_drop. simpl. lia.
Qed.

Lemma writeInputBytes_typed s now input s' r :
  writeInputBytes s now input = (s', r) →
  ∃ part, typed (term s') = typed (term s) ++ part ∧ part `prefix_of` input ∧ (r = Ok tt → part = input).
Proof.
  unfold writeInputBytes. destruct (writeInputLoop _ _ _) as [t r1] eqn:Hl.
  apply writeInputLoop_typed in Hl as (part & Ht & Hp & Hok); [|done].
  destruct r1 as [[]|e]; intros [= <- <-]; exists part; (split_and!; [|done|done]); [|done].
  unfold resetIdleTimer, resetIdleTimerLocked. by destruct (_ || _).
Qed.

(** C27: what a terminal input message does: some beginning of its bytes is typed and
    nothing else; when the loop goes on they were all typed, and the client was sent
    exactly one frame, which acknowledges the message. *)
Theorem acknowledged_input_was_typed h id env message h' more :
  Msg_Kind message = ClientStreamMessageTerminalInput → handleStreamMessage h id env message = (h', more) →
  ∃ part, typed (term (sess h')) = typed (term (sess h)) ++ part ∧ part `prefix_of` Msg_Data message ∧
    (more = true → part = Msg_Data message ∧
      ∃ w w' st b, writers h !! id = Some w ∧ writers h' !! id = Some w' ∧
        written (conn w') = written (conn w) ++ [BinaryMessage b] ∧
        carries_payload st b Payload_Acknowledgement ∧ highestInbound st = Msg_Sequence message).
Proof.
  intros Hkind. unfold handleStreamMessage, onSession. rewrite Hkind.
  destruct (writeInputBytes _ _ _) as [s r] eqn:Hw. apply writeInputBytes_typed in Hw as (part & Ht & Hp & Hok).
  destruct r as [[]|e].
  - unfold commitMessage, proceed. destruct (onWriter _ id _) as [h1 r1] eqn:H1. intros [= <- <-].
    exists part. split_and!; [|done|].
    { apply onWriter_sess in H1. by rewrite H1. }
    destruct r1 as [[]|e]; [|done]. intros _. split; [auto|].
    apply onWriter_Ok in H1 as (w & w1 & Hwr & Hc & ->). unfold commitProtocolV1ClientMessage in Hc.
    destruct (commitClient w message) as [w0 [[]|e]] eqn:H0; [|done].
    apply commitClient_Ok in H0 as (st & st' & Hpr & -> & _ & Hin & _). simpl in Hc.
    apply (sendEncoded_Ok _ st' _ Payload_Acknowledgement) in Hc as (b & Hb & _ & Hwb); [|done|by left].
    exists w, w1, st', b. simpl. rewrite lookup_insert_eq. by split_and!.
  - unfold failWith. intros [= <- <-]. exists part. rewrite onWriter_sess1. by split_and!.
Qed.

(** ** The end *)

(** The frame that tells of the end, in the negotiated form. *)
Definition exit_frame w (outcome : ProcessExitOutcome) (message : string) (f : Frame) : Prop :=
  match protocolV1 w with
  | Some st =>
      if UsesSessionProcessExit st then ∃ b, f = BinaryMessage b ∧ carries_payload st b (Payload_ProcessExit outcome)
      else f = JSONMessage "exit" message
  | None => f = JSONMessage "exit" message
  end.

(** A writer that was told of the exit and closed; each write may fail. *)
Definition told_exit w (outcome : ProcessExitOutcome) (message : string) w' : Prop :=
  ∃ exits closes, written (conn w') = written (conn w) ++ exits ++ closes ∧
    (exits = [] ∨ ∃ f, exits = [f] ∧ exit_frame w outcome message f) ∧
    (closes = [] ∨ closes = [CloseMessage CloseNormalClosure "session ended"]) ∧
    ((∀ n, conn_fault (conn w) n = None) →
      closes ≠ [] ∧ (usesStream w UsesSessionProcessExit = false → exits ≠ [])).

Lemma writeFrame_fault w f w' r :
  writeFrame w f = (w', r) → (∀ n, conn_fault (conn w) n = None) → r = Ok tt.
Proof. unfold writeFrame, WriteFrame. intros Hrun Hf. rewrite Hf in Hrun. by simplify_eq. Qed.

Lemma writeClose_spec w :
  ∃ closes, written (conn (writeClose w)) = written (conn w) ++ closes ∧
    (closes = [] ∨ closes = [CloseMessage CloseNormalClosure "session ended"]) ∧
    ((∀ n, conn_fault (conn w) n = None) → closes ≠ []).
Proof.
  unfold writeClose. destruct (writeFrame w _) as [w' r] eqn:Hw. pose proof (writeFrame_fault _ _ _ _ Hw) as Hf.
  apply writeFrame_spec in Hw as (_ & _ & _ & _ & Hwr). destruct r as [u|e]; simpl; rewrite Hwr.
  - eexists. split_and!; [done|by right|done].
  - exists []. rewrite app_nil_r. split_and!; [done|by left|]. by intros Hno%Hf.
Qed.

Lemma writeProcessExit_spec w outcome message w' r :
  outcome = PROCESS_EXIT_OUTCOME_SUCCESS ∨ outcome = PROCESS_EXIT_OUTCOME_FAILURE →
  writeProcessExit w outcome message = (w', r) →
  ∃ exits, written (conn w') = written (conn w) ++ exits ∧ conn_fault (conn w') = conn_fault (conn w) ∧
    (exits = [] ∨ ∃ f, exits = [f] ∧ exit_frame w outcome message f) ∧
    ((∀ n, conn_fault (conn w) n = None) → usesStream w UsesSessionProcessExit = false → exits ≠ []).
Proof.
  intros Ho. unfold writeProcessExit, exit_frame, usesStream. destruct (protocolV1 w) as [st|] eqn:Hp; simpl;
    [destruct (UsesSessionProcessExit st) eqn:Hu|]; intros Hrun.
  2,3: pose proof (writeFrame_fault _ _ _ _ Hrun) as Hf; apply writeFrame_spec in Hrun as (_ & _ & _ & Hfl & Hwr);
    destruct r as [u|e]; rewrite Hwr; [eexists; split_and!; [done|done|right; eauto|done]|
      exists []; rewrite app_nil_r; split_and!; [done|done|by left|by intros Hno%Hf]].
  assert (conn_fault (conn w') = conn_fault (conn w)) as Hfl.
  { revert Hrun. unfold sendEncoded, currentTime, onStream. simpl. rewrite Hp.
    destruct (EncodeProcessExit st outcome _) as [st' [b|e]]; [|by intros [= <- <-]].
    by intros (_ & _ & _ & Hfl & _)%writeFrame_spec. }
  destruct r as [[]|e].
  - apply (sendEncoded_Ok _ st _ (Payload_ProcessExit outcome)) in Hrun as (b & Hb & _ & Hw); [|done|].
    + eexists. split_and!; [done|done|right; eauto|done].
    + intros st1 t. unfold EncodeProcessExit. destruct (negb _); [eauto|]. destruct (unbound _); [eauto|].
      destruct Ho as [-> | ->]; by left.
  - destruct (sendEncoded_spec _ _ _ _ _ Hp Hrun) as (t & st' & r & _ & _ & Hw).
    exists []. rewrite app_nil_r. split_and!; [done|done|by left|done].
Qed.

Definition exitOutcome s (err : option error) : ProcessExitOutcome :=
  if negb (ending s) && bool_decide (is_Some err) then PROCESS_EXIT_OUTCOME_FAILURE else PROCESS_EXIT_OUTCOME_SUCCESS.

Definition exitMessage (err : option error) : string := from_option errorMessage "process exited"%string err.

Lemma exitSession_told h err h' :
  SessionLifecycle.done (lifecycle (sess h)) = false → session_ok (sess h) → exitSession h err = (h', true) →
  SessionLifecycle.done (lifecycle (sess h')) = true ∧
  (state (lifecycle (sess h')) = sessionStateFailed ↔ exitOutcome (sess h) err = PROCESS_EXIT_OUTCOME_FAILURE) ∧
  client (sess h') = None ∧ detachTimer (sess h') = None ∧ idleTimer (sess h') = None ∧
  promptActions (sess h') = promptActions (sess h) ∧
  ∀ id w, client (sess h) = Some id → writers h !! id = Some w →
    ∃ w', writers h' !! id = Some w' ∧ told_exit w (exitOutcome (sess h) err) (exitMessage err) w'.
Proof.
  intros Hd Hok. unfold exitSession.
  destruct (finish (lifecycle (sess h)) (bool_decide (is_Some err))) as [l []] eqn:Hf; [|done].
  assert (SessionLifecycle.done l = true ∧
    (state l = sessionStateFailed ↔ exitOutcome (sess h) err = PROCESS_EXIT_OUTCOME_FAILURE)) as [Hdl Hst].
  { unfold exitOutcome. rewrite ending_state. pose proof (ok_started _ Hok) as Hs.
    destruct (bool_decide (is_Some err)); destruct (lifecycle (sess h)) as [[]]; try done;
      injection Hf as <-; simpl; (split; [reflexivity|split; done]). }
  assert ((if bool_decide (state l = sessionStateFailed) then PROCESS_EXIT_OUTCOME_FAILURE
    else PROCESS_EXIT_OUTCOME_SUCCESS) = exitOutcome (sess h) err) as Ho.
  { destruct (decide (state l = sessionStateFailed)) as [Hl|Hl];
      [rewrite bool_decide_eq_true_2 by done; by rewrite (proj1 Hst Hl)|rewrite bool_decide_eq_false_2 by done].
    unfold exitOutcome in *. destruct (_ && _); [|done]. by destruct Hl; apply Hst. }
  set (s' := logEvent _ _ _ _).
  change (client (stopTimers _)) with (client (sess h)).
  change (state (lifecycle (stopTimers _))) with (state l). rewrite Ho.
  destruct (client (sess h)) as [id|].
  - destruct (onWriter _ id _) as [h1 r1] eqn:H1. destruct (onWriter h1 id _) as [h2 r2] eqn:H2. intros [= <-].
    pose proof (onWriter_sess _ _ _ _ _ H1) as Hs1. pose proof (onWriter_sess _ _ _ _ _ H2) as Hs2.
    cbn [fst]. rewrite Hs2, Hs1. split_and!; try done. intros ? w [= <-] Hw.
    unfold onWriter in H1. simpl in H1. rewrite Hw in H1.
    destruct (writeProcessExit w _ _) as [w1 r] eqn:Hpe. simplify_eq.
    apply writeProcessExit_spec in Hpe as (exits & Hw1 & Hfl & Hex & Hall);
      [|unfold exitOutcome; destruct (_ && _); auto].
    unfold onWriter in H2. simpl in H2. rewrite lookup_insert_eq in H2. simplify_eq. simpl.
    rewrite lookup_insert_eq. eexists. split; [done|].
    destruct (writeClose_spec w1) as (closes & Hwc & Hcl & Hcf). exists exits, closes.
    rewrite Hwc, Hw1, <- app_assoc. split_and!; try done. intros Hno. split; [|by apply Hall].
    apply Hcf. by rewrite Hfl.
  - intros [= <-]. by split_and!.
Qed.

Lemma terminate_done s reason :
  SessionLifecycle.done (lifecycle s) = true → lifecycle (terminateWithReason s reason) = lifecycle s.
Proof.
  rewrite done_state. intros Hd. unfold terminateWithReason. by destruct (lifecycle s) as [[]].
Qed.

(** A session that is done stays so. *)
Lemma step_done h op :
  SessionLifecycle.done (lifecycle (sess h)) = true →
  lifecycle (sess (session_step h op)) = lifecycle (sess h).
Proof.
  intros Hd. assert (state (lifecycle (sess h)) ≠ sessionStateDetached) as Hnd.
  { intros Hst. rewrite done_state, Hst in Hd. done. }
  assert (∀ chunk now, deliverOutput h chunk now = h) as Hout.
  { intros. unfold deliverOutput. rewrite done_state in Hd. by destruct (lifecycle (sess h)) as [[]]. }
  destruct op; simpl session_step; try done.
  - unfold attach. destruct (beginAttachLocked (sess h) id now) as [s ok] eqn:Hb.
    apply beginAttach_spec in Hb. destruct ok; [by destruct (as_before _ _ _ Hb)|]. by subst s.
  - unfold attachProtocolV1. destruct (beginAttachLocked (sess h) id now) as [s ok] eqn:Hb.
    apply beginAttach_spec in Hb. destruct ok; [by destruct (as_before _ _ _ Hb)|]. by subst s.
  - unfold detach. destruct (writers h !! id) as [w|]; [|done].
    destruct (detachSession _ _ _ _ _) as [s b] eqn:Hs. simpl.
    apply detach_spec in Hs as [[-> _]|Hs]; [done|].
    destruct Hs as (_ & _ & _ & _ & _ & _ & _ & _ & _ & _ & _ & _ & _ & _ & _ & Hs).
    rewrite done_state in Hd. by destruct (state (lifecycle (sess h))); destruct Hs.
  - by rewrite Hout.
  - unfold expireIdle. rewrite Hout. by apply terminate_done.
  - destruct (readClientMessage h id env read) as [h' b] eqn:Hr. simpl.
    apply readClientMessage_served in Hr as (s & Hk & [-> | ->]); [apply (keeps_lifecycle _ _ Hk)|].
    rewrite terminate_done; [apply (keeps_lifecycle _ _ Hk)|]. by rewrite (keeps_lifecycle _ _ Hk).
  - by rewrite onWriter_sess1.
  - by apply terminate_done.
  - unfold exitSession. destruct (finish (lifecycle (sess h)) _) as [l []] eqn:Hf; simpl.
    + rewrite done_state in Hd. by destruct (lifecycle (sess h)) as [[]].
    + by apply (refused_transition _ _ (LFinish (bool_decide (is_Some err)))).
  - apply (cl_lifecycle _ _ (cleanUp_cleaned h order)).
Qed.

Lemma closeManager_writers h order : writers (closeAttachmentManager h order).1 = writers h.
Proof.
  unfold closeAttachmentManager, onManager. repeat (case_match; simplify_eq/=); done.
Qed.

Lemma cleanUp_writers h order : writers (cleanUpSession h order) = writers h.
Proof.
  unfold cleanUpSession. set (h0 := h <| sess ::= _ |>).
  pose proof (closeManager_writers h0 order) as Hw. destruct (closeAttachmentManager h0 order) as [h1 closed].
  simpl in Hw. rewrite <- Hw. repeat (case_match; simplify_eq/=); done.
Qed.

End Behaviour.
