(* ===== verification/ServerRuns.v ===== *)
(** * Runs of the session server

    Requests, sessions and timers interleave; between two steps the server's mutex is
    free.  At most one session is alive and the server refers to it, sessions that
    were ever current have different generations, and the handler of a connection is
    a sequence of these steps. *)

From S2P Require Import Prelude.
From S2P Require Import Envelope.
From S2P Require Import Stream.
From S2P Require Import ReplayBuffer.
From S2P Require Import SessionLifecycle.
From S2P Require Import ContentPolicy.
From S2P Require Import Aggregate.
From S2P Require Import Transfer.
From S2P Require Import Workspace.
From S2P Require Import StagingSession.
From S2P Require Import DeviceIdentity.
From S2P Require Import PairedSession.
From S2P Require Import ToolAdapter.
From S2P Require Import PromptAction.
From S2P Require Import AgentLog.
From S2P Require Import WebsocketWriter.
From S2P Require Import TerminalSession.
From S2P Require Import SessionServer.
From S2P Require Import TerminalSessionFacts.
From S2P Require Import SessionRuns.

(** ** Sessions under the steps *)

Section Identity.
Context {codec : ProtoCodec} {D : Type} {ops : StagingOps D} {fs : FileSystem D} {gm : GoMime} {json : ClientJson}.
Notation Scene := (@Scene D).
Implicit Types (h : Scene) (s : ptySession).

(** What no step undoes. *)
Record persists s s' : Prop := {
  persists_identity : protocolSessionID s' = protocolSessionID s ∧ generation s' = generation s;
  persists_ending : ending s = true → ending s' = true;
}.

#[global] Instance persists_preorder : PreOrder persists.
Proof.
  split; [by split|]. intros s1 s2 s3 [[Hi1 Hg1] He1] [[Hi2 Hg2] He2].
  split; [split; congruence|auto].
Qed.

Lemma keeps_persists s s' : keeps s s' → persists s s'.
Proof.
  intros Hk. split; [|by rewrite (keeps_ending _ _ Hk)]. by destruct (keeps_resume _ _ Hk) as (_ & _ & ? & ?).
Qed.

Lemma terminate_persists s reason : persists s (terminateWithReason s reason).
Proof.
  unfold terminateWithReason. split; [by destruct (lifecycle s) as [[]]|].
  rewrite !ending_state. by destruct (lifecycle s) as [[]].
Qed.

Lemma terminate_ends s reason : ending (terminateWithReason s reason) = true.
Proof.
  unfold terminateWithReason. rewrite ending_state.
  destruct (lifecycle s) as [[]] eqn:Hl; simpl; by rewrite ?Hl.
Qed.

Lemma attached_persists s id s' : attached_as s id s' → persists s s'.
Proof.
  intros Ha. split; [by destruct (as_resume _ _ _ Ha) as (_ & _ & ? & ?)|].
  rewrite ending_state. by rewrite (proj2 (as_before _ _ _ Ha)).
Qed.

Lemma set_replay_persists s b : persists s (s <| replay := b |>).
Proof. by split. Qed.

Lemma output_persists h chunk now : persists (sess h) (sess (deliverOutput h chunk now)).
Proof.
  unfold deliverOutput. destruct (negb _); [done|]. cbn [sess]. destruct (client _); [|by split].
  rewrite onWriter_sess1. by split.
Qed.

(** No step of a session changes its identity or revives it. *)
Lemma step_persists h op : persists (sess h) (sess (session_step h op)).
Proof.
  destruct op; simpl session_step; try done.
  - unfold attach. destruct (beginAttachLocked (sess h) id now) as [s ok] eqn:Hb.
    apply beginAttach_spec in Hb. destruct ok; cbn [negb]; [|by subst].
    destruct (drain _ _) as [b out]. transitivity s; [by apply attached_persists in Hb|].
    destruct (onWriter _ id _) as [h1 [u|e]] eqn:Hw; apply onWriter_sess in Hw; cbn [fst];
      rewrite Hw; apply set_replay_persists.
  - unfold attachProtocolV1. destruct (beginAttachLocked (sess h) id now) as [s ok] eqn:Hb.
    apply beginAttach_spec in Hb. destruct ok; cbn [negb]; [|by subst].
    destruct (drainWithStatus _ _) as [b [out complete]]. transitivity s; [by apply attached_persists in Hb|].
    destruct (onWriter _ id _) as [h1 [u|e]] eqn:Hw; apply onWriter_sess in Hw;
      [destruct (onWriter h1 id _) as [h2 r2] eqn:Hw2; apply onWriter_sess in Hw2; cbn [fst]; rewrite Hw2|cbn [fst]];
      rewrite Hw; apply set_replay_persists.
  - unfold detach. destruct (writers h !! id) as [w|]; [|done].
    destruct (detachSession _ _ _ _ _) as [s b] eqn:Hs. cbn [fst sess]. simpl.
    apply detach_spec in Hs as [[-> _]|(_ & _ & _ & _ & _ & _ & _ & _ & _ & _ & _ & Hi & Hg & _ & _ & Hs)]; [done|].
    split; [done|]. rewrite !ending_state. destruct (SessionLifecycle.state (lifecycle (sess h))) eqn:Hst; try done;
      destruct Hs as [-> _]; by rewrite Hst.
  - apply output_persists.
  - unfold expireIdle. etransitivity; [apply (output_persists h idleMessage now)|]. apply terminate_persists.
  - destruct (readClientMessage h id env read) as [h' b] eqn:Hr. cbn [fst].
    apply readClientMessage_served in Hr as (s & Hk%keeps_persists & [-> | ->]); [done|].
    etransitivity; [exact Hk|apply terminate_persists].
  - by rewrite onWriter_sess1.
  - apply terminate_persists.
  - unfold exitSession. destruct (finish (lifecycle (sess h)) _) as [l []] eqn:Hf.
    + set (s' := logEvent _ _ _ _). assert (persists (sess h) s') as Hp.
      { split; [done|]. intros _. rewrite ending_state. simpl.
        destruct (lifecycle (sess h)) as [[]], (bool_decide (is_Some err)); by injection Hf as <-. }
      destruct (client _); [|exact Hp]. destruct (onWriter _ _ _) as [h1 r1] eqn:H1. cbn [fst].
      rewrite onWriter_sess1. apply onWriter_sess in H1. by rewrite H1.
    + apply (refused_transition _ _ (LFinish (bool_decide (is_Some err)))) in Hf as ->.
      cbn [fst]. rewrite set_lifecycle_same by done. by destruct h.
  - destruct (cleanUp_cleaned h order) as [Hc Hl _ _ _ _ Hi _]. split; [done|]. by rewrite !ending_state, Hl.
Qed.

(** The invariant of one session, whatever it keeps. *)
Definition healthy s : Prop :=
  session_ok s ∧ ∃ kept, holds (replay s) kept ∧ (is_Some (client s) → kept = []).

Lemma healthy_scene h : healthy (sess h) ↔ ∃ kept, scene_ok h kept.
Proof.
  split.
  - intros (Hs & kept & Hk & Hc). exists kept. by split.
  - intros (kept & [Hs Hk Hc]). split; eauto.
Qed.

Lemma step_healthy h op : healthy (sess h) → session_enabled h op → healthy (sess (session_step h op)).
Proof. rewrite !healthy_scene. intros (kept & Hok) He. eexists. by apply session_step_ok. Qed.

Lemma terminate_healthy s reason : healthy s → healthy (terminateWithReason s reason).
Proof.
  intros (Hs & kept & Hk & Hc). split; [by apply terminate_ok|].
  exists kept. unfold terminateWithReason. by destruct (beginEnding _) as [l []].
Qed.
End Identity.

(** ** Steps of the server *)

Section Server.
Context {codec : ProtoCodec} {D : Type} {ops : StagingOps D} {fs : FileSystem D} {gm : GoMime}.
Context {crypto : IdentityCrypto} {json : ClientJson}.
Notation Scene := (@Scene D).
Notation Server := (@Server D).
Implicit Types (srv : Server) (s : ptySession).

(** [SCreate] and [SInstall] are the two halves of [getOrCreateSession]. *)
Inductive ServerOp :=
  | SGate (g : option pairedSessionGate)
  | SConnect (id : nat) (w : websocketWriter)
  | SWriter (id : nat) (f : websocketWriter → websocketWriter)
  | SCreate (env : LaunchEnv)
  | SInstall (protocolSessionID : bytes) (s : ptySession)
  | SSession (n : nat) (op : SessionOp)
  | SClear (n : nat)
  | SClose.

Definition server_step srv (op : ServerOp) : Server :=
  match op with
  | SGate g => srv <| gate := g |>
  | SConnect id w => srv <| srv_writers ::= insert id w |>
  | SWriter id f => srv <| srv_writers ::= alter f id |>
  | SCreate env => (createSession srv env).1
  | SInstall id s => (installSession srv id s).1
  | SSession n op => (onScene srv n tt (fun h => (session_step h op, tt))).1
  | SClear n => clearSession srv n
  | SClose => Server_Close srv
  end.

(** A session runs from its creation, so it may have ended before it is installed;
    any steps of it are allowed until then. *)
Definition ran_since_creation (id : bytes) s : Prop :=
  ∃ srv0 env s0 ws ag (d : D) h kept,
    (createSession srv0 env).2 = Ok (id, s0) ∧
    session_run (mkScene s0 ws ag d) (banner (Config_Command (config srv0))) h kept ∧ sess h = s.

(** A session is installed after it was created, and cleared when it is done. *)
Definition server_enabled srv (op : ServerOp) : Prop :=
  match op with
  | SConnect id _ => srv_writers srv !! id = None
  | SInstall id s => ran_since_creation id s
  | SSession n op => ∀ s, srv_sessions srv !! n = Some s →
      session_enabled (mkScene s (srv_writers srv) (srv_aggregate srv) (srv_disk srv)) op
  | SClear n => ∀ s, srv_sessions srv !! n = Some s → SessionLifecycle.done (lifecycle s) = true
  | _ => True
  end.

Inductive server_steps srv : Server → Prop :=
  | steps_refl : server_steps srv srv
  | steps_step srv' op : server_steps srv srv' → server_enabled srv' op → server_steps srv (server_step srv' op).

Record server_ok srv : Prop := {
  sv_healthy : map_Forall (fun _ s => healthy s) (srv_sessions srv);
  sv_current : ∀ n, srv_session srv = Some n → is_Some (srv_sessions srv !! n);
  sv_single : ∀ n s, srv_sessions srv !! n = Some s → srv_session srv ≠ Some n → ending s = true;
  sv_generation : ∀ n s, srv_sessions srv !! n = Some s → 0 <= generation s <= nextSessionGeneration srv;
  sv_limit : 0 <= nextSessionGeneration srv <= 2 ^ 64 - 1;
  sv_distinct : ∀ n m s s', srv_sessions srv !! n = Some s → srv_sessions srv !! m = Some s' →
    generation s = generation s' → generation s ≠ 0 → n = m;
  sv_latest : ∀ n s, srv_session srv = Some n → srv_sessions srv !! n = Some s →
    generation s = nextSessionGeneration srv ∧ generation s ≠ 0;
}.

Lemma New_ok c (d : D) : server_ok (New c d).
Proof. unfold New. split; simpl; try done; try (intros; set_solver); try lia. Qed.

(** Changing one session in a way that persists keeps the invariant. *)
Lemma update_ok srv n s s' ws ag d :
  server_ok srv → srv_sessions srv !! n = Some s → healthy s' → persists s s' →
  server_ok (srv <| srv_sessions ::= insert n s' |> <| srv_writers := ws |> <| srv_aggregate := ag |> <| srv_disk := d |>).
Proof.
  intros [Hh Hc Hs Hg Hl Hd Hla] Hn Hs' [[Hid Hgen] Hend].
  assert (∀ m t, <[n:=s']> (srv_sessions srv) !! m = Some t →
    ∃ t0, srv_sessions srv !! m = Some t0 ∧ generation t = generation t0 ∧ (ending t0 = true → ending t = true)) as Hold.
  { intros m t [[<- <-]|[Hne Hm]]%lookup_insert_Some; eauto. }
  split; simpl; auto.
  - by apply map_Forall_insert_2.
  - intros m Hm%Hc. destruct (decide (n = m)) as [->|Hne]; [rewrite lookup_insert_eq; eauto|by rewrite lookup_insert_ne].
  - intros m t (t0 & H0 & _ & He)%Hold Hm. apply He. by eapply Hs.
  - intros m t (t0 & H0 & -> & _)%Hold. by eapply Hg.
  - intros m1 m2 t1 t2 (u1 & H1 & -> & _)%Hold (u2 & H2 & -> & _)%Hold. by apply Hd.
  - intros m t Hm (u & Hu & -> & _)%Hold. by eapply Hla.
Qed.

Lemma createSession_disk srv env : ∃ d, (createSession srv env).1 = srv <| srv_disk := d |>.
Proof.
  unfold createSession. repeat (case_match; simplify_eq/=); eexists; reflexivity.
Qed.

Lemma createSession_new srv env id s :
  (createSession srv env).2 = Ok (id, s) → new_session (Config_Command (config srv)) s ∧ generation s = 0.
Proof.
  intros Hc. assert (∃ t stg c adapter root directory,
    s = (newPTYSession (Config_Command (config srv)) t (IdleTimeout (config srv)) (launch_now env) stg c)
          <| toolAdapter := adapter |> <| session_workspaceRoot := root |> <| workingDirectory := directory |>)
    as (t & stg & c & adapter & root & directory & ->).
  { revert Hc. unfold createSession. repeat (case_match; simplify_eq/=); intros [= <- <-];
      eexists _, _, _, _, _, _; reflexivity. }
  assert (∀ u, u = newPTYSession (Config_Command (config srv)) t (IdleTimeout (config srv)) (launch_now env) stg c →
    protocolSessionID u = [] ∧ generation u = 0) as Hu.
  { intros u ->. unfold newPTYSession, resetIdleTimer, resetIdleTimerLocked. by destruct (_ || _). }
  destruct (Hu _ eq_refl) as [Hi Hg]. split; [|done].
  constructor. exists t, (IdleTimeout (config srv)), (launch_now env), stg, c, adapter, root, directory, [], 0.
  rewrite <- Hi, <- Hg. by destruct (newPTYSession _ _ _ _ _ _).
Qed.

Lemma new_healthy (d : D) cmd s : new_session cmd s → healthy s.
Proof.
  intros Hn. apply (healthy_scene (mkScene s ∅ None d)). exists (banner cmd). by apply new_session_ok.
Qed.

Lemma fresh_session srv : srv_sessions srv !! fresh (dom (srv_sessions srv)) = None.
Proof. apply not_elem_of_dom, is_fresh. Qed.

(** A session that has lost the race is kept only until it has ended. *)
Lemma superseded_ok srv n s :
  server_ok srv → srv_sessions srv !! n = None → healthy s → ending s = true → generation s = 0 →
  server_ok (srv <| srv_sessions ::= insert n s |>).
Proof.
  intros [Hh Hc Hs Hg Hl Hd Hla] Hn Hs' He Hz. split; simpl; auto.
  - by apply map_Forall_insert_2.
  - intros m [t Hm]%Hc. rewrite lookup_insert_ne by congruence. eauto.
  - intros m t [[<- <-]|[_ Hm]]%lookup_insert_Some; [done|by apply Hs].
  - intros m t [[<- <-]|[_ Hm]]%lookup_insert_Some; [lia|by eapply Hg].
  - intros m1 m2 t1 t2 [[<- <-]|[_ H1]]%lookup_insert_Some [[<- <-]|[_ H2]]%lookup_insert_Some Heq Hnz;
      [done|congruence|congruence|by eapply Hd].
  - intros m t Hm. pose proof (Hc m Hm) as [t0 Ht0]. rewrite lookup_insert_ne by congruence. by apply Hla.
Qed.

Lemma terminated_identity s reason :
  generation (terminateWithReason s reason) = generation s.
Proof. by destruct (terminate_persists s reason) as [[_ Hg] _]. Qed.

Lemma installed_ok srv n id s :
  server_ok srv → srv_sessions srv !! n = None → healthy s → currentSession srv = None →
  nextSessionGeneration srv <> 2 ^ 64 - 1 →
  server_ok (srv <| nextSessionGeneration := nextSessionGeneration srv + 1 |>
    <| srv_sessions ::= insert n (s <| protocolSessionID := id |> <| generation := nextSessionGeneration srv + 1 |>) |>
    <| srv_session := Some n |>).
Proof.
  intros [Hh Hc Hs Hg Hl Hd Hla] Hn Hs' Hcur Hlim.
  set (s2 := s <| protocolSessionID := id |> <| generation := _ |>).
  assert (∀ m t, m ≠ n → <[n:=s2]> (srv_sessions srv) !! m = Some t → srv_sessions srv !! m = Some t ∧ ending t = true) as Hold.
  { intros m t Hne Hm. rewrite lookup_insert_ne in Hm by done. split; [done|].
    destruct (decide (srv_session srv = Some m)) as [Hm'|Hm']; [|by eapply Hs].
    revert Hcur. unfold currentSession, live. rewrite Hm', Hm. simpl. unfold isEnded, ending.
    destruct (SessionLifecycle.done (lifecycle t)); [by rewrite orb_true_r|done]. }
  assert (∀ t, <[n:=s2]> (srv_sessions srv) !! n = Some t → generation t = nextSessionGeneration srv + 1) as Hnew.
  { intros t Ht. rewrite lookup_insert_eq in Ht. by injection Ht as <-. }
  split; simpl; try lia.
  - apply map_Forall_insert_2; [|done]. destruct Hs' as (Hok & kept & Hk & Hcl). split; [by destruct Hok; split|eauto].
  - intros m [= <-]. rewrite lookup_insert_eq. eauto.
  - intros m t Hm Hne. apply (Hold m t); [congruence|done].
  - intros m t Hm. destruct (decide (m = n)) as [->|Hne]; [rewrite (Hnew _ Hm); lia|].
    destruct (Hold _ _ Hne Hm) as [H0 _]. pose proof (Hg _ _ H0). lia.
  - intros m1 m2 t1 t2 H1 H2 Heq Hnz.
    destruct (decide (m1 = n)) as [->|Hne1], (decide (m2 = n)) as [->|Hne2]; [done|..].
    + destruct (Hold _ _ Hne2 H2) as [H0 _]. pose proof (Hg _ _ H0). rewrite (Hnew _ H1) in Heq. lia.
    + destruct (Hold _ _ Hne1 H1) as [H0 _]. pose proof (Hg _ _ H0). rewrite (Hnew _ H2) in Heq. lia.
    + destruct (Hold _ _ Hne1 H1) as [? _], (Hold _ _ Hne2 H2) as [? _]. by eapply Hd.
  - intros m t [= <-] Hm. rewrite (Hnew _ Hm). lia.
Qed.

Lemma run_persists h0 kept0 (h : Scene) kept : session_run h0 kept0 h kept → persists (sess h0) (sess h).
Proof. induction 1; [done|]. etransitivity; [done|apply step_persists]. Qed.

Lemma ran_healthy id s : ran_since_creation id s → healthy s ∧ generation s = 0.
Proof.
  intros (srv0 & env & s0 & ws & ag & d & h & kept & Hc & Hr & <-).
  apply createSession_new in Hc as [Hn Hz]. split.
  - apply healthy_scene. exists kept. eapply session_run_ok; [|exact Hr]. by apply new_session_ok.
  - apply run_persists in Hr as [[_ Hg] _]. by rewrite Hg.
Qed.

Lemma step_ok srv op : server_ok srv → server_enabled srv op → server_ok (server_step srv op).
Proof.
  intros Hok He. destruct op; simpl server_step.
  - by destruct Hok; split.
  - by destruct Hok; split.
  - by destruct Hok; split.
  - destruct (createSession_disk srv env) as [d ->]. by destruct Hok; split.
  - apply ran_healthy in He as [Hn Hz]. unfold installSession.
    destruct (currentSession srv) as [cur|] eqn:Hcur; [|destruct (_ =? _) eqn:Hlim]; cbn [fst].
    + apply superseded_ok; rewrite ?terminated_identity; auto using fresh_session, terminate_healthy, terminate_ends.
    + apply superseded_ok; rewrite ?terminated_identity; auto using fresh_session, terminate_healthy, terminate_ends.
    + apply installed_ok; auto using fresh_session. lia.
  - unfold onScene. destruct (srv_sessions srv !! n) as [s|] eqn:Hn; [|done]. cbn [fst].
    apply (update_ok _ _ s); [done|done| |].
    + apply (step_healthy (mkScene s (srv_writers srv) (srv_aggregate srv) (srv_disk srv)) op); [|by apply He].
      by apply (sv_healthy _ Hok n).
    + apply (step_persists (mkScene s (srv_writers srv) (srv_aggregate srv) (srv_disk srv))).
  - unfold clearSession. case_bool_decide as Hn; [|done].
    destruct Hok as [Hh Hc Hs Hg Hl Hd Hla]. split; simpl; try done.
    intros m s Hm _. destruct (decide (m = n)) as [->|Hne]; [|apply (Hs _ _ Hm); congruence].
    unfold ending. rewrite (He _ Hm). apply orb_true_r.
  - unfold Server_Close. destruct (srv_session srv) as [n|] eqn:Hn; [|done].
    destruct (sv_current _ Hok n Hn) as [s Hs].
    assert (alter (fun s => terminateWithReason s ReasonAgentShutdown) n (srv_sessions srv) =
      <[n:=terminateWithReason s ReasonAgentShutdown]> (srv_sessions srv)) as Ha.
    { apply map_eq. intros m. destruct (decide (m = n)) as [->|Hne];
        [by rewrite lookup_alter_eq, lookup_insert_eq, Hs|by rewrite lookup_alter_ne, lookup_insert_ne]. }
    pose proof (update_ok srv n s (terminateWithReason s ReasonAgentShutdown) (srv_writers srv) (srv_aggregate srv)
      (srv_disk srv) Hok Hs (terminate_healthy _ _ (sv_healthy _ Hok n _ Hs)) (terminate_persists _ _)) as Hup.
    destruct srv. simpl in *. by rewrite Ha.
Qed.


(** ** The handler *)

Lemma steps_trans srv1 srv2 srv3 : server_steps srv1 srv2 → server_steps srv2 srv3 → server_steps srv1 srv3.
Proof. intros H12. induction 1; [done|by constructor]. Qed.

Lemma steps_one srv op : server_enabled srv op → server_steps srv (server_step srv op).
Proof. intros He. constructor; [constructor|done]. Qed.

Lemma onServerWriter_steps {A} srv id (f : websocketWriter → websocketWriter * A) default srv' a :
  onServerWriter srv id f default = (srv', a) → server_steps srv srv'.
Proof.
  unfold onServerWriter. destruct (srv_writers srv !! id) as [w|] eqn:Hw; [|intros [= <- _]; constructor].
  destruct (f w) as [w' a'] eqn:Hf. intros [= <- _].
  replace (insert id w' (srv_writers srv)) with (alter (fun w => (f w).1) id (srv_writers srv)).
  - by apply (steps_one srv (SWriter id (fun w => (f w).1))).
  - apply map_eq. intros m. destruct (decide (m = id)) as [->|Hne].
    + rewrite lookup_alter_eq, lookup_insert_eq, Hw. simpl. by rewrite Hf.
    + by rewrite lookup_alter_ne, lookup_insert_ne.
Qed.

(** A step on one session, with an answer. *)
Lemma onScene_step {A} srv n (default : A) (f : Scene → Scene * A) op :
  (∀ h, (f h).1 = session_step h op) → (∀ h : Scene, session_enabled h op) →
  server_steps srv (onScene srv n default f).1.
Proof.
  intros Hf He. replace (onScene srv n default f).1 with (server_step srv (SSession n op)).
  { apply steps_one. intros s _. apply He. }
  simpl. unfold onScene. destruct (srv_sessions srv !! n) as [s|]; [|done].
  rewrite <- Hf. by destruct (f _) as [h a].
Qed.

Lemma onScene_bind srv n (f g : Scene → Scene * unit) :
  (onScene (onScene srv n tt f).1 n tt g).1 = (onScene srv n tt (fun h => g (f h).1)).1.
Proof.
  unfold onScene. destruct (srv_sessions srv !! n) as [s|] eqn:Hn; [|simpl; by rewrite Hn].
  destruct (f _) as [h a] eqn:Hf. simpl. rewrite lookup_insert_eq. destruct h as [s1 ws ag dk]. simpl.
  destruct (g _) as [h2 b]. simpl. by rewrite insert_insert_eq.
Qed.

Lemma onScene_id srv n (f : Scene → Scene * unit) : (∀ h, (f h).1 = h) → (onScene srv n tt f).1 = srv.
Proof.
  intros Hf. unfold onScene. destruct (srv_sessions srv !! n) as [s|] eqn:Hn; [|done].
  destruct (f _) as [h a] eqn:He. specialize (Hf (mkScene s (srv_writers srv) (srv_aggregate srv) (srv_disk srv))).
  rewrite He in Hf. simpl in Hf. subst h. simpl. rewrite insert_id by done. by destruct srv.
Qed.

Lemma readClientMessages_steps srv n id reads :
  server_steps srv (onScene srv n tt (fun h => (readClientMessages h id reads, tt))).1.
Proof.
  revert srv. induction reads as [|[env read] reads IH]; intros srv; simpl.
  { rewrite onScene_id by done. constructor. }
  assert (∀ h, (readClientMessage h id env read).1 = session_step h (OpRead id env read)) as Hstep by done.
  set (first := fun h : Scene => (session_step h (OpRead id env read), tt)).
  assert (server_steps srv (onScene srv n tt first).1) as H1 by (eapply onScene_step; by intros).
  pose proof (IH (onScene srv n tt first).1) as H2. rewrite onScene_bind in H2.
  unfold onScene in *. destruct (srv_sessions srv !! n) as [s|] eqn:Hn; [|constructor].
  set (h := mkScene s (srv_writers srv) (srv_aggregate srv) (srv_disk srv)) in *.
  unfold first in H1, H2. simpl in H1, H2. destruct (readClientMessage h id env read) as [h' []]; [|done].
  by eapply steps_trans.
Qed.

Lemma getOrCreate_steps srv env srv' r : getOrCreateSession srv env = (srv', r) → server_steps srv srv'.
Proof.
  unfold getOrCreateSession. case_bool_decide; [intros [= <- _]; constructor|].
  destruct (currentSession srv); [intros [= <- _]; constructor|].
  destruct (createSession srv env) as [srv1 [[id s]|e]] eqn:Hc; intros Hrun;
    pose proof (steps_one srv (SCreate env) I) as H1; simpl in H1; rewrite Hc in H1.
  - eapply steps_trans; [exact H1|]. pose proof (steps_one srv1 (SInstall id s)) as H2. simpl in H2.
    rewrite Hrun in H2. apply H2. exists srv, env, s, ∅, None, (srv_disk srv), (mkScene s ∅ None (srv_disk srv)), (banner (Config_Command (config srv))).
    rewrite Hc. split_and!; [done|constructor|done].
  - by simplify_eq.
Qed.

Lemma refuse_steps srv id code : server_steps srv (refuse srv id code).1.
Proof.
  unfold refuse. destruct (onServerWriter srv id _ _) as [srv1 a] eqn:H1.
  destruct (onServerWriter srv1 id _ _) as [srv2 b] eqn:H2.
  eapply steps_trans; by eapply onServerWriter_steps.
Qed.

Lemma drop_steps srv id message : server_steps srv (dropConnection srv id message).1.
Proof. unfold dropConnection. destruct (onServerWriter srv id _ _) as [srv1 a] eqn:H1. by eapply onServerWriter_steps. Qed.

Lemma attachConnection_steps srv id request env : server_steps srv (attachConnection srv id request env).1.
Proof.
  unfold attachConnection. destruct (getOrCreateSession srv _) as [srv1 [[n created]|e]] eqn:Hg;
    apply getOrCreate_steps in Hg; (eapply steps_trans; [exact Hg|]); [|apply refuse_steps].
  match goal with |- context [onScene srv1 n ?d ?f] =>
    assert (server_steps srv1 (onScene srv1 n d f).1) as Ha; [|destruct (onScene srv1 n d f) as [srv2 [attached r]] eqn:Ho]
  end.
  { destruct request as [request|].
    - by apply (onScene_step _ _ _ _ (OpAttachV1 id request created (connect_attachTime env))).
    - apply (onScene_step _ _ _ _ (OpAttach id (connect_attachTime env))); [|done].
      intros h. simpl. by destruct (attach h id _). }
  eapply steps_trans; [exact Ha|]. cbn [fst].
  destruct attached; cbn [negb]; [|apply refuse_steps].
  destruct r; [constructor|]. pose proof (drop_steps srv2 id "Protocol V1 session attachment failed") as Hd.
  by destruct (dropConnection srv2 id _).
Qed.

Lemma connect_steps srv id r env : srv_writers srv !! id = None → server_steps srv (connect srv id r env).1.
Proof.
  intros Hid. unfold connect. destruct (authorizedForUpgrade _ _ _ _ _) as [g [p|]];
    pose proof (steps_one srv (SGate g) I) as Hg; simpl in Hg; [|done].
  destruct (_ && _); [done|]. destruct (negb _); [done|].
  set (srv1 := srv <| gate := g |>) in *. set (srv2 := srv1 <| srv_writers ::= _ |>).
  assert (server_steps srv srv2) as H2.
  { eapply steps_trans; [exact Hg|]. by apply (steps_one srv1 (SConnect id (connect_writer env))). }
  match goal with |- context [if ?b then onServerWriter ?sr ?i ?f ?d else ?e] =>
    destruct (if b then onServerWriter sr i f d else e) as [srv3 negotiated] eqn:Hn;
    assert (server_steps srv srv3) as H3
      by (destruct b; [eapply steps_trans; [exact H2|by eapply onServerWriter_steps]|by simplify_eq])
  end.
  eapply steps_trans; [exact H3|]. destruct negotiated; [|apply drop_steps].
  destruct (from_option _ _ _); [|apply attachConnection_steps].
  destruct (onServerWriter srv3 id _ _) as [srv4 [request|e]] eqn:H4; apply onServerWriter_steps in H4;
    (eapply steps_trans; [exact H4|]); [apply attachConnection_steps|apply drop_steps].
Qed.

Lemma disconnect_steps srv n id now : server_steps srv (disconnect srv n id now).
Proof.
  unfold disconnect. set (timeout := ReconnectTimeout (config srv)).
  set (first := fun h : Scene => (session_step h (OpDetach id timeout now), tt)).
  set (second := fun h : Scene => (session_step h (OpTerminate ReasonReconnectExpired), tt)).
  assert (server_steps srv (onScene srv n tt first).1) as H1 by (eapply onScene_step; by intros).
  assert (server_steps (onScene srv n tt first).1 (onScene (onScene srv n tt first).1 n tt second).1) as H2
    by (eapply onScene_step; by intros).
  rewrite onScene_bind in H2.
  unfold onScene in *. destruct (srv_sessions srv !! n) as [s|] eqn:Hn; [|constructor].
  set (h := mkScene s (srv_writers srv) (srv_aggregate srv) (srv_disk srv)) in *.
  unfold first, second in H1, H2. simpl in H1, H2. destruct (detach h id timeout now) as [h' []]; [|done].
  by eapply steps_trans.
Qed.

Lemma handleWebSocket_steps srv id r env reads closed :
  srv_writers srv !! id = None → server_steps srv (handleWebSocket srv id r env reads closed).1.
Proof.
  intros Hid. unfold handleWebSocket. pose proof (connect_steps srv id r env Hid) as Hc.
  destruct (connect srv id r env) as [srv1 [st| |n []]]; cbn [fst] in *; try done.
  - pose proof (readClientMessages_steps srv1 n id reads) as Hr.
    set (srv2 := (onScene srv1 n tt _).1) in *.
    destruct (onServerWriter srv2 id _ tt) as [srv3 u] eqn:Hw. apply onServerWriter_steps in Hw. cbn [fst].
    eapply steps_trans; [exact Hc|]. eapply steps_trans; [exact Hr|]. eapply steps_trans; [exact Hw|].
    apply disconnect_steps.
  - eapply steps_trans; [exact Hc|]. apply disconnect_steps.
Qed.

Definition authorized srv (r : Request) (env : ConnectEnv) : bool :=
  bool_decide (is_Some (authorizedForUpgrade (Config_Upgrade (config srv)) (gate srv)
                          (connect_now1 env) (connect_now2 env) r).2).

End Server.
