(* ===== verification/SessionExamples.v ===== *)
(** * Sessions: executed runs

    A codec and a terminal in place of the real ones; a session is attached, left and
    resumed, a connection is served, a process exits, and the theorems on writers,
    sessions and the server are applied.  Two runs show what the code does when the
    first writes to a new connection fail. *)

From S2P Require Import Prelude.
From S2P Require Import Utf8.
From S2P Require Import Envelope.
From S2P Require Import Negotiation.
From S2P Require Import Stream.
From S2P Require Import StreamFacts.
From S2P Require Import ReplayBuffer.
From S2P Require Import SessionLifecycle.
From S2P Require Import ContentPolicy.
From S2P Require Import Aggregate.
From S2P Require Import Transfer.
From S2P Require Import Workspace.
From S2P Require Import StagingSession.
From S2P Require Import DeviceIdentity.
From S2P Require Import DeviceIdentityExamples.
From S2P Require Import PairedSession.
From S2P Require Import ToolAdapter.
From S2P Require Import PromptAction.
From S2P Require Import AgentLog.
From S2P Require Import WebsocketWriter.
From S2P Require Import TerminalSession.
From S2P Require Import SessionServer.
From S2P Require Import TerminalSessionFacts.
From S2P Require Import SessionRuns.
From S2P Require Import SessionBehaviour.
From S2P Require Import ServerRuns.

(** ** The parameters *)

#[local] Existing Instance toyCrypto.

Definition lowByte (n : Z) : byte := default "000"%byte (Byte.of_N (Z.to_N (n mod 256))).

Definition dispositionByte (d : ResumeDisposition) : byte :=
  match d with
  | RESUME_DISPOSITION_FRESH => "F"%byte
  | RESUME_DISPOSITION_RESUMED => "R"%byte
  | _ => "S"%byte
  end.

(** An envelope is its sequence number and its payload. *)
Definition toyMarshal (e : Envelope) : option bytes :=
  Some (lowByte (Sequence e) ::
    match Env_Payload e with
    | Payload_TerminalOutput d => "o"%byte :: d
    | Payload_SessionStatus d => ["s"%byte; dispositionByte d]
    | Payload_Acknowledgement => ["a"%byte; lowByte (Acknowledge e)]
    | Payload_ProcessExit PROCESS_EXIT_OUTCOME_SUCCESS => ["x"%byte; "0"%byte]
    | Payload_ProcessExit _ => ["x"%byte; "1"%byte]
    | _ => ["?"%byte]
    end).

#[local] Instance toyProto : ProtoCodec := {| proto_Unmarshal _ := None; proto_Marshal := toyMarshal |}.

#[local] Instance toyMime : GoMime := {|
  ParseMediaType _ := None;
  DetectContentType _ := "application/octet-stream"%string;
|}.

(** Attachments are not used in these runs: a directory in which every operation succeeds. *)
#[local] Instance toyStaging : StagingOps tree := {|
  dir_open d st _ := (d, st, Ok tt);
  dir_create d _ := (d, Ok tt);
  dir_writeAt d _ _ _ := (d, Ok tt);
  dir_rename d _ _ := (d, Ok tt);
  dir_remove d _ := (d, Ok tt);
  dir_removePublishedLink d _ _ := (d, Ok tt);
  dir_close d st := (d, st, Ok tt);
  relativeReference _ name := Some name;
  filepath_Base name := name;
|}.

(** A message is a letter and its data. *)
#[local] Instance toyClientJson : ClientJson := fun b =>
  match b with
  | "i"%byte :: data => Some (mkClientMessage "input" (string_of_bytes data) 0 0)
  | ["x"%byte] => Some (mkClientMessage "exit" EmptyString 0 0)
  | _ => None
  end.

(** ** Writers *)

Definition allWell (_ : nat) : option error := None.
Definition broken (_ : nat) : option error := Some (ErrorString "broken pipe").
Definition frozen (_ : nat) : Z := 0.

(** A stream after its Hello exchange, with session resume. *)
Definition toyStream : AgentStream :=
  mkAgentStream (fill 16 "009") 8 2 2 1 0 [] true true true true true false false false [] 0.
Definition boundStream : AgentStream :=
  toyStream <| sessionBound := true |> <| sessionID := fill 16 "001" |> <| sessionGeneration := 1 |>.

Definition toyWriter (s : AgentStream) (fault : nat → option error) : websocketWriter :=
  enableProtocolV1 (newWriter fault frozen) s.

(** Eight bytes per envelope leave room for six bytes of output. *)
Example chunked_output :
  written (conn (writeBinary (toyWriter boundStream allWell) (bytes_of_string "hello world")).1) =
    map BinaryMessage ["002"%byte :: bytes_of_string "ohello "; "003"%byte :: bytes_of_string "oworld"].
Proof. vm_compute. reflexivity. Qed.

Lemma bound_carries_bytes : carries_bytes boundStream.
Proof. intros n x t. reflexivity. Qed.

Lemma output_is_delivered_witness :
  ∃ w' frames chunks s',
    writeBinary (toyWriter boundStream allWell) (bytes_of_string "hello world") = (w', Ok tt) ∧
    protocolV1 w' = Some s' ∧ written (conn w') = map BinaryMessage frames ∧
    sends_output boundStream frames chunks s' ∧ concat chunks = bytes_of_string "hello world" ∧
    (length frames <= 11)%nat.
Proof.
  exact (output_is_delivered (toyWriter boundStream allWell) boundStream (bytes_of_string "hello world")
           eq_refl eq_refl (fun _ => eq_refl) bound_carries_bytes).
Defined.

(** ** A session that is left and resumed *)

(** The terminal takes one byte at a time. *)
Definition toyTerminal : terminal := mkTerminal (fun _ => (1, None)) 0 [] (fun _ => None) [].

Definition toySession : ptySession :=
  (newPTYSession ["sh"] toyTerminal 0 0 None "c")
    <| toolAdapter := mkAdapter Generic |> <| session_workspaceRoot := "/w" |>
    <| workingDirectory := "/w/app" |> <| protocolSessionID := fill 16 "001" |> <| generation := 1 |>.

Definition scene0 : @Scene tree := mkScene toySession ∅ None example_tree.

Lemma toy_is_new : new_session ["sh"] (sess scene0).
Proof. constructor. by exists toyTerminal, 0, 0, None, "c"%string, (mkAdapter Generic), "/w"%string, "/w/app"%string, (fill 16 "001"), 1. Qed.

Definition freshRequest : ClientStreamMessage := (newMessage 2) <| Msg_Kind := ClientStreamMessageAttachSession |>.
Definition resumeRequest (cursor : Z) : ClientStreamMessage :=
  freshRequest <| Msg_SessionID := fill 16 "001" |> <| Msg_SessionGeneration := 1 |>
               <| Msg_LastAcknowledgedSequence := cursor |>.

Fixpoint run_ops (h : @Scene tree) (kept : bytes) (ops : list SessionOp) : @Scene tree * bytes :=
  match ops with
  | [] => (h, kept)
  | op :: ops => run_ops (session_step h op) (kept_after h op kept) ops
  end.

Fixpoint ops_enabled (h : @Scene tree) (ops : list SessionOp) : Prop :=
  match ops with
  | [] => True
  | op :: ops => session_enabled h op ∧ ops_enabled (session_step h op) ops
  end.

Lemma run_ops_run h0 kept0 h kept ops :
  session_run h0 kept0 h kept → ops_enabled h ops →
  session_run h0 kept0 (run_ops h kept ops).1 (run_ops h kept ops).2.
Proof.
  revert h kept. induction ops as [|op ops IH]; intros h kept Hr; [done|].
  intros [He Hops]. simpl. apply IH; [by constructor|done].
Qed.

Definition frames_of (h : @Scene tree) (id : nat) : list Frame := from_option (fun w => written (conn w)) [] (writers h !! id).

(** A client attaches to the new session, leaves, and output arrives. *)
Definition leavingOps : list SessionOp :=
  [OpConnect 1 (toyWriter toyStream allWell);
   OpAttachV1 1 freshRequest true 0;
   OpOutput (bytes_of_string "$ ") 1;
   OpDetach 1 (90 * Ticket.Second) 2;
   OpOutput (bytes_of_string "done") 3;
   OpConnect 2 (toyWriter toyStream allWell)].

Definition left := run_ops scene0 (banner ["sh"]) leavingOps.

(** The client comes back with the sequence number of the last frame it got. *)
Definition resumed := attachProtocolV1 left.1 2 (resumeRequest 7) false 4.

Example resumed_run :
  left.2 = bytes_of_string "done" ∧ resumed.2 = (true, Ok tt) ∧
  len (frames_of resumed.1 1) = 6 ∧
  frames_of resumed.1 2 =
    map BinaryMessage [["002"; "s"; "R"]%byte; "003"%byte :: bytes_of_string "odone"].
Proof. vm_compute. auto. Qed.

Lemma left_run : session_run scene0 (banner ["sh"]) left.1 left.2.
Proof. apply run_ops_run; [constructor|]. by vm_compute. Qed.

Lemma session_well_formed_witness : session_ok (sess left.1) ∧ holds (replay (sess left.1)) left.2.
Proof. exact (session_well_formed ["sh"] scene0 left.1 left.2 toy_is_new left_run). Defined.


(** ** Output that is lost although the client is told it was not *)

(** The client resumes twice: on the first connection nothing was kept, so the
    recorded cursor is 2; output arrives while it is away; on the second connection
    the status frame cannot be written, and the kept output is gone with it. *)
Definition losingOps : list SessionOp :=
  [OpAttachV1 2 (resumeRequest 7) false 4; OpDetach 2 (90 * Ticket.Second) 5;
   OpConnect 3 (toyWriter toyStream allWell); OpAttachV1 3 (resumeRequest 3) false 6;
   OpDetach 3 (90 * Ticket.Second) 7;
   OpOutput (bytes_of_string "secret") 8;
   OpConnect 4 (toyWriter toyStream broken); OpAttachV1 4 (resumeRequest 2) false 9;
   OpDetach 4 (90 * Ticket.Second) 10;
   OpConnect 5 (toyWriter toyStream allWell); OpAttachV1 5 (resumeRequest 2) false 11].

Definition lost := run_ops left.1 left.2 losingOps.

(** A resuming client can be told RESUMED although output was lost: the output
    "secret" was kept for the client that holds cursor 2, a failed connection drained
    it and recorded cursor 2 of its own, and the next connection is told that nothing
    is missing and is sent nothing. *)
Theorem resumed_after_lost_output :
  session_run scene0 (banner ["sh"]) lost.1 lost.2 ∧
  (run_ops left.1 left.2 (take 6 losingOps)).2 = bytes_of_string "secret" ∧
  frames_of lost.1 3 = [BinaryMessage ["002"; "s"; "R"]%byte] ∧
  frames_of lost.1 4 = [] ∧
  frames_of lost.1 5 = [BinaryMessage ["002"; "s"; "R"]%byte] ∧
  ReplayBuffer.entries (replay (sess lost.1)) = [].
Proof.
  split; [|vm_compute; auto]. apply run_ops_run; [apply left_run|]. by vm_compute.
Qed.

(** ** A raw connection that fails at once blocks the session *)

(** [attach] reports failure but stays the client; nobody detaches it. *)
Definition wedgeOps : list SessionOp :=
  [OpConnect 1 (newWriter broken frozen); OpAttach 1 0; OpConnect 2 (newWriter allWell frozen)].
Definition wedged := run_ops scene0 (banner ["sh"]) wedgeOps.

Example wedged_run :
  (attach (run_ops scene0 (banner ["sh"]) (take 1 wedgeOps)).1 1 0).2 = false ∧
  client (sess wedged.1) = Some 1%nat ∧ detachTimer (sess wedged.1) = None ∧ (attach wedged.1 2 1).2 = false.
Proof. vm_compute. auto. Qed.

(** ** Input and exit *)

Definition toyEnv (now : Z) : MessageEnv := mkMessageEnv now (fun _ => Ok []) (fun _ => Ok []).
Definition inputMessage : ClientStreamMessage :=
  (newMessage 3) <| Msg_Kind := ClientStreamMessageTerminalInput |> <| Msg_Data := bytes_of_string "ls" |>.
Definition afterInput := handleStreamMessage resumed.1 2 (toyEnv 20) inputMessage.

Example input_run :
  afterInput.2 = true ∧ typed (term (sess afterInput.1)) = bytes_of_string "ls" ∧
  frames_of afterInput.1 2 = frames_of resumed.1 2 ++ [BinaryMessage ["004"; "a"; "003"]%byte].
Proof. vm_compute. auto. Qed.

Lemma acknowledged_input_was_typed_witness :
  ∃ h', handleStreamMessage resumed.1 2 (toyEnv 20) inputMessage = (h', true) ∧
    typed (term (sess h')) = typed (term (sess resumed.1)) ++ bytes_of_string "ls".
Proof.
  destruct (handleStreamMessage resumed.1 2 (toyEnv 20) inputMessage) as [h' more] eqn:Hrun.
  assert (more = true) as Hmore.
  { change more with (h', more).2. rewrite <- Hrun. vm_compute. reflexivity. }
  destruct (acknowledged_input_was_typed resumed.1 2 (toyEnv 20) inputMessage h' more eq_refl Hrun) as (part & Ht & _ & Hall).
  destruct (Hall Hmore) as [Hpart _]. exists h'. split; [by rewrite Hmore|]. rewrite Ht, Hpart. reflexivity.
Defined.

Definition exitedScene := waitForExit afterInput.1 (Some (ErrorString "exit status 1")) [].

Example exit_run :
  frames_of exitedScene 2 =
    frames_of afterInput.1 2 ++ [BinaryMessage ["005"; "x"; "1"]%byte; CloseMessage 1000 "session ended"] ∧
  map Event_State (logged (sess exitedScene)) =
    ["detached"; "connected"; "detached"; "connected"; "failed"]%string.
Proof. vm_compute. auto. Qed.


(** ** A server and two connections *)

Definition toyConfig : Config :=
  mkConfig ["sh"] "/w/app" "/w" EmptyString 0 0 false 0 (mkUpgradeConfig "token" false) None.
Definition server0 : @Server tree := New toyConfig example_tree.

Definition tokenRequest (token : string) : Request :=
  mkRequest (fun _ => EmptyString) (fun key => if bool_decide (key = "token"%string) then Some token else None)
    "127.0.0.1:1" [].

Definition toyLaunch (now : Z) : LaunchEnv :=
  mkLaunchEnv (Ok (fill 16 "012")) (Ok (fill 16 "013")) (Ok toyTerminal) now.
Definition toyConnect (now : Z) : ConnectEnv :=
  mkConnectEnv now now true (newWriter allWell frozen) (Err errNoStream) now (Ok tt) (Err errNoStream)
    (toyLaunch now) now.

Definition typing (data : string) : MessageEnv * ReadMessage :=
  (toyEnv 30, Ok (false, "i"%byte :: bytes_of_string data)).

Definition served1 := handleWebSocket server0 1 (tokenRequest "token") (toyConnect 10) [typing "ls"] 40.
Definition served2 := handleWebSocket served1.1 2 (tokenRequest "token") (toyConnect 50) [typing " -l"; (toyEnv 60, Ok (false, ["x"%byte]))] 70.
Definition served3 := handleWebSocket served2.1 3 (tokenRequest "wrong") (toyConnect 80) [] 90.

Definition session_view (srv : @Server tree) (n : nat) : option (bytes * sessionState * Z * option Z) :=
  (fun s => (typed (term s), SessionLifecycle.state (lifecycle s), generation s, detachTimer s)) <$> srv_sessions srv !! n.

Example serving :
  served1.2 = Attached 0 true ∧
  session_view served1.1 0 = Some (bytes_of_string "ls", sessionStateDetached, 1, Some (40 + 90 * Ticket.Second)) ∧
  served2.2 = Attached 0 true ∧
  session_view served2.1 0 = Some (bytes_of_string "ls -l", sessionStateEnding, 1, None) ∧
  served3.2 = Refused StatusUnauthorized.
Proof. vm_compute. auto 10. Qed.

Lemma served2_steps : server_steps server0 served2.1.
Proof.
  eapply steps_trans; [apply (handleWebSocket_steps server0 1); reflexivity|].
  apply (handleWebSocket_steps served1.1 2). vm_compute. reflexivity.
Qed.


