(* ===== verification/AppRoutes.v ===== *)
(** * The routes of the session application ([internal/server/server.go])

    Which handler answers a path, where the front end is served from, and the
    goroutine that keeps a connection alive.  The handlers are those of
    [SessionServer] and [PairedSession]; what a file server sends is the library's. *)

From S2P Require Import Prelude.
From S2P Require Import SecureStore.
From S2P Require Import WebsocketWriter.

Inductive AppHandler :=
  | HealthzHandler | StatusHandler | WebSocketHandler | SessionNonceHandler | WebSessionHandler | StaticHandler.

(** The multiplexer of [Handler]. *)
Definition Handler (path : string) : AppHandler :=
  if bool_decide (path = "/healthz"%string) then HealthzHandler
  else if bool_decide (path = "/status"%string) then StatusHandler
  else if bool_decide (path = "/ws"%string) then WebSocketHandler
  else if bool_decide (path = "/pairing/session-nonce"%string) then SessionNonceHandler
  else if bool_decide (path = "/pairing/web-session"%string) then WebSessionHandler
  else StaticHandler.

(** ** The front end *)

Inductive StaticReply := NotFound | Directory (dir : string) | EmbeddedFiles | Fallback.

Definition handleEmbeddedStatic (embedded : bool) : StaticReply := if embedded then EmbeddedFiles else Fallback.

(** [index] is the outcome of [os.Stat] for the index file: only one that is not
    there leads to the embedded files. *)
Definition handleStatic (webDir : string) (embedded : bool) (index : result unit) (path : string) : StaticReply :=
  if negb (bool_decide (path = "/"%string)) && String.prefix "/ws" path then NotFound
  else if bool_decide (webDir = EmptyString) then handleEmbeddedStatic embedded
  else match index with
  | Err e => if errors_is e os_ErrNotExist then handleEmbeddedStatic embedded else Directory webDir
  | Ok _ => Directory webDir
  end.

(** Every path has one answer: the five endpoints are never looked up as files, and
    no path below [/ws] is. *)
Theorem api_is_never_static webDir embedded index path :
  (Handler path = StaticHandler ↔
     path ∉ ["/healthz"; "/status"; "/ws"; "/pairing/session-nonce"; "/pairing/web-session"]%string) ∧
  (String.prefix "/ws" path = true → handleStatic webDir embedded index path = NotFound).
Proof.
  split.
  - unfold Handler. repeat case_bool_decide; subst; set_solver.
  - intros Hp. unfold handleStatic. rewrite Hp. rewrite bool_decide_eq_false_2; [done|]. by intros ->.
Qed.

(** ** Keeping a connection alive *)

(** [keepConnectionAlive]: the ticks before it is told to stop, up to the first ping
    that fails. *)
Fixpoint keepConnectionAlive (w : websocketWriter) (ticks : nat) : websocketWriter :=
  match ticks with
  | O => w
  | S ticks =>
      match writePing w with
      | (w, Err _) => w
      | (w, Ok _) => keepConnectionAlive w ticks
      end
  end.

(** It pings on every tick until one cannot be written, and then never again. *)
Theorem keep_alive_until_failure ticks : ∀ w, ∃ sent,
  let w' := keepConnectionAlive w ticks in
  (sent <= ticks)%nat ∧ written (conn w') = written (conn w) ++ replicate sent PingMessage ∧
  (sent = ticks ∨ is_Some (conn_fault (conn w) (conn_writes (conn w) + sent)%nat) ∧
     conn_writes (conn w') = (conn_writes (conn w) + sent + 1)%nat).
Proof.
  induction ticks as [|ticks IH]; intros w; [exists O; simpl; by rewrite app_nil_r; auto|].
  simpl. unfold writePing, writeFrame, WriteFrame. destruct (conn_fault (conn w) (conn_writes (conn w))) as [e|] eqn:Hf.
  - exists O. simpl. rewrite app_nil_r, Nat.add_0_r, Hf. split_and!; [lia|done|]. right. split; [by eexists|lia].
  - edestruct IH as (sent & Hle & Hw & Hend). exists (S sent). split; [lia|]. rewrite Hw. simpl. rewrite <- app_assoc. split; [done|].
    destruct Hend as [->|[Hs He]]; [by left|]. right. simpl in Hs, He. split.
    + by replace (conn_writes (conn w) + S sent)%nat with (S (conn_writes (conn w)) + sent)%nat by lia.
    + rewrite He. lia.
Qed.
