(* ===== verification/TerminalLaunch.v ===== *)
(** * Launching and ending a terminal's processes ([internal/server/terminal.go],
      [process_tree_unix.go], [process_tree_windows.go])

    A session runs its command on a new pseudo-terminal and keeps a handle on the
    whole tree of processes that grows out of it: on Unix the process group of the
    leader, on Windows a job object that kills its members when it is closed.  The
    two are instances of one class; what the launcher and the session need of them
    is a class of laws.  The operating system is a table of processes; what its calls
    return is given. *)

From S2P Require Import Prelude.

(** ** The operating system *)

(** A process: what it was started with, its group and the jobs it is in, both of
    which its children inherit. *)
Record Process := mkProcess {
  proc_argv : list string;
  proc_dir : string;
  proc_env : list string;
  proc_group : Z;
  proc_jobs : gset nat;
}.

#[global] Instance Process_eta : Eta Process := fun p =>
  mkProcess (proc_argv p) (proc_dir p) (proc_env p) (proc_group p) (proc_jobs p).

(** Processes by identifier, the open jobs with their limit
    KILL_ON_JOB_CLOSE, and the open pseudo-terminals. *)
Record Kernel := mkKernel {
  processes : gmap Z Process;
  jobs : gmap nat bool;
  ptys : gset nat;
}.

#[global] Instance Kernel_eta : Eta Kernel := fun k => mkKernel (processes k) (jobs k) (ptys k).

(** SIGKILL to a process group: it fails with ESRCH when the group is empty. *)
Definition unix_ESRCH : error := ErrorString "no such process".

Definition killGroup (k : Kernel) (group : Z) (outcome : option error) : Kernel * option error :=
  if bool_decide (map_Forall (fun _ p => proc_group p ≠ group) (processes k)) then (k, Some unix_ESRCH)
  else match outcome with
  | Some e => (k, Some e)
  | None => (k <| processes ::= filter (fun kv => proc_group kv.2 ≠ group) |>, None)
  end.

(** Closing the only handle of a job. *)
Definition closeJob (k : Kernel) (job : nat) : Kernel :=
  let k' := k <| jobs ::= delete job |> in
  if bool_decide (jobs k !! job = Some true) then k' <| processes ::= filter (fun kv => job ∉ proc_jobs kv.2) |> else k'.

(** ** Process trees *)

(** The outcomes of the four calls that set up a job. *)
Record TreeCalls := mkTreeCalls {
  tc_create : result nat;
  tc_limits : result unit;
  tc_open : result unit;
  tc_assign : result unit;
}.

Class ProcessTree := {
  Tree : Type;
  newProcessTree : Kernel → Z → TreeCalls → Kernel * result Tree;
  Tree_Close : Kernel → Tree → option error → Kernel * result unit;
  inTree : Tree → Process → bool;
}.

Definition newUnixProcessTree (k : Kernel) (pid : Z) (calls : TreeCalls) : Kernel * result Z :=
  if pid <=? 0 then (k, Err (ErrorString "create Unix process tree: process ID is not available")) else (k, Ok pid).

Definition unixProcessTree_Close (k : Kernel) (processGroupID : Z) (outcome : option error) : Kernel * result unit :=
  if processGroupID <=? 0 then (k, Ok tt)
  else match killGroup k processGroupID outcome with
  | (k, Some e) =>
      if errors_is e unix_ESRCH then (k, Ok tt) else (k, Err (ErrorWrap "kill Unix PTY process group %d" e))
  | (k, None) => (k, Ok tt)
  end.

#[global] Instance unixProcessTree : ProcessTree := {|
  Tree := Z;
  newProcessTree := newUnixProcessTree;
  Tree_Close := unixProcessTree_Close;
  inTree group p := proc_group p =? group;
|}.

Definition newWindowsProcessTree (k : Kernel) (pid : Z) (calls : TreeCalls) : Kernel * result nat :=
  match tc_create calls with
  | Err e => (k, Err (ErrorWrap "create Windows Job Object" e))
  | Ok job =>
      let k := k <| jobs ::= insert job false |> in
      match tc_limits calls with
      | Err e => (closeJob k job, Err (ErrorWrap "configure Windows Job Object" e))
      | Ok _ =>
          let k := k <| jobs ::= insert job true |> in
          match tc_open calls with
          | Err e => (closeJob k job, Err (ErrorWrap "open PTY process %d" e))
          | Ok _ =>
              match tc_assign calls with
              | Err e => (closeJob k job, Err (ErrorWrap "assign PTY process %d to Windows Job Object" e))
              | Ok _ =>
                  (k <| processes ::= alter (fun p => p <| proc_jobs ::= union {[job]} |>) pid |>, Ok job)
              end
          end
      end
  end.

Definition windowsProcessTree_Close (k : Kernel) (job : nat) (outcome : option error) : Kernel * result unit :=
  match outcome with
  | Some e => (k, Err (ErrorWrap "close Windows Job Object" e))
  | None => (closeJob k job, Ok tt)
  end.

#[global] Instance windowsProcessTree : ProcessTree := {|
  Tree := nat;
  newProcessTree := newWindowsProcessTree;
  Tree_Close := windowsProcessTree_Close;
  inTree job p := bool_decide (job ∈ proc_jobs p);
|}.

(** ** Launching *)

Record LaunchRequest := mkLaunchRequest {
  Request_Command : list string;
  Request_WorkingDirectory : string;
  Request_Environment : option (list string);
}.

Record LaunchCalls := mkLaunchCalls {
  lc_pty : result nat;
  lc_environ : list string;
  lc_start : result Z;
  lc_tree : TreeCalls;
}.

Definition closePty (k : Kernel) (pty : nat) : Kernel := k <| ptys ::= fun s => s ∖ {[pty]} |>.

(** Killing the process and waiting for it. *)
Definition killProcess (k : Kernel) (pid : Z) : Kernel := k <| processes ::= delete pid |>.

(** The pseudo-terminal starts a command as the leader of a session and a group of
    its own. *)
Definition startProcess (k : Kernel) (pid : Z) (request : LaunchRequest) (environ : list string) : Kernel :=
  k <| processes ::= insert pid (mkProcess (Request_Command request) (Request_WorkingDirectory request)
         (default environ (Request_Environment request)) pid ∅) |>.

Section Launch.
Context {trees : ProcessTree}.

(** What a session keeps of its terminal. *)
Record terminalLaunch := mkTerminalLaunch { launch_terminal : nat; processTree : Tree; launch_pid : Z }.

(** [ptyTerminalLauncher.Start] *)
Definition Start (k : Kernel) (calls : LaunchCalls) (request : LaunchRequest) : Kernel * result terminalLaunch :=
  match Request_Command request with
  | [] => (k, Err (ErrorString "terminal command must not be empty"))
  | _ =>
      match lc_pty calls with
      | Err e => (k, Err e)
      | Ok instance =>
          let k := k <| ptys ::= union {[instance]} |> in
          match lc_start calls with
          | Err e => (closePty k instance, Err e)
          | Ok pid =>
              match newProcessTree (startProcess k pid request (lc_environ calls)) pid (lc_tree calls) with
              | (k, Err e) => (closePty (killProcess k pid) instance, Err e)
              | (k, Ok t) => (k, Ok (mkTerminalLaunch instance t pid))
              end
          end
      end
  end.

(** ** What happens meanwhile *)

(** Processes fork and end, and others are started. *)
Inductive ProcessStep :=
  | Fork (parent child : Z)
  | Exited (pid : Z)
  | Elsewhere (pid : Z) (p : Process).

Definition process_step (k : Kernel) (step : ProcessStep) : Kernel :=
  match step with
  | Fork parent child =>
      match processes k !! parent, processes k !! child with
      | Some p, None => k <| processes ::= insert child p |>
      | _, _ => k
      end
  | Exited pid => k <| processes ::= delete pid |>
  | Elsewhere pid p =>
      match processes k !! pid with Some _ => k | None => k <| processes ::= insert pid p |> end
  end.

(** The living descendants of the first process, itself included. *)
Definition family_step (k : Kernel) (family : gset Z) (step : ProcessStep) : gset Z :=
  match step with
  | Fork parent child =>
      if bool_decide (parent ∈ family) && bool_decide (processes k !! child = None) then {[child]} ∪ family else family
  | Exited pid => family ∖ {[pid]}
  | Elsewhere _ _ => family
  end.

Fixpoint family_run (k : Kernel) (family : gset Z) (steps : list ProcessStep) : Kernel * gset Z :=
  match steps with
  | [] => (k, family)
  | step :: steps => family_run (process_step k step) (family_step k family step) steps
  end.

(** What the launcher and the session ask of a platform's trees. *)
Class ProcessTreeLaws := {
  (** The tree can be closed, as long as the open jobs stay as they are. *)
  tree_ready : Kernel → Tree → Prop;
  ready_jobs k k' t : jobs k' = jobs k → tree_ready k t → tree_ready k' t;
  (** Children are in the tree of their parents. *)
  inTree_inherited t p p' : proc_group p = proc_group p' → proc_jobs p = proc_jobs p' → inTree t p = inTree t p';
  (** A new tree holds the process it is made for and no other. *)
  new_tree k pid calls p k' t :
    processes k !! pid = Some p → proc_group p = pid → (∀ q x, q ≠ pid → processes k !! q = Some x → proc_group x ≠ pid) →
    (∀ job, tc_create calls = Ok job → ∀ q x, processes k !! q = Some x → job ∉ proc_jobs x) →
    newProcessTree k pid calls = (k', Ok t) →
    tree_ready k' t ∧ ptys k' = ptys k ∧ ∃ p', processes k' = <[pid := p']> (processes k) ∧ inTree t p' = true ∧
      proc_argv p' = proc_argv p ∧ proc_dir p' = proc_dir p ∧ proc_env p' = proc_env p ∧
      ∀ q x, q ≠ pid → processes k !! q = Some x → inTree t x = false;
  (** One that is not made leaves nothing behind. *)
  no_tree k pid calls k' e :
    (∀ job, tc_create calls = Ok job → jobs k !! job = None ∧ ∀ q x, processes k !! q = Some x → job ∉ proc_jobs x) →
    newProcessTree k pid calls = (k', Err e) → k' = k;
  (** Closing ends the processes in the tree and no others, or fails; ESRCH is kept
      for an empty group. *)
  close_tree k t outcome k' r :
    tree_ready k t → (∀ e, outcome = Some e → errors_is e unix_ESRCH = false) → Tree_Close k t outcome = (k', r) →
    match r with
    | Ok _ => processes k' = filter (fun kv => inTree t kv.2 = false) (processes k)
    | Err _ => k' = k ∧ outcome ≠ None
    end;
}.
End Launch.
#[global] Arguments ProcessTreeLaws : clear implicits.

(** ** The two platforms *)

Lemma closeJob_unused k job b :
  jobs k !! job = None → (∀ q x, processes k !! q = Some x → job ∉ proc_jobs x) → closeJob (k <| jobs ::= insert job b |>) job = k.
Proof.
  intros Hj Hp. destruct k as [ps js ts]. unfold closeJob. simpl in *. rewrite lookup_insert_eq, delete_insert_id by done.
  case_bool_decide; [|done]. simpl. f_equal. apply map_filter_id. intros q x Hq. by apply (Hp q).
Qed.

#[global, program] Instance unix_laws : ProcessTreeLaws unixProcessTree := {| tree_ready k t := 0 < t |}.
Next Obligation. done. Qed.
Next Obligation. intros t p p' Hg _. simpl. by rewrite Hg. Qed.
Next Obligation.
  intros k pid calls p k' t Hp Hg Ho _ H. simpl in *. unfold newUnixProcessTree in H.
  destruct (Z.leb_spec pid 0); simplify_eq/=. split; [done|]. split; [done|]. exists p. rewrite insert_id by done.
  split_and!; try done; [by apply Z.eqb_eq|]. intros q x Hne Hq. apply Z.eqb_neq. by apply (Ho q).
Qed.
Next Obligation. intros k pid calls k' e _ H. simpl in H. unfold newUnixProcessTree in H. by case_match; simplify_eq. Qed.
Next Obligation.
  intros k t outcome k' r Hr Ho H. simpl in *. unfold unixProcessTree_Close in H. destruct (Z.leb_spec t 0); [lia|].
  unfold killGroup in H. case_bool_decide as Hempty.
  - simpl in H. simplify_eq. symmetry. apply map_filter_id. intros q x Hq. apply Z.eqb_neq. by apply (Hempty q).
  - destruct outcome as [e|]; [rewrite Ho in H by done; by simplify_eq|]. simplify_eq/=.
    apply map_filter_ext. intros q x _. simpl. by rewrite Z.eqb_neq.
Qed.

#[global, program] Instance windows_laws : ProcessTreeLaws windowsProcessTree := {| tree_ready k t := jobs k !! t = Some true |}.
Next Obligation. simpl. intros k k' t E H. by rewrite E. Qed.
Next Obligation. intros t p p' _ Hj. simpl. by rewrite Hj. Qed.
Next Obligation.
  intros k pid calls p k' t Hp _ _ Hfresh H. simpl in *. unfold newWindowsProcessTree in H.
  destruct (tc_create calls) as [job|]; [|done]. destruct (tc_limits calls), (tc_open calls), (tc_assign calls); simplify_eq/=.
  split; [by rewrite lookup_insert_eq|]. split; [done|]. exists (p <| proc_jobs ::= union {[t]} |>). split_and!; try done.
  - apply map_eq. intros q. destruct (decide (q = pid)) as [->|Hne].
    + by rewrite lookup_alter_eq, lookup_insert_eq, Hp.
    + by rewrite lookup_alter_ne, lookup_insert_ne.
  - apply bool_decide_eq_true. simpl. set_solver.
  - intros q x Hne Hq. apply bool_decide_eq_false. by apply (Hfresh t eq_refl q).
Qed.
Next Obligation.
  intros k pid calls k' e Hfresh H. simpl in *. unfold newWindowsProcessTree in H.
  destruct (tc_create calls) as [job|]; [|by simplify_eq]. destruct (Hfresh job eq_refl) as [Hj Hp].
  destruct (tc_limits calls); [|simplify_eq; by apply closeJob_unused].
  replace (k <| jobs ::= insert job false |> <| jobs ::= insert job true |>) with (k <| jobs ::= insert job true |>) in H
    by (destruct k; cbn; f_equal; by rewrite insert_insert_eq).
  destruct (tc_open calls), (tc_assign calls); simplify_eq; by apply closeJob_unused.
Qed.
Next Obligation.
  intros k t outcome k' r Hr _ H. simpl in *. unfold windowsProcessTree_Close in H. destruct outcome; simplify_eq; [done|].
  unfold closeJob. rewrite bool_decide_eq_true_2 by done. simpl. apply map_filter_ext. intros q x _. simpl.
  by rewrite bool_decide_eq_false.
Qed.

(** ** Nothing is left running *)

Section Ended.
Context {trees : ProcessTree} {laws : ProcessTreeLaws trees}.

(** What the operating system makes new is new. *)
Record FreshLaunch (k : Kernel) (calls : LaunchCalls) : Prop := mkFreshLaunch {
  fresh_pty i : lc_pty calls = Ok i → i ∉ ptys k;
  fresh_pid pid : lc_start calls = Ok pid →
    processes k !! pid = None ∧ ∀ q x, processes k !! q = Some x → proc_group x ≠ pid;
  fresh_job job : tc_create (lc_tree calls) = Ok job →
    jobs k !! job = None ∧ ∀ q x, processes k !! q = Some x → job ∉ proc_jobs x;
}.

(** The living family is exactly what is in the tree. *)
Definition family_ok (t : Tree) (k : Kernel) (family : gset Z) : Prop :=
  (∀ q, q ∈ family → is_Some (processes k !! q)) ∧
  ∀ q x, processes k !! q = Some x → (inTree t x = true ↔ q ∈ family).

Definition stranger (t : Tree) (step : ProcessStep) : Prop :=
  match step with Elsewhere _ p => inTree t p = false | _ => True end.

Lemma family_step_ok t k family step :
  stranger t step → family_ok t k family → family_ok t (process_step k step) (family_step k family step).
Proof.
  intros Hs [Ha Hf]. destruct step as [parent child|pid|pid p]; simpl in *.
  - destruct (processes k !! parent) as [p|] eqn:Hp.
    2:{ assert (parent ∉ family) as Hn by (intros Hin; destruct (Ha _ Hin); congruence).
        by rewrite bool_decide_eq_false_2. }
    destruct (processes k !! child) as [c|] eqn:Hc; [by rewrite (bool_decide_eq_false_2 (Some c = None)), andb_false_r by done|].
    assert (child ∉ family) as Hn by (intros Hin; destruct (Ha _ Hin); congruence).
    rewrite (bool_decide_eq_true_2 (None = None)) by done. specialize (Hf _ _ Hp) as Hpf.
    split; simpl.
    + intros q Hq. destruct (decide (q = child)) as [->|Hne]; [by rewrite lookup_insert_eq|].
      rewrite lookup_insert_ne by done. apply Ha. case_bool_decide; simpl in Hq; set_solver.
    + intros q x [[<- <-]|[Hne Hq]]%lookup_insert_Some.
      * rewrite Hpf. case_bool_decide; simpl; set_solver.
      * rewrite (Hf _ _ Hq). case_bool_decide; simpl; set_solver.
  - split; simpl.
    + intros q Hq. rewrite lookup_delete_ne by set_solver. apply Ha. set_solver.
    + intros q x [Hne Hq]%lookup_delete_Some. rewrite (Hf _ _ Hq). set_solver.
  - destruct (processes k !! pid) as [c|] eqn:Hc; [done|]. split; simpl.
    + intros q Hq. destruct (Ha _ Hq) as [x Hx]. rewrite lookup_insert_ne; [by eexists|]. by intros ->; congruence.
    + intros q x [[<- <-]|[Hne Hq]]%lookup_insert_Some; [|by apply Hf].
      rewrite Hs. split; [done|]. intros Hin. destruct (Ha _ Hin). congruence.
Qed.

Lemma process_step_jobs k step : jobs (process_step k step) = jobs k.
Proof. destruct step; simpl; by repeat case_match. Qed.

Lemma family_run_ok t steps : ∀ k family, Forall (stranger t) steps → family_ok t k family → tree_ready k t →
  let '(k', family') := family_run k family steps in family_ok t k' family' ∧ tree_ready k' t.
Proof.
  induction steps as [|step steps IH]; intros k family Hs Hf Hr; simpl; [done|].
  apply Forall_cons in Hs as [Hstep Hs]. apply IH; [done|by apply family_step_ok|].
  revert Hr. apply ready_jobs, process_step_jobs.
Qed.

(** The process of a launch, before and after its tree is made. *)
Definition leader (calls : LaunchCalls) (request : LaunchRequest) (pid : Z) : Process :=
  mkProcess (Request_Command request) (Request_WorkingDirectory request)
    (default (lc_environ calls) (Request_Environment request)) pid ∅.

Lemma closePty_fresh k ps instance :
  instance ∉ ptys k → closePty (mkKernel ps (jobs k) ({[instance]} ∪ ptys k)) instance = mkKernel ps (jobs k) (ptys k).
Proof. intros Hn. unfold closePty. simpl. f_equal. set_solver. Qed.

(** What the launcher has when it makes the tree. *)
Lemma Start_cases k calls request k1 r :
  FreshLaunch k calls → Start k calls request = (k1, r) →
  (k1 = k ∧ is_ok r = false) ∨
  ∃ instance pid ks, lc_pty calls = Ok instance ∧ lc_start calls = Ok pid ∧
    ks = startProcess (k <| ptys ::= union {[instance]} |>) pid request (lc_environ calls) ∧
    (k1, r) = match newProcessTree ks pid (lc_tree calls) with
              | (k', Err e) => (closePty (killProcess k' pid) instance, Err e)
              | (k', Ok t) => (k', Ok (mkTerminalLaunch instance t pid))
              end.
Proof.
  intros [Hpty _ _] H. unfold Start in H. destruct (Request_Command request) as [|c args]; [left; by simplify_eq|].
  destruct (lc_pty calls) as [instance|e]; [|left; by simplify_eq].
  destruct (lc_start calls) as [pid|e]; [right; by eexists _, _, _|left]. simplify_eq. split; [|done].
  etrans; [apply (closePty_fresh k (processes k)); by apply Hpty|by destruct k].
Qed.

(** The jobs that can be made for the new process are new to it too. *)
Lemma leader_fresh k calls request pid instance :
  FreshLaunch k calls → let ks := startProcess (k <| ptys ::= union {[instance]} |>) pid request (lc_environ calls) in
  ∀ job, tc_create (lc_tree calls) = Ok job →
    jobs ks !! job = None ∧ ∀ q x, processes ks !! q = Some x → job ∉ proc_jobs x.
Proof.
  intros [_ _ Hjob] ks job Hj. destruct (Hjob job Hj) as [? Hno]. split; [done|]. unfold ks. simpl.
  intros q x [[<- <-]|[_ Hq]]%lookup_insert_Some; [simpl; set_solver|by apply (Hno q)].
Qed.

Lemma Start_failed k calls request k1 e : FreshLaunch k calls → Start k calls request = (k1, Err e) → k1 = k.
Proof.
  intros Hf H. pose proof Hf as [Hpty Hpid _].
  destruct (Start_cases _ _ _ _ _ Hf H) as [[-> _]|(instance & pid & ks & Hi & Hp & Hks & HT)]; [done|].
  destruct (newProcessTree ks pid (lc_tree calls)) as [k' [t|e']] eqn:HN; simplify_eq.
  apply no_tree in HN as ->; [|by apply leader_fresh]. unfold killProcess. simpl.
  rewrite delete_insert_id by (by apply Hpid). etrans; [apply (closePty_fresh k (processes k)); by apply Hpty|by destruct k].
Qed.

Lemma Start_succeeded k calls request k1 launch : FreshLaunch k calls → Start k calls request = (k1, Ok launch) →
  tree_ready k1 (processTree launch) ∧ family_ok (processTree launch) k1 {[launch_pid launch]} ∧
  ∃ p, processes k1 = <[launch_pid launch := p]> (processes k) ∧ proc_argv p = Request_Command request ∧
    proc_dir p = Request_WorkingDirectory request ∧ proc_env p = default (lc_environ calls) (Request_Environment request).
Proof.
  intros Hf H. pose proof Hf as [_ Hpid _].
  destruct (Start_cases _ _ _ _ _ Hf H) as [[_ ?]|(instance & pid & ks & Hi & Hp & Hks & HT)]; [done|].
  destruct (newProcessTree ks pid (lc_tree calls)) as [k' [t|e]] eqn:HN; simplify_eq. simpl.
  destruct (Hpid pid Hp) as [Hnone Hgroup]. pose proof (leader_fresh _ _ request pid instance Hf) as Hfresh. simpl in Hfresh.
  eapply (new_tree _ _ _ (leader calls request pid)) in HN as (Hready & _ & p' & Hp' & Hin & Ea & Ed & Ee & Hout);
    [|by simpl; rewrite lookup_insert_eq|done|intros q x Hne; simpl; rewrite lookup_insert_ne by done; apply Hgroup|
     intros job Hj; by apply Hfresh].
  simpl in Hp', Hout. rewrite insert_insert_eq in Hp'. split; [done|]. split; [|by exists p'].
  split; rewrite Hp'.
  - intros q ->%elem_of_singleton. by rewrite lookup_insert_eq.
  - intros q x [[<- <-]|[Hne Hq]]%lookup_insert_Some; [set_solver|].
    assert (inTree t x = false) as -> by (apply (Hout q); [done|by rewrite lookup_insert_ne]). set_solver.
Qed.

(** Closing a tree that holds the family. *)
Lemma close_family k family t outcome :
  tree_ready k t → family_ok t k family → (∀ e, outcome = Some e → errors_is e unix_ESRCH = false) →
  let '(k', closed) := Tree_Close k t outcome in
  match closed with
  | Ok _ => ∀ q, processes k' !! q = if bool_decide (q ∈ family) then None else processes k !! q
  | Err _ => k' = k ∧ outcome ≠ None
  end.
Proof.
  intros Hr [_ Hf] Ho. destruct (Tree_Close k t outcome) as [k' closed] eqn:HC. apply (close_tree _ _ _ _ _ Hr Ho) in HC.
  destruct closed; [|done]. intros q. rewrite HC, map_lookup_filter. destruct (processes k !! q) as [x|] eqn:Hq; simpl.
  - specialize (Hf q x Hq). case_bool_decide as Hin.
    + apply Hf in Hin. rewrite Hin. by rewrite option_guard_False.
    + rewrite option_guard_True; [done|]. destruct (inTree t x); [|done]. by destruct Hin; apply Hf.
  - by case_bool_decide.
Qed.

End Ended.

(** * A terminal's processes ([TerminalLaunch]), executed on both platforms *)

(** A computer where process 1 runs already. *)
Definition computer : Kernel := mkKernel {[1 := mkProcess ["init"%string] "/" [] 1 ∅]} ∅ ∅.
Definition shell : LaunchRequest := mkLaunchRequest ["sh"; "-i"]%string "/home" None.
Definition shellCalls : LaunchCalls :=
  mkLaunchCalls (Ok 5%nat) ["HOME=/home"%string] (Ok 100) (mkTreeCalls (Ok 7%nat) (Ok tt) (Ok tt) (Ok tt)).

(** The shell starts a program that starts another and ends; a stranger is started. *)
Definition busy : list ProcessStep :=
  [Fork 100 101; Fork 101 102; Exited 101; Elsewhere 103 (mkProcess ["other"%string] "/" [] 103 ∅); Fork 103 104].

(** Who is there after the tree has been closed. *)
Definition survivors {trees : ProcessTree} (outcome : option error) : list Z :=
  match Start computer shellCalls shell with
  | (k, Ok launch) =>
      let '(k, _) := family_run k {[launch_pid launch]} busy in
      elements (dom (processes (Tree_Close k (processTree launch) outcome).1))
  | _ => []
  end.

Example survivors_unix :
  survivors (trees := unixProcessTree) None = [103; 104; 1] ∧
  survivors (trees := unixProcessTree) (Some (ErrorString "operation not permitted")) = [103; 102; 100; 104; 1].
Proof. vm_compute. done. Qed.
Example survivors_windows : survivors (trees := windowsProcessTree) None = [103; 104; 1].
Proof. vm_compute. done. Qed.

(** A launch that fails late: the job cannot be assigned. *)
Example failed_launch :
  (Start (trees := windowsProcessTree) computer
     (mkLaunchCalls (Ok 5%nat) [] (Ok 100) (mkTreeCalls (Ok 7%nat) (Ok tt) (Ok tt) (Err unix_ESRCH))) shell).1 = computer.
Proof. vm_compute. done. Qed.

Lemma fresh_shell : FreshLaunch computer shellCalls.
Proof.
  split; simpl.
  - intros i [= <-]. set_solver.
  - intros pid [= <-]. split; [done|]. intros q x [<- <-]%lookup_singleton_Some. simpl. lia.
  - intros job [= <-]. split; [done|]. intros q x [<- <-]%lookup_singleton_Some. simpl. set_solver.
Qed.

Lemma busy_strangers : Forall (stranger (trees := unixProcessTree) (100 : @Tree unixProcessTree)) busy.
Proof. repeat constructor. Qed.

