(* ===== verification/Reconnect.v ===== *)
(** * Reconnect back-off ([internal/reconnect/backoff.go])

    The waits between attempts to reconnect and the loop that takes them.  The
    jitter is a sequence of [float64] draws; the conversion of a [float64] outside
    the range of [int64] depends on the processor and is a parameter. *)

From S2P Require Import Prelude.
From S2P Require Import Utf8.
From S2P Require Import GoTime.

From Stdlib Require Import Floats.SpecFloat.

Definition DefaultBaseDelay : Z := 100 * 1000000.
Definition DefaultMaxDelay : Z := 30 * 1000000000.
Definition DefaultMultiplier : float64 := float64_of 3.

Record BackoffConfig := mkBackoffConfig {
  BaseDelay : Z;
  MaxDelay : Z;
  Multiplier : float64;
}.

Definition baseDelay (c : BackoffConfig) : Z := if BaseDelay c >? 0 then BaseDelay c else DefaultBaseDelay.
Definition maxDelay (c : BackoffConfig) : Z := if MaxDelay c >? 0 then MaxDelay c else DefaultMaxDelay.
Definition multiplier (c : BackoffConfig) : float64 :=
  if float64_leb (Multiplier c) (float64_of 1) then DefaultMultiplier else Multiplier c.

(** [defaultRand], on the eight random bytes. *)
Definition defaultRand (buf : bytes) : float64 :=
  let mantissa := Z.land (foldl (fun n x => n * 256 + byte_val x) 0 (take 8 buf)) (2 ^ 52 - 1) in
  float64_div (float64_of mantissa) (float64_of (2 ^ 52)).

Section Backoff.
(** [time.Duration(x)] when [x] does not round to a 64-bit integer. *)
Context (out_of_range : float64 → Z).

Definition toDuration (x : float64) : Z :=
  match float64_trunc x with
  | Some n => if (- 2 ^ 63 <=? n) && (n <? 2 ^ 63) then n else out_of_range x
  | None => out_of_range x
  end.

(** The loop of [Delay]; [draw i] is the jitter of the [i]-th round. *)
Fixpoint delayLoop (c : BackoffConfig) (draw : nat → float64) (rounds : nat) : Z :=
  match rounds with
  | O => baseDelay c
  | S i =>
      let delay := delayLoop c draw i in
      let next := toDuration (float64_mul (float64_mul (draw i) (float64_of delay)) (multiplier c)) in
      if next >? maxDelay c then maxDelay c else next
  end.

Definition Delay (c : BackoffConfig) (draw : nat → float64) (n : Z) : Z :=
  if n <=? 0 then 0 else delayLoop c draw (Z.to_nat (n - 1)).

(** [Schedule]; each delay is computed with draws of its own. *)
Definition Schedule (c : BackoffConfig) (draws : Z → nat → float64) (n : Z) : list Z :=
  if n <=? 0 then [] else map (fun i => Delay c (draws (Z.of_nat i)) (Z.of_nat i)) (seq 1 (Z.to_nat n)).

(** [Wait]: how long it blocks, if it does; [cancelled] is [ctx.Err()] before a
    wait that does not block, or what ends one that does. *)
Definition Wait (c : BackoffConfig) (draw : nat → float64) (n : Z) (cancelled : option error)
    : option Z * option error :=
  let delay := Delay c draw n in
  if delay <=? 0 then (None, cancelled) else (Some delay, cancelled).

Definition ErrAttemptsExhausted : error := ErrorString "reconnect: attempt counter overflowed".

(** What one round of [Loop] meets: the outcome of the operation, the context
    after it, and the context during the wait with its draws. *)
Record LoopRound := mkLoopRound {
  op_error : option error;
  ctx_after : option error;
  ctx_waiting : option error;
  round_draw : nat → float64;
}.

(** The attempts made and the waits asked for, with the value [Loop] returns;
    [None] while it has not returned. *)
Fixpoint loopFrom (c : BackoffConfig) (attempt : Z) (rounds : list LoopRound)
    : list Z * list (Z * option Z) * option (option error) :=
  match rounds with
  | [] => ([], [], None)
  | r :: rounds =>
      match op_error r with
      | None => ([attempt], [], Some None)
      | Some _ =>
          match ctx_after r with
          | Some e => ([attempt], [], Some (Some e))
          | None =>
              let n := i64 (attempt + 1) in
              let '(blocked, err) := Wait c (round_draw r) n (ctx_waiting r) in
              match err with
              | Some e => ([attempt], [(n, blocked)], Some (Some e))
              | None =>
                  let attempt' := i64 (attempt + 1) in
                  if attempt' <? 0 then ([attempt], [(n, blocked)], Some (Some ErrAttemptsExhausted))
                  else let '(attempts, waits, result) := loopFrom c attempt' rounds in
                       (attempt :: attempts, (n, blocked) :: waits, result)
              end
          end
      end
  end.

Definition Loop (c : BackoffConfig) (rounds : list LoopRound) : list Z * list (Z * option Z) * option (option error) :=
  loopFrom c 1 rounds.
End Backoff.

(** ** The range of a wait *)

Definition not_negative (x : float64) : Prop :=
  match x with
  | S754_zero s | S754_infinity s | S754_finite s _ _ => s = false
  | S754_nan => True
  end.

Lemma shr_1_nonneg r : 0 <= shr_m r → 0 <= shr_m (shr_1 r).
Proof. destruct r as [[|[p|p|]|[p|p|]] b s]; simpl; lia. Qed.

Lemma iter_shr_nonneg p : ∀ r, 0 <= shr_m r → 0 <= shr_m (SpecFloat.iter_pos shr_1 p r).
Proof. induction p as [p IH|p IH|]; intros r Hr; simpl; auto using shr_1_nonneg. Qed.

Lemma shr_nonneg r e n : 0 <= shr_m r → 0 <= shr_m (shr r e n).1.
Proof. intros Hr. unfold shr. destruct n; simpl; auto using iter_shr_nonneg. Qed.

Lemma round_not_negative m e : 0 <= m → not_negative (binary_round_aux 53 1024 false m e loc_Exact).
Proof.
  intros Hm. unfold binary_round_aux, shr_fexp.
  match goal with |- context [shr ?r ?e ?n] =>
    pose proof (shr_nonneg r e n Hm) as H1; destruct (shr r e n) as [mrs' e'] end. simpl in H1.
  match goal with |- context [shr (shr_record_of_loc ?m loc_Exact) ?e ?n] =>
    assert (0 <= m) as Hm' end.
  { unfold round_nearest_even. repeat case_match; lia. }
  match goal with |- context [shr ?r ?e ?n] =>
    pose proof (shr_nonneg r e n Hm') as H2; destruct (shr r e n) as [mrs'' e''] end. simpl in H2.
  destruct (shr_m mrs''); simpl; try done. by destruct (_ <=? _).
Qed.

Lemma float64_of_not_negative z : 0 <= z → not_negative (float64_of z).
Proof.
  intros Hz. unfold float64_of, binary_normalize. destruct z; [done| |lia].
  unfold binary_round. case_match. by apply round_not_negative.
Qed.

Lemma mul_not_negative x y : not_negative x → not_negative y → not_negative (float64_mul x y).
Proof.
  intros Hx Hy. unfold float64_mul, SFmul.
  destruct x as [sx|sx| |sx mx ex], y as [sy|sy| |sy my ey]; simpl in *; subst; try done.
  by apply round_not_negative.
Qed.

Lemma trunc_not_negative x n : not_negative x → float64_trunc x = Some n → 0 <= n.
Proof.
  destruct x as [s|s| |s m e]; simpl; try done; [naive_solver lia|]. intros -> [= <-].
  destruct (Z.leb_spec 0 e); [|by apply Z.div_pos; [lia|apply Z.pow_pos_nonneg; lia]].
  apply Z.mul_nonneg_nonneg; [lia|]. by apply Z.pow_nonneg.
Qed.

Lemma multiplier_not_negative c : not_negative (multiplier c).
Proof.
  unfold multiplier, float64_leb. destruct (SFleb (Multiplier c) (float64_of 1)) eqn:Hle; [done|].
  by destruct (Multiplier c) as [[]|[]| |[]].
Qed.

(** No wait after the first exceeds the cap, and where the processor converts
    numbers that are too large to a non-negative duration no wait is negative; the
    first wait is the base delay, whatever the cap. *)
Theorem delays_are_capped out_of_range c draw n :
  (∀ i, not_negative (draw i)) → (∀ x, not_negative x → 0 <= out_of_range x) → 1 <= n →
  0 <= Delay out_of_range c draw n ∧
  (n = 1 → Delay out_of_range c draw n = baseDelay c) ∧
  (1 < n → Delay out_of_range c draw n <= maxDelay c).
Proof.
  intros Hdraw Hoob Hn. unfold Delay. destruct (Z.leb_spec n 0); [lia|].
  assert (∀ i, 0 <= delayLoop out_of_range c draw i ∧
    (i ≠ O → delayLoop out_of_range c draw i <= maxDelay c)) as Hloop.
  { induction i as [|i [IH _]]; [simpl; unfold baseDelay, DefaultBaseDelay; destruct (BaseDelay c >? 0) eqn:?; split; [lia|done|lia|done]|].
    assert (0 < maxDelay c) by (unfold maxDelay, DefaultMaxDelay; destruct (MaxDelay c >? 0) eqn:?; lia).
    simpl. set (x := float64_mul _ _).
    assert (not_negative x) as Hx
      by (apply mul_not_negative; [apply mul_not_negative; [done|by apply float64_of_not_negative]|apply multiplier_not_negative]).
    assert (0 <= toDuration out_of_range x) as Hd.
    { unfold toDuration. destruct (float64_trunc x) as [k|] eqn:Hk; [|by apply Hoob].
      apply trunc_not_negative in Hk; [|done]. case_match; [done|by apply Hoob]. }
    destruct (toDuration out_of_range x >? maxDelay c) eqn:?; split; intros; lia. }
  split_and!; [apply Hloop|by intros ->|intros; apply Hloop; lia].
Qed.

(** A round after which the loop goes on. *)
Definition failed (x : LoopRound) : Prop :=
  is_Some (op_error x) ∧ ctx_after x = None ∧ ctx_waiting x = None.

Lemma Wait_error out_of_range c draw n e : (Wait out_of_range c draw n e).2 = e.
Proof. unfold Wait. by destruct (Delay out_of_range c draw n <=? 0). Qed.

Definition from (a : Z) (n : nat) : list Z := map (fun i => a + Z.of_nat i) (seq 0 n).

Lemma from_S a n : from a (S n) = a :: from (a + 1) n.
Proof.
  unfold from. rewrite <- cons_seq, map_cons, <- seq_shift, map_map. f_equal; [lia|].
  apply map_ext. intros. lia.
Qed.

Lemma loopFrom_spec out_of_range c rounds : ∀ a attempts waits r,
  1 <= a → a + len rounds < 2 ^ 63 →
  loopFrom out_of_range c a rounds = (attempts, waits, r) →
  attempts = from a (length attempts) ∧ map fst waits = from (a + 1) (length waits) ∧
  match r with
  | None => Forall failed rounds ∧ length attempts = length rounds
  | Some None => ∃ earlier last later, rounds = earlier ++ last :: later ∧ Forall failed earlier ∧
      op_error last = None ∧ length attempts = S (length earlier) ∧ length waits = length earlier
  | Some (Some e) => ∃ earlier last later, rounds = earlier ++ last :: later ∧ Forall failed earlier ∧
      is_Some (op_error last) ∧ (ctx_after last = Some e ∨ ctx_waiting last = Some e)
  end.
Proof.
  induction rounds as [|x rounds IH]; intros a attempts waits r Ha Hlen; simpl; [by intros [= <- <- <-]|].
  rewrite len_cons in Hlen. pose proof (len_nonneg rounds).
  assert (∀ b : Z, [b] = from b 1) as Hone by (intros b; unfold from; simpl; by rewrite Z.add_0_r).
  destruct (op_error x) as [oe|] eqn:Hop.
  2: { intros [= <- <- <-]. split_and!; [apply Hone|done|]. exists [], x, rounds. by auto. }
  destruct (ctx_after x) as [e|] eqn:Hctx.
  { intros [= <- <- <-]. split_and!; [apply Hone|done|]. exists [], x, rounds. rewrite Hop. eauto 10. }
  assert (i64 (a + 1) = a + 1) as -> by (unfold i64; rewrite Z.mod_small; lia).
  pose proof (Wait_error out_of_range c (round_draw x) (a + 1) (ctx_waiting x)) as Hwait.
  destruct (Wait out_of_range c (round_draw x) (a + 1) (ctx_waiting x)) as [blocked err]. simpl in Hwait. subst err.
  destruct (ctx_waiting x) as [e|] eqn:Hcw.
  { intros [= <- <- <-]. split_and!; [apply Hone|apply (Hone (a + 1))|]. exists [], x, rounds. rewrite Hop. eauto 10. }
  destruct (Z.ltb_spec (a + 1) 0); [lia|].
  destruct (loopFrom out_of_range c (a + 1) rounds) as [[attempts' waits'] r'] eqn:Hrest.
  intros [= <- <- <-]. apply IH in Hrest as (Hat & Hw & Hr); [|lia..]. simpl.
  assert (failed x) as Hx by (split_and!; rewrite ?Hop; eauto).
  rewrite !from_S, <- Hat, <- Hw. split_and!; [done|done|].
  destruct r' as [[e|]|].
  - destruct Hr as (earlier & last & later & -> & Hf & Hl). exists (x :: earlier), last, later. auto.
  - destruct Hr as (earlier & last & later & -> & Hf & Hl & H1 & H2). exists (x :: earlier), last, later.
    simpl. split_and!; auto.
  - destruct Hr as [Hf H1]. split; [by constructor|]. by rewrite H1.
Qed.

(** The loop numbers its attempts 1, 2, 3, ... and asks for the waits 2, 3, ...
    between them, never for the first; it returns [nil] at the first attempt that
    succeeds, an error of the context only after a failure, and otherwise goes on;
    the counter does not overflow in fewer rounds than a 64-bit integer counts. *)
Theorem loop_follows_schedule out_of_range c rounds attempts waits r :
  len rounds < 2 ^ 63 - 1 → Loop out_of_range c rounds = (attempts, waits, r) →
  attempts = from 1 (length attempts) ∧ map fst waits = from 2 (length waits) ∧
  match r with
  | None => Forall failed rounds ∧ length attempts = length rounds
  | Some None => ∃ earlier last later, rounds = earlier ++ last :: later ∧ Forall failed earlier ∧
      op_error last = None ∧ length attempts = S (length earlier) ∧ length waits = length earlier
  | Some (Some e) => ∃ earlier last later, rounds = earlier ++ last :: later ∧ Forall failed earlier ∧
      is_Some (op_error last) ∧ (ctx_after last = Some e ∨ ctx_waiting last = Some e)
  end.
Proof. intros Hlen. apply (loopFrom_spec out_of_range c rounds 1); lia. Qed.

(** ** Executed *)

(** What an x86-64 processor yields for a number out of range. *)
Definition indefinite (x : float64) : Z := - 2 ^ 63.
(** What saturating processors yield for one that is not negative. *)
Definition saturated (x : float64) : Z := match x with S754_nan => 0 | _ => 2 ^ 63 - 1 end.

Definition default_config : BackoffConfig := mkBackoffConfig 0 0 (float64_of 0).
Definition half (i : nat) : float64 := float64_div (float64_of 1) (float64_of 2).

Lemma delays_are_capped_witness :
  0 <= Delay saturated default_config half 3 ∧ Delay saturated default_config half 3 = 225000000.
Proof.
  split; [|vm_compute; reflexivity].
  refine (proj1 (delays_are_capped saturated default_config half 3 _ _ _)).
  - intros i. vm_compute. reflexivity.
  - intros x _. unfold saturated. destruct x; lia.
  - lia.
Defined.

Definition failing : LoopRound := mkLoopRound (Some (ErrorString "refused")) None None half.

Lemma loop_follows_schedule_witness :
  Loop saturated default_config [failing; failing; mkLoopRound None None None half] =
    ([1; 2; 3], [(2, Some 150000000); (3, Some 225000000)], Some None) ∧ [2; 3] = from 2 2.
Proof.
  split; [vm_compute; reflexivity|].
  apply (loop_follows_schedule saturated default_config [failing; failing; mkLoopRound None None None half]
    [1; 2; 3] [(2, Some 150000000); (3, Some 225000000)] (Some None)).
  - vm_compute. reflexivity.
  - vm_compute. reflexivity.
Defined.

(** Where the comments promise otherwise: a delay below the base delay, a
    multiplier of at most one replaced by three, a first wait above the cap, and on
    x86-64 a multiplier so large that the wait is negative. *)
Example delay_below_base :
  Delay indefinite default_config (fun _ => float64_div (float64_of 1) (float64_of 10)) 2 < baseDelay default_config.
Proof. vm_compute. done. Qed.
Example first_delay_above_cap : Delay indefinite (mkBackoffConfig 1000 10 (float64_of 0)) half 1 = 1000.
Proof. vm_compute. done. Qed.
Example delay_overflows :
  Delay indefinite (mkBackoffConfig 0 0 (float64_of (10 ^ 12))) half 2 < 0.
Proof. vm_compute. done. Qed.
