(* ===== verification/RuntimeState.v ===== *)
(** * The runtime state of the background Agent ([internal/agentservice/state.go])

    The file in which a background Agent says where it listens, with which token,
    and under which process ID; the tray and the status command read it, and the
    Agent clears it when it stops.  Files and system calls are those of
    [SecureStore].  The lock around the three operations that write
    ([withRuntimeStateLock]) makes each one step. *)

From S2P Require Import Prelude.
From S2P Require Import SecureStore.
From S2P Require Import Ticket.
From S2P Require Import DeviceIdentity.
From S2P Require Import PairedSession.
From S2P Require Import GoNet.

Definition CurrentRuntimeStateVersion : Z := 1.
Definition maxRuntimeStateBytes : Z := 64 * 1024.

Record RuntimeState := mkRuntimeState {
  RS_Version : Z;
  RS_PID : Z;
  RS_StartedAt : Z;
  RS_ListenAddress : string;
  RS_SessionToken : string;
}.

#[global] Instance RuntimeState_eq_dec : EqDecision RuntimeState.
Proof. solve_decision. Defined.

Definition validateRuntimeState (st : RuntimeState) : result unit :=
  if negb (RS_Version st =? CurrentRuntimeStateVersion) then Err (ErrorString "unsupported runtime state version %d")
  else if RS_PID st <=? 0 then Err (ErrorString "runtime state PID must be positive")
  else if RS_StartedAt st =? zeroTime then Err (ErrorString "runtime state start time must not be empty")
  else match SplitPort (RS_ListenAddress st) with
  | None => Err (ErrorString "runtime state listen address is invalid")
  | Some _ =>
      if bool_decide (RS_SessionToken st = EmptyString) then
        Err (ErrorString "runtime state session token must not be empty")
      else Ok tt
  end.

Section RuntimeState.
(** [json_Marshal] is what [Encoder.Encode] writes, with its newline. *)
Context `{!JsonCodec RuntimeState}.

(** [writeRuntimeState]: after [CreateTemp], every return runs the deferred
    [os.Remove]. *)
Definition writeRuntimeState (fs : Files) (sys : Syscalls) (path : string) (st : RuntimeState)
    : Files * result unit :=
  match sys_mkdir sys with
  | Err e => (fs, Err (ErrorWrap "create runtime state directory" e))
  | Ok _ =>
      match sys_createTemp sys with
      | Err e => (fs, Err (ErrorWrap "create temporary runtime state" e))
      | Ok temporaryPath =>
          let removed fs := if sys_remove sys then delete temporaryPath fs else fs in
          let fs := <[temporaryPath := []]> fs in
          match sys_chmod sys with
          | Err e => (removed fs, Err (ErrorWrap "restrict runtime state permissions" e))
          | Ok _ =>
              match json_Marshal st with
              | Err e => (removed fs, Err (ErrorWrap "encode runtime state" e))
              | Ok encoded =>
                  match sys_write sys with
                  | Some (stored, e) =>
                      (removed (<[temporaryPath := stored]> fs), Err (ErrorWrap "encode runtime state" e))
                  | None =>
                      let fs := <[temporaryPath := encoded]> fs in
                      match sys_sync sys with
                      | Err e => (removed fs, Err (ErrorWrap "flush runtime state" e))
                      | Ok _ =>
                          match sys_close sys with
                          | Err e => (removed fs, Err (ErrorWrap "close runtime state" e))
                          | Ok _ =>
                              match replaceFile fs sys temporaryPath path with
                              | (fs, Err e) => (removed fs, Err (ErrorWrap "publish runtime state" e))
                              | (fs, Ok _) => (removed fs, Ok tt)
                              end
                          end
                      end
                  end
              end
          end
      end
  end.

Definition errNotAbs := ErrorString "runtime state path must be absolute".

Definition WriteRuntimeState (fs : Files) (sys : Syscalls) (path : string) (st : RuntimeState)
    : Files * result unit :=
  match validateRuntimeState st with
  | Err e => (fs, Err e)
  | Ok _ => if negb (IsAbs path) then (fs, Err errNotAbs) else writeRuntimeState fs sys path st
  end.

(** [sysRead] is an error of [os.Open] or [Stat] other than a missing file. *)
Definition LoadRuntimeState (fs : Files) (sysRead : option error) (path : string) : result RuntimeState :=
  match sysRead, fs !! path with
  | Some e, _ => Err e
  | None, None => Err os_ErrNotExist
  | None, Some content =>
      if len content >? maxRuntimeStateBytes then Err (ErrorString "runtime state exceeds the %d byte limit")
      else match json_Decode content with
      | Err e => Err (ErrorWrap "decode runtime state" e)
      | Ok st =>
          match json_Extra (A := RuntimeState) content with
          | ExtraValue => Err (ErrorString "decode runtime state: multiple JSON values are not allowed")
          | ExtraError e => Err (ErrorWrap "decode runtime state" e)
          | ExtraEOF => match validateRuntimeState st with Err e => Err e | Ok _ => Ok st end
          end
      end
  end.

#[local] Arguments LoadRuntimeState : simpl never.

(** [os.Remove] with a missing file ignored; [removal] is another error. *)
Definition removeFile (fs : Files) (removal : option error) (path : string) : Files * result unit :=
  match removal with
  | Some e => if errors_is e os_ErrNotExist then (fs, Ok tt) else (fs, Err (ErrorWrap "remove runtime state" e))
  | None => (delete path fs, Ok tt)
  end.

Definition RemoveRuntimeState (fs : Files) (removal : option error) (path : string) : Files * result unit :=
  if negb (IsAbs path) then (fs, Err errNotAbs) else removeFile fs removal path.

Definition ClearRuntimeState (fs : Files) (sysRead removal : option error) (path : string) (pid : Z)
    : Files * result unit :=
  if negb (IsAbs path) then (fs, Err errNotAbs)
  else match LoadRuntimeState fs sysRead path with
  | Err e => if errors_is e os_ErrNotExist then (fs, Ok tt) else (fs, Err e)
  | Ok st => if negb (RS_PID st =? pid) then (fs, Ok tt) else removeFile fs removal path
  end.

(** ** A register *)

(** What processes do to the file: an Agent publishes, an Agent clears its own,
    the uninstaller removes. *)
Inductive StateOp :=
  | Publish (sys : Syscalls) (st : RuntimeState)
  | Clear (sysRead removal : option error) (pid : Z)
  | Discard (removal : option error).

Definition execState (fs : Files) (path : string) (op : StateOp) : Files * result unit :=
  match op with
  | Publish sys st => WriteRuntimeState fs sys path st
  | Clear sysRead removal pid => ClearRuntimeState fs sysRead removal path pid
  | Discard removal => RemoveRuntimeState fs removal path
  end.

(** The register: what is published, and what an operation that succeeds makes of
    it. *)
Definition registerStep (published : option RuntimeState) (op : StateOp) : option RuntimeState :=
  match op with
  | Publish _ st => Some st
  | Clear _ _ pid =>
      match published with Some st => if RS_PID st =? pid then None else published | None => None end
  | Discard _ => None
  end.

Fixpoint runState (fs : Files) (path : string) (ops : list StateOp) : Files * list (result unit) :=
  match ops with
  | [] => (fs, [])
  | op :: ops =>
      let '(fs, r) := execState fs path op in
      let '(fs, rs) := runState fs path ops in (fs, r :: rs)
  end.

(** The register after the operations with these outcomes: those that failed do
    nothing. *)
Fixpoint runRegister (published : option RuntimeState) (ops : list StateOp) (rs : list (result unit))
    : option RuntimeState :=
  match ops, rs with
  | op :: ops, r :: rs => runRegister (if is_ok r then registerStep published op else published) ops rs
  | _, _ => published
  end.

(** What the file says. *)
Definition Holds (fs : Files) (path : string) (published : option RuntimeState) : Prop :=
  match published with
  | Some st => LoadRuntimeState fs None path = Ok st
  | None => fs !! path = None
  end.

(** A temporary file is not the file itself, what is published is short enough to be
    read, and an error of a call is not that of a missing file. *)
Definition OtherTemp (sys : Syscalls) (path : string) : Prop := ∀ tmp, sys_createTemp sys = Ok tmp → tmp ≠ path.

Definition RealError (e : option error) : Prop := ∀ err, e = Some err → errors_is err os_ErrNotExist = false.

Definition Plausible (path : string) (op : StateOp) : Prop :=
  match op with
  | Publish sys st => OtherTemp sys path ∧ ∀ b, json_Marshal st = Ok b → len b <= maxRuntimeStateBytes
  | Clear sysRead removal _ => RealError sysRead ∧ RealError removal
  | Discard removal => RealError removal
  end.

Context `{!JsonLaws RuntimeState (fun st => validateRuntimeState st = Ok tt)}.

Lemma removeFile_holds fs removal path fs' r published :
  RealError removal → Holds fs path published → removeFile fs removal path = (fs', r) →
  Holds fs' path (if is_ok r then None else published).
Proof.
  intros Hrem Hh. unfold removeFile. destruct removal as [e|].
  - rewrite (Hrem e eq_refl). intros [= <- <-]. done.
  - intros [= <- <-]. simpl. apply lookup_delete_eq.
Qed.

Lemma LoadRuntimeState_ext fs fs' sysRead path :
  fs' !! path = fs !! path → LoadRuntimeState fs' sysRead path = LoadRuntimeState fs sysRead path.
Proof. intros He. unfold LoadRuntimeState. by rewrite He. Qed.

(** A write leaves what was there, with an error, or publishes. *)
Lemma writeRuntimeState_outcomes fs sys path st fs' r :
  OtherTemp sys path → writeRuntimeState fs sys path st = (fs', r) →
  fs' !! path = fs !! path ∧ is_ok r = false ∨
  r = Ok tt ∧ ∃ b, json_Marshal st = Ok b ∧ fs' !! path = Some b.
Proof.
  unfold OtherTemp, writeRuntimeState, replaceFile. intros Hf Hw.
  destruct (sys_mkdir sys); [|simplify_eq; by left].
  destruct (sys_createTemp sys) as [tmp|] eqn:Ht; [|simplify_eq; by left].
  specialize (Hf tmp eq_refl) as Hne.
  destruct (sys_chmod sys); [|simplify_eq; left; split; [by repeat case_match; simplify_map_eq|done]].
  destruct (json_Marshal st) as [encoded|]; [|simplify_eq; left; split; [by repeat case_match; simplify_map_eq|done]].
  rewrite lookup_insert_eq in Hw. simpl in Hw. go_cases;
    first [left; split; [by rewrite ?lookup_insert_ne, ?lookup_delete_ne, ?lookup_insert_ne by done|done]
          |right; split; [done|]; eexists; split; [done|]; by rewrite ?lookup_delete_ne, ?lookup_insert_eq by done].
Qed.

Lemma WriteRuntimeState_Ok fs sys path st fs' :
  OtherTemp sys path → (∀ b, json_Marshal st = Ok b → len b <= maxRuntimeStateBytes) →
  WriteRuntimeState fs sys path st = (fs', Ok tt) → LoadRuntimeState fs' None path = Ok st.
Proof.
  intros Hf Hfit. unfold WriteRuntimeState. destruct (validateRuntimeState st) as [[]|] eqn:Hv; [|done].
  destruct (negb (IsAbs path)); [done|]. intros Hw.
  destruct (writeRuntimeState_outcomes _ _ _ _ _ _ Hf Hw) as [[_ Herr]|(_ & b & Hb & Hl)]; [done|].
  unfold LoadRuntimeState. rewrite Hl. specialize (Hfit b Hb).
  destruct (len b >? maxRuntimeStateBytes) eqn:Hlen; [lia|].
  rewrite (json_roundtrip (P := fun st => validateRuntimeState st = Ok tt) _ _ Hv Hb),
    (json_single (P := fun st => validateRuntimeState st = Ok tt) _ _ Hv Hb). by rewrite Hv.
Qed.

Lemma WriteRuntimeState_Err fs sys path st fs' e :
  OtherTemp sys path → WriteRuntimeState fs sys path st = (fs', Err e) → fs' !! path = fs !! path.
Proof.
  intros Hf. unfold WriteRuntimeState. destruct (validateRuntimeState st); [|by intros [= <- _]].
  destruct (negb (IsAbs path)); [by intros [= <- _]|]. intros Hw.
  by destruct (writeRuntimeState_outcomes _ _ _ _ _ _ Hf Hw) as [[He _]|(? & _)].
Qed.

Lemma WriteRuntimeState_holds fs sys path st fs' r published :
  OtherTemp sys path → (∀ b, json_Marshal st = Ok b → len b <= maxRuntimeStateBytes) →
  Holds fs path published → WriteRuntimeState fs sys path st = (fs', r) →
  Holds fs' path (if is_ok r then Some st else published).
Proof.
  intros Hf Hfit Hh Hw. destruct r as [[]|e]; simpl; [by eapply WriteRuntimeState_Ok|].
  pose proof (WriteRuntimeState_Err _ _ _ _ _ _ Hf Hw) as He.
  destruct published; simpl in *; [by rewrite (LoadRuntimeState_ext fs)|congruence].
Qed.

Lemma ClearRuntimeState_holds fs sysRead removal path pid fs' r published :
  RealError sysRead → RealError removal →
  Holds fs path published → ClearRuntimeState fs sysRead removal path pid = (fs', r) →
  Holds fs' path (if is_ok r then registerStep published (Clear sysRead removal pid) else published).
Proof.
  intros Hread Hrem Hh. unfold ClearRuntimeState. destruct (negb (IsAbs path)); [by intros [= <- <-]|].
  assert (LoadRuntimeState fs sysRead path = match sysRead, published with
    | Some e, _ => Err e | None, Some st => Ok st | None, None => Err os_ErrNotExist end) as ->.
  { destruct sysRead; [done|]. destruct published; [done|]. simpl in Hh. unfold LoadRuntimeState. by rewrite Hh. }
  destruct sysRead as [e|]; [rewrite (Hread e eq_refl); by intros [= <- <-]|].
  destruct published as [st|]; simpl; [|by intros [= <- <-]].
  destruct (RS_PID st =? pid); simpl; [|by intros [= <- <-]]. intros Hr. by eapply (removeFile_holds _ _ _ _ _ (Some st)).
Qed.

(** One operation, whatever its outcome. *)
Lemma execState_holds fs path published op fs' r :
  Plausible path op → Holds fs path published → execState fs path op = (fs', r) →
  Holds fs' path (if is_ok r then registerStep published op else published).
Proof.
  intros Hop Hh He. destruct op as [sys st|sysRead removal pid|removal]; simpl in He.
  - destruct Hop. by eapply WriteRuntimeState_holds.
  - destruct Hop. by eapply ClearRuntimeState_holds.
  - unfold RemoveRuntimeState in He. destruct (negb (IsAbs path)); [by simplify_eq|]. by eapply removeFile_holds.
Qed.

(** The runtime state file is a register.  Through any sequence of publishing,
    clearing and discarding, with any outcomes of the system calls, the file says
    exactly what is published: a publication that succeeds replaces what is there
    and reads back as it was written; a process that clears removes its own state
    and nobody else's; an operation that fails changes nothing. *)
Theorem runtime_state_is_register fs path published ops :
  Holds fs path published → Forall (Plausible path) ops →
  let '(fs', rs) := runState fs path ops in Holds fs' path (runRegister published ops rs).
Proof.
  revert fs published. induction ops as [|op ops IH]; intros fs published Hh Hp; [done|]. simpl.
  apply Forall_cons in Hp as [Hop Hp]. destruct (execState fs path op) as [fs1 r] eqn:He.
  specialize (IH fs1 _ (execState_holds _ _ _ _ _ _ Hop Hh He) Hp). by destruct (runState fs1 path ops).
Qed.
End RuntimeState.
