(* ===== verification/ServiceTask.v ===== *)
(** * The background task ([internal/agentservice/service.go], [service_windows.go])

    On Windows the background Agent is a task of the Task Scheduler, driven through
    [schtasks.exe].  The scheduler is the class [TaskScheduler]: a command line, its
    output and its exit code.  The XML encoder is the class [XmlCodec].  The task
    launches the Agent with a command line that [quoteWindowsArgument] puts
    together; [commandLineToArgv] is how the Go runtime takes it apart again. *)

From S2P Require Import Prelude.
From S2P Require Import Utf8.
From S2P Require Import Path.

Definition TaskName : string := "VibeBridge Agent".
Definition taskURI : string := "\VibeBridge\Agent".
Definition ErrUnsupported := ErrorString "user-scoped background service is not supported on this platform".

Record InstallOptions := mkInstallOptions {
  IO_Executable : string;
  IO_ConfigPath : string;
  IO_ProfileID : string;
  IO_RuntimeStatePath : string;
  IO_WorkingDirectory : string;
  IO_Force : bool;
}.

Definition containsNUL (s : string) : bool := has_nul (bytes_of_string s).

(** [InstallOptions.validate], with [filepath.IsAbs] of the platform; which string
    a NUL is reported for depends on the order of a map. *)
Definition validateInstall (isAbs : string → bool) (o : InstallOptions) : result unit :=
  if negb (isAbs (IO_Executable o)) then Err (ErrorString "service executable path must be absolute")
  else if negb (isAbs (IO_ConfigPath o)) then Err (ErrorString "service config path must be absolute")
  else if negb (isAbs (IO_RuntimeStatePath o)) then Err (ErrorString "service runtime state path must be absolute")
  else if bool_decide (IO_WorkingDirectory o = EmptyString) || negb (isAbs (IO_WorkingDirectory o)) then
    Err (ErrorString "service working directory must be absolute")
  else if existsb containsNUL [IO_Executable o; IO_ConfigPath o; IO_RuntimeStatePath o; IO_WorkingDirectory o; IO_ProfileID o]
  then Err (ErrorString "service %s contains a NUL byte")
  else Ok tt.

(** ** Arguments *)

Definition backslash : byte := "\"%byte.
Definition quote : byte := "034"%byte.

(** [strings.ContainsAny] with a space, a tab, a newline, a vertical tab and a
    quote. *)
Definition needsQuotes (p : bytes) : bool :=
  existsb (fun b => bool_decide (b ∈ [" "%byte; "009"%byte; "010"%byte; "011"%byte; quote])) p.

(** [WriteRune] of what [range] decodes: an invalid byte is replaced. *)
Definition rewriteRune (p : bytes) : bytes :=
  let '(r, size) := DecodeRune p in
  if (r =? RuneError) && (size =? 1)%nat then ["239"%byte; "191"%byte; "189"%byte] else take size p.

(** The loop, with the backslashes counted so far, and the end. *)
Fixpoint quoteLoop (fuel : nat) (backslashes : nat) (p : bytes) : bytes :=
  match fuel, p with
  | S fuel', _ :: _ =>
      let '(r, size) := DecodeRune p in
      if r =? byte_val backslash then quoteLoop fuel' (S backslashes) (drop size p)
      else if r =? byte_val quote then
        replicate (backslashes * 2 + 1) backslash ++ [quote] ++ quoteLoop fuel' 0 (drop size p)
      else replicate backslashes backslash ++ rewriteRune p ++ quoteLoop fuel' 0 (drop size p)
  | _, _ => replicate (backslashes * 2) backslash ++ [quote]
  end.

Definition quoteWindowsArgument (value : string) : string :=
  let p := bytes_of_string value in
  if negb (bool_decide (value = EmptyString)) && negb (needsQuotes p) then value
  else string_of_bytes (quote :: quoteLoop (length p) 0 p).

(** [strings.Join] with a space. *)
Fixpoint joinSpace (parts : list string) : string :=
  match parts with
  | [] => EmptyString
  | [p] => p
  | p :: ps => (p ++ String " " (joinSpace ps))%string
  end.

Definition taskArguments (o : InstallOptions) : list string :=
  ["--background"; "--tray"; "--config"; IO_ConfigPath o; "--service-state"; IO_RuntimeStatePath o]%string ++
  (if bool_decide (IO_ProfileID o = EmptyString) then [] else ["--profile"%string; IO_ProfileID o]).

(** The package [os] on Windows: [readNextArg] and [commandLineToArgv]; what
    precedes is in [b], in quotes or not, after [nslash] backslashes. *)
Fixpoint readNextArg (cmd : bytes) (b : bytes) (inquote : bool) (nslash : nat) : bytes * bytes :=
  match cmd with
  | [] => (b ++ replicate nslash backslash, [])
  | c :: rest =>
      if (bool_decide (c = " "%byte) || bool_decide (c = "009"%byte)) && negb inquote then
        (b ++ replicate nslash backslash, rest)
      else if bool_decide (c = quote) then
        let b := b ++ replicate (nslash / 2) backslash in
        if Nat.even nslash then
          match rest with
          | c2 :: rest2 =>
              if inquote && bool_decide (c2 = quote) then readNextArg rest2 (b ++ [quote]) (negb inquote) 0
              else readNextArg rest b (negb inquote) 0
          | [] => readNextArg rest b (negb inquote) 0
          end
        else readNextArg rest (b ++ [c]) inquote 0
      else if bool_decide (c = backslash) then readNextArg rest b inquote (S nslash)
      else readNextArg rest (b ++ replicate nslash backslash ++ [c]) inquote 0
  end.

(** Every argument takes at least one byte: the length is enough fuel. *)
Fixpoint argvLoop (fuel : nat) (cmd : bytes) : list string :=
  match fuel, cmd with
  | S fuel', c :: rest =>
      if bool_decide (c = " "%byte) || bool_decide (c = "009"%byte) then argvLoop fuel' rest
      else let '(arg, cmd) := readNextArg cmd [] false 0 in string_of_bytes arg :: argvLoop fuel' cmd
  | _, _ => []
  end.

Definition commandLineToArgv (cmd : string) : list string :=
  let p := bytes_of_string cmd in argvLoop (length p) p.

(** ** The definition of the task *)

Record taskRestartOnFailure := mkRestart { Restart_Interval : string; Restart_Count : Z }.

Record taskSettings := mkTaskSettings {
  MultipleInstancesPolicy : string;
  DisallowStartIfOnBatteries : bool;
  StopIfGoingOnBatteries : bool;
  AllowHardTerminate : bool;
  StartWhenAvailable : bool;
  RunOnlyIfNetworkAvailable : bool;
  AllowStartOnDemand : bool;
  SettingsEnabled : bool;
  Hidden : bool;
  RunOnlyIfIdle : bool;
  WakeToRun : bool;
  ExecutionTimeLimit : string;
  Priority : Z;
  RestartOnFailure : taskRestartOnFailure;
}.

Record taskPrincipal := mkTaskPrincipal {
  Principal_ID : string; Principal_UserID : string; LogonType : string; RunLevel : string;
}.
Record taskLogonTrigger := mkLogonTrigger { TriggerEnabled : bool; Trigger_UserID : string }.
Record taskExec := mkTaskExec { Exec_Command : string; Exec_Arguments : string; Exec_WorkingDirectory : string }.

Record scheduledTask := mkScheduledTask {
  Task_Version : string;
  Task_XMLNS : string;
  Task_Description : string;
  Task_URI : string;
  Task_LogonTrigger : taskLogonTrigger;
  Task_Principal : taskPrincipal;
  Task_Settings : taskSettings;
  Task_Context : string;
  Task_Exec : taskExec;
}.

(** [xml.MarshalIndent]. *)
Class XmlCodec := xml_MarshalIndent : scheduledTask → result string.

(** [utf16.Encode] of the runes of a string, as little-endian bytes. *)
Fixpoint utf16Units (fuel : nat) (p : bytes) : list Z :=
  match fuel, p with
  | S fuel', _ :: _ =>
      let '(r, size) := DecodeRune p in
      (if r <? 65536 then [r]
       else [55296 + (r - 65536) / 1024; 56320 + (r - 65536) mod 1024]) ++ utf16Units fuel' (drop size p)
  | _, _ => []
  end.

Definition byte_of_Z (z : Z) : byte := default "000"%byte (Byte.of_N (Z.to_N z)).
Definition PutUint16 (unit : Z) : bytes := [byte_of_Z (unit mod 256); byte_of_Z (unit / 256)].

Definition xmlHeader : string :=
  ("<?xml version=" ++ String "034" ("1.0" ++ String "034" (" encoding=" ++ String "034" ("UTF-16" ++
   String "034" ("?>" ++ String "013" (String "010" EmptyString))))))%string.

Section ServiceTask.
Context {xml : XmlCodec}.

(** [user] is the security identifier of [user.Current]. *)
Definition buildTaskDefinition (o : InstallOptions) (user : result string) : result bytes :=
  match user with
  | Err e => Err (ErrorWrap "resolve current Windows user" e)
  | Ok uid =>
      if bool_decide (uid = EmptyString) then Err (ErrorString "resolve current Windows user: SID is empty")
      else
        let definition := {|
          Task_Version := "1.4";
          Task_XMLNS := "http://schemas.microsoft.com/windows/2004/02/mit/task";
          Task_Description := "Starts the user-scoped VibeBridge Local Agent at sign-in.";
          Task_URI := taskURI;
          Task_LogonTrigger := mkLogonTrigger true uid;
          Task_Principal := mkTaskPrincipal "Author" uid "InteractiveToken" "LeastPrivilege";
          Task_Settings := mkTaskSettings "IgnoreNew" false false true true false true true true false false "PT0S" 7
                             (mkRestart "PT1M" 3);
          Task_Context := "Author";
          Task_Exec := mkTaskExec (IO_Executable o)
            (joinSpace (map quoteWindowsArgument (taskArguments o))) (IO_WorkingDirectory o) |} in
        match xml_MarshalIndent definition with
        | Err e => Err (ErrorWrap "encode task definition" e)
        | Ok content =>
            let text := bytes_of_string (xmlHeader ++ content) in
            Ok (["255"%byte; "254"%byte] ++ (utf16Units (length text) text ≫= PutUint16))
        end
  end.

(** ** The Task Scheduler *)

(** A run of [schtasks.exe]: its output, and an error with the exit code it has,
    if any. *)
Class TaskScheduler (W : Type) := schtasks : W → list string → W * (string * option (error * option Z)).
Context {W : Type} {scheduler : TaskScheduler W}.

Definition hasExitCode (e : error * option Z) (code : Z) : bool := bool_decide (e.2 = Some code).

(** The source writes the output after the error it wraps; here it comes before it. *)
Definition taskCommandError (action output : string) (e : error * option Z) : error :=
  let detail := TrimSpace output in
  let message := (action ++ " VibeBridge background task")%string in
  if bool_decide (detail = EmptyString) then ErrorWrap message e.1 else ErrorWrap (message ++ ": " ++ detail) e.1.

Definition queryWindowsInstallation (w : W) : W * result bool :=
  match schtasks w ["/Query"; "/TN"; TaskName]%string with
  | (w, (_, None)) => (w, Ok true)
  | (w, (output, Some e)) => (w, if hasExitCode e 1 then Ok false else Err (taskCommandError "query" output e))
  end.

(** The outcomes of writing the definition to a temporary file. *)
Record TempCalls := mkTempCalls {
  temp_name : result string; temp_chmod : result unit; temp_write : result unit; temp_close : result unit;
}.

Definition writeDefinition (calls : TempCalls) : result string :=
  match temp_name calls with
  | Err e => Err (ErrorWrap "create temporary task definition" e)
  | Ok temporaryPath =>
      match temp_chmod calls with
      | Err e => Err (ErrorWrap "restrict temporary task definition" e)
      | Ok _ =>
          match temp_write calls with
          | Err e => Err (ErrorWrap "write temporary task definition" e)
          | Ok _ =>
              match temp_close calls with
              | Err e => Err (ErrorWrap "close temporary task definition" e)
              | Ok _ => Ok temporaryPath
              end
          end
      end
  end.

(** [/End], where a task that does not run, exit code 1, is no error. *)
Definition endTask (w : W) (action : string) : W * result unit :=
  match schtasks w ["/End"; "/TN"; TaskName]%string with
  | (w, (_, None)) => (w, Ok tt)
  | (w, (output, Some e)) => (w, if hasExitCode e 1 then Ok tt else Err (taskCommandError action output e))
  end.

Definition createAndRun (w : W) (temporaryPath : string) : W * result unit :=
  match schtasks w ["/Create"; "/TN"; TaskName; "/XML"; temporaryPath; "/F"]%string with
  | (w, (output, Some e)) => (w, Err (taskCommandError "create" output e))
  | (w, (_, None)) =>
      match schtasks w ["/Run"; "/TN"; TaskName]%string with
      | (w, (output, Some e)) => (w, Err (taskCommandError "start" output e))
      | (w, (_, None)) => (w, Ok tt)
      end
  end.

Definition installWindows (isAbs : string → bool) (w : W) (o : InstallOptions) (user : result string)
    (calls : TempCalls) : W * result unit :=
  match validateInstall isAbs o with
  | Err e => (w, Err e)
  | Ok _ =>
      match buildTaskDefinition o user with
      | Err e => (w, Err e)
      | Ok _ =>
          match queryWindowsInstallation w with
          | (w, Err e) => (w, Err e)
          | (w, Ok installed) =>
              if installed && negb (IO_Force o) then
                (w, Err (ErrorString "the VibeBridge background task is already installed; use --force to replace it"))
              else match (if installed then endTask w "stop existing" else (w, Ok tt)) with
              | (w, Err e) => (w, Err e)
              | (w, Ok _) =>
                  match writeDefinition calls with
                  | Err e => (w, Err e)
                  | Ok temporaryPath => createAndRun w temporaryPath
                  end
              end
          end
      end
  end.

Definition uninstallWindows (w : W) : W * result unit :=
  match queryWindowsInstallation w with
  | (w, Err e) => (w, Err e)
  | (w, Ok false) => (w, Ok tt)
  | (w, Ok true) =>
      match endTask w "stop" with
      | (w, Err e) => (w, Err e)
      | (w, Ok _) =>
          match schtasks w ["/Delete"; "/TN"; TaskName; "/F"]%string with
          | (w, (output, Some e)) => (w, Err (taskCommandError "delete" output e))
          | (w, (_, None)) => (w, Ok tt)
          end
      end
  end.
End ServiceTask.

(** * The background task: what it is launched with

    The command line of the task is taken apart by the Agent into the arguments it
    was put together from; installing and removing the task run the scheduler's
    commands in order, and do not replace a task without being told to. *)

From Stdlib Require Import Wf_nat.

(** ** Runes of more than one byte *)

Lemma lor_lower a b : 0 <= a → 0 <= b → a <= Z.lor a b.
Proof.
  intros Ha Hb. replace (Z.lor a b) with (a + Z.ldiff b a).
  - pose proof (Z.ldiff_nonneg b a) as [_ Hn]. specialize (Hn (or_introl Hb)). lia.
  - rewrite Z.add_nocarry_lxor.
    + apply Z.bits_inj'. intros n Hn. rewrite Z.lxor_spec, Z.lor_spec, Z.ldiff_spec.
      by destruct (Z.testbit a n), (Z.testbit b n).
    + apply Z.bits_inj'. intros n Hn. rewrite Z.land_spec, Z.ldiff_spec, Z.bits_0.
      by destruct (Z.testbit a n), (Z.testbit b n).
Qed.

Definition bad_rune (x : Z * nat) : bool := (x.1 =? RuneError) && (x.2 =? 1)%nat.

(** A rune that takes one byte is that byte, below 128; one that takes more is 128
    or above, and so are its bytes. *)
Definition rune_shape (p : bytes) : Prop :=
  let '(r, size) := DecodeRune p in
  size = 1%nat ∧ (∃ b rest, p = b :: rest ∧ r = byte_val b ∧ r < 128) ∨
  128 <= r ∧ Forall (fun b => 128 <= byte_val b) (take size p).

Lemma lead_bytes b sz lo hi :
  utf8_first (byte_val b) = Some (sz, lo, hi) →
  128 <= lo ∧ hi <= 191 ∧
  (sz = 1%nat ∧ byte_val b < 128 ∨
   sz = 2%nat ∧ 128 <= byte_val b ∧ 2 <= Z.land (byte_val b) 31 ∨
   sz = 3%nat ∧ 128 <= byte_val b ∧ (1 <= Z.land (byte_val b) 15 ∨ lo = 160) ∨
   sz = 4%nat ∧ 128 <= byte_val b ∧ (1 <= Z.land (byte_val b) 7 ∨ lo = 144)).
Proof. destruct b; vm_compute; intros [= <- <- <-]; split_and!; try done; intuition congruence. Qed.

Lemma cont_bits b : 144 <= byte_val b <= 191 → 16 <= Z.land (byte_val b) 63 ∧ (160 <= byte_val b → 32 <= Z.land (byte_val b) 63).
Proof. destruct b; vm_compute; intuition congruence. Qed.

Lemma land_low a n : 0 <= n → 0 <= Z.land a n.
Proof. intros Hn. apply Z.land_nonneg. by right. Qed.

Lemma DecodeRune_shape p : p ≠ [] → bad_rune (DecodeRune p) = false → rune_shape p.
Proof.
  intros Hp. unfold rune_shape, bad_rune, DecodeRune. destruct p as [|b0 rest]; [done|].
  destruct (utf8_first (byte_val b0)) as [[[sz lo] hi]|] eqn:Hf; [|done].
  destruct (lead_bytes _ _ _ _ Hf) as (Hlo & Hhi & Hsz).
  destruct Hsz as [[-> Hv]|[(-> & Hv & Hl)|[(-> & Hv & Hl)|(-> & Hv & Hl)]]].
  - intros _. left. split; [done|]. by exists b0, rest.
  - destruct rest as [|b1 rest]; [done|]. destruct (in_range lo hi _) eqn:H1; [|done]. intros _. right. unfold in_range in H1.
    split_bool. split; [|repeat constructor; lia].
    rewrite Z.shiftl_mul_pow2 by lia. transitivity (Z.land (byte_val b0) 31 * 2 ^ 6); [lia|].
    apply lor_lower; [lia|by apply land_low].
  - destruct rest as [|b1 [|b2 rest]]; [done|by case_match|]. destruct (in_range lo hi _) eqn:H1; [|done]. simpl negb. cbv iota.
    destruct (is_cont (byte_val b2)) eqn:H2; [|done]. intros _. right. unfold is_cont, in_range in *. split_bool.
    split; [|repeat constructor; lia]. rewrite !Z.shiftl_mul_pow2 by lia.
    pose proof (land_low (byte_val b0) 15 ltac:(lia)). pose proof (land_low (byte_val b1) 63 ltac:(lia)).
    pose proof (land_low (byte_val b2) 63 ltac:(lia)).
    etrans; [|apply lor_lower; [apply Z.lor_nonneg; lia|lia]].
    destruct Hl as [Hl| ->].
    + etrans; [|apply lor_lower; lia]. lia.
    + rewrite Z.lor_comm. etrans; [|apply lor_lower; lia]. destruct (cont_bits b1) as [_ Hc]; lia.
  - destruct rest as [|b1 [|b2 [|b3 rest]]]; [done|by case_match|by repeat case_match|].
    destruct (in_range lo hi _) eqn:H1; [|done]. simpl negb. cbv iota.
    destruct (is_cont (byte_val b2)) eqn:H2; [|done]. destruct (is_cont (byte_val b3)) eqn:H3; [|done].
    intros _. right. unfold is_cont, in_range in *. split_bool.
    split; [|repeat constructor; lia]. rewrite !Z.shiftl_mul_pow2 by lia.
    pose proof (land_low (byte_val b0) 7 ltac:(lia)). pose proof (land_low (byte_val b1) 63 ltac:(lia)).
    pose proof (land_low (byte_val b2) 63 ltac:(lia)). pose proof (land_low (byte_val b3) 63 ltac:(lia)).
    etrans; [|apply lor_lower; [rewrite !Z.lor_nonneg; lia|lia]].
    etrans; [|apply lor_lower; [rewrite !Z.lor_nonneg; lia|lia]].
    destruct Hl as [Hl| ->].
    + etrans; [|apply lor_lower; lia]. lia.
    + rewrite Z.lor_comm. etrans; [|apply lor_lower; lia]. destruct (cont_bits b1) as [Hc _]; lia.
Qed.

(** ** Quoting, byte by byte *)

Fixpoint quoteBytes (backslashes : nat) (p : bytes) : bytes :=
  match p with
  | [] => replicate (backslashes * 2) backslash ++ [quote]
  | c :: rest =>
      if bool_decide (c = backslash) then quoteBytes (S backslashes) rest
      else if bool_decide (c = quote) then replicate (backslashes * 2 + 1) backslash ++ [quote] ++ quoteBytes 0 rest
      else replicate backslashes backslash ++ [c] ++ quoteBytes 0 rest
  end.

Lemma byte_val_inj b c : byte_val b = byte_val c → b = c.
Proof.
  intros He. assert (Byte.to_N b = Byte.to_N c) as Hn by (unfold byte_val in He; lia).
  apply (f_equal Byte.of_N) in Hn. rewrite !Byte.of_to_N in Hn. congruence.
Qed.

(** The bytes of a rune that are neither a backslash nor a quote. *)
Lemma quoteBytes_plain n q rest :
  q ≠ [] → Forall (fun b => b ≠ backslash ∧ b ≠ quote) q →
  quoteBytes n (q ++ rest) = replicate n backslash ++ q ++ quoteBytes 0 rest.
Proof.
  revert n. induction q as [|b q IH]; intros n Hq Hall; [done|]. apply Forall_cons in Hall as [[Hb Hb'] Hall]. simpl.
  rewrite !bool_decide_false by done. f_equal. f_equal. destruct q as [|c q]; [done|]. by rewrite (IH 0%nat).
Qed.

Lemma quoteLoop_bytes fuel n p :
  (length p <= fuel)%nat → is_Some (runes p) → quoteLoop fuel n p = quoteBytes n p.
Proof.
  revert n p. induction fuel as [|fuel IH]; intros n p Hle [rs Hr].
  { by destruct p; [|simpl in Hle; lia]. }
  destruct p as [|b p]; [done|]. unfold runes in Hr. cbn [decodeRunes length] in Hr.
  pose proof (DecodeRune_size (b :: p) ltac:(done)) as Hs. pose proof (DecodeRune_shape (b :: p) ltac:(done)) as Hshape.
  unfold rune_shape, bad_rune in Hshape. cbn [quoteLoop]. unfold rewriteRune.
  destruct (DecodeRune (b :: p)) as [r size] eqn:HD. simpl in Hs.
  destruct ((r =? RuneError) && (size =? 1)%nat) eqn:Hbad; [done|]. specialize (Hshape Hbad).
  destruct (decodeRunes (length p) (drop size (b :: p))) as [rs'|] eqn:Hrest; [|done].
  assert (length (drop size (b :: p)) <= length p)%nat as Hlen by (rewrite length_drop; simpl; lia).
  assert (is_Some (runes (drop size (b :: p)))) as Hsome by (rewrite <- (decodeRunes_fuel (length p)); [by eexists|done]).
  simpl in Hle. rewrite !IH by first [done|lia].
  destruct Hshape as [[-> (b' & rest & [= <- <-] & -> & Hlt)]|[Hge Hall]].
  - cbn [drop take quoteBytes].
    destruct (Z.eqb_spec (byte_val b) (byte_val backslash)) as [He|Hne];
      [by rewrite bool_decide_true by by apply byte_val_inj|].
    rewrite bool_decide_false by congruence.
    destruct (Z.eqb_spec (byte_val b) (byte_val quote)) as [He|Hne'];
      [by rewrite bool_decide_true by by apply byte_val_inj|].
    by rewrite bool_decide_false by congruence.
  - destruct (Z.eqb_spec r (byte_val backslash)) as [->|_]; [by vm_compute in Hge|].
    destruct (Z.eqb_spec r (byte_val quote)) as [->|_]; [by vm_compute in Hge|].
    rewrite <- (take_drop size (b :: p)) at 3. symmetry. apply quoteBytes_plain.
    + destruct size; [lia|done].
    + eapply Forall_impl; [exact Hall|]. intros c Hc. split; intros ->; by vm_compute in Hc.
Qed.

(** ** Reading it back *)

#[local] Arguments Nat.div : simpl never.
#[local] Arguments Nat.even : simpl never.

(** What ends an argument: the end of the line, or a space. *)
Inductive Ends : bytes → bytes → Prop := ends_nil : Ends [] [] | ends_space rest : Ends (" "%byte :: rest) rest.

Lemma read_backslashes k p b inquote n :
  readNextArg (replicate k backslash ++ p) b inquote n = readNextArg p b inquote (n + k).
Proof.
  revert n. induction k as [|k IH]; intros n; [by rewrite Nat.add_0_r|]. simpl. rewrite IH. f_equal. lia.
Qed.

(** A quoted argument, from inside the quotes. *)
Lemma read_quoted p n b cmd rest :
  Ends cmd rest →
  readNextArg (quoteBytes n p ++ cmd) b true 0 = (b ++ replicate n backslash ++ p, rest).
Proof.
  intros He. revert n b. induction p as [|c p IH]; intros n b; simpl quoteBytes.
  - rewrite <- app_assoc, read_backslashes. rewrite app_nil_r. simpl readNextArg.
    replace (n * 2)%nat with (2 * n)%nat by lia. rewrite Nat.even_mul. simpl orb. cbv iota.
    replace (2 * n / 2)%nat with n by (rewrite Nat.mul_comm, Nat.div_mul; lia).
    destruct He as [|rest]; simpl; by rewrite app_nil_r.
  - case_bool_decide as Hb.
    { subst c. rewrite IH. f_equal. f_equal. rewrite (replicate_S_end n). by rewrite <- app_assoc. }
    case_bool_decide as Hq.
    + subst c. rewrite <- app_assoc, read_backslashes. simpl readNextArg.
      replace (n * 2 + 1)%nat with (S (2 * n)) by lia. rewrite Nat.even_succ, <- Nat.negb_even, Nat.even_mul. simpl negb. cbv iota.
      replace (S (2 * n) / 2)%nat with n.
      * rewrite IH. simpl. by rewrite <- !app_assoc.
      * apply (Nat.div_unique _ 2 _ 1); lia.
    + rewrite <- app_assoc, read_backslashes. simpl readNextArg. rewrite andb_false_r.
      rewrite !bool_decide_false by done. rewrite IH. simpl. by rewrite <- !app_assoc.
Qed.

(** An argument that was left as it is. *)
Lemma read_plain p n b cmd rest :
  Ends cmd rest → needsQuotes p = false →
  readNextArg (p ++ cmd) b false n = (b ++ replicate n backslash ++ p, rest).
Proof.
  intros He. revert n b. induction p as [|c p IH]; intros n b Hp; simpl in *.
  - rewrite app_nil_r. by destruct He.
  - apply orb_false_iff in Hp as [Hc Hp]. apply bool_decide_eq_false in Hc.
    rewrite !(bool_decide_false (c = _)) by (intros ->; apply Hc; set_solver). simpl.
    case_bool_decide as Hb.
    + subst c. rewrite IH by done. f_equal. f_equal. rewrite (replicate_S_end n). by rewrite <- app_assoc.
    + rewrite IH by done. simpl. by rewrite <- !app_assoc.
Qed.

Lemma runes_valid s : ValidString s = true → is_Some (runes (bytes_of_string s)).
Proof. unfold ValidString. destruct (runes _); [by eexists|done]. Qed.

(** One argument, whatever follows; it starts with neither a space nor a tab. *)
Lemma read_argument value cmd rest :
  ValidString value = true → Ends cmd rest →
  readNextArg (bytes_of_string (quoteWindowsArgument value) ++ cmd) [] false 0 = (bytes_of_string value, rest) ∧
  ∃ c q, bytes_of_string (quoteWindowsArgument value) = c :: q ∧ c ≠ " "%byte ∧ c ≠ "009"%byte.
Proof.
  intros Hv He. unfold quoteWindowsArgument. destruct (_ && _) eqn:Hn.
  - apply andb_true_iff in Hn as [Hne Hq]. apply negb_true_iff, bool_decide_eq_false in Hne. apply negb_true_iff in Hq.
    split; [by rewrite (read_plain _ _ _ _ rest)|]. destruct value as [|a value]; [done|]. simpl in *.
    apply orb_false_iff in Hq as [Hc _]. apply bool_decide_eq_false in Hc. eexists _, _. split; [reflexivity|].
    split; intros Heq; apply Hc; rewrite Heq; set_solver.
  - rewrite bytes_of_string_of_bytes. split; [|by eexists _, _].
    rewrite quoteLoop_bytes by first [done|by apply runes_valid]. simpl.
    assert (∀ l (x : bytes * bytes), match l with [] | _ => x end = x) as -> by by intros [|].
    by rewrite (read_quoted _ _ _ _ rest).
Qed.

Lemma bytes_of_string_length s : length (bytes_of_string s) = String.length s.
Proof. induction s as [|c s IH]; [done|]. simpl. by rewrite IH. Qed.

Lemma readNextArg_shorter cmd b inquote n :
  (length (readNextArg cmd b inquote n).2 <= length cmd)%nat.
Proof.
  revert b inquote n. induction cmd as [cmd IH] using (well_founded_ind (well_founded_ltof _ length)); intros b inquote n.
  destruct cmd as [|c cmd]; [done|]. unfold ltof in IH. simpl in IH |- *.
  repeat case_match; subst; try (simpl; lia); (eapply Nat.le_trans; [apply IH; simpl; lia|simpl; lia]).
Qed.

(** Every way an argument can end leaves less to read: fuel beyond the length is
    idle. *)
Lemma argvLoop_fuel fuel cmd : (length cmd <= fuel)%nat → argvLoop fuel cmd = argvLoop (length cmd) cmd.
Proof.
  revert fuel. induction cmd as [cmd IH] using (well_founded_ind (well_founded_ltof _ length)); intros fuel Hle.
  unfold ltof in IH. destruct fuel as [|fuel], cmd as [|c cmd]; try done; [simpl in Hle; lia|]. cbn [argvLoop length].
  simpl in Hle. destruct (_ || _) eqn:Hsp; [apply IH; simpl; lia|].
  assert (length (readNextArg (c :: cmd) [] false 0).2 <= length cmd)%nat as Hlen.
  { apply orb_false_iff in Hsp as [Hs Ht]. cbn [readNextArg]. rewrite Hs, Ht. simpl.
    repeat case_match; subst; (eapply Nat.le_trans; [apply readNextArg_shorter|simpl; lia]). }
  destruct (readNextArg (c :: cmd) [] false 0) as [arg rest]. cbn [snd] in Hlen. f_equal.
  rewrite (IH rest ltac:(simpl; lia) fuel) by lia. by rewrite (IH rest ltac:(simpl; lia) (length cmd)) by lia.
Qed.

Lemma joinSpace_cons value args :
  args ≠ [] → joinSpace (value :: args) = (value ++ String " " (joinSpace args))%string.
Proof. by destruct args. Qed.

Lemma argv_join args :
  Forall (fun s => ValidString s = true) args → commandLineToArgv (joinSpace (map quoteWindowsArgument args)) = args.
Proof.
  intros Hall. induction Hall as [|value args Hv Hall IH]; [done|].
  assert (∀ cmd rest, Ends cmd rest → commandLineToArgv (joinSpace (map quoteWindowsArgument args)) = args →
    bytes_of_string (joinSpace (map quoteWindowsArgument (value :: args))) = bytes_of_string (quoteWindowsArgument value) ++ cmd →
    argvLoop (length rest) rest = args →
    commandLineToArgv (joinSpace (map quoteWindowsArgument (value :: args))) = value :: args) as Hstep.
  { intros cmd rest He _ Heq Hrest. unfold commandLineToArgv. rewrite Heq.
    destruct (read_argument value cmd rest Hv He) as (Hread & c & q & Hq & Hc1 & Hc2). rewrite Hq in Hread |- *.
    cbn [app] in Hread. cbn [app length argvLoop]. rewrite !bool_decide_false by done. cbn [orb].
    rewrite Hread, string_of_bytes_of_string. f_equal. rewrite <- Hrest.
    symmetry. rewrite <- (argvLoop_fuel (length (q ++ cmd))); [done|].
    rewrite length_app. destruct He; simpl; lia. }
  destruct args as [|next args].
  - apply (Hstep [] []); [constructor|done|simpl; by rewrite app_nil_r|done].
  - set (tail := joinSpace (map quoteWindowsArgument (next :: args))) in *.
    apply (Hstep (" "%byte :: bytes_of_string tail) (bytes_of_string tail)); [constructor|done| |exact IH].
    rewrite map_cons, joinSpace_cons by done. by rewrite bytes_of_string_app.
Qed.

(** ** Properties *)

(** C34: the Agent that the background task launches receives the arguments the
    installer meant: its runtime takes the command line apart into exactly the list
    of flags, configuration path, state path and profile that was quoted and
    joined, whatever spaces, tabs, quotes and backslashes they contain, empty or
    ending in backslashes, as long as they are valid UTF-8; and so for any list of
    arguments. *)
Theorem windows_arguments_roundtrip {xml : XmlCodec} o user definition :
  buildTaskDefinition o user = Ok definition →
  Forall (fun s => ValidString s = true) [IO_ConfigPath o; IO_RuntimeStatePath o; IO_ProfileID o] →
  (∃ task content, xml_MarshalIndent task = Ok content ∧ Exec_Command (Task_Exec task) = IO_Executable o ∧
     definition = ["255"%byte; "254"%byte] ++
       (utf16Units (length (bytes_of_string (xmlHeader ++ content))) (bytes_of_string (xmlHeader ++ content)) ≫= PutUint16) ∧
     commandLineToArgv (Exec_Arguments (Task_Exec task)) = taskArguments o) ∧
  ∀ args, Forall (fun s => ValidString s = true) args →
    commandLineToArgv (joinSpace (map quoteWindowsArgument args)) = args.
Proof.
  intros HB Hv. split; [|apply argv_join]. unfold buildTaskDefinition in HB. destruct user as [uid|]; [|done].
  case_bool_decide; [done|]. destruct (xml_MarshalIndent _) as [content|] eqn:Hx; [|done]. simplify_eq.
  eexists _, content. split; [exact Hx|]. split; [done|]. split; [done|]. cbn [Task_Exec Exec_Arguments].
  apply argv_join.
  apply Forall_cons in Hv as [? Hv]. apply Forall_cons in Hv as [? Hv]. apply Forall_cons in Hv as [? _].
  unfold taskArguments. repeat (constructor; [done|]). case_bool_decide; repeat constructor; done.
Qed.

Section Scheduler.
Context {xml : XmlCodec} {W : Type} {scheduler : TaskScheduler W}.

(** A sequence of commands, whatever their outcomes. *)
Definition commands (w : W) (l : list (list string)) : W := foldl (fun w args => (schtasks w args).1) w l.

Definition queryCommand : list string := ["/Query"; "/TN"; TaskName]%string.
Definition endCommand : list string := ["/End"; "/TN"; TaskName]%string.
Definition createCommand (path : string) : list string := ["/Create"; "/TN"; TaskName; "/XML"; path; "/F"]%string.
Definition runCommand : list string := ["/Run"; "/TN"; TaskName]%string.
Definition deleteCommand : list string := ["/Delete"; "/TN"; TaskName; "/F"]%string.

Lemma query_commands w w' r : queryWindowsInstallation w = (w', r) → w' = commands w [queryCommand].
Proof.
  unfold queryWindowsInstallation, commands. fold queryCommand. simpl. intros HQ.
  destruct (schtasks w queryCommand) as [w1 [output [e|]]]; by simplify_eq.
Qed.

Lemma end_commands w action w' r : endTask w action = (w', r) → w' = commands w [endCommand].
Proof.
  unfold endTask, commands. fold endCommand. simpl. intros HE.
  destruct (schtasks w endCommand) as [w1 [output [e|]]]; by simplify_eq.
Qed.

Lemma create_commands w path w' r :
  createAndRun w path = (w', r) →
  (r = Ok tt ∧ w' = commands w [createCommand path; runCommand]) ∨
  is_ok r = false ∧ (w' = commands w [createCommand path] ∨ w' = commands w [createCommand path; runCommand]).
Proof.
  unfold createAndRun, commands. simpl. fold (createCommand path) runCommand.
  destruct (schtasks w (createCommand path)) as [w1 [output [e|]]]; simpl; [intros [= <- <-]; auto|].
  destruct (schtasks w1 runCommand) as [w2 [output2 [e|]]]; simpl; intros [= <- <-]; auto.
Qed.

(** Installing and removing the background task take their steps in order.  An
    installation that succeeds has asked for the task, stopped one that was there,
    created the new one from the temporary file and run it; one that is refused
    because a task is there and replacing was not asked for has only asked; whatever
    happens, nothing is created or stopped before the options were found valid, and
    a task that is there is stopped first.  A removal that succeeds has asked, and if
    the task was there stopped and deleted it. *)
Theorem task_steps_in_order isAbs w o user calls :
  (let '(w', r) := installWindows isAbs w o user calls in
   let '(w1, q) := queryWindowsInstallation w in
   (w' ≠ w → validateInstall isAbs o = Ok tt ∧ is_ok (buildTaskDefinition o user) = true) ∧
   (q = Ok true → IO_Force o = false → (w' = w ∨ w' = commands w [queryCommand]) ∧ is_ok r = false) ∧
   (r = Ok tt → ∃ installed path, q = Ok installed ∧ temp_name calls = Ok path ∧
      w' = commands w (queryCommand :: (if installed : bool then [endCommand] else []) ++ [createCommand path; runCommand]))) ∧
  let '(w', r) := uninstallWindows w in
  r = Ok tt → ∃ installed, (queryWindowsInstallation w).2 = Ok installed ∧
    w' = commands w (queryCommand :: if installed : bool then [endCommand; deleteCommand] else []).
Proof.
  split.
  - destruct (installWindows isAbs w o user calls) as [w' r] eqn:HI.
    destruct (queryWindowsInstallation w) as [w1 q] eqn:HQ. pose proof (query_commands _ _ _ HQ) as Hw1.
    unfold installWindows in HI. destruct (validateInstall isAbs o) as [[]|]; [|by simplify_eq; split_and!; [|by split; [left|]|]].
    destruct (buildTaskDefinition o user) as [definition|]; [|by simplify_eq; split_and!; [|by split; [left|]|]].
    rewrite HQ in HI. split; [done|].
    destruct q as [installed|e]; [|by simplify_eq]. destruct (installed && negb (IO_Force o)) eqn:Hforce.
    { simplify_eq. split; [|done]. intros _ _. auto. }
    split; [intros [= ->] Hf; by rewrite Hf in Hforce|]. intros ->.
    destruct (if installed then endTask w1 "stop existing" else (w1, Ok tt)) as [w2 r2] eqn:HE.
    assert (w2 = commands w (queryCommand :: if installed then [endCommand] else [])) as Hw2.
    { destruct installed; [|by simplify_eq]. apply end_commands in HE. subst. done. }
    destruct r2 as [[]|]; [|done]. unfold writeDefinition in HI. destruct (temp_name calls) as [path|]; [|done].
    destruct (temp_chmod calls), (temp_write calls), (temp_close calls); try done.
    destruct (create_commands _ _ _ _ HI) as [[_ ->]|[? _]]; [|done].
    exists installed, path. split_and!; [done|done|]. subst w2. by destruct installed.
  - destruct (uninstallWindows w) as [w' r] eqn:HU. intros ->. unfold uninstallWindows in HU.
    destruct (queryWindowsInstallation w) as [w1 q] eqn:HQ. pose proof (query_commands _ _ _ HQ) as Hw1.
    destruct q as [[]|]; [| |done]; [|simplify_eq; by exists false].
    destruct (endTask w1 "stop") as [w2 r2] eqn:HE. apply end_commands in HE. destruct r2 as [[]|]; [|done].
    fold deleteCommand in HU. exists true. split; [done|]. subst w2 w1. unfold commands in *. simpl in *.
    destruct (schtasks _ deleteCommand) as [w3 [output [e|]]]; by simplify_eq.
Qed.
End Scheduler.
