(* ===== verification/RelayServing.v ===== *)
(** * Connections of the relay ([internal/relay/server.go])

    What [RelayServer] does for one frame or one request, put together: the loop of
    a connection ([runPeer]) from the ticket it presents to the deferred calls at
    its end, and the process that serves any number of them beside the sweeper and
    [Shutdown].  Every read and every request is a step; the theorem is about all
    interleavings. *)

From S2P Require Import Prelude.
From S2P Require Import Ticket.
From S2P Require Import Router.
From S2P Require Import RelayServer.

(** ** Events *)

(** [relay.Event]. *)
Record RelayEvent := mkRelayEvent { Event_Outcome : string; Event_Reason : string }.

Definition OutcomeFailure : string := "failure".
Definition OutcomeSuccess : string := "success".
Definition ReasonAtCapacity : string := "at_capacity".
Definition ReasonListenerError : string := "listener_error".

Definition listenerError : RelayEvent := mkRelayEvent OutcomeFailure ReasonListenerError.

(** What [ServeHTTP] logs. *)
Definition admissionEvents (a : Admission) : list RelayEvent :=
  match a with
  | AtCapacity => [mkRelayEvent OutcomeFailure ReasonAtCapacity]
  | UpgradeFailed => [listenerError]
  | _ => []
  end.

(** ** The end of a connection *)

Definition CloseNormalClosure : Z := 1000.
Definition CloseGoingAway : Z := 1001.
Definition CloseNoStatusReceived : Z := 1005.
Definition ClosePolicyViolation : Z := 1008.
Definition CloseInternalServerErr : Z := 1011.
Definition CloseTryAgainLater : Z := 1013.
Definition io_EOF : error := ErrorString "EOF".

(** [websocket.IsCloseError]: the error is a close frame with one of the codes. *)
Class CloseErrors := websocket_IsCloseError : error → list Z → bool.

(** The close frame a connection is sent that does not get a route. *)
Definition rejection (outcome : ConnectionOutcome) : option (Z * string) :=
  match outcome with
  | InvalidTicket => Some (ClosePolicyViolation, "invalid ticket"%string)
  | TicketRejected => Some (ClosePolicyViolation, "ticket rejected"%string)
  | JoinRejected e =>
      Some (if bool_decide (e = ErrRouteFull) then CloseTryAgainLater
            else if bool_decide (e = ErrRouteEndpoint) then ClosePolicyViolation
            else CloseInternalServerErr, "route join rejected"%string)
  | Joined _ _ => None
  end.

(** [webSocketPeer.Read]: what is copied into a buffer of the given size. *)
Definition Peer_Read (size : Z) (read : result (Z * bytes)) : result bytes :=
  match read with
  | Err e => Err e
  | Ok (_, payload) => if len payload >? size then Err (ErrorString "short buffer") else Ok payload
  end.

Section Serving.
Context {crypto : TicketCrypto} {tw : TicketWire} {ws : CloseErrors}.

Definition isExpectedClose (err : option error) : bool :=
  match err with
  | None => true
  | Some e =>
      websocket_IsCloseError e [CloseNormalClosure; CloseGoingAway; CloseNoStatusReceived] || errors_is e io_EOF
  end.

(** One round of the loop of [runPeer]: the relay, what is logged, and whether the
    loop goes on. *)
Definition pumpFrame (r : Relay) (now : Z) (h : Route) (read : result (Z * bytes)) (writeFails : bool)
    : Relay * list RelayEvent * bool :=
  match read with
  | Err e => (r, if isExpectedClose (Some e) then [] else [listenerError], false)
  | Ok (messageType, payload) =>
      if negb (messageType =? BinaryMessage) then (r, [], true)
      else match Forward r now h payload writeFails with
      | (r, Ok _) => (r, [], true)
      | (r, Err e) =>
          if errors_is e ErrPeerMissing then (r, [], true)
          else if errors_is e ErrPeerClosed then (r, [], false)
          else (r, [listenerError], false)
      end
  end.

(** ** The process *)

Inductive Phase := Handshaking | Pumping (h : Route) | Over.

(** A connection, and the ticket it was admitted with. *)
Record Session := mkSession { phase : Phase; presented : option RelayTicket }.

Record Serving := mkServing {
  relayServer : Server;
  sessions : list Session;
  events : list RelayEvent;
}.

#[global] Instance Serving_eta : Eta Serving := fun w => mkServing (relayServer w) (sessions w) (events w).

Inductive ServingStep :=
  | Request (isUpgrade upgradeOk : bool)
  | FirstFrame (i : nat) (frame : result (Z * bytes)) (now replayNow joinNow : Z)
  | Frame (i : nat) (now : Z) (read : result (Z * bytes)) (writeFails : bool)
  | Swept (now : Z)
  | Stopping
  | Drained.

(** The rest of [handleConnection] after the first frame. *)
Definition firstFrame (w : Serving) (i : nat) (frame : result (Z * bytes)) (now replayNow joinNow : Z) : Serving :=
  match handleConnection (relayServer w) i frame now replayNow joinNow with
  | (s, Joined h _) =>
      mkServing s (<[i := mkSession (Pumping h) (match readTicket frame with Ok t => Some t | Err _ => None end)]> (sessions w))
        (events w)
  | (s, _) => mkServing (connectionDone s) (<[i := mkSession Over None]> (sessions w)) (events w ++ [listenerError])
  end.

(** A round of [runPeer]; when it returns, the peer leaves its route and the
    connection is no longer counted. *)
Definition nextFrame (w : Serving) (i : nat) (h : Route) (ticket : option RelayTicket) (now : Z)
    (read : result (Z * bytes)) (writeFails : bool) : Serving :=
  let s := relayServer w in
  let '(r, logged, goesOn) := pumpFrame (server_relay s) now h read writeFails in
  let w := w <| events ::= fun l => l ++ logged |> in
  if goesOn : bool then w <| relayServer := s <| server_relay := r |> |>
  else w <| relayServer := connectionDone (s <| server_relay := Leave r (owner h) |>) |>
         <| sessions ::= insert i (mkSession Over ticket) |>.

Definition serving_step (w : Serving) (step : ServingStep) : Serving :=
  match step with
  | Request isUpgrade upgradeOk =>
      let '(s, a) := ServeHTTP (relayServer w) isUpgrade upgradeOk in
      mkServing s (sessions w ++ match a with Accepted => [mkSession Handshaking None] | _ => [] end)
        (events w ++ admissionEvents a)
  | FirstFrame i frame now replayNow joinNow =>
      match sessions w !! i with
      | Some (mkSession Handshaking _) => firstFrame w i frame now replayNow joinNow
      | _ => w
      end
  | Frame i now read writeFails =>
      match sessions w !! i with
      | Some (mkSession (Pumping h) ticket) => nextFrame w i h ticket now read writeFails
      | _ => w
      end
  | Swept now => w <| relayServer ::= fun s => s <| server_relay ::= fun r => (Sweep r now).1 |> |>
  | Stopping => w <| relayServer ::= fun s => s <| stopping := true |> |>
  | Drained =>
      let s := relayServer w in
      if stopping s && (conns s =? 0) && ownsRouter s then w <| relayServer := s <| server_relay ::= Stop |> |> else w
  end.

Definition serving_run (w : Serving) (steps : list ServingStep) : Serving := foldl serving_step w steps.
End Serving.

(** * A relay serves the holders of tickets ([internal/relay/server.go])

    What holds in every interleaving of [RelayServing]: who is counted, who is in
    the route table, and what was delivered to whom. *)

(** ** The route table *)

Section Table.
Variable conn : nat → Ticket.

Notation valid n := (validEndpoint (Ticket_Endpoint (wire (conn n))) = true).

(** The invariant of the route table, with the connections that may be in a slot
    ([P]) and those that may have been closed or have been heard ([Q]). *)
Record table_ok (P Q : nat → Prop) (r : Relay) : Prop := mkTableOk {
  t_inv : relay_inv conn r;
  t_slots k rt : routes (router r) !! k = Some rt → route_ids rt ≠ ∅ ∧ ∀ n, n ∈ route_ids rt → P n;
  t_closed n : n ∈ closedPeers r → Q n;
  t_delivered d : d ∈ delivered r → Q (peer_id d.1.1) ∧ Q (peer_id d.1.2);
}.

Lemma table_ok_mono (P Q P' Q' : nat → Prop) r :
  (∀ n, P n → P' n) → (∀ n, Q n → Q' n) → table_ok P Q r → table_ok P' Q' r.
Proof. intros HP HQ [Hi Hs Hc Hd]. split; [done| | |]; firstorder. Qed.

Lemma slot_route r k rt n :
  relay_inv conn r → routes (router r) !! k = Some rt → n ∈ route_ids rt → route_of conn n = k.
Proof. intros Hi Hk Hn. by destruct (route_ids_owner _ _ _ _ _ (i_routes _ _ Hi _ _ Hk) Hn). Qed.

Lemma Leave_ok P Q r n :
  (∀ m, P m → Q m) → Q n → valid n → table_ok P Q r →
  table_ok (fun m => P m ∧ m ≠ n) Q (Leave r (peer_of conn n)) ∧ delivered (Leave r (peer_of conn n)) = delivered r.
Proof.
  intros HPQ Hq Hv [Hi Hs Hc Hd]. pose proof (Leave_inv _ _ _ Hv Hi) as Hi'.
  destruct (routes (router r) !! route_of conn n) as [rt|] eqn:Hk.
  - rewrite (Leave_eq _ _ _ _ Hv Hk) in *. split; [|done]. split; [done| | |]; simpl.
    + intros k rt' [Hne Hk']%lookup_delete_Some. destruct (Hs _ _ Hk') as [Hn HP]. split; [done|].
      intros m Hm. split; [by apply HP|]. intros ->. by rewrite (slot_route _ _ _ _ Hi Hk' Hm) in Hne.
    + intros m [[Hm|Hm]%elem_of_union|Hm]%elem_of_union.
      * apply HPQ, (Hs _ _ Hk). rewrite (route_ids_split _ _ n Hv). set_solver.
      * by apply elem_of_singleton in Hm as ->.
      * by apply Hc.
    + done.
  - assert (Leave r (peer_of conn n) = r) as E.
    { unfold Leave, peer_of, newWebSocketPeer. simpl. fold (route_of conn n). by rewrite Hk. }
    rewrite E. split; [|done]. split; [done| |done|done].
    intros k rt Hk'. destruct (Hs _ _ Hk') as [Hn HP]. split; [done|]. intros m Hm. split; [by apply HP|].
    intros ->. by rewrite (slot_route _ _ _ _ Hi Hk' Hm) in Hk; simplify_eq.
Qed.

Lemma Sweep_ok P Q r now : (∀ m, P m → Q m) → table_ok P Q r →
  table_ok P Q (Sweep r now).1 ∧ delivered (Sweep r now).1 = delivered r.
Proof.
  intros HPQ [Hi Hs Hc Hd]. destruct (stopped (router r)) eqn:Hst; [unfold Sweep; by rewrite Hst|].
  pose proof (Sweep_inv _ _ now Hi) as Hi'. destruct (Sweep r now) as [r' res] eqn:HS.
  destruct (Sweep_spec _ _ _ _ Hst (keyed_inv _ _ Hi) HS) as (Hroutes & Hclosed & Hdel & _). simpl in *.
  rewrite Hdel. split; [|done]. split; [done| | |by rewrite Hdel].
  - intros k rt [Hk _]%Hroutes. by apply (Hs k).
  - intros n [Hn|(k & rt & Hk & _ & Hn)]%Hclosed; [by apply Hc|]. by apply HPQ, (Hs _ _ Hk).
Qed.

Lemma Stop_ok P Q r : (∀ m, P m → Q m) → table_ok P Q r → table_ok P Q (Stop r) ∧ delivered (Stop r) = delivered r.
Proof.
  intros HPQ [Hi Hs Hc Hd]. pose proof (Stop_inv _ _ Hi) as Hi'. unfold Stop in *. destruct (stopped (router r)); [done|].
  revert Hi'. match goal with |- context [foldl closeRoute ?x ?rs] =>
    destruct (closeRoutes_spec rs x) as (E1 & E2 & E3) end.
  intros Hi'. rewrite E2. split; [|done]. split; [done| | |by rewrite E2]; rewrite ?E1, ?E3; simpl.
  - intros k rt Hk. by rewrite lookup_empty in Hk.
  - intros n [Hn|Hn]%elem_of_union; [|by apply Hc]. apply HPQ.
    apply elem_of_union_list in Hn as (X & (rt & -> & Hin)%list_elem_of_fmap & Hn).
    apply list_elem_of_fmap in Hin as ([k rt'] & -> & Hin%elem_of_map_to_list). by apply (Hs k rt').
Qed.

(** A forwarded message: what is delivered, and to whom. *)
Lemma Forward_ok P Q r now n data fails :
  (∀ m, P m → Q m) → Q n → table_ok P Q r →
  let '(r', res) := Forward r now (handle_of conn n) data fails in
  table_ok P Q r' ∧
  (delivered r' = delivered r ∨ ∃ dest, delivered r' = delivered r ++ [(peer_of conn n, dest, data)]).
Proof.
  intros HPQ Hn Hok. pose proof Hok as [Hi Hs Hc Hd]. pose proof (Forward_inv _ _ now n data fails Hi) as Hi'.
  unfold Forward in *. simpl in *.
  destruct (routes (router r) !! route_of conn n) as [rt|] eqn:Hk; [|by auto].
  destruct (otherOf rt (peer_of conn n)) as [dest|] eqn:Ho; [|by auto].
  destruct (otherOf_spec _ _ _ _ _ Hi Hk Ho) as (m & -> & Hm & Hopen & Hopp).
  pose proof (opposite_valid _ _ Hopp) as Hv.
  set (s' := r <| router ::= fun r => r <| routes ::= insert (route_of conn n) (rt <| lastActivity := now |>) |> |>) in *.
  assert (table_ok P Q s') as Hok'.
  { split; [by apply touch_inv| |done|done]. intros k rt'. unfold s'. simpl. intros [[<- <-]|[Hne Hk']]%lookup_insert_Some; [|by apply (Hs k)].
    by apply (Hs _ _ Hk). }
  assert (P m) as HPm.
  { apply (Hs _ _ Hk). unfold otherOf in Ho. unfold route_ids. destruct (peer_endpoint _); try done; rewrite Ho; set_solver. }
  unfold Peer_Forward in *. change (closedPeers s') with (closedPeers r) in *.
  rewrite bool_decide_eq_false_2 in * by done. destruct fails.
  - clear Hi'. cbn [fst snd]. rewrite (Leave_closed conn s' _ (rt <| lastActivity := now |>)); [|simpl; rewrite <- Hm; apply lookup_insert_eq|done].
    destruct (Leave_ok P Q s' m HPQ (HPQ _ HPm) Hv Hok') as [HL HD]. split; [|by left].
    revert HL. apply table_ok_mono; [by intros ? []|done].
  - simpl in *. split; [|right; by eexists]. split; [done|apply (t_slots _ _ _ Hok')|done|].
    intros d [Hin|Hin]%elem_of_app; [by apply Hd|]. apply list_elem_of_singleton in Hin as ->. simpl. auto.
Qed.

Lemma Join_ok P Q r now n t :
  n ∉ closedPeers r → wire t = wire (conn n) → valid n → table_ok P Q r →
  let '(r', res) := Join r now t (newWebSocketPeer n t) in
  delivered r' = delivered r ∧
  match res with
  | Ok (h, _) => h = handle_of conn n ∧ table_ok (fun m => P m ∨ m = n) (fun m => Q m ∨ m = n) r'
  | Err _ => table_ok P Q r'
  end.
Proof.
  intros Hc Ht Hv [Hi Hs Hcl Hd]. pose proof (Join_inv _ _ now n Hi Hc) as Hi'.
  replace (Join r now t (newWebSocketPeer n t)) with (Join r now (conn n) (peer_of conn n))
    by (unfold Join, peer_of, newWebSocketPeer; by rewrite Ht).
  unfold Join in *. destruct (stopped (router r)) eqn:Hst; [by split|]. fold (route_of conn n) in *.
  set (rt := match routes (router r) !! route_of conn n with Some rt => rt | None => _ end) in *.
  assert (routes (router r) !! route_of conn n = Some rt ∨ agent rt = None ∧ client rt = None ∧ 2 <= connectionCap rt) as Hrt.
  { subst rt. destruct (routes (router r) !! route_of conn n); [by left|]. right. simpl. split_and!; try done. destruct (MaxConnections (wire (conn n)) <? 2) eqn:?; lia. }
  assert (∀ rt', route_ids rt' = route_ids rt ∪ {[n]} → relay_inv conn (r <| router ::= fun r => r <| routes ::= insert (route_of conn n) rt' |> |>) →
    table_ok (fun m => P m ∨ m = n) (fun m => Q m ∨ m = n) (r <| router ::= fun r => r <| routes ::= insert (route_of conn n) rt' |> |>)) as Hput.
  { intros rt' E Hinv. split; [done| | |]; simpl.
    - intros k rt0 [[<- <-]|[Hne Hk]]%lookup_insert_Some.
      + rewrite E. split; [set_solver|]. intros m [Hm|Hm]%elem_of_union; [|set_solver].
        left. destruct Hrt as [Hk|(Ea & Ec & _)]; [by apply (Hs _ _ Hk)|].
        unfold route_ids in Hm. rewrite Ea, Ec in Hm. set_solver.
      + destruct (Hs _ _ Hk) as [? Hall]. split; [done|]. auto.
    - auto.
    - intros d Hin. destruct (Hd _ Hin). auto. }
  assert (routes (router r) !! route_of conn n = Some rt → table_ok P Q (r <| router ::= fun r => r <| routes ::= insert (route_of conn n) rt |> |>)) as Hsame.
  { intros Hk. split; [by apply insert_inv; [..|apply (i_routes _ _ Hi)]| |done|done]. simpl.
    intros k rt0 [[<- <-]|[Hne Hk']]%lookup_insert_Some; by eapply Hs. }
  unfold occupied in *.
  destruct Hrt as [Hk|(Ea & Ec & Hcap)].
  - destruct (_ >=? connectionCap rt); simpl in *; [by auto|].
    destruct (Ticket_Endpoint (wire (conn n))) eqn:He; simpl in *; try by auto.
    + destruct (agent rt) eqn:Ea; simpl in *; [by auto|]. split_and!; [done|by unfold handle_of; rewrite He|]. apply Hput; [|done].
      unfold route_ids. rewrite Ea. simpl. set_solver.
    + destruct (client rt) eqn:Ec; simpl in *; [by auto|]. split_and!; [done|by unfold handle_of; rewrite He|]. apply Hput; [|done].
      unfold route_ids. rewrite Ec. simpl. set_solver.
  - rewrite Ea, Ec in *. destruct (0 + 0 >=? connectionCap rt) eqn:?; [lia|]. simpl in *.
    destruct (Ticket_Endpoint (wire (conn n))) eqn:He; simpl in *; try done;
      (split_and!; [done|by unfold handle_of; rewrite He|apply Hput; [|done]]); unfold route_ids; simpl;
      rewrite ?Ea, ?Ec; simpl; set_solver.
Qed.
End Table.

(** The invariant says the same of two ways to name the tickets that agree on the
    connections it is about. *)
Lemma table_ok_agree conn conn' (P Q : nat → Prop) r :
  (∀ n, P n → Q n) → (∀ n, Q n → conn n = conn' n) → table_ok conn P Q r → table_ok conn' P Q r.
Proof.
  intros HPQ Hagree [[Hr Hst Hdel] Hs Hc Hd]. split; [|done|done|done]. split; [|done|].
  - intros k rt Hk. destruct (Hr _ _ Hk) as [H1 H2 H3 H4]. destruct (Hs _ _ Hk) as [_ HP].
    split; [done|done| |]; intros q Hq;
      [destruct (H3 q Hq) as (n & -> & Hn & He & Ho)|destruct (H4 q Hq) as (n & -> & Hn & He & Ho)];
      exists n; unfold peer_of, route_of in *;
      (rewrite <- (Hagree n); [done|]); apply HPQ, HP; unfold route_ids; rewrite Hq; simpl; set_solver.
  - apply Forall_forall. intros d Hin. destruct (Hd d Hin) as [Q1 Q2].
    rewrite Forall_forall in Hdel. destruct (Hdel d Hin) as (n & m & E1 & E2 & He & Hopp).
    rewrite E1 in Q1. rewrite E2 in Q2. simpl in Q1, Q2. exists n, m. unfold peer_of, route_of in *.
    by rewrite <- (Hagree n), <- (Hagree m).
Qed.

Lemma Join_delivered r now t p r' res : Join r now t p = (r', res) → delivered r' = delivered r.
Proof. unfold Join. intros H. by repeat (case_match; simplify_eq/=). Qed.

(** ** Connections *)

Section Serving.
Context {crypto : TicketCrypto} {tw : TicketWire} {ws : CloseErrors}.

Definition noTicket : RelayTicket := mkRelayTicket 0 [] [] RELAY_ENDPOINT_UNSPECIFIED [] None 0 [] [] 0.

(** The ticket of a connection. *)
Definition ticketOf (l : list Session) (n : nat) : Ticket :=
  mkTicket (default noTicket (l !! n ≫= presented)) [] 0.

Definition pumping (l : list Session) (n : nat) : Prop := ∃ h t, l !! n = Some (mkSession (Pumping h) (Some t)).
Definition admitted (l : list Session) (n : nat) : Prop := ∃ p t, l !! n = Some (mkSession p (Some t)).

(** The connections that are counted. *)
Definition alive (s : Session) : bool := match phase s with Over => false | _ => true end.
Definition living (l : list Session) : Z := len (filter (fun s => alive s = true) l).

Record session_ok (l : list Session) (n : nat) (s : Session) : Prop := mkSessionOk {
  s_handshake : phase s = Handshaking → presented s = None;
  s_pumping h : phase s = Pumping h → is_Some (presented s) ∧ h = handle_of (ticketOf l) n;
  s_valid t : presented s = Some t → validEndpoint (Ticket_Endpoint t) = true;
}.

Record serving_ok (w : Serving) : Prop := mkServingOk {
  w_counts : ∃ e f, served_inv (RelayServer.mkServed (relayServer w) (living (sessions w)) e f);
  w_table : table_ok (ticketOf (sessions w)) (pumping (sessions w)) (admitted (sessions w)) (server_relay (relayServer w));
  w_sessions n s : sessions w !! n = Some s → session_ok (sessions w) n s;
}.

Lemma pumping_admitted l n : pumping l n → admitted l n.
Proof. intros (h & t & H). by exists (Pumping h), t. Qed.

Lemma living_insert l i s s' : l !! i = Some s → living (<[i := s']> l) =
  living l - (if alive s then 1 else 0) + (if alive s' then 1 else 0).
Proof.
  intros Hi. unfold living. rewrite <- (take_drop_middle l i s Hi) at 2.
  rewrite insert_take_drop by (by eapply lookup_lt_Some). rewrite !filter_app, !filter_cons, !len_app.
  destruct (alive s), (alive s'); repeat case_decide; try done; rewrite ?len_cons; lia.
Qed.

Lemma living_snoc l s : living (l ++ [s]) = living l + (if alive s then 1 else 0).
Proof. unfold living. rewrite filter_app, len_app, filter_cons. destruct (alive s); case_decide; done. Qed.

Lemma ticketOf_insert l i s s' n : l !! i = Some s → presented s' = presented s → ticketOf (<[i := s']> l) n = ticketOf l n.
Proof.
  intros Hi Hp. unfold ticketOf. destruct (decide (i = n)) as [->|Hne]; [|by rewrite list_lookup_insert_ne].
  rewrite list_lookup_insert_eq by (by eapply lookup_lt_Some). by rewrite Hi; simpl; rewrite Hp.
Qed.

Lemma session_ok_agree l l' n s : ticketOf l' n = ticketOf l n → session_ok l n s → session_ok l' n s.
Proof.
  intros Ht [H1 H2 H3]. split; [done| |done]. intros h Hh. destruct (H2 h Hh) as [? ->]. split; [done|].
  unfold handle_of, peer_of, route_of. by rewrite Ht.
Qed.

(** A counted connection that ends. *)
Lemma counts_done w i s s' :
  sessions w !! i = Some s → alive s = true → alive s' = false → maxConns (relayServer w) < 2 ^ 63 - 1 →
  (∃ e f, served_inv (RelayServer.mkServed (relayServer w) (living (sessions w)) e f)) → ∀ r v,
  ∃ e f, served_inv (RelayServer.mkServed
    (connectionDone ((relayServer w) <| server_verifier := v |> <| server_relay := r |>)) (living (<[i := s']> (sessions w))) e f).
Proof.
  intros Hi Ha Ha' Hm (e & f & Hc) r v. rewrite (living_insert _ _ _ s' Hi), Ha, Ha', Z.add_0_r.
  assert (0 < living (sessions w)) as Hpos.
  { unfold living. rewrite <- (take_drop_middle _ _ _ Hi), filter_app, filter_cons, len_app. case_decide; [|done]. rewrite len_cons.
    pose proof (len_nonneg (filter (fun s => alive s = true) (take i (sessions w)))).
    pose proof (len_nonneg (filter (fun s => alive s = true) (drop (S i) (sessions w)))). lia. }
  set (x := RelayServer.mkServed ((relayServer w) <| server_verifier := v |> <| server_relay := r |>) (living (sessions w)) e f).
  assert (served_inv x) as Hx by (by destruct Hc).
  destruct (served_step_inv x _ Hm (step_done x Hpos) Hx) as [Hd _]. eauto.
Qed.

(** ** A step *)

Lemma table_move l l' r :
  (∀ n, admitted l n → ticketOf l n = ticketOf l' n ∧ admitted l' n) → (∀ n, pumping l n → pumping l' n) →
  table_ok (ticketOf l) (pumping l) (admitted l) r → table_ok (ticketOf l') (pumping l') (admitted l') r.
Proof.
  intros Ha Hp Ht. apply (table_ok_mono _ (pumping l) (admitted l)); [done|naive_solver|].
  apply (table_ok_agree (ticketOf l)); [apply pumping_admitted|naive_solver|done].
Qed.

Lemma counts_relay s r v n e f :
  served_inv (RelayServer.mkServed s n e f) →
  served_inv (RelayServer.mkServed (s <| server_verifier := v |> <| server_relay := r |>) n e f).
Proof. by intros []. Qed.

(** A connection that has not been admitted gets a new session, or is over. *)
Lemma fresh_insert l i s s' n : l !! i = Some s → presented s = None →
  (admitted l n → ticketOf l n = ticketOf (<[i := s']> l) n ∧ admitted (<[i := s']> l) n) ∧
  (pumping l n → pumping (<[i := s']> l) n).
Proof.
  intros Hi Hp. destruct (decide (i = n)) as [<-|Hne].
  - split; [intros (p & t & H)|intros (h & t & H)]; rewrite Hi in H; by simplify_eq/=.
  - unfold ticketOf, admitted, pumping. by rewrite list_lookup_insert_ne.
Qed.

Lemma sessions_insert l i s s' :
  l !! i = Some s → (∀ n s, l !! n = Some s → session_ok l n s) →
  (∀ n, n ≠ i → ticketOf (<[i := s']> l) n = ticketOf l n) → session_ok (<[i := s']> l) i s' →
  ∀ n s, <[i := s']> l !! n = Some s → session_ok (<[i := s']> l) n s.
Proof.
  intros Hi Hall Ht Hs n s0 [(<- & <- & _)|[Hne Hn]]%list_lookup_insert_Some; [done|].
  apply (session_ok_agree l); [by apply Ht|by apply Hall].
Qed.

Lemma ticketOf_other l i s' n : n ≠ i → ticketOf (<[i := s']> l) n = ticketOf l n.
Proof. intros Hne. unfold ticketOf. by rewrite list_lookup_insert_ne. Qed.

Lemma over_ok l n : session_ok l n (mkSession Over None).
Proof. by split. Qed.

(** A connection that gets no route is over; one that does is running. *)
Lemma rejected_ok w i s r v :
  maxConns (relayServer w) < 2 ^ 63 - 1 → serving_ok w → sessions w !! i = Some s → phase s = Handshaking →
  table_ok (ticketOf (sessions w)) (pumping (sessions w)) (admitted (sessions w)) r →
  serving_ok (mkServing (connectionDone ((relayServer w) <| server_verifier := v |> <| server_relay := r |>))
    (<[i := mkSession Over None]> (sessions w)) (events w ++ [listenerError])).
Proof.
  intros Hm [Hc Ht Hs] Hi Hp Hr. pose proof (s_handshake _ _ _ (Hs _ _ Hi) Hp) as Hnone. split; simpl.
  - apply (counts_done _ _ _ _ Hi); [unfold alive; by rewrite Hp|done|done|done].
  - revert Hr. apply table_move; intros n; by destruct (fresh_insert _ _ _ (mkSession Over None) n Hi Hnone).
  - apply (sessions_insert _ _ _ _ Hi Hs); [by intros; apply ticketOf_other|apply over_ok].
Qed.

Lemma joined_ok w i s r v t :
  serving_ok w → sessions w !! i = Some s → phase s = Handshaking → validEndpoint (Ticket_Endpoint t) = true →
  let h := handle_of (fun _ => mkTicket t [] 0) i in
  let l := <[i := mkSession (Pumping h) (Some t)]> (sessions w) in
  table_ok (ticketOf l) (fun m => pumping (sessions w) m ∨ m = i) (fun m => admitted (sessions w) m ∨ m = i) r →
  serving_ok (mkServing ((relayServer w) <| server_verifier := v |> <| server_relay := r |>) l (events w)).
Proof.
  intros [(e & f & Hc) Ht Hs] Hi Hp Hend h l Hr. pose proof (s_handshake _ _ _ (Hs _ _ Hi) Hp) as Hnone.
  assert (l !! i = Some (mkSession (Pumping h) (Some t))) as Hli by (by apply list_lookup_insert_eq; eapply lookup_lt_Some).
  assert (handle_of (ticketOf l) i = h) as Hh by (unfold handle_of, peer_of, route_of, ticketOf; by rewrite Hli).
  split; simpl.
  - exists e, f. unfold l. rewrite (living_insert _ _ _ _ Hi). unfold alive at 1. rewrite Hp. simpl.
    replace (living (sessions w) - 1 + 1) with (living (sessions w)) by lia. by apply counts_relay.
  - revert Hr. apply table_ok_mono; intros n [Hn| ->]; try by apply (fresh_insert _ _ _ _ n Hi Hnone).
    + by exists h, t.
    + by exists (Pumping h), t.
  - apply (sessions_insert _ _ _ _ Hi Hs); [by intros; apply ticketOf_other|]. fold l.
    split; simpl; [done| |by intros ? [= <-]]. intros h' [= <-]. split; [by eexists|done].
Qed.

Lemma firstFrame_ok w i s frame now replayNow joinNow :
  maxConns (relayServer w) < 2 ^ 63 - 1 → serving_ok w → sessions w !! i = Some s → phase s = Handshaking →
  serving_ok (firstFrame w i frame now replayNow joinNow).
Proof.
  intros Hm Hok Hi Hp. pose proof Hok as [_ Ht Hs]. pose proof (s_handshake _ _ _ (Hs _ _ Hi) Hp) as Hnone.
  pose proof (fun r v => rejected_ok w i s r v Hm Hok Hi Hp) as Hover.
  unfold firstFrame, handleConnection. destruct (readTicket frame) as [t|e] eqn:HR.
  2:{ specialize (Hover (server_relay (relayServer w)) (server_verifier (relayServer w)) Ht).
      by destruct (relayServer w). }
  destruct (Verify _ now replayNow t) as [v [vt|e]] eqn:HV.
  2:{ specialize (Hover (server_relay (relayServer w)) v Ht). by destruct (relayServer w). }
  destruct (Verify_Ok _ _ _ _ _ _ HV) as (Hw & Hwire & _).
  pose proof (proj2 (validEndpoint_spec _) (wf_endpoint _ Hw)) as Hend.
  pose proof (joined_ok w i s) as Hjoined. set (h := handle_of (fun _ => mkTicket t [] 0) i) in *.
  set (l := <[i := mkSession (Pumping h) (Some t)]> (sessions w)).
  assert (ticketOf l i = mkTicket t [] 0) as Hti.
  { unfold ticketOf, l. by rewrite list_lookup_insert_eq by (by eapply lookup_lt_Some). }
  assert (¬ admitted (sessions w) i) as Hnot by (intros (p & t' & H); rewrite Hi in H; by simplify_eq/=).
  assert (∀ n, admitted (sessions w) n → ticketOf (sessions w) n = ticketOf l n) as Hother.
  { intros n Hn. symmetry. apply ticketOf_other. by intros ->. }
  pose proof (Join_ok (ticketOf l) _ _ _ joinNow i vt (fun H => Hnot (t_closed _ _ _ _ Ht i H))
    ltac:(rewrite Hti; exact Hwire) ltac:(rewrite Hti; exact Hend)
    (table_ok_agree _ _ _ _ _ (pumping_admitted _) Hother Ht)) as HJ.
  simpl. destruct (Join (server_relay _) joinNow vt _) as [r [[h' o]|e]]; destruct HJ as [_ HJ].
  - destruct HJ as [-> HJ]. replace (handle_of (ticketOf l) i) with h
      by (unfold h, handle_of, peer_of, route_of; by rewrite Hti).
    by apply (Hjoined r v t Hok Hi Hp Hend).
  - apply (Hover r v). revert HJ. apply table_ok_agree; [apply pumping_admitted|]. intros n Hn. symmetry. by apply Hother.
Qed.

(** A read: what happens to the table, and what is delivered. *)
Lemma pumpFrame_ok conn P Q r now n read fails :
  (∀ m, P m → Q m) → Q n → table_ok conn P Q r →
  let '(r', _, _) := pumpFrame r now (handle_of conn n) read fails in
  table_ok conn P Q r' ∧
  (delivered r' = delivered r ∨ ∃ dest data, read = Ok (BinaryMessage, data) ∧
     delivered r' = delivered r ++ [(peer_of conn n, dest, data)]).
Proof.
  intros HPQ Hn Ht. unfold pumpFrame. destruct read as [[ty payload]|e]; [|by auto].
  destruct (Z.eqb_spec ty BinaryMessage) as [->|]; simpl; [|by auto].
  pose proof (Forward_ok conn P Q r now n payload fails HPQ Hn Ht) as HF.
  destruct (Forward _ _ _ _ _) as [r' [u|e]]; destruct HF as [Ht' Hd];
    (assert (delivered r' = delivered r ∨ ∃ dest data, Ok (BinaryMessage, payload) = Ok (BinaryMessage, data) ∧
       delivered r' = delivered r ++ [(peer_of conn n, dest, data)]) as Hd'
       by (destruct Hd as [|[dest ?]]; [by left|right; by exists dest, payload])); [done|].
  by destruct (errors_is e ErrPeerMissing), (errors_is e ErrPeerClosed).
Qed.

Lemma nextFrame_ok w i h t now read fails :
  maxConns (relayServer w) < 2 ^ 63 - 1 → serving_ok w → sessions w !! i = Some (mkSession (Pumping h) (Some t)) →
  let w' := nextFrame w i h (Some t) now read fails in
  serving_ok w' ∧
  (delivered (server_relay (relayServer w')) = delivered (server_relay (relayServer w)) ∨
   ∃ dest data, read = Ok (BinaryMessage, data) ∧ delivered (server_relay (relayServer w')) =
     delivered (server_relay (relayServer w)) ++ [(peer_of (ticketOf (sessions w)) i, dest, data)]).
Proof.
  intros Hm [Hc Ht Hs] Hi. destruct (s_pumping _ _ _ (Hs _ _ Hi) h eq_refl) as [_ ->].
  assert (admitted (sessions w) i) as Hadm by (by eexists _, _).
  pose proof (pumpFrame_ok _ _ _ _ now i read fails (pumping_admitted _) Hadm Ht) as HF.
  unfold nextFrame. destruct (pumpFrame _ _ _ _ _) as [[r logged] goesOn] eqn:HP. destruct HF as [Ht' Hd].
  destruct goesOn; simpl.
  - split; [|done]. split; [|done|done]. destruct Hc as (e & f & Hc). exists e, f.
    apply (counts_relay _ r (server_verifier (relayServer w))) in Hc. by destruct (relayServer w).
  - assert (validEndpoint (Ticket_Endpoint (wire (ticketOf (sessions w) i))) = true) as Hv.
    { unfold ticketOf. rewrite Hi. simpl. by apply (s_valid _ _ _ (Hs _ _ Hi)). }
    destruct (Leave_ok _ _ _ r i (pumping_admitted _) Hadm Hv Ht') as [HL ->].
    split; [|done]. set (l' := <[i := mkSession Over (Some t)]> (sessions w)).
    assert (∀ n, ticketOf l' n = ticketOf (sessions w) n) as Hto by (intros; by eapply ticketOf_insert).
    split; simpl; fold l'.
    + assert (relayServer w = (relayServer w) <| server_verifier := server_verifier (relayServer w) |> <| server_relay := server_relay (relayServer w) |>) as E
        by (by destruct (relayServer w)).
      destruct (counts_done _ _ _ (mkSession Over (Some t)) Hi eq_refl eq_refl Hm Hc
        (Leave r (peer_of (ticketOf (sessions w)) i)) (server_verifier (relayServer w))) as (e & f & Hc').
      exists e, f. by destruct (relayServer w).
    + apply (table_ok_agree (ticketOf (sessions w))); [apply pumping_admitted|by intros|].
      revert HL. apply table_ok_mono.
      * intros n [(h & t0 & Hn) Hne]. exists h, t0. unfold l'. by rewrite list_lookup_insert_ne.
      * intros n (p & t0 & Hn). destruct (decide (i = n)) as [<-|Hne].
        -- exists Over, t. unfold l'. by rewrite list_lookup_insert_eq by (by eapply lookup_lt_Some).
        -- exists p, t0. unfold l'. by rewrite list_lookup_insert_ne.
    + apply (sessions_insert _ _ _ _ Hi Hs); [intros; apply Hto|]. fold l'. split; simpl; try done.
      intros t0 [= <-]. by apply (s_valid _ _ _ (Hs _ _ Hi)).
Qed.

Lemma ServeHTTP_same s u ok : let '(s', _) := ServeHTTP s u ok in
  server_relay s' = server_relay s ∧ server_verifier s' = server_verifier s ∧ maxConns s' = maxConns s.
Proof. unfold ServeHTTP. by repeat case_match; simplify_eq/=. Qed.

Lemma request_ok w u ok : maxConns (relayServer w) < 2 ^ 63 - 1 → serving_ok w → serving_ok (serving_step w (Request u ok)).
Proof.
  intros Hm [Hc Ht Hs]. simpl. pose proof (ServeHTTP_same (relayServer w) u ok) as Hsame.
  destruct (ServeHTTP (relayServer w) u ok) as [s a] eqn:HS. destruct Hsame as (Hr & _ & _).
  set (new := match a with Accepted => [mkSession Handshaking None] | _ => [] end).
  assert (∀ n x, sessions w !! n = Some x → (sessions w ++ new) !! n = Some x) as Hin.
  { intros n x Hn. rewrite lookup_app_l; [done|by eapply lookup_lt_Some]. }
  assert (∀ n, ticketOf (sessions w ++ new) n = ticketOf (sessions w) n) as Hto.
  { intros n. unfold ticketOf. destruct (sessions w !! n) as [x|] eqn:Hn; [by rewrite (Hin _ _ Hn)|].
    rewrite lookup_app_r by (by apply lookup_ge_None). simpl. unfold new.
    destruct a; try (by rewrite lookup_nil). destruct (n - length (sessions w))%nat as [|[|]]; done. }
  split; simpl.
  - destruct Hc as (e & f & Hc). set (x := RelayServer.mkServed (relayServer w) (living (sessions w)) e f).
    destruct (served_step_inv x _ Hm (step_request x _ _ _ _ HS) Hc) as [Hc' _]. simpl in Hc'.
    eexists _, _. revert Hc'.
    replace (living (sessions w ++ new)) with (living (sessions w) + match a with Accepted => 1 | _ => 0 end); [eauto|].
    unfold new. destruct a; rewrite ?app_nil_r, ?Z.add_0_r, ?living_snoc; done.
  - rewrite Hr. revert Ht. apply table_move.
    + intros n (p & t & Hn). split; [done|]. exists p, t. by apply Hin.
    + intros n (h & t & Hn). exists h, t. by apply Hin.
  - intros n x Hn. destruct (sessions w !! n) as [y|] eqn:Hy.
    + rewrite (Hin _ _ Hy) in Hn. simplify_eq. by apply (session_ok_agree (sessions w)); [|apply Hs].
    + assert (x = mkSession Handshaking None) as ->; [|by split].
      rewrite lookup_app_r in Hn by (by apply lookup_ge_None). unfold new in Hn.
      destruct a; try (by rewrite lookup_nil in Hn). by destruct (n - length (sessions w))%nat as [|[|]]; simplify_eq/=.
Qed.

(** ** Runs *)

(** What the connection has sent: the payloads of the binary frames read from it. *)
Definition readFrom (i : nat) (step : ServingStep) : list bytes :=
  match step with
  | Frame j _ (Ok (messageType, payload)) _ =>
      if bool_decide (i = j) && (messageType =? BinaryMessage) then [payload] else []
  | _ => []
  end.

(** What others were sent on its behalf. *)
Definition sentBy (i : nat) (l : list (Peer * Peer * bytes)) : list bytes :=
  snd <$> filter (fun d => peer_id d.1.1 = i) l.

Lemma serving_step_ok w step :
  maxConns (relayServer w) < 2 ^ 63 - 1 → serving_ok w →
  let w' := serving_step w step in
  serving_ok w' ∧ maxConns (relayServer w') = maxConns (relayServer w) ∧
  ∀ i, ∃ new, sentBy i (delivered (server_relay (relayServer w'))) =
    sentBy i (delivered (server_relay (relayServer w))) ++ new ∧ new `sublist_of` readFrom i step.
Proof.
  intros Hm Hok w'.
  assert (∀ r, delivered r = delivered (server_relay (relayServer w)) → ∀ i, ∃ new,
    sentBy i (delivered r) = sentBy i (delivered (server_relay (relayServer w))) ++ new ∧ new `sublist_of` readFrom i step) as Hsame.
  { intros r -> i. exists []. rewrite app_nil_r. split; [done|]. apply sublist_nil_l. }
  pose proof Hok as [Hc Ht Hs]. unfold w'. destruct step as [u ok|i frame now rn jn|i now read fails|now| |].
  - split; [by apply request_ok|]. simpl. pose proof (ServeHTTP_same (relayServer w) u ok) as Hh.
    destruct (ServeHTTP _ u ok) as [s a]. destruct Hh as (Hr & _ & Hmax). simpl. rewrite Hr. auto.
  - simpl. destruct (sessions w !! i) as [[[| |] pres]|] eqn:Hi; [|by auto..].
    split; [by eapply firstFrame_ok|].
    unfold firstFrame, handleConnection. destruct (readTicket frame); [|simpl; auto].
    destruct (Verify _ _ _ _) as [v [vt|e]]; [|simpl; auto].
    destruct (Join _ _ _ _) as [r [[h o]|e]] eqn:HJ; simpl; (split; [done|]); apply Hsame;
      by apply (Join_delivered _ _ _ _ _ _ HJ).
  - simpl. destruct (sessions w !! i) as [[[|h|] pres]|] eqn:Hi; [by auto| |by auto..].
    destruct (s_pumping _ _ _ (Hs _ _ Hi) h eq_refl) as [[t Hp] _]. simpl in Hp. subst pres.
    destruct (nextFrame_ok w i h t now read fails Hm Hok Hi) as [Hok' Hd]. split; [done|]. split.
    + unfold nextFrame. destruct (pumpFrame _ _ _ _ _) as [[r l] [|]]; done.
    + destruct Hd as [Hd|(dest & data & -> & Hd)]; [by apply Hsame|]. intros j. rewrite Hd. unfold sentBy.
      rewrite filter_app, fmap_app. eexists. split; [done|]. rewrite filter_cons, filter_nil. simpl.
      case_decide as E; [|apply sublist_nil_l]. rewrite bool_decide_eq_true_2 by done. simpl. by apply sublist_skip, sublist_nil_l.
  - simpl. destruct (Sweep_ok _ _ _ _ now (pumping_admitted _) Ht) as [Ht' Hd]. split; [|by auto]. split; [|done|done].
    destruct Hc as (e & f & Hc). exists e, f. by destruct Hc.
  - simpl. split; [|by auto]. split; [|done|done]. destruct Hc as (e & f & Hc). exists e, f. by destruct Hc.
  - simpl. destruct (_ && _ && _); [|by auto]. simpl.
    destruct (Stop_ok _ _ _ _ (pumping_admitted _) Ht) as [Ht' Hd]. split; [|by auto]. split; [|done|done].
    destruct Hc as (e & f & Hc). exists e, f. by destruct Hc.
Qed.

(** The verifier keeps its issuers and its gate. *)
Definition same_trust (v v' : Verifier) : Prop := issuers v' = issuers v ∧ authorizer v' = authorizer v.

Lemma Verify_same_trust v now rn t : same_trust v (Verify v now rn t).1.
Proof.
  destruct (Verify v now rn t) as [v' [vt|e]] eqn:HV; simpl.
  - by apply Verify_Ok in HV as (_ & _ & _ & _ & _ & _ & _ & _ & _ & ->).
  - by apply Verify_rejected in HV as [-> | ->].
Qed.

Lemma step_same_trust w step :
  same_trust (server_verifier (relayServer w)) (server_verifier (relayServer (serving_step w step))).
Proof.
  destruct step as [u ok|i frame now rn jn|i now read fails|now| |]; simpl; try done.
  - pose proof (ServeHTTP_same (relayServer w) u ok) as Hh. destruct (ServeHTTP _ u ok). by destruct Hh as (_ & Hv & _); simpl; rewrite Hv.
  - destruct (sessions w !! i) as [[[| |] pres]|]; try done. unfold firstFrame, handleConnection.
    destruct (readTicket frame) as [t|]; [|done].
    pose proof (Verify_same_trust (server_verifier (relayServer w)) now rn t) as Ht.
    destruct (Verify _ _ _ _) as [v [vt|e]]; [|done]. by destruct (Join _ _ _ _) as [r [[h o]|e]].
  - destruct (sessions w !! i) as [[[|h|] pres]|]; try done. unfold nextFrame.
    by destruct (pumpFrame _ _ _ _ _) as [[r l] [|]].
  - by destruct (_ && _ && _).
Qed.

Lemma run_same_trust steps : ∀ w, same_trust (server_verifier (relayServer w)) (server_verifier (relayServer (serving_run w steps))).
Proof.
  induction steps as [|step steps IH]; intros w; [done|]. simpl. destruct (IH (serving_step w step)) as [H1 H2].
  destruct (step_same_trust w step) as [H3 H4]. split; [by rewrite H1|by rewrite H2].
Qed.

(** A connection's ticket was accepted when its first frame was read. *)
Lemma step_presented w step i s t :
  sessions (serving_step w step) !! i = Some s → presented s = Some t →
  (∃ s0, sessions w !! i = Some s0 ∧ presented s0 = Some t) ∨
  ∃ frame now rn jn v vt, step = FirstFrame i frame now rn jn ∧ readTicket frame = Ok t ∧
    Verify (server_verifier (relayServer w)) now rn t = (v, Ok vt).
Proof.
  intros Hi Hp. destruct step as [u ok|j frame now rn jn|j now read fails|now| |]; simpl in Hi; eauto.
  - destruct (ServeHTTP _ u ok) as [s' a]. simpl in Hi. apply lookup_app_Some in Hi as [?|[_ Hi]]; [eauto|].
    destruct a; try (by rewrite lookup_nil in Hi). destruct (i - _)%nat as [|[|]]; by simplify_eq/=.
  - destruct (sessions w !! j) as [[[| |] pres]|] eqn:Hj; eauto. unfold firstFrame, handleConnection in Hi.
    assert (∀ s', <[j := s']> (sessions w) !! i = Some s → (∃ s0, sessions w !! i = Some s0 ∧ presented s0 = Some t) ∨
      i = j ∧ s' = s) as Hins.
    { intros s' [(-> & -> & _)|[_ Hi']]%list_lookup_insert_Some; eauto. }
    destruct (readTicket frame) as [t'|] eqn:HR; [|apply Hins in Hi as [?|[_ <-]]; [by left|done]].
    destruct (Verify _ _ _ _) as [v [vt|e]] eqn:HV; [|apply Hins in Hi as [?|[_ <-]]; [by left|done]].
    destruct (Join _ _ _ _) as [r [[h o]|e]]; (apply Hins in Hi as [?|[-> <-]]; [by left|]); simplify_eq/=; try done.
    right. by exists frame, now, rn, jn, v, vt.
  - destruct (sessions w !! j) as [[[|h|] pres]|] eqn:Hj; eauto. unfold nextFrame in Hi.
    destruct (pumpFrame _ _ _ _ _) as [[r l] [|]]; simpl in Hi; [by eauto|].
    apply list_lookup_insert_Some in Hi as [(-> & <- & _)|[_ Hi']]; eauto.
  - destruct (_ && _ && _); eauto.
Qed.

(** The run admitted connection [i] with the ticket [t]. *)
Definition admits (v : Verifier) (steps : list ServingStep) (i : nat) (t : RelayTicket) : Prop :=
  ∃ before frame now replayNow joinNow rest,
    steps = before ++ FirstFrame i frame now replayNow joinNow :: rest ∧ readTicket frame = Ok t ∧
    well_formed t ∧ (∃ key, signed_by v t key) ∧ authorized v t ∧
    ∃ e, ExpiresAt t = Some e ∧ now <= e <= now + ticketReplayTTL.

Lemma admits_more v steps step i t : admits v steps i t → admits v (steps ++ [step]) i t.
Proof.
  intros (before & frame & now & rn & jn & rest & -> & H). exists before, frame, now, rn, jn, (rest ++ [step]).
  by rewrite <- app_assoc.
Qed.

Lemma run_presented w steps : sessions w = [] → ∀ i s t,
  sessions (serving_run w steps) !! i = Some s → presented s = Some t →
  admits (server_verifier (relayServer w)) steps i t.
Proof.
  intros Hw. induction steps as [|step steps IH] using rev_ind; intros i s t Hi Hp.
  - simpl in Hi. by rewrite Hw, lookup_nil in Hi.
  - unfold serving_run in Hi. rewrite foldl_app in Hi. simpl in Hi. fold (serving_run w steps) in Hi.
    destruct (step_presented _ _ _ _ _ Hi Hp) as [(s0 & Hs0 & Hp0)|(frame & now & rn & jn & v & vt & -> & HR & HV)].
    + apply admits_more. by eapply IH.
    + exists steps, frame, now, rn, jn, []. apply Verify_Ok in HV as (Hw' & _ & He & _ & Hrange & _ & Hs' & Ha & _).
      destruct (run_same_trust steps w) as [E1 E2]. unfold signed_by, authorized in *. rewrite E1 in Hs'. rewrite E2 in Ha.
      split_and!; eauto.
Qed.

Lemma run_ok steps : ∀ w, maxConns (relayServer w) < 2 ^ 63 - 1 → serving_ok w →
  let w' := serving_run w steps in
  serving_ok w' ∧ maxConns (relayServer w') = maxConns (relayServer w) ∧
  ∀ i, ∃ new, sentBy i (delivered (server_relay (relayServer w'))) =
    sentBy i (delivered (server_relay (relayServer w))) ++ new ∧ new `sublist_of` (steps ≫= readFrom i).
Proof.
  induction steps as [|step steps IH]; intros w Hm Hok.
  - simpl. split_and!; [done|done|]. intros i. exists []. by rewrite app_nil_r.
  - destruct (serving_step_ok w step Hm Hok) as (Hok1 & Hm1 & Hd1).
    destruct (IH (serving_step w step)) as (Hok2 & Hm2 & Hd2); [by rewrite Hm1|done|]. simpl. split_and!; [done|by rewrite Hm2|].
    intros i. destruct (Hd1 i) as (n1 & E1 & S1). destruct (Hd2 i) as (n2 & E2 & S2). exists (n1 ++ n2).
    unfold serving_run in E2. simpl in *. unfold serving_run. rewrite E2, E1, app_assoc. split; [done|by apply sublist_app].
Qed.

Lemma New_serving_ok config s : New config = Ok s → Config_Router config = None → serving_ok (mkServing s [] []).
Proof.
  intros HN Hr. unfold New in HN. rewrite Hr in HN. destruct (Config_Verifier config); simplify_eq/=.
  split; simpl; [|split; simpl; [split|..]|]; simpl; try done; try (intros; set_solver).
  - exists 0, 0. change (living []) with 0. split; simpl; try done. intros. split; [done|].
    match goal with H : _ > 0 |- _ => apply Z.gt_lt, Z.lt_le_incl in H end. done.
Qed.

(** The occupants of a route. *)
Lemma occupants w k rt : serving_ok w → routes (router (server_relay (relayServer w))) !! k = Some rt →
  route_ids rt ≠ ∅ ∧ ∀ n, n ∈ route_ids rt → ∃ h t, sessions w !! n = Some (mkSession (Pumping h) t) ∧ handle_id h = k.
Proof.
  intros [_ Ht Hs] Hk. destruct (t_slots _ _ _ _ Ht k rt Hk) as [? Hall]. split; [done|]. intros n Hn.
  destruct (Hall n Hn) as (h & t & Hsn). exists h, (Some t). split; [done|].
  destruct (s_pumping _ _ _ (Hs _ _ Hsn) h eq_refl) as [_ ->]. simpl. by eapply slot_route; [apply Ht|..].
Qed.

Lemma living_positive l n s : l !! n = Some s → alive s = true → 0 < living l.
Proof.
  intros Hn Ha. pose proof (living_insert _ _ _ (mkSession Over None) Hn) as HL. rewrite Ha in HL. simpl in HL.
  pose proof (len_nonneg (filter (fun s => alive s = true) (<[n := mkSession Over None]> l))). unfold living in *. lia.
Qed.

Lemma table_empties w : serving_ok w → living (sessions w) = 0 → routes (router (server_relay (relayServer w))) = ∅.
Proof.
  intros Hok H0. apply map_empty. intros k. destruct (routes _ !! k) as [rt|] eqn:Hk; [|done]. exfalso.
  destruct (occupants w k rt Hok Hk) as [Hne Hall]. apply set_choose_L in Hne as [n Hn].
  destruct (Hall n Hn) as (h & t & Hsn & _). apply living_positive in Hsn; [lia|done].
Qed.

(** Who speaks to whom. *)
Lemma delivered_between w0 steps from to data :
  let w := serving_run w0 steps in sessions w0 = [] → serving_ok w → (from, to, data) ∈ delivered (server_relay (relayServer w)) →
  ∃ t t', admits (server_verifier (relayServer w0)) steps (peer_id from) t ∧
    admits (server_verifier (relayServer w0)) steps (peer_id to) t' ∧
    RouteId t = RouteId t' ∧ opposite (Ticket_Endpoint t) (Ticket_Endpoint t').
Proof.
  intros w H0 [_ Ht _] Hin. destruct (t_delivered _ _ _ _ Ht _ Hin) as [Ha Hb]. simpl in Ha, Hb.
  pose proof (i_delivered _ _ (t_inv _ _ _ _ Ht)) as Hdel. rewrite Forall_forall in Hdel.
  destruct (Hdel _ Hin) as (n & m & E1 & E2 & He & Hopp). simpl in E1, E2. subst from to. simpl in *.
  destruct Ha as (p & t & Ha), Hb as (p' & t' & Hb). exists t, t'.
  unfold route_of, ticketOf in He. unfold ticketOf in Hopp. rewrite Ha, Hb in He, Hopp. simpl in He, Hopp.
  split_and!; [by eapply (run_presented w0 steps H0 _ _ _ Ha)|by eapply (run_presented w0 steps H0 _ _ _ Hb)|by apply string_of_bytes_inj|done].
Qed.

(** C9: a relay serves the holders of tickets, and forgets them when they go.  In
    every interleaving of requests, first frames, reads, sweeps and the shutdown: the
    connections counted are those that are not over, and never more than the limit;
    every route has an occupant, and its occupants are connections whose loop is
    running, so that when the last connection is over the table is empty and the
    shutdown can end; what was written to a connection was read from another, both
    were admitted with tickets that were well formed, signed by an issuer the relay
    knows, authorized and in their time, for the same route and opposite ends; and
    what was delivered for a connection is, in order and each once, some of what it
    sent. *)
Theorem relay_serves_ticket_holders config v s steps :
  New config = Ok s → Config_Verifier config = Some v → Config_Router config = None →
  Config_MaxConnections config < 2 ^ 63 - 1 →
  let w := serving_run (mkServing s [] []) steps in
  let relay := server_relay (relayServer w) in
  (conns (relayServer w) = living (sessions w) ∧
   (maxConns s > 0 → activeConns (relayServer w) = living (sessions w) ∧ living (sessions w) <= maxConns s)) ∧
  (∀ k rt, routes (router relay) !! k = Some rt → route_ids rt ≠ ∅ ∧ ∀ n, n ∈ route_ids rt →
     ∃ h t, sessions w !! n = Some (mkSession (Pumping h) t) ∧ handle_id h = k) ∧
  (living (sessions w) = 0 → routes (router relay) = ∅) ∧
  (∀ from to data, (from, to, data) ∈ delivered relay → ∃ t t', admits v steps (peer_id from) t ∧
     admits v steps (peer_id to) t' ∧ RouteId t = RouteId t' ∧ opposite (Ticket_Endpoint t) (Ticket_Endpoint t')) ∧
  (∀ i, sentBy i (delivered relay) `sublist_of` (steps ≫= readFrom i)).
Proof.
  intros HN Hcv Hcr Hmax w relay. pose proof (New_serving_ok _ _ HN Hcr) as Hok0.
  assert (maxConns s < 2 ^ 63 - 1 ∧ server_verifier s = v ∧ delivered (server_relay s) = []) as (Hm & <- & Hd0).
  { unfold New in HN. rewrite Hcv, Hcr in HN. simplify_eq/=. split_and!; [|done|done].
    unfold defaultMaxConnections. case_match; lia. }
  destruct (run_ok steps (mkServing s [] []) Hm Hok0) as (Hok & Hmc & Hsub). simpl in Hmc. fold w in Hok, Hmc, Hsub.
  split_and!.
  - by destruct (w_counts _ Hok) as (e & f & []).
  - intros Hpos. destruct (w_counts _ Hok) as (e & f & [_ _ _ Ha _]). simpl in Ha. rewrite Hmc in Ha. by apply Ha.
  - intros k rt. by apply occupants.
  - by apply table_empties.
  - intros from to data. by apply (delivered_between (mkServing s [] [])).
  - intros i. destruct (Hsub i) as (new & E & Hsl). simpl in E. rewrite Hd0 in E. unfold sentBy in E. simpl in E.
    unfold relay, sentBy. by rewrite E.
Qed.
End Serving.
