(* ===== verification/RelayRendezvous.v ===== *)
(** * An Agent and a client meet on a relay

    The composition of the relay client, the tickets, the server's front door and
    the route table: the two tickets of a pair, presented in the frames the client
    code sends, lead to the two ends of one route. *)

From S2P Require Import Prelude.
From S2P Require Import Sha256.
From S2P Require Import Utf8.
From S2P Require Import Ticket.
From S2P Require Import Router.
From S2P Require Import RelayServer.
From S2P Require Import RelayClient.

(** ** The ticket frame *)

Lemma byte_val_byte_of_Z z : byte_val (byte_of_Z z) = z `mod` 256.
Proof.
  unfold byte_of_Z. assert (0 <= z `mod` 256 < 256) as Hz by (apply Z.mod_pos_bound; lia).
  destruct (Byte.of_N (Z.to_N (z `mod` 256))) as [b|] eqn:E.
  - apply Byte.to_of_N in E. unfold byte_val. lia.
  - apply Byte.of_N_None_iff in E. lia.
Qed.

Lemma Uint32_PutUint32 n rest : 0 <= n < 2 ^ 32 → Uint32 (PutUint32 n ++ rest) = n.
Proof.
  intros Hn. unfold Uint32, PutUint32. simpl.
  change (Z.of_N (Byte.to_N ?b)) with (byte_val b).
  repeat match goal with |- context [Z.of_N (Byte.to_N ?b)] => change (Z.of_N (Byte.to_N b)) with (byte_val b) end.
  rewrite !byte_val_byte_of_Z. Z.to_euclidean_division_equations. lia.
Qed.

Section Rendezvous.
Context {crypto : TicketCrypto} {tw : TicketWire} {enc : TicketEncoder}.

(** What the protobuf library documents: a message reads back as it was
    written. *)
Definition ticket_codec : Prop := ∀ t b, proto_Marshal t = Ok b → ticket_Unmarshal b = Ok t.

(** The relay reads the ticket back from the frame the client sends, when the
    encoding fits the relay's limit. *)
Lemma readTicket_dialFrame t frame :
  ticket_codec → dialFrame (Some t) = Ok frame → len frame <= maxTicketBytes + 4 →
  readTicket (Ok (BinaryMessage, frame)) = Ok t.
Proof.
  intros Hc HD Hlen. unfold dialFrame in HD. destruct (len (RouteId t) =? 0); [done|].
  destruct (proto_Marshal t) as [encoded|] eqn:HM; [|done].
  destruct (len encoded >? MaxFrameBytes); [done|].
  assert (frame = PutUint32 (len encoded) ++ encoded) as -> by congruence.
  pose proof (len_nonneg encoded). rewrite len_app in Hlen. change (len (PutUint32 _)) with 4 in Hlen.
  unfold maxTicketBytes in *. unfold readTicket.
  rewrite len_app. change (len (PutUint32 (len encoded))) with 4. simpl negb.
  destruct (4 + len encoded <? 4) eqn:?; [lia|].
  destruct (4 + len encoded >? maxTicketBytes + 4) eqn:?; [unfold maxTicketBytes in *; lia|].
  rewrite Uint32_PutUint32 by lia.
  destruct (len encoded >? 4 + len encoded - 4) eqn:?; [lia|].
  change (drop 4 (PutUint32 (len encoded) ++ encoded)) with encoded.
  unfold len. rewrite Nat2Z.id, firstn_all. by rewrite (Hc _ _ HM).
Qed.

(** ** The two tickets *)

(** The instant a ticket of the pair counts from. *)
Definition issuedAt (m : Minting) (input : PairInput) : Z :=
  if Pair_IssuedAt input =? zeroTime then mint_now m else Pair_IssuedAt input.

(** A ticket of the pair, as minted. *)
Definition minted (private : bytes) (m : Minting) (input : PairInput) (endpoint : RelayEndpoint)
    (device : bytes) (w : RelayTicket) : Prop :=
  pairTicket private m input endpoint device = Ok w ∧
  0 < Pair_Lifetime input <= 10 * Minute.

Lemma Pair_Ok issuer agentMint clientMint input wa wc :
  Pair issuer agentMint clientMint input = Ok (wa, wc) →
  ∃ private, issuer = Some private ∧
    minted private agentMint input RELAY_ENDPOINT_AGENT (Pair_AgentID input) wa ∧
    minted private clientMint input RELAY_ENDPOINT_CLIENT (Pair_ClientID input) wc.
Proof.
  unfold Pair, minted. intros H. go_cases. eexists. split_and!; eauto; lia.
Qed.

Lemma minted_expiry private m input endpoint device w :
  minted private m input endpoint device w → 0 <= issuedAt m input →
  ExpiresAt w = Some (issuedAt m input + Pair_Lifetime input).
Proof.
  intros [HP Hl] H0. unfold pairTicket in HP. apply Issue_expiry in HP. rewrite HP. f_equal. simpl.
  unfold issuedAt in *. destruct (Z.eqb_spec (Pair_IssuedAt input) zeroTime) as [E|E]; simpl.
  - destruct (Pair_Lifetime input <=? 0) eqn:?; lia.
  - destruct (Z.eqb_spec (Pair_IssuedAt input + Pair_Lifetime input) zeroTime); simpl; [|done].
    unfold zeroTime, Second in *. lia.
Qed.

(** The random source yields an identifier and a nonce of the right size. *)
Definition draws (m : Minting) (id : bytes) : Prop :=
  mint_id m = Ok id ∧ len id = ticketIDBytes ∧
  ∃ nonce, mint_nonce m = Ok nonce ∧ len nonce = ticketNonceBytes.

(** The conditions under which a verifier accepts a ticket of the pair. *)
Definition presentable (v : Verifier) (private : bytes) (m : Minting) (input : PairInput)
    (w : RelayTicket) (now replayNow : Z) : Prop :=
  (∃ name, issuers v !! name = Some (ed25519_Public private)) ∧ authorized v w ∧
  ¬ remembered v replayNow (TicketId w) ∧
  issuedAt m input <= now <= issuedAt m input + Pair_Lifetime input.

Lemma minted_accepted v private m id input endpoint device w now replayNow :
  ed25519_correct → len private = ed25519_PrivateKeySize →
  draws m id → 0 <= issuedAt m input → minted private m input endpoint device w →
  presentable v private m input w now replayNow →
  ∃ v' t, Verify v now replayNow w = (v', Ok t) ∧ wire t = w ∧ RouteId w = Pair_RouteID input ∧
    Ticket_Endpoint w = endpoint ∧ DeviceId w = device ∧ TicketId w = id ∧
    v' = (sweepLocked v replayNow) <| replay ::= insert (string_of_bytes id) replayNow |>.
Proof.
  intros Hed Hpriv (Hid & Hidl & nonce & Hn & Hnl) H0 Hm ((name & Hname) & Hauth & Hfresh & Hnow).
  pose proof (minted_expiry _ _ _ _ _ _ Hm H0) as Hexp. destruct Hm as [HP Hl].
  unfold pairTicket in HP. rewrite Hid, Hn in HP.
  destruct (issued_accepted v private _ _ _ _ w now replayNow Hed Hpriv Hidl Hnl HP) as (v' & t & HV);
    [by eexists|done| |intros e He|].
  - apply Issue_Ok in HP as (_ & body & x & _ & _ & _ & <- & _). done.
  - rewrite Hexp in He. injection He as <-. unfold ticketReplayTTL. split; [|lia].
    unfold zeroTime, Second. lia.
  - apply Issue_Ok in HP as (_ & body & x & _ & _ & _ & Hid' & _ & Hr & He & Hd & _).
    exists v', t. split; [done|].
    apply Verify_Ok in HV as (_ & Hw & _ & _ & _ & _ & _ & _ & _ & ->). by rewrite Hid'.
Qed.

(** The verifier after the first ticket accepts what it accepted before, but for
    that ticket. *)
Lemma remembered_insert v now now' id id' :
  id ≠ id' →
  remembered ((sweepLocked v now) <| replay ::= insert (string_of_bytes id) now |>) now' id' →
  remembered v now' id'.
Proof.
  intros Hne (t & Ht & Ha). change (replay _) with (<[string_of_bytes id := now]> (replay (sweepLocked v now))) in Ht.
  rewrite lookup_insert_ne in Ht by (by intros ?%string_of_bytes_inj).
  exists t. by apply sweep_lookup in Ht as [? _].
Qed.

(** ** The route *)

(** The first end of a new route joins alone. *)
Lemma Join_new r now t p :
  stopped (router r) = false → routes (router r) !! string_of_bytes (RouteId (wire t)) = None →
  Ticket_Endpoint (wire t) = RELAY_ENDPOINT_AGENT →
  peer_endpoint p = RELAY_ENDPOINT_AGENT →
  ∃ cap, 2 <= cap ∧
  Join r now t p =
    (r <| router ::= fun r => r <| routes ::= insert (string_of_bytes (RouteId (wire t)))
            (mkRoute (string_of_bytes (RouteId (wire t))) cap (Some p) None now now) |> |>,
     Ok (mkRouteHandle (string_of_bytes (RouteId (wire t))) RELAY_ENDPOINT_AGENT p, None)).
Proof.
  intros Hst Hk He Hp. exists (if MaxConnections (wire t) <? 2 then 2 else MaxConnections (wire t)).
  assert (2 <= if MaxConnections (wire t) <? 2 then 2 else MaxConnections (wire t))
    by (destruct (MaxConnections (wire t) <? 2) eqn:?; lia).
  split; [done|]. unfold Join. rewrite Hst, Hk, He. unfold occupied. simpl.
  match goal with |- context [?y >=? ?x] => destruct (y >=? x) eqn:?; [lia|] end.
  unfold otherOf. by rewrite Hp.
Qed.

(** The other end finds it. *)
Lemma Join_second r now t p q cap created seen :
  stopped (router r) = false →
  routes (router r) !! string_of_bytes (RouteId (wire t)) =
    Some (mkRoute (string_of_bytes (RouteId (wire t))) cap (Some q) None created seen) → 2 <= cap →
  Ticket_Endpoint (wire t) = RELAY_ENDPOINT_CLIENT → peer_endpoint p = RELAY_ENDPOINT_CLIENT →
  Join r now t p =
    (r <| router ::= fun r => r <| routes ::= insert (string_of_bytes (RouteId (wire t)))
            (mkRoute (string_of_bytes (RouteId (wire t))) cap (Some q) (Some p) created seen) |> |>,
     Ok (mkRouteHandle (string_of_bytes (RouteId (wire t))) RELAY_ENDPOINT_CLIENT p, Some q)).
Proof.
  intros Hst Hk Hcap He Hp. unfold Join. rewrite Hst, Hk, He. unfold occupied. simpl.
  destruct (1 + 0 >=? cap) eqn:?; [lia|]. unfold otherOf. by rewrite Hp.
Qed.

(** C8: the two tickets of a pair meet: presented as the client code presents
    them to a relay that knows the issuer's key and holds no such route, within
    their lifetime, the Agent's connection opens the route and the client's
    connection is paired with it; what either then sends reaches the other. *)
Theorem paired_tickets_meet private ma mc ida idc input wa wc fa fc s a c
    (nowA replayA joinA nowC replayC joinC : Z) :
  ed25519_correct → ticket_codec → len private = ed25519_PrivateKeySize →
  draws ma ida → draws mc idc → ida ≠ idc → 0 <= issuedAt ma input → 0 <= issuedAt mc input →
  Pair (Some private) ma mc input = Ok (wa, wc) →
  dialFrame (Some wa) = Ok fa → dialFrame (Some wc) = Ok fc →
  len fa <= maxTicketBytes + 4 → len fc <= maxTicketBytes + 4 →
  presentable (server_verifier s) private ma input wa nowA replayA →
  presentable (server_verifier s) private mc input wc nowC replayC →
  stopped (router (server_relay s)) = false →
  routes (router (server_relay s)) !! string_of_bytes (Pair_RouteID input) = None →
  a ∉ closedPeers (server_relay s) → c ∉ closedPeers (server_relay s) →
  ∃ s1 s2 ha hc,
    handleConnection s a (Ok (BinaryMessage, fa)) nowA replayA joinA = (s1, Joined ha None) ∧
    handleConnection s1 c (Ok (BinaryMessage, fc)) nowC replayC joinC = (s2, Joined hc (Some (owner ha))) ∧
    peer_deviceID (owner ha) = Pair_AgentID input ∧ peer_deviceID (owner hc) = Pair_ClientID input ∧
    (∀ now data, let r := Forward (server_relay s2) now ha data false in
       r.2 = Ok tt ∧ delivered r.1 = delivered (server_relay s) ++ [(owner ha, owner hc, data)]) ∧
    (∀ now data, let r := Forward (server_relay s2) now hc data false in
       r.2 = Ok tt ∧ delivered r.1 = delivered (server_relay s) ++ [(owner hc, owner ha, data)]).
Proof.
  intros Hed Hcodec Hpriv Hia Hic Hne H0a H0c HP Hfa Hfc Hsa Hsc Hpa Hpc
    Hst Hroute Ha Hc.
  apply Pair_Ok in HP as (? & [= <-] & Hma & Hmc).
  destruct (minted_accepted _ _ _ _ _ _ _ _ _ _ Hed Hpriv Hia H0a Hma Hpa)
    as (va & ta & HVa & Hwa & Hra & Hea & Hda & Hta & Hva).
  assert (presentable va private mc input wc nowC replayC) as Hpc'.
  { destruct Hpc as (Hname & Hauth & Hfresh & Hnow). rewrite Hva. split_and!; [done|done| |lia|lia].
    intros Hrem. apply Hfresh. eapply remembered_insert; [|done].
    destruct Hmc as [Hmc _], Hic as (Hic & _ & nc & Hnc & _). unfold pairTicket in Hmc.
    rewrite Hic, Hnc in Hmc.
    apply Issue_Ok in Hmc as (_ & body & x & _ & _ & _ & -> & _). done. }
  destruct (minted_accepted _ _ _ _ _ _ _ _ _ _ Hed Hpriv Hic H0c Hmc Hpc')
    as (vc & tc & HVc & Hwc & Hrc & Hec & Hdc & _).
  assert (RouteId (wire ta) = Pair_RouteID input) as Era by congruence.
  assert (RouteId (wire tc) = Pair_RouteID input) as Erc by congruence.
  destruct (Join_new (server_relay s) joinA ta (newWebSocketPeer a ta)) as (cap & Hcap & HJa);
    [done|by rewrite Era|congruence|simpl; congruence|]. rewrite Era in HJa.
  match type of HJa with _ = (?r, _) => set (r1 := r) in HJa end.
  pose proof (Join_second r1 joinC tc (newWebSocketPeer c tc) (newWebSocketPeer a ta) cap joinA joinA)
    as HJc.
  rewrite Erc in HJc. specialize (HJc Hst (lookup_insert_eq _ _ _) Hcap ltac:(congruence) ltac:(simpl; congruence)). match type of HJc with _ = (?r, _) => set (r2 := r) in HJc end.
  assert (∀ e now (p q : Peer) data, (p = newWebSocketPeer a ta ∧ q = newWebSocketPeer c tc ∨
      p = newWebSocketPeer c tc ∧ q = newWebSocketPeer a ta) →
    let r := Forward r2 now (mkRouteHandle (string_of_bytes (Pair_RouteID input)) e p) data false in
    r.2 = Ok tt ∧ delivered r.1 = delivered (server_relay s) ++ [(p, q, data)]) as Hfwd.
  { intros e now p q data Hpq. unfold Forward. simpl. rewrite lookup_insert_eq.
    destruct Hpq as [[-> ->]|[-> ->]]; unfold otherOf, Peer_Forward; simpl; rewrite ?Hwa, ?Hwc, ?Hea, ?Hec;
      simpl; rewrite bool_decide_eq_false_2 by done; done. }
  exists (s <| server_verifier := va |> <| server_relay := r1 |>),
    (s <| server_verifier := vc |> <| server_relay := r2 |>),
    (mkRouteHandle (string_of_bytes (Pair_RouteID input)) RELAY_ENDPOINT_AGENT (newWebSocketPeer a ta)),
    (mkRouteHandle (string_of_bytes (Pair_RouteID input)) RELAY_ENDPOINT_CLIENT (newWebSocketPeer c tc)).
  split_and!; [| |simpl; congruence|simpl; congruence|intros; apply Hfwd; auto|intros; apply Hfwd; auto].
  - unfold handleConnection. rewrite (readTicket_dialFrame wa fa), HVa by done. simpl. by rewrite HJa.
  - unfold handleConnection. rewrite (readTicket_dialFrame wc fc) by done. simpl.
    rewrite HVc. simpl. by rewrite HJc.
Qed.

End Rendezvous.
