(* ===== verification/RelayAdmin.v ===== *)
(** * The relay's ticket endpoint ([internal/relay/admin.go])

    One handler mints tickets over HTTP for whoever presents the bearer token.
    The request is its method, its [Authorization] header and the outcome of
    decoding its body; the protobuf encoding is the class [TicketEncoder] of the
    relay client. *)

From S2P Require Import Prelude.
From S2P Require Import Sha256.
From S2P Require Import Utf8.
From S2P Require Import Encoding.
From S2P Require Import ContentPolicy.
From S2P Require Import Ticket.
From S2P Require Import RelayServer.
From S2P Require Import RelayClient.
From S2P Require Import RelayRendezvous.

Record Admin := mkAdmin {
  admin_issuer : bytes;
  stampEpoch : option Z;
}.

#[global] Instance Admin_eta : Eta Admin := fun a => mkAdmin (admin_issuer a) (stampEpoch a).

Definition NewAdmin (issuer : option bytes) : result Admin :=
  match issuer with
  | None => Err (ErrorString "relay admin requires an Issuer")
  | Some private => Ok (mkAdmin private None)
  end.

(** The policy is nil or a function of no arguments, read once per request. *)
Definition WithStampEpoch (admin : Admin) (stamp : option Z) : Admin := admin <| stampEpoch := stamp |>.

Record issueRequest := mkIssueRequest {
  Body_RouteID : string;
  Body_DeviceID : string;
  Body_Endpoint : string;
  Body_MaxConnections : Z;
  Body_LifetimeSeconds : Z;
  Body_IssuerEpoch : option Z;
}.

Inductive response :=
  | ErrorResponse (status : Z) (reason message : string)
  | IssueResponse (ticket : string) (expiresAt : Z).

(** ** Fields *)

(** [strings.ToLower], as the runes of the result. *)
Definition lowerRunes (s : string) : list Z :=
  map lowerRune (lossyRunes (String.length s) (bytes_of_string s)).

Definition parseEndpoint (value : string) : result RelayEndpoint :=
  let lower := lowerRunes (TrimSpace value) in
  if bool_decide (lower = lowerRunes "agent") then Ok RELAY_ENDPOINT_AGENT
  else if bool_decide (lower = lowerRunes "client") then Ok RELAY_ENDPOINT_CLIENT
  else if bool_decide (lower = []) then Err (ErrorString "endpoint is required")
  else Err (ErrorString "endpoint must be one of agent|client, got %q").

Definition parseHexBytes (field value : string) (expected : Z) : result bytes :=
  if bool_decide (value = EmptyString) then Err (ErrorString (field ++ " is required"))
  else match hexDecode value with
  | None => Err (ErrorString (field ++ " is not valid hex"))
  | Some raw =>
      if negb (len raw =? expected) then
        Err (ErrorString (field ++ " must be " ++ pretty expected ++ " bytes, got " ++ pretty (len raw)))
      else Ok raw
  end.

Definition parseDeviceID (value : string) : result bytes :=
  parseHexBytes "device_id" value DeviceIDBytes.

(** The loop over two strings of one length. *)
Fixpoint subtleDiff (diff : Z) (a b : string) : Z :=
  match a, b with
  | String x a', String y b' => subtleDiff (Z.lor diff (Z.lxor (ascii_val x) (ascii_val y))) a' b'
  | _, _ => diff
  end.

Definition subtleEqual (a b : string) : bool :=
  if negb (slen a =? slen b) then false else subtleDiff 0 a b =? 0.

Definition bearerPrefix : string := "Bearer ".

Definition authorizeBearer (header token : string) : bool :=
  if bool_decide (token = EmptyString) then true
  else if (slen header <=? slen bearerPrefix) ||
          negb (EqualFold (String.substring 0 7 header) bearerPrefix) then false
  else
    let supplied := TrimSpace (String.substring 7 (String.length header - 7) header) in
    if bool_decide (supplied = EmptyString) then false else subtleEqual supplied token.

(** ** The handler *)

Section Handler.
Context {crypto : TicketCrypto} {enc : TicketEncoder}.

(** [handleIssue]; [m] is what minting reads, [now] the clock of the admin. *)
Definition handleIssue (admin : Admin) (token method header : string)
    (decoded : result issueRequest) (m : Minting) (now : Z) : response :=
  if negb (bool_decide (method = "POST"%string)) then
    ErrorResponse 405 "method_not_allowed" "only POST is accepted"
  else if negb (authorizeBearer header token) then
    ErrorResponse 401 "unauthorized" "missing or invalid bearer token"
  else match decoded with
  | Err e => ErrorResponse 400 "invalid_body" ("decode request body: " ++ errorMessage e)
  | Ok body =>
  match parseEndpoint (Body_Endpoint body) with
  | Err e => ErrorResponse 400 "invalid_endpoint" (errorMessage e)
  | Ok endpoint =>
  match parseHexBytes "route_id" (Body_RouteID body) routeIDBytes with
  | Err e => ErrorResponse 400 "invalid_route_id" (errorMessage e)
  | Ok routeID =>
  match parseDeviceID (Body_DeviceID body) with
  | Err e => ErrorResponse 400 "invalid_device_id" (errorMessage e)
  | Ok deviceID =>
      if Body_MaxConnections body =? 0 then
        ErrorResponse 400 "invalid_max_connections" "max_connections must be greater than zero"
      else if Body_LifetimeSeconds body <=? 0 then
        ErrorResponse 400 "invalid_lifetime" "lifetime_seconds must be greater than zero"
      else
        let lifetime := i64 (Body_LifetimeSeconds body * Second) in
        match (match stampEpoch admin with Some e => Some e | None => Body_IssuerEpoch body end) with
        | None =>
            ErrorResponse 400 "invalid_issuer_epoch"
              "issuer_epoch is required when the relay has no stamp policy configured"
        | Some issuerEpoch =>
            match Issue (admin_issuer admin) (mint_now m) (mint_id m) (mint_nonce m)
                    (mkIssueInput routeID deviceID endpoint (Body_MaxConnections body) lifetime
                       zeroTime issuerEpoch) with
            | Err e => ErrorResponse 400 "issue_failed" (errorMessage e)
            | Ok ticket =>
                match proto_Marshal ticket with
                | Err e => ErrorResponse 500 "encode_failed" (errorMessage e)
                | Ok wire =>
                    IssueResponse (hexEncode wire)
                      (match ExpiresAt ticket with Some x => x | None => now + lifetime end)
                end
            end
        end
  end
  end
  end
  end.
End Handler.

(** ** What the endpoint guarantees *)

Lemma subtleDiff_zero a : ∀ d b, 0 <= d → slen a = slen b → (subtleDiff d a b =? 0) = (d =? 0) && bool_decide (a = b).
Proof.
  induction a as [|x a IH]; intros d [|y b] Hd Hl; unfold slen in Hl; simpl in *; try lia.
  assert (0 <= ascii_val x ∧ 0 <= ascii_val y) as [Hx Hy] by (unfold ascii_val; lia).
  rewrite IH; [|rewrite Z.lor_nonneg; split; [done|]; by apply Z.lxor_nonneg|unfold slen; lia].
  destruct (Z.eqb_spec (Z.lor d (Z.lxor (ascii_val x) (ascii_val y))) 0) as [E|E]; simpl.
  - apply Z.lor_eq_0_iff in E as [-> E]. apply Z.lxor_eq in E. simpl.
    assert (x = y) as ->.
    { unfold ascii_val in E. apply N2Z.inj, (f_equal ascii_of_N) in E.
      by rewrite !ascii_N_embedding in E. }
    apply bool_decide_ext. naive_solver.
  - symmetry. apply andb_false_iff. destruct (Z.eqb_spec d 0) as [->|]; [right|by left].
    apply bool_decide_eq_false. intros [= -> ->]. by rewrite Z.lxor_nilpotent in E.
Qed.

(** The constant-time comparison decides equality. *)
Lemma subtleEqual_spec a b : subtleEqual a b = bool_decide (a = b).
Proof.
  unfold subtleEqual. destruct (Z.eqb_spec (slen a) (slen b)) as [E|E]; simpl.
  - by rewrite subtleDiff_zero.
  - symmetry. apply bool_decide_eq_false. congruence.
Qed.

(** With a token configured a request is authorized exactly when its header is
    the bearer scheme, in any case, and then the token, space around it aside. *)
Lemma authorizeBearer_spec header token :
  token ≠ EmptyString →
  authorizeBearer header token = true ↔
  ∃ p s, header = (p ++ s)%string ∧ slen p = 7 ∧ EqualFold p bearerPrefix = true ∧ TrimSpace s = token.
Proof.
  intros Ht. unfold authorizeBearer. rewrite bool_decide_eq_false_2 by done.
  assert (∀ p s : string, slen p = 7 → String.substring 0 7 (p ++ s) = p ∧
    String.substring 7 (String.length (p ++ s) - 7) (p ++ s) = s) as Hsub.
  { intros p s Hp. unfold slen in Hp.
    destruct p as [|? [|? [|? [|? [|? [|? [|? [|? p]]]]]]]]; simpl in Hp; try lia.
    simpl. rewrite Nat.sub_0_r. split; [by destruct s|]. by rewrite substring_all. }
  split.
  - intros H. destruct (slen header <=? slen bearerPrefix) eqn:Hlen; [done|].
    exists (String.substring 0 7 header), (String.substring 7 (String.length header - 7) header).
    assert (∃ p s, header = (p ++ s)%string ∧ slen p = 7) as (p & s & -> & Hp).
    { unfold slen in *. simpl in Hlen.
      do 7 (destruct header as [|? header]; [simpl in Hlen; lia|]).
      eexists (String _ (String _ (String _ (String _ (String _ (String _ (String _ EmptyString)))))))%string, header. done. }
    destruct (Hsub p s Hp) as [E1 E2]. rewrite E1, E2 in *. simpl in H.
    destruct (EqualFold p bearerPrefix) eqn:?; [|done]. simpl in H.
    destruct (bool_decide _); [done|]. rewrite subtleEqual_spec in H. apply bool_decide_eq_true in H. auto.
  - intros (p & s & -> & Hp & HE & Hs). destruct (Hsub p s Hp) as [-> ->]. rewrite HE, Hs. simpl.
    assert (s ≠ EmptyString) by (intros ->; by rewrite <- Hs in Ht).
    assert (slen (p ++ s) <=? slen bearerPrefix = false) as ->.
    { assert (slen (p ++ s) = slen p + slen s) as ->.
      { unfold slen. rewrite <- Nat2Z.inj_add. f_equal. clear. induction p as [|a p IH]; [done|].
        change (S (String.length (p ++ s)) = S (String.length p + String.length s)). by f_equal. }
      destruct s; [done|]. unfold slen in *. simpl in *. lia. }
    rewrite bool_decide_eq_false_2 by done. rewrite subtleEqual_spec. by apply bool_decide_eq_true.
Qed.

Section Guarantees.
Context {crypto : TicketCrypto} {tw : TicketWire} {enc : TicketEncoder}.

(** What a ticket was minted from, when the handler answers with one. *)
Lemma handleIssue_ticket admin token method header decoded m now hex x :
  handleIssue admin token method header decoded m now = IssueResponse hex x →
  method = "POST"%string ∧ authorizeBearer header token = true ∧
  ∃ body w wire epoch routeID deviceID endpoint, decoded = Ok body ∧
    parseEndpoint (Body_Endpoint body) = Ok endpoint ∧
    hexDecode (Body_RouteID body) = Some routeID ∧ hexDecode (Body_DeviceID body) = Some deviceID ∧
    Body_MaxConnections body ≠ 0 ∧ 0 < Body_LifetimeSeconds body ∧
    match stampEpoch admin with Some e => Some e | None => Body_IssuerEpoch body end = Some epoch ∧
    Issue (admin_issuer admin) (mint_now m) (mint_id m) (mint_nonce m)
      (mkIssueInput routeID deviceID endpoint (Body_MaxConnections body)
         (i64 (Body_LifetimeSeconds body * Second)) zeroTime epoch) = Ok w ∧
    proto_Marshal w = Ok wire ∧ hex = hexEncode wire ∧ ExpiresAt w = Some x.
Proof.
  unfold handleIssue. intros H.
  destruct (negb (bool_decide (method = "POST"%string))) eqn:Hm; [done|].
  destruct (negb (authorizeBearer header token)) eqn:Hauth; [done|]. split_bool.
  split_and!; [done|done|].
  destruct decoded as [body|]; [|done]. destruct (parseEndpoint _) as [endpoint|] eqn:He; [|done].
  unfold parseDeviceID, parseHexBytes in H.
  destruct (bool_decide (Body_RouteID body = _)); [done|].
  destruct (hexDecode (Body_RouteID body)) as [routeID|] eqn:Hr; [|done].
  destruct (negb (len routeID =? _)); [done|].
  destruct (bool_decide (Body_DeviceID body = _)); [done|].
  destruct (hexDecode (Body_DeviceID body)) as [deviceID|] eqn:Hd; [|done].
  destruct (negb (len deviceID =? _)); [done|].
  destruct (Z.eqb_spec (Body_MaxConnections body) 0); [done|].
  destruct (Z.leb_spec (Body_LifetimeSeconds body) 0); [done|]. cbv zeta in H.
  destruct (match stampEpoch admin with Some _ => _ | None => _ end) as [epoch|] eqn:Hep; [|done].
  destruct (Issue _ _ _ _ _) as [w|] eqn:HI; [|done].
  destruct (proto_Marshal w) as [wire|] eqn:HM; [|done]. injection H as <- <-.
  exists body, w, wire, epoch, routeID, deviceID, endpoint. split_and!; try done.
  rewrite (Issue_expiry _ _ _ _ _ _ HI). done.
Qed.

End Guarantees.
