(* ===== verification/RelayExamples.v ===== *)
(** * A relay, executed

    A signature scheme that meets the laws the theorems ask for, an issuer, a
    verifier and two connections on one route.  The theorems on tickets, routes
    and the server are applied to them. *)

From S2P Require Import Prelude.
From S2P Require Import Sha256.
From S2P Require Import Ticket.
From S2P Require Import Router.
From S2P Require Import RelayServer.
From S2P Require Import RelayServing.

(** ** The platform *)

(** The signature is the public key followed by a digest of the message. *)
#[local] Instance demo_crypto : TicketCrypto := {|
  ticket_Marshal t := Ok (TicketId t ++ RouteId t ++ DeviceId t ++ Nonce t);
  ed25519_Sign private body := take 32 private ++ Sum256 body;
  ed25519_Verify key body signature := bool_decide (signature = key ++ Sum256 body);
  ed25519_Public private := take 32 private;
|}.

#[local] Instance demo_wire : TicketWire := {|
  ticket_Unmarshal b := Ok (mkRelayTicket 1 (take 16 b) (take 16 (drop 16 b)) RELAY_ENDPOINT_AGENT
    (take 16 (drop 32 b)) (Some (5 * Minute)) 2 (take 16 (drop 48 b)) (drop 64 b) 3);
|}.

Lemma demo_ed25519 : ed25519_correct.
Proof.
  intros private body Hp. simpl. unfold ed25519_PrivateKeySize, ed25519_SignatureSize,
    ed25519_PublicKeySize in *.
  assert (len (take 32 private) = 32) as Hk by (rewrite len_take; lia).
  split_and!; [by apply bool_decide_eq_true| |done].
  rewrite len_app, Hk, len_Sum256. done.
Qed.

(** ** Tickets *)

Definition demo_private : bytes := replicate 64 "k"%byte.
Definition demo_public : bytes := replicate 32 "k"%byte.
Definition id16 (b : byte) : bytes := replicate 16 b.

Definition demo_input (e : RelayEndpoint) : IssueInput :=
  mkIssueInput (id16 "r") (id16 "d") e 2 (5 * Minute) zeroTime 3.

Definition demo_issue (e : RelayEndpoint) (id : byte) : result RelayTicket :=
  Issue demo_private 0 (Ok (id16 id)) (Ok (id16 "n")) (demo_input e).

Definition demo_ticket (e : RelayEndpoint) (id : byte) : RelayTicket :=
  mkRelayTicket 1 (id16 id) (id16 "r") e (id16 "d") (Some (5 * Minute)) 2 (id16 "n")
    (demo_public ++ Sum256 (id16 id ++ id16 "r" ++ id16 "d" ++ id16 "n")) 3.

Lemma demo_issue_eq : demo_issue RELAY_ENDPOINT_AGENT "a" = Ok (demo_ticket RELAY_ENDPOINT_AGENT "a").
Proof. vm_compute. reflexivity. Qed.

Definition demo_verifier : Verifier := NewVerifier [demo_public].

(** ** Witnesses: tickets *)

Lemma issued_ticket_verifies_witness :
  ∃ v' t, Verify demo_verifier Minute Minute (demo_ticket RELAY_ENDPOINT_AGENT "a") = (v', Ok t) ∧
    RouteId (wire t) = id16 "r" ∧ Ticket_Endpoint (wire t) = RELAY_ENDPOINT_AGENT ∧
    DeviceId (wire t) = id16 "d" ∧ MaxConnections (wire t) = 2 ∧ IssuerEpoch (wire t) = 3.
Proof.
  apply (issued_ticket_verifies demo_private [demo_public] 0 (id16 "a") (id16 "n")
           (demo_input RELAY_ENDPOINT_AGENT)).
  - exact demo_ed25519.
  - reflexivity.
  - by apply list_elem_of_singleton.
  - reflexivity.
  - reflexivity.
  - exact demo_issue_eq.
  - intros e [= <-]. unfold zeroTime, ticketReplayTTL, Minute, Second. lia.
Defined.

Definition demo_verified : Verifier * result Ticket :=
  Verify demo_verifier Minute Minute (demo_ticket RELAY_ENDPOINT_AGENT "a").

(** Presented again, the ticket is rejected, and it stays remembered. *)
Definition demo_replayed : Verifier * result Ticket :=
  Verify demo_verified.1 (2 * Minute) (2 * Minute) (demo_ticket RELAY_ENDPOINT_AGENT "a").

Lemma rejection_burns_nothing_witness :
  remembered demo_replayed.1 (2 * Minute) (id16 "a") ↔
  remembered demo_verified.1 (2 * Minute) (id16 "a").
Proof.
  apply (rejection_burns_nothing demo_verified.1 (2 * Minute) (2 * Minute)
           (demo_ticket RELAY_ENDPOINT_AGENT "a") demo_replayed.1 ErrTicketReplayed).
  vm_compute. reflexivity.
Defined.

Lemma revocation_gate_witness :
  ∃ v'', Verify (demo_verifier <| authorizer := Some (StoreAuthorizer (Some 4)) |>) Minute Minute
           (demo_ticket RELAY_ENDPOINT_AGENT "a") = (v'', Err ErrTicketRevoked).
Proof.
  apply (proj2 (revocation_gate demo_verifier Minute Minute (demo_ticket RELAY_ENDPOINT_AGENT "a") 4)
           demo_verified.1 (mkTicket (demo_ticket RELAY_ENDPOINT_AGENT "a") demo_public (5 * Minute))).
  - vm_compute. reflexivity.
  - right. reflexivity.
Defined.

Definition demo_events : list VerifierEvent :=
  [EvVerify Minute (demo_ticket RELAY_ENDPOINT_AGENT "a");
   EvVerify (2 * Minute) (demo_ticket RELAY_ENDPOINT_CLIENT "b");
   EvSweep (3 * Minute);
   EvVerify (4 * Minute) (demo_ticket RELAY_ENDPOINT_AGENT "a")].


(** The expiry and the replay set are checked against two readings of the
    clock.  A ticket that expires exactly ten minutes after it was accepted is
    accepted a second time when the second reading falls after that instant. *)
Theorem replay_at_the_deadline :
  let w := (demo_ticket RELAY_ENDPOINT_AGENT "a") <| ExpiresAt := Some (10 * Minute) |> in
  let first := Verify demo_verifier 0 0 w in
  let second := Verify first.1 (10 * Minute) (10 * Minute + 1) w in
  is_ok first.2 = true ∧ is_ok second.2 = true.
Proof. vm_compute. done. Qed.

(** ** A route *)

(** The even connections present agent tickets, the odd ones client tickets. *)
Definition demo_conn (n : nat) : Ticket :=
  mkTicket (demo_ticket (if Nat.even n then RELAY_ENDPOINT_AGENT else RELAY_ENDPOINT_CLIENT) "a")
    demo_public (5 * Minute).

Lemma demo_conn_valid n : validEndpoint (Ticket_Endpoint (wire (demo_conn n))) = true.
Proof. unfold demo_conn. simpl. by destruct (Nat.even n). Qed.

Definition demo_cfg : RouterConfig := mkRouterConfig 0 0 0.
Definition relay_start : Relay := mkRelay (NewRouterWithConfig demo_cfg) ∅ [].
Definition relay_run (os : list RelayOp) : Relay := foldl (relay_step demo_conn) relay_start os.

(** An agent and a client meet, and exchange a message. *)
Definition demo_paired : Relay :=
  relay_run [OpJoin 0 0; OpJoin Second 1; OpForward (2 * Second) 0 ["h"; "i"]%byte false].

Ltac reach := repeat first
  [ apply relay_init
  | refine (relay_next demo_conn demo_cfg _ (OpForward _ _ _ _) _ I)
  | refine (relay_next demo_conn demo_cfg _ (OpSweep _) _ I)
  | refine (relay_next demo_conn demo_cfg _ (OpJoin _ _) _ _);
    [|apply (bool_decide_unpack _); vm_compute; exact I] ].

Lemma demo_paired_reachable : relay_reachable demo_conn demo_cfg demo_paired.
Proof. unfold demo_paired, relay_run. cbn [foldl]. reach. Qed.

Lemma Sweep_spec_witness :
  routes (router (Sweep demo_paired (10 * Minute)).1) = ∅ ∧
  delivered (Sweep demo_paired (10 * Minute)).1 = delivered demo_paired.
Proof.
  split; [vm_compute; reflexivity|].
  apply (Sweep_spec demo_paired (10 * Minute) (Sweep demo_paired (10 * Minute)).1
           (Sweep demo_paired (10 * Minute)).2).
  - vm_compute. reflexivity.
  - apply (keyed_inv demo_conn), (reachable_inv demo_conn demo_cfg);
      [exact demo_conn_valid|exact demo_paired_reachable].
  - apply surjective_pairing.
Defined.

Lemma relay_isolates_routes_witness :
  relay_inv demo_conn demo_paired ∧ length (delivered demo_paired) = 1%nat.
Proof.
  split; [|vm_compute; reflexivity].
  apply (relay_isolates_routes demo_conn demo_cfg demo_paired).
  - exact demo_conn_valid.
  - exact demo_paired_reachable.
Defined.

(** A third connection finds its slot taken. *)
Lemma Join_spec_witness :
  match (Join demo_paired Minute (demo_conn 2) (peer_of demo_conn 2)).2 with
  | Ok _ => False
  | Err _ => stopped (router demo_paired) = true ∨
      ∃ rt, routes (router demo_paired) !! route_of demo_conn 2 = Some rt ∧ agent rt ≠ None
  end.
Proof.
  pose proof (Join_spec demo_conn demo_cfg demo_paired Minute 2 demo_conn_valid demo_paired_reachable) as H.
  destruct (Join demo_paired Minute (demo_conn 2) (peer_of demo_conn 2)).2 as [x|e] eqn:E;
    [vm_compute in E; discriminate E|exact H].
Defined.

Lemma Forward_spec_witness :
  (Forward demo_paired Minute (handle_of demo_conn 1) ["y"]%byte true).2 = Err ErrPeerClosed ∧
  routes (router (Forward demo_paired Minute (handle_of demo_conn 1) ["y"]%byte true).1) = ∅.
Proof.
  rewrite (Forward_spec demo_conn demo_cfg demo_paired Minute 1 ["y"]%byte true demo_conn_valid
             demo_paired_reachable).
  split; vm_compute; reflexivity.
Defined.

(** The route is reaped and rebuilt by connections 2 and 3; then connection 0
    leaves: connection 3 is closed, and connection 2 is left open. *)
Definition demo_rebuilt : Relay :=
  relay_run [OpJoin 0 0; OpSweep (6 * Minute); OpJoin (6 * Minute) 2; OpJoin (6 * Minute) 3].

Lemma demo_rebuilt_reachable : relay_reachable demo_conn demo_cfg demo_rebuilt.
Proof. unfold demo_rebuilt, relay_run. cbn [foldl]. reach. Qed.

Definition demo_route : route :=
  mkRoute (string_of_bytes (id16 "r")) 2 (Some (peer_of demo_conn 2)) (Some (peer_of demo_conn 3))
    (6 * Minute) (6 * Minute).

Lemma Leave_spec_witness :
  2%nat ∉ closedPeers (Leave demo_rebuilt (peer_of demo_conn 0)) ∧
  {[3%nat]} ⊆ closedPeers (Leave demo_rebuilt (peer_of demo_conn 0)).
Proof.
  destruct (Leave_spec demo_conn demo_cfg demo_rebuilt 0 demo_route (peer_of demo_conn 2)
              demo_conn_valid demo_rebuilt_reachable) as (_ & _ & H).
  - vm_compute. reflexivity.
  - reflexivity.
  - rewrite decide_False in H by (apply (bool_decide_unpack _); vm_compute; exact I).
    destruct H as (H1 & _ & H2). exact (conj H1 H2).
Defined.

Lemma Stop_spec_witness : routes (router (Stop demo_paired)) = ∅.
Proof.
  apply (Stop_spec demo_conn demo_cfg demo_paired).
  - exact demo_conn_valid.
  - exact demo_paired_reachable.
Defined.

(** ** The server *)

Definition demo_config : Config := mkConfig (Some demo_verifier) None demo_cfg 1.
Definition demo_server : Server :=
  mkServer demo_verifier (mkRelay (NewRouterWithConfig demo_cfg) ∅ []) 0 false 0 1 false.

(** With room for one connection, the second request is refused. *)
Lemma active_connections_counted_witness :
  activeConns (ServeHTTP demo_server true true).1 = 1 ∧
  (ServeHTTP (ServeHTTP demo_server true true).1 true true).2 = AtCapacity.
Proof.
  split; [|reflexivity].
  refine (proj1 (proj1 (proj2 (active_connections_counted demo_config demo_server
    (mkServed (ServeHTTP demo_server true true).1 1 0 0) _ _ _)) _)).
  - vm_compute. reflexivity.
  - reflexivity.
  - apply rtc_once. exact (step_request (mkServed demo_server 0 0 0) true true
      (ServeHTTP demo_server true true).1 Accepted eq_refl).
  - reflexivity.
Defined.

Lemma shutdown_never_stops_router_witness :
  server_relay (Shutdown (demo_server <| server_relay := demo_paired |>)) = demo_paired.
Proof.
  apply (shutdown_never_stops_router demo_config demo_server). vm_compute. reflexivity.
Defined.

(** The frame of the agent's ticket: its length, then the ticket. *)
Definition demo_frame : result (Z * bytes) :=
  let w := demo_ticket RELAY_ENDPOINT_AGENT "a" in
  Ok (BinaryMessage, ["000"; "000"; "000"; "128"]%byte ++
      TicketId w ++ RouteId w ++ DeviceId w ++ Nonce w ++ IssuerSignature w).

Definition demo_handled : Server * ConnectionOutcome :=
  handleConnection demo_server 0 demo_frame Minute Minute Minute.

Lemma connection_joins_with_ticket_witness :
  ∃ w t, readTicket demo_frame = Ok w ∧ wire t = w ∧ well_formed w.
Proof.
  destruct (connection_joins_with_ticket demo_server 0 demo_frame Minute Minute Minute demo_handled.1
              (handle_of demo_conn 0) None) as (w & t & H1 & H2 & H3 & _).
  - vm_compute. reflexivity.
  - exact (ex_intro _ w (ex_intro _ t (conj H1 (conj H2 H3)))).
Defined.

Lemma origin_check_witness :
  buildOriginChecker None "http://localhost:8080" "localhost:8080" = Some false.
Proof.
  apply (origin_check "l" "o" "calhost:8080" "localhost:8080"). discriminate.
Defined.

(** * A relay that serves ([RelayServing]), executed *)

(** The endpoint of a ticket is that of its identifier. *)
#[local] Instance two_wire : TicketWire := {|
  ticket_Unmarshal b := Ok (demo_ticket (if bool_decide (take 16 b = id16 "a") then RELAY_ENDPOINT_AGENT
                                         else RELAY_ENDPOINT_CLIENT)
                              (default "a"%byte (head b)));
|}.

#[local] Instance two_errors : CloseErrors := fun _ _ => false.

Definition two_config : Config := mkConfig (Some demo_verifier) None demo_cfg 2.
Definition two_server : Server :=
  mkServer demo_verifier (mkRelay (NewRouterWithConfig demo_cfg) ∅ []) 0 false 0 2 false.

Definition ticket_frame (id : byte) : result (Z * bytes) := Ok (BinaryMessage, ["000"; "000"; "000"; "016"]%byte ++ id16 id).

(** Two ends meet, a third connection finds no room; the Agent speaks, the client
    answers with a text message and goes. *)
Definition two_steps : list ServingStep :=
  [Request true true; Request true true; Request true true;
   FirstFrame 0 (ticket_frame "a") Minute Minute Minute; FirstFrame 1 (ticket_frame "c") Minute Minute Minute;
   Frame 0 Minute (Ok (BinaryMessage, id16 "h")) false; Frame 1 Minute (Ok (1, id16 "t")) false;
   Frame 1 Minute (Err io_EOF) false].

#[local] Notation two_serving steps := (@serving_run demo_crypto two_wire two_errors (mkServing two_server [] []) steps).

Example two_ends_served :
  delivered (server_relay (relayServer (two_serving two_steps))) =
    [(newWebSocketPeer 0 (mkTicket (demo_ticket RELAY_ENDPOINT_AGENT "a") demo_public 0),
      newWebSocketPeer 1 (mkTicket (demo_ticket RELAY_ENDPOINT_CLIENT "c") demo_public 0), id16 "h")] ∧
  routes (router (server_relay (relayServer (two_serving two_steps)))) = ∅ ∧
  map phase (sessions (two_serving (take 5 two_steps))) =
    [Pumping (mkRouteHandle (string_of_bytes (id16 "r")) RELAY_ENDPOINT_AGENT (mkPeer 0 RELAY_ENDPOINT_AGENT (id16 "r") (id16 "d")));
     Pumping (mkRouteHandle (string_of_bytes (id16 "r")) RELAY_ENDPOINT_CLIENT (mkPeer 1 RELAY_ENDPOINT_CLIENT (id16 "r") (id16 "d")))] ∧
  conns (relayServer (two_serving two_steps)) = 1 ∧
  events (two_serving two_steps) = [mkRelayEvent OutcomeFailure ReasonAtCapacity] ∧
  elements (closedPeers (server_relay (relayServer (two_serving two_steps)))) = [1; 0]%nat.
Proof. vm_compute. split_and!; reflexivity. Qed.

(** The other end has been closed: its next read fails, and then nobody is left. *)
Example two_ends_gone :
  conns (relayServer (two_serving (two_steps ++ [Frame 0 Minute (Err io_EOF) false; Stopping; Drained]))) = 0.
Proof. vm_compute. reflexivity. Qed.

Lemma relay_serves_ticket_holders_witness :
  conns (relayServer (two_serving two_steps)) = living (sessions (two_serving two_steps)) ∧
  ∀ i, sentBy i (delivered (server_relay (relayServer (two_serving two_steps)))) `sublist_of` (two_steps ≫= readFrom i).
Proof.
  destruct (@relay_serves_ticket_holders demo_crypto two_wire two_errors two_config demo_verifier two_server two_steps)
    as ((H & _) & _ & _ & _ & Hs).
  - reflexivity.
  - reflexivity.
  - reflexivity.
  - reflexivity.
  - exact (conj H Hs).
Defined.
