(* ===== verification/RelayMain.v ===== *)
(** * The relay's entry point ([cmd/viberelay/main.go])

    How a relay process is put together: the issuer's key, loaded or created; the
    identity file of the Agent, opened once for the revocation gate; the verifier,
    the origin list and the ticket endpoint made from them.  Files are those of
    [SecureStore]; the parts are those of [Ticket], [RelayServer] and [RelayAdmin].
    Serving is the network's; the order in which a process stops ends the file. *)

From S2P Require Import Prelude.
From S2P Require Import Encoding.
From S2P Require Import SecureStore.
From S2P Require Import Ticket.
From S2P Require Import DeviceIdentity.
From S2P Require Import DeviceIdentityFacts.
From S2P Require Import Path.
From S2P Require Import RelayServer.
From S2P Require Import RelayClient.
From S2P Require Import GoNet.
From S2P Require Import AgentLog.
From S2P Require Import RelayServing.
From S2P Require Import RelayAdmin.

Definition defaultListenAddr : string := "0.0.0.0:8788".
Definition defaultAdminAddr : string := "127.0.0.1:8789".

(** [allowedOriginsFlag.Set]. *)
Definition setAllowedOrigin (origins : list string) (value : string) : result (list string) :=
  if bool_decide (value = EmptyString) then Err (ErrorString "allowed origin must not be empty")
  else Ok (origins ++ [value]).

Definition buildOriginAllowList (values : list string) : option (list string) :=
  match values with
  | [] => None
  | _ => Some (filter (fun value => value ≠ EmptyString) values)
  end.

Definition relayIsWildcardAddress (addr : string) : bool :=
  match SplitPort addr with
  | None => false
  | Some (host, _) =>
      bool_decide (host = EmptyString) || bool_decide (host = "0.0.0.0"%string) || bool_decide (host = "::"%string)
  end.

(** ** The issuer's key *)

Definition resolveIssuerKeyPath (input : string) (getwd home : result string) : result string :=
  if negb (bool_decide (input = EmptyString)) then
    match Path.Abs getwd input with Err e => Err (ErrorWrap "resolve issuer key path" e) | Ok abs => Ok abs end
  else match home with
  | Err e => Err (ErrorWrap "resolve home directory for default issuer key" e)
  | Ok home => Ok (Join [home; ".viberelay"%string; "issuer.key"%string])
  end.

(** The calls of one start: [key_write] is the bytes stored when the write, which
    is in place, fails. *)
Record KeyCalls := mkKeyCalls {
  key_read : option error;
  key_mkdir : result unit;
  key_generated : result bytes;
  key_write : option (bytes * error);
}.

(** [allowOverwrite] is there and not read. *)
Definition loadOrCreateIssuerKey (fs : Files) (calls : KeyCalls) (path : string) (allowOverwrite : bool)
    : Files * result bytes :=
  match key_read calls, fs !! path with
  | None, Some data =>
      if negb (len data =? ed25519_PrivateKeySize) then (fs, Err (ErrorString "issuer key %s is %d bytes, expected %d"))
      else (fs, Ok data)
  | Some e, _ => (fs, Err e)
  | None, None =>
      match key_mkdir calls with
      | Err e => (fs, Err (ErrorWrap "create issuer key directory" e))
      | Ok _ =>
          match key_generated calls with
          | Err e => (fs, Err (ErrorWrap "generate issuer key" e))
          | Ok private =>
              match key_write calls with
              | Some (stored, e) => (<[path := stored]> fs, Err (ErrorWrap "write issuer key %s" e))
              | None => (<[path := private]> fs, Ok private)
              end
          end
      end
  end.

(** ** Starting *)

Record RelayFlags := mkRelayFlags {
  rf_addr : string;
  rf_issuerKey : string;
  rf_overwrite : bool;
  rf_origins : list string;
  rf_adminAddr : string;
  rf_adminToken : string;
  rf_requireRevocation : bool;
  rf_identityStore : string;
  rf_diagnose : bool;
  rf_positional : list string;
}.

Record RelayEnv := mkRelayEnv {
  re_getwd : result string;
  re_home : result string;
  re_defaultIdentity : result string;
  re_key : KeyCalls;
  re_identityRead : option error;
  re_listen : result string;
  re_adminListen : result string;
}.

(** What a relay serves with. *)
Record RelayProcess := mkRelayProcess {
  process_verifier : Verifier;
  process_origins : option (list string);
  process_address : string;
  process_admin : option (Admin * string);
}.

Inductive RelayStarted :=
  | Diagnosed (gateEnabled : bool) (identityPath keyPath : string) (public : bytes)
  | Serving (process : RelayProcess).

Section RelayMain.
Context {crypto : IdentityCrypto} {tickets : TicketCrypto}.
Context `{!JsonCodec envelope} `{!JsonCodec persistedState}.

Definition openIdentityStore (fs : Files) (getwd : result string) (sysRead : option error) (input : string)
    : result Store :=
  match Path.Abs getwd input with
  | Err e => Err (ErrorWrap "resolve identity-store path" e)
  | Ok resolved => Load fs sysRead resolved
  end.

(** The path of the identity; a missing default matters only to the gate. *)
Definition resolveIdentityPath (flags : RelayFlags) (env : RelayEnv) : result string :=
  if negb (bool_decide (rf_identityStore flags = EmptyString)) then Ok (rf_identityStore flags)
  else match re_defaultIdentity env with
  | Ok p => Ok p
  | Err e =>
      if rf_requireRevocation flags then Err (ErrorWrap "resolve default identity store path" e)
      else Ok EmptyString
  end.

Definition gateStore (fs : Files) (flags : RelayFlags) (env : RelayEnv) (identityPath : string)
    : result (option Store) :=
  if rf_requireRevocation flags then
    match openIdentityStore fs (re_getwd env) (re_identityRead env) identityPath with
    | Err e => Err (ErrorWrap "load device identity for revocation gate" e)
    | Ok store => Ok (Some store)
    end
  else Ok None.

(** The epoch the gate and the stamp read is that of the store opened here. *)
Definition serveRelay (flags : RelayFlags) (env : RelayEnv) (private : bytes) (store : option Store)
    : result RelayProcess :=
  let verifier := NewVerifier [ed25519_Public private] in
  let verifier := match store with
                  | Some store => SetAuthorizer verifier (Some (StoreAuthorizer (Some (RevocationEpoch store))))
                  | None => verifier
                  end in
  match re_listen env with
  | Err e => Err (ErrorWrap "listen on %s" e)
  | Ok address =>
      if bool_decide (rf_adminAddr flags = EmptyString) then
        Ok (mkRelayProcess verifier (buildOriginAllowList (rf_origins flags)) address None)
      else match NewAdmin (Some private) with
      | Err e => Err (ErrorWrap "initialize relay admin" e)
      | Ok admin =>
          let admin := match store with
                       | Some store => WithStampEpoch admin (Some (RevocationEpoch store))
                       | None => admin
                       end in
          match re_adminListen env with
          | Err e => Err (ErrorWrap "listen on admin address %s" e)
          | Ok adminAddress =>
              Ok (mkRelayProcess verifier (buildOriginAllowList (rf_origins flags)) address (Some (admin, adminAddress)))
          end
      end
  end.

(** [run], up to the point where it serves. *)
Definition startRelay (fs : Files) (flags : RelayFlags) (env : RelayEnv) : Files * result RelayStarted :=
  match resolveIdentityPath flags env with
  | Err e => (fs, Err e)
  | Ok identityPath =>
      if negb (bool_decide (rf_positional flags = [])) then (fs, Err (ErrorString "unexpected positional arguments: %v"))
      else match resolveIssuerKeyPath (rf_issuerKey flags) (re_getwd env) (re_home env) with
      | Err e => (fs, Err e)
      | Ok keyPath =>
          match loadOrCreateIssuerKey fs (re_key env) keyPath (rf_overwrite flags) with
          | (fs, Err e) => (fs, Err (ErrorWrap "load issuer key" e))
          | (fs, Ok private) =>
              match NewIssuer private with
              | Err e => (fs, Err (ErrorWrap "initialize issuer" e))
              | Ok private =>
                  match gateStore fs flags env identityPath with
                  | Err e => (fs, Err e)
                  | Ok store =>
                      (fs, if rf_diagnose flags then
                             Ok (Diagnosed (rf_requireRevocation flags) identityPath keyPath (ed25519_Public private))
                           else match serveRelay flags env private store with
                           | Err e => Err e
                           | Ok process => Ok (Serving process)
                           end)
                  end
              end
          end
      end
  end.
End RelayMain.

(** * What a relay process knows

    The issuer's key is made once and kept.  The revocation gate and the stamp of a
    process are those of the identity file at its start. *)

(** ** The key *)

Lemma key_file_there fs calls path ow data :
  key_read calls = None → fs !! path = Some data →
  loadOrCreateIssuerKey fs calls path ow =
    (fs, if negb (len data =? ed25519_PrivateKeySize)
         then Err (ErrorString "issuer key %s is %d bytes, expected %d") else Ok data).
Proof. unfold loadOrCreateIssuerKey. intros -> ->. by case_match. Qed.

Lemma key_other fs calls path ow fs' r q :
  loadOrCreateIssuerKey fs calls path ow = (fs', r) → q ≠ path → fs' !! q = fs !! q.
Proof.
  unfold loadOrCreateIssuerKey. intros HL Hq. repeat case_match; simplify_eq; try done; by rewrite lookup_insert_ne.
Qed.

(** The relay's signing key is made once.  When a start obtains a key, every
    later start that can read the file obtains the same, and leaves the file alone,
    with the overwrite flag or without it; a file that is there is never replaced.
    A write that stores only a part of a new key leaves a file with which no later
    start succeeds. *)
Theorem issuer_key_is_kept fs calls path ow fs' r :
  (∀ key, key_generated calls = Ok key → len key = ed25519_PrivateKeySize) →
  loadOrCreateIssuerKey fs calls path ow = (fs', r) →
  (is_Some (fs !! path) → fs' = fs) ∧
  (∀ key, r = Ok key → len key = ed25519_PrivateKeySize ∧
     ∀ calls' ow', key_read calls' = None → loadOrCreateIssuerKey fs' calls' path ow' = (fs', Ok key)) ∧
  (∀ stored e, fs' ≠ fs → key_write calls = Some (stored, e) → len stored ≠ ed25519_PrivateKeySize →
     is_ok r = false ∧ ∀ calls' ow', loadOrCreateIssuerKey fs' calls' path ow' =
       (fs', Err (default (ErrorString "issuer key %s is %d bytes, expected %d") (key_read calls')))).
Proof.
  intros Hgen HL.
  assert (∀ key, len key = ed25519_PrivateKeySize → ∀ fs0 calls' ow', fs0 !! path = Some key → key_read calls' = None →
    loadOrCreateIssuerKey fs0 calls' path ow' = (fs0, Ok key)) as Hagain.
  { intros key Hlen fs0 calls' ow' Hl Hr. rewrite (key_file_there _ _ _ _ _ Hr Hl), Hlen. done. }
  unfold loadOrCreateIssuerKey in HL. destruct (key_read calls) eqn:Hr; [simplify_eq; split_and!; [done..|congruence]|].
  destruct (fs !! path) as [data|] eqn:Hl.
  - destruct (negb _) eqn:Hlen; simplify_eq; split_and!; try done; try congruence.
    intros key [= <-]. assert (len data = ed25519_PrivateKeySize) by lia. split; [done|]. intros. by apply Hagain.
  - split; [by intros []|]. destruct (key_mkdir calls); [|simplify_eq; split; [done|congruence]].
    destruct (key_generated calls) as [private|] eqn:Hg; [|simplify_eq; split; [done|congruence]].
    destruct (key_write calls) as [[stored e]|]; simplify_eq; split; try done.
    + intros stored' e' _ [= <- <-] Hlen. split; [done|]. intros calls' ow'.
      destruct (key_read calls') eqn:Hr'; [unfold loadOrCreateIssuerKey; by rewrite Hr'|].
      rewrite (key_file_there _ _ _ _ stored Hr') by apply lookup_insert_eq.
      by rewrite (proj2 (Z.eqb_neq _ _) Hlen).
    + intros key [= <-]. split; [by apply Hgen|]. intros. apply Hagain; [by apply Hgen|apply lookup_insert_eq|done].
Qed.

Section RelayMainFacts.
Context {crypto : IdentityCrypto} {laws : IdentityLaws} {tickets : TicketCrypto}.
Context `{!JsonCodec envelope} `{!JsonCodec persistedState}.
Context `{!JsonLaws envelope written} `{!JsonLaws persistedState (fun st => validateState st = Ok tt)}.

(** The identity file a relay with these flags and surroundings reads, beside its
    key. *)
Definition readsIdentity (flags : RelayFlags) (env : RelayEnv) (p : string) : Prop :=
  (∃ input, resolveIdentityPath flags env = Ok input ∧ Path.Abs (re_getwd env) input = Ok p) ∧
  resolveIssuerKeyPath (rf_issuerKey flags) (re_getwd env) (re_home env) ≠ Ok p.

(** What a relay that serves has read. *)
Lemma startRelay_serving fs flags env fs1 process p :
  rf_requireRevocation flags = true → readsIdentity flags env p →
  startRelay fs flags env = (fs1, Ok (Serving process)) →
  fs1 !! p = fs !! p ∧ ∃ st, loadState fs None p = Ok st ∧
  authorizer (process_verifier process) = Some (StoreAuthorizer (Some (St_RevocationEpoch st))) ∧
  ∀ admin address, process_admin process = Some (admin, address) → stampEpoch admin = Some (St_RevocationEpoch st).
Proof.
  intros Hreq [(input & Hinput & Habs) Hkey] HS. unfold startRelay in HS. rewrite Hinput in HS.
  destruct (negb _); [done|]. destruct (resolveIssuerKeyPath _ _ _) as [keyPath|] eqn:Hk; [|done].
  destruct (loadOrCreateIssuerKey _ _ _ _) as [fs2 [private|]] eqn:HL; [|done].
  assert (fs2 !! p = fs !! p) as Hsame by (eapply key_other; [exact HL|congruence]).
  destruct (NewIssuer private) as [key|]; [|done].
  unfold gateStore in HS. rewrite Hreq in HS. unfold openIdentityStore in HS. rewrite Habs in HS.
  destruct (Load fs2 (re_identityRead env) p) as [store|] eqn:HLoad; [|done].
  assert (∃ st, loadState fs None p = Ok st ∧ RevocationEpoch store = St_RevocationEpoch st) as (st & Hl & Hst).
  { unfold Load in HLoad. destruct (negb _); [done|].
    destruct (loadState fs2 (re_identityRead env) p) as [st|] eqn:Hl; [|done]. simplify_eq. exists st. split; [|done].
    destruct (re_identityRead env) as [e|]; [|by rewrite (loadState_ext fs) in Hl].
    unfold loadState, SecureStore.Read in Hl. by repeat (case_match; simplify_eq/=). }
  destruct (rf_diagnose flags); [done|]. unfold serveRelay in HS. rewrite Hst in HS.
  assert (fs1 = fs2) as ->.
  { repeat case_match; by simplify_eq. }
  split; [done|]. exists st. split; [done|].
  destruct (re_listen env); [|done]. case_bool_decide; simpl in HS; [by simplify_eq|].
  destruct (re_adminListen env); [|done]. simplify_eq. split; [done|]. simpl. by intros admin address [= <- _].
Qed.

(** A relay enforces the revocations that were in the identity file when it
    started, and no later one.  When the Agent then revokes a device, the process
    that is running goes on admitting the tickets stamped with the old epoch, that
    device's among them, and its own ticket endpoint goes on stamping the old
    epoch; before the first revocation of all it admits no ticket.  A process
    started afterwards refuses all of them and admits the tickets it stamps. *)
Theorem relay_gate_is_as_old_as_the_process fs flags env fs1 process agent now sys id r fs2 agent' view
    env' fs3 process' :
  rf_requireRevocation flags = true → readsIdentity flags env (path agent) → readsIdentity flags env' (path agent) →
  loadState fs None (path agent) = Ok (state agent) → ValidState (state agent) →
  startRelay fs flags env = (fs1, Ok (Serving process)) →
  FreshTemp fs1 sys (path agent) → now ≠ zeroTime →
  devices (state agent) !! id = Some r → Rec_State r ≠ STATE_REVOKED →
  Revoke fs1 agent now sys id = (fs2, agent', Ok view) →
  startRelay fs2 flags env' = (fs3, Ok (Serving process')) →
  let old := RevocationEpoch agent in
  let admits process device epoch :=
    match authorizer (process_verifier process) with Some gate => is_ok (gate device epoch) | None => true end in
  (∀ device, admits process device old = negb (old =? 0)) ∧
  (∀ device epoch, epoch <= old → admits process' device epoch = false) ∧
  (∀ device, admits process' device (old + 1) = true) ∧
  (∀ admin address, process_admin process = Some (admin, address) → stampEpoch admin = Some old) ∧
  (∀ admin address, process_admin process' = Some (admin, address) → stampEpoch admin = Some (old + 1)).
Proof.
  intros Hreq Hid1 Hid2 Hl Hv HS Hf Hnow Hr Hst HR HS' old admits. subst admits. cbv beta.
  destruct (startRelay_serving _ _ _ _ _ _ Hreq Hid1 HS) as (Hsame & st & Hst1 & Hgate & Hstamp).
  rewrite Hl in Hst1. injection Hst1 as <-.
  assert (Synced fs1 agent) as Hsync.
  { split; [done|]. exists (state agent). rewrite (loadState_ext fs) by done. by split_and!. }
  destruct (Revoke_step _ _ _ _ _ _ _ _ Hsync Hf Hnow HR) as [_ _ [Hp _] Hdur].
  assert (len id = DeviceIDBytes) as Hlen.
  { unfold Revoke in HR. destruct (negb _) eqn:Hn; [done|lia]. }
  pose proof (Revoke_verdict fs1 agent now sys id Hv Hnow Hlen) as HV. unfold revokeVerdict in HV.
  rewrite Hr, (proj2 (Z.eqb_neq _ _) Hst) in HV.
  destruct (_ || _); [destruct HV as [e HV]; by rewrite HV in HR|].
  destruct HV as (r0 & next & view' & _ & _ & Hepoch & _ & HV). rewrite HV in HR.
  assert (St_RevocationEpoch (state agent') = old + 1) as Hnew.
  { unfold saved in HR. destruct (saveState _ _ _ _) as [fs' [[]|e]]; by simplify_eq. }
  destruct (startRelay_serving _ _ _ _ _ _ Hreq Hid2 HS') as (_ & st' & Hst' & Hgate' & Hstamp').
  destruct (Hdur eq_refl) as [Heq|Hload].
  { rewrite Heq in Hnew. unfold old, RevocationEpoch in Hnew. lia. }
  rewrite Hp, Hst' in Hload. injection Hload as ->. rewrite Hnew in Hgate', Hstamp'.
  destruct Hv as [_ _ _ _ _ [He0 _]]. rewrite Hgate, Hgate'. unfold StoreAuthorizer. fold (RevocationEpoch agent). fold old.
  assert (0 <= old) by exact He0. split_and!; [| | |done|done].
  - intros device. rewrite Z.ltb_irrefl. by destruct (old =? 0).
  - intros device epoch Hle. destruct (epoch =? 0); [done|]. destruct (epoch <? old + 1) eqn:Hlt; [done|lia].
  - intros device. destruct (old + 1 =? 0) eqn:Hz; [lia|]. by rewrite Z.ltb_irrefl.
Qed.
End RelayMainFacts.

(** * A run of the relay ([run] of [cmd/viberelay/main.go])

    What [RelayMain] starts is served until a signal or a listener ends it, and then
    shut down in order: the relay, its listener, the ticket endpoint, the identity
    file.  A run is the list of what it logs and of the closing of the identity
    file, with its error.  The log of the relay itself ([RelayServing]) goes into the
    same stream. *)

(** ** Diagnostics *)

(** The lines [runDiagnostics] prints. *)
Definition relayDiagnostics (addr adminAddr keyPath : string) (public : bytes) (gateEnabled : bool)
    (identityStorePath : string) : list string :=
  ["viberelay diagnose"%string; ("  listen address:   " ++ addr)%string;
   (if bool_decide (adminAddr = EmptyString) then "  admin address:    (disabled)"
    else "  admin address:    " ++ adminAddr)%string] ++
  (if bool_decide (keyPath = EmptyString) then [] else [("  issuer key:       " ++ keyPath)%string]) ++
  [("  issuer pubkey:    " ++ hexEncode public)%string;
   (if gateEnabled then "  revocation gate:  on (identity store: " ++ identityStorePath ++ ")"
    else "  revocation gate:  off")%string].

(** ** The log *)

(** [relayLogger.Log] *)
Definition relayLogger_Log (event : RelayEvent) : Event :=
  mkEvent (if bool_decide (Event_Outcome event = RelayServing.OutcomeSuccess) then EventAgentStopped
           else if bool_decide (Event_Outcome event = RelayServing.OutcomeFailure) then EventAgentStopping
           else EventAgentStarting)
    EmptyString EmptyString (Event_Reason event) (Event_Outcome event).

(** ** Serving and stopping *)

Inductive RelayEffect := RelayLogged (event : Event) | IdentityClosed.

(** What ends the serving, and the outcomes of the three shutdowns. *)
Inductive RelayStop := RelaySignal | RelayServe (e : option error).

Record RelayEnding := mkRelayEnding {
  ending_stop : RelayStop;
  ending_relay : result unit;
  ending_http : result unit;
  ending_admin : result unit;
}.

Definition lifecycle (name reason outcome : string) : RelayEffect :=
  RelayLogged (mkEvent name EmptyString EmptyString reason outcome).

Definition closing (gate : bool) : list RelayEffect := if gate then [IdentityClosed] else [].

(** [http.ErrServerClosed] *)
Definition ErrServerClosed := ErrorString "http: Server closed".

(** The three shutdowns; when that of the ticket endpoint fails, the identity file
    stays open. *)
Definition shutdownRelay (gate admin : bool) (ending : RelayEnding) : list RelayEffect * result unit :=
  let failed := lifecycle EventAgentStopped EmptyString AgentLog.OutcomeFailure in
  match ending_relay ending with
  | Err e => (failed :: closing gate, Err (ErrorWrap "shutdown relay" e))
  | Ok _ =>
      match ending_http ending with
      | Err e => (failed :: closing gate, Err (ErrorWrap "shutdown http" e))
      | Ok _ =>
          match (if admin then ending_admin ending else Ok tt) with
          | Err e => ([failed], Err (ErrorWrap "shutdown admin" e))
          | Ok _ =>
              (closing gate ++ [lifecycle EventAgentStopped EmptyString AgentLog.OutcomeSuccess], Ok tt)
          end
      end
  end.

Definition stopRelay (gate admin : bool) (ending : RelayEnding) : list RelayEffect * result unit :=
  let continue reason :=
    let '(effects, r) := shutdownRelay gate admin ending in
    (lifecycle EventAgentStopping reason EmptyString :: effects, r) in
  match ending_stop ending with
  | RelaySignal => continue ReasonSignal
  | RelayServe None => continue ReasonListenerClosed
  | RelayServe (Some e) =>
      if errors_is e ErrServerClosed then continue ReasonListenerClosed
      else (lifecycle EventAgentStopping AgentLog.ReasonListenerError AgentLog.OutcomeFailure :: closing gate,
            Err (ErrorWrap "server error" e))
  end.

(** ** What a run says *)

#[global] Instance RelayEffect_eq_dec : EqDecision RelayEffect.
Proof. solve_decision. Defined.

Definition stopped_with (outcome : string) : RelayEffect := lifecycle EventAgentStopped EmptyString outcome.

(** The shutdown of the ticket endpoint is what failed. *)
Definition adminFailed (admin : bool) (ending : RelayEnding) : bool :=
  admin && is_ok (ending_relay ending) && is_ok (ending_http ending) && negb (is_ok (ending_admin ending)).

(** A relay says that it stops before it says that it has, and success exactly when
    the run has no error; and it closes the identity file it opened once, unless the
    shutdown of the ticket endpoint fails. *)
Theorem relay_stops_in_order gate admin ending :
  let '(effects, r) := stopRelay gate admin ending in
  (∃ reason outcome rest, effects = lifecycle EventAgentStopping reason outcome :: rest) ∧
  (stopped_with AgentLog.OutcomeSuccess ∈ effects ↔ r = Ok tt) ∧
  (r = Ok tt → ending_relay ending = Ok tt ∧ ending_http ending = Ok tt ∧ (admin = true → ending_admin ending = Ok tt)) ∧
  (IdentityClosed ∈ effects ↔ gate = true ∧ (adminFailed admin ending = false ∨
     ∃ e, ending_stop ending = RelayServe (Some e) ∧ errors_is e ErrServerClosed = false)) ∧
  (length (filter (fun effect => effect = IdentityClosed) effects) <= 1)%nat.
Proof.
  assert (∀ reason,
    let '(rest, r) := shutdownRelay gate admin ending in
    let effects := lifecycle EventAgentStopping reason EmptyString :: rest in
    (stopped_with AgentLog.OutcomeSuccess ∈ effects ↔ r = Ok tt) ∧
    (r = Ok tt → ending_relay ending = Ok tt ∧ ending_http ending = Ok tt ∧ (admin = true → ending_admin ending = Ok tt)) ∧
    (IdentityClosed ∈ effects ↔ gate = true ∧ adminFailed admin ending = false) ∧
    (length (filter (fun effect => effect = IdentityClosed) effects) <= 1)%nat) as Hshut.
  { intros reason. unfold shutdownRelay, adminFailed.
    destruct (ending_relay ending) as [[]|], (ending_http ending) as [[]|], admin, (ending_admin ending) as [[]|], gate;
      simpl; (split_and!; [set_solver|done|set_solver|rewrite ?filter_cons, ?filter_nil; repeat case_decide; simplify_eq; simpl; lia]). }
  unfold stopRelay.
  assert (∀ reason, (∀ e, ending_stop ending = RelayServe (Some e) → errors_is e ErrServerClosed = true) →
    let '(effects, r) := (let '(effects, r) := shutdownRelay gate admin ending in
      (lifecycle EventAgentStopping reason EmptyString :: effects, r)) in
    (∃ reason outcome rest, effects = lifecycle EventAgentStopping reason outcome :: rest) ∧
    (stopped_with AgentLog.OutcomeSuccess ∈ effects ↔ r = Ok tt) ∧
    (r = Ok tt → ending_relay ending = Ok tt ∧ ending_http ending = Ok tt ∧ (admin = true → ending_admin ending = Ok tt)) ∧
    (IdentityClosed ∈ effects ↔ gate = true ∧ (adminFailed admin ending = false ∨
       ∃ e, ending_stop ending = RelayServe (Some e) ∧ errors_is e ErrServerClosed = false)) ∧
    (length (filter (fun effect => effect = IdentityClosed) effects) <= 1)%nat) as Hcont.
  { intros reason Hno. specialize (Hshut reason). destruct (shutdownRelay gate admin ending) as [rest r].
    destruct Hshut as (H1 & H2 & H3 & H4). split_and!; [by eexists _, _, _|done|done| |done].
    rewrite H3. split; [naive_solver|]. intros [? [?|(e & He & Hf)]]; [done|]. by rewrite (Hno e He) in Hf. }
  destruct (ending_stop ending) as [|[e|]]; [by apply Hcont| |by apply Hcont].
  destruct (errors_is e ErrServerClosed) eqn:He; [apply Hcont; by intros ? [= <-]|].
  split_and!; [by eexists _, _, _| |done| |].
  - split; [|done]. destruct gate; set_solver.
  - destruct gate; simpl; [|set_solver]. split; [|set_solver]. intros _. split; [done|]. right. by exists e.
  - destruct gate; simpl; rewrite ?filter_cons, ?filter_nil; repeat case_decide; simplify_eq; simpl; lia.
Qed.
