(* ===== verification/RelayClientExamples.v ===== *)
(** * The relay client, executed

    A codec that meets its law, a pair of tickets that meet on a relay, a stream
    and a bridge with messages in both directions, a manager, a ticket minted
    over HTTP, and a relay process beside a revocation. *)

From S2P Require Import Prelude.
From S2P Require Import Utf8.
From S2P Require Import Sha256.
From S2P Require Import Encoding.
From S2P Require Import SecureStore.
From S2P Require Import ContentPolicy.
From S2P Require Import Ticket.
From S2P Require Import DeviceIdentity.
From S2P Require Import DeviceIdentityFacts.
From S2P Require Import DeviceIdentityExamples.
From S2P Require Import Router.
From S2P Require Import RelayServer.
From S2P Require Import RelayClient.
From S2P Require Import RelayManager.
From S2P Require Import RelayRendezvous.
From S2P Require Import RelayAdmin.
From S2P Require Import RelayExamples.
From S2P Require Import RelayMain.

#[local] Existing Instance demo_crypto.

(** Tickets that expire five minutes after the epoch, for one connection and
    epoch 3; encoding fails on others. *)
Definition toy_encode (t : RelayTicket) : bytes :=
  TicketId t ++ RouteId t ++ DeviceId t ++ Nonce t ++
  (match Ticket_Endpoint t with RELAY_ENDPOINT_AGENT => "A" | _ => "C" end)%byte :: IssuerSignature t.

Definition toy_decode (b : bytes) : RelayTicket :=
  mkRelayTicket 1 (take 16 b) (take 16 (drop 16 b))
    (if bool_decide (b !! 64%nat = Some "A"%byte) then RELAY_ENDPOINT_AGENT else RELAY_ENDPOINT_CLIENT)
    (take 16 (drop 32 b)) (Some (5 * Minute)) 1 (take 16 (drop 48 b)) (drop 65 b) 3.

#[local] Instance toy_wire : TicketWire := {| ticket_Unmarshal b := Ok (toy_decode b) |}.
#[local] Instance toy_encoder : TicketEncoder := {|
  proto_Marshal t := if bool_decide (toy_decode (toy_encode t) = t) then Ok (toy_encode t)
                     else Err (ErrorString "not a toy ticket");
|}.

Lemma toy_codec : ticket_codec.
Proof. intros t b. simpl. case_bool_decide as Hd; [|done]. intros [= <-]. by rewrite Hd. Qed.

(** ** A pair of tickets *)

Definition pair_input : PairInput :=
  mkPairInput (id16 "r") (id16 "a") (id16 "c") (5 * Minute) 0 zeroTime 3.
Definition pair_mint (id : byte) : Minting := mkMinting 0 (Ok (id16 id)) (Ok (id16 "n")).

Definition pair_ticket (e : RelayEndpoint) (id device : byte) : RelayTicket :=
  mkRelayTicket 1 (id16 id) (id16 "r") e (id16 device) (Some (5 * Minute)) 1 (id16 "n")
    (demo_public ++ Sum256 (id16 id ++ id16 "r" ++ id16 device ++ id16 "n")) 3.

Definition agent_ticket := pair_ticket RELAY_ENDPOINT_AGENT "1" "a".
Definition client_ticket := pair_ticket RELAY_ENDPOINT_CLIENT "2" "c".

Lemma pair_eq :
  Pair (Some demo_private) (pair_mint "1") (pair_mint "2") pair_input = Ok (agent_ticket, client_ticket).
Proof. vm_compute. reflexivity. Qed.

Definition frame_of (t : RelayTicket) : bytes := PutUint32 129 ++ toy_encode t.

Lemma agent_frame : dialFrame (Some agent_ticket) = Ok (frame_of agent_ticket).
Proof. vm_compute. reflexivity. Qed.
Lemma client_frame : dialFrame (Some client_ticket) = Ok (frame_of client_ticket).
Proof. vm_compute. reflexivity. Qed.

Lemma pair_draws b : draws (pair_mint b) (id16 b).
Proof. split_and!; [done|done|]. by exists (id16 "n"). Qed.

Lemma pair_presentable b w :
  presentable demo_verifier demo_private (pair_mint b) pair_input w Minute Minute.
Proof.
  split_and!.
  - exists (string_of_bytes demo_public). vm_compute. reflexivity.
  - done.
  - by intros (t & Ht & _).
  - unfold issuedAt. simpl. unfold Minute, Second. lia.
  - unfold issuedAt. simpl. unfold Minute, Second. lia.
Qed.

Lemma paired_tickets_meet_witness :
  ∃ s1 s2 ha hc,
    handleConnection demo_server 0 (Ok (BinaryMessage, frame_of agent_ticket)) Minute Minute Minute =
      (s1, Joined ha None) ∧
    handleConnection s1 1 (Ok (BinaryMessage, frame_of client_ticket)) Minute Minute Minute =
      (s2, Joined hc (Some (owner ha))).
Proof.
  destruct (paired_tickets_meet demo_private (pair_mint "1") (pair_mint "2") (id16 "1") (id16 "2")
    pair_input agent_ticket client_ticket (frame_of agent_ticket) (frame_of client_ticket) demo_server 0 1
    Minute Minute Minute Minute Minute Minute) as (s1 & s2 & ha & hc & H1 & H2 & _).
  - exact demo_ed25519.
  - exact toy_codec.
  - reflexivity.
  - exact (pair_draws "1").
  - exact (pair_draws "2").
  - discriminate.
  - unfold issuedAt. simpl. lia.
  - unfold issuedAt. simpl. lia.
  - exact pair_eq.
  - exact agent_frame.
  - exact client_frame.
  - vm_compute. discriminate.
  - vm_compute. discriminate.
  - exact (pair_presentable "1" agent_ticket).
  - exact (pair_presentable "2" client_ticket).
  - reflexivity.
  - reflexivity.
  - simpl. set_solver.
  - simpl. set_solver.
  - exact (ex_intro _ s1 (ex_intro _ s2 (ex_intro _ ha (ex_intro _ hc (conj H1 H2))))).
Defined.

(** ** A stream *)

Definition dialled_stream : Stream := mkStream [frame_of agent_ticket] false [] PumpReading false None.

Definition stream_ops : list StreamOp :=
  [OpReceived (Ok (BinaryMessage, ["h"; "i"]%byte)); OpDeliver false; OpRead MaxFrameBytes false;
   OpReceived (Ok (BinaryMessage, ["y"]%byte)); OpDeliver false; OpWrite ["o"]%byte (Ok tt);
   OpReceived (Err io_EOF); OpDeliver false].

Lemma relay_frames_in_order_witness :
  taken (foldl stream_step (mkStreamRun dialled_stream [] []) stream_ops)
    `prefix_of` received (foldl stream_step (mkStreamRun dialled_stream [] []) stream_ops) ∧
  taken (foldl stream_step (mkStreamRun dialled_stream [] []) stream_ops) = [["h"; "i"]%byte].
Proof.
  split; [|vm_compute; reflexivity].
  apply (relay_frames_in_order (Some agent_ticket) (Ok tt) (Ok tt) dialled_stream stream_ops).
  vm_compute. reflexivity.
Defined.

(** Once the read error has been taken, another [Read] blocks: the pump has
    returned, and nothing closes the channel or the stream. *)
Example read_blocks_after_error :
  let s := stream (foldl stream_step (mkStreamRun dialled_stream [] [])
                     [OpReceived (Err io_EOF); OpDeliver false; OpRead 1024 false]) in
  pump s = PumpDone ∧ closed s = false ∧ Read s 1024 false = None.
Proof. vm_compute. done. Qed.

(** ** A bridge *)

Definition bridge_ops : list BridgeOp :=
  [BridgeUp (Ok (BinaryMessage, ["o"]%byte)) (Ok tt) None; BridgeUp (Ok (BinaryMessage, [])) (Ok tt) None;
   BridgeReceived (Ok (BinaryMessage, ["h"; "i"]%byte)); BridgeDeliver false; BridgeDown false (Ok tt) None;
   BridgeUp (Err io_EOF) (Ok tt) None; BridgeDown false (Ok tt) None].

Lemma bridge_keeps_messages_witness :
  let x := foldl bridge_step (mkBridgeRun (BridgeWebSocket_start dialled_stream) [] [] []) bridge_ops in
  to_local (bridge x) = [["h"; "i"]%byte] ∧ from_local x = [["o"]%byte] ∧
  BridgeWebSocket false false (bridge x) ≠ None.
Proof.
  cbv zeta.
  destruct (bridge_keeps_messages (Some agent_ticket) (Ok tt) (Ok tt) dialled_stream bridge_ops)
    as (_ & _ & H); [vm_compute; reflexivity|].
  split; [vm_compute; reflexivity|]. split; [vm_compute; reflexivity|].
  apply H; vm_compute; reflexivity.
Defined.

(** ** A manager *)

Definition toy_config : ManagerConfig :=
  mkManagerConfig "wss://relay.example/v1" (Some demo_private) (id16 "a") 3 0.
Definition toy_manager : Manager :=
  mkManager (toy_config <| Config_TicketLifetime := DefaultTicketLifetime |>) ∅ ∅ [].
Definition toy_route : string := hexEncode (id16 "r").

Definition manager_ops : list ManagerOp :=
  [OpProvision (id16 "c") (Ok (id16 "r")) (pair_mint "1") (pair_mint "2"); OpConnectBegin toy_route;
   OpConnectBegin toy_route; OpCancelRoute toy_route; OpConnectEnd 0].

Lemma route_dialled_once_witness :
  dialled (foldl manager_step (mkManagerRun toy_manager [] []) manager_ops) = [agent_ticket] ∧
  ∀ w, w ∈ dialled (foldl manager_step (mkManagerRun toy_manager [] []) manager_ops) →
       w ∈ provisioned (foldl manager_step (mkManagerRun toy_manager [] []) manager_ops).
Proof.
  split; [vm_compute; reflexivity|].
  apply (route_dialled_once toy_config toy_manager manager_ops). vm_compute. reflexivity.
Defined.

(** ** The ticket endpoint *)

Definition toy_body : issueRequest :=
  mkIssueRequest (hexEncode (id16 "r")) (hexEncode (id16 "a")) " Agent" 1 300 None.
Definition toy_admin : Admin := WithStampEpoch (mkAdmin demo_private None) (Some 3).


(** The lifetime wraps: [time.Duration] counts nanoseconds in 64 bits, and a
    duration that comes out negative is replaced by the default of two minutes. *)
Example lifetime_wraps :
  let body := mkIssueRequest (hexEncode (id16 "r")) (hexEncode (id16 "a")) "agent" 1 9223372037 None in
  let lifetime := i64 (Body_LifetimeSeconds body * Second) in
  lifetime < 0 ∧
  match Issue demo_private 0 (Ok (id16 "1")) (Ok (id16 "n"))
          (mkIssueInput (id16 "r") (id16 "a") RELAY_ENDPOINT_AGENT 1 lifetime zeroTime 3) with
  | Ok t => ExpiresAt t = Some (2 * Minute)
  | Err _ => False
  end.
Proof. vm_compute. done. Qed.

(** * A relay process, executed

    A relay starts on the identity of [DeviceIdentityExamples], makes its key, and
    goes on admitting a phone that is revoked meanwhile; its successor does not. *)

#[local] Existing Instance toyCrypto.
#[local] Existing Instance toyLaws.
#[local] Existing Instance stateJson.
#[local] Existing Instance stateJsonLaws.
#[local] Existing Instance envelopeJson.
#[local] Existing Instance envelopeJsonLaws.

Definition keyFile : string := "/srv/relay/issuer.key".
Definition relayFlags : RelayFlags :=
  mkRelayFlags defaultListenAddr "/srv/relay/./issuer.key" true [] defaultAdminAddr EmptyString true identityPath false [].
Definition freshKey : KeyCalls := mkKeyCalls None (Ok tt) (Ok (fill 64 "040")) None.
Definition brokenKey : KeyCalls :=
  mkKeyCalls None (Ok tt) (Ok (fill 64 "040")) (Some (fill 10 "040", ErrorString "no space left on device")).
Definition relayEnv (key : KeyCalls) : RelayEnv :=
  mkRelayEnv (Ok "/"%string) (Err (ErrorString "$HOME is not defined")) (Err (ErrorString "no config directory")) key None
    (Ok defaultListenAddr) (Ok defaultAdminAddr).

(** The relay of an Agent that has revoked once, the phone authorized again. *)
Definition state4 : persistedState := state3.
Definition store4 : Store := store0 <| state := state3 |>.
Definition relayStarted := startRelay files3 relayFlags (relayEnv freshKey).
Definition relayServing : RelayProcess :=
  match relayStarted.2 with
  | Ok (Serving process) => process
  | _ => mkRelayProcess (NewVerifier []) None EmptyString None
  end.

Definition gateOf (process : RelayProcess) (epoch : Z) : bool :=
  match authorizer (process_verifier process) with Some gate => is_ok (gate (fill 16 "002") epoch) | None => true end.

Example relay_starts :
  is_ok relayStarted.2 = true ∧ process_address relayServing = defaultListenAddr ∧
  (fun a => stampEpoch a.1) <$> process_admin relayServing = Some (Some 1) ∧
  gateOf relayServing 1 = true ∧ gateOf relayServing 0 = false ∧
  (startRelay files3 relayFlags (relayEnv brokenKey)).2 =
    Err (ErrorWrap "load issuer key" (ErrorWrap "write issuer key %s" (ErrorString "no space left on device"))).
Proof. vm_compute. repeat split. Qed.

Lemma issuer_key_is_kept_witness :
  let broken := loadOrCreateIssuerKey ∅ brokenKey keyFile true in
  let made := loadOrCreateIssuerKey ∅ freshKey keyFile false in
  made.2 = Ok (fill 64 "040") ∧ loadOrCreateIssuerKey made.1 brokenKey keyFile true = (made.1, Ok (fill 64 "040")) ∧
  is_ok (loadOrCreateIssuerKey broken.1 freshKey keyFile true).2 = false.
Proof.
  intros broken made.
  assert (∀ calls, calls = freshKey ∨ calls = brokenKey → ∀ key, key_generated calls = Ok key → len key = ed25519_PrivateKeySize)
    as Hgen by (intros calls [->| ->] key Hk; injection Hk as <-; reflexivity).
  destruct (issuer_key_is_kept ∅ freshKey keyFile false made.1 made.2 (Hgen freshKey (or_introl eq_refl)) (surjective_pairing made))
    as (_ & Hkey & _).
  destruct (issuer_key_is_kept ∅ brokenKey keyFile true broken.1 broken.2 (Hgen brokenKey (or_intror eq_refl))
    (surjective_pairing broken)) as (_ & _ & Hbroken).
  split; [vm_compute; reflexivity|]. split.
  - apply (Hkey (fill 64 "040")); [vm_compute; reflexivity|reflexivity].
  - destruct (Hbroken (fill 10 "040") (ErrorString "no space left on device")) as [_ Hlater].
    + intros Heq. apply (f_equal (fun m : Files => m !! keyFile)) in Heq. vm_compute in Heq. discriminate Heq.
    + reflexivity.
    + vm_compute. discriminate.
    + rewrite Hlater. reflexivity.
Defined.

(** The phone is revoked while the relay runs. *)
Definition phoneRevoked := Revoke relayStarted.1 store1 time1 noFault (fill 16 "002").
Definition relayBefore := startRelay files1 relayFlags (relayEnv freshKey).
Definition phoneGone := Revoke relayBefore.1 store1 time1 noFault (fill 16 "002").
Definition relayAfter := startRelay phoneGone.1.1 relayFlags (relayEnv freshKey).

Lemma readsIdentity_demo key : readsIdentity relayFlags (relayEnv key) identityPath.
Proof. split; [exists identityPath; split; reflexivity|vm_compute; discriminate]. Qed.

Lemma relay_gate_is_as_old_as_the_process_witness :
  ∃ process process', relayBefore.2 = Ok (Serving process) ∧ relayAfter.2 = Ok (Serving process') ∧
    gateOf process 0 = false ∧ gateOf process' 0 = false ∧ gateOf process' 1 = true.
Proof.
  assert ((match relayBefore.2 with Ok (Serving _) => true | _ => false end,
    match relayAfter.2 with Ok (Serving _) => true | _ => false end, is_ok phoneGone.2) = (true, true, true)) as Hok
    by (vm_compute; reflexivity).
  apply pair_equal_spec in Hok as [[Hb Ha]%pair_equal_spec Hg].
  destruct relayBefore as [fs1 [[|process]|]] eqn:HB; try discriminate Hb.
  destruct relayAfter as [fs3 [[|process']|]] eqn:HA; try discriminate Ha.
  destruct phoneGone as [[fs2 agent'] [view|]] eqn:HG; [|discriminate Hg].
  exists process, process'. split; [reflexivity|]. split; [reflexivity|].
  unfold phoneGone in HG. rewrite HB in HG. unfold relayAfter, phoneGone in HA. rewrite HB in HA. cbn [fst] in HG, HA.
  rewrite HG in HA. cbn [fst] in HA.
  destruct (relay_gate_is_as_old_as_the_process files1 relayFlags (relayEnv freshKey) fs1 process store1 time1 noFault
    (fill 16 "002") (authorizedRecord ["011"%byte] 1 time1) fs2 agent' view (relayEnv freshKey) fs3 process')
    as (H1 & H2 & H3 & _ & _).
  - reflexivity.
  - apply readsIdentity_demo.
  - apply readsIdentity_demo.
  - vm_compute. reflexivity.
  - apply valid_example; [vm_compute; reflexivity|vm_compute; split; congruence|vm_compute; split; congruence].
  - exact HB.
  - intros tmp Htmp. injection Htmp as <-. apply (f_equal fst) in HB. cbn [fst] in HB. rewrite <- HB.
    split; vm_compute; [reflexivity|discriminate].
  - vm_compute. discriminate.
  - vm_compute. reflexivity.
  - vm_compute. discriminate.
  - exact HG.
  - exact HA.
  - split; [exact (H1 (fill 16 "002"))|]. split; [exact (H2 (fill 16 "002") 0 ltac:(done))|exact (H3 (fill 16 "002"))].
Defined.
