(* ===== verification/UnknownFields.v ===== *)
(** * Unknown fields ([internal/protocol/unknown.go])

    The walk over a decoded message that looks for fields the schema does not
    know, and the proof that it looks everywhere.  A message is what its
    reflection shows: whether it is valid, the bytes of its unknown fields, and
    its populated fields in the order [Range] visits them.  A field of message
    kind holds messages; of any other field only the kind matters. *)

From S2P Require Import Prelude.

From Stdlib Require Import Wf_nat.

Inductive Kind := MessageKind | OtherKind.

(** A map field has message kind itself: its entries are messages. *)
Inductive Message :=
  | Msg (valid : bool) (unknown : bytes) (fields : list Field)
with Field :=
  | ListField (kind : Kind) (items : list Message)
  | MapField (valueKind : Kind) (items : list Message)
  | SingularField (kind : Kind) (item : Message).

(** [value.Message()] on a value that is not a message panics. *)
Definition errNotMessage := ErrorString "type mismatch: cannot convert map to message".

(** [Range] with a callback that stops at the first field found. *)
Definition rangeUntil {A} (visit : A → result bool) : list A → result bool :=
  fix go l :=
    match l with
    | [] => Ok false
    | x :: rest => match visit x with Err e => Err e | Ok true => Ok true | Ok false => go rest end
    end.

Fixpoint hasUnknownFields (m : Message) : result bool :=
  match m with
  | Msg valid unknown fields =>
      if negb valid then Ok true
      else if negb (len unknown =? 0) then Ok true
      else rangeUntil (fun field =>
        match field with
        | ListField MessageKind items => rangeUntil hasUnknownFields items
        | ListField OtherKind _ => Ok false
        | MapField MessageKind items => rangeUntil hasUnknownFields items
        | MapField OtherKind _ => Err errNotMessage
        | SingularField MessageKind item => hasUnknownFields item
        | SingularField OtherKind _ => Ok false
        end) fields
  end.

(** [HasUnknownFields] *)
Definition HasUnknownFields (message : option Message) : result bool :=
  match message with None => Ok false | Some m => hasUnknownFields m end.

(** ** What it means *)

Definition messagesOf (f : Field) : list Message :=
  match f with
  | ListField MessageKind items | MapField MessageKind items => items
  | SingularField MessageKind item => [item]
  | _ => []
  end.

Definition fieldsOf (m : Message) : list Field := match m with Msg _ _ fields => fields end.

(** A message is part of itself, and of the message one of whose fields holds one
    it is part of. *)
Inductive Part (m : Message) : Message → Prop :=
  | part_self : Part m m
  | part_of f held whole : f ∈ fieldsOf whole → held ∈ messagesOf f → Part m held → Part m whole.

Definition Clean (m : Message) : Prop := match m with Msg valid unknown _ => valid = true ∧ unknown = [] end.

Definition isScalarMap (f : Field) : bool := match f with MapField OtherKind _ => true | _ => false end.

(** The schemas of the program: no map field, anywhere, has values that are not
    messages. *)
Definition Mapless (m : Message) : Prop :=
  ∀ part, Part part m → existsb isScalarMap (fieldsOf part) = false.

Fixpoint messageSize (m : Message) : nat :=
  match m with
  | Msg _ _ fields =>
      S (sum_list_with (fun f => match f with
           | ListField _ items | MapField _ items => sum_list_with messageSize items
           | SingularField _ item => messageSize item end) fields)
  end.

Lemma size_elem {A} (g : A → nat) x l : x ∈ l → (g x <= sum_list_with g l)%nat.
Proof. intros Hx. induction Hx as [|y l Hx IH]; simpl; lia. Qed.

Lemma held_smaller m f held : f ∈ fieldsOf m → held ∈ messagesOf f → (messageSize held < messageSize m)%nat.
Proof.
  destruct m as [valid unknown fields]. simpl. intros Hf Hh.
  apply (size_elem (fun f => match f with
    | ListField _ items | MapField _ items => sum_list_with messageSize items
    | SingularField _ item => messageSize item end)) in Hf.
  simpl in Hf. destruct f as [[] items|[] items|[] item]; simpl in *; try by apply not_elem_of_nil in Hh.
  - apply (size_elem messageSize) in Hh. lia.
  - apply (size_elem messageSize) in Hh. lia.
  - apply list_elem_of_singleton in Hh as ->. lia.
Qed.

(** A walk each of whose visits answers a question answers whether one holds. *)
Lemma rangeUntil_spec {A} (visit : A → result bool) (good : A → Prop) l :
  (∀ x, x ∈ l → ∃ b, visit x = Ok b ∧ (b = false ↔ good x)) →
  ∃ b, rangeUntil visit l = Ok b ∧ (b = false ↔ ∀ x, x ∈ l → good x).
Proof.
  induction l as [|x l IH]; intros Hv; simpl.
  - exists false. split; [done|]. split; [|done]. intros _ x Hx. by apply not_elem_of_nil in Hx.
  - destruct (Hv x) as (b & -> & Hb); [set_solver|]. destruct b.
    + exists true. split; [done|]. split; [done|]. intros Hall. apply Hb, Hall. set_solver.
    + destruct IH as (b & -> & Hl); [intros; apply Hv; set_solver|]. exists b. split; [done|]. rewrite Hl.
      split; [|set_solver]. intros Hg y [->|Hy]%elem_of_cons; [by apply Hb|by apply Hg].
Qed.

Lemma visit_field m f :
  f ∈ fieldsOf m → Mapless m →
  (∀ held, held ∈ messagesOf f → ∃ b, hasUnknownFields held = Ok b ∧ (b = false ↔ ∀ part, Part part held → Clean part)) →
  ∃ b, (match f with
        | ListField MessageKind items => rangeUntil hasUnknownFields items
        | ListField OtherKind _ => Ok false
        | MapField MessageKind items => rangeUntil hasUnknownFields items
        | MapField OtherKind _ => Err errNotMessage
        | SingularField MessageKind item => hasUnknownFields item
        | SingularField OtherKind _ => Ok false
        end) = Ok b ∧ (b = false ↔ ∀ held, held ∈ messagesOf f → ∀ part, Part part held → Clean part).
Proof.
  intros Hf Hm Hh.
  assert (messagesOf f = [] → ∃ b, Ok false = Ok b ∧
    (b = false ↔ ∀ held, held ∈ messagesOf f → ∀ part, Part part held → Clean part)) as Hnone.
  { intros ->. exists false. split; [done|]. split; [|done]. intros _ held H. by apply not_elem_of_nil in H. }
  destruct f as [[] items|[] items|[] item]; try by apply Hnone.
  - by apply rangeUntil_spec.
  - by apply rangeUntil_spec.
  - pose proof (Hm m (part_self _)) as Hs. apply not_true_iff_false in Hs. destruct Hs.
    apply existsb_exists. exists (MapField OtherKind items). split; [by apply list_elem_of_In|done].
  - destruct (Hh item) as (b & -> & Hb); [apply list_elem_of_singleton; done|]. exists b. split; [done|]. rewrite Hb.
    split; [by intros H held ->%list_elem_of_singleton|]. intros H. apply H. by apply list_elem_of_singleton.
Qed.

(** C33: the check for unknown fields is the walk it means to be.  On a message of a
    schema without maps to scalars it returns, and it says no exactly when every
    message that is part of it, through fields, lists and maps, at any depth, is
    valid and has no unknown field. *)
Theorem unknown_fields_are_found m :
  Mapless m → ∃ b, HasUnknownFields (Some m) = Ok b ∧ (b = false ↔ ∀ part, Part part m → Clean part).
Proof.
  simpl. induction m as [m IH] using (well_founded_ind (well_founded_ltof _ messageSize)). intros Hm.
  assert (∀ f held, f ∈ fieldsOf m → held ∈ messagesOf f → Mapless held) as Hheld.
  { intros f held Hf Hh part Hp. apply Hm. by eapply part_of. }
  pose proof (fun f Hf => visit_field m f Hf Hm (fun held Hh => IH held (held_smaller m f held Hf Hh) (Hheld f held Hf Hh)))
    as Hvisit.
  assert (Clean m ∧ (∀ f, f ∈ fieldsOf m → ∀ held, held ∈ messagesOf f → ∀ part, Part part held → Clean part)
    ↔ ∀ part, Part part m → Clean part) as Hsplit.
  { split.
    - intros [Hc Hf] part Hp. destruct Hp as [|f held whole Hf' Hh Hp]; [done|]. by eapply Hf.
    - intros Hall. split; [apply Hall, part_self|]. intros f Hf held Hh part Hp. apply Hall. by eapply part_of. }
  destruct m as [valid unknown fields]. simpl in *.
  destruct valid; simpl.
  2: { exists true. split; [done|]. split; [done|]. intros Hall. by destruct (Hall _ (part_self _)). }
  destruct unknown as [|b0 unknown]; simpl.
  2: { exists true. split; [done|]. split; [done|]. intros Hall. by destruct (Hall _ (part_self _)). }
  destruct (rangeUntil_spec _ _ _ Hvisit) as (b & Hb & Heq). exists b. split; [exact Hb|].
  rewrite Heq, <- Hsplit. naive_solver.
Qed.

(** A message with a clean child and a child two levels down that is not. *)
Definition leaf (unknown : bytes) : Message := Msg true unknown [].
Definition nested (unknown : bytes) : Message :=
  Msg true [] [SingularField OtherKind (leaf []); ListField OtherKind [];
    ListField MessageKind [leaf []; Msg true [] [SingularField MessageKind (leaf unknown)]]; MapField MessageKind [leaf []]].

Lemma Mapless_intro m :
  existsb isScalarMap (fieldsOf m) = false →
  Forall (fun f => Forall Mapless (messagesOf f)) (fieldsOf m) → Mapless m.
Proof.
  intros Hs Hf part Hp. destruct Hp as [|f held whole Hin Hh Hp]; [done|].
  rewrite Forall_forall in Hf. specialize (Hf f Hin). rewrite Forall_forall in Hf. by apply (Hf held).
Qed.

Lemma unknown_fields_are_found_witness :
  Mapless (nested ["001"%byte]) ∧
  ∃ b, HasUnknownFields (Some (nested ["001"%byte])) = Ok b ∧
    (b = false ↔ ∀ part, Part part (nested ["001"%byte]) → Clean part).
Proof.
  assert (Mapless (nested ["001"%byte])) as Hm by (repeat (apply Mapless_intro; [reflexivity|]; repeat constructor)).
  split; [exact Hm|]. exact (unknown_fields_are_found (nested ["001"%byte]) Hm).
Defined.

(** A populated map to scalars would panic: no message of the schema has one. *)
Example walks :
  HasUnknownFields None = Ok false ∧ HasUnknownFields (Some (nested [])) = Ok false ∧
  HasUnknownFields (Some (nested ["001"%byte])) = Ok true ∧
  HasUnknownFields (Some (Msg true [] [MapField OtherKind []])) = Err errNotMessage.
Proof. vm_compute. done. Qed.
