(* ===== verification/ServiceCommand.v ===== *)
(** * The service command ([cmd/vibebridge/service_command.go])

    [vibebridge service install | status | uninstall], against the interface of the
    platform's manager ([serviceManager], the class [ServiceManager]), whose Windows
    implementation is [ServiceTask].  Before it installs the Agent it resolves the
    options the Agent will start with ([Startup]); the status is read from the
    runtime state ([RuntimeState]) and a probe of the Agent.  What it prints is its
    result. *)

From S2P Require Import Prelude.
From S2P Require Import Utf8.
From S2P Require Import SecureStore.
From S2P Require Import Path.
From S2P Require Import ContentPolicy.
From S2P Require Import Ticket.
From S2P Require Import Workspace.
From S2P Require Import AgentConfig.
From S2P Require Import GoNet.
From S2P Require Import RelayAdmin.
From S2P Require Import Startup.
From S2P Require Import RuntimeState.
From S2P Require Import ServiceTask.

Class ServiceManager (W : Type) := {
  manager_Install : W → InstallOptions → W * result unit;
  manager_Uninstall : W → W * result unit;
  manager_QueryInstallation : W → W * result bool;
  manager_RuntimeStatePath : result string;
}.

(** [platformServiceManager] on Windows; the paths, the user and the temporary file
    are the platform's. *)
Definition windowsManager {W} `{XmlCodec} `{TaskScheduler W} (isAbs : string → bool) (user statePath : result string)
    (calls : TempCalls) : ServiceManager W := {|
  manager_Install w o := installWindows isAbs w o user calls;
  manager_Uninstall := uninstallWindows;
  manager_QueryInstallation := queryWindowsInstallation;
  manager_RuntimeStatePath := statePath;
|}.

(** The same elsewhere ([service_other.go]). *)
Definition otherManager {W} (statePath : result string) : ServiceManager W := {|
  manager_Install w _ := (w, Err ErrUnsupported);
  manager_Uninstall w := (w, Err ErrUnsupported);
  manager_QueryInstallation w := (w, Err ErrUnsupported);
  manager_RuntimeStatePath := statePath;
|}.

(** [DefaultRuntimeStatePath] of [state_other.go]. *)
Definition DefaultRuntimeStatePath (userConfigDir : result string) : result string :=
  match userConfigDir with
  | Err e => Err e
  | Ok base => Ok (Join [base; "vibebridge"%string; "runtime.json"%string])
  end.

(** ** Installing *)

(** [strings.HasPrefix(strings.ToLower(part), prefix)], for a prefix in ASCII. *)
Definition hasLowerPrefix (prefix part : string) : bool :=
  bool_decide (take (String.length prefix) (lowerRunes part) = lowerRunes prefix).

Definition isTemporaryGoRunExecutable (getwd : result string) (tempDir path : string) : bool :=
  match Path.Abs getwd tempDir, Path.Abs getwd path with
  | Ok temporaryDirectory, Ok absolutePath =>
      match Rel temporaryDirectory absolutePath with
      | Err _ => false
      | Ok relative =>
          let parts := splitSlash relative in
          if bool_decide (head parts = Some ".."%string) then false
          else existsb (hasLowerPrefix "go-build") parts
      end
  | _, _ => false
  end.

Record InstallFlags := mkInstallFlags {
  if_config : string; if_profile : string; if_force : bool; if_positional : list string;
}.

(** The options the Agent has when no flag is given. *)
Definition defaultOptions (commandLine : string) : startupOptions :=
  mkStartupOptions "0.0.0.0:8787" "web/dist" commandLine [] EmptyString [] (90 * Second) (30 * Minute)
    EmptyString EmptyString EmptyString EmptyString EmptyString.

(** What the process sees of its surroundings: the default command line, the
    outcome of reading the configuration, the commands in the path. *)
Record InstallEnv := mkInstallEnv {
  ie_getwd : result string;
  ie_commandLine : string;
  ie_lookupEnv : string → option string;
  ie_opened : result unit; ie_size : result Z; ie_content : result bytes;
  ie_lookPath : string → bool;
}.

Section ServiceCommand.
Context {F : Type} {files : FileSystem F} {json : ConfigJSON}.
Context {W : Type} {manager : ServiceManager W}.

Definition noFlags : string → bool := fun _ => false.

(** The checks on what the Agent would start. *)
Definition checkLaunch (f : F) (env : InstallEnv) (config profile : string) : F * result startupOptions :=
  match resolveStartupOptions f (defaultOptions (ie_commandLine env)) config profile noFlags (ie_lookupEnv env)
          (ie_opened env) (ie_size env) (ie_content env) with
  | (f, Err e) => (f, Err e)
  | (f, Ok launch) =>
      match validateCommand (command launch) (ie_lookPath env) with
      | Err e => (f, Err e)
      | Ok _ =>
          match validateStartupWorkingDirectory f launch with
          | (f, Err e) => (f, Err e)
          | (f, Ok _) => (f, Ok launch)
          end
      end
  end.

(** The checks on the executable: a file that is there to stay. *)
Definition checkExecutable (f : F) (env : InstallEnv) (executable : string) : F * result string :=
  match Path.Abs (ie_getwd env) executable with
  | Err e => (f, Err (ErrorWrap "resolve service executable path" e))
  | Ok absolute =>
      if isTemporaryGoRunExecutable (ie_getwd env) (os_TempDir f) absolute then
        (f, Err (ErrorString "service install cannot use the temporary `go run` executable; build a durable VibeBridge binary first"))
      else match os_Stat_IsDir f absolute with
      | (f, Err e) => (f, Err (ErrorWrap "service executable is not available" e))
      | (f, Ok isDir) =>
          (f, if isDir : bool then Err (ErrorString "service executable path points to a directory") else Ok absolute)
      end
  end.

Definition runServiceInstall (f : F) (w : W) (flags : InstallFlags) (env : InstallEnv) (executable : string)
    : F * W * result unit :=
  if negb (bool_decide (if_positional flags = [])) then
    (f, w, Err (ErrorString "service install does not accept positional arguments: %v"))
  else if bool_decide (if_config flags = EmptyString) then (f, w, Err (ErrorString "service install requires --config"))
  else match Path.Abs (ie_getwd env) (if_config flags) with
  | Err e => (f, w, Err (ErrorWrap "resolve service config path" e))
  | Ok absoluteConfig =>
      match checkLaunch f env absoluteConfig (if_profile flags) with
      | (f, Err e) => (f, w, Err e)
      | (f, Ok _) =>
          match checkExecutable f env executable with
          | (f, Err e) => (f, w, Err e)
          | (f, Ok absoluteExecutable) =>
              match manager_RuntimeStatePath with
              | Err e => (f, w, Err (ErrorWrap "resolve service runtime state path" e))
              | Ok statePath =>
                  let '(w, r) := manager_Install w
                    (mkInstallOptions absoluteExecutable absoluteConfig (if_profile flags) statePath
                       (Dir absoluteConfig) (if_force flags)) in
                  (f, w, r)
              end
          end
      end
  end.

(** ** Status *)

(** The probe: [get] is the status code of [GET /status] at an address with a
    token. *)
Definition probeRuntimeState (get : string → string → result Z) (st : RuntimeState) : result unit :=
  match SplitPort (RS_ListenAddress st) with
  | None => Err (ErrorString "address: missing port in address")
  | Some (host, port) =>
      let host := if bool_decide (host = EmptyString) || isWildcardHost host then "127.0.0.1"%string else host in
      match get (JoinHostPort host port) (RS_SessionToken st) with
      | Err _ => Err (ErrorString "authenticated status endpoint is unreachable")
      | Ok status => if status =? 200 then Ok tt else Err (ErrorString "status endpoint returned HTTP %d")
      end
  end.

Inductive StatusReport :=
  | NotInstalled
  | NotRunning
  | StaleState (why : error)
  | Running (pid startedAt : Z) (urls : list string) (qr : option string).

Context `{!JsonCodec RuntimeState}.

Definition runServiceStatus (fs : Files) (w : W) (positional : list string) (showQR : bool) (sysRead : option error)
    (get : string → string → result Z) (interfaces : result (list Interface)) : W * result StatusReport :=
  if negb (bool_decide (positional = [])) then
    (w, Err (ErrorString "service status does not accept positional arguments: %v"))
  else match manager_QueryInstallation w with
  | (w, Err e) => (w, Err e)
  | (w, Ok false) => (w, Ok NotInstalled)
  | (w, Ok true) =>
      (w, match manager_RuntimeStatePath with
          | Err e => Err (ErrorWrap "resolve service runtime state path" e)
          | Ok statePath =>
              match LoadRuntimeState fs sysRead statePath with
              | Err e => if errors_is e os_ErrNotExist then Ok NotRunning
                         else Err (ErrorWrap "read background Agent runtime state" e)
              | Ok st =>
                  match probeRuntimeState get st with
                  | Err e => Ok (StaleState e)
                  | Ok _ =>
                      match accessURLs (RS_ListenAddress st) (RS_SessionToken st) interfaces with
                      | Err e => Err (ErrorWrap "build background Agent access URLs" e)
                      | Ok urls => Ok (Running (RS_PID st) (RS_StartedAt st) urls (if showQR then head urls else None))
                      end
                  end
              end
          end)
  end.

(** ** Uninstalling *)

Definition runServiceUninstall (fs : Files) (w : W) (positional : list string) (removal : option error)
    : Files * W * result unit :=
  if negb (bool_decide (positional = [])) then
    (fs, w, Err (ErrorString "service uninstall does not accept positional arguments: %v"))
  else match manager_Uninstall w with
  | (w, Err e) => (fs, w, Err e)
  | (w, Ok _) =>
      match manager_RuntimeStatePath with
      | Err e =>
          (fs, w, Err (ErrorWrap "background task was removed, but its runtime state path could not be resolved" e))
      | Ok statePath =>
          match RemoveRuntimeState fs removal statePath with
          | (fs, Err e) =>
              (fs, w, Err (ErrorWrap "background task was removed, but its runtime state could not be cleared" e))
          | (fs, Ok _) => (fs, w, Ok tt)
          end
      end
  end.

(** The subcommand; [None] is the usage. *)
Inductive ServiceSubcommand := ServiceInstall | ServiceStatus | ServiceUninstall.

Definition serviceSubcommand (args : list string) : result (option ServiceSubcommand) :=
  match args with
  | [] => Err (ErrorString "service command requires install, status, or uninstall")
  | name :: _ =>
      if bool_decide (name ∈ ["help"; "-h"; "--help"]%string) then Ok None
      else if bool_decide (name = "install"%string) then Ok (Some ServiceInstall)
      else if bool_decide (name = "status"%string) then Ok (Some ServiceStatus)
      else if bool_decide (name = "uninstall"%string) then Ok (Some ServiceUninstall)
      else Err (ErrorString "unknown service command %q; expected install, status, or uninstall")
  end.
End ServiceCommand.

(** ** Properties *)

(** The flags the task gives the Agent: those of [taskArguments]. *)
Definition taskFlags (name : string) : bool :=
  bool_decide (name ∈ ["background"; "tray"; "config"; "service-state"; "profile"]%string).

Section Installed.
Context {F : Type} {files : FileSystem F} {json : ConfigJSON}.
Context {W : Type} {manager : ServiceManager W}.

Lemma resolve_task_flags (f : F) env config profile :
  resolveStartupOptions f (defaultOptions (ie_commandLine env)) config profile taskFlags (ie_lookupEnv env)
    (ie_opened env) (ie_size env) (ie_content env) =
  resolveStartupOptions f (defaultOptions (ie_commandLine env)) config profile noFlags (ie_lookupEnv env)
    (ie_opened env) (ie_size env) (ie_content env).
Proof. reflexivity. Qed.

End Installed.
