(* ===== verification/ServiceExamples.v ===== *)
(** * The background service: executed

    A toy encoder of the runtime state that satisfies the laws, a scheduler that
    keeps the task and a log of its commands, and the configuration of
    [AgentConfig]: the theorems about the service applied to them. *)

From S2P Require Import Prelude.
From S2P Require Import Utf8.
From S2P Require Import SecureStore.
From S2P Require Import Path.
From S2P Require Import ContentPolicy.
From S2P Require Import Ticket.
From S2P Require Import Workspace.
From S2P Require Import AgentConfig.
From S2P Require Import DeviceIdentity.
From S2P Require Import DeviceIdentityExamples.
From S2P Require Import GoNet.
From S2P Require Import Startup.
From S2P Require Import RuntimeState.
From S2P Require Import ServiceTask.
From S2P Require Import ServiceCommand.

(** ** The runtime state *)

Definition agentState (pid : Z) (token : string) : RuntimeState :=
  mkRuntimeState 1 pid (1700000000 * Second) "127.0.0.1:8787" token.

(** A state whose encoding is longer than what is read. *)
Definition longState : RuntimeState := agentState 9 "long".
Definition runtimeStates : list (RuntimeState * bytes) :=
  [(agentState 7 "first", ["7"; "010"]%byte); (agentState 8 "second", ["8"; "010"]%byte);
   (longState, fill 70000 "a")].

#[local] Instance runtimeJson : JsonCodec RuntimeState := {
  json_Marshal := table_encode runtimeStates;
  json_Decode := table_decode runtimeStates;
  json_Extra _ := ExtraEOF;
}.

Lemma runtimeStates_distinct : NoDup runtimeStates.*2 ∧ [] ∉ runtimeStates.*2.
Proof.
  change runtimeStates.*2 with [["7"; "010"]%byte; ["8"; "010"]%byte; fill 70000 "a"].
  change (fill 70000 "a") with ("a"%byte :: fill 69999 "a").
  generalize (fill 69999 "a"). intros long.
  split; [|set_solver]. repeat constructor; set_solver.
Qed.

#[local] Instance runtimeJsonLaws : JsonLaws RuntimeState (fun st => validateRuntimeState st = Ok tt).
Proof.
  destruct runtimeStates_distinct as [Hnd Hne]. split; [|done|].
  - intros s b _ He. by apply (table_roundtrip runtimeStates).
  - intros s b _ He ->. destruct (table_roundtrip runtimeStates s [] Hnd He) as [_ Hin]. by apply Hne.
Qed.

Definition runtimePath : string := "/home/u/.config/vibebridge/runtime.json".
Definition temporary (name : string) : Syscalls :=
  mkSyscalls (Ok tt) (Ok ("/home/u/.config/vibebridge/" ++ name)%string) (Ok tt) None (Ok tt) (Ok tt)
    (Ok tt) (Ok tt) (Ok tt) true.
Definition runtimeRun : list StateOp :=
  [Publish (temporary ".runtime-1.tmp") (agentState 7 "first"); Publish (temporary ".runtime-2.tmp") (agentState 8 "second");
   Clear None None 7].

(** The second Agent takes the file over; the first one, when it stops, leaves it
    alone. *)
Example runtime_state_run :
  runState ∅ runtimePath runtimeRun = ({[runtimePath := ["8"; "010"]%byte]}, [Ok tt; Ok tt; Ok tt]).
Proof. vm_compute. reflexivity. Qed.

Lemma runtime_state_is_register_witness :
  Holds (runState ∅ runtimePath runtimeRun).1 runtimePath (Some (agentState 8 "second")).
Proof.
  pose proof (runtime_state_is_register ∅ runtimePath None runtimeRun) as Hreg.
  rewrite runtime_state_run in Hreg |- *. apply Hreg; [reflexivity|].
  repeat apply List.Forall_cons; [..|apply List.Forall_nil].
  - split; [intros tmp [= <-]; discriminate|]. intros b He. vm_compute in He. by injection He as <-.
  - split; [intros tmp [= <-]; discriminate|]. intros b He. vm_compute in He. by injection He as <-.
  - split; intros e He; discriminate He.
Defined.

(** [WriteRuntimeState] has no limit: a state that is too long is published, cannot
    be read, and stays when its process clears it. *)
Example long_runtime_state :
  let '(fs, rs) := runState ∅ runtimePath [Publish (temporary ".runtime-1.tmp") longState; Clear None None 9] in
  map is_ok rs = [true; false] ∧ option_map len (fs !! runtimePath) = Some 70000 ∧
  is_ok (LoadRuntimeState fs None runtimePath) = false.
Proof. vm_compute. done. Qed.

(** ** The task *)

#[local] Instance toyXml : XmlCodec := fun task => Ok (Exec_Command (Task_Exec task) ++ " " ++ Exec_Arguments (Task_Exec task))%string.

(** A scheduler: whether the task is there, and the commands so far. *)
Notation scheduler := (bool * list (list string))%type.

#[local] Instance toyScheduler : TaskScheduler scheduler := fun w args =>
  let log := w.2 ++ [args] in
  let missing := (EmptyString, Some (ErrorString "exit status 1", Some 1)) in
  if bool_decide (head args = Some "/Create"%string) then ((true, log), (EmptyString, None))
  else if w.1 then
    ((negb (bool_decide (head args = Some "/Delete"%string)), log), (EmptyString, None))
  else ((false, log), missing).

Definition spaced : InstallOptions :=
  mkInstallOptions "/opt/vibebridge" "C:\Users\Jo Doe\config dir\" EmptyString "/state" "/w" false.

Example spaced_arguments :
  joinSpace (map quoteWindowsArgument (taskArguments spaced)) =
    ("--background --tray --config " ++ String "034" ("C:\Users\Jo Doe\config dir\\" ++ String "034" " --service-state /state"))%string ∧
  quoteWindowsArgument (String "034" EmptyString) = String "034" ("\" ++ String "034" (String "034" EmptyString))%string.
Proof. vm_compute. done. Qed.

Lemma windows_arguments_roundtrip_witness :
  ∃ task content, xml_MarshalIndent task = Ok content ∧
    commandLineToArgv (Exec_Arguments (Task_Exec task)) = taskArguments spaced.
Proof.
  destruct (buildTaskDefinition spaced (Ok "S-1-5-21"%string)) as [definition|e] eqn:Hb;
    [|exfalso; revert Hb; vm_compute; intros Hb; discriminate Hb].
  destruct (windows_arguments_roundtrip spaced (Ok "S-1-5-21"%string) definition Hb) as [(task & content & Hx & _ & _ & Ha) _].
  - repeat (constructor; [vm_compute; reflexivity|]). constructor.
  - exists task, content. exact (conj Hx Ha).
Defined.

Definition tempCalls : TempCalls := mkTempCalls (Ok "/tmp/task.xml"%string) (Ok tt) (Ok tt) (Ok tt).

(** Installed, refused, replaced, removed. *)
Example task_commands :
  let install force w := installWindows Path.IsAbs w (mkInstallOptions "/opt/vibebridge" "/c" EmptyString "/state" "/w" force) (Ok "S"%string) tempCalls in
  let '(w, first) := install false (false, []) in
  let '(w, second) := install false w in
  let '(w, third) := install true w in
  let '(w, fourth) := uninstallWindows w in
  map is_ok [first; second; third; fourth] = [true; false; true; true] ∧
  map head w.2 = map Some ["/Query"; "/Create"; "/Run"; "/Query"; "/Query"; "/End"; "/Create"; "/Run"; "/Query"; "/End"; "/Delete"]%string ∧
  w.1 = false.
Proof. vm_compute. done. Qed.

(** ** The command *)

#[local] Existing Instance toy_json.
#[local] Instance toyManager : ServiceManager scheduler := windowsManager Path.IsAbs (Ok "S"%string) (Ok runtimePath) tempCalls.

Definition serviceTree : tree := <["/w/vibebridge"%string := KindOther]> example_tree.
Definition installEnv : InstallEnv :=
  mkInstallEnv (Ok "/w"%string) "sh" demo_environment (Ok tt) (Ok 2) (Ok ["{"; "}"]%byte)
    (fun name => bool_decide (name = "/bin/sh"%string)).
Definition installFlags : InstallFlags := mkInstallFlags "config.json" EmptyString false [].

Definition serviceInstalled : tree * scheduler * result unit :=
  runServiceInstall serviceTree (false, []) installFlags installEnv "/w/vibebridge".

Example service_installs : (serviceInstalled.1.2, serviceInstalled.2) =
  ((true, [["/Query"; "/TN"; TaskName]; ["/Create"; "/TN"; TaskName; "/XML"; "/tmp/task.xml"; "/F"];
     ["/Run"; "/TN"; TaskName]]%string), Ok tt).
Proof. vm_compute. reflexivity. Qed.


(** A binary below a directory of [go run] is refused. *)
Example go_run_refused :
  isTemporaryGoRunExecutable (Ok "/w"%string) "/tmp" "/tmp/GO-build123/b001/exe/vibebridge" = true ∧
  isTemporaryGoRunExecutable (Ok "/w"%string) "/tmp" "/opt/go-build/vibebridge" = false.
Proof. vm_compute. done. Qed.
