(* ===== verification/AgentManagementFacts.v ===== *)
(** * Who can change what the Agent trusts

    The handlers of [AgentManagement] beside the pairing connections of
    [PairingTransport]: who can make them act, what they do to the coordinator and
    to the identity, and what a revocation leaves behind. *)

From S2P Require Import Prelude.
From S2P Require Import Encoding.
From S2P Require Import SecureStore.
From S2P Require Import Ticket.
From S2P Require Import RelayClient.
From S2P Require Import RelayManager.
From S2P Require Import RateLimit.
From S2P Require Import DeviceIdentity.
From S2P Require Import DeviceIdentityFacts.
From S2P Require Import Pairing.
From S2P Require Import PairingFacts.
From S2P Require Import Handshake.
From S2P Require Import HandshakeFacts.
From S2P Require Import PairingFlow.
From S2P Require Import PairingFlowFacts.
From S2P Require Import PairingTransport.
From S2P Require Import PairingTransportFacts.
From S2P Require Import PairedSession.
From S2P Require Import GoNet.
From S2P Require Import AgentManagement.

Section AgentManagementFacts.
Context {crypto : IdentityCrypto} {noise : Noise} {tickets : TicketCrypto} {enc : TicketEncoder}.
Context {url : GoUrl} {phone : PhoneUrl} {codec : InvitationCodec} {qr : QrCode}.
Context `{!ProtoMsg HandshakeContext} `{!ProtoMsg PairingInitiatorPayload}
  `{!ProtoMsg PairingResponderPayload} `{!ProtoMsg PairingFinishPayload} `{!ProtoMsg PairingApproval}.
Context `{!JsonCodec envelope} `{!JsonCodec persistedState}.
Context `{!ProtoMsg HandshakeStart} `{!ProtoMsg PairingHandshakeResponse} `{!ProtoMsg PairingHandshakeFinish}.
Context `{!ProtoMsg SessionInitiatorPayload} `{!ProtoMsg SessionResponderPayload}.
Implicit Types (m : agentManagement) (e : ManagementEnv) (r : ManagementRequest).

(** ** Who may *)

(** The local user: from this computer, with the token. *)
Definition owner m e r : Prop :=
  isLocalMachineRemote (req_remote r) (env_addresses e) = true ∧ req_token r = token m.

Lemma authorize_owner m e r : authorizeLocalManagement m e r = None ↔ owner m e r.
Proof.
  unfold authorizeLocalManagement, owner. destruct (isLocalMachineRemote _ _); simpl; [|naive_solver].
  case_bool_decide; simpl; naive_solver.
Qed.

(** The answers that say nothing of the Agent. *)
Definition refusal (reply : Reply) : Prop :=
  ∃ status message, reply = HttpError status message ∧ status ∈ [401; 403; 405; 429].

Lemma authorize_refusal m e r reply : authorizeLocalManagement m e r = Some reply → refusal reply.
Proof.
  unfold authorizeLocalManagement. intros HA. repeat case_match; simplify_eq;
    eexists _, _; (split; [reflexivity|set_solver]).
Qed.

Lemma authorized_cases m e r serve :
  owner m e r ∧ authorized_only m e r serve = serve ∨
  ~ owner m e r ∧ ∃ reply, authorized_only m e r serve = (m, reply) ∧ refusal reply.
Proof.
  rewrite <- authorize_owner. unfold authorized_only.
  destruct (authorizeLocalManagement m e r) as [reply|] eqn:HA; [right|by left].
  split; [done|]. exists reply. split; [done|]. by eapply authorize_refusal.
Qed.

Lemma guarded_cases method m e r serve :
  owner m e r ∧ req_method r = method ∧ guarded method m e r serve = serve ∨
  (~ owner m e r ∨ req_method r ≠ method) ∧ ∃ reply, guarded method m e r serve = (m, reply) ∧ refusal reply.
Proof.
  unfold guarded. case_bool_decide as Hm; simpl.
  - destruct (authorized_cases m e r serve) as [[? Hs]|(? & ?)]; [by left|right; auto].
  - right. split; [auto|]. eexists. split; [reflexivity|]. eexists _, _. split; [reflexivity|set_solver].
Qed.

(** ** What the handlers do *)

(** What never changes. *)
Definition settings m : string * string * string := (token m, pairingBase m, listenAddress m).

(** The calls on the coordinator that leave the identity alone. *)
Definition benign (call : Call) : bool :=
  match call with
  | CallCurrent _ _ | CallReject _ _ _ | CallCreate _ _ _ _ _ => true
  | _ => false
  end.

(** What a request does to what the handlers share: nothing, calls that leave the
    identity alone, an approval or a revocation, the latter by the owner. *)
Inductive HandlerEffect m e r : Coordinator → Prop :=
  | effect_benign calls : forallb benign calls = true → (calls = [] ∨ owner m e r) →
      HandlerEffect m e r (foldl exec (flows m) calls)
  | effect_approve form : owner m e r → req_path r = localPairingApprovePath → req_method r = "POST"%string →
      req_form r = Ok form →
      HandlerEffect m e r (exec (flows m) (CallApprove (env_now e) (env_mnow e) (env_tnow e) (env_sys e) (form "flow_id"%string)))
  | effect_revoke form id : owner m e r → req_path r = localRevokePath → req_method r = "POST"%string →
      req_form r = Ok form → decode16 (form "device_id"%string) = Some id →
      HandlerEffect m e r ((flows m) <| PairingFlow.identity :=
        (Revoke (PairingFlow.identity (flows m)).1 (store_of m) (env_tnow e) (env_sys e) id).1 |>).

Lemma effect_none m e r : HandlerEffect m e r (flows m).
Proof. by apply (effect_benign m e r []); [|left]. Qed.

Lemma currentFlow_spec m e :
  let m' := (currentFlow m e).1 in
  settings m' = settings m ∧ relayManager m' = relayManager m ∧
  flows m' = exec (flows m) (CallCurrent (env_now e) (env_mnow e)).
Proof. unfold currentFlow. simpl. by split_and!. Qed.

Lemma createInvitation_spec m e message :
  let m' := (createInvitation m e message).1 in
  settings m' = settings m ∧ relayManager m' = relayManager m ∧
  flows m' = exec (flows m) (CallCreate [(TrimSuffixSlash (pairingBase m) ++ "/pairing/v1")%string]
    (agentDescriptor (store_of m)) (env_randomID e) (env_randomSecret e) (env_mnow e)).
Proof. unfold createInvitation. simpl. by destruct (Pairing.Create _ _ _ _ _ _). Qed.

Lemma pairingPage_effect m e r :
  owner m e r → settings (pairingPage m e).1 = settings m ∧ HandlerEffect m e r (flows (pairingPage m e).1).
Proof.
  intros Ho. unfold pairingPage. pose proof (currentFlow_spec m e) as Hc. destruct (currentFlow m e) as [m1 current].
  destruct Hc as (Hs & _ & Hf). simpl in Hs, Hf.
  assert (settings m1 = settings m ∧ HandlerEffect m e r (flows m1)) as Hsame.
  { split; [done|]. rewrite Hf. by apply (effect_benign m e r [CallCurrent (env_now e) (env_mnow e)]); [|right]. }
  destruct (Descriptor _); [|done]. destruct (Fingerprint _); [|done]. destruct (deviceRows _); [|done].
  destruct (_ && _); [|done]. clear Hsame.
  pose proof (createInvitation_spec m1 e "could not create pairing code") as Hcr.
  assert (∀ m2, settings m2 = settings m1 ∧ relayManager m2 = relayManager m1 ∧
    flows m2 = exec (flows m1) (CallCreate [(TrimSuffixSlash (pairingBase m1) ++ "/pairing/v1")%string]
      (agentDescriptor (store_of m1)) (env_randomID e) (env_randomSecret e) (env_mnow e)) →
    settings m2 = settings m ∧ HandlerEffect m e r (flows m2)) as Hdone.
  { intros m2 (Hs2 & _ & ->). rewrite Hf. split; [congruence|].
    by apply (effect_benign m e r [CallCurrent (env_now e) (env_mnow e); CallCreate _ _ _ _ _]); [|right]. }
  destruct (createInvitation m1 e _) as [m2 [invitation|err]]; by apply Hdone.
Qed.

Lemma pairingDecision_effect approve m e r :
  owner m e r → req_method r = "POST"%string → (approve = true → req_path r = localPairingApprovePath) →
  settings (pairingDecision approve m e r).1 = settings m ∧ HandlerEffect m e r (flows (pairingDecision approve m e r).1).
Proof.
  intros Ho Hm Hp. unfold pairingDecision. pose proof (effect_none m e r) as Hn.
  destruct (req_form r) as [form|] eqn:Hform; [|done]. destruct (decode16 _); [|done].
  destruct approve.
  - pose proof (effect_approve m e r form Ho (Hp eq_refl) Hm Hform) as HA. simpl in HA.
    by destruct (PairingFlow.Approve _ _ _ _ _ _) as [c res].
  - pose proof (effect_benign m e r [CallReject (env_now e) (env_mnow e) (form "flow_id"%string)] eq_refl (or_intror Ho)) as HR.
    simpl in HR. by destruct (PairingFlow.Reject _ _ _ _) as [c res].
Qed.

Lemma revokeDevice_effect m e r :
  owner m e r → req_method r = "POST"%string → req_path r = localRevokePath →
  settings (revokeDevice m e r).1 = settings m ∧ HandlerEffect m e r (flows (revokeDevice m e r).1).
Proof.
  intros Ho Hm Hp. unfold revokeDevice. pose proof (effect_none m e r) as Hn.
  destruct (req_form r) as [form|] eqn:Hform; [|done]. destruct (decode16 _) as [id|] eqn:Hid; [|done].
  pose proof (effect_revoke m e r form id Ho Hp Hm Hform Hid) as HR.
  by destruct (Revoke _ _ _ _ _) as [[fs store] res].
Qed.

Lemma relayProvision_effect m e r :
  settings (relayProvision m e r).1 = settings m ∧ flows (relayProvision m e r).1 = flows m.
Proof. unfold relayProvision. by repeat case_match. Qed.

Lemma serve_guarded method m e r serve :
  (owner m e r → req_method r = method → settings serve.1 = settings m ∧ HandlerEffect m e r (flows serve.1)) →
  settings (guarded method m e r serve).1 = settings m ∧ HandlerEffect m e r (flows (guarded method m e r serve).1).
Proof.
  intros Hs. destruct (guarded_cases method m e r serve) as [(Ho & Hm & ->)|(_ & reply & -> & _)]; [by apply Hs|].
  split; [done|apply effect_none].
Qed.

Lemma serve_effect m e r :
  settings (serveManagement m e r).1 = settings m ∧ HandlerEffect m e r (flows (serveManagement m e r).1).
Proof.
  pose proof (effect_none m e r) as Hn. unfold serveManagement.
  case_bool_decide; [apply serve_guarded; intros; by apply pairingPage_effect|].
  case_bool_decide.
  { apply serve_guarded. intros Ho _. unfold pairingStatus. pose proof (currentFlow_spec m e) as Hc.
    destruct (currentFlow m e) as [m1 current]. destruct Hc as (? & _ & Hf). simpl. split; [done|]. simpl in Hf. rewrite Hf.
    by apply (effect_benign m e r [CallCurrent (env_now e) (env_mnow e)]); [|right]. }
  case_bool_decide; [apply serve_guarded; intros; by apply pairingDecision_effect|].
  case_bool_decide; [apply serve_guarded; intros; by apply pairingDecision_effect|].
  case_bool_decide; [apply serve_guarded; intros; by apply revokeDevice_effect|].
  case_bool_decide.
  { destruct (rateLimitMiddleware _ _ _ _) as [limiter []]; [by split|].
    destruct (guarded_cases "POST" (m <| provisionLimiter := limiter |>) e r
      (relayProvision (m <| provisionLimiter := limiter |>) e r)) as [(_ & _ & ->)|(_ & reply & -> & _)]; [|by split].
    destruct (relayProvision_effect (m <| provisionLimiter := limiter |>) e r) as [-> ->]. by split. }
  case_bool_decide; [by apply serve_guarded|].
  case_bool_decide.
  { destruct (authorized_cases m e r (info m e)) as [[Ho ->]|(_ & reply & -> & _)]; [|by split].
    unfold info. destruct (deviceRows _); [|by split]. pose proof (currentFlow_spec m e) as Hc.
    destruct (currentFlow m e) as [m1 current]. destruct Hc as (? & _ & Hf). simpl. split; [done|]. simpl in Hf. rewrite Hf.
    by apply (effect_benign m e r [CallCurrent (env_now e) (env_mnow e)]); [|right]. }
  case_bool_decide.
  { destruct (authorized_cases m e r (pairingCode m e)) as [[Ho ->]|(_ & reply & -> & _)]; [|by split].
    unfold pairingCode. case_bool_decide; [by split|].
    pose proof (createInvitation_spec m e "could not create QR code") as (? & _ & Hf).
    assert (HandlerEffect m e r (flows (createInvitation m e "could not create QR code").1)) as HE.
    { rewrite Hf. by apply (effect_benign m e r [CallCreate _ _ _ _ _]); [|right]. }
    by destruct (createInvitation m e _) as [m2 [invitation|err]]. }
  by case_bool_decide.
Qed.

(** ** The Agent: its endpoints and its pairing connections *)

Record AgentWorld := mkAgentWorld {
  management : agentManagement;
  phones : list Connection;
}.

(** A request served, or a step of a connection; the calls on the coordinator that
    are not those of connections are those of requests. *)
Inductive AgentStep := RequestStep (e : ManagementEnv) (r : ManagementRequest) | PhoneStep (step : WorldStep).

Definition pairingWorld (a : AgentWorld) : PairingWorld := mkPairingWorld (flows (management a)) (phones a).

Definition isLocalStep (step : WorldStep) : bool := match step with Local _ => true | _ => false end.

Definition agent_step (a : AgentWorld) (step : AgentStep) : AgentWorld :=
  match step with
  | RequestStep e r => mkAgentWorld (serveManagement (management a) e r).1 (phones a)
  | PhoneStep step =>
      if isLocalStep step then a
      else let w := world_step (pairingWorld a) step in
           mkAgentWorld ((management a) <| flows := coordinator w |>) (connections w)
  end.

Definition agent_run (a : AgentWorld) (steps : list AgentStep) : AgentWorld := foldl agent_step a steps.

(** The identity file and the store of what it holds. *)
Definition trust (a : AgentWorld) : Files * Store := PairingFlow.identity (flows (management a)).

Lemma exec_benign c call : benign call = true → PairingFlow.identity (exec c call) = PairingFlow.identity c.
Proof.
  destruct call; intros Hb; try done; simpl; [apply expire_identity|].
  rewrite <- (expire_identity c now mnow). unfold Reject. by repeat case_match.
Qed.

Lemma execs_benign calls c : forallb benign calls = true → PairingFlow.identity (foldl exec c calls) = PairingFlow.identity c.
Proof.
  revert c. induction calls as [|call calls IH]; intros c Hb; [done|]. simpl in Hb. split_bool. simpl.
  rewrite IH by done. by apply exec_benign.
Qed.

Lemma benign_local call : benign call = true → localCall call = true.
Proof. by destruct call. Qed.

Lemma local_sound w call : localCall call = true → Sound w → Sound (w <| coordinator ::= fun c => exec c call |>).
Proof. intros Hl HS. pose proof (world_step_sound w (Local call) HS) as H. simpl in H. by rewrite Hl in H. Qed.

Lemma locals_sound calls c l :
  forallb benign calls = true → Sound (mkPairingWorld c l) → Sound (mkPairingWorld (foldl exec c calls) l).
Proof.
  revert c. induction calls as [|call calls IH]; intros c Hb HS; [done|]. simpl in Hb. split_bool. simpl.
  apply IH; [done|]. by apply (local_sound (mkPairingWorld c l)); [apply benign_local|].
Qed.

Lemma identity_sound c l v : Sound (mkPairingWorld c l) → Sound (mkPairingWorld (c <| PairingFlow.identity := v |>) l).
Proof.
  intros [Hw Hh]. split; [|done]. apply (local_inv _ _ Hw); [|by apply Move_same].
  destruct (wi_flow _ Hw) as [Hx Hl Hf]. split; [done|done|]. intros f Hc. by destruct (Hf f Hc).
Qed.

Lemma effect_sound m e r c l :
  HandlerEffect m e r c → Sound (mkPairingWorld (flows m) l) → Sound (mkPairingWorld c l).
Proof.
  intros HE HS. destruct HE as [calls Hb _|form _ _ _ _|form id _ _ _ _ _].
  - by apply locals_sound.
  - by apply (local_sound (mkPairingWorld (flows m) l)).
  - by apply identity_sound.
Qed.

Lemma agent_step_sound a step : Sound (pairingWorld a) → Sound (pairingWorld (agent_step a step)).
Proof.
  intros HS. destruct step as [e r|step]; simpl.
  - destruct (serve_effect (management a) e r) as [_ HE]. by eapply effect_sound.
  - destruct (isLocalStep step); [done|]. pose proof (world_step_sound _ step HS) as H.
    unfold pairingWorld. simpl. by destruct (world_step _ step).
Qed.

Lemma agent_run_sound steps a : Sound (pairingWorld a) → Sound (pairingWorld (agent_run a steps)).
Proof.
  unfold agent_run. revert a. induction steps as [|step steps IH]; intros a HS; [done|].
  by apply IH, agent_step_sound.
Qed.

Lemma agent_step_settings a step : settings (management (agent_step a step)) = settings (management a).
Proof. destruct step as [e r|step]; simpl; [by apply serve_effect|by destruct (isLocalStep step)]. Qed.

Lemma agent_run_settings steps a : settings (management (agent_run a steps)) = settings (management a).
Proof.
  unfold agent_run. revert a. induction steps as [|step steps IH]; intros a; [done|]. simpl.
  rewrite IH. apply agent_step_settings.
Qed.

(** ** The connections leave the identity alone *)

Definition identity_kept (g : Coordinator → Connection → Coordinator * Connection) : Prop :=
  ∀ c h, FlowInv c → PairingFlow.identity (g c h).1 = PairingFlow.identity c.

Lemma kept_on_connection w i g :
  FlowInv (coordinator w) → identity_kept g →
  PairingFlow.identity (coordinator (on_connection w i g)) = PairingFlow.identity (coordinator w).
Proof.
  intros Hi Hg. unfold on_connection. destruct (connections w !! i) as [h|]; [|done].
  specialize (Hg (coordinator w) h Hi). by destruct (g (coordinator w) h).
Qed.

Lemma onStart_kept (se : StartEnv) message outcome : identity_kept (fun c h => onStart c h se message outcome).
Proof.
  intros c h Hi. unfold onStart. destruct (phase h); try done. destruct (readPairingFrame message) as [start|]; [|done].
  destruct (Start_keeps c (start_now se) (start_mnow se) (start_created se) (start_random se) (start_reader se) (Some start) Hi)
    as [_ Hk].
  destruct (Start _ _ _ _ _ _ _) as [c' [[id response]|err]]; [|done]. by destruct (writePairingFrame _ _ _) as [? []].
Qed.

Lemma onFinish_kept now mnow message outcome : identity_kept (fun c h => onFinish c h now mnow message outcome).
Proof.
  intros c h Hi. unfold onFinish. destruct (phase h); try done. destruct (flowID h) as [id|]; [|done].
  destruct (readPairingFrame message) as [finish|]; [|done].
  destruct (Finish_keeps c now mnow id (Some (Finish_NoiseMessage finish)) Hi) as [_ Hk].
  destruct (Finish _ _ _ _ _) as [c' [s|err]]; [|done].
  destruct (Session_Encrypt s _) as [s1 [frame|err]]; [|done]. by destruct (writePairingBytes _ _ _) as [? []].
Qed.

Lemma onWait_kept : identity_kept onWait.
Proof.
  intros c h _. unfold onWait, Wait, receive. by repeat (case_match; simplify_eq/=).
Qed.

Lemma Cancel_kept (g : Coordinator → Connection → Connection) mnow :
  identity_kept (fun c h => match phase h, flowID h with
    | Deciding, Some id => (Cancel c mnow id, g c h) | _, _ => (c, h) end).
Proof. intros c h Hi. destruct (phase h), (flowID h); try done. by apply Cancel_keeps. Qed.

Lemma onReturn_kept mnow : identity_kept (fun c h => onReturn c h mnow).
Proof. intros c h Hi. unfold onReturn. destruct (phase h), (flowID h); try done. by apply Cancel_keeps. Qed.

Lemma phone_step_kept w step :
  FlowInv (coordinator w) → isLocalStep step = false →
  PairingFlow.identity (coordinator (world_step w step)) = PairingFlow.identity (coordinator w).
Proof.
  intros Hi Hl. destruct step; try done; simpl; apply kept_on_connection; try done.
  - apply onStart_kept.
  - apply onFinish_kept.
  - apply onWait_kept.
  - apply (Cancel_kept (fun c h => h <| phase := Returning |>)).
  - apply (Cancel_kept (fun c h => h <| sent ::= writePairingClose ClosePolicyViolation |> <| phase := Returning |>)).
  - apply onReturn_kept.
Qed.

(** The phone of a pending flow, whose handler is waiting for the decision. *)
Lemma pending_phone w f :
  WorldInv w → current (coordinator w) = Some f → pending f = true →
  ∃ i h, connections w !! i = Some h ∧ shows h f ∧ phase h ≠ Returned.
Proof.
  intros Hw Hf Hp. unfold pending in Hp. split_bool.
  destruct (wi_shown _ Hw f Hf) as (i & h & Hh & s & Hs & Hd & Hsnap); [done|].
  exists i, h. split_and!; [done|by exists s|]. intros Hr.
  destruct (co_session _ _ (wi_connection _ Hw i h Hh) s Hs) as [_ _ _ _ Hret].
  apply (Hret Hr). unfold channel_of. rewrite Hf. simpl. by rewrite Hd.
Qed.

(** ** An invitation in the middle of a pairing *)

Lemma Create_active (m m' : Pairing.Manager) hints d id sec now inv :
  Pairing.Create m hints d id sec now = (m', Ok inv) →
  ∃ a, active m' = Some a ∧ reservation a = None.
Proof. unfold Pairing.Create. intros HC. repeat case_match; simplify_eq. by eexists. Qed.

Lemma guarded_silent method m e r serve shown :
  (∀ m1, serve ≠ (m1, CodeReply shown)) → ∀ m1, guarded method m e r serve ≠ (m1, CodeReply shown).
Proof.
  intros Hs m1. destruct (guarded_cases method m e r serve) as [(_ & _ & ->)|(_ & reply & -> & ? & ? & -> & _)];
    [apply Hs|done].
Qed.

Lemma code_path m e r m1 shown :
  serveManagement m e r = (m1, CodeReply shown) → authorized_only m e r (pairingCode m e) = (m1, CodeReply shown).
Proof.
  intros HS. unfold serveManagement in HS.
  case_bool_decide.
  { apply guarded_silent in HS; [done|]. intros m2. unfold pairingPage.
    destruct (currentFlow m e) as [m3 current]. by repeat case_match. }
  case_bool_decide.
  { apply guarded_silent in HS; [done|]. intros m2. unfold pairingStatus. by destruct (currentFlow m e). }
  case_bool_decide; [apply guarded_silent in HS; [done|]; intros m2; unfold pairingDecision; by repeat case_match|].
  case_bool_decide; [apply guarded_silent in HS; [done|]; intros m2; unfold pairingDecision; by repeat case_match|].
  case_bool_decide; [apply guarded_silent in HS; [done|]; intros m2; unfold revokeDevice; by repeat case_match|].
  case_bool_decide.
  { destruct (rateLimitMiddleware _ _ _ _) as [limiter []]; [done|].
    apply guarded_silent in HS; [done|]; intros m2; unfold relayProvision; by repeat case_match. }
  case_bool_decide; [apply guarded_silent in HS; [done|]; intros m2; unfold relayStatus; by repeat case_match|].
  case_bool_decide.
  { unfold authorized_only, info in HS. destruct (authorizeLocalManagement m e r) eqn:HA.
    - apply authorize_refusal in HA as (? & ? & -> & _). done.
    - destruct (deviceRows _); [|done]. by destruct (currentFlow m e). }
  case_bool_decide; [done|]. by case_bool_decide.
Qed.

(** Only the code endpoint answers with a code, and what it did is [Create]. *)
Lemma code_reply m e r m1 shown :
  serveManagement m e r = (m1, CodeReply shown) →
  settings m1 = settings m ∧
  ∃ manager a, flows m1 = (flows m) <| invitations := manager |> ∧ active manager = Some a ∧ reservation a = None.
Proof.
  intros HS. destruct (serve_effect m e r) as [Hset _]. rewrite HS in Hset. split; [done|].
  pose proof (code_path _ _ _ _ _ HS) as HA.
  destruct (authorized_cases m e r (pairingCode m e)) as [[_ HE]|(_ & reply & HE & status & message & -> & _)];
    rewrite HE in HA; [|done].
  unfold pairingCode in HA. case_bool_decide; [done|]. unfold createInvitation in HA.
  destruct (Pairing.Create _ _ _ _ _ _) as [manager [inv|]] eqn:HC; [|done].
  destruct (Create_active _ _ _ _ _ _ _ _ HC) as (a & Ha & Hr).
  exists manager, a. split; [|done]. repeat case_match; by simplify_eq/=.
Qed.

(** A flow whose invitation has been replaced cannot be approved. *)
Lemma Approve_replaced c now mnow tnow sys id f a :
  approvable c now id f → id ≠ EmptyString → active (invitations c) = Some a → reservation a = None →
  ∃ c' err, PairingFlow.Approve c now mnow tnow sys id = (c', Err err) ∧
    (err = ErrInvitationExpired ∨ err = ErrInvitationRejected) ∧
    current c' = None ∧ PairingFlow.identity c' = PairingFlow.identity c.
Proof.
  intros (Hf & Hid & Hp & Hnow) Hne Ha Hr. unfold PairingFlow.Approve. rewrite (unexpired _ _ _ _ Hf Hnow).
  unfold flowLocked. rewrite Hf, bool_decide_false, bool_decide_true by done. simpl. rewrite Hp. simpl.
  unfold Pairing.Approve, validateReservationLocked. rewrite Ha, Hr.
  destruct (negb (mnow <? expiresAt a)); [eexists _, _; split_and!; [reflexivity|by left|done..]|].
  rewrite (bool_decide_false (None = Some _)), orb_true_r by done.
  eexists _, _. split_and!; [reflexivity|by right|done..].
Qed.

Lemma decode16_nonempty text raw : decode16 text = Some raw → text ≠ EmptyString.
Proof. by intros Hd ->. Qed.

Lemma page_leaves_flow m e f :
  current (flows m) = Some f → env_now e < Snap_ExpiresAt (flow_snapshot f) → flows (pairingPage m e).1 = flows m.
Proof.
  intros Hf Hnow. unfold pairingPage, currentFlow, Current. rewrite (unexpired _ _ _ _ Hf Hnow), Hf. simpl.
  rewrite andb_false_r. by repeat case_match.
Qed.

(** ** What a revocation leaves *)

Lemma View_State_of rec view : authorizationView rec = Ok view → View_State view = Rec_State rec.
Proof. unfold authorizationView. intros HV. by repeat case_match; simplify_eq. Qed.

(** The store knows a revoked device as revoked. *)
Lemma revoked_lookup st id (r : persistedAuthorization) view :
  ValidState st → devices st !! id = Some r → Rec_State r = STATE_REVOKED →
  findView id (St_Authorized st) = Ok view → View_State view = STATE_REVOKED.
Proof.
  intros [_ _ Hall Hnd _ _] Hr Hst HF. apply (findView_devices _ _ _ _ _ Hall) in HF as (rec & Hin & Hdev & Hview).
  apply list_elem_of_lookup in Hin as [i Hi]. pose proof (devices_of_lookup _ i _ Hnd Hi) as Hl.
  unfold devices in Hr. rewrite Hdev in Hl. rewrite (View_State_of _ _ Hview). congruence.
Qed.

(** Only the revoke endpoint redirects from its path, and then the store has revoked. *)
Lemma revoke_reply m e r m1 location form id :
  serveManagement m e r = (m1, Redirect location) → req_path r = localRevokePath → req_form r = Ok form →
  decode16 (form "device_id"%string) = Some id →
  owner m e r ∧ ∃ fs store view, Revoke (PairingFlow.identity (flows m)).1 (store_of m) (env_tnow e) (env_sys e) id
    = (fs, store, Ok view) ∧ store_of m1 = store.
Proof.
  intros HS Hp Hf Hid. unfold serveManagement in HS. rewrite Hp in HS. simpl in HS.
  destruct (guarded_cases "POST" m e r (revokeDevice m e r)) as [(Ho & _ & HE)|(_ & reply & HE & status & message & -> & _)];
    rewrite HE in HS; [|done].
  split; [done|]. unfold revokeDevice in HS. rewrite Hf, Hid in HS.
  destruct (Revoke _ _ _ _ _) as [[fs store] [view|err]]; [|by repeat case_match].
  injection HS as <- _. by exists fs, store, view.
Qed.

(** ** Properties *)

(** C7: only the local user can make the Agent act or speak.  A request that does
    not come from this computer, or does not carry the token, changes neither the
    pairings, nor the identity, nor the relay routes, whatever its path, method and
    body; and the answer is an error that says nothing, or comes from the pairing
    WebSocket or the application, which have doors of their own. *)
Theorem outsiders_change_nothing m e r :
  ~ owner m e r →
  let '(m', reply) := serveManagement m e r in
  flows m' = flows m ∧ relayManager m' = relayManager m ∧ settings m' = settings m ∧
  (refusal reply ∨ reply = PairingTransportReply ∨ reply = ApplicationReply).
Proof.
  intros Hn.
  assert (∀ method serve, let '(m', reply) := guarded method m e r serve in
    flows m' = flows m ∧ relayManager m' = relayManager m ∧ settings m' = settings m ∧
    (refusal reply ∨ reply = PairingTransportReply ∨ reply = ApplicationReply)) as Hg.
  { intros method serve. destruct (guarded_cases method m e r serve) as [(? & _)|(_ & reply & -> & ?)]; [done|].
    by split_and!; [..|left]. }
  assert (∀ serve, let '(m', reply) := authorized_only m e r serve in
    flows m' = flows m ∧ relayManager m' = relayManager m ∧ settings m' = settings m ∧
    (refusal reply ∨ reply = PairingTransportReply ∨ reply = ApplicationReply)) as Ha.
  { intros serve. destruct (authorized_cases m e r serve) as [[? _]|(_ & reply & -> & ?)]; [done|].
    by split_and!; [..|left]. }
  unfold serveManagement. do 5 (case_bool_decide; [apply Hg|]). case_bool_decide.
  - destruct (rateLimitMiddleware _ _ _ _) as [limiter []].
    { split_and!; try done. left. eexists _, _. split; [reflexivity|set_solver]. }
    destruct (guarded_cases "POST" (m <| provisionLimiter := limiter |>) e r
      (relayProvision (m <| provisionLimiter := limiter |>) e r)) as [(? & _)|(_ & reply & -> & ?)]; [done|].
    by split_and!; [..|left].
  - case_bool_decide; [apply Hg|]. do 2 (case_bool_decide; [apply Ha|]). case_bool_decide; split_and!; auto.
Qed.

(** C6: what the Agent trusts changes only by the hand of the local user.  Take an
    Agent just started, and any interleaving of requests with the steps of any
    number of pairing connections.  If a step changes the identity file or the
    store, it is a POST from this computer with the token; either to approve the
    flow in progress, which is pending and not expired, and whose phone is
    connected and shows its code, and the change is that the device of that flow is
    authorized; or to revoke, and the change is the revocation of the device
    named. *)
Theorem trust_follows_the_user listen tok interfaces ttl timeout v relay m0 steps step :
  newAgentHTTPHandler listen tok interfaces (initial ttl timeout v) relay = Ok m0 →
  let a := agent_run (mkAgentWorld m0 []) steps in
  trust (agent_step a step) ≠ trust a →
  ∃ e r form, step = RequestStep e r ∧ tok ≠ EmptyString ∧ req_token r = tok ∧
    isLocalMachineRemote (req_remote r) (env_addresses e) = true ∧ req_method r = "POST"%string ∧ req_form r = Ok form ∧
    (req_path r = localPairingApprovePath ∧
       (∃ f i h, approvable (flows (management a)) (env_now e) (form "flow_id"%string) f ∧
          phones a !! i = Some h ∧ shows h f ∧ phase h ≠ Returned ∧
          trust (agent_step a step) = (persistPeer (env_tnow e) (env_sys e) (flow_peer f) (trust a)).1)
     ∨ req_path r = localRevokePath ∧
       ∃ id, decode16 (form "device_id"%string) = Some id ∧
         trust (agent_step a step) = (Revoke (trust a).1 (trust a).2 (env_tnow e) (env_sys e) id).1).
Proof.
  intros Hnew a Hch. unfold newAgentHTTPHandler in Hnew. case_bool_decide as Htok; [done|].
  destruct (phonePairingBaseURL _ _) as [base|]; [|done]. injection Hnew as Hm0.
  assert (Sound (pairingWorld a)) as HS.
  { apply agent_run_sound. rewrite <- Hm0. apply (initial_sound ttl timeout v). }
  assert (token (management a) = tok) as Hta.
  { pose proof (agent_run_settings steps (mkAgentWorld m0 [])) as Hset. fold a in Hset. rewrite <- Hm0 in Hset.
    by injection Hset. }
  destruct step as [e r|step]; unfold trust in Hch; simpl in Hch.
  2: { destruct (isLocalStep step) eqn:Hl; [done|]. destruct Hch.
       apply (phone_step_kept _ _ (wi_flow _ (proj1 HS)) Hl). }
  destruct (serve_effect (management a) e r) as [_ HE]. unfold trust. simpl. rewrite <- Hta.
  remember (flows (serveManagement (management a) e r).1) as c eqn:Hc. clear Hc.
  destruct HE as [calls Hb _|form [? ?] Hp Hm Hf|form id [? ?] Hp Hm Hf Hid].
  - destruct Hch. by apply execs_benign.
  - destruct (Approve_keeps (flows (management a)) (env_now e) (env_mnow e) (env_tnow e) (env_sys e) (form "flow_id"%string)
      (wi_flow _ (proj1 HS))) as [_ [Hsame|(f & Hap & Hid)]]; [by destruct Hch|].
    destruct Hap as (Hcur & ? & Hp' & ?). destruct (pending_phone _ f (proj1 HS) Hcur Hp') as (i & h & ? & ? & ?).
    exists e, r, form. split_and!; try done; [by rewrite Hta|]. left. split; [done|]. exists f, i, h. by split_and!.
  - exists e, r, form. split_and!; try done; [by rewrite Hta|]. right. split; [done|]. exists id. split; [done|].
    unfold store_of. by destruct (Revoke _ _ _ _ _) as [[? ?] ?].
Qed.

(** Asking for a pairing code in the middle of a pairing makes its approval
    fail.  The code endpoint creates an invitation whatever is in progress, which
    takes away the reservation of the flow: when the user then approves it, the
    answer is an internal error, the flow is canceled and the device is not
    authorized.  The pairing page, which shows a code too, leaves a flow that has
    not expired alone. *)
Theorem code_request_spoils_pairing m e r m1 shown f e2 r2 form raw :
  serveManagement m e r = (m1, CodeReply shown) →
  approvable (flows m) (env_now e2) (form "flow_id"%string) f →
  owner m e2 r2 → req_path r2 = localPairingApprovePath → req_method r2 = "POST"%string → req_form r2 = Ok form →
  decode16 (form "flow_id"%string) = Some raw →
  (let '(m2, reply) := serveManagement m1 e2 r2 in
   reply = HttpError 500 "could not persist pairing decision" ∧ current (flows m2) = None ∧
   PairingFlow.identity (flows m2) = PairingFlow.identity (flows m)) ∧
  ∀ e3 r3, req_path r3 = localPairingPath → env_now e3 < Snap_ExpiresAt (flow_snapshot f) →
    flows (serveManagement m e3 r3).1 = flows m.
Proof.
  intros HS Hap Ho Hp Hm Hf Hraw. split.
  - destruct (code_reply _ _ _ _ _ HS) as (Hset & manager & a & Hfl & Ha & Hr).
    assert (owner m1 e2 r2) as Ho1 by (destruct Ho; split; [done|]; injection Hset; congruence).
    unfold serveManagement. rewrite Hp. simpl.
    destruct (guarded_cases "POST" m1 e2 r2 (pairingDecision true m1 e2 r2)) as [(_ & _ & ->)|([?|?] & _)]; [|done..].
    unfold pairingDecision. rewrite Hf, Hraw.
    destruct (Approve_replaced (flows m1) (env_now e2) (env_mnow e2) (env_tnow e2) (env_sys e2) (form "flow_id"%string) f a)
      as (c' & err & -> & Herr & Hcur & Hid);
      [by rewrite Hfl|by eapply decode16_nonempty|by rewrite Hfl|done|].
    simpl. rewrite Hid, Hfl. by destruct Herr as [->| ->].
  - intros e3 r3 Hp3 Hnow. unfold serveManagement. rewrite Hp3. simpl.
    destruct (guarded_cases "GET" m e3 r3 (pairingPage m e3)) as [(_ & _ & ->)|(_ & reply & -> & _)]; [|done].
    destruct Hap as [Hcur _]. by eapply page_leaves_flow.
Qed.

End AgentManagementFacts.
