(* ===== verification/Recover.v ===== *)
(** * Recovery ([cmd/vibebridge/recover.go])

    [vibebridge recover] works on the identity file while the Agent may be down or
    running: it lists the devices, revokes them all, or serves the pairing page to
    authorize a replacement.  It opens a store of its own on the file
    ([DeviceIdentity]); its pairing server is that of [AgentManagement].  What it
    prints is its result. *)

From S2P Require Import Prelude.
From S2P Require Import SecureStore.
From S2P Require Import Ticket.
From S2P Require Import DeviceIdentity.
From S2P Require Import DeviceIdentityFacts.
From S2P Require Import Pairing.
From S2P Require Import Handshake.
From S2P Require Import PairingFlow.
From S2P Require Import RelayClient.
From S2P Require Import RelayManager.
From S2P Require Import GoNet.
From S2P Require Import Startup.
From S2P Require Import AgentManagement.

(** ** The command line *)

Inductive RecoverMode := RecoverList | RecoverRevokeAll | RecoverAuthorizeNew.

Definition recoverMode (positional : list string) (list revokeAll authorizeNew : bool) : result RecoverMode :=
  if negb (bool_decide (positional = [])) then Err (ErrorString "unexpected positional arguments: %v")
  else match list, revokeAll, authorizeNew with
  | false, false, false => Err (ErrorString "specify one of --list, --revoke-all, or --authorize-new")
  | true, false, false => Ok RecoverList
  | false, true, false => Ok RecoverRevokeAll
  | false, false, true => Ok RecoverAuthorizeNew
  | _, _, _ => Err (ErrorString "--list, --revoke-all, and --authorize-new are mutually exclusive")
  end.

Definition recoverPath (identityStorePath : string) (defaultPath : result string) : result string :=
  if bool_decide (identityStorePath = EmptyString) then
    match defaultPath with Err e => Err (ErrorWrap "resolve device identity path" e) | Ok p => Ok p end
  else Ok identityStorePath.

Section Recover.
Context {crypto : IdentityCrypto}.
Context `{!JsonCodec envelope} `{!JsonCodec persistedState}.

(** ** Listing *)

(** A line of the list; [None] is a fingerprint error. *)
Record listedDevice := mkListed { Listed_Name : string; Listed_Platform : string; Listed_Revoked : bool; Listed_Fingerprint : string }.

Definition listedLine (device : AuthorizedDevice) : option listedDevice :=
  match Fingerprint (Some (View_Device device)), Signed_Descriptor (View_Device device) with
  | Ok fingerprint, Some d =>
      Some (mkListed (Desc_DisplayName d) (Desc_Platform d) (View_State device =? STATE_REVOKED) fingerprint)
  | _, _ => None
  end.

Definition recoverList (fs : Files) (sysRead : option error) (p : string) : result (Z * list (option listedDevice)) :=
  match Load fs sysRead p with
  | Err e => Err (ErrorWrap "open identity store" e)
  | Ok store =>
      match AuthorizedDevices store true with
      | Err e => Err (ErrorWrap "list devices" e)
      | Ok devices => Ok (RevocationEpoch store, listedLine <$> devices)
      end
  end.

(** ** Revoking *)

(** The clock and the system calls of the revocations, in order; what they give
    may depend on the files. *)
Definition RevokeCalls : Type := nat → Files → Z * Syscalls.

Fixpoint revokeEach (calls : RevokeCalls) (n : nat) (fs : Files) (store : Store) (devices : list AuthorizedDevice)
    : Files * Store * result unit :=
  match devices with
  | [] => (fs, store, Ok tt)
  | device :: rest =>
      match Signed_Descriptor (View_Device device) with
      | None => (fs, store, Err nilPointer)
      | Some d =>
          let '(now, sys) := calls n fs in
          match Revoke fs store now sys (Desc_DeviceId d) with
          | (fs, store, Err e) => (fs, store, Err (ErrorWrap "revoke device %x" e))
          | (fs, store, Ok _) => revokeEach calls (S n) fs store rest
          end
      end
  end.

Inductive RevokeReport := NothingToRevoke | AllRevoked (count : nat) (epoch : Z).

(** [stat] is the error of [os.Stat]. *)
Definition recoverRevokeAll (fs : Files) (confirmed : bool) (stat : option error) (sysRead : option error)
    (sys : Syscalls) (lc : LockCalls) (g : Generated) (calls : RevokeCalls) (p : string)
    : Files * result RevokeReport :=
  if negb confirmed then (fs, Err (ErrorString "confirmation required"))
  else match stat with
  | Some e => (fs, Err (ErrorWrap "identity store not found at %s" e))
  | None =>
      match LoadOrCreate fs sysRead sys lc p EmptyString EmptyString g with
      | (fs, Err e) => (fs, Err (ErrorWrap "open identity store" e))
      | (fs, Ok store) =>
          match AuthorizedDevices store false with
          | Err e => (fs, Err (ErrorWrap "list authorized devices" e))
          | Ok [] => (fs, Ok NothingToRevoke)
          | Ok devices =>
              match revokeEach calls 0 fs store devices with
              | (fs, _, Err e) => (fs, Err e)
              | (fs, store, Ok _) => (fs, Ok (AllRevoked (length devices) (RevocationEpoch store)))
              end
          end
      end
  end.

(** ** Authorizing a replacement *)

Definition authorizedDeviceCount (store : Store) : nat :=
  match AuthorizedDevices store false with Err _ => 0%nat | Ok l => length l end.

(** A tick of the poll: [None] to go on, or the device announced and the end. *)
Definition recoverPoll (initialCount : nat) (store : Store) : option (option (string * string)) :=
  if (initialCount <? authorizedDeviceCount store)%nat then
    Some match AuthorizedDevices store false with
         | Err _ => None
         | Ok devices =>
             match List.last (Some <$> devices) None with
             | None => None
             | Some device => (fun d => (Desc_DisplayName d, Desc_Platform d)) <$> Signed_Descriptor (View_Device device)
             end
         end
  else None.

Context {noise : Noise} {tickets : TicketCrypto} {url : GoUrl} {phone : PhoneUrl}.
Context `{!ProtoMsg HandshakeContext} `{!ProtoMsg PairingInitiatorPayload}
  `{!ProtoMsg PairingResponderPayload} `{!ProtoMsg PairingFinishPayload} `{!ProtoMsg PairingApproval}.

(** The pairing server, whose application answers 503; it is told the address of
    the command line, not that of the listener. *)
Definition recoverAuthorizeNew (fs : Files) (stat : option error) (sysRead : option error) (sys : Syscalls)
    (lc : LockCalls) (g : Generated) (p addr : string) (token : result string) (interfaces : result (list Interface))
    : Files * result agentManagement :=
  match stat with
  | Some e => (fs, Err (ErrorWrap "identity store not found at %s" e))
  | None =>
      match LoadOrCreate fs sysRead sys lc p EmptyString EmptyString g with
      | (fs, Err e) => (fs, Err (ErrorWrap "open identity store" e))
      | (fs, Ok store) =>
          (fs, match Pairing.New true 0 with
               | Err e => Err (ErrorWrap "initialize pairing manager" e)
               | Ok manager =>
                   match PairingFlow.New manager (fs, store) 0 with
                   | Err e => Err (ErrorWrap "initialize pairing flow coordinator" e)
                   | Ok flows =>
                       match token with
                       | Err e => Err (ErrorWrap "create session token" e)
                       | Ok token =>
                           match newAgentHTTPHandler addr token interfaces flows None with
                           | Err e => Err (ErrorWrap "configure recovery handler" e)
                           | Ok management => Ok management
                           end
                       end
                   end
               end)
      end
  end.

(** The URLs it prints: those of the application. *)
Definition recoveryURLs (listenAddress token : string) (interfaces : result (list Interface)) : list string :=
  match accessURLs listenAddress token interfaces with Ok urls => urls | Err _ => [] end.
End Recover.

(** * What recovery does to the identity

    [recover --revoke-all] leaves no device authorized, or says that it failed; and
    an Agent that runs meanwhile undoes it. *)

Section RecoverFacts.
Context {crypto : IdentityCrypto} {laws : IdentityLaws}.
Context `{!JsonCodec envelope} `{!JsonCodec persistedState}.
Context `{!JsonLaws envelope written} `{!JsonLaws persistedState (fun st => validateState st = Ok tt)}.

(** ** The devices to revoke *)

Definition idOfView (view : AuthorizedDevice) : bytes :=
  default [] (Desc_DeviceId <$> Signed_Descriptor (View_Device view)).

Definition unrevoked (rs : list persistedAuthorization) : list persistedAuthorization :=
  filter (fun r => Rec_State r ≠ STATE_REVOKED) rs.

Lemma collect_ids counter epoch rs :
  Forall (RecordOk counter epoch) rs →
  ∃ views, collectViews false rs = Ok views ∧
    Forall (fun v => is_Some (Signed_Descriptor (View_Device v))) views ∧
    idOfView <$> views = device_of <$> unrevoked rs.
Proof.
  induction rs as [|r rs IH]; intros Hall; [by exists []|]. apply Forall_cons in Hall as [Hr Hall].
  destruct (IH Hall) as (views & Hv & Hd & Hids). simpl. unfold unrevoked. rewrite filter_cons.
  destruct (Rec_State r =? STATE_REVOKED) eqn:Hst.
  - rewrite decide_False by lia. by exists views.
  - rewrite decide_True by lia. destruct (record_view _ _ _ Hr) as (s & d & Hs & Hsd & Hdev & _).
    unfold authorizationView. rewrite Hs. simpl. rewrite Hv. eexists. split; [reflexivity|]. split.
    + constructor; [by eexists|done].
    + simpl. f_equal; [|done]. unfold idOfView. simpl. by rewrite Hsd, Hdev.
Qed.

Lemma unrevoked_nodup rs : NoDup (device_of <$> rs) → NoDup (device_of <$> unrevoked rs).
Proof. intros Hnd. eapply sublist_NoDup; [exact Hnd|]. apply fmap_sublist, sublist_filter. Qed.

Lemma unrevoked_spec st id :
  ValidState st → id ∈ device_of <$> unrevoked (St_Authorized st) ↔
  ∃ r, devices st !! id = Some r ∧ Rec_State r ≠ STATE_REVOKED.
Proof.
  intros [_ _ _ Hnd _ _]. unfold unrevoked, devices. rewrite list_elem_of_fmap. split.
  - intros (r & -> & [Hst Hr]%list_elem_of_filter). exists r. split; [|done].
    apply list_elem_of_lookup in Hr as [i Hi]. by eapply devices_of_lookup.
  - intros (r & [Hr Hdev]%devices_of_elem & Hst). exists r. split; [done|]. by apply list_elem_of_filter.
Qed.

(** ** Revoking them *)

(** The revocation of a device that is not revoked. *)
Lemma Revoke_one fs store now sys id r0 fs' store' res :
  Synced fs store → FreshTemp fs sys (path store) → now ≠ zeroTime →
  devices (state store) !! id = Some r0 → Rec_State r0 ≠ STATE_REVOKED →
  Revoke fs store now sys id = (fs', store', res) →
  Synced fs' store' ∧ Grows (state store) (state store') ∧ path store' = path store ∧
  match res with
  | Ok _ => St_RevocationEpoch (state store') = St_RevocationEpoch (state store) + 1 ∧
      loadState fs' None (path store) = Ok (state store') ∧
      ∃ r, devices (state store') = <[id := r]> (devices (state store)) ∧ Rec_State r = STATE_REVOKED
  | Err _ => state store' = state store
  end.
Proof.
  intros Hs Hf Hnow Hr Hst HR. destruct (Revoke_step _ _ _ _ _ _ _ _ Hs Hf Hnow HR) as [Hs' Hg [Hp _] Hdur].
  split_and!; [done..|].
  destruct (decide (len id = DeviceIDBytes)) as [Hid|Hid].
  2:{ unfold Revoke in HR. destruct (negb _) eqn:Hn; [|lia]. by simplify_eq. }
  pose proof (Revoke_verdict fs store now sys id (sy_valid _ _ Hs) Hnow Hid) as HV.
  unfold revokeVerdict in HV. rewrite Hr, (proj2 (Z.eqb_neq _ _) Hst) in HV.
  destruct (_ || _); [destruct HV as [e HV]; rewrite HV in HR; by simplify_eq|].
  destruct HV as (r1 & next & view & _ & Hup & He & _ & HV). rewrite HV in HR.
  unfold saved in HR. destruct (saveState fs sys (path store) next) as [fs1 [[]|e]]; simplify_eq; [|done].
  simpl in *. split; [done|]. split; [|eexists; split; [apply Hup|done]].
  destruct (Hdur eq_refl) as [Heq|?]; [|done]. rewrite Heq in He. lia.
Qed.

Definition FreshCalls (calls : RevokeCalls) (p : string) : Prop :=
  ∀ n fs, FreshTemp fs (calls n fs).2 p ∧ (calls n fs).1 ≠ zeroTime.

Lemma revokeEach_spec calls views n fs store fs' store' res :
  Synced fs store → FreshCalls calls (path store) →
  Forall (fun v => is_Some (Signed_Descriptor (View_Device v))) views → NoDup (idOfView <$> views) →
  (∀ id, id ∈ idOfView <$> views → ∃ r, devices (state store) !! id = Some r ∧ Rec_State r ≠ STATE_REVOKED) →
  revokeEach calls n fs store views = (fs', store', res) →
  Synced fs' store' ∧ Grows (state store) (state store') ∧ path store' = path store ∧
  (∀ id, id ∉ idOfView <$> views → devices (state store') !! id = devices (state store) !! id) ∧
  (res = Ok tt →
    (views ≠ [] → loadState fs' None (path store) = Ok (state store')) ∧
    St_RevocationEpoch (state store') = St_RevocationEpoch (state store) + len views ∧
    ∀ id, id ∈ idOfView <$> views → ∃ r, devices (state store') !! id = Some r ∧ Rec_State r = STATE_REVOKED).
Proof.
  revert n fs store. induction views as [|v views IH]; intros n fs store Hs Hfresh Hdesc Hnd Hin HE.
  { simpl in HE. simplify_eq. split_and!; try done. intros _. split_and!; [done|unfold len; simpl; lia|]. intros id Hid.
    by apply not_elem_of_nil in Hid. }
  apply Forall_cons in Hdesc as [[d Hd] Hdesc]. simpl in HE. rewrite Hd in HE.
  assert (idOfView v = Desc_DeviceId d) as Hidv by (unfold idOfView; by rewrite Hd). rewrite !fmap_cons, Hidv in *.
  apply NoDup_cons in Hnd as [Hnot Hnd]. destruct (Hin (Desc_DeviceId d)) as (r0 & Hr0 & Hst0); [set_solver|].
  destruct (Hfresh n fs) as [Hf Hnow]. destruct (calls n fs) as [now sys]. simpl in Hf, Hnow.
  destruct (Revoke fs store now sys (Desc_DeviceId d)) as [[fs1 store1] r1] eqn:HR.
  destruct (Revoke_one _ _ _ _ _ _ _ _ _ Hs Hf Hnow Hr0 Hst0 HR) as (Hs1 & Hg1 & Hp1 & Hr1).
  destruct r1 as [view|e].
  2: { simplify_eq. split_and!; try done. intros id _. by rewrite Hr1. }
  destruct Hr1 as (He1 & Hl1 & r & Hdev & Hst).
  destruct (IH (S n) fs1 store1) as (Hs2 & Hg2 & Hp2 & Hsame & Hok); try done.
  { by rewrite Hp1. }
  { intros id Hid. rewrite Hdev, lookup_insert_ne by set_solver. apply Hin. set_solver. }
  split_and!; [done|by etrans|congruence| |].
  - intros id Hid. rewrite Hsame by set_solver. rewrite Hdev. apply lookup_insert_ne. set_solver.
  - intros Hres. destruct (Hok Hres) as (Hl2 & He2 & Hrev). split_and!.
    + intros _. destruct views as [|v2 views]; [|rewrite <- Hp1; by apply Hl2]. simpl in HE. by simplify_eq.
    + rewrite He2, He1. unfold len. simpl. lia.
    + intros id [->|Hid]%elem_of_cons; [|by apply Hrev]. rewrite Hsame by done. exists r.
      by rewrite Hdev, lookup_insert_eq.
Qed.

(** A file that holds a valid state, opened. *)
Lemma opened_synced fs fs1 p st :
  loadState fs None p = Ok st → ValidState st → fs1 !! p = fs !! p → Synced fs1 (mkStore p st false).
Proof.
  intros Hl Hv He. split; [done|]. exists st. simpl. rewrite (loadState_ext fs) by done. by split_and!.
Qed.

(** What the command leaves on disk. *)
Definition Recovered (st st' : persistedState) (report : RevokeReport) : Prop :=
  let count := length (unrevoked (St_Authorized st)) in
  dom (devices st') = dom (devices st) ∧
  (∀ id r, devices st' !! id = Some r → Rec_State r = STATE_REVOKED) ∧
  St_RevocationEpoch st' = St_RevocationEpoch st + Z.of_nat count ∧
  report = if bool_decide (count = 0%nat) then NothingToRevoke else AllRevoked count (St_RevocationEpoch st').

Lemma recovered_states st st' :
  ValidState st →
  (∀ id, id ∉ device_of <$> unrevoked (St_Authorized st) → devices st' !! id = devices st !! id) →
  (∀ id, id ∈ device_of <$> unrevoked (St_Authorized st) → ∃ r, devices st' !! id = Some r ∧ Rec_State r = STATE_REVOKED) →
  dom (devices st') = dom (devices st) ∧ ∀ id r, devices st' !! id = Some r → Rec_State r = STATE_REVOKED.
Proof.
  intros Hv Hsame Hrev. split.
  - apply set_eq. intros id. rewrite !elem_of_dom.
    destruct (decide (id ∈ device_of <$> unrevoked (St_Authorized st))) as [Hid|Hid]; [|by rewrite Hsame].
    destruct (Hrev id Hid) as (r & -> & _). apply (unrevoked_spec st id Hv) in Hid as (r' & -> & _).
    split; intros _; by eexists.
  - intros id r Hr. destruct (decide (id ∈ device_of <$> unrevoked (St_Authorized st))) as [Hid|Hid].
    + destruct (Hrev id Hid) as (r' & ? & ?). by simplify_eq.
    + destruct (decide (Rec_State r = STATE_REVOKED)) as [|Hst]; [done|]. rewrite Hsame in Hr by done.
      destruct Hid. apply unrevoked_spec; [done|]. by exists r.
Qed.

Lemma recoverRevokeAll_spec fs confirmed stat sysRead sys lc g calls p st fs' res :
  loadState fs None p = Ok st → ValidState st →
  (∀ e, sysRead = Some e → errors_is e os_ErrNotExist = false) → FreshCalls calls p →
  recoverRevokeAll fs confirmed stat sysRead sys lc g calls p = (fs', res) →
  ∃ st', loadState fs' None p = Ok st' ∧ ValidState st' ∧ Grows st st' ∧
    match res with Ok report => Recovered st st' report | Err _ => True end.
Proof.
  intros Hl Hv Hsys Hfresh HR. unfold recoverRevokeAll in HR.
  destruct (negb confirmed); [simplify_eq; by exists st|]. destruct stat; [simplify_eq; by exists st|].
  destruct (LoadOrCreate _ _ _ _ _ _ _ _) as [fs1 res1] eqn:HL.
  destruct (LoadOrCreate_existing _ _ _ _ _ _ _ _ _ _ _ Hl Hsys HL) as [Hsame Hstore].
  assert (loadState fs1 None p = Ok st) as Hl1 by by rewrite (loadState_ext fs).
  destruct res1 as [store|]; [|simplify_eq; by exists st]. rewrite (Hstore store eq_refl) in *.
  pose proof (opened_synced _ _ _ _ Hl Hv Hsame) as Hs1.
  destruct (collect_ids _ _ _ (vs_records _ Hv)) as (views & Hviews & Hdesc & Hids).
  unfold AuthorizedDevices in HR. simpl in HR. rewrite Hviews in HR.
  assert (length views = length (unrevoked (St_Authorized st))) as Hlen.
  { by rewrite <- (length_fmap idOfView), Hids, length_fmap. }
  destruct views as [|v views]; [simplify_eq; exists st; split_and!; try done|].
  - destruct (recovered_states st st Hv) as [Hd Hr]; [done| |].
    { intros id Hid. rewrite <- Hids in Hid. by apply not_elem_of_nil in Hid. }
    unfold Recovered. rewrite <- Hlen. split_and!; [done|done|simpl; lia|done].
  - destruct (revokeEach _ _ _ _ _) as [[fs2 store2] res2] eqn:HE.
    destruct (revokeEach_spec calls (v :: views) 0 _ _ fs2 store2 res2 Hs1 Hfresh Hdesc) as (Hs2 & Hg2 & Hp2 & Hother & Hok); [| |done|].
    { rewrite Hids. by apply unrevoked_nodup, vs_nodup. }
    { intros id. rewrite Hids. by apply unrevoked_spec. }
    rewrite Hids in *. simpl in *. destruct res2 as [[]|e]; injection HR as <- <-.
    + destruct (Hok eq_refl) as (Hl2 & He2 & Hrev). exists (state store2).
      split_and!; [by apply Hl2|by destruct Hs2|done|]. destruct (recovered_states st (state store2) Hv) as [Hd Hr]; try done.
      unfold Recovered. rewrite <- Hlen. split_and!; [done|done|done|]. simpl. done.
    + destruct Hs2 as [_ (st' & Hl2 & Hv2 & Hg')]. rewrite Hp2 in Hl2. exists st'. split_and!; [done|done|by etrans|done].
Qed.

(** ** Properties *)

(** C36: after [recover --revoke-all] has succeeded, no device is authorized.  On an
    identity file that holds a valid state, whatever the system calls do, the file
    holds a valid state afterwards that has forgotten no device and undone no
    revocation; if the command reports success, every device it knew is revoked,
    each revocation has moved the epoch by one, and the count and the epoch it
    reports are those of the file.  Without confirmation it touches nothing. *)
Theorem recover_revokes_all fs confirmed stat sysRead sys lc g calls p st fs' res :
  loadState fs None p = Ok st → ValidState st →
  (∀ e, sysRead = Some e → errors_is e os_ErrNotExist = false) → FreshCalls calls p →
  recoverRevokeAll fs confirmed stat sysRead sys lc g calls p = (fs', res) →
  (∃ st', loadState fs' None p = Ok st' ∧ ValidState st' ∧ Grows st st' ∧
     match res with Ok report => Recovered st st' report | Err _ => True end) ∧
  (confirmed = false → fs' = fs ∧ is_ok res = false).
Proof.
  intros Hl Hv Hsys Hfresh HR. split; [by eapply recoverRevokeAll_spec|]. intros ->. unfold recoverRevokeAll in HR.
  simpl in HR. by simplify_eq.
Qed.

(** An Agent that runs while [recover --revoke-all] is used undoes it.  The Agent
    does not see the revocations, which are in the file only; when it next
    authorizes a device, it saves its own state over the file: every other device
    that was authorized is authorized again, on disk, and the revocation epoch has
    gone back. *)
Theorem running_agent_undoes_recovery fs agent stat sysRead sys lc g calls fs1 report
    now sysA signed fs2 agent' view id r :
  loadState fs None (path agent) = Ok (state agent) → ValidState (state agent) →
  (∀ e, sysRead = Some e → errors_is e os_ErrNotExist = false) → FreshCalls calls (path agent) →
  recoverRevokeAll fs true stat sysRead sys lc g calls (path agent) = (fs1, Ok report) →
  FreshTemp fs1 sysA (path agent) → now ≠ zeroTime →
  Authorize fs1 agent now sysA (Some signed) = (fs2, agent', Ok view) → state agent' ≠ state agent →
  devices (state agent) !! id = Some r → Rec_State r = STATE_AUTHORIZED →
  (∀ d, Signed_Descriptor signed = Some d → Desc_DeviceId d ≠ id) →
  ∃ st1 r1 st2, loadState fs1 None (path agent) = Ok st1 ∧ devices st1 !! id = Some r1 ∧ Rec_State r1 = STATE_REVOKED ∧
    loadState fs2 None (path agent) = Ok st2 ∧ devices st2 !! id = Some r ∧
    St_RevocationEpoch st2 < St_RevocationEpoch st1.
Proof.
  intros Hl Hv Hsys Hfresh HR Hf Hnow HA Hch Hr Hst Hother.
  destruct (recoverRevokeAll_spec _ _ _ _ _ _ _ _ _ _ _ _ Hl Hv Hsys Hfresh HR)
    as (st1 & Hl1 & Hv1 & Hg1 & Hdom & Hrev & Hepoch & _).
  destruct (devices st1 !! id) as [r1|] eqn:Hr1.
  2: { apply not_elem_of_dom in Hr1. destruct Hr1. rewrite Hdom. apply elem_of_dom. by eexists. }
  destruct (Authorize_presentable fs1 agent now sysA (Some signed)) as [(s & d & encoded & [= ->] & Hp)|[e He]];
    [|by rewrite He in HA].
  pose proof (Authorize_verdict fs1 agent now sysA s d encoded Hv Hnow Hp) as HV.
  destruct (authorizeVerdict (state agent) s d); [destruct HV as [e HV]|destruct HV as (? & _ & HV)|];
    [by rewrite HV in HA|rewrite HV in HA; by simplify_eq|].
  destruct HV as (next & view' & Hup & Hep & _ & HV). rewrite HV in HA. unfold saved in HA.
  destruct (saveState fs1 sysA (path agent) next) as [fs3 [[]|e]] eqn:Hsave; simplify_eq.
  assert (validateState next = Ok tt) as Hok.
  { pose proof (up_valid _ _ _ _ Hup) as Hvn. apply validateState_iff; [apply Hvn..|done]. }
  destruct (saveState_outcomes _ _ _ _ _ _ Hf Hok Hsave) as [[_ ?]|Hl2]; [done|].
  exists st1, r1, next. split_and!; [done|done|by eapply Hrev|done| |].
  - rewrite (up_devices _ _ _ _ Hup), lookup_insert_ne; [done|]. destruct Hp as [Hd _]. by apply Hother.
  - rewrite Hep, Hepoch. assert (id ∈ device_of <$> unrevoked (St_Authorized (state agent))) as Hin.
    { apply unrevoked_spec; [done|]. exists r. rewrite Hst. done. }
    destruct (unrevoked (St_Authorized (state agent))); [by apply not_elem_of_nil in Hin|]. simpl. lia.
Qed.
End RecoverFacts.
