(* ===== verification/Tray.v ===== *)
(** * The system tray ([cmd/vibebridge/tray.go], [tray_windows.go])

    The tray icon is a client of the Agent in its own process: it asks for the
    status of the session and of the pairing ([AgentManagement]), shows the code of
    the phone, and posts the user's decision.  Responses are the outcomes of the
    requests; encoding/json is the class [JsonCodec].  The menu is the state of the
    loop of [runAgentTray]; what it does to the desktop is not modelled. *)

From S2P Require Import Prelude.
From S2P Require Import Utf8.
From S2P Require Import SessionServer.
From S2P Require Import Encoding.
From S2P Require Import SecureStore.
From S2P Require Import Ticket.
From S2P Require Import RelayClient.
From S2P Require Import RelayManager.
From S2P Require Import DeviceIdentity.
From S2P Require Import Pairing.
From S2P Require Import Handshake.
From S2P Require Import PairingFlow.
From S2P Require Import PairingFlowFacts.
From S2P Require Import PairingTransport.
From S2P Require Import PairingTransportFacts.
From S2P Require Import PairedSession.
From S2P Require Import GoNet.
From S2P Require Import Startup.
From S2P Require Import AgentManagement.
From S2P Require Import AgentManagementFacts.

(** ** The addresses *)

(** [url.URL.String] for a URL with a scheme, a host, a path of plain characters and
    a query: what the host may hold unescaped. *)
Definition hostChar (n : Z) : bool :=
  unreserved n || bool_decide (ascii_of_nat (Z.to_nat n) ∈ list_ascii_of_string "!$&'()*+,;=:[]<>") || (n =? 34).

Fixpoint escapeHost (s : string) : string :=
  match s with
  | EmptyString => EmptyString
  | String c s' =>
      if hostChar (ascii_val c) then String c (escapeHost s')
      else ("%" ++ upperHex (hexEncode [byte_of_ascii c]) ++ escapeHost s')%string
  end.

Definition agentURL (host path token : string) : string :=
  ("http://" ++ escapeHost host ++ path ++ "?token=" ++ QueryEscape token)%string.

(** The host the tray reaches an Agent at that listens on [listen]. *)
Definition trayHost (listen : string) : result string :=
  match SplitPort listen with
  | None => Err errSplit
  | Some (host, port) =>
      Ok (JoinHostPort (if bool_decide (host = EmptyString) || isWildcardHost host then "127.0.0.1"%string else host) port)
  end.

Definition trayURLs (listen token : string) : result (string * string * string) :=
  match trayHost listen with
  | Err e => Err e
  | Ok host => Ok (agentURL host "/" token, agentURL host "/agent/pair" token, agentURL host "/status" token)
  end.

Definition trayPairingURLs (listen token : string) : result (string * string * string) :=
  match trayHost listen with
  | Err e => Err e
  | Ok host => Ok (agentURL host localPairingStatusPath token, agentURL host localPairingApprovePath token,
                   agentURL host localPairingRejectPath token)
  end.

Record agentTrayOptions := mkTrayOptions {
  AppURL : string; PairingURL : string; StatusURL : string;
  PairingStatusURL : string; PairingApproveURL : string; PairingRejectURL : string;
  HasRequestStop : bool;
  StatusPeriod : Z;
}.

(** [url.ParseRequestURI]: the host and the host name of a URL with its scheme. *)
Record RequestURI := mkRequestURI { URI_Scheme : string; URI_Host : string; URI_Hostname : string }.
Class UriParser := url_ParseRequestURI : string → result RequestURI.

Section Validate.
Context {parser : UriParser}.

Definition validateTrayURL (addresses : result (list NetAddr)) (value : string) : result unit :=
  match url_ParseRequestURI value with
  | Err _ => Err (ErrorString "tray %s is invalid")
  | Ok parsed =>
      if negb (bool_decide (URI_Scheme parsed = "http"%string)) || bool_decide (URI_Host parsed = EmptyString) then
        Err (ErrorString "tray %s is invalid")
      else if negb (isLocalMachineIP (ParseIP (beforePercent (URI_Hostname parsed))) addresses) then
        Err (ErrorString "tray %s must target this computer")
      else Ok tt
  end.

(** The URLs are in a map: which of several faults is reported is not determined;
    here it is the first in the order of the code. *)
Definition validateTrayOptions (addresses : result (list NetAddr)) (o : agentTrayOptions) : result unit :=
  _ ← validateTrayURL addresses (AppURL o); _ ← validateTrayURL addresses (PairingURL o);
  _ ← validateTrayURL addresses (StatusURL o); _ ← validateTrayURL addresses (PairingStatusURL o);
  _ ← validateTrayURL addresses (PairingApproveURL o); _ ← validateTrayURL addresses (PairingRejectURL o);
  if negb (HasRequestStop o) then Err (ErrorString "tray stop callback must not be nil")
  else if StatusPeriod o <=? 0 then Err (ErrorString "tray status period must be positive")
  else Ok tt.
End Validate.

(** ** The requests *)

(** The status code and the body of a response. *)
Definition Response : Type := Z * bytes.

Section Requests.
Context `{!JsonCodec SessionStatus} `{!JsonCodec localPairingStatus}.

Definition queryTrayStatus (response : result Response) : result string :=
  match response with
  | Err _ => Err (ErrorString "Agent is unreachable")
  | Ok (status, body) =>
      if negb (status =? 200) then Err (ErrorString "Agent returned HTTP %d")
      else match json_Decode body with
      | Err _ => Err (ErrorString "Agent returned an invalid status")
      | Ok st =>
          Ok (if bool_decide (Status_State st = "idle"%string) then "Agent online · no active session"
              else if bool_decide (Status_State st = "connected"%string) then "Agent online · session connected"
              else if bool_decide (Status_State st = "detached"%string) then "Agent online · session waiting"
              else "Agent online")%string
      end
  end.

(** The reader stops after 4096 bytes. *)
Definition queryTrayPairingStatus (response : result Response) : result localPairingStatus :=
  match response with
  | Err _ => Err (ErrorString "pairing status is unreachable")
  | Ok (code, body) =>
      if negb (code =? 200) then Err (ErrorString "pairing status returned HTTP %d")
      else match json_Decode (take 4096 body) with
      | Err _ => Err (ErrorString "Agent returned an invalid pairing status")
      | Ok st =>
          let empty s := bool_decide (s = EmptyString) in
          if bool_decide (AgentManagement.Status_State st = "idle"%string) then
            if negb (empty (Status_FlowID st)) || negb (empty (Status_SAS st)) then
              Err (ErrorString "Agent returned an invalid idle pairing status")
            else Ok st
          else if bool_decide (AgentManagement.Status_State st = "handshaking"%string) then
            if empty (Status_FlowID st) || empty (Status_DisplayName st) || negb (empty (Status_SAS st)) then
              Err (ErrorString "Agent returned an invalid handshaking status")
            else Ok st
          else if bool_decide (AgentManagement.Status_State st = "pending"%string) then
            if empty (Status_FlowID st) || empty (Status_DisplayName st) || negb (slen (Status_SAS st) =? 7) then
              Err (ErrorString "Agent returned an invalid pending status")
            else Ok st
          else Err (ErrorString "Agent returned an unknown pairing status")
      end
  end.

(** A redirect is not followed. *)
Definition postTrayPairingDecision (response : result Response) : result unit :=
  match response with
  | Err _ => Err (ErrorString "pairing decision is unreachable")
  | Ok (code, _) => if code =? 303 then Ok tt else Err (ErrorString "pairing decision returned HTTP %d")
  end.
End Requests.

(** ** The menu *)

Record TrayMenu := mkTrayMenu {
  currentFlowID : string;
  statusTitle : string;
  requestTitle : string;
  codeTitle : string;
  decisionsEnabled : bool;
}.

#[global] Instance TrayMenu_eta : Eta TrayMenu := fun t =>
  mkTrayMenu (currentFlowID t) (statusTitle t) (requestTitle t) (codeTitle t) (decisionsEnabled t).

Definition noCode : string := "Verification code · —".
Definition initialMenu : TrayMenu := mkTrayMenu EmptyString "Agent online" "No pairing request" noCode false.

Definition setPairingIdle (title : string) (t : TrayMenu) : TrayMenu :=
  t <| currentFlowID := EmptyString |> <| requestTitle := title |> <| codeTitle := noCode |> <| decisionsEnabled := false |>.

(** [refresh], with what the two queries returned. *)
Definition trayRefresh (t : TrayMenu) (status : result string) (pairing : result localPairingStatus) : TrayMenu :=
  let t := t <| statusTitle := match status with Err _ => "Agent unavailable"%string | Ok title => title end |> in
  match pairing with
  | Err _ => setPairingIdle "Pairing status unavailable" t
  | Ok st =>
      if bool_decide (AgentManagement.Status_State st = "idle"%string) then setPairingIdle "No pairing request" t
      else if bool_decide (AgentManagement.Status_State st = "handshaking"%string) then
        t <| currentFlowID := Status_FlowID st |> <| requestTitle := ("Pairing · " ++ Status_DisplayName st)%string |>
          <| codeTitle := "Completing encrypted handshake..." |> <| decisionsEnabled := false |>
      else if bool_decide (AgentManagement.Status_State st = "pending"%string) then
        t <| currentFlowID := Status_FlowID st |> <| requestTitle := ("Approve · " ++ Status_DisplayName st)%string |>
          <| codeTitle := ("Verification code · " ++ Status_SAS st)%string |> <| decisionsEnabled := true |>
      else t
  end.

(** The flow a click decides on; a disabled item cannot be clicked. *)
Definition trayDecision (t : TrayMenu) : option string :=
  if decisionsEnabled t && negb (bool_decide (currentFlowID t = EmptyString)) then Some (currentFlowID t) else None.

(** The end of [postDecision]: the outcome of the request, and what the refresh
    after it reads. *)
Definition afterDecision (t : TrayMenu) (outcome : result unit) (status : result string)
    (pairing : result localPairingStatus) : TrayMenu :=
  match outcome with
  | Err _ => t <| requestTitle := "Pairing decision failed" |>
  | Ok _ => trayRefresh t status pairing
  end.

(** ** The loop of the tray *)

(** What it waits for, with what a request or the user then answers. *)
Inductive TrayEvent :=
  | TrayTick (status : result string) (pairing : result localPairingStatus)
  | TrayOpen
  | TrayPair
  | TrayAllow (outcome : result unit) (status : result string) (pairing : result localPairingStatus)
  | TrayReject (outcome : result unit) (status : result string) (pairing : result localPairingStatus)
  | TrayExit (confirmed : bool).

Inductive TrayAction := OpenURL (target : string) | PostDecision (endpoint flowID : string) | RequestStop.

Definition postDecision (t : TrayMenu) (endpoint : string) (outcome : result unit) (status : result string)
    (pairing : result localPairingStatus) : TrayMenu * list TrayAction :=
  if bool_decide (currentFlowID t = EmptyString) then (t, [])
  else (afterDecision t outcome status pairing, [PostDecision endpoint (currentFlowID t)]).

Definition trayStep (o : agentTrayOptions) (t : TrayMenu) (event : TrayEvent) : TrayMenu * list TrayAction :=
  match event with
  | TrayTick status pairing => (trayRefresh t status pairing, [])
  | TrayOpen => (t, [OpenURL (AppURL o)])
  | TrayPair => (t, [OpenURL (PairingURL o)])
  | TrayAllow outcome status pairing => postDecision t (PairingApproveURL o) outcome status pairing
  | TrayReject outcome status pairing => postDecision t (PairingRejectURL o) outcome status pairing
  | TrayExit confirmed => (t, if confirmed then [RequestStop] else [])
  end.

(** [findAppBrowserExe] and the command of [openTrayURL]. *)
Definition appBrowserCandidates (getenv : string → string) : list string :=
  [(getenv "ProgramFiles(x86)" ++ "\Microsoft\Edge\Application\msedge.exe")%string;
   (getenv "ProgramFiles" ++ "\Microsoft\Edge\Application\msedge.exe")%string;
   (getenv "LocalAppData" ++ "\Microsoft\Edge\Application\msedge.exe")%string].

Definition findAppBrowserExe (getenv : string → string) (isFile : string → bool) : string :=
  default EmptyString (List.find isFile (appBrowserCandidates getenv)).

Definition openTrayURL (exe target : string) : list string :=
  if negb (bool_decide (exe = EmptyString)) then [exe; ("--app=" ++ target)%string; "--no-default-browser-check"%string]
  else ["rundll32.exe"; "url.dll,FileProtocolHandler"; target]%string.

(** * The system tray: its contract with the Agent

    Every pairing status the Agent gives is one the tray accepts; and what the user
    allows in the tray is the phone whose code the tray shows. *)

Section TrayFacts.
Context {crypto : IdentityCrypto} {noise : Noise} {tickets : TicketCrypto} {enc : TicketEncoder}.
Context {url : GoUrl} {phone : PhoneUrl} {codec : InvitationCodec} {qr : QrCode}.
Context `{!ProtoMsg HandshakeContext} `{!ProtoMsg PairingInitiatorPayload}
  `{!ProtoMsg PairingResponderPayload} `{!ProtoMsg PairingFinishPayload} `{!ProtoMsg PairingApproval}.
Context `{!JsonCodec envelope} `{!JsonCodec persistedState}.
Context `{!ProtoMsg HandshakeStart} `{!ProtoMsg PairingHandshakeResponse} `{!ProtoMsg PairingHandshakeFinish}.
Implicit Types (a : AgentWorld) (c : Coordinator).

(** ** What a step of the Agent does to the flow in progress *)

Definition agentCall (step : AgentStep) (call : Call) : Prop :=
  match step, call with
  | PhoneStep step, _ => stepCall step call
  | RequestStep _ _, CallStart _ _ _ _ _ _ => False
  | RequestStep _ _, _ => True
  end.

Lemma benign_calls (P : Coordinator → Prop) e r calls c :
  (∀ c call c', agentCall (RequestStep e r) call → flowMove c call c' → P c → P c') →
  forallb benign calls = true → P c → P (foldl exec c calls).
Proof.
  intros HP. revert c. induction calls as [|call calls IH]; intros c Hb Hc; [done|]. simpl in Hb. split_bool.
  simpl. apply IH; [done|]. apply (HP c call); [by destruct call|apply exec_move|done].
Qed.

Lemma agent_step_preserves (P : Coordinator → Prop) a step :
  (∀ c c', current c' = current c → P c → P c') →
  (∀ c call c', agentCall step call → flowMove c call c' → P c → P c') →
  P (flows (management a)) → P (flows (management (agent_step a step))).
Proof.
  intros Hcur HP Ha. destruct step as [e r|step]; simpl.
  - destruct (serve_effect (management a) e r) as [_ HE].
    remember (flows (serveManagement (management a) e r).1) as c eqn:Hc. clear Hc.
    destruct HE as [calls Hb _|form _ _ _ _|form id _ _ _ _ _].
    + by apply (benign_calls P e r).
    + eapply HP; [|apply exec_move|done]. done.
    + by apply (Hcur (flows (management a))).
  - destruct (isLocalStep step); [done|]. simpl.
    destruct (step_move (pairingWorld a) step) as [->|(call & Hcall & Hm)]; [done|]. by eapply HP.
Qed.

(** ** What is shown *)

(** The identifier of a flow is made of 16 random bytes. *)
Definition fullID (step : AgentStep) : Prop :=
  match step with PhoneStep (StartFrame _ e _ _) => ∀ raw, start_random e = Ok raw → len raw = DeviceIDBytes | _ => True end.

Definition flowShown c : Prop :=
  currentShown c ∧ ∀ f, current c = Some f → ∃ raw, len raw = DeviceIDBytes ∧ flow_id f = RawURL_Encode raw.

Lemma agent_step_shown a step : fullID step → flowShown (flows (management a)) → flowShown (flows (management (agent_step a step))).
Proof.
  intros Hid. apply agent_step_preserves.
  - intros c c' Hc [Hs Hr]. unfold flowShown, currentShown. by rewrite Hc.
  - intros c call c' Hcall Hm [Hs Hr]. split; [by eapply move_shown|]. intros g Hg.
    destruct Hm as [He|[He|[(now & mnow & created & raw & reader & start & f & -> & Hf & Hfid & _)|
      (f & f' & Hf & Hf' & Hfid & _)]]]; [apply Hr; congruence|congruence| |].
    + exists raw. split; [|congruence]. destruct step as [|step]; [done|].
      destruct Hcall as (i & e & message & outcome & -> & Hrand). by apply Hid.
    + assert (g = f') as -> by congruence. rewrite Hfid. by apply Hr.
Qed.

Lemma agent_run_shown steps a :
  Forall fullID steps → flowShown (flows (management a)) → flowShown (flows (management (agent_run a steps))).
Proof.
  unfold agent_run. revert a. induction steps as [|step steps IH]; intros a Hids Ha; [done|].
  apply Forall_cons in Hids as [? ?]. by apply IH; [|apply agent_step_shown].
Qed.

(** A connection that would start another flow with this identifier. *)
Definition otherStart (id : string) (step : AgentStep) : Prop :=
  match step with PhoneStep (StartFrame _ e _ _) => ∀ raw, start_random e = Ok raw → RawURL_Encode raw ≠ id | _ => True end.

Lemma agent_run_stillThe f steps a :
  Snap_State (flow_snapshot f) = StatePending → Forall (otherStart (flow_id f)) steps →
  stillThe f (flows (management a)) → stillThe f (flows (management (agent_run a steps))).
Proof.
  intros Hp. unfold agent_run. revert a. induction steps as [|step steps IH]; intros a Hids Ha; [done|].
  apply Forall_cons in Hids as [Hstep ?]. apply IH; [done|]. apply agent_step_preserves; [| |done].
  - intros c c' Hc. unfold stillThe. by rewrite Hc.
  - intros c call c' Hcall. apply move_stillThe; [done|]. destruct call as [? ? ? [raw|] ? ?| | | | | | | | | | |]; try done.
    destruct step as [|step]; [done|]. destruct Hcall as (i & e & message & outcome & -> & Hrand). by apply Hstep.
Qed.

Lemma newAgent_flows listen tok interfaces c relay m0 :
  newAgentHTTPHandler listen tok interfaces c relay = Ok m0 → flows m0 = c ∧ token m0 = tok.
Proof. unfold newAgentHTTPHandler. intros HN. repeat case_match; by simplify_eq. Qed.

(** A request for the status by the local user. *)
Lemma status_reply m e r :
  owner m e r → req_path r = localPairingStatusPath → req_method r = "GET"%string →
  serveManagement m e r = pairingStatus m e.
Proof.
  intros Ho Hp Hm. unfold serveManagement. rewrite Hp. simpl. unfold guarded. rewrite bool_decide_true by done. simpl.
  by rewrite (proj2 (authorize_owner m e r) Ho).
Qed.

Lemma pairingStatus_shown m e m1 st :
  flowShown (flows m) → pairingStatus m e = (m1, StatusReply st) →
  settings m1 = settings m ∧
  (current (flows m1) = None ∧ st = mkPairingStatus "idle" EmptyString EmptyString EmptyString EmptyString None ∨
   ∃ f, current (flows m) = Some f ∧ flows m1 = flows m ∧ Shown f ∧
     st = mkPairingStatus (stateText (Snap_State (flow_snapshot f))) (flow_id f) (Snap_DisplayName (flow_snapshot f))
            (Snap_Platform (flow_snapshot f)) (Snap_SAS (flow_snapshot f)) (Some (Snap_ExpiresAt (flow_snapshot f)))).
Proof.
  intros [Hs _]. unfold pairingStatus, currentFlow, Current. unfold expireLocked.
  destruct (current (flows m)) as [f|] eqn:Hf.
  - destruct (env_now e <? _); simpl; [|intros [= <- <-]; split; [done|by left]].
    rewrite Hf. simpl. intros [= <- <-]. split; [done|]. right. exists f.
    destruct (Hs f Hf) as [Hid ? ? ?]. rewrite Hid. by split_and!.
  - simpl. rewrite Hf. simpl. intros [= <- <-]. split; [done|by left].
Qed.

Lemma Approve_Ok c now mnow tnow sys id c' :
  PairingFlow.Approve c now mnow tnow sys id = (c', Ok tt) →
  ∃ f, current c = Some f ∧ flow_id f = id ∧
    PairingFlow.identity c' = (persistPeer tnow sys (flow_peer f) (PairingFlow.identity c)).1.
Proof.
  unfold PairingFlow.Approve. pose proof (expire_current c now mnow) as HE. pose proof (expire_identity c now mnow) as HI.
  destruct (flowLocked _ _) as [f|] eqn:HF; [|done]. apply flowLocked_current in HF as [Hf Hid].
  destruct (negb (pending f)); [done|]. destruct (Pairing.Approve _ _ _ _ _) as [[m w] [version|err]] eqn:HA; [|done].
  intros [= <-]. exists f. split; [destruct HE; congruence|]. split; [done|]. rewrite HI in HA.
  destruct (manager_Approve_identity _ _ _ _ _ _ _ _ HA) as [[_ ?]|Hw]; [done|]. simpl. by rewrite Hw.
Qed.

Context `{!JsonCodec localPairingStatus}.

(** ** Properties *)

(** The tray understands the Agent.  Take an Agent just started, any requests and
    any steps of pairing connections: when the local user's tray then asks for the
    pairing status, the Agent answers with one that passes every check of the tray,
    if encoding keeps it: idle with neither flow nor code, handshaking with a flow
    and a name but no code, or pending with a code of seven characters. *)
Theorem tray_accepts_every_status listen tok interfaces ttl timeout v relay m0 steps e r :
  newAgentHTTPHandler listen tok interfaces (initial ttl timeout v) relay = Ok m0 → Forall fullID steps →
  let m := management (agent_run (mkAgentWorld m0 []) steps) in
  owner m e r → req_path r = localPairingStatusPath → req_method r = "GET"%string →
  ∃ m' st, serveManagement m e r = (m', StatusReply st) ∧
    ∀ body, json_Decode (take 4096 body) = Ok st → queryTrayPairingStatus (Ok (200, body)) = Ok st.
Proof.
  intros Hnew Hids m Ho Hp Hm. rewrite (status_reply _ _ _ Ho Hp Hm).
  assert (flowShown (flows m)) as Hshown.
  { apply agent_run_shown; [done|]. simpl. by rewrite (proj1 (newAgent_flows _ _ _ _ _ _ Hnew)). }
  destruct (pairingStatus m e) as [m' reply] eqn:HS.
  assert (∃ st, reply = StatusReply st) as [st ->].
  { unfold pairingStatus in HS. destruct (currentFlow m e). injection HS as _ <-. by eexists. }
  exists m', st. split; [done|]. intros body Hbody.
  destruct (pairingStatus_shown _ _ _ _ Hshown HS) as [_ [[_ ->]|(f & Hf & _ & [Hid Hname Hhand Hpend] & ->)]];
    unfold queryTrayPairingStatus; cbn [negb Z.eqb Pos.eqb]; rewrite Hbody; [done|].
  destruct (proj2 Hshown f Hf) as (raw & Hlen & Hraw).
  assert (flow_id f ≠ EmptyString) as Hne by (rewrite Hraw; by destruct raw as [|? [|? [|? ?]]]).
  cbn [AgentManagement.Status_State Status_FlowID Status_DisplayName Status_SAS].
  destruct (Snap_State (flow_snapshot f)); simpl; rewrite !(bool_decide_false (_ = EmptyString)) by done; simpl.
  - by rewrite bool_decide_true by by apply Hhand.
  - by rewrite Hpend.
Qed.

(** C24: the user allows the phone whose code the tray shows.  When the tray has
    refreshed its menu from a status of the Agent, and, whatever requests and
    connections come in between, the flow its Allow item stands for is approved, then
    the identity authorizes the device of the very flow whose name and code the menu
    shows; as long as no connection starts a second flow under the same random
    identifier. *)
Theorem tray_approves_what_it_shows listen tok interfaces ttl timeout v relay m0 steps e r m1 st t status
    between id e2 r2 form m2 location :
  newAgentHTTPHandler listen tok interfaces (initial ttl timeout v) relay = Ok m0 → Forall fullID steps →
  let a := agent_run (mkAgentWorld m0 []) steps in
  owner (management a) e r → req_path r = localPairingStatusPath → req_method r = "GET"%string →
  serveManagement (management a) e r = (m1, StatusReply st) →
  let menu := trayRefresh t status (Ok st) in trayDecision menu = Some id →
  Forall (otherStart id) between →
  let a2 := agent_run (mkAgentWorld m1 (phones a)) between in
  req_path r2 = localPairingApprovePath → req_form r2 = Ok form → form "flow_id"%string = id →
  serveManagement (management a2) e2 r2 = (m2, Redirect location) →
  ∃ f, current (flows (management a)) = Some f ∧ current (flows (management a2)) = Some f ∧
    codeTitle menu = ("Verification code · " ++ Snap_SAS (flow_snapshot f))%string ∧
    requestTitle menu = ("Approve · " ++ Snap_DisplayName (flow_snapshot f))%string ∧
    PairingFlow.identity (flows m2) = (persistPeer (env_tnow e2) (env_sys e2) (flow_peer f) (trust a2)).1.
Proof.
  intros Hnew Hids a Ho Hp Hm HS menu Hdec Hbetween a2 Hp2 Hform Hid2 HA.
  assert (flowShown (flows (management a))) as Hshown.
  { apply agent_run_shown; [done|]. simpl. by rewrite (proj1 (newAgent_flows _ _ _ _ _ _ Hnew)). }
  rewrite (status_reply _ _ _ Ho Hp Hm) in HS.
  destruct (pairingStatus_shown _ _ _ _ Hshown HS) as [_ [[_ ->]|(f & Hf & Hsame & Hs & ->)]]; [done|].
  destruct (Snap_State (flow_snapshot f)) eqn:Hst; [done|].
  assert (flow_id f = id) as Hfid.
  { unfold trayDecision, menu in Hdec. simpl in Hdec. case_bool_decide; [done|]. by injection Hdec. }
  assert (stillThe f (flows (management a2))) as Hstill.
  { apply agent_run_stillThe; [done|by rewrite Hfid|]. simpl. intros g Hg _. congruence. }
  unfold serveManagement in HA. rewrite Hp2 in HA. simpl in HA.
  destruct (guarded_cases "POST" (management a2) e2 r2 (pairingDecision true (management a2) e2 r2))
    as [(_ & _ & HE)|(_ & reply & HE & code & message & -> & _)]; rewrite HE in HA; [|done].
  unfold pairingDecision in HA. rewrite Hform, Hid2 in HA. destruct (decode16 id); [|done].
  destruct (PairingFlow.Approve _ _ _ _ _ _) as [c [[]|err]] eqn:HAp; [|by repeat case_match].
  destruct (Approve_Ok _ _ _ _ _ _ _ HAp) as (g & Hg & Hgid & Hident).
  assert (g = f) as -> by (apply Hstill; congruence).
  exists f. split_and!; [done|done|done|done|]. injection HA as <- _. exact Hident.
Qed.
End TrayFacts.
