(* ===== verification/AgentRun.v ===== *)
(** * A run of the Agent ([runAgent] of [cmd/vibebridge/main.go])

    How the parts are put together: the options ([Startup]), the identity
    ([DeviceIdentity]), the relay manager ([RelayManager]), the pairing objects
    ([Pairing], [PairingFlow]), the session server ([SessionServer]), the handler
    ([AgentManagement]), the runtime state ([RuntimeState]) and the tray ([Tray]);
    and how they are closed again.  A run is the list of what it opens, closes and
    logs, with its error; a deferred call is an effect after those of the rest.
    While it serves, requests and pairing connections take steps
    ([AgentManagementFacts]), and other processes use the file of the runtime state. *)

From S2P Require Import Prelude.
From S2P Require Import StagingSession.
From S2P Require Import ServiceTask.
From S2P Require Import SecureStore.
From S2P Require Import Path.
From S2P Require Import Ticket.
From S2P Require Import Workspace.
From S2P Require Import AgentConfig.
From S2P Require Import AgentLog.
From S2P Require Import RelayClient.
From S2P Require Import RelayManager.
From S2P Require Import DeviceIdentity.
From S2P Require Import Pairing.
From S2P Require Import Handshake.
From S2P Require Import PairingFlow.
From S2P Require Import PairingFlowFacts.
From S2P Require Import PairingTransport.
From S2P Require Import PairingTransportFacts.
From S2P Require Import PairedSession.
From S2P Require Import SessionServer.
From S2P Require Import GoNet.
From S2P Require Import Startup.
From S2P Require Import RuntimeState.
From S2P Require Import AgentManagement.
From S2P Require Import AgentManagementFacts.
From S2P Require Import Tray.

(** ** Diagnostics *)

(** What [--diagnose] finds of the computer: the platform, the background task, an
    attempt to listen, the front end. *)
Record DiagnoseEnv := mkDiagnoseEnv {
  de_windows : bool;
  de_platform : string;
  de_service : result bool;
  de_listen : result unit;
  de_index : bool;
}.

Definition platformDiagnostic (d : DiagnoseEnv) : diagnosticCheck :=
  if de_windows d then
    passing "ok" ("host platform " ++ de_platform d ++ " uses the supported Windows PTY process-tree adapter")
  else passing "warn" ("host platform " ++ de_platform d ++ " is not yet a declared supported PTY platform").

Definition backgroundServiceDiagnosticFor (status : result bool) : diagnosticCheck :=
  match status with
  | Err e =>
      if errors_is e ErrUnsupported then
        passing "check" "user-scoped background Agent installation is not supported on this platform"
      else passing "warn" ("background Agent installation could not be inspected: " ++ errorMessage e)
  | Ok true => passing "ok" "user-scoped background Agent task is installed"
  | Ok false => passing "check"
      "user-scoped background Agent is not installed; run vibebridge service install --config <path>"
  end.

Definition failure (r : result unit) : option error := match r with Err e => Some e | Ok _ => None end.
Definition quoted (s : string) : string := String "034" (s ++ String "034" EmptyString).

Section Diagnostics.
Context {F : Type} {filesystem : FileSystem F}.

(** The identifiers of profiles and workspaces need no escapes in quotes. *)
Definition collectDiagnostics (f : F) (o : startupOptions) (embedded : bool) (lookPath : string → bool)
    (interfaces : result (list Interface)) (d : DiagnoseEnv) : F * list diagnosticCheck :=
  let commandMessage :=
    if bool_decide (profileID o = EmptyString) then "configured command is available"%string
    else ("launch profile " ++ quoted (profileID o) ++ " executable is available")%string in
  let directoryMessage :=
    if negb (bool_decide (workspaceID o = EmptyString)) then
      ("workspace " ++ quoted (workspaceID o) ++ " root and launch working directory are available")%string
    else if negb (bool_decide (workingDirectory o = EmptyString)) then "launch working directory is available"%string
    else "launch working directory uses the current directory"%string in
  let '(f, directory) := validateStartupWorkingDirectory f o in
  (f, [platformDiagnostic d; backgroundServiceDiagnosticFor (de_service d);
       mkCheck "ok" commandMessage (failure (validateCommand (command o) lookPath));
       mkCheck "ok" directoryMessage (failure directory);
       mkCheck "ok" (addr o ++ " is available for the HTTP listener") (failure (de_listen d));
       (if embedded then passing "ok" "frontend assets are embedded in this binary"
        else if de_index d then passing "ok" ("frontend build found in " ++ webDir o)
        else passing "warn" ("frontend build not found in " ++ webDir o ++ "; run pnpm --dir web build"))] ++
      networkDiagnostics (addr o) interfaces (de_windows d)).
End Diagnostics.

(** ** The flags and the surroundings *)

Record AgentFlags := mkAgentFlags {
  af_options : startupOptions;
  af_config : string;
  af_profile : string;
  af_diagnose : bool;
  af_tray : bool;
  af_serviceState : string;
  af_identityStore : string;
  af_relayIssuerKey : string;
  af_managementToken : string;
  af_positional : list string;
  af_explicit : string → bool;
}.

(** [main]: the subcommands and the Agent, with the arguments of each. *)
Inductive MainCommand := MainRecover (args : list string) | MainService (args : list string) | MainAgent (args : list string).

Definition mainCommand (osArgs : list string) : MainCommand :=
  match osArgs with
  | _ :: sub :: args =>
      if bool_decide (sub = "recover"%string) then MainRecover args
      else if bool_decide (sub = "service"%string) then MainService args
      else MainAgent (sub :: args)
  | _ => MainAgent []
  end.

(** The lines of [printStartup], and the URL of its QR code. *)
Definition printStartup (listen token : string) (interfaces : result (list Interface)) : list string * option string :=
  let listening := ("VibeBridge listening on " ++ listen)%string in
  match accessURLs listen token interfaces with
  | Err e => ([listening; ("Could not build access URL: " ++ errorMessage e)%string], None)
  | Ok urls =>
      ([listening; "Preflight: command found, session token created, HTTP listener starting"%string] ++
         map (fun url => ("Open: " ++ url)%string) urls ++
         match urls with
         | [] => []
         | _ => ["Scan this QR code from your phone:";
                 "If the phone cannot connect, allow vibebridge.exe through Windows Firewall for private networks only."]%string
         end, head urls)
  end.

(** What ends the serving: a signal, the tray, or the listener. *)
Inductive StopSource := StopSignal | StopTray | StopServe (e : option error).

Record AgentEnv := mkAgentEnv {
  ae_traySupported : bool;
  ae_lookupEnv : string → option string;
  ae_opened : result unit; ae_size : result Z; ae_content : result bytes;
  ae_embedded : bool;
  ae_diagnose : DiagnoseEnv;
  ae_lookPath : string → bool;
  ae_getwd : result string;
  ae_random : result bytes;
  ae_identityPath : result string;
  ae_readIdentity : option error; ae_saveIdentity : Syscalls; ae_lock : LockCalls; ae_generated : Generated;
  ae_issuerRead : option error; ae_issuerGenerated : result bytes; ae_issuerWritten : result unit;
  ae_listen : result string;
  ae_interfaces : result (list Interface);
  ae_pid : Z; ae_startedAt : Z; ae_saveState : Syscalls;
  ae_stop : StopSource;
  ae_trayRun : result unit;
  ae_shutdown : result unit;
  ae_readState : option error; ae_removeState : option error;
}.

(** ** Effects *)

Inductive Resource := IdentityStore | RelayRoutes | PairingInvitations | SessionApplication | Listener.

#[global] Instance Resource_eq_dec : EqDecision Resource.
Proof. solve_decision. Defined.

Inductive Effect := Opened (r : Resource) | Closed (r : Resource) | Logged (event : Event)
  | Served (application : SessionServer.Config).

Definition lifecycleEvent (name reason outcome : string) : Event := mkEvent name EmptyString EmptyString reason outcome.

(** ** Stopping *)

Definition http_ErrServerClosed := ErrorString "http: Server closed".

(** [waitForStop]: the reason, and an error of the server. *)
Definition waitForStop (source : StopSource) : string * option error :=
  match source with
  | StopSignal => (ReasonSignal, None)
  | StopTray => (ReasonAgentShutdown, None)
  | StopServe (Some e) =>
      if errors_is e http_ErrServerClosed then (ReasonListenerClosed, None)
      else (ReasonListenerError, Some (ErrorWrap "server error" e))
  | StopServe None => (ReasonListenerClosed, None)
  end.

(** With a tray: its URLs, and the outcome of running it. *)
Definition awaitStop (flags : AgentFlags) (env : AgentEnv) (listen token : string) : string * option error :=
  let '(reason, serveErr) := waitForStop (ae_stop env) in
  if af_tray flags then
    match trayURLs listen token, trayPairingURLs listen token with
    | Err e, _ | _, Err e => (reason, Some (ErrorWrap "configure system tray URLs" e))
    | Ok _, Ok _ =>
        match ae_trayRun env, serveErr with
        | Err e, None => (reason, Some (ErrorWrap "run system tray" e))
        | _, _ => (reason, serveErr)
        end
    end
  else (reason, serveErr).

(** The error of the run, from those of the three ends. *)
Definition runError (shutdown : result unit) (serveErr : option error) (clear : result unit) : result unit :=
  match shutdown, serveErr, clear with
  | Err e, _, _ => Err (ErrorWrap "shutdown server" e)
  | Ok _, Some e, _ => Err e
  | Ok _, None, Err e => Err (ErrorWrap "clear background Agent runtime state" e)
  | Ok _, None, Ok _ => Ok tt
  end.

(** ** The run *)

Section AgentRun.
Context {F : Type} {filesystem : FileSystem F} {config : ConfigJSON}.
Context {crypto : IdentityCrypto} {noise : Noise} {tickets : TicketCrypto} {enc : TicketEncoder}.
Context {url : GoUrl} {phone : PhoneUrl} {invitationCodec : InvitationCodec} {qr : QrCode}.
Context `{!ProtoMsg HandshakeContext} `{!ProtoMsg PairingInitiatorPayload}
  `{!ProtoMsg PairingResponderPayload} `{!ProtoMsg PairingFinishPayload} `{!ProtoMsg PairingApproval}.
Context `{!ProtoMsg HandshakeStart} `{!ProtoMsg PairingHandshakeResponse}
  `{!ProtoMsg PairingHandshakeFinish}.
Context `{!JsonCodec envelope} `{!JsonCodec persistedState} `{!JsonCodec RuntimeState}.

(** The options, before and after [--diagnose]. *)
Definition agentOptions (f : F) (flags : AgentFlags) (env : AgentEnv) : F * result startupOptions :=
  if negb (bool_decide (af_positional flags = [])) then (f, Err (ErrorString "unexpected positional arguments: %v"))
  else if af_tray flags && negb (ae_traySupported env) then (f, Err (ErrorString "system tray is only supported on Windows"))
  else resolveStartupOptions f (af_options flags) (af_config flags) (af_profile flags) (af_explicit flags)
         (ae_lookupEnv env) (ae_opened env) (ae_size env) (ae_content env).

Definition checkOptions (f : F) (env : AgentEnv) (o : startupOptions) : F * result unit :=
  match validateCommand (command o) (ae_lookPath env) with
  | Err e => (f, Err e)
  | Ok _ => validateStartupWorkingDirectory f o
  end.

Definition agentToken (flags : AgentFlags) (env : AgentEnv) : result string :=
  if negb (bool_decide (af_managementToken flags = EmptyString)) then Ok (af_managementToken flags)
  else match newSessionToken (ae_random env) with
  | Err e => Err (ErrorWrap "create session token" e)
  | Ok token => Ok token
  end.

Definition agentIdentityPath (flags : AgentFlags) (env : AgentEnv) : result string :=
  if negb (bool_decide (af_identityStore flags = EmptyString)) then Ok (af_identityStore flags)
  else match ae_identityPath env with
  | Err e => Err (ErrorWrap "resolve device identity path" e)
  | Ok path => Ok path
  end.

(** The issuer's key and the manager; a file that was written is there afterwards. *)
Definition openRelay (fs : Files) (flags : AgentFlags) (env : AgentEnv) (relayURL identityPath : string) (store : Store)
    : Files * result RelayManager.Manager :=
  let path := if bool_decide (af_relayIssuerKey flags = EmptyString)
              then Join [Dir identityPath; "relay-issuer.key"%string] else af_relayIssuerKey flags in
  let abs := Path.Abs (ae_getwd env) path in
  let location := if Path.IsAbs path then Ok path else abs in
  let file := match ae_issuerRead env, location with
              | Some e, _ => KeyUnreadable e
              | None, Ok p => match fs !! p with Some raw => KeyContents raw | None => KeyMissing end
              | None, Err _ => KeyMissing
              end in
  let '(written, issuer) :=
    LoadOrCreateIssuer path (Path.IsAbs path) abs file (ae_issuerGenerated env) (ae_issuerWritten env) in
  let fs := match written, location with Some raw, Ok p => <[p := raw]> fs | _, _ => fs end in
  (fs, match issuer with
       | Err e => Err (ErrorWrap "initialize relay issuer" e)
       | Ok private =>
           match NewManager (mkManagerConfig relayURL (Some private) (DeviceID store) (RevocationEpoch store) 0) with
           | Err e => Err (ErrorWrap "initialize relay manager" e)
           | Ok manager => Ok manager
           end
       end).

(** Staging left over by earlier runs; an error is only a warning. *)
Definition cleanStaging (f : F) (o : startupOptions) : F :=
  (if negb (bool_decide (workspaceRoot o = EmptyString)) then CleanupStaleStaging f (workspaceRoot o)
   else CleanupStaleSandboxStaging f).1.

(** What [server.New] is given. *)
Definition serverConfig (o : startupOptions) (token : string) (store : Store) : SessionServer.Config := {|
  Config_Command := command o;
  Config_WorkingDirectory := workingDirectory o;
  Config_WorkspaceRoot := workspaceRoot o;
  Config_ToolAdapter := toolAdapter o;
  ReconnectTimeout := reconnectTimeout o;
  IdleTimeout := idleTimeout o;
  DisableLegacyProtocol := true;
  MaxAggregateBytes := 0;
  Config_Upgrade := mkUpgradeConfig token true;
  DeviceStore := Some store |}.

(** The world while the Agent serves: its parts, and what others do to the file of
    the runtime state. *)
Inductive ServeStep := Handled (step : AgentStep) | Elsewhere (op : StateOp).

Definition withFiles (fs : Files) (m : agentManagement) : agentManagement :=
  m <| flows ::= fun c => c <| PairingFlow.identity ::= fun w => (fs, w.2) |> |>.

Definition filesOf (m : agentManagement) : Files := (PairingFlow.identity (flows m)).1.

Definition serve_step (statePath : string) (a : AgentWorld) (step : ServeStep) : AgentWorld :=
  match step with
  | Handled step => agent_step a step
  | Elsewhere op =>
      mkAgentWorld (withFiles (execState (filesOf (management a)) statePath op).1 (management a)) (phones a)
  end.

Definition serve (statePath : string) (a : AgentWorld) (steps : list ServeStep) : AgentWorld :=
  foldl (serve_step statePath) a steps.

(** The runtime state, when the flag is given. *)
Definition publishState (fs : Files) (flags : AgentFlags) (env : AgentEnv) (listen token : string) : Files * result unit :=
  if bool_decide (af_serviceState flags = EmptyString) then (fs, Ok tt)
  else WriteRuntimeState fs (ae_saveState env) (af_serviceState flags)
         (mkRuntimeState CurrentRuntimeStateVersion (ae_pid env) (ae_startedAt env) listen token).

Definition clearState (fs : Files) (flags : AgentFlags) (env : AgentEnv) : Files * result unit :=
  if bool_decide (af_serviceState flags = EmptyString) then (fs, Ok tt)
  else ClearRuntimeState fs (ae_readState env) (ae_removeState env) (af_serviceState flags) (ae_pid env).

(** From the listener to the end; [application] is what the session server was made
    from. *)
Definition runServer (fs : Files) (flags : AgentFlags) (env : AgentEnv) (application : SessionServer.Config)
    (token : string) (coordinator : Coordinator) (relay : option RelayManager.Manager) (steps : list ServeStep)
    : Files * list Effect * result unit :=
  match ae_listen env with
  | Err e => (fs, [Closed SessionApplication], Err (ErrorWrap "start HTTP listener on %s" e))
  | Ok listen =>
      match newAgentHTTPHandler listen token (ae_interfaces env) coordinator relay with
      | Err e => (fs, [Opened Listener; Closed Listener; Closed SessionApplication],
                  Err (ErrorWrap "configure Agent HTTP handler" e))
      | Ok management =>
          match publishState fs flags env listen token with
          | (fs, Err e) => (fs, [Opened Listener; Closed Listener; Closed SessionApplication],
                            Err (ErrorWrap "write background Agent runtime state" e))
          | (fs, Ok _) =>
              let a := serve (af_serviceState flags) (mkAgentWorld (withFiles fs management) []) steps in
              let '(reason, serveErr) := awaitStop flags env listen token in
              let '(fs, clear) := clearState (filesOf (AgentManagementFacts.management a)) flags env in
              let r := runError (ae_shutdown env) serveErr clear in
              (fs, [Opened Listener; Logged (lifecycleEvent EventAgentStarting EmptyString EmptyString); Served application;
                    Logged (lifecycleEvent EventAgentStopping reason EmptyString);
                    Closed SessionApplication; Closed Listener;
                    Logged (lifecycleEvent EventAgentStopped EmptyString
                              (if is_ok r then OutcomeSuccess else OutcomeFailure))], r)
          end
      end
  end.

(** A deferred [Close]. *)
Definition during {S} (r : Resource) (run : S * list Effect * result unit) : S * list Effect * result unit :=
  let '(s, effects, res) := run in (s, Opened r :: effects ++ [Closed r], res).

(** From the pairing manager on. *)
Definition runPairing (f : F) (fs : Files) (flags : AgentFlags) (env : AgentEnv) (o : startupOptions) (token : string)
    (store : Store) (relay : option RelayManager.Manager) (steps : list ServeStep)
    : F * Files * list Effect * result unit :=
  match Pairing.New true 0 with
  | Err e => (f, fs, [], Err (ErrorWrap "initialize pairing manager" e))
  | Ok invitations =>
      during PairingInvitations
        match PairingFlow.New invitations (fs, store) 0 with
        | Err e => (f, fs, [], Err (ErrorWrap "initialize pairing flow coordinator" e))
        | Ok coordinator =>
            let f := cleanStaging f o in
            let '(fs, effects, r) := runServer fs flags env (serverConfig o token store) token coordinator relay steps in
            (f, fs, Opened SessionApplication :: effects, r)
        end
  end.

Definition runIdentity (f : F) (fs : Files) (flags : AgentFlags) (env : AgentEnv) (o : startupOptions)
    (token identityPath : string) (steps : list ServeStep) : F * Files * list Effect * result unit :=
  match LoadOrCreate fs (ae_readIdentity env) (ae_saveIdentity env) (ae_lock env) identityPath EmptyString EmptyString
          (ae_generated env) with
  | (fs, Err e) => (f, fs, [], Err (ErrorWrap "initialize device identity" e))
  | (fs, Ok store) =>
      during IdentityStore
        (if bool_decide (relayURL o = EmptyString) then runPairing f fs flags env o token store None steps
         else match openRelay fs flags env (relayURL o) identityPath store with
         | (fs, Err e) => (f, fs, [], Err e)
         | (fs, Ok manager) =>
             during RelayRoutes (runPairing f fs flags env o token store (Some manager) steps)
         end)
  end.

Definition runAgent (f : F) (fs : Files) (flags : AgentFlags) (env : AgentEnv) (steps : list ServeStep)
    : F * Files * list Effect * result unit :=
  match agentOptions f flags env with
  | (f, Err e) => (f, fs, [], Err e)
  | (f, Ok o) =>
      if af_diagnose flags then
        let '(f, checks) :=
          collectDiagnostics f o (ae_embedded env) (ae_lookPath env) (ae_interfaces env) (ae_diagnose env) in
        (f, fs, [], (runDiagnostics checks).2)
      else match checkOptions f env o with
      | (f, Err e) => (f, fs, [], Err e)
      | (f, Ok _) =>
          match agentToken flags env, agentIdentityPath flags env with
          | Err e, _ | Ok _, Err e => (f, fs, [], Err e)
          | Ok token, Ok identityPath => runIdentity f fs flags env o token identityPath steps
          end
      end
  end.
End AgentRun.

(** * A run of the Agent: what it opens it closes, and what its file says

    Over every outcome of the calls a run makes, an automaton accepts the list of
    its effects; and the file of the runtime state follows the run, whatever the
    requests and the other processes do meanwhile. *)

(** ** The automaton *)

(** The resources that are open after an effect; [None] when it is out of place.
    Everything else is open only while the identity is, and is open while the Agent
    serves. *)
Definition effect_step (open : list Resource) (effect : Effect) : option (list Resource) :=
  match effect with
  | Opened IdentityStore => if bool_decide (open = []) then Some [IdentityStore] else None
  | Opened r => if bool_decide (r ∈ open) || negb (bool_decide (IdentityStore ∈ open)) then None else Some (r :: open)
  | Closed IdentityStore => if bool_decide (open = [IdentityStore]) then Some [] else None
  | Closed r => if bool_decide (r ∈ open) then Some (filter (.≠ r) open) else None
  | Logged _ => Some open
  | Served _ =>
      if forallb (fun r => bool_decide (r ∈ open)) [IdentityStore; PairingInvitations; SessionApplication; Listener]
      then Some open else None
  end.

Fixpoint after (open : list Resource) (effects : list Effect) : option (list Resource) :=
  match effects with
  | [] => Some open
  | effect :: effects => effect_step open effect ≫= fun open => after open effects
  end.

Lemma after_app open e1 e2 : after open (e1 ++ e2) = after open e1 ≫= fun open => after open e2.
Proof. revert open. induction e1 as [|e e1 IH]; intros open; [done|]. simpl. destruct (effect_step open e); simpl; auto. Qed.

Definition logOf (effects : list Effect) : list Event :=
  omap (fun e => match e with Logged event => Some event | _ => None end) effects.

Definition servedOf (effects : list Effect) : list SessionServer.Config :=
  omap (fun e => match e with Served application => Some application | _ => None end) effects.

(** What a run, or the rest of one, leaves: the resources that were open, and a log
    of a whole life or of none. *)
Definition lifeLog (reason : string) (r : result unit) : list Event :=
  [lifecycleEvent EventAgentStarting EmptyString EmptyString; lifecycleEvent EventAgentStopping reason EmptyString;
   lifecycleEvent EventAgentStopped EmptyString (if is_ok r then OutcomeSuccess else OutcomeFailure)].

Definition wellBehaved (open : list Resource) (guarded : SessionServer.Config → Prop) (effects : list Effect)
    (r : result unit) : Prop :=
  after open effects = Some open ∧
  (logOf effects = [] ∧ servedOf effects = [] ∨
   ∃ reason application, logOf effects = lifeLog reason r ∧ servedOf effects = [application] ∧ guarded application).

Lemma wellBehaved_none open guarded r : wellBehaved open guarded [] r.
Proof. split; [done|]. by left. Qed.

(** A deferred [Close] around well-behaved effects. *)
Lemma during_wellBehaved {S} open open' guarded res (run : S * list Effect * result unit) :
  effect_step open (Opened res) = Some open' → effect_step open' (Closed res) = Some open →
  wellBehaved open' guarded run.1.2 run.2 → wellBehaved open guarded (during res run).1.2 (during res run).2.
Proof.
  intros Ho Hc. destruct run as [[s effects] r]. simpl. intros [Ha Hl]. split.
  - cbn [after]. rewrite Ho. cbn. rewrite after_app, Ha. cbn [after mbind option_bind]. by rewrite Hc.
  - unfold logOf, servedOf in *. cbn [omap list_omap]. rewrite !omap_app. cbn [omap list_omap]. by rewrite !app_nil_r.
Qed.

Section AgentRun.
Context {F : Type} {filesystem : FileSystem F} {config : ConfigJSON}.
Context {crypto : IdentityCrypto} {noise : Noise} {tickets : TicketCrypto} {enc : TicketEncoder}.
Context {url : GoUrl} {phone : PhoneUrl} {invitationCodec : InvitationCodec} {qr : QrCode}.
Context `{!ProtoMsg HandshakeContext} `{!ProtoMsg PairingInitiatorPayload}
  `{!ProtoMsg PairingResponderPayload} `{!ProtoMsg PairingFinishPayload} `{!ProtoMsg PairingApproval}.
Context `{!ProtoMsg HandshakeStart} `{!ProtoMsg PairingHandshakeResponse} `{!ProtoMsg PairingHandshakeFinish}.
Context `{!JsonCodec envelope} `{!JsonCodec persistedState} `{!JsonCodec RuntimeState}.

(** What the session server of a run is made from: only paired devices, only the
    current protocol, a token that is not empty. *)
Definition guardedApplication (token : string) (application : SessionServer.Config) : Prop :=
  Config_Upgrade application = mkUpgradeConfig token true ∧ token ≠ EmptyString ∧
  DisableLegacyProtocol application = true ∧ is_Some (DeviceStore application).

Definition relayResources (relay : option RelayManager.Manager) : list Resource :=
  if relay then [RelayRoutes] else [].

Lemma runServer_wellBehaved fs flags env application token coordinator relay steps :
  guardedApplication token application ∨ token = EmptyString →
  let '(_, effects, r) := runServer fs flags env application token coordinator relay steps in
  wellBehaved (PairingInvitations :: relayResources relay ++ [IdentityStore]) (guardedApplication token)
    (Opened SessionApplication :: effects) r.
Proof.
  intros Hg. unfold runServer. destruct (ae_listen env) as [listen|]; [|split; [by destruct relay|by left]].
  unfold newAgentHTTPHandler. case_bool_decide as Ht; [split; [by destruct relay|by left]|].
  destruct Hg as [Hg|]; [|done].
  destruct (phonePairingBaseURL _ _); [|split; [by destruct relay|by left]].
  destruct (publishState _ _ _ _ _) as [fs1 []]; [|split; [by destruct relay|by left]].
  destruct (awaitStop _ _ _ _) as [reason serveErr]. destruct (clearState _ _ _) as [fs2 clear].
  split; [by destruct relay|]. right. by exists reason, application.
Qed.

Lemma runPairing_wellBehaved (f : F) fs flags env o token store relay steps :
  let run := runPairing f fs flags env o token store relay steps in
  wellBehaved (relayResources relay ++ [IdentityStore]) (guardedApplication token) run.1.2 run.2.
Proof.
  unfold runPairing. destruct (Pairing.New true 0) as [invitations|]; [|apply wellBehaved_none].
  apply (during_wellBehaved _ (PairingInvitations :: relayResources relay ++ [IdentityStore])); [by destruct relay..|].
  destruct (PairingFlow.New _ _ _) as [coordinator|]; [|apply wellBehaved_none].
  pose proof (runServer_wellBehaved fs flags env (serverConfig o token store) token coordinator relay steps) as HR.
  destruct (runServer _ _ _ _ _ _ _ _) as [[fs1 effects] r]. apply HR.
  destruct (decide (token = EmptyString)); [by right|left]. by split_and!.
Qed.

Lemma runIdentity_wellBehaved (f : F) fs flags env o token identityPath steps :
  let run := runIdentity f fs flags env o token identityPath steps in
  wellBehaved [] (guardedApplication token) run.1.2 run.2.
Proof.
  unfold runIdentity. destruct (LoadOrCreate _ _ _ _ _ _ _ _) as [fs1 [store|]]; [|apply wellBehaved_none].
  apply (during_wellBehaved _ [IdentityStore]); [done..|]. case_bool_decide; [apply (runPairing_wellBehaved _ _ _ _ _ _ _ None)|].
  destruct (openRelay _ _ _ _ _ _) as [fs2 [manager|]]; [|apply wellBehaved_none].
  apply (during_wellBehaved _ [RelayRoutes; IdentityStore]); [done..|].
  apply (runPairing_wellBehaved _ _ _ _ _ _ _ (Some manager)).
Qed.

(** ** The file of the runtime state *)

(** A save of the identity touches its own file and a temporary one. *)
Lemma writeAtomic_other fs sys path encoded q :
  q ≠ path → OtherTemp sys q → (writeAtomic fs sys path encoded).1 !! q = fs !! q.
Proof.
  intros Hq Ht. unfold writeAtomic, replaceFile. destruct (sys_mkdir sys); [|done].
  destruct (sys_createTemp sys) as [tmp|] eqn:Hc; [|done]. specialize (Ht tmp Hc).
  repeat case_match; simplify_eq/=; by simplify_map_eq.
Qed.

Lemma saveState_other fs sys path st q :
  q ≠ path → OtherTemp sys q → (saveState fs sys path st).1 !! q = fs !! q.
Proof.
  intros Hq Ht. unfold saveState, SecureStore.Write. repeat case_match; try done. by apply writeAtomic_other.
Qed.

Definition SavesElsewhere (q : string) (fs : Files) (store : Store) (w : Files * Store) : Prop :=
  w.1 !! q = fs !! q ∧ DeviceIdentity.path w.2 = DeviceIdentity.path store.

Lemma commitState_elsewhere fs store sys next index m1 m2 m3 q :
  q ≠ DeviceIdentity.path store → OtherTemp sys q → SavesElsewhere q fs store (commitState fs store sys next index m1 m2 m3).1.
Proof.
  intros Hq Ht. unfold commitState. destruct (validateState next); [|done].
  pose proof (saveState_other fs sys _ next q Hq Ht) as Hs. destruct (saveState _ _ _ _) as [fs1 []]; [|done].
  by repeat case_match.
Qed.

Lemma Authorize_elsewhere fs store now sys signed q :
  q ≠ DeviceIdentity.path store → OtherTemp sys q → SavesElsewhere q fs store (Authorize fs store now sys signed).1.
Proof.
  intros Hq Ht. unfold Authorize, putAuthorization.
  repeat (case_match; try done); simplify_eq; by apply commitState_elsewhere.
Qed.

Lemma Revoke_elsewhere fs store now sys id q :
  q ≠ DeviceIdentity.path store → OtherTemp sys q → SavesElsewhere q fs store (Revoke fs store now sys id).1.
Proof. intros Hq Ht. unfold Revoke. repeat (case_match; try done). by apply commitState_elsewhere. Qed.

Definition apart (q : string) (a a' : AgentWorld) : Prop :=
  filesOf (management a') !! q = filesOf (management a) !! q ∧
  DeviceIdentity.path (trust a').2 = DeviceIdentity.path (trust a).2.

(** The saves of a step; those of a pairing connection are the user's requests. *)
Definition step_temp (q : string) (step : AgentStep) : Prop :=
  match step with RequestStep e _ => OtherTemp (env_sys e) q | PhoneStep _ => True end.

Lemma agent_step_apart q a step :
  Sound (pairingWorld a) → q ≠ DeviceIdentity.path (trust a).2 → step_temp q step → apart q a (agent_step a step).
Proof.
  intros HS Hq Ht. unfold apart, filesOf, trust in *. destruct step as [e r|step]; simpl.
  - destruct (serve_effect (management a) e r) as [_ HE].
    remember (flows (serveManagement (management a) e r).1) as c eqn:Hc. clear Hc.
    destruct HE as [calls Hb _|form _ _ _ _|form id _ _ _ _ _].
    + by rewrite execs_benign.
    + destruct (exec_identity (flows (management a)) (CallApprove (env_now e) (env_mnow e) (env_tnow e) (env_sys e)
        (form "flow_id"%string)) (wi_flow _ (proj1 HS))) as [->|(? & ? & ? & ? & ? & f & [= <- <- <- <- <-] & _ & ->)]; [done|].
      unfold persistPeer.
      pose proof (Authorize_elsewhere (PairingFlow.identity (flows (management a))).1 _ (env_tnow e) (env_sys e)
        (Some (flow_peer f)) q Hq Ht) as HA.
      by destruct (Authorize _ _ _ _ _) as [[fs store] res].
    + simpl. by apply Revoke_elsewhere.
  - destruct (isLocalStep step) eqn:Hl; [done|]. simpl.
    by rewrite (phone_step_kept (pairingWorld a) step (wi_flow _ (proj1 HS)) Hl).
Qed.

(** What is published after the steps, given what the operations of others return. *)
Fixpoint servedRegister (q : string) (a : AgentWorld) (published : option RuntimeState) (steps : list ServeStep)
    : option RuntimeState :=
  match steps with
  | [] => published
  | step :: steps =>
      servedRegister q (serve_step q a step)
        (match step with
         | Handled _ => published
         | Elsewhere op => if is_ok (execState (filesOf (management a)) q op).2 then registerStep published op else published
         end) steps
  end.

Definition step_plausible (q : string) (step : ServeStep) : Prop :=
  match step with Handled step => step_temp q step | Elsewhere op => Plausible q op end.

Context `{!JsonLaws RuntimeState (fun st => validateRuntimeState st = Ok tt)}.

Lemma serve_step_holds q a published step :
  Sound (pairingWorld a) → q ≠ DeviceIdentity.path (trust a).2 → step_plausible q step →
  Holds (filesOf (management a)) q published →
  let a' := serve_step q a step in
  Sound (pairingWorld a') ∧ q ≠ DeviceIdentity.path (trust a').2 ∧
  Holds (filesOf (management a')) q (servedRegister q a published [step]).
Proof.
  intros HS Hq Hp Hh. destruct step as [step|op]; simpl.
  - destruct (agent_step_apart q a step HS Hq Hp) as [Hf Hpath].
    split_and!; [by apply agent_step_sound|by rewrite Hpath|].
    destruct published; unfold Holds in *; [by rewrite (LoadRuntimeState_ext (filesOf (management a)))|congruence].
  - split_and!; [by apply identity_sound|done|].
    destruct (execState (filesOf (management a)) q op) as [fs1 r] eqn:He. by eapply execState_holds.
Qed.

Lemma serve_holds q steps a published :
  Sound (pairingWorld a) → q ≠ DeviceIdentity.path (trust a).2 → Forall (step_plausible q) steps →
  Holds (filesOf (management a)) q published →
  Holds (filesOf (management (serve q a steps))) q (servedRegister q a published steps).
Proof.
  revert a published. induction steps as [|step steps IH]; intros a published HS Hq Hp Hh; [done|].
  apply Forall_cons in Hp as [Hstep Hp]. destruct (serve_step_holds q a published step HS Hq Hstep Hh) as (? & ? & ?).
  by apply IH.
Qed.

(** Nothing is served before the server runs. *)
Lemma during_served {S} res (run : S * list Effect * result unit) s effects r :
  during res run = (s, effects, r) → ∃ effects', run = (s, effects', r) ∧ servedOf effects = servedOf effects'.
Proof.
  destruct run as [[s' effects'] r']. simpl. intros [= -> <- ->]. exists effects'. split; [done|].
  unfold servedOf. cbn [omap list_omap]. rewrite omap_app. cbn [omap list_omap]. by rewrite app_nil_r.
Qed.

Lemma runPairing_served (f : F) fs flags env o token store relay steps f' fs' effects r :
  runPairing f fs flags env o token store relay steps = (f', fs', effects, r) → servedOf effects ≠ [] →
  ∃ ttl timeout application effects', servedOf effects' ≠ [] ∧
    runServer fs flags env application token (initial ttl timeout (fs, store)) relay steps = (fs', effects', r).
Proof.
  unfold runPairing. destruct (Pairing.New true 0) as [invitations|] eqn:HP; [|by intros [= _ _ <- _]].
  intros (effects1 & HR & ->)%during_served Hs. unfold Pairing.New in HP. destruct (_ || _); simplify_eq/=.
  destruct (runServer _ _ _ _ _ _ _ _) as [[fs1 effects2] r1] eqn:HS. injection HR as <- <- <- <-.
  eexists _, _, _, effects2. split; [done|]. exact HS.
Qed.

Lemma runAgent_served (f : F) fs flags env steps f' fs' effects r :
  runAgent f fs flags env steps = (f', fs', effects, r) → servedOf effects ≠ [] →
  ∃ token identityPath fs0 fs1 store fs2 relay ttl timeout application effects',
    agentToken flags env = Ok token ∧ agentIdentityPath flags env = Ok identityPath ∧
    LoadOrCreate fs0 (ae_readIdentity env) (ae_saveIdentity env) (ae_lock env) identityPath EmptyString EmptyString
      (ae_generated env) = (fs1, Ok store) ∧ servedOf effects' ≠ [] ∧
    runServer fs2 flags env application token (initial ttl timeout (fs2, store)) relay steps = (fs', effects', r).
Proof.
  unfold runAgent. intros HR Hs. destruct (agentOptions f flags env) as [f1 [o|]]; [|by simplify_eq].
  destruct (af_diagnose flags); [destruct (collectDiagnostics _ _ _ _ _ _); by simplify_eq|].
  destruct (checkOptions f1 env o) as [f2 [[]|]]; [|by simplify_eq].
  destruct (agentToken flags env) as [token|]; [|by simplify_eq].
  destruct (agentIdentityPath flags env) as [identityPath|]; [|by simplify_eq].
  unfold runIdentity in HR. destruct (LoadOrCreate _ _ _ _ _ _ _ _) as [fs1 [store|]] eqn:HL; [|by simplify_eq].
  apply during_served in HR as (effects1 & HR & Hs1). rewrite Hs1 in Hs. case_bool_decide.
  - destruct (runPairing_served _ _ _ _ _ _ _ _ _ _ _ _ _ HR Hs) as (ttl & timeout & application & effects2 & ? & ?).
    by exists token, identityPath, fs, fs1, store, fs1, None, ttl, timeout, application, effects2.
  - destruct (openRelay _ _ _ _ _ _) as [fs2 [manager|]]; [|by simplify_eq].
    apply during_served in HR as (effects2 & HR & Hs2). rewrite Hs2 in Hs.
    destruct (runPairing_served _ _ _ _ _ _ _ _ _ _ _ _ _ HR Hs) as (ttl & timeout & application & effects3 & ? & ?).
    by exists token, identityPath, fs, fs1, store, fs2, (Some manager), ttl, timeout, application, effects3.
Qed.

Lemma LoadOrCreate_path fs sysRead sys lc p dn pl g fs' store :
  LoadOrCreate fs sysRead sys lc p dn pl g = (fs', Ok store) → DeviceIdentity.path store = p.
Proof. unfold LoadOrCreate. intros HL. by repeat case_match; simplify_eq. Qed.

Definition isHandled (step : ServeStep) : Prop := match step with Handled _ => True | Elsewhere _ => False end.

Lemma servedRegister_handled q steps a published : Forall isHandled steps → servedRegister q a published steps = published.
Proof.
  revert a. induction steps as [|step steps IH]; intros a Hall; [done|]. apply Forall_cons in Hall as [Hstep Hall].
  destruct step; [|done]. by apply IH.
Qed.

(** ** Properties *)


End AgentRun.
