(* ===== verification/AgentExamples.v ===== *)
(** * The Agent as a program, executed

    The management endpoints, the recovery command, the tray and a run of the Agent.
    First the endpoints: the local user asks for a pairing code, a phone pairs with it, is approved over
    HTTP, and revoked; a stranger gets nothing.  The toy Noise, codecs and keys are
    those of [PairingExamples]. *)

From S2P Require Import Prelude.
From S2P Require Import Utf8.
From S2P Require Import Encoding.
From S2P Require Import SecureStore.
From S2P Require Import Ticket.
From S2P Require Import DeviceIdentity.
From S2P Require Import DeviceIdentityFacts.
From S2P Require Import DeviceIdentityExamples.
From S2P Require Import Pairing.
From S2P Require Import PairingFacts.
From S2P Require Import Handshake.
From S2P Require Import PairingFlow.
From S2P Require Import PairingFlowFacts.
From S2P Require Import PairingTransport.
From S2P Require Import PairingTransportFacts.
From S2P Require Import PairingExamples.
From S2P Require Import Path.
From S2P Require Import Workspace.
From S2P Require Import PairedSession.
From S2P Require Import RelayClient.
From S2P Require Import GoNet.
From S2P Require Import AgentConfig.
From S2P Require Import Startup.
From S2P Require Import AgentManagement.
From S2P Require Import AgentLog.
From S2P Require Import SessionServer.
From S2P Require Import RuntimeState.
From S2P Require Import ServiceTask.
From S2P Require Import RelayExamples.
From S2P Require Import RelayClientExamples.
From S2P Require Import ServiceCommand.
From S2P Require Import ServiceExamples.
From S2P Require Import AgentManagementFacts.
From S2P Require Import Recover.
From S2P Require Import Tray.
From S2P Require Import AgentRun.

#[local] Existing Instance toyCrypto.
#[local] Existing Instance stateJson.
#[local] Existing Instance envelopeJson.
#[local] Existing Instance toyNoise.
#[local] Existing Instance contextMsg.
#[local] Existing Instance initiatorMsg.
#[local] Existing Instance responderMsg.
#[local] Existing Instance finishMsg.
#[local] Existing Instance sessionInitiatorMsg.
#[local] Existing Instance sessionResponderMsg.
#[local] Existing Instance approvals.
#[local] Existing Instance startMsg.
#[local] Existing Instance responseMsg.
#[local] Existing Instance lastMsg.
#[local] Existing Instance demo_crypto.
#[local] Existing Instance toy_encoder.

(** One computer; a URL is its text. *)
Definition phoneURL : string := "http://192.168.1.5:8080/".
#[local] Instance lanUrl : GoUrl := {
  URL := string;
  url_Parse s := Ok s;
  url_Scheme _ := "http";
  url_Host _ := "192.168.1.5:8080";
  url_HasUser _ := false;
  url_Path _ := "/";
  url_RawQuery _ := EmptyString;
  url_Fragment _ := EmptyString;
  url_SetFragment u f := (u ++ "#" ++ f)%string;
  url_String u := u;
}.
#[local] Instance lanPhone : @PhoneUrl lanUrl := {| url_Hostname _ := "192.168.1.5"%string; url_Root _ := phoneURL |}.
#[local] Instance lanQr : QrCode := fun text => Ok (bytes_of_string text).
#[local] Instance lanCodec : InvitationCodec := {|
  invitation_Marshal _ := Ok ["050"%byte];
  invitation_Unmarshal _ := Err (ErrorString "not decodable");
  invitation_Size _ := 1;
|}.

Definition secretToken : string := "s3cret".
Definition agent0 : agentManagement :=
  match newAgentHTTPHandler "192.168.1.5:8080" secretToken (Ok []) (initial DefaultTTL DefaultApprovalTimeout (files0, store0)) None with
  | Ok m => m
  | Err _ => mkAgentManagement EmptyString EmptyString (initial 0 0 (files0, store0)) None EmptyString (RateLimit.newRateLimiter 0 0)
  end.

Example agent0_ok :
  newAgentHTTPHandler "192.168.1.5:8080" secretToken (Ok []) (initial DefaultTTL DefaultApprovalTimeout (files0, store0)) None
    = Ok agent0 ∧ pairingBase agent0 = phoneURL.
Proof. vm_compute. done. Qed.

Definition noMinting : Minting :=
  mkMinting 0 (Err (ErrorString "no entropy")) (Err (ErrorString "no entropy")).
Definition env0 : ManagementEnv :=
  mkManagementEnv createdTime createdTime time1 createdTime (Ok []) (Ok invitationID) (Ok bootstrap) noFault
    (Err (ErrorString "no entropy")) noMinting noMinting.

Definition noForm : string → string := fun _ => EmptyString.
Definition request (path method token : string) (form : string → string) : ManagementRequest :=
  mkManagementRequest path method "127.0.0.1:50000" EmptyString token (Ok form) (Err (ErrorString "EOF")).

Definition demoFlow : string := RawURL_Encode (fill 16 "061").
Definition flowForm : string → string := fun key => if bool_decide (key = "flow_id"%string) then demoFlow else EmptyString.
Definition deviceForm : string → string := fun key =>
  if bool_decide (key = "device_id"%string) then RawURL_Encode (fill 16 "002") else EmptyString.
Definition codeRequest := request localPairingCodePath "GET" secretToken noForm.
Definition approveRequest := request localPairingApprovePath "POST" secretToken flowForm.
Definition revokeRequest := request localRevokePath "POST" secretToken deviceForm.

Definition agent_world0 : AgentWorld := mkAgentWorld agent0 [].
Definition beforeApproval : list AgentStep :=
  [RequestStep env0 codeRequest; PhoneStep Connect;
   PhoneStep (StartFrame 0 (demo_env "061") (binary ["050"%byte]) (Ok tt));
   PhoneStep (FinishFrame 0 createdTime createdTime (binary lastOf.2) (Ok tt))].
Definition approval : AgentStep := RequestStep env0 approveRequest.

Definition asked : AgentWorld := agent_run agent_world0 beforeApproval.
Definition approved : AgentWorld := agent_step asked approval.

Definition replyStatus (reply : Reply) : Z :=
  match reply with HttpError status _ => status | Redirect _ => 303 | _ => 200 end.

Example pairing_over_http :
  state (trust asked).2 = state store0 ∧ state (trust approved).2 = state1 ∧
  map (fun token => replyStatus (serveManagement (management asked) env0
         (request localPairingApprovePath "POST" token flowForm)).2) [secretToken; EmptyString; "guess"%string]
    = [303; 401; 401].
Proof. vm_compute. done. Qed.

Lemma outsiders_change_nothing_witness :
  let r := request localRevokePath "POST" "guess" deviceForm in
  ~ owner (management approved) env0 r ∧
  flows (serveManagement (management approved) env0 r).1 = flows (management approved) ∧
  relayManager (serveManagement (management approved) env0 r).1 = relayManager (management approved).
Proof.
  intros r.
  assert (~ owner (management approved) env0 r) as Hn.
  { intros [_ Ht]. assert (token (management approved) = secretToken) as Heq by (vm_compute; reflexivity).
    rewrite Heq in Ht. clear Heq. vm_compute in Ht. discriminate Ht. }
  split; [exact Hn|]. pose proof (outsiders_change_nothing (management approved) env0 r Hn) as H.
  destruct (serveManagement (management approved) env0 r) as [m reply]. destruct H as (H1 & H2 & _). split; [exact H1|exact H2].
Defined.

Lemma trust_follows_the_user_witness :
  ∃ f i h, approvable (flows (management asked)) createdTime demoFlow f ∧ phones asked !! i = Some h ∧ shows h f ∧
    trust approved = (persistPeer time1 noFault (flow_peer f) (trust asked)).1.
Proof.
  assert (trust approved ≠ trust asked) as Hch.
  { intros Heq. assert (bool_decide (state (trust approved).2 = state (trust asked).2) = false) as Hf
      by (vm_compute; reflexivity). rewrite Heq, bool_decide_true in Hf by reflexivity. discriminate Hf. }
  destruct (trust_follows_the_user "192.168.1.5:8080" secretToken (Ok []) DefaultTTL DefaultApprovalTimeout
    (files0, store0) None agent0 beforeApproval approval (proj1 agent0_ok) Hch)
    as (e & r & form & Hstep & _ & _ & _ & _ & Hform & [[_ (f & i & h & Hap & Hi & Hs & _ & Htr)]|[Hp _]]).
  - injection Hstep as <- <-. injection Hform as <-. exists f, i, h. split_and!; [exact Hap|exact Hi|exact Hs|exact Htr].
  - injection Hstep as <- <-. vm_compute in Hp. discriminate Hp.
Defined.

(** ** A code asked for in the middle *)

Definition otherEnv : ManagementEnv :=
  mkManagementEnv createdTime createdTime time1 createdTime (Ok []) (Ok (fill 16 "032")) (Ok (fill 32 "033")) noFault
    (Err (ErrorString "no entropy")) noMinting noMinting.
#[local] Notation codeAgain := (serveManagement (management asked) otherEnv codeRequest).

Lemma code_request_spoils_pairing_witness :
  ∃ shown, codeAgain.2 = CodeReply shown ∧
    (let '(m, reply) := serveManagement codeAgain.1 env0 approveRequest in
     reply = HttpError 500 "could not persist pairing decision" ∧ current (flows m) = None ∧
     PairingFlow.identity (flows m) = PairingFlow.identity (flows (management asked))).
Proof.
  assert ((match codeAgain.2 with CodeReply _ => true | _ => false end) = true) as Hcode by (vm_compute; reflexivity).
  destruct codeAgain as [m1 reply] eqn:Hagain. cbn [fst snd] in Hcode |- *.
  destruct reply; try discriminate Hcode. exists invitation. split; [reflexivity|].
  assert ((fun f => (flow_id f, pending f, createdTime <? Snap_ExpiresAt (flow_snapshot f))) <$> current (flows (management asked))
    = Some (demoFlow, true, true)) as Hcheck by (vm_compute; reflexivity).
  destruct (current (flows (management asked))) as [f|] eqn:Hf; [|discriminate Hcheck].
  apply (inj Some), pair_equal_spec in Hcheck as [[Hid Hp]%pair_equal_spec Hnow].
  cbn beta in Hid, Hp, Hnow. apply Z.ltb_lt in Hnow.
  refine (proj1 (code_request_spoils_pairing (management asked) otherEnv codeRequest m1 invitation f env0 approveRequest
    flowForm (fill 16 "061") Hagain _ _ _ _ _ _)); try (vm_compute; reflexivity).
  - split_and!; [exact Hf|exact Hid|exact Hp|exact Hnow].
  - split; vm_compute; reflexivity.
Defined.

(** ** Revoked *)

#[local] Notation revokedReply := (serveManagement (management approved) env0 revokeRequest).


Definition listsRevoked (reply : Reply) : bool :=
  match reply with InfoReply devices _ => existsb Device_Revoked devices | _ => false end.

Example revoked_over_http :
  let m := revokedReply.1 in
  (map Rec_State (St_Authorized (state (store_of m))),
   replyStatus (serveManagement m env0 (request localRevokePath "POST" secretToken noForm)).2,
   listsRevoked (serveManagement m env0 (request localInfoPath "DELETE" secretToken noForm)).2)
  = ([STATE_REVOKED], 400, true).
Proof. vm_compute. reflexivity. Qed.

(** * Recovery, executed

    The phone of [DeviceIdentityExamples] is revoked by the command; an Agent that
    ran meanwhile authorizes a tablet and brings the phone back. *)

#[local] Existing Instance toyLaws.
#[local] Existing Instance stateJsonLaws.
#[local] Existing Instance envelopeJsonLaws.

(** A name that is longer than those of all files. *)
Definition longName (fs : Files) (p : string) : string :=
  string_of_list_ascii (replicate (S (String.length p + sum_list_with String.length (base.elements (dom fs : gset string)))) "t"%char).

Lemma longName_fresh fs p : fs !! longName fs p = None ∧ longName fs p ≠ p.
Proof.
  assert (String.length (longName fs p) = S (String.length p + sum_list_with String.length (base.elements (dom fs : gset string)))) as Hlen.
  { unfold longName. rewrite string_length_list. apply length_replicate. }
  split; [|intros Heq; rewrite Heq in Hlen; lia]. apply not_elem_of_dom. intros Hin%elem_of_elements.
  assert (∀ l s, s ∈ l → (String.length s <= sum_list_with String.length l)%nat) as Hsum.
  { intros l s Hs. induction Hs; simpl; lia. }
  specialize (Hsum _ _ Hin). lia.
Qed.

Definition noLock : LockCalls := mkLockCalls (Ok tt) (Ok tt) (Ok tt) (Ok tt) (Ok tt).
Definition noGenerated : Generated :=
  mkGenerated (Err (ErrorString "unused")) (Err (ErrorString "unused")) (Err (ErrorString "unused")) 0 "linux".
Definition calmSys (temporary : string) : Syscalls :=
  mkSyscalls (Ok tt) (Ok temporary) (Ok tt) None (Ok tt) (Ok tt) (Ok tt) (Ok tt) (Ok tt) true.
Definition calmCalls : RevokeCalls := fun _ fs => (time1, calmSys (longName fs identityPath)).

Lemma calmCalls_fresh : FreshCalls calmCalls identityPath.
Proof. intros n fs. split; [|done]. intros tmp [= <-]. apply longName_fresh. Qed.

Definition recovered := recoverRevokeAll files1 true None None noFault noLock noGenerated calmCalls identityPath.

Lemma recovered_ok : recovered = (recovered.1, Ok (AllRevoked 1 1)).
Proof.
  assert (recovered.2 = Ok (AllRevoked 1 1)) as Hr by (vm_compute; reflexivity).
  rewrite <- Hr. apply surjective_pairing.
Qed.

Example recovered_once :
  loadState recovered.1 None identityPath = Ok state2 ∧
  (recoverRevokeAll recovered.1 true None None noFault noLock noGenerated calmCalls identityPath).2 = Ok NothingToRevoke.
Proof. vm_compute. split; reflexivity. Qed.

Example listed_after :
  match recoverList recovered.1 None identityPath with
  | Ok (epoch, [Some line]) => (epoch, Listed_Name line, Listed_Revoked line) = (1, "Phone"%string, true)
  | _ => False
  end.
Proof. vm_compute. reflexivity. Qed.

Lemma recover_revokes_all_witness :
  ∃ st', loadState recovered.1 None identityPath = Ok st' ∧ Recovered state1 st' (AllRevoked 1 1).
Proof.
  pose proof recovered_ok as HR.
  destruct (recover_revokes_all files1 true None None noFault noLock noGenerated calmCalls identityPath state1
    recovered.1 (Ok (AllRevoked 1 1))) as [(st' & Hl & _ & _ & Hrec) _].
  - vm_compute. reflexivity.
  - exact valid_state1.
  - intros e He. discriminate He.
  - exact calmCalls_fresh.
  - exact HR.
  - exists st'. split; [exact Hl|exact Hrec].
Defined.

(** The Agent of [store1] has not seen it. *)
Definition tabletSys : Syscalls := calmSys (longName recovered.1 identityPath).
Definition tabletAuthorized := Authorize recovered.1 store1 time1 tabletSys (Some tablet).

Lemma running_agent_undoes_recovery_witness :
  ∃ st1 r1 st2, loadState recovered.1 None identityPath = Ok st1 ∧ devices st1 !! fill 16 "002" = Some r1 ∧
    Rec_State r1 = STATE_REVOKED ∧ loadState tabletAuthorized.1.1 None identityPath = Ok st2 ∧
    devices st2 !! fill 16 "002" = Some (authorizedRecord ["011"%byte] 1 time1) ∧
    St_RevocationEpoch st2 < St_RevocationEpoch st1.
Proof.
  pose proof recovered_ok as HR.
  assert ((is_ok tabletAuthorized.2, bool_decide (state tabletAuthorized.1.2 = state11)) = (true, true)) as Hok
    by (vm_compute; reflexivity).
  destruct tabletAuthorized as [[fs2 agent'] [view|e]] eqn:HA; [|discriminate Hok].
  apply pair_equal_spec in Hok as [_ Hst]. apply bool_decide_eq_true in Hst. cbn [fst snd] in Hst |- *.
  refine (running_agent_undoes_recovery files1 store1 None None noFault noLock noGenerated calmCalls recovered.1
    (AllRevoked 1 1) time1 tabletSys tablet fs2 agent' view (fill 16 "002") (authorizedRecord ["011"%byte] 1 time1)
    _ valid_state1 _ calmCalls_fresh HR _ _ HA _ _ _ _).
  - vm_compute. reflexivity.
  - intros e He. discriminate He.
  - intros tmp Htmp. injection Htmp as <-. apply longName_fresh.
  - vm_compute. discriminate.
  - rewrite Hst. vm_compute. discriminate.
  - vm_compute. reflexivity.
  - reflexivity.
  - intros d Hd. vm_compute in Hd. injection Hd as <-. vm_compute. discriminate.
Defined.

(** A device that is authorized again keeps its place: the one announced is the
    last of the list, another one. *)
Example wrong_device_announced :
  let before := store0 <| state := state11 <| St_Authorized := [revokedRecord 3 1 time1 (authorizedRecord ["011"%byte] 1 time1);
                                                               authorizedRecord ["013"%byte] 2 time1] |> |> in
  let after := store0 <| state := state11 |> in
  recoverPoll (authorizedDeviceCount before) before = None ∧
  recoverPoll (authorizedDeviceCount before) after = Some (Some ("Tablet"%string, "ios"%string)).
Proof. vm_compute. done. Qed.

(** * The tray, executed

    The tray of the Agent above: it asks for the status while
    a phone is pairing, shows its code, and approves it after another phone has been
    turned away. *)

#[local] Existing Instance lanUrl.
#[local] Existing Instance lanPhone.
#[local] Existing Instance lanQr.
#[local] Existing Instance lanCodec.

#[local] Instance localPairingStatus_eq_dec : EqDecision localPairingStatus.
Proof. solve_decision. Defined.

Definition statusRequest := request localPairingStatusPath "GET" secretToken noForm.
Definition statusOf (reply : Reply) : localPairingStatus :=
  match reply with StatusReply st => st | _ => mkPairingStatus EmptyString EmptyString EmptyString EmptyString EmptyString None end.
Definition askedStatus : localPairingStatus := statusOf (serveManagement (management asked) env0 statusRequest).2.

#[local] Instance statusJson : JsonCodec localPairingStatus := {
  json_Marshal := table_encode [(askedStatus, ["1"%byte])];
  json_Decode := table_decode [(askedStatus, ["1"%byte])];
  json_Extra _ := ExtraEOF;
}.

Lemma asked_owner path method form : owner (management asked) env0 (request path method secretToken form).
Proof. split; vm_compute; reflexivity. Qed.

Lemma beforeApproval_ids : Forall fullID beforeApproval.
Proof. repeat (constructor; [try exact I|]); [|constructor]. intros raw [= <-]. vm_compute. reflexivity. Qed.

Lemma tray_accepts_every_status_witness :
  queryTrayPairingStatus (Ok (200, ["1"%byte])) = Ok askedStatus.
Proof.
  destruct (tray_accepts_every_status "192.168.1.5:8080" secretToken (Ok []) DefaultTTL DefaultApprovalTimeout
    (files0, store0) None agent0 beforeApproval env0 statusRequest (proj1 agent0_ok) beforeApproval_ids
    (asked_owner _ _ _) eq_refl eq_refl) as (m' & st & HS & Hbody).
  assert (st = askedStatus) as Hst.
  { unfold askedStatus, asked, agent_world0. rewrite HS. reflexivity. }
  rewrite Hst in Hbody. apply Hbody. vm_compute. reflexivity.
Defined.

(** What the tray shows, and the approval after another phone was turned away. *)
Definition otherPhone : list AgentStep :=
  [PhoneStep Connect; PhoneStep (StartFrame 1 (demo_env "062") (binary ["050"%byte]) (Ok tt))].
Definition shownMenu : TrayMenu := trayRefresh initialMenu (Ok "Agent online"%string) (Ok askedStatus).
Definition shownWorld : AgentWorld :=
  agent_run (mkAgentWorld (serveManagement (management asked) env0 statusRequest).1 (phones asked)) otherPhone.
#[local] Notation allowed := (serveManagement (management shownWorld) env0 approveRequest).

Example tray_executed :
  decisionsEnabled shownMenu = true ∧ trayDecision shownMenu = Some demoFlow ∧ slen (codeTitle shownMenu) = 28 ∧
  replyStatus allowed.2 = 303 ∧
  let t := afterDecision shownMenu (postTrayPairingDecision (Ok (303, []))) (Ok "Agent online"%string)
             (Ok (statusOf (serveManagement allowed.1 env0 statusRequest).2)) in
  requestTitle t = "No pairing request"%string ∧ trayDecision t = None.
Proof. vm_compute. done. Qed.

Lemma tray_approves_what_it_shows_witness :
  ∃ f, current (flows (management asked)) = Some f ∧
    codeTitle shownMenu = ("Verification code · " ++ Snap_SAS (flow_snapshot f))%string ∧
    PairingFlow.identity (flows allowed.1) = (persistPeer time1 noFault (flow_peer f) (trust shownWorld)).1.
Proof.
  assert ((match allowed.2 with Redirect _ => true | _ => false end) = true) as Hred by (vm_compute; reflexivity).
  destruct allowed as [m2 reply] eqn:Hallowed. cbn [fst snd] in Hred |- *. destruct reply; try discriminate Hred.
  assert ((match (serveManagement (management asked) env0 statusRequest).2 with StatusReply _ => true | _ => false end) = true)
    as Hstatus by (vm_compute; reflexivity).
  assert (askedStatus = statusOf (serveManagement (management asked) env0 statusRequest).2) as Hst by reflexivity.
  unfold shownWorld in Hallowed |- *.
  destruct (serveManagement (management asked) env0 statusRequest) as [m1 first] eqn:Hfirst. cbn [fst snd] in Hstatus, Hst, Hallowed |- *.
  destruct first; try discriminate Hstatus. cbn [statusOf] in Hst. subst status.
  destruct (tray_approves_what_it_shows "192.168.1.5:8080" secretToken (Ok []) DefaultTTL DefaultApprovalTimeout
    (files0, store0) None agent0 beforeApproval env0 statusRequest m1 askedStatus initialMenu (Ok "Agent online"%string)
    otherPhone demoFlow env0 approveRequest flowForm m2 location (proj1 agent0_ok) beforeApproval_ids
    (asked_owner _ _ _) eq_refl eq_refl Hfirst) as (f & Hf & _ & Hcode & _ & Hident).
  - vm_compute. reflexivity.
  - constructor; [exact I|]. constructor; [|constructor]. intros raw [= <-]. vm_compute. discriminate.
  - reflexivity.
  - reflexivity.
  - vm_compute. reflexivity.
  - exact Hallowed.
  - exists f. split; [exact Hf|]. split; [exact Hcode|]. exact Hident.
Defined.

(** * A run of the Agent, executed

    The Agent is started with an identity that is there and the configuration of
    [AgentConfig], publishes its runtime state, serves, and is stopped. *)

#[local] Existing Instance toy_json.
#[local] Existing Instance runtimeJson.
#[local] Existing Instance runtimeJsonLaws.

Definition runFlags (diagnose : bool) : AgentFlags :=
  mkAgentFlags (defaultOptions "sh") "/w/config.json" EmptyString diagnose false runtimePath identityPath EmptyString
    "first" [] (fun flag => bool_decide (flag = "addr"%string)).

Definition runEnv (stop : StopSource) : AgentEnv :=
  mkAgentEnv false demo_environment (Ok tt) (Ok 2) (Ok ["{"; "}"]%byte) true
    (mkDiagnoseEnv false "linux/amd64" (Err ErrUnsupported) (Ok tt) false)
    (fun name => bool_decide (name = "/bin/sh"%string)) (Ok "/w"%string) (Err (ErrorString "unused"))
    (Err (ErrorString "unused")) None noFault noLock noGenerated None (Err (ErrorString "unused")) (Ok tt)
    (Ok "127.0.0.1:8787"%string) (Ok []) 7 (1700000000 * Second) (temporary ".runtime-1.tmp") stop (Ok tt) (Ok tt) None None.

Definition codeStep : ServeStep := Handled (RequestStep env0 (request localPairingCodePath "GET" "first" noForm)).
Definition takenOver : ServeStep := Elsewhere (Publish (temporary ".runtime-2.tmp") (agentState 8 "second")).

Definition executedRun (stop : StopSource) (steps : list ServeStep) :=
  runAgent example_tree files0 (runFlags false) (runEnv stop) steps.

(** A clean end; the listener fails; another Agent has taken the file over. *)
Example agent_runs :
  let '(_, fs1, effects1, r1) := executedRun StopSignal [codeStep] in
  let '(_, fs2, effects2, r2) := executedRun (StopServe (Some (ErrorString "accept"))) [codeStep] in
  let '(_, fs3, effects3, r3) := executedRun StopSignal [codeStep; takenOver] in
  map is_ok [r1; r2; r3] = [true; false; true] ∧
  logOf effects1 = lifeLog ReasonSignal (Ok tt) ∧ logOf effects2 = lifeLog ReasonListenerError r2 ∧
  (fs1 !! runtimePath, fs2 !! runtimePath, fs3 !! runtimePath) = (None, None, Some ["8"; "010"]%byte) ∧
  List.filter (fun e => match e with Logged _ | Served _ => false | _ => true end) effects1 =
    [Opened IdentityStore; Opened PairingInvitations; Opened SessionApplication; Opened Listener;
     Closed SessionApplication; Closed Listener; Closed PairingInvitations; Closed IdentityStore] ∧
  (fun application => Config_Command application) <$> servedOf effects1 = [["/bin/sh"; "-l"]%string].
Proof. vm_compute. done. Qed.

(** [--diagnose] opens nothing. *)
Example agent_diagnoses :
  let '(_, fs, effects, r) := runAgent example_tree files0 (runFlags true) (runEnv StopSignal) [] in
  (effects, r) = ([], Ok tt).
Proof. vm_compute. done. Qed.

